(* ===== verification/_CoqProject ===== *)
-Q . S2P
Prelude.v
Window.v
Sorting.v
Store.v
Actions.v
Limits.v
EmailRecord.v
SmsRecord.v
RuleRecord.v
IpEmailRecord.v
UidRecord.v
IpRecord.v
Reputation.v
Records.v
Text.v
Settings.v
Blocklist.v
UserRules.v
Dataflow.v
Server.v
ServerLaws.v
Recovery.v
Guessing.v
ScopeValues.v
Scopes.v
Grant.v
CustomsClient.v
AuthChecks.v
Redis.v
Reminders.v
Tokens.v
SignIn.v
TokenEndpoint.v
OAuthStore.v
Assertion.v
Authorization.v
OAuthRoutes.v
Bytes.v
KeyBundle.v
AccountStore.v
PasswordFlows.v
Login.v
LoginLock.v
Routes.v
SecondFactor.v
EmailRoutes.v
AccountRoutes.v
RouteLaws.v
AccountSystem.v
FactorLaws.v
AccountTypes.v
AccountLaws.v
Lineage.v
ForgotGuesses.v
ConnectedServices.v
ConnectedLaws.v
AuthorizedClients.v
PushBox.v
Devices.v
Push.v
DeviceRoutes.v
DeviceLaws.v
DeviceSystem.v
Firestore.v
PlayPurchases.v
PlayLaws.v
AppStorePurchases.v
Plans.v
Capabilities.v
CapabilityLaws.v
PaymentRoutes.v
PaymentLaws.v
MetricsContext.v
MetricsEvents.v
MetricsLaws.v
