(* ===== verification/Prelude.v ===== *)
(** * Firefox Accounts: rate limits, accounts, devices, keys, OAuth, subscriptions

    A verification library for the JavaScript servers of the repository.  The
    paths below are relative to packages/.

    ** The program

    - The customs server (fxa-customs-server/lib) answers, for every sensitive
      request of the auth server, whether it is to be let through.  It keeps
      one record per e-mail address, IP address, pair of both, phone number,
      user id and user-defined rule; the records live in memcached and expire
      there.  Limits, allowlists and blocklists are hot-loaded; bans arrive by
      hand or from the Dataflow pipeline; violations are reported to the IP
      reputation service.
    - The auth server (fxa-auth-server/lib) asks the customs server through
      its client (customs.js) before it checks a password or sends a code,
      reports failures back, keeps accounts, sessions, second factors and the
      wrapped encryption keys in MySQL, schedules reminder e-mails in redis,
      and grants OAuth access with tokens kept in redis and MySQL.  It keeps
      the devices of an account, queues commands for them and notifies them
      through a push service.  It records subscriptions bought in an app in
      Firestore, and tells the relying parties which capabilities the
      subscriptions of a user give.
    - The client library (fxa-auth-client/lib) derives credentials from a
      password and unwraps the keys of an account.
    - OAuth scopes (fxa-shared/oauth/scopes.js) decide what a grant allows;
      connected services (fxa-shared/connected-services) list what is attached
      to an account.

    ** The files

    Shared: [Prelude] (JavaScript numbers, arrays, objects with inherited
    names; tactics, hint databases, list lemmas), [Window] (sliding windows of
    timestamps: the trimming loop all records share, the interface
    [WindowLimiter] a record implements, an abstract limiter with full memory
    and the theorems proved once against the interface), [Store] (memcached as
    the class [Memcached] with [MemcachedLaws]), [Redis] (likewise for the
    sorted sets and keys of redis), [Sorting] (sort with a comparison, and when
    a comparison is fit for it).

    Customs server: [Actions] (actions.js), [Limits] (settings/limits.js),
    [EmailRecord], [IpRecord], [IpEmailRecord], [SmsRecord], [UidRecord],
    [RuleRecord] (the *_record.js files and record.js: a record [t] of the
    stored fields and one definition per method), [Records] (records.js, over
    the class [Storable] of record kinds), [Text] (normalizedEmail of
    server.js, utils.js), [Settings] (settings/*.js, over the class
    [SettingsKind]), [Blocklist] (ip_blocklist.js, ip_blocklist_manager.js),
    [UserRules] (user_defined_rules.js), [Reputation] (reputationService.js),
    [Dataflow] (bans/handler.js, dataflow.js), [Server] (the handlers of
    server.js as functions of the record store and the reported violations)
    and [ServerLaws], [Recovery] and [Guessing] (the theorems on them, the
    last two over histories of requests).

    Auth server and shared code: [ScopeValues] and [Scopes]
    (fxa-shared/oauth/scopes.js: implicants of scope values, the ScopeSet
    class), [Grant] (oauth/grant.js), [TokenEndpoint] (routes/oauth/token.js,
    oauth/client.js, oauth/token.js), [CustomsClient] (customs.js),
    [AuthChecks] (bounces.js, authMethods.js), [Reminders]
    (verification-reminders.js, subscription-account-reminders.js,
    cad-reminders.js), [Tokens] (tokens/token.js, session_token.js,
    password_forgot_token.js), [SignIn] (routes/utils/signin.js, composed with
    [CustomsClient] and [Server]).

    OAuth: [OAuthStore] (oauth/db/*: access tokens, refresh tokens and codes
    over redis with its Lua scripts and over MySQL, as operations of one state
    and a step relation), [Assertion] (oauth/util.js, oauth/assertion.js,
    serverJWT.js), [Authorization] (routes/oauth/authorization.js),
    [OAuthRoutes] (routes/oauth/destroy.js, introspect.js, key_data.js).

    Keys and accounts: [Bytes] (hexadecimal, xor, comparison of buffers),
    [KeyBundle] (tokens/bundle.js, key_fetch_token.js, crypto/*.js and the
    derivations of fxa-auth-client, over the class [Crypto] with
    [CryptoLaws]), [AccountStore] (the tables of db/index.js with the models
    of fxa-shared/db/models/auth and the stored procedures, as one record [DB]
    and one function per operation), [PasswordFlows] (routes/password.js, the
    keys and reset of routes/account.ts, with the client's accountKeys and
    passwordChange), [Login] (login of routes/account.ts), [LoginLock]
    (histories of logins with the customs server), [Routes] (the
    state and error monad [Act] in which the other routes are written, over
    customs, the database and redis; one-time codes as the class [Otp]),
    [SecondFactor] (routes/totp.js, recovery-codes.js, recovery-key.js,
    session.js), [EmailRoutes] (routes/emails.js, unblock-codes.js),
    [AccountRoutes] (creation, stubs, status, profile and destruction of
    routes/account.ts), [RouteLaws] (rules for the monad and shared lemmas),
    [AccountSystem] (all of the account routes as one transition system),
    [FactorLaws] and [AccountLaws] (theorems on single routes), [Lineage],
    [AccountTypes] and [ForgotGuesses] (theorems on all histories of the
    transition system).

    Devices: [ConnectedServices] (fxa-shared/connected-services: the factory
    of attached clients, whose shared objects are positions of a list, the
    merging with redis and the formatters) and [ConnectedLaws],
    [AuthorizedClients] (oauth/authorized_clients.js), [PushBox] (pushbox/*:
    the table of commands), [Devices] (the tables of devices, commands and
    sessions with db/models/auth/device.ts, the device functions of
    db/index.js and the credentials of a request), [Push] (push.js),
    [DeviceRoutes] (devices.js, routes/devices-and-sessions.js and
    attached-clients.js, in a monad [Do] over customs, the tables, the OAuth
    store and the queue; what is not waited for is a task that runs later),
    [DeviceLaws] (theorems on the tables and on pushes) and [DeviceSystem]
    (the routes as one transition system, and theorems on them).

    Subscriptions: [Firestore] (the collections of purchases as a class with
    its laws, and documents), [PlayPurchases] (the purchase objects and the
    two managers of payments/iap/google-play, shared and of the auth server)
    and [PlayLaws], [AppStorePurchases] (likewise for the App Store), [Plans]
    (payments/configuration/manager.ts, subscriptions/*.ts and what
    payments/stripe.ts does with plans), [Capabilities]
    (payments/capability.ts) and [CapabilityLaws], [PaymentRoutes]
    (payments/iap/iap-config.ts, the in-app routes of routes/subscriptions)
    and [PaymentLaws].

    Metrics: [MetricsContext] (flow ids of
    fxa-content-server/server/lib/flow-metrics.js, metrics/context.js with its
    cache as a class), [MetricsEvents] (metrics/events.js, the filters of
    log.js, opting out) and [MetricsLaws].

    ** What the theorems show

    - Rate limits.  Trimmed arrays decide exactly as a limiter that remembers
      everything ([sms_refines_window], [ip_email_refines_guard],
      [ip_bad_logins_exact], [ip_unique_emails_exact], [uid_addCount_exact])
      and bound what passes in any window ([email_sending_limited],
      [rule_limited]).
    - The handlers.  The decision of /check on every branch, bans, rules and
      failures of the store included ([check_decision]), its failures ([check_fails_closed]), allowlists and
      bans ([check_allowlisted], [check_banned_ip], [blockIp_then_check],
      [dataflow_message]), and the record store behind them
      ([record_roundtrip], [blocklist_contains_exact],
      [settings_push_on_missing]).
    - Recovery.  [lockout_ends]: whatever was handled, a lockout is over once
      nothing has named its subjects for the longest lifetime of a record.
    - End to end.  [password_guessing_blocked]: over any history of requests
      without a password reset of the e-mail, enough failed logins block every
      password check of the pair of address and e-mail up to the end of the
      interval, through the handlers and the store.
      [wrong_passwords_lock_login]: the same for histories of logins, from the
      password check of the auth server to its sign-in gate, through the
      customs client.  [client_check_exact], [signin_gate_exact],
      [signin_refusal_hides_account] and [signin_mail_matches_status] say
      exactly when and how signing in goes on.
    - Scopes.  [scopes_fromArray] (the invariant of ScopeSet),
      [scopes_contains_exact], [scopes_algebra], [scopes_string_roundtrip],
      and the implicants against their documented meaning
      ([short_implicants_exact], [url_implicants_exact]).
    - OAuth.  [grant_policy_exact], [tokens_exact], [code_claim_exact],
      [code_single_use], [refresh_exact], [refresh_one_off],
      [client_authentication], [access_token_accepted].
    - OAuth end to end.  [code_flow_exact]: from the assertion of a session to
      the tokens, through the database.  [oauth_revocation_complete],
      [oauth_index_complete], [oauth_store_bounded] and
      [access_token_roundtrip] are invariants and round trips of the store in
      every reachable state; [oauth_destroy_exact], [key_data_exact],
      [introspect_verify_agree] and [session_authorization] say exactly what
      the routes do.
    - Keys.  [bundle_exact] and [key_fetch_roundtrip] (what the server bundles
      the client opens), [password_change_keeps_keys] and
      [account_reset_exact] (when the keys survive a change of password),
      [login_keys_follow_session] (keys are held back until the session is
      verified), [forgot_code_guesses] (a mailed code can be guessed three
      times, whatever other requests to the account routes come).
    - Second factors.  [second_factor_lineage]: over every history of account
      routes a session counts as two-factor authenticated only by a right
      code or by a password change made with such a session.
      [recovery_codes_refine_set] refines recovery codes to a set of one-time
      codes, up to collisions of scrypt.
    - Accounts.  [account_database_typed]: the tables stay well formed under
      every history of the account routes.  [account_create_exact] says what
      creating an account leaves.
    - Devices.  [device_tables_kept]: the constraints of the tables hold after
      every sequence of requests and tasks.  [device_list_exact] (what is
      listed is what is stored), [device_update_exact], [device_destroyed],
      [push_exact] (who is notified, and that only dead endpoints are marked),
      [queue_drained] and [command_retrieved] (a queue is read completely and
      in order, and an announced command is found), [attached_clients_join]
      and [authorized_clients_exact] (the lists of what is attached).
    - Subscriptions.  [play_purchase_single_owner] and
      [app_store_purchase_single_owner]: a purchase is registered to one
      account, whatever happens later and whatever Firestore rejects.
      [replaced_chain_disabled] and [replaced_purchase_stays_replaced]: the
      purchases that a purchase replaced are disabled up to the first one that
      is stored already, however the links run, and never count again.  [client_capabilities_exact],
      [visible_capabilities_exact], [capability_changes_announced] and
      [plan_eligibility_exact]: what prices give, who sees it, what a change
      announces and which plans a user may take.
    - Metrics.  [flow_id_servers_agree]: the auth server accepts exactly the
      flow ids in time that the content server accepts with their signature
      in lower case.
      [forged_flow_unlogged]: a refused flow id is neither logged nor stored.
      [flow_context_kept]: the context of a flow is the one stashed first.
    - Reminders.  [reminders_process_exact] for every interleaving of the
      concurrent callbacks, [reminders_at_most_once] over every history of
      calls, [reminders_reinstate].
    - Where the code does less than its comments say, a theorem states what it
      does: [reload_voids_flags], [uid_ban_lifted_early],
      [email_disabled_unlimited], [authenticated_retry_units],
      [user_rules_compute_exact], [unblock_code_reveals_account],
      [code_claimed_twice], [mail_code_skips_second_factor],
      [reauth_foreign_session], [change_start_skips_second_factor],
      [duplicate_forgets_authentication], [capital_codes_unusable],
      [unverified_address_released], [destroy_foreign_session],
      [released_address_stuck], [spurious_update_exact],
      [attached_destroy_errors], [pair_keys_collide], [login_lock_bypassed],
      [stored_link_ignored], [capital_signature_differs],
      [configured_capitals_unmatched],
      [opted_out_route_logged], [unawaited_context] and the lemmas named in
      the findings.

    ** Conventions, bounds and fuel

    Numbers of the sources are integers far below 2^53 and are [Z];
    [undefined] and [NaN] are [None] where the code can meet them.  A thrown
    error is [None] or a constructor of an error type, a rejected promise
    likewise.  Plain objects used as maps are association lists that know the
    names inherited from Object.prototype.  Loops are structural on the arrays
    they run over.  The one definition of the code that takes fuel is
    [disableReplacedSubscription], which follows links given by the Play API:
    [chain_fuel] is one more than the purchases the API knows, which is always
    enough ([replaced_chain_disabled]).  The polling of a
    device ([PushBox.drain]), which is not code of the repository, takes as
    many rounds as there are commands, and one more.  The callbacks of
    [Reminders.process] run under an arbitrary schedule, after which every
    callback is run to its end; the length of that tail is computed from the
    work left.  Random values are arguments: a request takes a record [Fresh]
    of the seeds it draws, and [new_unblock_code] the list of its draws, with
    a bound on how many are needed ([unblock_code_drawn]); [createDevice] takes
    the ids that it would draw.

    ** Parameters

    Code outside the repository is an argument with the behaviour relied on as
    a named hypothesis or class: memcached, redis, the account and OAuth
    databases, Firestore, the APIs of the two stores, the URL parser ([href_of]), the ip package, sha256 and PKCE
    hashes, hkdf, hmac, pbkdf2 and scrypt, one-time passwords, assertion and
    JWT signatures, the clock of a request, the randomness of a rollout.  Each class has an instance that satisfies its
    laws.

    ** Not modelled

    HTTP, Joi schemas, logging and Sentry, and metrics other than the context
    and the events of a request; timers (one poll is
    modelled, not the polling); the interleaving of concurrent requests to the
    customs server (each handler runs to its end, as if records were read and
    written at once); the order in which JavaScript enumerates integer-like
    keys; encryption.  Requests to the auth server run one after the other as
    well, except where a theorem speaks of overlapping ones.  Of the auth
    server, security events, linked accounts, the rendering of mail,
    amplitude, and the customers, invoices and webhooks of Stripe and
    PayPal, which are mostly calls of services; the lists of sessions and
    locations, which format what other definitions hold; the content, profile,
    payments and other servers, most of them user interfaces or thin layers
    over a database. *)

From Stdlib Require Export ZArith Lia Sorted.
From stdpp Require Export strings gmap list.

#[global] Open Scope Z_scope.

(** ** JavaScript values the sources compute with

    Timestamps, limits and counters are JavaScript numbers holding integers
    far below [2^53]; they are [Z] here.  [undefined] is [None] of an
    [option]. *)

Declare Scope js_scope.
Delimit Scope js_scope with js.

(** A JavaScript number that may be [NaN] (or [undefined] used as a number):
    [None] is [NaN], every comparison with it is false. *)
Definition num := option Z.

Definition num_ltb (a b : num) : bool :=
  match a, b with Some x, Some y => x <? y | _, _ => false end.

Definition num_gtb (a b : num) : bool := num_ltb b a.

Definition num_add (a b : num) : num :=
  match a, b with Some x, Some y => Some (x + y) | _, _ => None end.

(** [Math.max(a, b)]: [NaN] as soon as one argument is. *)
Definition num_max (a b : num) : num :=
  match a, b with Some x, Some y => Some (Z.max x y) | _, _ => None end.

(** [x || d] on a number: [undefined], [NaN] and [0] are falsy. *)
Definition num_or (a : num) (d : Z) : Z :=
  match a with Some x => if x =? 0 then d else x | None => d end.

Notation "a '<?js' b" := (num_ltb a b) (at level 70, no associativity) : js_scope.
Notation "a '>?js' b" := (num_gtb a b) (at level 70, no associativity) : js_scope.

(** [x || 0] *)
Definition or0 (a : option Z) : Z := num_or a 0.

(** [!!(ts && now() - ts < interval)]: a flag raised at [ts] is still up. *)
Definition active (ts : option Z) (interval now : Z) : bool :=
  match ts with
  | Some t => negb (t =? 0) && (now - t <? interval)
  | None => false
  end.

(** The same test against an interval that may be [undefined]. *)
Definition active_opt (ts interval : option Z) (now : Z) : bool :=
  match interval with Some i => active ts i now | None => false end.

(** [Math.ceil(x / 1000)] on an integer number of milliseconds. *)
Definition ceil1000 (x : Z) : Z := - ((- x) / 1000).

Lemma ceil1000_sign x : 0 < ceil1000 x <-> 0 < x.
Proof. unfold ceil1000. pose proof (Z.div_mod (- x) 1000). pose proof (Z.mod_pos_bound (- x) 1000). lia. Qed.

(** Truthiness of strings and optional strings. *)
Definition str_truthy (s : string) : bool := negb (String.eqb s "").

Definition ostr_truthy (s : option string) : bool :=
  match s with Some x => str_truthy x | None => false end.

(** ** Plain objects used as maps

    An object literal [{}] inherits from [Object.prototype]: the [in]
    operator and property reads see the inherited names. *)
Definition object_prototype : list string :=
  ["constructor"; "__defineGetter__"; "__defineSetter__"; "hasOwnProperty";
   "__lookupGetter__"; "__lookupSetter__"; "isPrototypeOf";
   "propertyIsEnumerable"; "toString"; "valueOf"; "__proto__";
   "toLocaleString"]%string.

Definition is_proto_name (k : string) : bool :=
  bool_decide (k ∈ object_prototype).

(** Own properties of an object, oldest first, at most one entry per key. *)
Definition jsobj (V : Type) := list (string * V).

Fixpoint obj_get {V} (o : jsobj V) (k : string) : option V :=
  match o with
  | [] => None
  | (k', v) :: o' => if String.eqb k' k then Some v else obj_get o' k
  end.

(** [o[k] = v]: in place when [k] is an own property, appended otherwise. *)
Fixpoint obj_set {V} (o : jsobj V) (k : string) (v : V) : jsobj V :=
  match o with
  | [] => [(k, v)]
  | (k', v') :: o' =>
      if String.eqb k' k then (k, v) :: o' else (k', v') :: obj_set o' k v
  end.

(** [delete o[k]] *)
Fixpoint obj_delete {V} (o : jsobj V) (k : string) : jsobj V :=
  match o with
  | [] => []
  | (k', v') :: o' =>
      if String.eqb k' k then obj_delete o' k else (k', v') :: obj_delete o' k
  end.

Definition obj_has {V} (o : jsobj V) (k : string) : bool :=
  match obj_get o k with Some _ => true | None => false end.

(** [k in o] *)
Definition js_in {V} (k : string) (o : jsobj V) : bool :=
  obj_has o k || is_proto_name k.

(** [o[k]] used as a boolean, on an object whose values are all [true]. *)
Definition js_truthy_in (k : string) (keys : list string) : bool :=
  bool_decide (k ∈ keys) || is_proto_name k.

(** ** Sets of strings

    A JavaScript [Set] of strings: its elements in insertion order. *)
(** [set.add(k)] *)
Definition add_key (acc : list string) (k : string) : list string :=
  if bool_decide (k ∈ acc) then acc else acc ++ [k].

(** [new Set(l)] *)
Definition set_of (l : list string) : list string := fold_left add_key l [].

(** ** Generic list functions and lemmas *)

Fixpoint take_while {A} (p : A -> bool) (l : list A) : list A :=
  match l with
  | [] => []
  | x :: l' => if p x then x :: take_while p l' else []
  end.

(** The last [n] elements of a list. *)
Definition last_n {A} (n : nat) (l : list A) : list A := drop (length l - n) l.

(** Boolean filter and counting, as the loops of the sources compute them. *)
Fixpoint filterb {A} (p : A -> bool) (l : list A) : list A :=
  match l with
  | [] => []
  | x :: l' => if p x then x :: filterb p l' else filterb p l'
  end.

Definition countb {A} (p : A -> bool) (l : list A) : Z :=
  Z.of_nat (length (filterb p l)).

Section Lists.
Context {A B : Type}.
Implicit Types (l k : list A) (p q : A -> bool).

Lemma filterb_app p l k : filterb p (l ++ k) = filterb p l ++ filterb p k.
Proof. induction l as [|x l IH]; simpl; [done|]. destruct (p x); by rewrite IH. Qed.

Lemma countb_cons p x l : countb p (x :: l) = (if p x then 1 else 0) + countb p l.
Proof. unfold countb. simpl. destruct (p x); simpl; lia. Qed.

Lemma filterb_length p l : (length (filterb p l) <= length l)%nat.
Proof. induction l as [|x l IH]; simpl; [lia|]. destruct (p x); simpl; lia. Qed.

Lemma filterb_ext p q l : (forall x, x ∈ l -> p x = q x) -> filterb p l = filterb q l.
Proof.
  induction l as [|x l IH]; simpl; intros H; [done|].
  rewrite (H x) by set_solver. rewrite IH by set_solver. done.
Qed.

Lemma filterb_filterb p q l :
  filterb p (filterb q l) = filterb (fun x => q x && p x) l.
Proof.
  induction l as [|x l IH]; simpl; [done|].
  destruct (q x); simpl; [destruct (p x)|]; by rewrite ?IH.
Qed.

Lemma filterb_all p l : (forall x, x ∈ l -> p x = true) -> filterb p l = l.
Proof.
  induction l as [|x l IH]; simpl; intros H; [done|].
  rewrite (H x) by set_solver. rewrite IH by set_solver. done.
Qed.

Lemma filterb_none p l : (forall x, x ∈ l -> p x = false) -> filterb p l = [].
Proof.
  induction l as [|x l IH]; simpl; intros H; [done|].
  rewrite (H x) by set_solver. rewrite IH by set_solver. done.
Qed.

Lemma elem_of_filterb p l x : x ∈ filterb p l <-> x ∈ l /\ p x = true.
Proof.
  induction l as [|y l IH]; simpl; [set_solver|].
  destruct (p y) eqn:E; rewrite !elem_of_cons, ?IH; split.
  - intros [->|[? ?]]; auto.
  - intros [[->|?] ?]; auto.
  - intros [? ?]; auto.
  - intros [[->|?] ?]; [congruence|auto].
Qed.

Lemma filterb_map (f : B -> A) p (l : list B) :
  filterb p (f <$> l) = f <$> filterb (fun x => p (f x)) l.
Proof.
  induction l as [|x l IH]; [done|]. rewrite fmap_cons. cbn [filterb].
  destruct (p (f x)); rewrite ?fmap_cons; by rewrite IH.
Qed.

Lemma take_while_map (f : B -> A) p (l : list B) :
  take_while p (f <$> l) = f <$> take_while (fun x => p (f x)) l.
Proof.
  induction l as [|x l IH]; [done|]. rewrite fmap_cons. cbn [take_while].
  destruct (p (f x)); [by rewrite fmap_cons, IH|done].
Qed.

Lemma take_while_app_all p l k :
  (forall x, x ∈ l -> p x = true) -> take_while p (l ++ k) = l ++ take_while p k.
Proof.
  induction l as [|x l IH]; simpl; intros H; [done|].
  rewrite (H x) by set_solver. rewrite IH by set_solver. done.
Qed.

(** On a list along which [p] never turns false again, the trailing run of
    [p]-elements is the whole [p]-part. *)
Lemma take_while_rev_filterb p l :
  StronglySorted (fun a b => p a = true -> p b = true) l ->
  reverse (take_while p (reverse l)) = filterb p l.
Proof.
  induction l as [|x l IH]; intros HS; [done|].
  inversion HS as [|? ? HS' HF]; subst.
  rewrite reverse_cons. simpl.
  destruct (p x) eqn:E.
  - rewrite take_while_app_all.
    + simpl. rewrite E, reverse_app, reverse_involutive. simpl.
      rewrite filterb_all; [done|].
      intros y Hy. rewrite Forall_forall in HF. by apply (HF y).
    + intros y Hy. rewrite elem_of_reverse in Hy.
      rewrite Forall_forall in HF. by apply (HF y).
  - rewrite <- IH by done.
    assert (forall k, take_while p (k ++ [x]) = take_while p k) as Hk.
    { induction k as [|y k IHk]; simpl; [by rewrite E|]. by rewrite IHk. }
    by rewrite Hk.
Qed.

Lemma take_rev_last_n n l : reverse (take n (reverse l)) = last_n n l.
Proof. unfold last_n. by rewrite take_reverse, reverse_involutive. Qed.

Lemma length_last_n n l : length (last_n n l) = Nat.min n (length l).
Proof. unfold last_n. rewrite length_drop. lia. Qed.

Lemma last_n_all n l : (length l <= n)%nat -> last_n n l = l.
Proof. intros. unfold last_n. replace (length l - n)%nat with 0%nat by lia. by rewrite drop_0. Qed.

Lemma StronglySorted_app_one (R : A -> A -> Prop) l x :
  StronglySorted R l -> (forall y, y ∈ l -> R y x) -> StronglySorted R (l ++ [x]).
Proof.
  induction 1 as [|y l HS IH HF]; simpl; intros H.
  - repeat constructor.
  - constructor.
    + apply IH. set_solver.
    + rewrite Forall_app. split; [done|]. constructor; [|done]. apply H. set_solver.
Qed.

Lemma StronglySorted_app_inv (R : A -> A -> Prop) l k :
  StronglySorted R (l ++ k) ->
  (forall x y, x ∈ l -> y ∈ k -> R x y) /\ StronglySorted R l /\ StronglySorted R k.
Proof.
  induction l as [|x l IH]; simpl; intros HS.
  - repeat split; [set_solver|constructor|done].
  - inversion HS as [|? ? HS' HF]; subst. destruct (IH HS') as (H1 & H2 & H3).
    rewrite Forall_app in HF. destruct HF as [HF1 HF2]. rewrite Forall_forall in HF2.
    repeat split; [|by constructor|done]. intros a b [->|Ha]%elem_of_cons Hb; eauto.
Qed.

Lemma StronglySorted_filterb (R : A -> A -> Prop) p l :
  StronglySorted R l -> StronglySorted R (filterb p l).
Proof.
  induction 1 as [|y l HS IH HF]; simpl; [constructor|].
  destruct (p y); [|done]. constructor; [done|].
  rewrite Forall_forall in HF |- *. intros z [Hz _]%elem_of_filterb. auto.
Qed.

Lemma StronglySorted_drop (R : A -> A -> Prop) n l :
  StronglySorted R l -> StronglySorted R (drop n l).
Proof.
  intros HS. revert n. induction HS as [|y l HS IH HF]; intros [|n]; simpl; eauto using StronglySorted.
Qed.

Lemma StronglySorted_fmap_inv (f : A -> B) (R : B -> B -> Prop) l :
  StronglySorted R (f <$> l) -> StronglySorted (fun a b => R (f a) (f b)) l.
Proof.
  induction l as [|x l IH]; [constructor|]. rewrite fmap_cons. intros [Hs Hf]%StronglySorted_inv.
  constructor; [by apply IH|]. by rewrite Forall_fmap in Hf.
Qed.

Lemma Forall2_impl_in (P Q : A -> B -> Prop) (l : list A) (k : list B) :
  Forall2 P l k -> (forall x y, x ∈ l -> P x y -> Q x y) -> Forall2 Q l k.
Proof.
  induction 1 as [|x y l k Hxy _ IH]; intros Himp; constructor.
  - apply Himp; [by left|done].
  - apply IH. intros. apply Himp; [by right|done].
Qed.

End Lists.

Lemma elem_of_last_n {A} n (l : list A) x : x ∈ last_n n l -> x ∈ l.
Proof. unfold last_n. apply subseteq_drop. Qed.

(** ** Lemmas on sets *)

Lemma elem_of_add_key acc k x : x ∈ add_key acc k <-> x ∈ acc \/ x = k.
Proof. unfold add_key. case_bool_decide; set_solver. Qed.

Lemma elem_of_set_fold acc l x : x ∈ fold_left add_key l acc <-> x ∈ acc \/ x ∈ l.
Proof.
  revert acc. induction l as [|k l IH]; intros acc; cbn [fold_left]; [set_solver|].
  rewrite IH, elem_of_add_key. set_solver.
Qed.

Lemma elem_of_set_of l x : x ∈ set_of l <-> x ∈ l.
Proof. unfold set_of. rewrite elem_of_set_fold. set_solver. Qed.

Lemma NoDup_add_key acc k : NoDup acc -> NoDup (add_key acc k).
Proof.
  unfold add_key. case_bool_decide; [done|]. intros Hn. rewrite NoDup_app. split; [done|].
  split; [set_solver|apply NoDup_singleton].
Qed.

Lemma NoDup_set_of l : NoDup (set_of l).
Proof.
  unfold set_of. assert (NoDup (@nil string)) as Hn by constructor. revert Hn. generalize (@nil string) as acc.
  induction l as [|k l IH]; intros acc Hn; cbn [fold_left]; [done|]. by apply IH, NoDup_add_key.
Qed.

(** ** Lemmas on objects *)

Section Objects.
Context {V : Type}.
Implicit Types (o : jsobj V) (k : string) (v : V).

Lemma obj_get_set_eq o k v : obj_get (obj_set o k v) k = Some v.
Proof.
  induction o as [|[k' v'] o IH]; simpl; [by rewrite String.eqb_refl|].
  destruct (String.eqb k' k) eqn:E; simpl; [by rewrite String.eqb_refl|by rewrite E].
Qed.

Lemma obj_get_set_ne o k k' v : k <> k' -> obj_get (obj_set o k v) k' = obj_get o k'.
Proof.
  intros Hne. induction o as [|[k0 v0] o IH]; simpl.
  - by rewrite (proj2 (String.eqb_neq k k')).
  - destruct (String.eqb_spec k0 k) as [->|]; simpl; [|by rewrite IH].
    by rewrite (proj2 (String.eqb_neq k k')).
Qed.

Lemma obj_get_delete_eq o k : obj_get (obj_delete o k) k = None.
Proof.
  induction o as [|[k0 v0] o IH]; simpl; [done|].
  destruct (String.eqb k0 k) eqn:E; simpl; [done|by rewrite E].
Qed.

Lemma obj_get_delete_ne o k k' : k <> k' -> obj_get (obj_delete o k) k' = obj_get o k'.
Proof.
  intros Hne. induction o as [|[k0 v0] o IH]; simpl; [done|].
  destruct (String.eqb_spec k0 k) as [->|]; simpl; [|by rewrite IH].
  by rewrite (proj2 (String.eqb_neq k k')).
Qed.

Lemma obj_get_set o k k' v :
  obj_get (obj_set o k v) k' = if String.eqb k k' then Some v else obj_get o k'.
Proof. destruct (String.eqb_spec k k') as [->|]; auto using obj_get_set_eq, obj_get_set_ne. Qed.

Lemma obj_get_delete o k k' :
  obj_get (obj_delete o k) k' = if String.eqb k k' then None else obj_get o k'.
Proof. destruct (String.eqb_spec k k') as [->|]; auto using obj_get_delete_eq, obj_get_delete_ne. Qed.

Lemma obj_get_none_keys o k : obj_get o k = None <-> k ∉ o.*1.
Proof.
  induction o as [|[k' v] o IH]; simpl; [set_solver|]. destruct (String.eqb_spec k' k) as [->|]; set_solver.
Qed.

Lemma obj_set_keys o k v :
  (obj_set o k v).*1 = if bool_decide (k ∈ o.*1) then o.*1 else o.*1 ++ [k].
Proof.
  induction o as [|[k' v'] o IH]; [done|]. cbn [obj_set].
  destruct (String.eqb_spec k' k) as [->|Hne]; rewrite !fmap_cons; cbn [fst].
  - rewrite bool_decide_true by set_solver. done.
  - rewrite IH. rewrite (bool_decide_ext (k ∈ k' :: o.*1) (k ∈ o.*1)) by set_solver. by case_bool_decide.
Qed.

Lemma obj_set_keys_nodup o k v : NoDup o.*1 -> NoDup (obj_set o k v).*1.
Proof.
  intros Hn. rewrite obj_set_keys. case_bool_decide as Hk; [done|]. apply NoDup_app. split; [done|].
  split; [|apply NoDup_singleton]. intros x Hx ->%list_elem_of_singleton. done.
Qed.

Lemma obj_get_elem o k v : obj_get o k = Some v -> (k, v) ∈ o.
Proof.
  induction o as [|[k' v'] o IH]; [done|]. cbn. destruct (String.eqb_spec k' k).
  - intros [= ->]. subst. left.
  - intros. right. auto.
Qed.

Lemma obj_get_key o k : k ∈ o.*1 -> exists v, obj_get o k = Some v /\ (k, v) ∈ o.
Proof.
  induction o as [|[a v] o IH]; simpl; [by intros ?%elem_of_nil|].
  destruct (String.eqb_spec a k) as [->|Hne]; [exists v; split; [done|by left]|].
  intros [->|Hk]%elem_of_cons; [done|]. destruct (IH Hk) as (w & ? & ?). exists w. split; [done|by right].
Qed.

Lemma obj_get_unique o k v : NoDup o.*1 -> (k, v) ∈ o -> obj_get o k = Some v.
Proof.
  induction o as [|[k' v'] o IH]; [by intros _ ?%elem_of_nil|]. rewrite fmap_cons. intros [Hk Hn]%NoDup_cons Hin.
  cbn [obj_get]. apply elem_of_cons in Hin as [[= <- <-]|Hin]; [by rewrite String.eqb_refl|].
  destruct (String.eqb_spec k' k) as [->|]; [|by apply IH]. exfalso. apply Hk, list_elem_of_fmap. by exists (k, v).
Qed.

End Objects.

(** ** Automation *)

Create HintDb customs.

(** Split the boolean tests of the goal and of the hypotheses. *)
Ltac destr_if :=
  match goal with
  | |- context [if ?b then _ else _] => destruct b eqn:?
  | H : context [if ?b then _ else _] |- _ => destruct b eqn:?
  end.

Ltac destr_ifs := repeat (destr_if; try discriminate).

(** Turn boolean hypotheses into propositions and finish with [lia]. *)
Ltac bool_lia :=
  rewrite ?andb_true_iff, ?orb_true_iff, ?negb_true_iff,
    ?andb_false_iff, ?orb_false_iff, ?negb_false_iff in *; lia.
