(* ===== verification/Window.v ===== *)
(** * Sliding windows of timestamps

    The records of the customs server (packages/fxa-customs-server/lib) all
    keep arrays of timestamps, trim them with the same backwards loop and
    compare their length with a limit.  This file holds the loop, its
    reference semantics ("the last [max + 1] timestamps younger than the
    interval"), an abstract rate limiter, the interface [WindowLimiter] that
    a record implements, and the theorems proved once against that
    interface. *)

From S2P Require Import Prelude.

(** ** Array entries

    The arrays hold either plain timestamps or objects [{ t, e, u }]
    ([lf], [vc] and [as] of an IP record).  Records of all kinds live in the
    same untyped store, so an entry of either form can be met by any loop. *)
Inductive Item :=
  | Num (z : Z)
  | Info (t : Z) (e : option Z) (u : string).

#[export] Instance Item_eq_dec : EqDecision Item.
Proof. solve_decision. Defined.

(** An entry used as a number: an object is [NaN]. *)
Definition item_num (x : Item) : num :=
  match x with Num z => Some z | Info _ _ _ => None end.

(** [item.t], [item.e] and [item.u]: [undefined] on a number; [undefined]
    used as a property name is the string "undefined". *)
Definition item_t (x : Item) : num :=
  match x with Num _ => None | Info t _ _ => Some t end.

Definition item_e (x : Item) : option Z :=
  match x with Num _ => None | Info _ e _ => e end.

Definition item_u (x : Item) : string :=
  match x with Num _ => "undefined"%string | Info _ _ u => u end.

(** ** The trimming loop

    [var i = xs.length - 1, n = 0, hit = xs[i];
     while (hit > now - interval && n <= max) { hit = xs[--i]; n++; }
     xs = xs.slice(i + 1);]

    [scan_back] is the loop with [k = i + 1]; at [k = 0] the source reads
    [xs[-1]], which is [undefined] and ends the loop. *)
Fixpoint scan_back (fresh : Item -> bool) (max : Z) (xs : list Item)
    (k : nat) (n : Z) : nat :=
  match k with
  | O => O
  | S i =>
      match xs !! i with
      | Some hit =>
          if fresh hit && (n <=? max) then scan_back fresh max xs i (n + 1) else k
      | None => k
      end
  end.

(** [hit > now - interval] *)
Definition fresh_hit (now interval : Z) (hit : Item) : bool :=
  num_gtb (item_num hit) (Some (now - interval)).

Definition trim_hits (now interval max : Z) (xs : list Item) : list Item :=
  match xs with
  | [] => xs
  | _ => drop (scan_back (fresh_hit now interval) max xs (length xs) 0) xs
  end.

(** ** Reference semantics *)

(** [zs] is a chronological list of timestamps up to [now]. *)
Definition chron (now : Z) (zs : list Z) : Prop :=
  StronglySorted Z.le zs /\ Forall (fun z => z <= now) zs.

(** A well-formed array of plain timestamps. *)
Definition hits_wf (now : Z) (xs : list Item) : Prop :=
  exists zs, xs = Num <$> zs /\ chron now zs.

(** The timestamps of the window [(now - interval, now]]. *)
Definition window (now interval : Z) (zs : list Z) : list Z :=
  filterb (fun z => now - interval <? z) zs.

Lemma drop_snoc_length {A} (l tl : list A) x : drop (S (length l)) (l ++ x :: tl) = tl.
Proof. induction l; simpl; auto. Qed.

Lemma scan_back_spec fresh max xs l tl n :
  xs = l ++ tl ->
  drop (scan_back fresh max xs (length l) n) xs =
  reverse (take (Z.to_nat (max + 1 - n)) (take_while fresh (reverse l))) ++ tl.
Proof.
  revert xs tl n. induction l as [|x l IH] using rev_ind; intros xs tl n ->.
  - rewrite reverse_nil. cbn [take_while]. by rewrite take_nil.
  - rewrite length_app, Nat.add_1_r. cbn [scan_back].
    rewrite <- app_assoc. cbn [app].
    rewrite list_lookup_middle by done. rewrite reverse_snoc. cbn [take_while].
    destruct (fresh x); cbn [andb].
    + destruct (Z.leb_spec n max) as [Hn|Hn].
      * rewrite (IH _ (x :: tl)) by done.
        replace (Z.to_nat (max + 1 - n)) with (S (Z.to_nat (max + 1 - (n + 1)))) by lia.
        cbn [take]. rewrite reverse_cons, <- app_assoc. done.
      * replace (Z.to_nat (max + 1 - n)) with 0%nat by lia.
        by rewrite take_0, drop_snoc_length.
    + by rewrite take_nil, drop_snoc_length.
Qed.

(** The loop keeps the last [max + 1] entries of the trailing fresh run. *)
Lemma trim_hits_run now interval max xs :
  trim_hits now interval max xs =
  reverse (take (Z.to_nat (max + 1)) (take_while (fresh_hit now interval) (reverse xs))).
Proof.
  destruct xs as [|x xs]; [rewrite reverse_nil; cbn [take_while]; by rewrite take_nil|].
  unfold trim_hits. rewrite (scan_back_spec _ _ _ (x :: xs) []) by (by rewrite app_nil_r).
  by rewrite app_nil_r, Z.sub_0_r.
Qed.

Lemma fresh_num now interval z : fresh_hit now interval (Num z) = (now - interval <? z).
Proof. done. Qed.

Lemma trim_hits_num now interval max zs :
  StronglySorted Z.le zs ->
  trim_hits now interval max (Num <$> zs) =
  Num <$> last_n (Z.to_nat (max + 1)) (window now interval zs).
Proof.
  intros HS. rewrite trim_hits_run, <- fmap_reverse, take_while_map.
  rewrite <- fmap_take, <- fmap_reverse. f_equal.
  rewrite <- (reverse_involutive (take_while _ _)), take_rev_last_n. f_equal.
  apply take_while_rev_filterb.
  induction HS as [|z zs HS IH HF]; constructor; [done|].
  eapply Forall_impl; [exact HF|]. intros y Hy. cbn in *. lia.
Qed.

Lemma length_trim_hits_num now interval max zs :
  StronglySorted Z.le zs ->
  length (trim_hits now interval max (Num <$> zs)) =
  Nat.min (Z.to_nat (max + 1)) (length (window now interval zs)).
Proof. intros. by rewrite trim_hits_num, length_fmap, length_last_n. Qed.

Lemma trim_hits_over now interval max zs :
  0 <= max -> StronglySorted Z.le zs ->
  (Z.of_nat (length (trim_hits now interval max (Num <$> zs))) >? max) =
  (Z.of_nat (length (window now interval zs)) >? max).
Proof.
  intros. rewrite length_trim_hits_num by done.
  apply eq_true_iff_eq. rewrite !Z.gtb_lt. lia.
Qed.

(** Trimming never keeps more than [max + 1] entries, whatever the array. *)
Lemma trim_hits_bound now interval max xs :
  0 <= max -> Z.of_nat (length (trim_hits now interval max xs)) <= max + 1.
Proof. intros. rewrite trim_hits_run, length_reverse, length_take. lia. Qed.

Lemma trim_hits_suffix now interval max xs : trim_hits now interval max xs `suffix_of` xs.
Proof.
  destruct xs as [|x xs]; [done|]. unfold trim_hits.
  set (k := scan_back _ _ _ _ _). exists (take k (x :: xs)). by rewrite take_drop.
Qed.

Lemma chron_snoc now t zs : chron t zs -> t <= now -> chron now (zs ++ [now]).
Proof.
  intros [HS HF] Ht. split.
  - apply StronglySorted_app_one; [done|]. rewrite Forall_forall in HF.
    intros y Hy. specialize (HF y Hy). lia.
  - rewrite Forall_app. split; [|by repeat constructor].
    eapply Forall_impl; [exact HF|]. simpl; lia.
Qed.

Lemma chron_mono t now zs : chron t zs -> t <= now -> chron now zs.
Proof. intros [HS HF] ?. split; [done|]. eapply Forall_impl; [exact HF|]. simpl; lia. Qed.

Lemma chron_last_window now t interval n zs :
  chron t zs -> chron t (last_n n (window now interval zs)).
Proof.
  intros [HS HF]. split.
  - by apply StronglySorted_drop, StronglySorted_filterb.
  - rewrite Forall_forall in HF |- *.
    intros z Hz%elem_of_last_n. apply elem_of_filterb in Hz as [Hz _]. auto.
Qed.

Lemma hits_wf_nil now : hits_wf now [].
Proof. exists []. by repeat constructor. Qed.

Lemma hits_wf_mono t now xs : hits_wf t xs -> t <= now -> hits_wf now xs.
Proof. intros (zs & -> & H) ?. exists zs. eauto using chron_mono. Qed.

Lemma hits_wf_push t now xs : hits_wf t xs -> t <= now -> hits_wf now (xs ++ [Num now]).
Proof.
  intros (zs & -> & H) ?. exists (zs ++ [now]). rewrite fmap_app. eauto using chron_snoc.
Qed.

Lemma hits_wf_trim t now interval max xs :
  hits_wf t xs -> hits_wf t (trim_hits now interval max xs).
Proof.
  intros (zs & -> & H). rewrite trim_hits_num by apply H.
  eexists. split; [done|]. by apply chron_last_window.
Qed.

#[export] Hint Resolve hits_wf_nil hits_wf_mono hits_wf_push hits_wf_trim : customs.

(** ** The abstract rate limiter

    What a record promises: it remembers every counted request since the
    last throttling and refuses while throttled, or as soon as more than
    [wp_max] counted requests lie in the last [wp_period] milliseconds. *)
Record WParams := mkWParams { wp_period : Z; wp_ban : Z; wp_max : Z }.

Record WState := mkWState { w_hits : list Z; w_limited : option Z }.

Definition w_init : WState := mkWState [] None.

Definition w_over (p : WParams) (now : Z) (hits : list Z) : bool :=
  Z.of_nat (length (window now p.(wp_period) hits)) >? p.(wp_max).

(** One counted request at time [now]; the boolean says "refused". *)
Definition w_step (p : WParams) (now : Z) (s : WState) : WState * bool :=
  if active s.(w_limited) p.(wp_ban) now then (s, true)
  else
    let hits := s.(w_hits) ++ [now] in
    if w_over p now hits then (mkWState [] (Some now), true)
    else (mkWState hits s.(w_limited), false).

Fixpoint w_run (p : WParams) (s : WState) (ts : list Z) : list (Z * bool) :=
  match ts with
  | [] => []
  | t :: ts' => let '(s', b) := w_step p t s in (t, b) :: w_run p s' ts'
  end.

(** The same limiter as a relation that also admits refusals, and
    throttling, for reasons outside this window. *)
Inductive w_trans (p : WParams) (now : Z) : WState -> bool -> WState -> Prop :=
  | w_refused s : w_trans p now s true s
  | w_throttle s : w_trans p now s true (mkWState [] (Some now))
  | w_counted s b :
      active s.(w_limited) p.(wp_ban) now = false ->
      w_over p now (s.(w_hits) ++ [now]) = false ->
      w_trans p now s b (mkWState (s.(w_hits) ++ [now]) s.(w_limited)).

Inductive w_trace (p : WParams) : WState -> list (Z * bool) -> WState -> Prop :=
  | w_trace_nil s : w_trace p s [] s
  | w_trace_cons s1 s2 s3 now b tr :
      w_trans p now s1 b s2 -> w_trace p s2 tr s3 ->
      w_trace p s1 ((now, b) :: tr) s3.

#[export] Hint Constructors w_trans w_trace : customs.

Lemma w_step_trans p now s : w_trans p now s (w_step p now s).2 (w_step p now s).1.
Proof. unfold w_step. destr_ifs; simpl; auto with customs. Qed.

Lemma w_run_trace p s ts : exists s', w_trace p s (w_run p s ts) s'.
Proof.
  revert s. induction ts as [|t ts IH]; intros s; cbn [w_run]; [eauto with customs|].
  pose proof (w_step_trans p t s) as H. destruct (w_step p t s) as [s' b].
  destruct (IH s') as [s'' H']. exists s''. econstructor; eauto.
Qed.

Lemma w_run_times p s ts : (w_run p s ts).*1 = ts.
Proof.
  revert s. induction ts as [|t ts IH]; intros s; cbn [w_run]; [done|].
  destruct (w_step p t s). rewrite fmap_cons, IH. done.
Qed.

(** Requests let through at a time in [(t - period, t]]. *)
Definition allowed_in (p : WParams) (t : Z) (x : Z * bool) : bool :=
  negb x.2 && (t - p.(wp_period) <? x.1) && (x.1 <=? t).

Definition admitted (p : WParams) (t : Z) (tr : list (Z * bool)) : Z :=
  countb (allowed_in p t) tr.

(** *** The guarantee of the abstract limiter

    [w_inv] relates the requests already let through ([al]) to the state:
    those from before the last throttling are at least a ban away from any
    request still to be let through. *)
Definition in_window (p : WParams) (t z : Z) : bool :=
  (t - p.(wp_period) <? z) && (z <=? t).

Record w_inv (p : WParams) (last : Z) (al : list Z) (s : WState) : Prop := {
  wi_split : exists old,
      (forall t, countb (in_window p t) al <=
        countb (in_window p t) old + countb (in_window p t) s.(w_hits)) /\
      (forall z, z ∈ old -> exists l, s.(w_limited) = Some l /\ l <> 0 /\ z <= l);
  wi_last : forall z, z ∈ al -> z <= last;
  wi_hits_last : forall z, z ∈ s.(w_hits) -> z <= last;
  wi_bound : forall t, countb (in_window p t) al <= p.(wp_max) }.

Lemma countb_app {A} (q : A -> bool) l k : countb q (l ++ k) = countb q l + countb q k.
Proof. unfold countb. rewrite filterb_app, length_app. lia. Qed.

Lemma countb_zero {A} (q : A -> bool) l : (forall x, x ∈ l -> q x = false) -> countb q l = 0.
Proof. intros. unfold countb. by rewrite filterb_none. Qed.

Lemma countb_nonneg {A} (q : A -> bool) l : 0 <= countb q l.
Proof. unfold countb. lia. Qed.

Lemma countb_le {A} (q r : A -> bool) l :
  (forall x, x ∈ l -> q x = true -> r x = true) -> countb q l <= countb r l.
Proof.
  unfold countb. induction l as [|x l IH]; simpl; intros H; [lia|].
  specialize (IH ltac:(set_solver)).
  destruct (q x) eqn:E; [rewrite (H x) by set_solver|destruct (r x)]; simpl; lia.
Qed.

(** A request counted at [now], once the ban of the last throttling is over:
    no older request shares a window with it. *)
Lemma w_inv_counted_bound p last now al s :
  p.(wp_period) <= p.(wp_ban) -> last <= now ->
  w_inv p last al s ->
  active s.(w_limited) p.(wp_ban) now = false ->
  w_over p now (s.(w_hits) ++ [now]) = false ->
  forall t, countb (in_window p t) (al ++ [now]) <= p.(wp_max).
Proof.
  intros Hpb Hlast HI Hact Hover t.
  rewrite countb_app, countb_cons. unfold countb at 2. cbn [filterb length].
  destruct (in_window p t now) eqn:E; [|pose proof (wi_bound _ _ _ _ HI t); lia].
  destruct (wi_split _ _ _ _ HI) as (old & Hc & Hold). specialize (Hc t).
  assert (countb (in_window p t) old = 0) as H0.
  { apply countb_zero. intros z Hz. destruct (Hold z Hz) as (l & Hl & Hl0 & Hzl).
    unfold active in Hact. rewrite Hl in Hact. unfold in_window in *. bool_lia. }
  assert (countb (in_window p t) (s.(w_hits) ++ [now]) <= p.(wp_max)) as H1.
  { unfold w_over in Hover.
    etransitivity; [apply (countb_le _ (fun z => now - wp_period p <? z))|].
    - intros z _ Hz. unfold in_window in *. bool_lia.
    - unfold countb, window in *. lia. }
  rewrite countb_app, countb_cons in H1. rewrite E in H1.
  pose proof (countb_nonneg (in_window p t) (@nil Z)). lia.
Qed.

Lemma w_inv_trans p last now al s b s' :
  p.(wp_period) <= p.(wp_ban) -> 0 < now -> last <= now ->
  w_inv p last al s -> w_trans p now s b s' ->
  w_inv p now (if b then al else al ++ [now]) s'.
Proof.
  intros Hpb Hpos Hlast HI Ht. pose proof HI as [(old & Hc & Hold) Hl Hhl Hb].
  inversion Ht as [s0 Hs0|s0 Hs0|s0 b0 Hact Hover]; subst.
  - constructor; eauto; intros z Hz; [specialize (Hl z Hz)|specialize (Hhl z Hz)]; lia.
  - constructor; simpl; eauto.
    + exists al. split; [intros t; pose proof (countb_nonneg (in_window p t) (@nil Z)); lia|].
      intros z Hz. exists now. specialize (Hl z Hz). repeat split; lia.
    + intros z Hz. specialize (Hl z Hz). lia.
    + set_solver.
  - pose proof (w_inv_counted_bound _ _ _ _ _ Hpb Hlast HI Hact Hover) as Hb'.
    constructor; simpl.
    + exists old. split; [|done]. intros t. specialize (Hc t).
      rewrite countb_app. pose proof (countb_nonneg (in_window p t) [now]).
      destruct b; rewrite ?countb_app; lia.
    + intros z Hz. destruct b; [specialize (Hl z Hz); lia|].
      apply elem_of_app in Hz as [Hz|Hz%list_elem_of_singleton]; [specialize (Hl z Hz)|]; lia.
    + intros z [Hz|Hz%list_elem_of_singleton]%elem_of_app; [specialize (Hhl z Hz)|]; lia.
    + intros t. destruct b; auto.
Qed.

Definition admitted_times (tr : list (Z * bool)) : list Z :=
  (filterb (fun x => negb x.2) tr).*1.

Lemma w_inv_trace p s tr s' last al :
  p.(wp_period) <= p.(wp_ban) ->
  Forall (fun t => 0 < t) tr.*1 -> StronglySorted Z.le (last :: tr.*1) ->
  w_inv p last al s -> w_trace p s tr s' ->
  forall t, countb (in_window p t) (al ++ admitted_times tr) <= p.(wp_max).
Proof.
  intros Hpb Hpos HS HI Htr. revert last al Hpos HS HI.
  induction Htr as [s|s1 s2 s3 now b tr Hst Htr IH]; intros last al Hpos HS HI t.
  - rewrite app_nil_r. apply (wi_bound _ _ _ _ HI).
  - rewrite fmap_cons in *. cbn [fst] in *. inversion Hpos; subst.
    inversion HS as [|? ? HS' HF]; subst. inversion HF; subst.
    pose proof (w_inv_trans _ _ _ _ _ _ _ Hpb ltac:(eassumption) ltac:(eassumption) HI Hst) as HI'.
    unfold admitted_times. cbn [filterb snd].
    specialize (IH _ _ ltac:(eassumption) HS' HI' t).
    destruct b; cbn [negb]; [done|]. by rewrite fmap_cons, cons_middle, app_assoc.
Qed.

Lemma w_init_inv p : 0 <= p.(wp_max) -> w_inv p 0 [] w_init.
Proof.
  intros. constructor; simpl; [|set_solver..|].
  - exists []. split; [done|set_solver].
  - intros. rewrite countb_zero; [done|set_solver].
Qed.

Lemma countb_fmap {A B} (f : A -> B) (q : B -> bool) l :
  countb q (f <$> l) = countb (fun x => q (f x)) l.
Proof. unfold countb. by rewrite filterb_map, length_fmap. Qed.

Lemma countb_filterb {A} (q r : A -> bool) l :
  countb q (filterb r l) = countb (fun x => r x && q x) l.
Proof. unfold countb. by rewrite filterb_filterb. Qed.

(** The limiter lets at most [wp_max] requests through in any window of
    [wp_period] milliseconds, provided a ban lasts at least one period. *)
Lemma w_trace_guarantee p tr s t :
  0 <= p.(wp_max) -> p.(wp_period) <= p.(wp_ban) ->
  Forall (fun z => 0 < z) tr.*1 -> StronglySorted Z.le tr.*1 ->
  w_trace p w_init tr s -> admitted p t tr <= p.(wp_max).
Proof.
  intros Hm Hpb Hpos HS Htr.
  assert (StronglySorted Z.le (0 :: tr.*1)) as HS0.
  { constructor; [done|]. eapply Forall_impl; [exact Hpos|]. simpl; lia. }
  pose proof (w_inv_trace p _ _ _ 0 [] Hpb Hpos HS0 (w_init_inv p Hm) Htr t) as H.
  cbn [app] in H. unfold admitted_times in H. rewrite countb_fmap, countb_filterb in H.
  unfold admitted. etransitivity; [|exact H]. apply countb_le.
  intros [z b] _. unfold allowed_in, in_window. simpl. rewrite <- andb_assoc. done.
Qed.

(** Keeping only the last [n] entries of a chronological list caps the count
    of each of its windows at [n]. *)
Lemma last_n_cons {A} n x (l : list A) : (n <= length l)%nat -> last_n n (x :: l) = last_n n l.
Proof.
  intros. unfold last_n. cbn [length].
  replace (S (length l) - n)%nat with (S (length l - n)) by lia. done.
Qed.

Lemma countb_last_n n b l :
  StronglySorted Z.le l ->
  countb (fun z => b <? z) (last_n n l) = Z.min (Z.of_nat n) (countb (fun z => b <? z) l).
Proof.
  induction 1 as [|x l HS IH HF].
  - unfold last_n. rewrite drop_nil. unfold countb. simpl. lia.
  - destruct (decide (n <= length l)%nat) as [Hn|Hn].
    + rewrite last_n_cons, IH, countb_cons by done.
      destruct (Z.ltb_spec b x); [|lia].
      assert (countb (fun z => b <? z) l = Z.of_nat (length l)); [|lia].
      unfold countb. rewrite filterb_all; [done|].
      intros y Hy. rewrite Forall_forall in HF. specialize (HF y Hy). lia.
    + rewrite last_n_all by (simpl; lia).
      pose proof (filterb_length (fun z => b <? z) (x :: l)). unfold countb. simpl length in *. lia.
Qed.

(** *** A limiter that is never crowded never refuses *)
Definition never_crowded (p : WParams) (ts : list Z) : Prop :=
  forall t, t ∈ ts -> countb (in_window p t) ts <= p.(wp_max).

Lemma w_run_uncrowded p pre ts :
  StronglySorted Z.le (pre ++ ts) -> never_crowded p (pre ++ ts) ->
  Forall (fun x => x.2 = false) (w_run p (mkWState pre None) ts).
Proof.
  revert pre. induction ts as [|t ts IH]; intros pre HS Hn; cbn [w_run]; [constructor|].
  unfold w_step. cbn [active w_limited w_hits].
  assert (w_over p t (pre ++ [t]) = false) as ->.
  { specialize (Hn t ltac:(set_solver)). unfold w_over, window.
    rewrite cons_middle, app_assoc, countb_app in Hn.
    pose proof (countb_nonneg (in_window p t) ts).
    assert (countb (fun z => t - wp_period p <? z) (pre ++ [t]) <=
            countb (in_window p t) (pre ++ [t])).
    { apply countb_le. intros z Hz Hlt. unfold in_window. rewrite Hlt.
      assert (z <= t); [|lia].
      rewrite cons_middle, app_assoc in HS. apply StronglySorted_app_inv in HS as (_ & HS & _).
      apply elem_of_app in Hz as [Hz|Hz%list_elem_of_singleton]; [|lia].
      apply StronglySorted_app_inv in HS as (HR & _ & _). apply HR; set_solver. }
    unfold countb in *. lia. }
  constructor; [done|]. apply IH; by rewrite <- app_assoc.
Qed.

(** ** The interface a record implements

    [wl_hit now r] is the record's [update] for an action it counts: the
    new record and the number of seconds to wait (0: let through). *)
Class WindowLimiter (R : Type) := {
  wl_params : WParams;
  wl_hits : R -> list Item;
  wl_rl : R -> option Z;
  wl_hit : Z -> R -> R * Z;
  wl_hit_limited now r :
    active (wl_rl r) wl_params.(wp_ban) now = true ->
    wl_hit now r = (r, Z.max 0 (ceil1000 (or0 (wl_rl r) + wl_params.(wp_ban) - now)));
  wl_hit_over now r :
    active (wl_rl r) wl_params.(wp_ban) now = false ->
    (Z.of_nat (length (trim_hits now wl_params.(wp_period) wl_params.(wp_max)
      (wl_hits r ++ [Num now]))) >? wl_params.(wp_max)) = true ->
    wl_hits (wl_hit now r).1 = [] /\ wl_rl (wl_hit now r).1 = Some now /\
    (wl_hit now r).2 = Z.max 0 (ceil1000 wl_params.(wp_ban));
  wl_hit_under now r :
    active (wl_rl r) wl_params.(wp_ban) now = false ->
    (Z.of_nat (length (trim_hits now wl_params.(wp_period) wl_params.(wp_max)
      (wl_hits r ++ [Num now]))) >? wl_params.(wp_max)) = false ->
    wl_hits (wl_hit now r).1 =
      trim_hits now wl_params.(wp_period) wl_params.(wp_max) (wl_hits r ++ [Num now]) /\
    wl_rl (wl_hit now r).1 = wl_rl r /\ (wl_hit now r).2 = 0 }.

(** [refused] once per request: the wait is positive. *)
Fixpoint wl_run {R} `{WindowLimiter R} (r : R) (ts : list Z) : list (Z * bool) :=
  match ts with
  | [] => []
  | t :: ts' => let '(r', w) := wl_hit t r in (t, w >? 0) :: wl_run r' ts'
  end.

Record wp_ok (p : WParams) : Prop := {
  wpo_max : 0 <= p.(wp_max);
  wpo_ban : 0 < p.(wp_ban) }.

Lemma ceil1000_pos x : 0 < x -> 0 < ceil1000 x.
Proof. unfold ceil1000. intros. assert ((- x) / 1000 < 0); [|lia]. apply Z.div_lt_upper_bound; lia. Qed.

Lemma ceil1000_nonpos x : x <= 0 -> ceil1000 x <= 0.
Proof. unfold ceil1000. intros. assert (0 <= (- x) / 1000); [|lia]. apply Z.div_pos; lia. Qed.

Lemma ceil1000_exact x : ceil1000 (x * 1000) = x.
Proof. unfold ceil1000. rewrite <- Z.mul_opp_l, Z.div_mul by lia. lia. Qed.

(** The flag raised at [ts] for [interval] is down after
    [ceil((ts + interval - now) / 1000)] seconds, and not one second before. *)
Lemma ceil1000_upper x : x <= 1000 * ceil1000 x.
Proof. unfold ceil1000. pose proof (Z.mul_div_le (- x) 1000). lia. Qed.

Lemma ceil1000_lower x : 1000 * (ceil1000 x - 1) < x.
Proof. unfold ceil1000. pose proof (Z.mul_succ_div_gt (- x) 1000). lia. Qed.

Lemma active_wait ts interval now w :
  ceil1000 (or0 ts + interval - now) <= w -> active ts interval (now + 1000 * w) = false.
Proof.
  unfold active, or0, num_or. destruct ts as [z|]; [|done].
  destruct (Z.eqb_spec z 0); [done|]. simpl. intros Hw.
  pose proof (ceil1000_upper (z + interval - now)). lia.
Qed.

Lemma active_until ts interval now w :
  interval <= now -> 0 < w -> w <= ceil1000 (or0 ts + interval - now) ->
  active ts interval (now + 1000 * (w - 1)) = true.
Proof.
  unfold active, or0, num_or. intros Hi Hw Hle. destruct ts as [z|].
  - destruct (Z.eqb_spec z 0) as [->|]; simpl.
    + pose proof (ceil1000_nonpos (0 + interval - now)). lia.
    + pose proof (ceil1000_lower (z + interval - now)). lia.
  - pose proof (ceil1000_nonpos (0 + interval - now)). lia.
Qed.

Lemma active_retry ts interval now :
  active ts interval now = true -> 0 < ceil1000 (or0 ts + interval - now).
Proof.
  unfold active, or0, num_or. destruct ts as [z|]; [|done].
  destruct (Z.eqb_spec z 0); [done|]. simpl. intros. apply ceil1000_pos. lia.
Qed.

Lemma now_plus_interval now interval : or0 (Some now) + interval - now = interval.
Proof. unfold or0, num_or. destruct (Z.eqb_spec now 0); lia. Qed.

Lemma throttle_retry now interval : 0 < interval -> 0 < ceil1000 (or0 (Some now) + interval - now).
Proof. intros. rewrite now_plus_interval. by apply ceil1000_pos. Qed.

(** [Math.max(0, rateLimitAfter, banAfter)] is exact for the two flags. *)
Lemma two_flag_retry ts1 i1 ts2 i2 now w :
  i1 <= now -> i2 <= now ->
  w = Z.max 0 (Z.max (ceil1000 (or0 ts1 + i1 - now)) (ceil1000 (or0 ts2 + i2 - now))) ->
  active ts1 i1 (now + 1000 * w) = false /\
  active ts2 i2 (now + 1000 * w) = false /\
  (0 < w -> active ts1 i1 (now + 1000 * (w - 1)) = true \/
            active ts2 i2 (now + 1000 * (w - 1)) = true).
Proof.
  intros H1 H2 ->. split_and!; [apply active_wait; lia|apply active_wait; lia|]. intros Hw.
  destruct (Z.max_spec (ceil1000 (or0 ts1 + i1 - now)) (ceil1000 (or0 ts2 + i2 - now))) as [[? E]|[? E]].
  - right. apply active_until; lia.
  - left. apply active_until; lia.
Qed.

(** ** Histories and trimmed arrays

    The array [xs] and the full history [hs] agree on every window that can
    still be asked for at or after time [t]. *)
Definition hist_sim (period t : Z) (xs : list Item) (hs : list Z) : Prop :=
  exists zs, xs = Num <$> zs /\ chron t zs /\ chron t hs /\
    forall b, t - period <= b -> filterb (fun z => b <? z) zs = filterb (fun z => b <? z) hs.

Lemma hist_sim_nil period t : hist_sim period t [] [].
Proof. exists []. split_and!; [done|by repeat constructor..|done]. Qed.

Lemma hist_sim_mono period t now xs hs :
  hist_sim period t xs hs -> t <= now -> hist_sim period now xs hs.
Proof.
  intros (zs & -> & Hz & Hh & Hw) Ht. exists zs.
  split_and!; [done|by apply (chron_mono t)..|]. intros b ?. apply Hw. lia.
Qed.

(** Counting one more request at [now]: trimming does not change the
    decision, and the trimmed array still agrees with the history. *)
Lemma hist_sim_count p t now xs hs :
  0 <= p.(wp_max) -> t <= now -> hist_sim p.(wp_period) t xs hs ->
  let kept := trim_hits now p.(wp_period) p.(wp_max) (xs ++ [Num now]) in
  (Z.of_nat (length kept) >? p.(wp_max)) = w_over p now (hs ++ [now]) /\
  (w_over p now (hs ++ [now]) = false -> hist_sim p.(wp_period) now kept (hs ++ [now])).
Proof.
  intros Hm Ht (zs & -> & Hz & Hh & Hw) kept. unfold w_over.
  assert (window now p.(wp_period) (zs ++ [now]) = window now p.(wp_period) (hs ++ [now])) as Hwin.
  { unfold window. rewrite !filterb_app. f_equal. apply Hw. lia. }
  pose proof (chron_snoc now t zs Hz Ht) as [HS HF].
  assert ((Num <$> zs) ++ [Num now] = Num <$> zs ++ [now]) as E by (by rewrite fmap_app).
  subst kept. rewrite E, trim_hits_over, Hwin by done. split; [done|].
  intros Hover. exists (window now p.(wp_period) (zs ++ [now])).
  rewrite trim_hits_num, last_n_all by (rewrite ?Hwin; lia || done).
  split_and!; [done| |by apply (chron_snoc now t)|].
  - split; [by apply StronglySorted_filterb|]. rewrite Forall_forall in HF |- *.
    intros z [Hin _]%elem_of_filterb. auto.
  - intros b Hb. unfold window. rewrite filterb_filterb.
    rewrite (filterb_ext _ (fun z => b <? z)) by (intros; lia).
    rewrite !filterb_app. f_equal. apply Hw. lia.
Qed.

Section Refinement.
Context {R : Type} `{WindowLimiter R}.

Definition wl_sim (t : Z) (r : R) (s : WState) : Prop :=
  wl_rl r = s.(w_limited) /\ hist_sim wl_params.(wp_period) t (wl_hits r) s.(w_hits).

Lemma wl_sim_step t now r s :
  wp_ok wl_params -> t <= now -> wl_sim t r s ->
  wl_sim now (wl_hit now r).1 (w_step wl_params now s).1 /\
  ((wl_hit now r).2 >? 0) = (w_step wl_params now s).2.
Proof.
  intros [Hm Hban] Ht [Hrl Hs]. unfold w_step. rewrite <- Hrl.
  destruct (active (wl_rl r) (wp_ban wl_params) now) eqn:Ha.
  - rewrite wl_hit_limited by done. cbn [fst snd]. split.
    + split; [done|]. by apply (hist_sim_mono _ t).
    + apply active_retry in Ha. lia.
  - destruct (hist_sim_count wl_params t now (wl_hits r) (w_hits s) Hm Ht Hs) as [Hd Hk].
    destruct (w_over wl_params now (w_hits s ++ [now])) eqn:E; cbn [fst snd].
    + destruct (wl_hit_over now r Ha Hd) as (E1 & E2 & ->).
      split; [|pose proof (ceil1000_pos _ Hban); lia].
      split; [done|]. rewrite E1. apply hist_sim_nil.
    + destruct (wl_hit_under now r Ha Hd) as (E1 & E2 & ->).
      split; [|done]. split; [by rewrite E2|]. rewrite E1. auto.
Qed.

Lemma wl_run_refines t r s ts :
  wp_ok wl_params -> StronglySorted Z.le (t :: ts) -> wl_sim t r s ->
  wl_run r ts = w_run wl_params s ts.
Proof.
  intros Hok. revert t r s. induction ts as [|now ts IH]; intros t r s HS Hsim; [done|].
  inversion HS as [|? ? HS' HF]; subst. inversion HF; subst.
  destruct (wl_sim_step t now r s Hok ltac:(done) Hsim) as [Hsim' Hb].
  cbn [wl_run w_run]. destruct (wl_hit now r) as [r' w], (w_step wl_params now s) as [s' b].
  simpl in *. rewrite Hb. f_equal. by apply (IH now).
Qed.

Definition wl_fresh (r : R) : Prop := wl_hits r = [] /\ wl_rl r = None.

Lemma wl_fresh_sim t r : wl_fresh r -> wl_sim t r w_init.
Proof. intros [H1 H2]. split; [done|]. rewrite H1. apply hist_sim_nil. Qed.

(** From a fresh record, the record's decisions are those of the abstract
    limiter, at every chronological sequence of requests. *)
Lemma wl_run_abstract r ts :
  wp_ok wl_params -> StronglySorted Z.le ts -> wl_fresh r ->
  wl_run r ts = w_run wl_params w_init ts.
Proof.
  intros Hok HS Hf. destruct ts as [|t ts]; [done|].
  apply (wl_run_refines t); [done| |by apply wl_fresh_sim].
  inversion HS; subst. constructor; [done|]. by constructor.
Qed.

Lemma wl_run_guarantee r ts t :
  wp_ok wl_params -> wl_params.(wp_period) <= wl_params.(wp_ban) ->
  StronglySorted Z.le ts -> Forall (fun z => 0 < z) ts -> wl_fresh r ->
  admitted wl_params t (wl_run r ts) <= wl_params.(wp_max).
Proof.
  intros Hok Hpb HS Hpos Hf. rewrite wl_run_abstract by done.
  destruct (w_run_trace wl_params w_init ts) as [s' Htr].
  eapply w_trace_guarantee; [apply Hok|done|by rewrite w_run_times..|exact Htr].
Qed.

Lemma wl_run_uncrowded r ts :
  wp_ok wl_params -> StronglySorted Z.le ts -> wl_fresh r ->
  never_crowded wl_params ts -> Forall (fun x => x.2 = false) (wl_run r ts).
Proof. intros. rewrite wl_run_abstract by done. by apply (w_run_uncrowded _ []). Qed.

End Refinement.
