(* ===== verification/Sorting.v ===== *)
(** * Sorting

    [Array.prototype.sort] with a comparison, the order of strings, and the
    ORDER BY of a query. *)

From S2P Require Import Prelude.

#[local] Open Scope string_scope.
#[local] Open Scope Z_scope.

(** ** [Array.prototype.sort] *)

(** The sort is stable: the comparison is that of the caller. *)
Fixpoint sort_insert {A} (cmp : A -> A -> Z) (x : A) (l : list A) : list A :=
  match l with
  | [] => [x]
  | y :: l' => if cmp x y <=? 0 then x :: l else y :: sort_insert cmp x l'
  end.

Definition js_sort {A} (cmp : A -> A -> Z) (l : list A) : list A := foldr (sort_insert cmp) [] l.

(** [a < b] on strings *)
Definition str_lt (a b : string) : bool := negb (String.leb b a).

(** The order of [sort] without a comparison. *)
Definition compare_strings (a b : string) : Z := if str_lt b a then 1 else if str_lt a b then -1 else 0.

(** ** Sorting *)

Section Sort.
Context {A : Type} (cmp : A -> A -> Z).
Definition cmp_le (a b : A) : Prop := cmp a b <= 0.
Context `{!Total cmp_le} `{!Transitive cmp_le}.

Lemma sort_insert_perm x l : sort_insert cmp x l ≡ₚ x :: l.
Proof. induction l as [|y l IH]; cbn; [done|]. destruct (_ <=? _); [done|]. by rewrite IH, Permutation_swap. Qed.

Lemma js_sort_perm l : js_sort cmp l ≡ₚ l.
Proof. induction l as [|x l IH]; cbn; [done|]. by rewrite sort_insert_perm, IH. Qed.

Lemma sort_insert_sorted x l : StronglySorted cmp_le l -> StronglySorted cmp_le (sort_insert cmp x l).
Proof.
  induction 1 as [|y l Hl IH Hy]; cbn; [by repeat constructor|]. destruct (Z.leb_spec (cmp x y) 0) as [Hc|Hc].
  - constructor; [by constructor|]. constructor; [done|]. eapply Forall_impl; [exact Hy|]. intros z Hz. by etrans.
  - constructor; [done|]. rewrite sort_insert_perm. constructor; [|done]. destruct (total cmp_le x y); [|done]. unfold cmp_le in *. lia.
Qed.

Lemma js_sort_sorted l : StronglySorted cmp_le (js_sort cmp l).
Proof. induction l as [|x l IH]; cbn; [constructor|by apply sort_insert_sorted]. Qed.
End Sort.

(** A comparison by one key, and then by another. *)
Definition then_by {A} (c1 c2 : A -> A -> Z) (a b : A) : Z := if c1 a b =? 0 then c2 a b else c1 a b.

(** A comparison that [sort] may be used with. *)
Record consistent {A} (c : A -> A -> Z) : Prop := {
  c_range a b : c a b = -1 \/ c a b = 0 \/ c a b = 1;
  c_anti a b : c b a = - c a b;
  c_trans a b d : c a b <= 0 -> c b d <= 0 -> c a d <= 0 /\ (c a d = 0 -> c a b = 0 /\ c b d = 0) }.

Lemma consistent_then {A} (c1 c2 : A -> A -> Z) : consistent c1 -> consistent c2 -> consistent (then_by c1 c2).
Proof.
  intros [R1 A1 T1] [R2 A2 T2]. unfold then_by. split.
  - intros a b. destruct (Z.eqb_spec (c1 a b) 0); auto.
  - intros a b. rewrite (A1 a b), (A2 a b). destruct (Z.eqb_spec (c1 a b) 0), (Z.eqb_spec (- c1 a b) 0); lia.
  - intros a b d H1 H2.
    assert (c1 a b <= 0 /\ (c1 a b = 0 -> c2 a b <= 0)) as [Ha Ha'] by (destruct (Z.eqb_spec (c1 a b) 0); lia).
    assert (c1 b d <= 0 /\ (c1 b d = 0 -> c2 b d <= 0)) as [Hb Hb'] by (destruct (Z.eqb_spec (c1 b d) 0); lia).
    destruct (T1 a b d Ha Hb) as [Hd Hd']. destruct (Z.eqb_spec (c1 a d) 0) as [E|E].
    + destruct (Hd' E) as [E1 E2]. rewrite E1, E2. cbn. apply T2; auto.
    + split; [lia|]. lia.
Qed.

Lemma consistent_le {A} (c : A -> A -> Z) : consistent c -> Total (cmp_le c) /\ Transitive (cmp_le c).
Proof.
  intros [R An T]. unfold cmp_le. split.
  - intros a b. pose proof (An a b). lia.
  - intros a b d. apply T.
Qed.

Lemma consistent_on {A B} (f : B -> A) (c : A -> A -> Z) : consistent c -> consistent (fun a b => c (f a) (f b)).
Proof. intros [R An T]. split; intros; [apply R|apply An|by apply T]. Qed.

Lemma str_lt_spec a b : str_lt a b = true <-> ~ String.le b a.
Proof. unfold str_lt, String.le. rewrite negb_true_iff, Is_true_true. by destruct (String.leb b a). Qed.

Lemma compare_strings_consistent : consistent compare_strings.
Proof.
  assert (forall a b, (compare_strings a b = -1 /\ ~ String.le b a) \/ (compare_strings a b = 0 /\ a = b) \/ (compare_strings a b = 1 /\ ~ String.le a b)) as H.
  { intros a b. unfold compare_strings. destruct (str_lt b a) eqn:E1.
    - apply str_lt_spec in E1. auto.
    - destruct (str_lt a b) eqn:E2; [apply str_lt_spec in E2; auto|]. right. left. split; [done|].
      unfold str_lt in *. apply negb_false_iff in E1, E2. by apply String.leb_antisym. }
  split.
  - intros a b. destruct (H a b) as [[]|[[]|[]]]; auto.
  - intros a b. destruct (H a b) as [[-> Ha]|[[-> Ha]|[-> Ha]]], (H b a) as [[-> Hb]|[[-> Hb]|[-> Hb]]]; try lia;
      try (subst; by destruct (Ha (reflexivity _))); try (subst; by destruct (Hb (reflexivity _)));
      destruct (total String.le a b); done.
  - intros a b d H1 H2.
    assert (String.le a b) as L1 by (destruct (H a b) as [[? Ha]|[[? ->]|[? Ha]]]; [by destruct (total String.le a b)|done|lia]).
    assert (String.le b d) as L2 by (destruct (H b d) as [[? Ha]|[[? ->]|[? Ha]]]; [by destruct (total String.le b d)|done|lia]).
    destruct (H a d) as [[? Ha]|[[? ->]|[? Ha]]]; [lia| |destruct Ha; by etrans].
    assert (d = b) as -> by (by apply (anti_symm String.le)). destruct (H b b) as [[]|[[]|[]]]; lia.
Qed.

Definition compare_numbers (a b : Z) : Z := if a >? b then 1 else if a <? b then -1 else 0.

Lemma compare_numbers_consistent : consistent compare_numbers.
Proof.
  unfold compare_numbers. split; intros a b; rewrite !Z.gtb_ltb; [| |intros d]; rewrite ?Z.gtb_ltb;
    repeat match goal with |- context [?x <? ?y] => destruct (Z.ltb_spec x y) end; lia.
Qed.

Lemma consistent_flip {A} (c : A -> A -> Z) : consistent c -> consistent (fun a b => c b a).
Proof.
  intros [R An T]. split; intros; [apply R|apply An|]. destruct (T d b a) as [? Ht]; [done..|]. split; [done|]. intros E. by destruct (Ht E).
Qed.

Lemma consistent_ext {A} (c c' : A -> A -> Z) : (forall a b, c a b = c' a b) -> consistent c' -> consistent c.
Proof. intros E [R An T]. split; intros *; rewrite !E; [apply R|apply An|apply T]. Qed.

Lemma StronglySorted_fmap {A B} (f : A -> B) (R : B -> B -> Prop) l :
  StronglySorted R (f <$> l) <-> StronglySorted (fun x y => R (f x) (f y)) l.
Proof.
  induction l as [|x l IH]; [split; constructor|]. rewrite fmap_cons.
  split; intros [Hs Hx]%StronglySorted_inv; constructor; [by apply IH|exact (proj1 (Forall_fmap _ _ _) Hx)|by apply IH|by apply Forall_fmap].
Qed.
