(* ===== verification/Store.v ===== *)
(** * The record store: memcached and the objects kept in it

    memcached is a service the customs server talks to through a client
    library: an interface here, [Memcached], with the laws the server relies
    on in [MemcachedLaws].  [gmap_memcached] shows that the laws can hold. *)

From S2P Require Import Prelude Window.

(** ** The objects kept in the store

    A stored record is a JSON object.  Records of different kinds live under
    plain string keys in one name space, so reading is untyped: the record
    below has every property name any record kind uses; [None] is a missing
    property. *)
Record StoredObject := mkStored {
  so_bk : option Z;
  so_su : option Z;
  so_di : option Z;
  so_rl : option Z;
  so_pr : option Z;
  so_vc : option (list Item);
  so_xs : option (list Item);
  so_sms : option (list Item);
  so_lf : option (list Item);
  so_ub : option (list Item);
  so_as : option (list Item);
  so_aa : option (list Item);
  so_hits : option (list Item);
  so_timestampsByAction : option (jsobj (list Item));
  so_rateLimitedTimestamp : option Z }.

(** [{}] *)
Definition empty_object : StoredObject :=
  mkStored None None None None None None None None None None None None None None None.

(** [object || {}] *)
Definition or_empty (o : option StoredObject) : StoredObject := default empty_object o.

(** [object.p || []] *)
Definition or_nil {A} (o : option (list A)) : list A := default [] o.

(** ** memcached

    [mc_get m k now]: the reply of [getAsync(k)] at time [now]: [inl None] is
    a miss, [inr tt] a rejected promise.  [mc_set m k v lifetime now]: the
    state after [setAsync(k, v, lifetime)] and whether the promise resolved;
    lifetimes are in milliseconds, 0 is "no expiry". *)
Class Memcached (M V : Type) := {
  mc_get : M -> string -> Z -> option V + unit;
  mc_set : M -> string -> V -> Z -> Z -> M * bool }.

(** Documented behaviour: a stored value is returned until it expires, and a
    write does not change other keys. *)
Class MemcachedLaws (M V : Type) `{Memcached M V} : Prop := {
  mc_get_set m k v life now m' t :
    mc_set m k v life now = (m', true) -> now <= t -> t < now + life \/ life = 0 ->
    mc_get m' k t = inl (Some v);
  mc_get_set_ne m k k' v life now m' b t :
    k <> k' -> mc_set m k v life now = (m', b) -> mc_get m' k' t = mc_get m k' t }.

(** Expiry: a write with a lifetime leaves nothing behind it. *)
Class MemcachedExpiry (M V : Type) `{Memcached M V} : Prop :=
  mc_get_expired m k v life now m' b t :
    mc_set m k v life now = (m', b) -> 0 < life -> now + life <= t ->
    (forall w, mc_get m k t <> inl (Some w)) -> forall w, mc_get m' k t <> inl (Some w).

(** A store in which nothing fails and nothing is evicted. *)
#[export] Instance gmap_memcached V : Memcached (gmap string (V * Z * Z)) V := {
  mc_get m k t :=
    match m !! k with
    | Some (v, life, since) =>
        if (life =? 0) || (t <? since + life) then inl (Some v) else inl None
    | None => inl None
    end;
  mc_set m k v life now := (<[k := (v, life, now)]> m, true) }.

#[export] Instance gmap_memcached_laws V : MemcachedLaws (gmap string (V * Z * Z)) V.
Proof.
  constructor; simpl.
  - intros m k v life now m' t [= <-] ? Hl. rewrite lookup_insert_eq.
    assert ((life =? 0) || (t <? now + life) = true) as -> by lia. done.
  - intros m k k' v life now m' b t Hne [= <- _]. by rewrite lookup_insert_ne.
Qed.

#[export] Instance gmap_memcached_expiry V : MemcachedExpiry (gmap string (V * Z * Z)) V.
Proof.
  intros m k v life now m' b t; simpl. intros [= <- _] ? ? _ w. rewrite lookup_insert_eq.
  assert ((life =? 0) || (t <? now + life) = false) as -> by lia. done.
Qed.
