(* ===== verification/Actions.v ===== *)
(** * Classification of actions (packages/fxa-customs-server/lib/actions.js)

    The tables are object literals indexed by the action name, so the
    predicates are property reads; [ACCOUNT_ACCESS_ACTION] is a [Set]. *)

From S2P Require Import Prelude.

Definition PASSWORD_CHECKING_ACTION : list string :=
  ["accountLogin"; "accountDestroy"; "passwordChange"]%string.

Definition CODE_VERIFYING_ACTION : list string :=
  ["recoveryEmailVerifyCode"; "passwordForgotVerifyCode"; "verifyRecoveryCode";
   "verifySessionCode"; "verifyTotpCode"]%string.

Definition ACCOUNT_STATUS_ACTION : list string :=
  ["accountCreate"; "accountLogin"; "accountDestroy"; "passwordChange";
   "passwordForgotSendCode"; "accountStatusCheck"; "sendUnblockCode";
   "recoveryKeyExists"]%string.

Definition EMAIL_SENDING_ACTION : list string :=
  ["accountCreate"; "createEmail"; "recoveryEmailResendCode";
   "recoveryEmailSecondaryResendCode"; "passwordForgotSendCode";
   "passwordForgotResendCode"; "sendUnblockCode"]%string.

Definition SMS_SENDING_ACTION : list string := ["connectDeviceSms"]%string.

Definition ACCOUNT_ACCESS_ACTION : list string := ["consumeSigninCode"]%string.

Definition isPasswordCheckingAction (action : string) : bool :=
  js_truthy_in action PASSWORD_CHECKING_ACTION.

Definition isCodeVerifyingAction (action : string) : bool :=
  js_truthy_in action CODE_VERIFYING_ACTION.

Definition isAccountStatusAction (action : string) : bool :=
  js_truthy_in action ACCOUNT_STATUS_ACTION.

Definition isEmailSendingAction (action : string) : bool :=
  js_truthy_in action EMAIL_SENDING_ACTION.

Definition isSmsSendingAction (action : string) : bool :=
  js_truthy_in action SMS_SENDING_ACTION.

Definition isAccountAccessAction (action : string) : bool :=
  bool_decide (action ∈ ACCOUNT_ACCESS_ACTION).

(** An action that sends an e-mail neither verifies a code nor sends an SMS
    (inherited property names apart). *)
Lemma email_sending_only action :
  is_proto_name action = false -> isEmailSendingAction action = true ->
  isCodeVerifyingAction action = false /\ isSmsSendingAction action = false /\
  isPasswordCheckingAction action = false /\ isAccountAccessAction action = false.
Proof.
  unfold isEmailSendingAction, isCodeVerifyingAction, isSmsSendingAction,
    isPasswordCheckingAction, isAccountAccessAction, js_truthy_in.
  intros -> H. rewrite orb_false_r in H. apply bool_decide_eq_true in H.
  unfold EMAIL_SENDING_ACTION in H.
  repeat (apply elem_of_cons in H as [->|H]; [by vm_compute|]). by apply elem_of_nil in H.
Qed.
