(* ===== verification/Limits.v ===== *)
(** * Limits of the customs server
    (packages/fxa-customs-server/lib/settings/limits.js)

    The limits object holds the configured values and the derived
    millisecond values; it is stored in, and hot-loaded from, memcached. *)

From S2P Require Import Prelude.

#[local] Open Scope string_scope.

Record UidRateLimit := mkUidRateLimit {
  limitIntervalSeconds : Z; banDurationSeconds : Z; maxChecks : Z }.

Record SmsRateLimit := mkSmsRateLimit {
  sms_limitIntervalSeconds : Z; sms_maxSms : Z }.

Record t := mk {
  blockIntervalSeconds : Z;
  blockIntervalMs : Z;
  suspectIntervalMs : option Z;
  disableIntervalMs : option Z;
  rateLimitIntervalSeconds : Z;
  rateLimitIntervalMs : Z;
  maxEmails : Z;
  maxBadLogins : Z;
  maxBadLoginsPerIp : Z;
  maxBadLoginsPerEmail : Z;
  maxUnblockAttempts : Z;
  maxVerifyCodes : Z;
  ipRateLimitIntervalSeconds : Z;
  ipRateLimitIntervalMs : Z;
  ipRateLimitBanDurationSeconds : Z;
  ipRateLimitBanDurationMs : Z;
  maxAccountStatusCheck : Z;
  badLoginErrnoWeights : gmap Z Z;
  uidRateLimit : UidRateLimit;
  maxChecksPerUid : Z;
  uidRateLimitBanDurationMs : Z;
  uidRateLimitIntervalMs : Z;
  smsRateLimit : SmsRateLimit;
  maxSms : Z;
  smsRateLimitIntervalSeconds : Z;
  smsRateLimitIntervalMs : Z;
  maxAccountAccess : Z }.

(** ** Property values of a settings object

    Numbers, strings, booleans, and objects: those of the three shapes the
    limits use, or any other ([VObj], which also stands for [null]). *)
Inductive jsv :=
  | VNum (z : Z)
  | VWeights (w : gmap Z Z)
  | VUid (u : UidRateLimit)
  | VSms (s : SmsRateLimit)
  | VStr (s : string)
  | VBool (b : bool)
  | VObj.

Definition typeof (v : option jsv) : string :=
  match v with
  | None => "undefined"
  | Some (VNum _) => "number"
  | Some (VStr _) => "string"
  | Some (VBool _) => "boolean"
  | Some _ => "object"
  end%string.

Definition raw := jsobj jsv.

Definition num_field (s : raw) (k : string) : option Z :=
  match obj_get s k with Some (VNum z) => Some z | _ => None end.

(** [settings.badLoginErrnoWeights || {}] and the nested groups. *)
Definition weights_field (s : raw) : option (gmap Z Z) :=
  match obj_get s "badLoginErrnoWeights" with
  | Some (VWeights w) => Some w | None => Some ∅ | _ => None end.

Definition uid_field (s : raw) : option UidRateLimit :=
  match obj_get s "uidRateLimit" with Some (VUid u) => Some u | _ => None end.

Definition sms_field (s : raw) : option SmsRateLimit :=
  match obj_get s "smsRateLimit" with Some (VSms u) => Some u | _ => None end.

(** [setAll(settings)].  [None]: a numeric property is not a number or a
    nested group lacks its shape; the source would then hold values that are
    not numbers, which the model leaves out (see [limits_validate_total] for
    why the first case is unreachable after [validate]).  [suspectInterval]
    and [disableInterval] may be [undefined]. *)
Definition setAll (s : raw) : option t :=
  blockIntervalSeconds ← num_field s "blockIntervalSeconds";
  rateLimitIntervalSeconds ← num_field s "rateLimitIntervalSeconds";
  maxEmails ← num_field s "maxEmails";
  maxBadLogins ← num_field s "maxBadLogins";
  maxBadLoginsPerIp ← num_field s "maxBadLoginsPerIp";
  maxBadLoginsPerEmail ← num_field s "maxBadLoginsPerEmail";
  maxUnblockAttempts ← num_field s "maxUnblockAttempts";
  maxVerifyCodes ← num_field s "maxVerifyCodes";
  ipRateLimitIntervalSeconds ← num_field s "ipRateLimitIntervalSeconds";
  ipRateLimitBanDurationSeconds ← num_field s "ipRateLimitBanDurationSeconds";
  maxAccountStatusCheck ← num_field s "maxAccountStatusCheck";
  badLoginErrnoWeights ← weights_field s;
  uidRateLimit ← uid_field s;
  smsRateLimit ← sms_field s;
  maxAccountAccess ← num_field s "maxAccountAccess";
  Some {|
    blockIntervalSeconds := blockIntervalSeconds;
    blockIntervalMs := blockIntervalSeconds * 1000;
    suspectIntervalMs := num_field s "suspectInterval";
    disableIntervalMs := num_field s "disableInterval";
    rateLimitIntervalSeconds := rateLimitIntervalSeconds;
    rateLimitIntervalMs := rateLimitIntervalSeconds * 1000;
    maxEmails := maxEmails;
    maxBadLogins := maxBadLogins;
    maxBadLoginsPerIp := maxBadLoginsPerIp;
    maxBadLoginsPerEmail := maxBadLoginsPerEmail;
    maxUnblockAttempts := maxUnblockAttempts;
    maxVerifyCodes := maxVerifyCodes;
    ipRateLimitIntervalSeconds := ipRateLimitIntervalSeconds;
    ipRateLimitIntervalMs := ipRateLimitIntervalSeconds * 1000;
    ipRateLimitBanDurationSeconds := ipRateLimitBanDurationSeconds;
    ipRateLimitBanDurationMs := ipRateLimitBanDurationSeconds * 1000;
    maxAccountStatusCheck := maxAccountStatusCheck;
    badLoginErrnoWeights := badLoginErrnoWeights;
    uidRateLimit := uidRateLimit;
    maxChecksPerUid := uidRateLimit.(maxChecks);
    uidRateLimitBanDurationMs := uidRateLimit.(banDurationSeconds) * 1000;
    uidRateLimitIntervalMs := uidRateLimit.(limitIntervalSeconds) * 1000;
    smsRateLimit := smsRateLimit;
    maxSms := smsRateLimit.(sms_maxSms);
    smsRateLimitIntervalSeconds := smsRateLimit.(sms_limitIntervalSeconds);
    smsRateLimitIntervalMs := smsRateLimit.(sms_limitIntervalSeconds) * 1000;
    maxAccountAccess := maxAccountAccess |}.

(** The own properties of the limits object: what [push] serialises, and
    what [this[key]] reads. *)
Definition opt_field (k : string) (v : option Z) : raw :=
  match v with Some z => [(k, VNum z)] | None => [] end.

Definition own_properties (l : t) : raw :=
  ([("blockIntervalSeconds", VNum l.(blockIntervalSeconds));
    ("blockIntervalMs", VNum l.(blockIntervalMs))] ++
   opt_field "suspectIntervalMs" l.(suspectIntervalMs) ++
   opt_field "disableIntervalMs" l.(disableIntervalMs) ++
   [("rateLimitIntervalSeconds", VNum l.(rateLimitIntervalSeconds));
    ("rateLimitIntervalMs", VNum l.(rateLimitIntervalMs));
    ("maxEmails", VNum l.(maxEmails));
    ("maxBadLogins", VNum l.(maxBadLogins));
    ("maxBadLoginsPerIp", VNum l.(maxBadLoginsPerIp));
    ("maxBadLoginsPerEmail", VNum l.(maxBadLoginsPerEmail));
    ("maxUnblockAttempts", VNum l.(maxUnblockAttempts));
    ("maxVerifyCodes", VNum l.(maxVerifyCodes));
    ("ipRateLimitIntervalSeconds", VNum l.(ipRateLimitIntervalSeconds));
    ("ipRateLimitIntervalMs", VNum l.(ipRateLimitIntervalMs));
    ("ipRateLimitBanDurationSeconds", VNum l.(ipRateLimitBanDurationSeconds));
    ("ipRateLimitBanDurationMs", VNum l.(ipRateLimitBanDurationMs));
    ("maxAccountStatusCheck", VNum l.(maxAccountStatusCheck));
    ("badLoginErrnoWeights", VWeights l.(badLoginErrnoWeights));
    ("uidRateLimit", VUid l.(uidRateLimit));
    ("maxChecksPerUid", VNum l.(maxChecksPerUid));
    ("uidRateLimitBanDurationMs", VNum l.(uidRateLimitBanDurationMs));
    ("uidRateLimitIntervalMs", VNum l.(uidRateLimitIntervalMs));
    ("smsRateLimit", VSms l.(smsRateLimit));
    ("maxSms", VNum l.(maxSms));
    ("smsRateLimitIntervalSeconds", VNum l.(smsRateLimitIntervalSeconds));
    ("smsRateLimitIntervalMs", VNum l.(smsRateLimitIntervalMs));
    ("maxAccountAccess", VNum l.(maxAccountAccess))])%list.

(** The keys of [config.limits] (lib/config/config.js), in order. *)
Definition config_limits_keys : list string :=
  ["blockIntervalSeconds"; "suspectInterval"; "disableInterval";
   "rateLimitIntervalSeconds"; "maxEmails"; "maxBadLogins";
   "maxBadLoginsPerIp"; "maxBadLoginsPerEmail"; "maxUnblockAttempts";
   "maxVerifyCodes"; "badLoginErrnoWeights"; "ipRateLimitIntervalSeconds";
   "ipRateLimitBanDurationSeconds"; "smsRateLimit"; "uidRateLimit";
   "maxAccountStatusCheck"; "maxAccountAccess"]%string.

(** One round of the loop of [validate]: a property whose type differs from
    the current one is replaced by the current value. *)
Definition validate_key (current : raw) (settings : raw) (key : string) : raw :=
  if String.eqb (typeof (obj_get current key)) (typeof (obj_get settings key))
  then settings
  else match obj_get current key with
       | Some v => obj_set settings key v
       | None => obj_delete settings key
       end.

(** The value read from memcached: a miss ([undefined]) or a value that is
    not an object, [null] (whose [typeof] is "object"), or an object. *)
Inductive stored := NotObject | Null | Object_ (r : raw).

Inductive settings_error := Missing | TypeError.

(** The loop of [validate] over the keys of [config.limits]. *)
Definition reload (l : t) (r : raw) : raw :=
  fold_left (validate_key (own_properties l)) config_limits_keys r.

Definition validate (l : t) (settings : stored) : raw + settings_error :=
  match settings with
  | NotObject => inr Missing
  | Null => inr TypeError
  | Object_ r => inl (reload l r)
  end.

(** ** Hot-loading *)

(** What [validate] leaves under [key]. *)
Definition picked (current settings : raw) (key : string) : option jsv :=
  if String.eqb (typeof (obj_get current key)) (typeof (obj_get settings key))
  then obj_get settings key else obj_get current key.

Lemma validate_key_get c s key k :
  obj_get (validate_key c s key) k =
  if String.eqb key k then picked c s k else obj_get s k.
Proof.
  unfold validate_key, picked. destruct (String.eqb_spec key k) as [->|Hne].
  - destruct (String.eqb _ _); [done|].
    destruct (obj_get c k); auto using obj_get_set_eq, obj_get_delete_eq.
  - destruct (String.eqb _ _); [done|].
    destruct (obj_get c key); auto using obj_get_set_ne, obj_get_delete_ne.
Qed.

Lemma validate_fold_get c keys s k :
  obj_get (fold_left (validate_key c) keys s) k =
  if bool_decide (k ∈ keys) then picked c s k else obj_get s k.
Proof.
  revert s. induction keys as [|key keys IH]; intros s; [done|]. cbn [fold_left].
  rewrite IH. destruct (String.eqb_spec key k) as [->|Hne].
  - rewrite (bool_decide_true (k ∈ k :: keys)) by set_solver.
    assert (picked c (validate_key c s k) k = picked c s k) as Hp.
    { unfold picked at 1. rewrite validate_key_get, String.eqb_refl. unfold picked.
      destruct (String.eqb (typeof (obj_get c k)) (typeof (obj_get s k))) eqn:E; [by rewrite E|].
      by rewrite String.eqb_refl. }
    case_bool_decide; [done|]. by rewrite validate_key_get, String.eqb_refl.
  - rewrite (bool_decide_ext (k ∈ key :: keys) (k ∈ keys)) by set_solver.
    unfold picked. rewrite validate_key_get. by rewrite (proj2 (String.eqb_neq key k)).
Qed.

Lemma picked_num c s k z : obj_get c k = Some (VNum z) -> exists z', picked c s k = Some (VNum z').
Proof.
  unfold picked. intros ->. simpl. destruct (obj_get s k) as [[]|]; simpl; eauto.
Qed.

Lemma picked_undefined c s k : obj_get c k = None -> picked c s k = None.
Proof. unfold picked. intros ->. simpl. destruct (obj_get s k) as [[]|]; done. Qed.

(** Nested groups of a stored object have their documented shape. *)
Definition nested_ok (r : raw) : Prop :=
  (typeof (obj_get r "badLoginErrnoWeights") = "object" ->
    exists w, obj_get r "badLoginErrnoWeights" = Some (VWeights w)) /\
  (typeof (obj_get r "uidRateLimit") = "object" ->
    exists u, obj_get r "uidRateLimit" = Some (VUid u)) /\
  (typeof (obj_get r "smsRateLimit") = "object" ->
    exists u, obj_get r "smsRateLimit" = Some (VSms u)).

(** The limits with both intervals of the Dataflow flags [undefined]. *)
Definition without_intervals (l : t) : t :=
  mk l.(blockIntervalSeconds) l.(blockIntervalMs) None None
    l.(rateLimitIntervalSeconds) l.(rateLimitIntervalMs) l.(maxEmails) l.(maxBadLogins)
    l.(maxBadLoginsPerIp) l.(maxBadLoginsPerEmail) l.(maxUnblockAttempts) l.(maxVerifyCodes)
    l.(ipRateLimitIntervalSeconds) l.(ipRateLimitIntervalMs) l.(ipRateLimitBanDurationSeconds)
    l.(ipRateLimitBanDurationMs) l.(maxAccountStatusCheck) l.(badLoginErrnoWeights)
    l.(uidRateLimit) l.(maxChecksPerUid) l.(uidRateLimitBanDurationMs)
    l.(uidRateLimitIntervalMs) l.(smsRateLimit) l.(maxSms) l.(smsRateLimitIntervalSeconds)
    l.(smsRateLimitIntervalMs) l.(maxAccountAccess).

Lemma own_get_skip l k :
  String.eqb "suspectIntervalMs" k = false -> String.eqb "disableIntervalMs" k = false ->
  obj_get (own_properties l) k = obj_get (own_properties (without_intervals l)) k.
Proof.
  intros H1 H2. destruct l as [? ? [s|] [d|]]; unfold own_properties; cbn -[String.eqb];
    rewrite ?H1, ?H2; done.
Qed.

Definition numeric_keys : list string :=
  ["blockIntervalSeconds"; "rateLimitIntervalSeconds"; "maxEmails"; "maxBadLogins";
   "maxBadLoginsPerIp"; "maxBadLoginsPerEmail"; "maxUnblockAttempts"; "maxVerifyCodes";
   "ipRateLimitIntervalSeconds"; "ipRateLimitBanDurationSeconds";
   "maxAccountStatusCheck"; "maxAccountAccess"].

Lemma own_numeric l k : k ∈ numeric_keys -> exists z, obj_get (own_properties l) k = Some (VNum z).
Proof.
  unfold numeric_keys. intros H.
  repeat (apply elem_of_cons in H as [->|H]; [rewrite own_get_skip by done; by eexists|]).
  by apply elem_of_nil in H.
Qed.

Lemma reload_get l r k :
  k ∈ config_limits_keys -> obj_get (reload l r) k = picked (own_properties l) r k.
Proof. intros. unfold reload. by rewrite validate_fold_get, bool_decide_true. Qed.

Ltac known_key := unfold config_limits_keys; set_solver.

Lemma reload_numeric l r k : k ∈ numeric_keys -> exists z, num_field (reload l r) k = Some z.
Proof.
  intros Hk. destruct (own_numeric l k Hk) as [z Hz]. unfold num_field. rewrite reload_get.
  - destruct (picked_num _ r _ _ Hz) as [z' ->]. eauto.
  - revert Hk. unfold numeric_keys. known_key.
Qed.

Lemma reload_flag_interval l r k :
  k ∈ ["suspectInterval"; "disableInterval"] -> num_field (reload l r) k = None.
Proof.
  intros Hk. unfold num_field. rewrite reload_get by (revert Hk; known_key).
  rewrite picked_undefined; [done|].
  repeat (apply elem_of_cons in Hk as [->|Hk]; [by rewrite own_get_skip|]).
  by apply elem_of_nil in Hk.
Qed.

(** A nested group is taken from the store when it is an object there. *)
Lemma reload_object l r k v :
  k ∈ config_limits_keys -> obj_get (own_properties l) k = Some v -> typeof (Some v) = "object" ->
  obj_get (reload l r) k = Some v \/
  obj_get (reload l r) k = obj_get r k /\ typeof (obj_get r k) = "object".
Proof.
  intros Hk Hv Hty. rewrite reload_get by done. unfold picked. rewrite Hv, Hty.
  destruct (String.eqb_spec "object" (typeof (obj_get r k))); auto.
Qed.

Lemma reload_nested l r :
  nested_ok r ->
  is_Some (weights_field (reload l r)) /\ is_Some (uid_field (reload l r)) /\
  is_Some (sms_field (reload l r)).
Proof.
  intros (Hw & Hu & Hs). unfold weights_field, uid_field, sms_field. split_and!.
  - destruct (reload_object l r "badLoginErrnoWeights" (VWeights l.(badLoginErrnoWeights)))
      as [->|[-> H]]; [known_key|by rewrite own_get_skip|done|eauto|].
    destruct (Hw H) as [? ->]; eauto.
  - destruct (reload_object l r "uidRateLimit" (VUid l.(uidRateLimit)))
      as [->|[-> H]]; [known_key|by rewrite own_get_skip|done|eauto|].
    destruct (Hu H) as [? ->]; eauto.
  - destruct (reload_object l r "smsRateLimit" (VSms l.(smsRateLimit)))
      as [->|[-> H]]; [known_key|by rewrite own_get_skip|done|eauto|].
    destruct (Hs H) as [? ->]; eauto.
Qed.

Lemma setAll_complete s :
  (forall k, k ∈ numeric_keys -> exists z, num_field s k = Some z) ->
  is_Some (weights_field s) -> is_Some (uid_field s) -> is_Some (sms_field s) ->
  is_Some (setAll s).
Proof.
  intros H [w Hw] [u Hu] [m Hm]. unfold setAll. rewrite Hw, Hu, Hm.
  repeat match goal with
  | |- context [num_field s ?k ≫= _] =>
      destruct (H k ltac:(unfold numeric_keys; set_solver)) as [? ->]; cbn [mbind option_bind]
  end.
  eauto.
Qed.

(** Hot-loading never yields limits that are not numbers: whatever object
    memcached holds (its nested groups having their documented shape),
    [validate] followed by [setAll] produces a complete limits object. *)
Theorem limits_validate_total l r :
  nested_ok r ->
  exists r' l', validate l (Object_ r) = inl r' /\ setAll r' = Some l'.
Proof.
  intros Hn. destruct (reload_nested l r Hn) as (Hw & Hu & Hs).
  destruct (setAll_complete (reload l r) (reload_numeric l r) Hw Hu Hs) as [l' Hl'].
  exists (reload l r), l'. split; [done|exact Hl'].
Qed.

Lemma reload_self l k : obj_get (reload l (own_properties l)) k = obj_get (own_properties l) k.
Proof.
  unfold reload. rewrite validate_fold_get. unfold picked. rewrite String.eqb_refl.
  by case_bool_decide.
Qed.

#[local] Opaque reload.

Lemma setAll_flag_intervals s l :
  setAll s = Some l ->
  suspectIntervalMs l = num_field s "suspectInterval" /\
  disableIntervalMs l = num_field s "disableInterval".
Proof.
  unfold setAll. intros H.
  repeat match type of H with
  | (?x ≫= _) = Some _ => destruct x; cbn [mbind option_bind] in H; [|discriminate]
  end.
  by injection H as <-.
Qed.

(** Once the limits have been hot-loaded, from whatever object, the
    intervals of the suspect and disable flags are [undefined]: [validate]
    looks up [suspectInterval] and [disableInterval] on an object that only
    has [suspectIntervalMs] and [disableIntervalMs]. *)
Theorem limits_reload_drops_intervals l r r' l' :
  validate l (Object_ r) = inl r' -> setAll r' = Some l' ->
  suspectIntervalMs l' = None /\ disableIntervalMs l' = None.
Proof.
  intros [= <-] [-> ->]%setAll_flag_intervals.
  split; apply reload_flag_interval; set_solver.
Qed.

Lemma setAll_ext r s : (forall k, obj_get r k = obj_get s k) -> setAll r = setAll s.
Proof.
  intros H. unfold setAll, num_field, weights_field, uid_field, sms_field. by rewrite !H.
Qed.

(** Limits whose derived fields agree with the configured ones. *)
Definition derived_ok (l : t) : Prop := exists s, setAll s = Some l.

Lemma setAll_own l : derived_ok l -> setAll (own_properties l) = Some (without_intervals l).
Proof.
  intros [s H]. unfold setAll in H.
  repeat match type of H with
  | (?x ≫= _) = Some _ => destruct x; cbn [mbind option_bind] in H; [|discriminate]
  end.
  injection H as <-.
  destruct (num_field s "suspectInterval"), (num_field s "disableInterval"); reflexivity.
Qed.

(** A limits object pushed to memcached and read back keeps every
    limit except the two flag intervals, which are lost. *)
Theorem limits_push_reload l :
  derived_ok l ->
  exists r, validate l (Object_ (own_properties l)) = inl r /\
    setAll r = Some (without_intervals l).
Proof.
  intros Hl. exists (reload l (own_properties l)). split; [done|].
  rewrite (setAll_ext _ (own_properties l)) by apply reload_self. by apply setAll_own.
Qed.

(** ** Sample limits

    The defaults of lib/config/config.js (the two flag intervals, which the
    configuration library converts from durations, as one day and 365 days). *)
Definition sample_settings : raw :=
  [("blockIntervalSeconds", VNum 86400); ("suspectInterval", VNum 86400000);
   ("disableInterval", VNum 31536000000); ("rateLimitIntervalSeconds", VNum 900);
   ("maxEmails", VNum 3); ("maxBadLogins", VNum 2); ("maxBadLoginsPerIp", VNum 3);
   ("maxBadLoginsPerEmail", VNum 3); ("maxUnblockAttempts", VNum 5);
   ("maxVerifyCodes", VNum 10);
   ("badLoginErrnoWeights", VWeights (list_to_map [(102, 2); (125, 4); (126, 2)]));
   ("ipRateLimitIntervalSeconds", VNum 900); ("ipRateLimitBanDurationSeconds", VNum 900);
   ("smsRateLimit", VSms (mkSmsRateLimit 1800 3));
   ("uidRateLimit", VUid (mkUidRateLimit 900 900 100));
   ("maxAccountStatusCheck", VNum 5); ("maxAccountAccess", VNum 5)].

Definition sample : t :=
  mk 86400 86400000 (Some 86400000) (Some 31536000000) 900 900000 3 2 3 3 5 10
    900 900000 900 900000 5 (list_to_map [(102, 2); (125, 4); (126, 2)])
    (mkUidRateLimit 900 900 100) 100 900000 900000
    (mkSmsRateLimit 1800 3) 3 1800 1800000 5.

Lemma sample_setAll : setAll sample_settings = Some sample.
Proof. reflexivity. Qed.

(** Witnesses at the default limits. *)
Lemma limits_validate_total_witness :
  exists r' l', validate sample (Object_ [("maxEmails", VStr "ten")]) = inl r' /\ setAll r' = Some l'.
Proof. apply (limits_validate_total sample). unfold nested_ok. simpl. split_and!; discriminate. Defined.

Lemma limits_reload_drops_intervals_witness :
  suspectIntervalMs (without_intervals sample) = None /\
  disableIntervalMs (without_intervals sample) = None.
Proof.
  apply (limits_reload_drops_intervals sample (own_properties sample)
    (reload sample (own_properties sample))); vm_compute; reflexivity.
Defined.

Lemma limits_push_reload_witness :
  exists r, validate sample (Object_ (own_properties sample)) = inl r /\
    setAll r = Some (without_intervals sample).
Proof. apply (limits_push_reload sample). exists sample_settings. reflexivity. Defined.
