(* ===== verification/EmailRecord.v ===== *)
(** * Events tied to an e-mail address
    (packages/fxa-customs-server/lib/email_record.js) *)

From S2P Require Import Prelude Window Store Actions Limits.

(** ** State *)
Record t := mk {
  bk : option Z;      (* when the account was blocked *)
  su : option Z;      (* when it was suspected *)
  di : option Z;      (* when it was disabled *)
  rl : option Z;      (* when it was rate-limited *)
  vc : list Item;     (* code verifications *)
  xs : list Item;     (* e-mails sent *)
  sms : list Item;    (* SMS sent *)
  lf : list Item;     (* failed logins *)
  pr : option Z;      (* last password reset *)
  ub : list Item }.   (* unblock attempts *)

Definition set_bk r v := mk v r.(su) r.(di) r.(rl) r.(vc) r.(xs) r.(sms) r.(lf) r.(pr) r.(ub).
Definition set_su r v := mk r.(bk) v r.(di) r.(rl) r.(vc) r.(xs) r.(sms) r.(lf) r.(pr) r.(ub).
Definition set_di r v := mk r.(bk) r.(su) v r.(rl) r.(vc) r.(xs) r.(sms) r.(lf) r.(pr) r.(ub).
Definition set_rl r v := mk r.(bk) r.(su) r.(di) v r.(vc) r.(xs) r.(sms) r.(lf) r.(pr) r.(ub).
Definition set_vc r v := mk r.(bk) r.(su) r.(di) r.(rl) v r.(xs) r.(sms) r.(lf) r.(pr) r.(ub).
Definition set_xs r v := mk r.(bk) r.(su) r.(di) r.(rl) r.(vc) v r.(sms) r.(lf) r.(pr) r.(ub).
Definition set_sms r v := mk r.(bk) r.(su) r.(di) r.(rl) r.(vc) r.(xs) v r.(lf) r.(pr) r.(ub).
Definition set_lf r v := mk r.(bk) r.(su) r.(di) r.(rl) r.(vc) r.(xs) r.(sms) v r.(pr) r.(ub).
Definition set_pr r v := mk r.(bk) r.(su) r.(di) r.(rl) r.(vc) r.(xs) r.(sms) r.(lf) v r.(ub).
Definition set_ub r v := mk r.(bk) r.(su) r.(di) r.(rl) r.(vc) r.(xs) r.(sms) r.(lf) r.(pr) v.

(** [new EmailRecord()] *)
Definition fresh : t := mk None None None None [] [] [] [] None [].

(** [EmailRecord.parse(object)] *)
Definition parse (object : option StoredObject) : t :=
  let o := or_empty object in
  mk o.(so_bk) o.(so_su) o.(so_di) o.(so_rl) (default fresh.(vc) o.(so_vc))
    (default fresh.(xs) o.(so_xs)) (default fresh.(sms) o.(so_sms))
    (default fresh.(lf) o.(so_lf)) o.(so_pr) (default fresh.(ub) o.(so_ub)).

Section Operations.
Context (limits : Limits.t) (now : Z).

Definition getMinLifetimeMS : Z :=
  Z.max limits.(rateLimitIntervalMs) limits.(blockIntervalMs).

Definition trimHits (r : t) : t :=
  set_xs r (trim_hits now limits.(rateLimitIntervalMs) limits.(maxEmails) r.(xs)).

Definition isOverEmailLimit (r : t) : t * bool :=
  let r := trimHits r in (r, Z.of_nat (length r.(xs)) >? limits.(maxEmails)).

Definition addHit (r : t) : t := set_xs r (r.(xs) ++ [Num now]).

Definition trimVerifyCodes (r : t) : t :=
  set_vc r (trim_hits now limits.(rateLimitIntervalMs) limits.(maxVerifyCodes) r.(vc)).

Definition isOverVerifyCodes (r : t) : t * bool :=
  let r := trimVerifyCodes r in (r, Z.of_nat (length r.(vc)) >? limits.(maxVerifyCodes)).

Definition addVerifyCode (r : t) : t := set_vc r (r.(vc) ++ [Num now]).

Definition trimSmsRequests (r : t) : t :=
  set_sms r (trim_hits now limits.(rateLimitIntervalMs) limits.(maxSms) r.(sms)).

Definition isOverSmsLimit (r : t) : t * bool :=
  let r := trimSmsRequests r in (r, Z.of_nat (length r.(sms)) >? limits.(maxSms)).

Definition addSmsRequest (r : t) : t := set_sms r (r.(sms) ++ [Num now]).

Definition addUnblock (r : t) : t := set_ub r (r.(ub) ++ [Num now]).

Definition trimUnblocks (r : t) : t :=
  set_ub r (trim_hits now limits.(rateLimitIntervalMs) limits.(maxUnblockAttempts) r.(ub)).

Definition canUnblock (r : t) : t * bool :=
  let r := trimUnblocks r in (r, Z.of_nat (length r.(ub)) <=? limits.(maxUnblockAttempts)).

Definition isRateLimited (r : t) : bool := active r.(rl) limits.(rateLimitIntervalMs) now.

Definition isBlocked (r : t) : bool := active r.(bk) limits.(blockIntervalMs) now.

Definition isSuspected (r : t) : bool := active_opt r.(su) limits.(suspectIntervalMs) now.

Definition isDisabled (r : t) : bool := active_opt r.(di) limits.(disableIntervalMs) now.

Definition shouldBlock (r : t) : bool := isRateLimited r || isBlocked r || isDisabled r.

Definition block (r : t) : t := set_bk r (Some now).

Definition suspect (r : t) : t := set_su r (Some now).

Definition disable (r : t) : t := set_di r (Some now).

Definition rateLimit (r : t) : t := set_sms (set_xs (set_rl r (Some now)) []) [].

Definition passwordReset (r : t) : t := set_pr r (Some now).

Definition retryAfter (r : t) : Z :=
  let rateLimitAfter := ceil1000 (or0 r.(rl) + limits.(rateLimitIntervalMs) - now) in
  let banAfter := ceil1000 (or0 r.(bk) + limits.(blockIntervalMs) - now) in
  Z.max 0 (Z.max rateLimitAfter banAfter).

Definition trimBadLogins (r : t) : t :=
  set_lf r (trim_hits now limits.(rateLimitIntervalMs) limits.(maxBadLoginsPerEmail) r.(lf)).

Definition isOverBadLogins (r : t) : t * bool :=
  let r := trimBadLogins r in (r, Z.of_nat (length r.(lf)) >? limits.(maxBadLoginsPerEmail)).

Definition addBadLogin (r : t) : t :=
  let r := trimBadLogins r in set_lf r (r.(lf) ++ [Num now]).

(** [this.rateLimit(); return this.retryAfter();] *)
Definition throttle (r : t) : t * Z := let r := rateLimit r in (r, retryAfter r).

(** The three counting blocks of [update]: [inr] is an early return. *)
Definition count_step (counts : bool) (add : t -> t) (over : t -> t * bool) (r : t)
    : t + t * Z :=
  if counts then
    if shouldBlock r then inr (r, retryAfter r)
    else let '(r, b) := over (add r) in
         if b then inr (throttle r) else inl r
  else inl r.

(** The end of [update]: the SMS block and the failed logins. *)
Definition update_tail (action : string) (r : t) : t * Z :=
  match count_step (isSmsSendingAction action) addSmsRequest isOverSmsLimit r with
  | inr res => res
  | inl r =>
      let '(r, over) := isOverBadLogins r in
      if over then throttle r else (r, 0)
  end.

Definition update (action : string) (unblock : bool) (r : t) : t * Z :=
  if isBlocked r then (r, retryAfter r)
  else
    let r := if unblock then addUnblock r else r in
    match count_step (isCodeVerifyingAction action) addVerifyCode isOverVerifyCodes r with
    | inr res => res
    | inl r =>
    match count_step (isEmailSendingAction action) addHit isOverEmailLimit r with
    | inr res => res
    | inl r => update_tail action r
    end end.

End Operations.

(** ** Well-formedness and size *)
Record wf (now : Z) (r : t) : Prop := {
  wf_vc : hits_wf now r.(vc);
  wf_xs : hits_wf now r.(xs);
  wf_sms : hits_wf now r.(sms);
  wf_lf : hits_wf now r.(lf);
  wf_ub : hits_wf now r.(ub) }.

#[export] Hint Constructors wf : customs.
#[export] Hint Resolve wf_vc wf_xs wf_sms wf_lf wf_ub : customs.

Lemma email_wf_mono now0 now r : wf now0 r -> now0 <= now -> wf now r.
Proof. intros [] ?. constructor; eauto with customs. Qed.

Lemma email_fresh_wf now : wf now fresh.
Proof. constructor; simpl; auto with customs. Qed.

(** The arrays stay within their limits plus one (plus two for [lf], which
    is trimmed before it grows). *)
Record bounded (limits : Limits.t) (r : t) : Prop := {
  bd_vc : Z.of_nat (length r.(vc)) <= limits.(maxVerifyCodes) + 1;
  bd_xs : Z.of_nat (length r.(xs)) <= limits.(maxEmails) + 1;
  bd_sms : Z.of_nat (length r.(sms)) <= limits.(maxSms) + 1;
  bd_lf : Z.of_nat (length r.(lf)) <= limits.(maxBadLoginsPerEmail) + 2 }.

Definition limits_nonneg (l : Limits.t) : Prop :=
  0 <= l.(maxEmails) /\ 0 <= l.(maxVerifyCodes) /\ 0 <= l.(maxSms) /\
  0 <= l.(maxBadLoginsPerEmail) /\ 0 <= l.(maxUnblockAttempts).

(** A predicate on records that trimming, pushing-then-trimming and
    throttling respect is preserved by [update]. *)
Section Preservation.
Context (limits : Limits.t) (now : Z) (P : t -> Prop).
Hypothesis P_unblock : forall r, P r -> P (addUnblock now r).
Hypothesis P_vc : forall r, P r -> P (isOverVerifyCodes limits now (addVerifyCode now r)).1.
Hypothesis P_xs : forall r, P r -> P (isOverEmailLimit limits now (addHit now r)).1.
Hypothesis P_sms : forall r, P r -> P (isOverSmsLimit limits now (addSmsRequest now r)).1.
Hypothesis P_lf : forall r, P r -> P (trimBadLogins limits now r).
Hypothesis P_rl : forall r, P r -> P (rateLimit now r).

Definition outcome (res : t + t * Z) : t :=
  match res with inl r => r | inr (r, _) => r end.

Lemma count_step_preserves c add over r :
  (forall r, P r -> P (over (add r)).1) -> P r ->
  P (outcome (count_step limits now c add over r)).
Proof.
  intros Ho Hr. unfold count_step. destruct c; [|done]. destruct (shouldBlock limits now r); [done|].
  specialize (Ho r Hr). destruct (over (add r)) as [r' b]. destruct b; simpl in *; auto.
Qed.

Lemma update_preserves action u r : P r -> P (update limits now action u r).1.
Proof.
  intros Hr. unfold update. destruct (isBlocked limits now r); [done|].
  assert (P (if u then addUnblock now r else r)) as Hr1 by (destruct u; auto).
  apply (count_step_preserves (isCodeVerifyingAction action) _ _ _ P_vc) in Hr1.
  destruct (count_step _ _ _ _ (isOverVerifyCodes _ _) _) as [r1|[r1 ?]]; [|done].
  apply (count_step_preserves (isEmailSendingAction action) _ _ _ P_xs) in Hr1.
  destruct (count_step _ _ _ _ (isOverEmailLimit _ _) _) as [r2|[r2 ?]]; [|done].
  unfold update_tail. apply (count_step_preserves (isSmsSendingAction action) _ _ _ P_sms) in Hr1.
  destruct (count_step _ _ _ _ (isOverSmsLimit _ _) _) as [r3|[r3 ?]]; [|done].
  simpl in *. apply P_lf in Hr1. destruct (_ >? _); simpl; auto.
Qed.

End Preservation.

(** Every array of an e-mail record stays a chronological list of
    timestamps not younger than the clock under [update], for every action. *)
Theorem email_update_wf limits t0 now action u r :
  wf t0 r -> t0 <= now -> wf now (update limits now action u r).1.
Proof.
  intros Hr Ht. apply update_preserves; [..|by eapply email_wf_mono];
    intros r' []; constructor; simpl; eauto using Z.le_refl with customs.
Qed.

(** [update] keeps every array within its limit: at most [max + 1]
    entries are ever stored for codes, e-mails and SMS. *)
Theorem email_update_bounded limits now action u r :
  limits_nonneg limits -> bounded limits r ->
  bounded limits (update limits now action u r).1.
Proof.
  intros (? & ? & ? & ? & ?) Hr. apply update_preserves; [..|done];
    intros r' []; constructor; simpl; try done; try (apply trim_hits_bound; lia); try lia.
  etransitivity; [apply trim_hits_bound; lia|lia].
Qed.

(** ** [retryAfter] *)

(** [retryAfter] is exact: after that many seconds without events the
    record is neither rate-limited nor blocked, and if it is positive one of
    the two still holds a second earlier. *)
Theorem email_retryAfter_exact limits now r :
  limits.(rateLimitIntervalMs) <= now -> limits.(blockIntervalMs) <= now ->
  let w := retryAfter limits now r in
  isRateLimited limits (now + 1000 * w) r = false /\
  isBlocked limits (now + 1000 * w) r = false /\
  (0 < w -> isRateLimited limits (now + 1000 * (w - 1)) r = true \/
            isBlocked limits (now + 1000 * (w - 1)) r = true).
Proof.
  intros Hr Hb w. by apply two_flag_retry.
Qed.

(** A rate-limited or blocked record asks to wait. *)
Lemma retryAfter_pos limits now r :
  isRateLimited limits now r || isBlocked limits now r = true -> 0 < retryAfter limits now r.
Proof.
  unfold isRateLimited, isBlocked, retryAfter. cbv zeta.
  intros [H|H]%orb_true_iff; apply active_retry in H; lia.
Qed.

Lemma throttle_pos limits now r :
  0 < limits.(rateLimitIntervalMs) -> 0 < (throttle limits now r).2.
Proof.
  intros. unfold throttle, retryAfter. cbn [snd rl rateLimit set_sms set_xs set_rl].
  pose proof (throttle_retry now (rateLimitIntervalMs limits)). lia.
Qed.

(** ** The e-mail sending limit over arbitrary histories *)

(** What can happen to an e-mail record. *)
Inductive op :=
  | Update (action : string) (unblock : bool)
  | AddBadLogin | Block | Suspect | Disable | PasswordReset | CanUnblock.

(** An operation at time [now]: the new record, and [false] exactly when it
    is an e-mail sending check that was let through while the record was not
    disabled.  What is let through while it is disabled is not counted, see
    [email_disabled_unlimited]. *)
Definition apply_op (limits : Limits.t) (now : Z) (o : op) (r : t) : t * bool :=
  match o with
  | Update action u =>
      let '(r', w) := update limits now action u r in
      (r', negb (isEmailSendingAction action && negb (isDisabled limits now r) && (w <=? 0)))
  | AddBadLogin => (addBadLogin limits now r, true)
  | Block => (block now r, true)
  | Suspect => (suspect now r, true)
  | Disable => (disable now r, true)
  | PasswordReset => (passwordReset now r, true)
  | CanUnblock => ((canUnblock limits now r).1, true)
  end.

Fixpoint run_ops (limits : Limits.t) (evs : list (Z * op)) (r : t) : list (Z * bool) :=
  match evs with
  | [] => []
  | (now, o) :: evs' =>
      let '(r', b) := apply_op limits now o r in (now, b) :: run_ops limits evs' r'
  end.

Definition email_params (limits : Limits.t) : WParams :=
  mkWParams limits.(rateLimitIntervalMs) limits.(rateLimitIntervalMs) limits.(maxEmails).

(** Refinement of the abstract limiter by the [xs] and [rl] fields. *)
Definition email_sim (limits : Limits.t) (now : Z) (r : t) (s : WState) : Prop :=
  r.(rl) = s.(w_limited) /\ hist_sim limits.(rateLimitIntervalMs) now r.(xs) s.(w_hits).

Section EmailLimit.
Context (limits : Limits.t).
Hypothesis interval_pos : 0 < limits.(rateLimitIntervalMs).
Hypothesis max_nonneg : 0 <= limits.(maxEmails).
Abbreviation sim := (email_sim limits).

(** Fields the window of e-mails depends on. *)
Definition same_email_fields (r r' : t) : Prop :=
  r'.(di) = r.(di) /\ r'.(rl) = r.(rl) /\ r'.(xs) = r.(xs).

Lemma email_sim_same t0 now r r' s :
  sim t0 r s -> t0 <= now -> same_email_fields r r' -> sim now r' s.
Proof.
  intros (H2 & H3) Ht (E1 & E2 & E3). unfold email_sim. rewrite E2, E3.
  split; [done|]. by apply (hist_sim_mono _ t0).
Qed.

Lemma same_fields_enabled now r r' :
  same_email_fields r r' -> isDisabled limits now r = false -> isDisabled limits now r' = false.
Proof. unfold isDisabled. by intros (-> & _). Qed.

Lemma email_sim_throttle now r : sim now (rateLimit now r) (mkWState [] (Some now)).
Proof. split; [done|]. apply hist_sim_nil. Qed.

(** While the record is not disabled, an early return of [update] asks to
    wait. *)
Lemma shouldBlock_pos now r :
  isDisabled limits now r = false -> shouldBlock limits now r = true -> 0 < retryAfter limits now r.
Proof. unfold shouldBlock. intros ->. rewrite orb_false_r. apply retryAfter_pos. Qed.

(** The window of e-mails as it was or emptied by throttling. *)
Definition held (now : Z) (s : WState) (r : t) : Prop := sim now r s \/ sim now r (mkWState [] (Some now)).

(** An early return of [update]: a positive wait. *)
Definition stopped (now : Z) (s : WState) (r : t) (w : Z) : Prop := 0 < w /\ held now s r.

Lemma stopped_throttle now s r : stopped now s (throttle limits now r).1 (throttle limits now r).2.
Proof. split; [by apply throttle_pos|]. right. apply email_sim_throttle. Qed.

Lemma count_step_other now c add over r s :
  (forall r, same_email_fields r (over (add r)).1) -> isDisabled limits now r = false -> sim now r s ->
  match count_step limits now c add over r with
  | inl r' => isDisabled limits now r' = false /\ sim now r' s
  | inr (r', w) => stopped now s r' w
  end.
Proof.
  intros Hf Hd Hs. unfold count_step. destruct c; [|done].
  destruct (shouldBlock limits now r) eqn:E.
  - split; [by apply shouldBlock_pos|]. by left.
  - specialize (Hf r). destruct (over (add r)) as [r' b]. simpl in Hf.
    assert (sim now r' s) by (eapply email_sim_same; eauto; lia).
    destruct b; [apply stopped_throttle|]. split; [|done]. by eapply same_fields_enabled.
Qed.

Definition counted (now : Z) (s : WState) : WState :=
  mkWState (s.(w_hits) ++ [now]) s.(w_limited).

Lemma count_step_email now r s :
  isDisabled limits now r = false -> sim now r s ->
  match count_step limits now true (addHit now) (isOverEmailLimit limits now) r with
  | inl r' =>
      (forall b, w_trans (email_params limits) now s b (counted now s)) /\ isDisabled limits now r' = false /\ sim now r' (counted now s)
  | inr (r', w) => stopped now s r' w
  end.
Proof.
  intros Hd' Hs. pose proof Hs as (H2 & H3). unfold count_step.
  destruct (shouldBlock limits now r) eqn:E.
  - split; [by apply shouldBlock_pos|]. by left.
  - unfold isOverEmailLimit. cbn [xs trimHits addHit set_xs].
    destruct (hist_sim_count (email_params limits) now now _ _ max_nonneg (Z.le_refl _) H3) as [Hd Hk].
    cbn [wp_max wp_period email_params] in *. rewrite Hd.
    destruct (w_over (email_params limits) now (w_hits s ++ [now])) eqn:Eo.
    + apply stopped_throttle.
    + split; [|split; [done|]].
      * intros b. apply w_counted; [|done]. rewrite <- H2. unfold shouldBlock, isRateLimited in E.
        apply orb_false_iff in E as [[E _]%orb_false_iff _]. done.
      * split; [done|by apply Hk].
Qed.

Lemma update_tail_sim now action r s :
  isDisabled limits now r = false -> sim now r s ->
  let '(r', w) := update_tail limits now action r in
  stopped now s r' w \/ w = 0 /\ sim now r' s.
Proof.
  intros Hd Hs. unfold update_tail.
  pose proof (count_step_other now (isSmsSendingAction action) (addSmsRequest now)
    (isOverSmsLimit limits now) r s ltac:(done) Hd Hs) as H.
  destruct (count_step _ _ _ _ _ _) as [r1|[r1 w]]; [destruct H as [_ H]|by left].
  unfold isOverBadLogins.
  assert (sim now (trimBadLogins limits now r1) s) by (eapply email_sim_same; eauto; done).
  destruct (_ >? _); [left; apply stopped_throttle|by right].
Qed.

(** Each operation is a transition of the abstract limiter. *)
Definition simulated (now : Z) (s : WState) (r : t) (b : bool) : Prop :=
  exists s', w_trans (email_params limits) now s b s' /\ sim now r s'.

Lemma held_simulated now s r : held now s r -> simulated now s r true.
Proof. intros [H|H]; eexists; (split; [|exact H]); [apply w_refused|apply w_throttle]. Qed.

Lemma stopped_simulated now s r w c : stopped now s r w -> simulated now s r (negb (c && (w <=? 0))).
Proof.
  intros [Hw H]. replace (w <=? 0) with false by lia. rewrite andb_false_r. by apply held_simulated.
Qed.

(** A disabled record counts nothing. *)
Lemma count_step_disabled now c add over r :
  isDisabled limits now r = true -> count_step limits now c add over r = if c then inr (r, retryAfter limits now r) else inl r.
Proof. intros Hd. unfold count_step, shouldBlock. by rewrite Hd, orb_true_r. Qed.

Lemma update_disabled now action u r s :
  isDisabled limits now r = true -> sim now r s -> held now s (update limits now action u r).1.
Proof.
  intros Hd Hs. unfold update. destruct (isBlocked limits now r); [by left|].
  set (r1 := if u then addUnblock now r else r).
  assert (isDisabled limits now r1 = true /\ sim now r1 s) as [Hd1 Hs1] by (subst r1; by destruct u).
  rewrite count_step_disabled by done. destruct (isCodeVerifyingAction action); [by left|].
  rewrite count_step_disabled by done. destruct (isEmailSendingAction action); [by left|].
  unfold update_tail. rewrite count_step_disabled by done. destruct (isSmsSendingAction action); [by left|].
  unfold isOverBadLogins. destruct (_ >? _); [right; apply email_sim_throttle|by left].
Qed.

Lemma update_enabled now action u r s :
  isDisabled limits now r = false -> sim now r s ->
  let '(r', w) := update limits now action u r in simulated now s r' (negb (isEmailSendingAction action && (w <=? 0))).
Proof.
  intros Hd Hs. unfold update.
  destruct (isBlocked limits now r) eqn:Eb.
  { apply stopped_simulated. split; [|by left]. apply retryAfter_pos. rewrite Eb. apply orb_true_r. }
  set (r0 := if u then addUnblock now r else r).
  assert (isDisabled limits now r0 = false /\ sim now r0 s) as [Hd0 H1] by (subst r0; by destruct u).
  apply (count_step_other now (isCodeVerifyingAction action) (addVerifyCode now)
    (isOverVerifyCodes limits now) _ s ltac:(done) Hd0) in H1.
  destruct (count_step _ _ _ _ (isOverVerifyCodes _ _) _) as [r1|[r1 w1]];
    [destruct H1 as [Hd1 H1]|by apply stopped_simulated].
  destruct (isEmailSendingAction action) eqn:Ee.
  - pose proof (count_step_email now r1 s Hd1 H1) as H2.
    destruct (count_step _ _ _ _ (isOverEmailLimit _ _) _) as [r2|[r2 w2]];
      [|by apply (stopped_simulated _ _ _ _ true)].
    destruct H2 as (Ht & Hd2 & H2). pose proof (update_tail_sim now action r2 _ Hd2 H2) as H3.
    destruct (update_tail limits now action _) as [r3 w3].
    destruct H3 as [[Hw [H3|H3]]|[-> H3]].
    + eexists; split; [apply Ht|done].
    + replace (w3 <=? 0) with false by lia. eexists; split; [apply w_throttle|done].
    + eexists; split; [apply Ht|done].
  - cbn [count_step]. pose proof (update_tail_sim now action r1 _ Hd1 H1) as H3.
    destruct (update_tail limits now action _) as [r3 w3].
    destruct H3 as [H3|[-> H3]]; [by apply (stopped_simulated _ _ _ _ false)|].
    eexists; split; [apply w_refused|done].
Qed.

Lemma update_sim now action u r s :
  sim now r s ->
  let '(r', b) := apply_op limits now (Update action u) r in simulated now s r' b.
Proof.
  intros Hs. cbn [apply_op]. destruct (isDisabled limits now r) eqn:Hd.
  - pose proof (update_disabled now action u r s Hd Hs) as Hh. destruct (update limits now action u r) as [r' w].
    rewrite andb_false_r. by apply held_simulated.
  - pose proof (update_enabled now action u r s Hd Hs) as Hu. destruct (update limits now action u r) as [r' w].
    by rewrite andb_true_r.
Qed.

Lemma apply_op_sim t0 now o r s :
  sim t0 r s -> t0 <= now ->
  let '(r', b) := apply_op limits now o r in simulated now s r' b.
Proof.
  intros Hs Ht.
  assert (sim now r s) as Hs' by (eapply email_sim_same; eauto; done).
  destruct o; [by apply update_sim|..]; eexists; (split; [apply w_refused|done]).
Qed.

Lemma run_ops_sim t0 evs r s :
  sim t0 r s -> StronglySorted Z.le (t0 :: evs.*1) ->
  exists s', w_trace (email_params limits) s (run_ops limits evs r) s'.
Proof.
  revert t0 r s. induction evs as [|[now o] evs IH]; intros t0 r s Hs HS; cbn [run_ops].
  - eexists. constructor.
  - rewrite fmap_cons in HS. inversion HS as [|? ? HS' HF]; subst. inversion HF; subst.
    pose proof (apply_op_sim t0 now o r s Hs ltac:(done)) as H.
    destruct (apply_op limits now o r) as [r' b]. destruct H as (s1 & Ht & Hs1).
    destruct (IH _ _ _ Hs1 HS') as [s' Htr]. exists s'. econstructor; eauto.
Qed.

Lemma run_ops_times evs r : (run_ops limits evs r).*1 = evs.*1.
Proof.
  revert r. induction evs as [|[now o] evs IH]; intros r; cbn [run_ops]; [done|].
  destruct (apply_op limits now o r). rewrite !fmap_cons. by rewrite IH.
Qed.

Lemma email_fresh_sim t0 : sim t0 fresh w_init.
Proof. split; [done|apply hist_sim_nil]. Qed.

End EmailLimit.

(** [C37] Over any chronological history of checks of any actions, failed
    logins, bans, suspicions, disablings, password resets and unblock checks,
    at most [maxEmails] of the e-mail sending checks of one address that are
    made while the record is not disabled are let through in any window of
    [rateLimitIntervalMs] milliseconds. *)
Theorem email_sending_limited limits evs t :
  0 < limits.(rateLimitIntervalMs) -> 0 <= limits.(maxEmails) ->
  StronglySorted Z.le evs.*1 -> Forall (fun z => 0 < z) evs.*1 ->
  admitted (email_params limits) t (run_ops limits evs fresh) <= limits.(maxEmails).
Proof.
  intros Hi Hm HS Hpos.
  assert (StronglySorted Z.le (0 :: evs.*1)) as HS0.
  { constructor; [done|]. eapply Forall_impl; [exact Hpos|]. simpl; lia. }
  destruct (run_ops_sim limits Hi Hm 0 evs fresh w_init (email_fresh_sim limits 0) HS0) as [s' Htr].
  apply (w_trace_guarantee (email_params limits) _ s'); simpl; rewrite ?run_ops_times; auto; lia.
Qed.

(** A disabled address is not limited at all: while the disable flag is
    up and no block or rate limit is active, an e-mail sending check is let
    through (wait 0) and leaves the record unchanged, so nothing is counted. *)
Theorem email_disabled_unlimited limits now action r :
  is_proto_name action = false ->
  isDisabled limits now r = true -> r.(bk) = None -> r.(rl) = None ->
  limits.(rateLimitIntervalMs) <= now -> limits.(blockIntervalMs) <= now ->
  isEmailSendingAction action = true ->
  update limits now action false r = (r, 0).
Proof.
  intros Hp Hd Hb Hr Hi1 Hi2 He. destruct (email_sending_only action Hp He) as (Hc & _).
  unfold update. unfold isBlocked at 1. rewrite Hb. cbn [active]. rewrite Hc, He.
  unfold count_step, shouldBlock. rewrite Hd, orb_true_r. f_equal.
  unfold retryAfter. rewrite Hb, Hr. cbv zeta.
  pose proof (ceil1000_nonpos (or0 None + rateLimitIntervalMs limits - now)).
  pose proof (ceil1000_nonpos (or0 None + blockIntervalMs limits - now)).
  unfold or0, num_or in *. lia.
Qed.

(** ** Witnesses *)

Lemma email_update_wf_witness :
  wf 2000 (update Limits.sample 2000 "accountCreate" false fresh).1.
Proof. apply (email_update_wf _ 1000); [apply email_fresh_wf|lia]. Defined.

Lemma email_update_bounded_witness :
  bounded Limits.sample (update Limits.sample 2000 "accountCreate" true fresh).1.
Proof. apply email_update_bounded; [unfold limits_nonneg; simpl; lia|constructor; simpl; lia]. Defined.

Lemma email_retryAfter_exact_witness :
  let r := rateLimit 1000000000 fresh in
  retryAfter Limits.sample 1000000000 r = 900 /\
  isRateLimited Limits.sample (1000000000 + 1000 * 900) r = false.
Proof.
  split; [reflexivity|].
  apply (email_retryAfter_exact Limits.sample 1000000000 (rateLimit 1000000000 fresh)); simpl; lia.
Defined.

Lemma email_sending_limited_witness :
  let evs := [(1000, Update "accountCreate" false); (2000, Update "sendUnblockCode" false);
              (3000, AddBadLogin); (4000, Update "createEmail" false);
              (5000, Update "createEmail" false); (6000, Disable); (7000, Update "createEmail" false)] in
  (run_ops Limits.sample evs fresh).*2 = [false; false; true; false; true; true; true] /\
  admitted (email_params Limits.sample) 7000 (run_ops Limits.sample evs fresh) <= 3.
Proof.
  split; [reflexivity|].
  apply (email_sending_limited Limits.sample); simpl; [lia|lia|repeat constructor; lia..].
Defined.

Lemma email_disabled_unlimited_witness :
  update Limits.sample 100000000 "accountCreate" false (disable 99999999 fresh) =
  (disable 99999999 fresh, 0).
Proof. apply email_disabled_unlimited; try reflexivity; simpl; lia. Defined.
