(* ===== verification/SmsRecord.v ===== *)
(** * Events tied to a phone number
    (packages/fxa-customs-server/lib/sms_record.js) *)

From S2P Require Import Prelude Window Store Actions Limits.

Record t := mk { rl : option Z; sms : list Item }.

Definition fresh : t := mk None [].

Definition parse (object : option StoredObject) : t :=
  let o := or_empty object in mk o.(so_rl) (or_nil o.(so_sms)).

Section Operations.
Context (limits : Limits.t) (now : Z).

Definition getMinLifetimeMS : Z := limits.(smsRateLimitIntervalMs).

Definition trimHits (r : t) : t :=
  mk r.(rl) (trim_hits now limits.(smsRateLimitIntervalMs) limits.(maxSms) r.(sms)).

Definition isOverSmsLimit (r : t) : t * bool :=
  let r := trimHits r in (r, Z.of_nat (length r.(sms)) >? limits.(maxSms)).

Definition addHit (r : t) : t := mk r.(rl) (r.(sms) ++ [Num now]).

Definition isRateLimited (r : t) : bool := active r.(rl) limits.(smsRateLimitIntervalMs) now.

Definition rateLimit (r : t) : t := mk (Some now) [].

Definition retryAfter (r : t) : Z :=
  Z.max 0 (ceil1000 (or0 r.(rl) + limits.(smsRateLimitIntervalMs) - now)).

(** The body of [update] for an action that sends an SMS. *)
Definition hit (r : t) : t * Z :=
  if isRateLimited r then (r, retryAfter r)
  else
    let '(r, over) := isOverSmsLimit (addHit r) in
    if over then let r := rateLimit r in (r, retryAfter r) else (r, 0).

Definition update (action : string) (r : t) : t * Z :=
  if isSmsSendingAction action then hit r else (r, 0).

End Operations.

(** ** An SMS record is a window limiter *)
#[export, refine] Instance sms_limiter (limits : Limits.t) : WindowLimiter t := {
  wl_params := mkWParams limits.(smsRateLimitIntervalMs) limits.(smsRateLimitIntervalMs) limits.(maxSms);
  wl_hits := sms;
  wl_rl := rl;
  wl_hit now r := hit limits now r }.
Proof.
  all: intros now r; cbn [wp_ban wp_period wp_max]; unfold hit, isRateLimited, isOverSmsLimit;
    intros H; rewrite H; cbn [sms trimHits addHit rl].
  - done.
  - intros ->. split_and!; [done|done|]. unfold retryAfter. cbn [snd rl rateLimit].
    by rewrite now_plus_interval.
  - intros ->. done.
Defined.

(** [update] over a sequence of SMS sending checks: the time and whether the
    check was refused. *)
Fixpoint run (limits : Limits.t) (action : string) (ts : list Z) (r : t) : list (Z * bool) :=
  match ts with
  | [] => []
  | now :: ts' =>
      let '(r', w) := update limits now action r in (now, w >? 0) :: run limits action ts' r'
  end.

Lemma sms_run_wl limits action ts r :
  isSmsSendingAction action = true ->
  run limits action ts r = wl_run (H := sms_limiter limits) r ts.
Proof.
  intros Ha. revert r. induction ts as [|now ts IH]; intros r; [done|].
  cbn [run wl_run]. unfold update. rewrite Ha. cbn [wl_hit sms_limiter].
  destruct (hit limits now r). by rewrite IH.
Qed.

Definition sms_params (limits : Limits.t) : WParams :=
  mkWParams limits.(smsRateLimitIntervalMs) limits.(smsRateLimitIntervalMs) limits.(maxSms).

(** Refinement: on every chronological sequence of SMS checks for one
    phone number, the record that keeps only trimmed timestamps decides
    exactly as the abstract limiter that remembers every request. *)
Theorem sms_refines_window limits action ts :
  0 <= limits.(maxSms) -> 0 < limits.(smsRateLimitIntervalMs) ->
  StronglySorted Z.le ts -> isSmsSendingAction action = true ->
  run limits action ts fresh = w_run (sms_params limits) w_init ts.
Proof.
  intros Hm Hi HS Ha. rewrite sms_run_wl by done.
  apply (wl_run_abstract (H := sms_limiter limits)); [done|done|by split].
Qed.

(** At most [maxSms] SMS checks for a phone number are let through in
    any window of [smsRateLimitIntervalMs] milliseconds. *)
Theorem sms_limited limits action ts t :
  0 <= limits.(maxSms) -> 0 < limits.(smsRateLimitIntervalMs) ->
  StronglySorted Z.le ts -> Forall (fun z => 0 < z) ts -> isSmsSendingAction action = true ->
  admitted (sms_params limits) t (run limits action ts fresh) <= limits.(maxSms).
Proof.
  intros Hm Hi HS Hpos Ha. rewrite sms_run_wl by done.
  apply (wl_run_guarantee (H := sms_limiter limits)); [done|simpl; lia|done..|by split].
Qed.

(** No false positives: if no window of [smsRateLimitIntervalMs] holds
    more than [maxSms] requests, none of them is refused. *)
Theorem sms_uncrowded_allowed limits action ts :
  0 <= limits.(maxSms) -> 0 < limits.(smsRateLimitIntervalMs) ->
  StronglySorted Z.le ts -> isSmsSendingAction action = true ->
  never_crowded (sms_params limits) ts ->
  Forall (fun x => x.2 = false) (run limits action ts fresh).
Proof.
  intros Hm Hi HS Ha Hn. rewrite sms_run_wl by done.
  apply (wl_run_uncrowded (H := sms_limiter limits)); [done|done|by split|done].
Qed.

Lemma sms_refines_window_witness :
  run Limits.sample "connectDeviceSms" [1000; 2000; 3000; 4000; 5000; 2000000] fresh =
  w_run (sms_params Limits.sample) w_init [1000; 2000; 3000; 4000; 5000; 2000000] /\
  (run Limits.sample "connectDeviceSms" [1000; 2000; 3000; 4000; 5000; 2000000] fresh).*2 =
  [false; false; false; true; true; false].
Proof.
  split; [|reflexivity].
  apply sms_refines_window; simpl; [lia|lia|repeat constructor; lia|reflexivity].
Defined.

Lemma sms_limited_witness :
  admitted (sms_params Limits.sample) 4000
    (run Limits.sample "connectDeviceSms" [1000; 2000; 3000; 4000] fresh) <= 3.
Proof.
  apply (sms_limited Limits.sample); simpl; [lia|lia|repeat constructor; lia..|reflexivity].
Defined.

Lemma sms_uncrowded_allowed_witness :
  Forall (fun x => x.2 = false) (run Limits.sample "connectDeviceSms" [1000; 2000; 3000] fresh).
Proof.
  apply sms_uncrowded_allowed; simpl; [lia|lia|repeat constructor; lia|reflexivity|].
  intros t Ht. unfold countb. pose proof (filterb_length (in_window (sms_params sample) t) [1000; 2000; 3000]).
  simpl in *. lia.
Defined.
