(* ===== verification/RuleRecord.v ===== *)
(** * Records of user-defined rate limit rules
    (packages/fxa-customs-server/lib/record.js) *)

From S2P Require Import Prelude Window Store.

(** The [limits] and [actions] of a rule in [config.userDefinedRateLimitRules]. *)
Record RuleLimits := mkRuleLimits { max : Z; periodMs : Z; rateLimitIntervalMs : Z }.

Record Rule := mkRule { actions : list string; limits : RuleLimits }.

Record t := mk { rl : option Z; hits : list Item }.

(** [new Record(object, config)] *)
Definition construct (object : option StoredObject) : t :=
  let o := or_empty object in mk o.(so_rl) (or_nil o.(so_hits)).

Section Operations.
Context (config : Rule) (now : Z).

Definition getMinLifetimeMS : Z := config.(limits).(rateLimitIntervalMs).

Definition trimHits (r : t) : t :=
  mk r.(rl) (trim_hits now config.(limits).(periodMs) config.(limits).(max) r.(hits)).

Definition isOverLimit (r : t) : t * bool :=
  let r := trimHits r in (r, Z.of_nat (length r.(hits)) >? config.(limits).(max)).

Definition addHit (r : t) : t := mk r.(rl) (r.(hits) ++ [Num now]).

Definition isRateLimited (r : t) : bool :=
  active r.(rl) config.(limits).(rateLimitIntervalMs) now.

Definition rateLimit (r : t) : t := mk (Some now) [].

Definition retryAfter (r : t) : Z :=
  Z.max 0 (ceil1000 (or0 r.(rl) + config.(limits).(rateLimitIntervalMs) - now)).

(** The body of [update] for an action of the rule. *)
Definition hit (r : t) : t * Z :=
  if isRateLimited r then (r, retryAfter r)
  else
    let '(r, over) := isOverLimit (addHit r) in
    if over then let r := rateLimit r in (r, retryAfter r) else (r, 0).

(** [this.actions.indexOf(action) > -1] *)
Definition update (action : string) (r : t) : t * Z :=
  if bool_decide (action ∈ config.(actions)) then hit r else (r, 0).

End Operations.

(** ** A rule record is a window limiter *)
Definition rule_params (config : Rule) : WParams :=
  mkWParams config.(limits).(periodMs) config.(limits).(rateLimitIntervalMs) config.(limits).(max).

#[export, refine] Instance rule_limiter (config : Rule) : WindowLimiter t := {
  wl_params := rule_params config;
  wl_hits := hits;
  wl_rl := rl;
  wl_hit now r := hit config now r }.
Proof.
  all: intros now r; cbn [wp_ban wp_period wp_max rule_params];
    unfold hit, isRateLimited, isOverLimit;
    intros H; rewrite H; cbn [hits trimHits addHit rl].
  - done.
  - intros ->. split_and!; [done|done|]. unfold retryAfter. cbn [snd rl rateLimit].
    by rewrite now_plus_interval.
  - intros ->. done.
Defined.

Fixpoint run (config : Rule) (action : string) (ts : list Z) (r : t) : list (Z * bool) :=
  match ts with
  | [] => []
  | now :: ts' =>
      let '(r', w) := update config now action r in (now, w >? 0) :: run config action ts' r'
  end.

Lemma rule_run_wl config action ts r :
  action ∈ config.(actions) ->
  run config action ts r = wl_run (H := rule_limiter config) r ts.
Proof.
  intros Ha. revert r. induction ts as [|now ts IH]; intros r; [done|].
  cbn [run wl_run]. unfold update. rewrite bool_decide_true by done. cbn [wl_hit rule_limiter].
  destruct (hit config now r). by rewrite IH.
Qed.

(** A rule whose ban lasts at least its period lets at most [max] of
    its actions through in any period, and a rule that is never crowded
    refuses nothing. *)
Theorem rule_limited config action ts :
  0 <= config.(limits).(max) -> 0 < config.(limits).(rateLimitIntervalMs) ->
  config.(limits).(periodMs) <= config.(limits).(rateLimitIntervalMs) ->
  StronglySorted Z.le ts -> Forall (fun z => 0 < z) ts -> action ∈ config.(actions) ->
  (forall t, admitted (rule_params config) t (run config action ts (construct None)) <=
    config.(limits).(max)) /\
  (never_crowded (rule_params config) ts ->
   Forall (fun x => x.2 = false) (run config action ts (construct None))).
Proof.
  intros Hm Hi Hp HS Hpos Ha. rewrite rule_run_wl by done. split; intros.
  - by apply (wl_run_guarantee (H := rule_limiter config)).
  - by apply (wl_run_uncrowded (H := rule_limiter config)).
Qed.

(** The default rule for TOTP codes (lib/config/config.js). *)
Definition totpCodeRules : Rule := mkRule ["verifyTotpCode"%string] (mkRuleLimits 2 30000 30000).

Lemma rule_limited_witness :
  (run totpCodeRules "verifyTotpCode" [1000; 2000; 3000; 32999; 33000] (construct None)).*2 =
  [false; false; true; true; false] /\
  admitted (rule_params totpCodeRules) 3000
    (run totpCodeRules "verifyTotpCode" [1000; 2000; 3000; 32999; 33000] (construct None)) <= 2.
Proof.
  split; [reflexivity|].
  refine (proj1 (rule_limited totpCodeRules "verifyTotpCode" [1000; 2000; 3000; 32999; 33000] _ _ _ _ _ _) 3000);
    simpl; [lia|lia|lia|repeat constructor; lia..|set_solver].
Defined.
