(* ===== verification/IpEmailRecord.v ===== *)
(** * Events tied to an IP address and an e-mail address
    (packages/fxa-customs-server/lib/ip_email_record.js) *)

From S2P Require Import Prelude Window Store Actions Limits.

Record t := mk { rl : option Z; lf : list Item }.

Definition fresh : t := mk None [].

Definition parse (object : option StoredObject) : t :=
  let o := or_empty object in mk o.(so_rl) (or_nil o.(so_lf)).

Section Operations.
Context (limits : Limits.t) (now : Z).

Definition getMinLifetimeMS : Z := limits.(rateLimitIntervalMs).

Definition trimBadLogins (r : t) : t :=
  mk r.(rl) (trim_hits now limits.(rateLimitIntervalMs) limits.(maxBadLogins) r.(lf)).

Definition isOverBadLogins (r : t) : t * bool :=
  let r := trimBadLogins r in (r, Z.of_nat (length r.(lf)) >? limits.(maxBadLogins)).

Definition addBadLogin (r : t) : t :=
  let r := trimBadLogins r in mk r.(rl) (r.(lf) ++ [Num now]).

Definition isRateLimited (r : t) : bool := active r.(rl) limits.(rateLimitIntervalMs) now.

Definition shouldBlock (r : t) : bool := isRateLimited r.

Definition rateLimit (r : t) : t := mk (Some now) [].

(** [resetAt > this.rl] with [undefined] on either side is false. *)
Definition unblockIfReset (resetAt : option Z) (r : t) : t * bool :=
  if num_gtb resetAt r.(rl) then (mk None [], true) else (r, false).

Definition retryAfter (r : t) : Z :=
  Z.max 0 (ceil1000 (or0 r.(rl) + limits.(rateLimitIntervalMs) - now)).

Definition update (action : string) (r : t) : t * Z :=
  if negb (isPasswordCheckingAction action) then (r, 0)
  else if shouldBlock r then (r, retryAfter r)
  else
    let '(r, over) := isOverBadLogins r in
    if over then let r := rateLimit r in (r, retryAfter r) else (r, 0).

End Operations.

(** ** Password guessing

    The abstract guard remembers every failed login since it last throttled
    or was reset. *)
Record Guard := mkGuard { g_fails : list Z; g_limited : option Z }.

Inductive op :=
  | Fail                          (* a failed login is reported *)
  | Check                         (* a password checking action is asked for *)
  | Reset (resetAt : option Z).   (* the address had its password reset *)

(** The boolean says "refused" for [Check] and "reset" for [Reset]. *)
Definition guard_step (limits : Limits.t) (now : Z) (o : op) (g : Guard) : Guard * bool :=
  match o with
  | Fail => (mkGuard (g.(g_fails) ++ [now]) g.(g_limited), false)
  | Check =>
      if active g.(g_limited) limits.(rateLimitIntervalMs) now then (g, true)
      else if countb (fun z => now - limits.(rateLimitIntervalMs) <? z) g.(g_fails)
                >? limits.(maxBadLogins)
      then (mkGuard [] (Some now), true)
      else (g, false)
  | Reset resetAt =>
      if num_gtb resetAt g.(g_limited) then (mkGuard [] None, true) else (g, false)
  end.

Definition record_step (limits : Limits.t) (action : string) (now : Z) (o : op) (r : t) : t * bool :=
  match o with
  | Fail => (addBadLogin limits now r, false)
  | Check => let '(r', w) := update limits now action r in (r', w >? 0)
  | Reset resetAt => unblockIfReset resetAt r
  end.

Fixpoint run {S} (step : Z -> op -> S -> S * bool) (evs : list (Z * op)) (s : S) : list bool :=
  match evs with
  | [] => []
  | (now, o) :: evs' => let '(s', b) := step now o s in b :: run step evs' s'
  end.

(** Every window of the array has as many failures as the history, up to
    [maxBadLogins + 1]. *)
Definition guard_sim (limits : Limits.t) (now : Z) (r : t) (g : Guard) : Prop :=
  r.(rl) = g.(g_limited) /\
  exists zs, r.(lf) = Num <$> zs /\ chron now zs /\ chron now g.(g_fails) /\
    forall b, now - limits.(rateLimitIntervalMs) <= b ->
      Z.min (limits.(maxBadLogins) + 1) (countb (fun z => b <? z) zs) =
      Z.min (limits.(maxBadLogins) + 1) (countb (fun z => b <? z) g.(g_fails)).

Section Guessing.
Context (limits : Limits.t) (action : string).
Hypothesis interval_pos : 0 < limits.(rateLimitIntervalMs).
Hypothesis max_nonneg : 0 <= limits.(maxBadLogins).
Hypothesis checking : isPasswordCheckingAction action = true.

Lemma guard_sim_mono t0 now r g : guard_sim limits t0 r g -> t0 <= now -> guard_sim limits now r g.
Proof.
  intros (H1 & zs & E & Hz & Hg & Hw) Ht. split; [done|]. exists zs.
  split_and!; [done|by apply (chron_mono t0)..|]. intros b ?. apply Hw. lia.
Qed.

Lemma guard_sim_nil now l : guard_sim limits now (mk l []) (mkGuard [] l).
Proof. split; [done|]. exists []. split_and!; [done|by repeat constructor..|done]. Qed.

(** Trimming keeps the simulation. *)
Lemma guard_sim_trim now r g :
  guard_sim limits now r g -> guard_sim limits now (trimBadLogins limits now r) g.
Proof.
  intros (H1 & zs & E & Hz & Hg & Hw). split; [done|].
  eexists. unfold trimBadLogins. cbn [lf]. rewrite E, trim_hits_num by apply Hz.
  split_and!; [done|by apply chron_last_window|done|]. intros b Hb. rewrite <- Hw by done.
  rewrite countb_last_n by (apply StronglySorted_filterb, Hz).
  unfold window. rewrite countb_filterb.
  replace (countb (fun x => (now - rateLimitIntervalMs limits <? x) && (b <? x)) zs)
    with (countb (fun z => b <? z) zs); [lia|].
  unfold countb. f_equal. f_equal. apply filterb_ext. intros; lia.
Qed.

Lemma guard_sim_push now r g :
  guard_sim limits now r g ->
  guard_sim limits now (mk r.(rl) (r.(lf) ++ [Num now])) (mkGuard (g.(g_fails) ++ [now]) g.(g_limited)).
Proof.
  intros (H1 & zs & E & Hz & Hg & Hw). split; [done|]. exists (zs ++ [now]).
  cbn [lf g_fails]. rewrite E, fmap_app.
  split_and!; [done|by apply (chron_snoc now now)..|].
  intros b Hb. specialize (Hw b Hb). rewrite !countb_app.
  pose proof (countb_nonneg (fun z => b <? z) [now]). lia.
Qed.

Lemma guard_over now r g :
  guard_sim limits now r g ->
  (Z.of_nat (length (trimBadLogins limits now r).(lf)) >? limits.(maxBadLogins)) =
  (countb (fun z => now - limits.(rateLimitIntervalMs) <? z) g.(g_fails) >? limits.(maxBadLogins)).
Proof.
  intros (H1 & zs & E & Hz & Hg & Hw). specialize (Hw _ (Z.le_refl _)).
  cbn [trimBadLogins lf]. rewrite E, trim_hits_over by (done || apply Hz).
  unfold window. change (Z.of_nat (length (filterb ?p zs))) with (countb p zs).
  apply eq_true_iff_eq. rewrite !Z.gtb_lt. unfold countb in *. lia.
Qed.

Lemma guard_sim_step t0 now o r g :
  guard_sim limits t0 r g -> t0 <= now ->
  guard_sim limits now (record_step limits action now o r).1 (guard_step limits now o g).1 /\
  (record_step limits action now o r).2 = (guard_step limits now o g).2.
Proof.
  intros Hs0 Ht. pose proof (guard_sim_mono t0 now r g Hs0 Ht) as Hs. clear Hs0 Ht.
  destruct o as [| |resetAt]; cbn [record_step guard_step].
  - split; [|done]. apply (guard_sim_push now (trimBadLogins limits now r)). by apply guard_sim_trim.
  - unfold update, shouldBlock, isRateLimited. rewrite checking. cbn [negb].
    rewrite <- (proj1 Hs). destruct (active (rl r) _ now) eqn:Ea.
    + cbn [fst snd]. split; [done|]. apply active_retry in Ea. unfold retryAfter. lia.
    + unfold isOverBadLogins. rewrite (guard_over _ _ g) by done.
      destruct (_ >? maxBadLogins limits); cbn [fst snd].
      * split; [apply guard_sim_nil|]. unfold retryAfter. cbn [rl rateLimit].
        pose proof (throttle_retry now _ interval_pos). lia.
      * split; [by apply guard_sim_trim|done].
  - unfold unblockIfReset. rewrite <- (proj1 Hs).
    destruct (num_gtb resetAt (rl r)); cbn [fst snd]; (split; [|done]); [apply guard_sim_nil|done].
Qed.

Lemma run_guard t0 evs r g :
  guard_sim limits t0 r g -> StronglySorted Z.le (t0 :: evs.*1) ->
  run (record_step limits action) evs r = run (guard_step limits) evs g.
Proof.
  revert t0 r g. induction evs as [|[now o] evs IH]; intros t0 r g Hs HS; [done|].
  rewrite fmap_cons in HS. inversion HS as [|? ? HS' HF]; subst. inversion HF; subst.
  destruct (guard_sim_step t0 now o r g Hs ltac:(done)) as [Hs' Hb].
  cbn [run]. destruct (record_step limits action now o r), (guard_step limits now o g).
  cbn [fst snd] in *. rewrite Hb. f_equal. by apply (IH now).
Qed.

End Guessing.

(** [C36] Refinement: over any chronological interleaving of failed logins,
    password checks and password resets, the record (which trims and caps its
    array) refuses exactly the checks that the guard with full memory
    refuses: those made while throttled, or with more than [maxBadLogins]
    failures in the last [rateLimitIntervalMs]. *)
Theorem ip_email_refines_guard limits action evs :
  0 < limits.(rateLimitIntervalMs) -> 0 <= limits.(maxBadLogins) ->
  isPasswordCheckingAction action = true -> StronglySorted Z.le evs.*1 ->
  run (record_step limits action) evs fresh = run (guard_step limits) evs (mkGuard [] None).
Proof.
  intros Hi Hm Ha HS. destruct evs as [|[now o] evs]; [done|].
  apply (run_guard limits action Hi Hm Ha now); [apply guard_sim_nil|].
  rewrite fmap_cons in *. inversion HS; subst. by repeat constructor.
Qed.

Lemma ip_email_refines_guard_witness :
  let evs := [(1000, Fail); (2000, Check); (2500, Fail); (3000, Fail); (4000, Check);
              (5000, Check); (6000, Reset (Some 5500)); (7000, Check)] in
  run (record_step Limits.sample "accountLogin") evs fresh =
  run (guard_step Limits.sample) evs (mkGuard [] None) /\
  run (record_step Limits.sample "accountLogin") evs fresh =
  [false; false; false; false; true; true; true; false].
Proof.
  split; [|reflexivity].
  apply ip_email_refines_guard; simpl; [lia|lia|reflexivity|repeat constructor; lia].
Defined.
