(* ===== verification/UidRecord.v ===== *)
(** * Events tied to a user id
    (packages/fxa-customs-server/lib/uid_record.js) *)

From S2P Require Import Prelude Window Store Limits.

Record t := mk {
  timestampsByAction : jsobj (list Item);
  rateLimitedTimestamp : option Z }.

Definition fresh : t := mk [] None.

Definition parse (object : option StoredObject) : t :=
  let o := or_empty object in
  mk (default [] o.(so_timestampsByAction)) o.(so_rateLimitedTimestamp).

(** [this.timestampsByAction[action]] as [_trim] receives it: an own array,
    [undefined], or something inherited from [Object.prototype].  The
    inherited functions of length 0 pass for empty arrays; on the others
    [items.slice] is not a function. *)
Inductive items := Own (l : list Item) | Undefined | InheritedEmpty | InheritedOther.

Definition read_items (tba : jsobj (list Item)) (action : string) : items :=
  match obj_get tba action with
  | Some l => Own l
  | None =>
      if bool_decide (action ∈ ["toString"; "valueOf"; "toLocaleString"]%string) then InheritedEmpty
      else if is_proto_name action then InheritedOther
      else Undefined
  end.

(** [_trim(now, items, max)]; the loop tests [n < max].  [None] is the
    [TypeError] thrown on an inherited property. *)
Definition _trim (interval now : Z) (i : items) (max : Z) : option (list Item) :=
  match i with
  | Own l => Some (trim_hits now interval (max - 1) l)
  | Undefined | InheritedEmpty => Some []
  | InheritedOther => None
  end.

Section Operations.
Context (limits : Limits.t) (now : Z).

Definition getMinLifetimeMS : Z :=
  Z.max limits.(uidRateLimitIntervalMs) limits.(uidRateLimitBanDurationMs).

Definition trimCounts (action : string) (r : t) : option t :=
  l ← _trim limits.(uidRateLimitIntervalMs) now (read_items r.(timestampsByAction) action)
        limits.(maxChecksPerUid);
  Some (mk (obj_set r.(timestampsByAction) action l) r.(rateLimitedTimestamp)).

(** [ts && ts + banDuration > now()] *)
Definition isRateLimited (r : t) : bool :=
  match r.(rateLimitedTimestamp) with
  | Some ts => negb (ts =? 0) && (ts + limits.(uidRateLimitBanDurationMs) >? now)
  | None => false
  end.

Definition rateLimit (r : t) : t := mk r.(timestampsByAction) (Some now).

(** [NaN] when there is no timestamp. *)
Definition getRetryAfter (r : t) : num :=
  num_add r.(rateLimitedTimestamp) (Some (limits.(uidRateLimitBanDurationMs) - now)).

(** The array of [action], which [trimCounts] has just written. *)
Definition counts (action : string) (r : t) : list Item :=
  or_nil (obj_get r.(timestampsByAction) action).

Definition getPossibleRetryDelay (action : string) (r : t) : t * num :=
  if Z.of_nat (length (counts action r)) <? limits.(maxChecksPerUid)
  then (mk r.(timestampsByAction) None, Some 0)
  else
    let r := if isRateLimited r then r else rateLimit r in
    (r, getRetryAfter r).

(** [addCount(action)]; [None] is a thrown [TypeError]. *)
Definition addCount (action : string) (r : t) : option (t * num) :=
  r ← trimCounts action r;
  let r :=
    if isRateLimited r then r
    else mk (obj_set r.(timestampsByAction) action (counts action r ++ [Num now]))
           r.(rateLimitedTimestamp) in
  Some (getPossibleRetryDelay action r).

End Operations.

(** ** Functional specification *)

(** The timestamps kept for an action whose counted checks are [zs]. *)
Definition kept (limits : Limits.t) (now : Z) (zs : list Z) : list Z :=
  last_n (Z.to_nat limits.(maxChecksPerUid)) (window now limits.(uidRateLimitIntervalMs) zs).

Lemma trimCounts_spec limits now action r zs :
  obj_get r.(timestampsByAction) action = Some (Num <$> zs) -> StronglySorted Z.le zs ->
  trimCounts limits now action r =
  Some (mk (obj_set r.(timestampsByAction) action (Num <$> kept limits now zs))
          r.(rateLimitedTimestamp)).
Proof.
  intros Hg HS. unfold trimCounts, read_items. rewrite Hg. cbn [_trim mbind option_bind].
  rewrite trim_hits_num by done. by rewrite Z.sub_add.
Qed.

(** What [addCount] does, by the reference window. *)
Definition addCount_spec (limits : Limits.t) (now : Z) (action : string) (zs : list Z) (r : t) : t * num :=
  let k := kept limits now zs in
  let full n := negb (Z.of_nat n <? limits.(maxChecksPerUid)) in
  if isRateLimited limits now r then
    let tba := obj_set r.(timestampsByAction) action (Num <$> k) in
    if full (length k)
    then (mk tba r.(rateLimitedTimestamp), getRetryAfter limits now r)
    else (mk tba None, Some 0)
  else
    let tba := obj_set r.(timestampsByAction) action (Num <$> (k ++ [now])) in
    if full (S (length k))
    then (mk tba (Some now), Some limits.(uidRateLimitBanDurationMs))
    else (mk tba None, Some 0).

Lemma obj_set_set {V} (o : jsobj V) k v w : obj_set (obj_set o k v) k w = obj_set o k w.
Proof.
  induction o as [|[k' v'] o IH]; simpl; [by rewrite String.eqb_refl|].
  destruct (String.eqb k' k) eqn:E; simpl; [by rewrite String.eqb_refl|by rewrite E, IH].
Qed.

Lemma counts_set action l o ts : counts action (mk (obj_set o action l) ts) = l.
Proof. unfold counts. cbn [timestampsByAction]. by rewrite obj_get_set_eq. Qed.

Lemma addCount_reference limits now action zs r :
  obj_get r.(timestampsByAction) action = Some (Num <$> zs) -> StronglySorted Z.le zs ->
  addCount limits now action r = Some (addCount_spec limits now action zs r).
Proof.
  intros Hg HS. unfold addCount. rewrite (trimCounts_spec _ _ _ _ zs) by done.
  cbn [mbind option_bind]. f_equal. unfold addCount_spec, getPossibleRetryDelay.
  set (k := kept limits now zs).
  change (isRateLimited limits now (mk (obj_set _ _ _) (rateLimitedTimestamp r)))
    with (isRateLimited limits now r).
  destruct (isRateLimited limits now r) eqn:E.
  - rewrite counts_set, length_fmap by done. destruct (_ <? _); [done|]. cbn [negb].
    change (isRateLimited limits now (mk (obj_set _ _ _) (rateLimitedTimestamp r)))
      with (isRateLimited limits now r). by rewrite E.
  - cbn [timestampsByAction rateLimitedTimestamp].
    rewrite !counts_set, obj_set_set, length_app, length_fmap, Nat.add_1_r by done.
    rewrite fmap_app. destruct (_ <? _); [done|]. cbn [negb].
    change (isRateLimited limits now (mk (obj_set _ _ _) (rateLimitedTimestamp r)))
      with (isRateLimited limits now r). rewrite E.
    unfold rateLimit, getRetryAfter, num_add. cbn [rateLimitedTimestamp timestampsByAction].
    f_equal. f_equal. lia.
Qed.

(** [addCount] is exact with respect to the sliding window: it keeps
    the last [maxChecksPerUid] checks of the window, counts the new check
    unless the user is throttled, and throttles (waiting the ban duration, in
    milliseconds) as soon as [maxChecksPerUid] checks lie in the window. *)
Theorem uid_addCount_exact limits now action zs r :
  obj_get r.(timestampsByAction) action = Some (Num <$> zs) -> StronglySorted Z.le zs ->
  addCount limits now action r = Some (addCount_spec limits now action zs r).
Proof. apply addCount_reference. Qed.

(** A throttled user is let through again before the ban is over: as
    soon as fewer than [maxChecksPerUid] counted checks of the action are left
    in the window, a check returns 0, is not counted, and clears the ban. *)
Theorem uid_ban_lifted_early limits now action zs r :
  obj_get r.(timestampsByAction) action = Some (Num <$> zs) -> StronglySorted Z.le zs ->
  isRateLimited limits now r = true ->
  Z.of_nat (length (window now limits.(uidRateLimitIntervalMs) zs)) < limits.(maxChecksPerUid) ->
  exists r', addCount limits now action r = Some (r', Some 0) /\
    r'.(rateLimitedTimestamp) = None /\
    counts action r' = Num <$> window now limits.(uidRateLimitIntervalMs) zs.
Proof.
  intros Hg HS Hl Hw. rewrite (addCount_reference _ _ _ zs) by done.
  unfold addCount_spec. rewrite Hl. unfold kept. rewrite last_n_all by lia.
  rewrite (proj2 (Z.ltb_lt _ _) Hw). cbn [negb].
  eexists. split_and!; [done|done|]. by apply counts_set.
Qed.

(** The wait returned for a user is never negative and never exceeds
    the ban duration, whatever the record holds. *)
Theorem uid_retry_bounds limits now action r r' w :
  0 <= limits.(uidRateLimitBanDurationMs) ->
  (forall ts, r.(rateLimitedTimestamp) = Some ts -> ts <= now) ->
  addCount limits now action r = Some (r', w) ->
  exists z, w = Some z /\ 0 <= z <= limits.(uidRateLimitBanDurationMs).
Proof.
  intros Hb Hts. unfold addCount, trimCounts.
  destruct (_trim _ _ _ _) as [l|]; [|discriminate]. cbn [mbind option_bind].
  intros [= H]. unfold getPossibleRetryDelay in H. revert H.
  destruct (_ <? _).
  { intros [= _ <-]. exists 0. split; [done|lia]. }
  unfold getRetryAfter, isRateLimited in *. cbn [rateLimitedTimestamp timestampsByAction] in *.
  destruct (rateLimitedTimestamp r) as [ts|] eqn:Ets; cbn [rateLimitedTimestamp rateLimit num_add].
  - specialize (Hts ts eq_refl).
    destruct (negb (ts =? 0) && (ts + uidRateLimitBanDurationMs limits >? now)) eqn:E;
      cbn [rateLimitedTimestamp num_add]; rewrite ?E; cbn [rateLimitedTimestamp num_add rateLimit];
      intros [= _ <-]; eexists; (split; [done|]); bool_lia.
  - intros [= _ <-]. eexists. split; [done|]. lia.
Qed.

Definition three_checks : t := mk [("signCert"%string, [Num 1000; Num 2000; Num 10000])] (Some 10000).

Definition small_limits : Limits.t :=
  Limits.mk 86400 86400000 None None 900 900000 3 2 3 3 5 10 900 900000 900 900000 5 ∅
    (Limits.mkUidRateLimit 9 900 3) 3 900000 9000 (Limits.mkSmsRateLimit 1800 3) 3 1800 1800000 5.

Lemma uid_addCount_exact_witness :
  addCount small_limits 10500 "signCert" three_checks =
  Some (addCount_spec small_limits 10500 "signCert" [1000; 2000; 10000] three_checks).
Proof. apply uid_addCount_exact; [reflexivity|repeat constructor; lia]. Defined.

Lemma uid_ban_lifted_early_witness :
  exists r', addCount small_limits 10500 "signCert" three_checks = Some (r', Some 0) /\
    r'.(rateLimitedTimestamp) = None /\
    counts "signCert" r' = Num <$> window 10500 9000 [1000; 2000; 10000].
Proof.
  apply (uid_ban_lifted_early small_limits 10500 "signCert" [1000; 2000; 10000]);
    [reflexivity|repeat constructor; lia|reflexivity|vm_compute; reflexivity].
Defined.

Lemma uid_retry_bounds_witness :
  exists z, Some 900000 = Some z /\ 0 <= z <= 900000.
Proof.
  apply (uid_retry_bounds small_limits 3000 "signCert"
    (mk [("signCert"%string, [Num 1000; Num 2000])] None)
    (mk [("signCert"%string, [Num 1000; Num 2000; Num 3000])] (Some 3000)) (Some 900000));
    [simpl; lia|discriminate|reflexivity].
Defined.
