(* ===== verification/IpRecord.v ===== *)
(** * Events tied to an IP address
    (packages/fxa-customs-server/lib/ip_record.js) *)

From S2P Require Import Prelude Window Store Actions Limits.

Definition ERRNO_THROTTLED : Z := 114.

Record t := mk {
  bk : option Z;      (* when the address was blocked *)
  su : option Z;      (* when it was suspected *)
  di : option Z;      (* when it was disabled *)
  lf : list Item;     (* failed logins: time, errno, e-mail *)
  vc : list Item;     (* code verifications: time, e-mail *)
  as_ : list Item;    (* account status checks: time, e-mail *)
  sms : list Item;    (* SMS sent *)
  aa : list Item;     (* account accesses *)
  rl : option Z }.    (* when it was rate-limited *)

Definition set_bk r v := mk v r.(su) r.(di) r.(lf) r.(vc) r.(as_) r.(sms) r.(aa) r.(rl).
Definition set_su r v := mk r.(bk) v r.(di) r.(lf) r.(vc) r.(as_) r.(sms) r.(aa) r.(rl).
Definition set_di r v := mk r.(bk) r.(su) v r.(lf) r.(vc) r.(as_) r.(sms) r.(aa) r.(rl).
Definition set_lf r v := mk r.(bk) r.(su) r.(di) v r.(vc) r.(as_) r.(sms) r.(aa) r.(rl).
Definition set_vc r v := mk r.(bk) r.(su) r.(di) r.(lf) v r.(as_) r.(sms) r.(aa) r.(rl).
Definition set_as r v := mk r.(bk) r.(su) r.(di) r.(lf) r.(vc) v r.(sms) r.(aa) r.(rl).
Definition set_sms r v := mk r.(bk) r.(su) r.(di) r.(lf) r.(vc) r.(as_) v r.(aa) r.(rl).
Definition set_aa r v := mk r.(bk) r.(su) r.(di) r.(lf) r.(vc) r.(as_) r.(sms) v r.(rl).
Definition set_rl r v := mk r.(bk) r.(su) r.(di) r.(lf) r.(vc) r.(as_) r.(sms) r.(aa) v.

Definition parse (object : option StoredObject) : t :=
  let o := or_empty object in
  mk o.(so_bk) o.(so_su) o.(so_di) (or_nil o.(so_lf)) (or_nil o.(so_vc)) (or_nil o.(so_as))
    (or_nil o.(so_sms)) (or_nil o.(so_aa)) o.(so_rl).

(** ** Trimming by unique e-mail

    The loop of [_trim]: [k = i + 1], [seen] the own keys of the [seen]
    object, [n] the number of e-mails first seen. *)
Fixpoint trim_scan (fresh : Item -> bool) (maxUnique : Z) (items : list Item)
    (k : nat) (seen : jsobj bool) (n : Z) : nat :=
  match k with
  | O => O
  | S i =>
      match items !! i with
      | Some item =>
          if fresh item && (n <=? maxUnique) then
            if js_in (item_u item) seen then trim_scan fresh maxUnique items i seen n
            else trim_scan fresh maxUnique items i (obj_set seen (item_u item) true) (n + 1)
          else k
      | None => k
      end
  end.

(** [item.t > now - interval] *)
Definition fresh_info (now interval : Z) (item : Item) : bool :=
  num_gtb (item_t item) (Some (now - interval)).

(** The counting loop of [isOverVerifyCodes] and [isOverAccountStatusCheck]. *)
Fixpoint count_unique (items : list Item) (seen : jsobj bool) (count : Z) : Z :=
  match items with
  | [] => count
  | info :: items' =>
      if js_in (item_u info) seen then count_unique items' seen count
      else count_unique items' (obj_set seen (item_u info) true) (count + 1)
  end.

Section Operations.
Context (limits : Limits.t) (now : Z).

Definition getMinLifetimeMS : Z :=
  Z.max limits.(blockIntervalMs)
    (Z.max limits.(ipRateLimitIntervalMs) limits.(ipRateLimitBanDurationMs)).

Definition _trim (items : list Item) (maxUnique : Z) : list Item :=
  match items with
  | [] => items
  | _ => drop (trim_scan (fresh_info now limits.(ipRateLimitIntervalMs)) maxUnique items
                (length items) [] 0) items
  end.

Definition trimBadLogins (r : t) : t := set_lf r (_trim r.(lf) limits.(maxBadLoginsPerIp)).

(** [limits.badLoginErrnoWeights[errno] || 1] *)
Definition errno_weight (e : option Z) : Z :=
  num_or (e ≫= fun e => limits.(badLoginErrnoWeights) !! e) 1.

(** [weights[user] = Math.max(weight, weights[user] || 0)]: an inherited
    property is a function or object, hence [NaN] for [Math.max]; assigning a
    number to [__proto__] is ignored. *)
Definition weigh (weights : jsobj num) (info : Item) : jsobj num :=
  let user := item_u info in
  let prev := match obj_get weights user with
              | Some v => Some (num_or v 0)
              | None => if is_proto_name user then None else Some 0
              end in
  if String.eqb user "__proto__" then weights
  else obj_set weights user (num_max (Some (errno_weight (item_e info))) prev).

(** [Object.keys(weights).forEach(...)]: the sum of the weights. *)
Definition total_weight (items : list Item) : num :=
  foldr (fun kv acc => num_add kv.2 acc) (Some 0) (fold_left weigh items []).

Definition isOverBadLogins (r : t) : t * bool :=
  let r := trimBadLogins r in
  (r, num_gtb (total_weight r.(lf)) (Some limits.(maxBadLoginsPerIp))).

(** [info.email || ''] and [info.errno || 999] *)
Definition addBadLogin (email : option string) (errno : option Z) (r : t) : t :=
  let r := trimBadLogins r in
  set_lf r (r.(lf) ++ [Info now (Some (num_or errno 999)) (default "" email)]).

Definition trimVerifyCodes (r : t) : t := set_vc r (_trim r.(vc) limits.(maxVerifyCodes)).

Definition isOverVerifyCodes (r : t) : t * bool :=
  let r := trimVerifyCodes r in
  (r, count_unique r.(vc) [] 0 >? limits.(maxVerifyCodes)).

Definition addVerifyCode (email : option string) (r : t) : t :=
  let r := trimVerifyCodes r in
  set_vc r (r.(vc) ++ [Info now None (default "" email)]).

Definition trimAccountStatus (r : t) : t := set_as r (_trim r.(as_) limits.(maxAccountStatusCheck)).

Definition isOverAccountStatusCheck (r : t) : t * bool :=
  let r := trimAccountStatus r in
  (r, count_unique r.(as_) [] 0 >? limits.(maxAccountStatusCheck)).

Definition addAccountStatusCheck (email : option string) (r : t) : t :=
  let r := trimAccountStatus r in
  set_as r (r.(as_) ++ [Info now None (default "" email)]).

Definition trimSmsRequests (r : t) : t :=
  set_sms r (trim_hits now limits.(ipRateLimitIntervalMs) limits.(maxSms) r.(sms)).

Definition isOverSmsLimit (r : t) : t * bool :=
  let r := trimSmsRequests r in (r, Z.of_nat (length r.(sms)) >? limits.(maxSms)).

Definition addSmsRequest (r : t) : t := set_sms r (r.(sms) ++ [Num now]).

Definition addAccountAccess (r : t) : t := set_aa r (r.(aa) ++ [Num now]).

Definition isOverAccountAccessLimit (r : t) : bool :=
  Z.of_nat (length r.(aa)) >? limits.(maxAccountAccess).

Definition isBlocked (r : t) : bool := active r.(bk) limits.(blockIntervalMs) now.

Definition isSuspected (r : t) : bool := active_opt r.(su) limits.(suspectIntervalMs) now.

Definition isDisabled (r : t) : bool := active_opt r.(di) limits.(disableIntervalMs) now.

Definition isRateLimited (r : t) : bool := active r.(rl) limits.(ipRateLimitBanDurationMs) now.

Definition shouldBlock (r : t) : bool := isBlocked r || isDisabled r || isRateLimited r.

Definition block (r : t) : t := set_bk r (Some now).

Definition suspect (r : t) : t := set_su r (Some now).

Definition disable (r : t) : t := set_di r (Some now).

Definition rateLimit (r : t) : t := set_aa (set_sms (set_as (set_rl r (Some now)) []) []) [].

Definition retryAfter (r : t) : Z :=
  let rateLimitAfter := ceil1000 (or0 r.(rl) + limits.(ipRateLimitBanDurationMs) - now) in
  let banAfter := ceil1000 (or0 r.(bk) + limits.(blockIntervalMs) - now) in
  Z.max 0 (Z.max rateLimitAfter banAfter).

(** [if (over) this.rateLimit()] *)
Definition limit_if (x : t * bool) : t := if x.2 then rateLimit x.1 else x.1.

(** The blocks of [update], one per class of actions. *)
Definition on_account_status (action : string) (email : option string) (r : t) : t :=
  if isAccountStatusAction action
  then limit_if (isOverAccountStatusCheck (addAccountStatusCheck email r)) else r.

Definition on_code_verifying (action : string) (email : option string) (r : t) : t :=
  if isCodeVerifyingAction action
  then limit_if (isOverVerifyCodes (addVerifyCode email r)) else r.

(** [this.isRateLimited() || this.isOverBadLogins()] trims only when the
    first operand is false. *)
Definition on_password_checking (action : string) (email : option string) (r : t) : t :=
  if isPasswordCheckingAction action then
    let '(r, b) := if isRateLimited r then (r, true) else isOverBadLogins r in
    let r := if b then addBadLogin email (Some ERRNO_THROTTLED) r else r in
    limit_if (isOverBadLogins r)
  else r.

Definition on_sms_sending (action : string) (r : t) : t :=
  if isSmsSendingAction action then limit_if (isOverSmsLimit (addSmsRequest r)) else r.

Definition update (action : string) (email : option string) (r : t) : t * Z :=
  if isBlocked r then (r, retryAfter r)
  else
    let r := on_account_status action email r in
    let r := on_code_verifying action email r in
    let r := on_password_checking action email r in
    let r := on_sms_sending action r in
    if isAccountAccessAction action then
      let r := addAccountAccess r in
      if isOverAccountAccessLimit r
      then let r := rateLimit r in (r, retryAfter r)
      else (r, 0)
    else (r, retryAfter r).

End Operations.

(** ** Reference semantics of trimming *)

(** Chronological items carrying a time and an e-mail. *)
Definition item_before (a b : Item) : Prop :=
  match item_t a, item_t b with Some x, Some y => x <= y | _, _ => False end.

Definition items_wf (items : list Item) : Prop := StronglySorted item_before items.

(** No e-mail is the name of a property of [Object.prototype]. *)
Definition no_proto (items : list Item) : Prop :=
  Forall (fun x => is_proto_name (item_u x) = false) items.

Definition window_items (now interval : Z) (items : list Item) : list Item :=
  filterb (fresh_info now interval) items.

Definition users (items : list Item) : gset string := list_to_set (item_u <$> items).

(** The loop on the reversed list: what is kept, newest first. *)
Fixpoint keep (fresh : Item -> bool) (maxUnique : Z) (seen : jsobj bool) (n : Z)
    (ys : list Item) : list Item :=
  match ys with
  | [] => []
  | y :: ys' =>
      if fresh y && (n <=? maxUnique) then
        y :: (if js_in (item_u y) seen then keep fresh maxUnique seen n ys'
              else keep fresh maxUnique (obj_set seen (item_u y) true) (n + 1) ys')
      else []
  end.

Lemma trim_scan_spec fresh mu xs l tl seen n :
  xs = l ++ tl ->
  drop (trim_scan fresh mu xs (length l) seen n) xs = reverse (keep fresh mu seen n (reverse l)) ++ tl.
Proof.
  revert xs tl seen n. induction l as [|x l IH] using rev_ind; intros xs tl seen n ->; [done|].
  rewrite length_app, Nat.add_1_r. cbn [trim_scan].
  rewrite <- app_assoc. cbn [app].
  rewrite list_lookup_middle by done. rewrite reverse_snoc. cbn [keep].
  destruct (fresh x && (n <=? mu)); [|by rewrite drop_snoc_length].
  destruct (js_in (item_u x) seen); rewrite (IH _ (x :: tl)) by done;
    by rewrite reverse_cons, <- app_assoc.
Qed.

Lemma _trim_keep limits now items mu :
  _trim limits now items mu =
  reverse (keep (fresh_info now limits.(ipRateLimitIntervalMs)) mu [] 0 (reverse items)).
Proof.
  destruct items as [|x xs]; [done|]. unfold _trim.
  rewrite (trim_scan_spec _ _ _ (x :: xs) []) by (by rewrite app_nil_r). by rewrite app_nil_r.
Qed.

Definition keys_of {V} (o : jsobj V) : gset string := list_to_set o.*1.

Lemma obj_has_keys {V} (o : jsobj V) k : obj_has o k = bool_decide (k ∈ keys_of o).
Proof.
  unfold obj_has, keys_of. induction o as [|[k' v] o IH]; [done|]. cbn [obj_get].
  rewrite fmap_cons, list_to_set_cons. destruct (String.eqb_spec k' k) as [->|Hne].
  - by rewrite bool_decide_true by set_solver.
  - rewrite IH. apply bool_decide_ext. set_solver.
Qed.

Lemma keys_of_set {V} (o : jsobj V) k v : keys_of (obj_set o k v) = {[k]} ∪ keys_of o.
Proof.
  apply set_eq. intros x.
  assert (forall o : jsobj V, x ∈ keys_of o <-> obj_has o x = true) as H.
  { intros o'. by rewrite obj_has_keys, bool_decide_eq_true. }
  rewrite elem_of_union, elem_of_singleton, !H. unfold obj_has. rewrite obj_get_set.
  destruct (String.eqb_spec k x) as [->|]; [by split; auto|].
  split; [by auto|]. intros [->|?]; [congruence|done].
Qed.

Lemma js_in_keys {V} (o : jsobj V) k :
  is_proto_name k = false -> js_in k o = bool_decide (k ∈ keys_of o).
Proof. intros H. unfold js_in. by rewrite H, orb_false_r, obj_has_keys. Qed.

Lemma size_add (s : gset string) x : x ∉ s -> Z.of_nat (size ({[x]} ∪ s)) = Z.of_nat (size s) + 1.
Proof. intros. rewrite size_union, size_singleton by set_solver. lia. Qed.

(** What is kept is a prefix of the fresh run, and either the whole run or
    items of more than [maxUnique] e-mails. *)
Lemma keep_spec fresh mu seen n ys :
  no_proto ys -> n = Z.of_nat (size (keys_of seen)) ->
  exists rest, take_while fresh ys = keep fresh mu seen n ys ++ rest /\
    (rest = [] \/ Z.of_nat (size (keys_of seen ∪ users (keep fresh mu seen n ys))) > mu).
Proof.
  unfold users. revert seen n. induction ys as [|y ys IH]; intros seen n Hp Hn; [by exists []; auto|].
  inversion Hp as [|? ? Hy Hp']; subst. cbn [take_while keep].
  destruct (fresh y); cbn [andb]; [|by exists []; auto].
  destruct (Z.leb_spec (Z.of_nat (size (keys_of seen))) mu) as [Hle|Hgt].
  - rewrite js_in_keys by done. case_bool_decide as Hin.
    + destruct (IH seen _ Hp' eq_refl) as (rest & -> & Hr). exists rest. split; [done|].
      destruct Hr as [?|Hr]; [by left|right].
      rewrite fmap_cons, list_to_set_cons, (assoc_L _), (comm_L _ (keys_of seen)), <- (assoc_L _).
      replace ({[item_u y]} ∪ (keys_of seen ∪ _)) with
        (keys_of seen ∪ list_to_set (item_u <$> keep fresh mu seen (Z.of_nat (size (keys_of seen))) ys)
         : gset string); [done|]. apply set_eq. set_solver.
    + destruct (IH (obj_set seen (item_u y) true) (Z.of_nat (size (keys_of seen)) + 1) Hp')
        as (rest & -> & Hr).
      { by rewrite keys_of_set, size_add. }
      exists rest. split; [done|]. destruct Hr as [?|Hr]; [by left|right].
      rewrite keys_of_set in Hr. rewrite fmap_cons, list_to_set_cons.
      by rewrite (assoc_L _), (comm_L _ (keys_of seen)).
  - exists (y :: take_while fresh ys). split; [done|]. right.
    rewrite fmap_nil, list_to_set_nil, union_empty_r_L. lia.
Qed.

Lemma no_proto_reverse items : no_proto items -> no_proto (reverse items).
Proof. unfold no_proto. by rewrite Forall_reverse. Qed.

Lemma items_wf_fresh now interval items :
  items_wf items ->
  StronglySorted (fun a b => fresh_info now interval a = true -> fresh_info now interval b = true) items.
Proof.
  induction 1 as [|x l HS IH HF]; constructor; [done|].
  eapply Forall_impl; [exact HF|]. intros y. unfold item_before, fresh_info.
  destruct (item_t x), (item_t y); simpl; try done. lia.
Qed.

Lemma _trim_window limits now items mu :
  items_wf items -> no_proto items ->
  exists old, window_items now limits.(ipRateLimitIntervalMs) items = old ++ _trim limits now items mu /\
    (old = [] \/ Z.of_nat (size (users (_trim limits now items mu))) > mu).
Proof.
  intros Hw Hp. rewrite _trim_keep. set (fresh := fresh_info _ _).
  destruct (keep_spec fresh mu [] 0 (reverse items) (no_proto_reverse _ Hp) eq_refl)
    as (rest & E & Hr).
  exists (reverse rest). split.
  - rewrite <- reverse_app, <- E. symmetry. apply take_while_rev_filterb.
    by apply items_wf_fresh.
  - destruct Hr as [->|Hr]; [by left|right].
    unfold keys_of in Hr. rewrite fmap_nil, list_to_set_nil, union_empty_l_L in Hr.
    unfold users in *. by rewrite fmap_reverse, (list_to_set_perm_L _ _ (reverse_Permutation _)).
Qed.

Lemma count_unique_spec items seen c :
  no_proto items ->
  count_unique items seen c =
  c + Z.of_nat (size (keys_of seen ∪ users items)) - Z.of_nat (size (keys_of seen)).
Proof.
  unfold users. revert seen c. induction items as [|x items IH]; intros seen c Hp.
  - cbn [count_unique]. rewrite fmap_nil, list_to_set_nil, union_empty_r_L. lia.
  - inversion Hp as [|? ? Hx Hp']; subst. cbn [count_unique].
    rewrite js_in_keys by done. rewrite fmap_cons, list_to_set_cons.
    case_bool_decide as Hin; rewrite IH by done.
    + replace (keys_of seen ∪ ({[item_u x]} ∪ list_to_set (item_u <$> items)))
        with (keys_of seen ∪ list_to_set (item_u <$> items) : gset string); [done|].
      apply set_eq. set_solver.
    + rewrite keys_of_set, size_add by done.
      replace (keys_of seen ∪ ({[item_u x]} ∪ list_to_set (item_u <$> items)))
        with ({[item_u x]} ∪ keys_of seen ∪ list_to_set (item_u <$> items) : gset string); [lia|].
      apply set_eq. set_solver.
Qed.

Lemma users_app l k : users (l ++ k) = users l ∪ users k.
Proof. unfold users. by rewrite fmap_app, list_to_set_app_L. Qed.

Lemma no_proto_suffix old items now interval k :
  no_proto items -> window_items now interval items = old ++ k -> no_proto k.
Proof.
  unfold no_proto. intros Hp E. rewrite Forall_forall in *. intros x Hx. apply Hp.
  assert (x ∈ window_items now interval items) as [? _]%elem_of_filterb by (rewrite E; set_solver).
  done.
Qed.

(** Trimming does not change how the number of e-mails compares with the
    limit it was trimmed for. *)
Lemma unique_over limits now items mu :
  items_wf items -> no_proto items ->
  (count_unique (_trim limits now items mu) [] 0 >? mu) =
  (Z.of_nat (size (users (window_items now limits.(ipRateLimitIntervalMs) items))) >? mu).
Proof.
  intros Hw Hp. destruct (_trim_window limits now items mu Hw Hp) as (old & E & Hr).
  rewrite count_unique_spec by (eapply no_proto_suffix; eauto).
  unfold keys_of. rewrite fmap_nil, list_to_set_nil, union_empty_l_L, size_empty, E, users_app.
  destruct Hr as [->|Hr].
  - unfold users at 2. rewrite fmap_nil, list_to_set_nil, union_empty_l_L. f_equal. lia.
  - assert (size (users (_trim limits now items mu)) <=
      size (users old ∪ users (_trim limits now items mu)))%nat.
    { apply subseteq_size. set_solver. }
    apply eq_true_iff_eq. rewrite !Z.gtb_lt. lia.
Qed.

(** An IP address is throttled for code verifications, and for account
    status checks, exactly when it touched more than the allowed number of
    distinct e-mails in the last [ipRateLimitIntervalMs], although the stored
    arrays are trimmed to the e-mails needed for that decision. *)
Theorem ip_unique_emails_exact limits now r :
  items_wf r.(vc) -> no_proto r.(vc) -> items_wf r.(as_) -> no_proto r.(as_) ->
  (isOverVerifyCodes limits now r).2 =
    (Z.of_nat (size (users (window_items now limits.(ipRateLimitIntervalMs) r.(vc))))
      >? limits.(maxVerifyCodes)) /\
  (isOverAccountStatusCheck limits now r).2 =
    (Z.of_nat (size (users (window_items now limits.(ipRateLimitIntervalMs) r.(as_))))
      >? limits.(maxAccountStatusCheck)).
Proof. intros. split; by apply unique_over. Qed.

(** ** The weighted score of failed logins *)

Section Score.
Context (limits : Limits.t).

(** The weight of the worst failure of [user]. *)
Fixpoint worst (user : string) (items : list Item) : Z :=
  match items with
  | [] => 0
  | x :: items' =>
      if String.eqb (item_u x) user
      then Z.max (errno_weight limits (item_e x)) (worst user items')
      else worst user items'
  end.

Fixpoint sum_by (f : string -> Z) (us : list string) : Z :=
  match us with [] => 0 | u :: us' => f u + sum_by f us' end.

(** The sum over the distinct e-mails of their worst failure. *)
Definition score (items : list Item) : Z :=
  sum_by (fun u => worst u items) (elements (users items)).

Lemma sum_by_perm f us us' : us ≡ₚ us' -> sum_by f us = sum_by f us'.
Proof. induction 1; simpl; lia. Qed.

Lemma sum_by_ext f g us : (forall u, u ∈ us -> f u = g u) -> sum_by f us = sum_by g us.
Proof.
  induction us as [|u us IH]; simpl; intros H; [done|].
  rewrite (H u) by set_solver. rewrite IH by set_solver. done.
Qed.

Lemma sum_by_le f g us : (forall u, u ∈ us -> f u <= g u) -> sum_by f us <= sum_by g us.
Proof.
  induction us as [|u us IH]; simpl; intros H; [lia|].
  pose proof (H u ltac:(set_solver)). specialize (IH ltac:(set_solver)). lia.
Qed.

Lemma sum_by_submseteq f us us' :
  (forall u, 0 <= f u) -> us ⊆+ us' -> sum_by f us <= sum_by f us'.
Proof.
  intros Hf. induction 1 as [| | |x l k H IH|]; simpl; try lia. specialize (Hf x). lia.
Qed.

Lemma sum_by_const us : sum_by (fun _ => 1) us = Z.of_nat (length us).
Proof. induction us; simpl length; simpl sum_by; lia. Qed.

Lemma worst_nonneg u items : 0 <= worst u items.
Proof. induction items as [|x items IH]; simpl; [lia|]. destruct (String.eqb _ _); lia. Qed.

Lemma worst_app u l k : worst u (l ++ k) = Z.max (worst u l) (worst u k).
Proof.
  induction l as [|x l IH]; simpl; [pose proof (worst_nonneg u k); lia|].
  destruct (String.eqb _ _); lia.
Qed.

Lemma score_app_le l k : score k <= score (l ++ k).
Proof.
  unfold score. etransitivity; [apply (sum_by_le _ (fun u => worst u (l ++ k)))|].
  - intros u _. rewrite worst_app. lia.
  - apply sum_by_submseteq; [intros; apply worst_nonneg|].
    apply NoDup_submseteq; [apply NoDup_elements|].
    intros u. rewrite !elem_of_elements, users_app. set_solver.
Qed.

(** Every configured weight counts at least one. *)
Definition weights_positive : Prop := forall e w, limits.(badLoginErrnoWeights) !! e = Some w -> 0 <= w.

Lemma worst_pos u items : weights_positive -> u ∈ users items -> 1 <= worst u items.
Proof.
  intros Hw. unfold users. induction items as [|x items IH]; [set_solver|].
  rewrite fmap_cons, list_to_set_cons. cbn [worst]. intros Hu.
  assert (1 <= errno_weight limits (item_e x)) as Hx.
  { unfold errno_weight, num_or. destruct (item_e x) as [e|]; simpl; [|lia].
    destruct (badLoginErrnoWeights limits !! e) as [w|] eqn:E; [|lia].
    specialize (Hw e w E). destruct (Z.eqb_spec w 0); lia. }
  destruct (String.eqb_spec (item_u x) u) as [?|Hne]; [lia|]. apply IH. set_solver.
Qed.

Lemma score_users items : weights_positive -> Z.of_nat (size (users items)) <= score items.
Proof.
  intros Hw. unfold score. change (size (users items)) with (length (elements (users items))).
  rewrite <- sum_by_const.
  apply sum_by_le. intros u Hu. apply worst_pos; [done|]. by apply elem_of_elements.
Qed.

End Score.

(** The weights object after the loop: one own property per e-mail, holding
    its worst failure. *)
Definition weights_ok (limits : Limits.t) (items : list Item) (o : jsobj num) : Prop :=
  NoDup o.*1 /\ keys_of o = users items /\
  forall u v, obj_get o u = Some v -> v = Some (worst limits u items).

Lemma weigh_ok limits items x o :
  is_proto_name (item_u x) = false -> weights_ok limits items o ->
  weights_ok limits (items ++ [x]) (weigh limits o x).
Proof.
  intros Hp (Hn & Hk & Hv). unfold weigh.
  assert (String.eqb (item_u x) "__proto__" = false) as ->.
  { apply String.eqb_neq. intros E. by rewrite E in Hp. }
  rewrite Hp. split_and!.
  - by apply obj_set_keys_nodup.
  - rewrite keys_of_set, Hk, users_app. unfold users at 3. simpl. set_solver.
  - intros u v. rewrite obj_get_set, worst_app. cbn [worst].
    destruct (String.eqb_spec (item_u x) u) as [<-|Hne].
    + intros [= <-]. pose proof (worst_nonneg limits (item_u x) items).
      destruct (obj_get o (item_u x)) as [w|] eqn:E.
      * rewrite (Hv _ _ E). simpl. f_equal. unfold num_or. destruct (Z.eqb_spec (worst limits (item_u x) items) 0); lia.
      * assert (worst limits (item_u x) items = 0) as ->; [|simpl; f_equal; lia].
        assert (item_u x ∉ users items) as Hu.
        { rewrite <- Hk. intros Hin. assert (obj_has o (item_u x) = true) as Hh
            by (by rewrite obj_has_keys, bool_decide_true). unfold obj_has in Hh. by rewrite E in Hh. }
        clear -Hu. unfold users in Hu. induction items as [|y items IH]; [done|].
        rewrite fmap_cons, list_to_set_cons in Hu. cbn [worst].
        rewrite (proj2 (String.eqb_neq (item_u y) (item_u x))) by set_solver. apply IH. set_solver.
    + intros E. rewrite (Hv _ _ E). f_equal. pose proof (worst_nonneg limits u items). lia.
Qed.

Lemma weigh_fold limits pre items o :
  no_proto items -> weights_ok limits pre o ->
  weights_ok limits (pre ++ items) (fold_left (weigh limits) items o).
Proof.
  revert pre o. induction items as [|x items IH]; intros pre o Hp Ho; [by rewrite app_nil_r|].
  inversion Hp; subst. cbn [fold_left]. rewrite cons_middle, app_assoc. apply IH; [done|].
  by apply weigh_ok.
Qed.

(** The loops of [isOverBadLogins] compute the score. *)
Lemma total_weight_score limits items :
  no_proto items -> total_weight limits items = Some (score limits items).
Proof.
  intros Hp. unfold total_weight.
  assert (weights_ok limits [] []) as H0.
  { split_and!; [constructor|done|done]. }
  pose proof (weigh_fold limits [] items [] Hp H0) as (Hn & Hk & Hv). cbn [app] in *.
  set (o := fold_left _ _ _) in *. clearbody o.
  assert (foldr (fun kv acc => num_add kv.2 acc) (Some 0) o =
          Some (sum_by (fun u => worst limits u items) o.*1)) as ->.
  { clear Hk. assert (forall k v, (k, v) ∈ o -> v = Some (worst limits k items)) as Hv'.
    { intros k v Hin. apply (Hv k). clear Hv. revert Hn Hin.
      induction o as [|[k' v'] o IH]; intros Hn Hin; [set_solver|].
      rewrite fmap_cons in Hn. inversion Hn as [|? ? Hni Hn']; subst. cbn [obj_get fst] in *.
      apply elem_of_cons in Hin as [[= -> ->]|Hin]; [by rewrite String.eqb_refl|].
      rewrite (proj2 (String.eqb_neq k' k)); [auto|]. intros ->. apply Hni.
      apply list_elem_of_fmap. by exists (k, v). }
    clear Hv Hn. induction o as [|[k v] o IH]; [done|]. cbn [foldr]. rewrite IH by set_solver.
    rewrite fmap_cons. cbn [snd fst sum_by]. rewrite (Hv' k v) by set_solver. done. }
  f_equal. unfold score. apply sum_by_perm, NoDup_Permutation; [done|apply NoDup_elements|].
  intros u. rewrite elem_of_elements, <- Hk. unfold keys_of. by rewrite elem_of_list_to_set.
Qed.

(** The weighted bad-login test is exact: an IP address is over its
    limit exactly when the worst failures of the distinct e-mails it tried in
    the last [ipRateLimitIntervalMs] add up to more than [maxBadLoginsPerIp],
    although the array is trimmed by unique e-mails. *)
Theorem ip_bad_logins_exact limits now r :
  weights_positive limits -> items_wf r.(lf) -> no_proto r.(lf) ->
  (isOverBadLogins limits now r).2 =
  (score limits (window_items now limits.(ipRateLimitIntervalMs) r.(lf)) >? limits.(maxBadLoginsPerIp)).
Proof.
  intros Hwp Hw Hp. unfold isOverBadLogins. cbn [snd lf trimBadLogins set_lf].
  destruct (_trim_window limits now r.(lf) limits.(maxBadLoginsPerIp) Hw Hp) as (old & E & Hr).
  rewrite total_weight_score by (eapply no_proto_suffix; eauto). rewrite E. unfold num_gtb, num_ltb.
  destruct Hr as [->|Hr]; [by rewrite Z.gtb_ltb|].
  pose proof (score_users limits (_trim limits now (lf r) (maxBadLoginsPerIp limits)) Hwp).
  pose proof (score_app_le limits old (_trim limits now (lf r) (maxBadLoginsPerIp limits))).
  rewrite Z.gtb_ltb. apply eq_true_iff_eq. rewrite !Z.ltb_lt. lia.
Qed.

(** ** Bans *)

(** [retryAfter] of an IP record is exact: after that many seconds it is
    neither rate-limited nor blocked, and not earlier. *)
Theorem ip_retryAfter_exact limits now r :
  limits.(ipRateLimitBanDurationMs) <= now -> limits.(blockIntervalMs) <= now ->
  let w := retryAfter limits now r in
  isRateLimited limits (now + 1000 * w) r = false /\
  isBlocked limits (now + 1000 * w) r = false /\
  (0 < w -> isRateLimited limits (now + 1000 * (w - 1)) r = true \/
            isBlocked limits (now + 1000 * (w - 1)) r = true).
Proof. intros Hr Hb w. by apply two_flag_retry. Qed.

Lemma ip_retry_pos limits now r :
  isRateLimited limits now r || isBlocked limits now r = true -> 0 < retryAfter limits now r.
Proof.
  unfold isRateLimited, isBlocked, retryAfter. cbv zeta.
  intros [H|H]%orb_true_iff; apply active_retry in H; lia.
Qed.

(** The rate limit of a record is kept or renewed. *)
Definition ban_kept (now : Z) (r r' : t) : Prop := r'.(rl) = r.(rl) \/ r'.(rl) = Some now.

Lemma ban_kept_trans now r1 r2 r3 : ban_kept now r1 r2 -> ban_kept now r2 r3 -> ban_kept now r1 r3.
Proof. unfold ban_kept. intros [E1|E1] [E2|E2]; rewrite ?E2, ?E1; auto. Qed.

Lemma limit_if_ban now r x : x.1.(rl) = r.(rl) -> ban_kept now r (limit_if now x).
Proof. unfold limit_if, ban_kept. intros H. destruct x.2; [by right|by left]. Qed.

Lemma on_password_ban limits now action email r :
  ban_kept now r (on_password_checking limits now action email r).
Proof.
  unfold on_password_checking. destruct (isPasswordCheckingAction action); [|by left].
  destruct (isRateLimited limits now r); [by apply limit_if_ban|].
  destruct (isOverBadLogins limits now r) as [r1 b] eqn:E.
  assert (rl r1 = rl r) as H by (by injection E as <- _).
  destruct b; by apply limit_if_ban.
Qed.

Lemma on_status_ban limits now action email r :
  ban_kept now r (on_account_status limits now action email r).
Proof. unfold on_account_status. destruct (isAccountStatusAction action); [by apply limit_if_ban|by left]. Qed.

Lemma on_code_ban limits now action email r :
  ban_kept now r (on_code_verifying limits now action email r).
Proof. unfold on_code_verifying. destruct (isCodeVerifyingAction action); [by apply limit_if_ban|by left]. Qed.

Lemma on_sms_ban limits now action r : ban_kept now r (on_sms_sending limits now action r).
Proof. unfold on_sms_sending. destruct (isSmsSendingAction action); [by apply limit_if_ban|by left]. Qed.

(** The part of [update] before the account access block. *)
Definition counted (limits : Limits.t) (now : Z) (action : string) (email : option string) (r : t) : t :=
  on_sms_sending limits now action (on_password_checking limits now action email
    (on_code_verifying limits now action email (on_account_status limits now action email r))).

Lemma counted_ban limits now action email r : ban_kept now r (counted limits now action email r).
Proof.
  unfold counted.
  eapply ban_kept_trans; [|apply on_sms_ban]. eapply ban_kept_trans; [|apply on_password_ban].
  eapply ban_kept_trans; [|apply on_code_ban]. apply on_status_ban.
Qed.

Lemma ban_kept_active limits now r r' :
  0 < limits.(ipRateLimitBanDurationMs) -> isRateLimited limits now r = true -> ban_kept now r r' ->
  0 < retryAfter limits now r'.
Proof.
  intros Hb Hl [E|E]; unfold retryAfter; cbv zeta; rewrite E.
  - apply active_retry in Hl. lia.
  - pose proof (throttle_retry now _ Hb). lia.
Qed.

(** A blocked or rate-limited IP address is refused whatever the action
    and the e-mail, and no attempt shortens its rate limit: only account
    access actions, which the code exempts, can pass. *)
Theorem ip_ban_enforced limits now action email r :
  0 < limits.(ipRateLimitBanDurationMs) ->
  isBlocked limits now r = true \/
    isRateLimited limits now r = true /\ isAccountAccessAction action = false ->
  0 < (update limits now action email r).2 /\ ban_kept now r (update limits now action email r).1.
Proof.
  intros Hb H. unfold update. fold (counted limits now action email r).
  destruct (isBlocked limits now r) eqn:Eb.
  - split; [|by left]. apply ip_retry_pos. rewrite Eb. apply orb_true_r.
  - destruct H as [H|[H Ha]]; [done|]. rewrite Ha. cbn [fst snd].
    pose proof (counted_ban limits now action email r). split; [|done].
    by apply (ban_kept_active limits now r).
Qed.

(** ** Well-formedness *)

Definition items_upto (now : Z) (items : list Item) : Prop :=
  Forall (fun x => exists z, item_t x = Some z /\ z <= now) items.

Definition items_chron (now : Z) (items : list Item) : Prop := items_wf items /\ items_upto now items.

Lemma items_chron_nil now : items_chron now [].
Proof. by repeat constructor. Qed.

Lemma items_chron_mono t0 now items : items_chron t0 items -> t0 <= now -> items_chron now items.
Proof.
  intros [HS HF] Ht. split; [done|]. eapply Forall_impl; [exact HF|].
  intros x (z & E & Hz). exists z. split; [done|lia].
Qed.

Lemma items_chron_push now e u items :
  items_chron now items -> items_chron now (items ++ [Info now e u]).
Proof.
  intros [HS HF]. split.
  - apply StronglySorted_app_one; [done|]. intros y Hy. unfold items_upto in HF.
    rewrite Forall_forall in HF. destruct (HF y Hy) as (z & E & Hz). unfold item_before. by rewrite E.
  - apply Forall_app. split; [done|]. constructor; [|done]. exists now. split; [done|lia].
Qed.

Lemma items_chron_drop now n items : items_chron now items -> items_chron now (drop n items).
Proof. intros [HS HF]. split; [by apply StronglySorted_drop|by apply Forall_drop]. Qed.

Lemma items_chron_trim limits now t0 items mu :
  items_chron t0 items -> items_chron t0 (_trim limits now items mu).
Proof. intros H. destruct items; [done|]. by apply items_chron_drop. Qed.

#[export] Hint Resolve items_chron_nil items_chron_push items_chron_trim : customs.

Record wf (now : Z) (r : t) : Prop := {
  wf_lf : items_chron now r.(lf);
  wf_vc : items_chron now r.(vc);
  wf_as : items_chron now r.(as_);
  wf_sms : hits_wf now r.(sms);
  wf_aa : hits_wf now r.(aa) }.

#[export] Hint Resolve wf_lf wf_vc wf_as wf_sms wf_aa : customs.

Lemma ip_wf_mono t0 now r : wf t0 r -> t0 <= now -> wf now r.
Proof. intros [] ?. constructor; eauto using items_chron_mono, hits_wf_mono. Qed.

Lemma wf_limit_if now x : wf now x.1 -> wf now (limit_if now x).
Proof.
  intros []. unfold limit_if. destruct x.2; constructor; simpl; auto with customs.
Qed.

Lemma wf_addBadLogin limits now email errno r : wf now r -> wf now (addBadLogin limits now email errno r).
Proof. intros []. constructor; simpl; auto with customs. Qed.

Lemma wf_isOverBadLogins limits now r : wf now r -> wf now (isOverBadLogins limits now r).1.
Proof. intros []. constructor; simpl; auto with customs. Qed.

Lemma wf_password limits now action email r :
  wf now r -> wf now (on_password_checking limits now action email r).
Proof.
  intros Hr. unfold on_password_checking. destruct (isPasswordCheckingAction action); [|done].
  assert (wf now (if isRateLimited limits now r then (r, true) else isOverBadLogins limits now r).1) as H1
    by (destruct (isRateLimited limits now r); auto using wf_isOverBadLogins).
  destruct (if isRateLimited limits now r then (r, true) else isOverBadLogins limits now r) as [r1 b].
  apply wf_limit_if, wf_isOverBadLogins. destruct b; auto using wf_addBadLogin.
Qed.

Lemma wf_counted limits now action email r : wf now r -> wf now (counted limits now action email r).
Proof.
  intros Hr. unfold counted.
  assert (wf now (on_account_status limits now action email r)) as H1.
  { unfold on_account_status. destruct (isAccountStatusAction action); [|done].
    apply wf_limit_if. destruct Hr. constructor; simpl; auto with customs. }
  assert (wf now (on_code_verifying limits now action email (on_account_status limits now action email r))) as H2.
  { unfold on_code_verifying. destruct (isCodeVerifyingAction action); [|done].
    apply wf_limit_if. destruct H1. constructor; simpl; auto with customs. }
  apply (wf_password limits now action email) in H2.
  unfold on_sms_sending. destruct (isSmsSendingAction action); [|done].
  apply wf_limit_if. destruct H2. constructor; simpl; eauto using Z.le_refl with customs.
Qed.

(** Every array of an IP record stays chronological and not younger than
    the clock under [update], so the exactness theorems apply to any record
    built by the server. *)
Theorem ip_update_wf limits t0 now action email r :
  wf t0 r -> t0 <= now -> wf now (update limits now action email r).1.
Proof.
  intros Hr Ht. pose proof (ip_wf_mono t0 now r Hr Ht) as Hr'. unfold update.
  fold (counted limits now action email r). destruct (isBlocked limits now r); [done|].
  pose proof (wf_counted limits now action email r Hr') as []. set (r1 := counted _ _ _ _ _) in *.
  destruct (isAccountAccessAction action); [|done].
  destruct (isOverAccountAccessLimit limits (addAccountAccess now r1));
    constructor; simpl; eauto using Z.le_refl with customs.
Qed.

(** Account accesses are never forgotten by the record: [aa] is not
    trimmed, so an access counts towards [maxAccountAccess] whatever its age
    (the configuration documents the limit as one "within
    ipRateLimitIntervalSeconds"). *)
Theorem ip_account_access_never_expires limits now email r :
  isBlocked limits now r = false ->
  0 < limits.(ipRateLimitBanDurationMs) ->
  Z.of_nat (length r.(aa)) >= limits.(maxAccountAccess) ->
  0 < (update limits now "consumeSigninCode" email r).2.
Proof.
  intros Hb Hd Ha. unfold update. rewrite Hb.
  change (on_sms_sending limits now "consumeSigninCode" _) with r.
  change (isAccountAccessAction "consumeSigninCode") with true. cbn iota.
  assert (isOverAccountAccessLimit limits (addAccountAccess now r) = true) as ->.
  { unfold isOverAccountAccessLimit. cbn [aa addAccountAccess set_aa]. 
    rewrite length_app, Z.gtb_lt. cbn [length]. lia. }
  cbn [snd]. unfold retryAfter. cbn [rl rateLimit set_aa set_sms set_as set_rl].
  pose proof (throttle_retry now _ Hd). lia.
Qed.

(** One failed login under an e-mail that is the name of an inherited
    property turns the bad-login score of the address into [NaN], and the
    limit is then never reached, whatever else failed. *)
Theorem ip_bad_logins_poisoned limits items x :
  is_proto_name (item_u x) = true -> String.eqb (item_u x) "__proto__" = false ->
  Forall (fun y => item_u y <> item_u x) items ->
  total_weight limits (x :: items) = None.
Proof.
  intros Hp Hn Hne. unfold total_weight. cbn [fold_left].
  assert (obj_get (weigh limits [] x) (item_u x) = Some None) as H0.
  { unfold weigh. rewrite Hn, Hp. simpl. by rewrite String.eqb_refl. }
  revert H0. generalize (weigh limits [] x). induction items as [|y items IH]; intros o Ho.
  - simpl. induction o as [|[k v] o IHo]; [done|]. cbn [obj_get] in Ho. simpl.
    destruct (String.eqb k (item_u x)); [by injection Ho as ->|].
    rewrite IHo by done. by destruct v.
  - inversion Hne; subst. cbn [fold_left]. apply IH; [done|]. unfold weigh at 1.
    destruct (String.eqb (item_u y) "__proto__"); [done|]. by rewrite obj_get_set_ne.
Qed.

(** ** Witnesses *)

Definition two_users : list Item :=
  [Info 1000 (Some 102) "a@x.org"; Info 2000 (Some 999) "a@x.org"; Info 3000 (Some 125) "b@x.org"].

Definition sample_ip : t := mk None None None two_users two_users two_users [] [] None.

Lemma ip_unique_emails_exact_witness :
  (isOverVerifyCodes Limits.sample 4000 sample_ip).2 =
    (Z.of_nat (size (users (window_items 4000 900000 two_users))) >? 10) /\
  (isOverAccountStatusCheck Limits.sample 4000 sample_ip).2 =
    (Z.of_nat (size (users (window_items 4000 900000 two_users))) >? 5).
Proof.
  apply (ip_unique_emails_exact Limits.sample 4000 sample_ip);
    repeat constructor; unfold item_before; simpl; lia.
Defined.

Lemma ip_bad_logins_exact_witness :
  (isOverBadLogins Limits.sample 4000 sample_ip).2 = true /\
  (isOverBadLogins Limits.sample 4000 sample_ip).2 =
  (score Limits.sample (window_items 4000 900000 two_users) >? 3).
Proof.
  split; [reflexivity|]. apply (ip_bad_logins_exact Limits.sample 4000 sample_ip).
  - intros e w H. unfold Limits.sample in H. cbn [badLoginErrnoWeights] in H.
    apply elem_of_list_to_map_2 in H. set_solver by lia.
  - repeat constructor; unfold item_before; simpl; lia.
  - by repeat constructor.
Defined.

Lemma ip_retryAfter_exact_witness :
  isBlocked Limits.sample (1000000000 + 1000 * 86400) (block 1000000000 (parse None)) = false.
Proof.
  apply (ip_retryAfter_exact Limits.sample 1000000000 (block 1000000000 (parse None))); simpl; lia.
Defined.

Lemma ip_ban_enforced_witness :
  0 < (update Limits.sample 5000 "accountLogin" (Some "a@x.org"%string) (rateLimit 4000 (parse None))).2 /\
  ban_kept 5000 (rateLimit 4000 (parse None))
    (update Limits.sample 5000 "accountLogin" (Some "a@x.org"%string) (rateLimit 4000 (parse None))).1.
Proof. apply ip_ban_enforced; [simpl; lia|right; split; reflexivity]. Defined.

Lemma ip_update_wf_witness :
  wf 5000 (update Limits.sample 5000 "accountLogin" (Some "a@x.org"%string) (parse None)).1.
Proof. apply (ip_update_wf _ 1000); [|lia]. constructor; simpl; auto with customs. Defined.

Lemma ip_account_access_never_expires_witness :
  0 < (update Limits.sample 1000000000000 "consumeSigninCode" None
        (mk None None None [] [] [] [] [Num 1; Num 2; Num 3; Num 4; Num 5] None)).2.
Proof. apply ip_account_access_never_expires; simpl; [reflexivity|lia|lia]. Defined.

Lemma ip_bad_logins_poisoned_witness :
  total_weight Limits.sample (Info 1000 (Some 103) "constructor" :: two_users) = None.
Proof. apply ip_bad_logins_poisoned; [reflexivity|reflexivity|repeat constructor; discriminate]. Defined.
