(* ===== verification/Reputation.v ===== *)
(** * The IP reputation service
    (packages/fxa-customs-server/lib/reputationService.js)

    The HTTP client of the service is a library: its replies are the argument
    [client] of [get].  Violation reports are fire-and-forget; the server's
    state keeps the list of reports sent. *)

From S2P Require Import Prelude.

Record Config := mkConfig {
  enable : bool;
  enableCheck : bool;
  suspectBelow : Z;
  blockBelow : Z }.

(** A reply of [ipClient.get]: a rejection, or a status code with the
    [reputation] of the body, if there is a body. *)
Inductive Reply :=
  | Rejected
  | NoResponse
  | Response (statusCode : Z) (body : option (option Z)).

(** The reputation handed to the predicates; [None] stands for [null],
    [false] and [undefined], which every comparison rejects. *)
Definition reputation := option Z.

Definition below (bound : Z) (r : reputation) : bool :=
  match r with Some x => (x >? 0) && (x <? bound) | None => false end.

Section Service.
Context (config : Config).

Definition checks_enabled : bool := config.(enable) && config.(enableCheck).

Definition isBlockBelow (r : reputation) : bool :=
  if checks_enabled then below config.(blockBelow) r else false.

Definition isSuspectBelow (r : reputation) : bool :=
  if checks_enabled then below config.(suspectBelow) r else false.

(** [get(ip)], given the client's reply for that address. *)
Definition get (client : string -> Reply) (ip : string) : reputation :=
  if checks_enabled then
    match client ip with
    | Response statusCode (Some rep) => if statusCode =? 200 then rep else None
    | _ => None
    end
  else None.

(** [report(ip, action)]: the violations sent so far. *)
Definition report (ip action : string) (sent : list (string * string)) : list (string * string) :=
  if config.(enable) then sent ++ [(ip, action)] else sent.

End Service.

Lemma reputation_unavailable config client ip :
  (forall rep, client ip <> Response 200 (Some rep)) ->
  isBlockBelow config (get config client ip) = false /\
  isSuspectBelow config (get config client ip) = false.
Proof.
  intros H. unfold isBlockBelow, isSuspectBelow, get, checks_enabled.
  destruct (enable config && enableCheck config); [|done].
  destruct (client ip) as [| |s [rep|]] eqn:E; try done.
  destruct (Z.eqb_spec s 200) as [->|]; [|done]. by destruct (H rep).
Qed.
