(* ===== verification/Records.v ===== *)
(** * Fetching and saving records
    (packages/fxa-customs-server/lib/records.js)

    [Storable] is what a kind of record offers the store: its own enumerable
    properties ([marshall]), its parser, and the law that reading back what
    was written gives the same record. *)

From S2P Require Import Prelude Window Store Limits Reputation.
From S2P Require EmailRecord IpRecord IpEmailRecord SmsRecord UidRecord RuleRecord.

Class Storable (R : Type) := {
  marshall : R -> StoredObject;
  parser : option StoredObject -> R;
  parser_marshall r : parser (Some (marshall r)) = r;
  getMinLifetimeMS : Limits.t -> R -> Z }.

#[export, refine] Instance email_storable : Storable EmailRecord.t := {
  marshall r := mkStored r.(EmailRecord.bk) r.(EmailRecord.su) r.(EmailRecord.di) r.(EmailRecord.rl)
    r.(EmailRecord.pr) (Some r.(EmailRecord.vc)) (Some r.(EmailRecord.xs)) (Some r.(EmailRecord.sms))
    (Some r.(EmailRecord.lf)) (Some r.(EmailRecord.ub)) None None None None None;
  parser := EmailRecord.parse;
  getMinLifetimeMS limits _ := EmailRecord.getMinLifetimeMS limits }.
Proof. by intros []. Defined.

#[export, refine] Instance ip_storable : Storable IpRecord.t := {
  marshall r := mkStored r.(IpRecord.bk) r.(IpRecord.su) r.(IpRecord.di) r.(IpRecord.rl) None
    (Some r.(IpRecord.vc)) None (Some r.(IpRecord.sms)) (Some r.(IpRecord.lf)) None
    (Some r.(IpRecord.as_)) (Some r.(IpRecord.aa)) None None None;
  parser := IpRecord.parse;
  getMinLifetimeMS limits _ := IpRecord.getMinLifetimeMS limits }.
Proof. by intros []. Defined.

#[export, refine] Instance ip_email_storable : Storable IpEmailRecord.t := {
  marshall r := mkStored None None None r.(IpEmailRecord.rl) None None None None
    (Some r.(IpEmailRecord.lf)) None None None None None None;
  parser := IpEmailRecord.parse;
  getMinLifetimeMS limits _ := IpEmailRecord.getMinLifetimeMS limits }.
Proof. by intros []. Defined.

#[export, refine] Instance sms_storable : Storable SmsRecord.t := {
  marshall r := mkStored None None None r.(SmsRecord.rl) None None None (Some r.(SmsRecord.sms))
    None None None None None None None;
  parser := SmsRecord.parse;
  getMinLifetimeMS limits _ := SmsRecord.getMinLifetimeMS limits }.
Proof. by intros []. Defined.

#[export, refine] Instance uid_storable : Storable UidRecord.t := {
  marshall r := mkStored None None None None None None None None None None None None None
    (Some r.(UidRecord.timestampsByAction)) r.(UidRecord.rateLimitedTimestamp);
  parser := UidRecord.parse;
  getMinLifetimeMS limits _ := UidRecord.getMinLifetimeMS limits }.
Proof. by intros []. Defined.

#[export, refine] Instance rule_storable (rule : RuleRecord.Rule) : Storable RuleRecord.t := {
  marshall r := mkStored None None None r.(RuleRecord.rl) None None None None None None None None
    (Some r.(RuleRecord.hits)) None None;
  parser := RuleRecord.construct;
  getMinLifetimeMS _ _ := RuleRecord.getMinLifetimeMS rule }.
Proof. by intros []. Defined.

Section Store.
Context {M : Type} `{Memcached M StoredObject}.
Context (limits : Limits.t) (recordLifetimeSeconds : Z) (now : Z).

(** [mc.getAsync(key).then(parser, parser)]: an error object has none of the
    record properties and parses like an empty object. *)
Definition fetchRecord {R} `{Storable R} (m : M) (key : string) : R :=
  match mc_get m key now with
  | inl o => parser o
  | inr _ => parser (Some empty_object)
  end.

(** The lifetime is the larger of the two, in milliseconds. *)
Definition setRecord {R} `{Storable R} (key : string) (r : R) (m : M) : M * bool :=
  mc_set m key (marshall r) (Z.max (recordLifetimeSeconds * 1000) (getMinLifetimeMS limits r)) now.

(** [setRecords(...records)]: every write is started; the promise is rejected
    when one of them is. *)
Fixpoint setRecords (writes : list (M -> M * bool)) (m : M) : M * bool :=
  match writes with
  | [] => (m, true)
  | w :: writes' =>
      let '(m1, ok) := w m in
      let '(m2, oks) := setRecords writes' m1 in (m2, ok && oks)
  end.

(** ** [fetchRecords]

    The argument's fields may be missing ([undefined] or empty). *)
Record FetchConfig := mkFetch {
  f_ip : option string; f_email : option string;
  f_phoneNumber : option string; f_uid : option string }.

Record Fetched := mkFetched {
  ipRecord : option IpRecord.t;
  f_reputation : reputation;
  emailRecord : option EmailRecord.t;
  ipEmailRecord : option IpEmailRecord.t;
  smsRecord : option SmsRecord.t;
  uidRecord : option UidRecord.t }.

Definition when_truthy {A} (s : option string) (f : string -> A) : option A :=
  match s with Some x => if str_truthy x then Some (f x) else None | None => None end.

Definition fetchRecords (rep : string -> reputation) (m : M) (c : FetchConfig) : Fetched := {|
  ipRecord := when_truthy c.(f_ip) (fetchRecord m);
  f_reputation := default None (when_truthy c.(f_ip) rep);
  emailRecord := when_truthy c.(f_email) (fetchRecord m);
  ipEmailRecord :=
    ip ← when_truthy c.(f_ip) id;
    email ← when_truthy c.(f_email) id;
    Some (fetchRecord m (String.append ip email));
  smsRecord := when_truthy c.(f_phoneNumber) (fetchRecord m);
  uidRecord := when_truthy c.(f_uid) (fetchRecord m) |}.

End Store.

(** ** Reading back *)
Section Laws.
Context {M : Type} `{MemcachedLaws M StoredObject}.
Context (limits : Limits.t) (life : Z).

Lemma fetch_after_set {R} `{Storable R} key (r : R) now t m m' :
  setRecord limits life now key r m = (m', true) -> now <= t ->
  t < now + Z.max (life * 1000) (getMinLifetimeMS limits r) ->
  fetchRecord t m' key = r.
Proof.
  unfold setRecord, fetchRecord. intros Hs Ht Hl.
  rewrite (mc_get_set _ _ _ _ _ _ t Hs Ht (or_introl Hl)). apply parser_marshall.
Qed.

Lemma fetch_other_after_set {R R'} `{Storable R} `{Storable R'} key key' (r : R) now t m m' b :
  key <> key' -> setRecord limits life now key r m = (m', b) ->
  fetchRecord (R := R') t m' key' = fetchRecord t m key'.
Proof.
  unfold setRecord, fetchRecord. intros Hne Hs. by rewrite (mc_get_set_ne _ _ _ _ _ _ _ _ t Hne Hs).
Qed.

End Laws.

(** A record of any kind that was saved is read back unchanged, for as
    long as its own intervals matter: the requested lifetime covers
    [getMinLifetimeMS] and at least [recordLifetimeSeconds]. *)
Theorem record_roundtrip {M R : Type} `{MemcachedLaws M StoredObject} `{Storable R}
    limits life key (r : R) now t m m' :
  setRecord limits life now key r m = (m', true) -> now <= t ->
  t < now + Z.max (life * 1000) (getMinLifetimeMS limits r) ->
  fetchRecord t m' key = r.
Proof. apply fetch_after_set. Qed.

(** The lifetime of e-mail and IP records ignores the disable interval:
    with the default configuration a disabled record expires after a day of
    silence, long before the year its flag is meant to last. *)
Theorem disable_flag_outlives_record :
  let life := Z.max (900 * 1000) (getMinLifetimeMS Limits.sample EmailRecord.fresh) in
  let m' := (setRecord (M := gmap string (StoredObject * Z * Z)) Limits.sample 900 1000 "a@x.org"
               (EmailRecord.disable 1000 EmailRecord.fresh) ∅).1 in
  EmailRecord.isDisabled Limits.sample (1000 + life) (EmailRecord.disable 1000 EmailRecord.fresh) = true /\
  EmailRecord.isDisabled Limits.sample (1000 + life)
    (fetchRecord (R := EmailRecord.t) (1000 + life) m' "a@x.org") = false.
Proof. split; vm_compute; reflexivity. Qed.

Lemma record_roundtrip_witness :
  let w := setRecord (M := gmap string (StoredObject * Z * Z)) Limits.sample 900 1000 "1.2.3.4"
             (IpRecord.block 1000 (IpRecord.parse None)) ∅ in
  fetchRecord (R := IpRecord.t) 2000 w.1 "1.2.3.4" = IpRecord.block 1000 (IpRecord.parse None).
Proof.
  apply (record_roundtrip Limits.sample 900 "1.2.3.4" _ 1000 2000 ∅); [reflexivity|lia|vm_compute; reflexivity].
Defined.
