(* ===== verification/Text.v ===== *)
(** * Text handling of the customs server

    [normalizedEmail] (lib/server.js), the helpers of lib/utils.js and the
    JavaScript string functions they use.  Strings are sequences of code
    units below 256; lower-casing covers the ASCII letters. *)

From S2P Require Import Prelude.
From Stdlib Require Import Ascii.

#[local] Open Scope string_scope.

(** ** JavaScript string functions *)

Fixpoint smap (f : ascii -> ascii) (s : string) : string :=
  match s with "" => "" | String a s' => String (f a) (smap f s') end.

Definition lower_char (a : ascii) : ascii :=
  let n := nat_of_ascii a in
  if (65 <=? n)%nat && (n <=? 90)%nat then ascii_of_nat (n + 32) else a.

(** [s.toLowerCase()] *)
Definition toLowerCase : string -> string := smap lower_char.

(** [s.split(c)] for a one-character separator. *)
Fixpoint split_on (c : ascii) (s : string) : list string :=
  match s with
  | "" => [""]
  | String a s' =>
      if Ascii.eqb a c then "" :: split_on c s'
      else match split_on c s' with
           | h :: t => String a h :: t
           | [] => [String a ""]
           end
  end.

(** [s.endsWith(suf)] *)
Fixpoint endsWith (suf s : string) : bool :=
  String.eqb s suf || match s with "" => false | String _ s' => endsWith suf s' end.

(** [s.replace(/c/g, '')] *)
Fixpoint remove_char (c : ascii) (s : string) : string :=
  match s with
  | "" => ""
  | String a s' => if Ascii.eqb a c then remove_char c s' else String a (remove_char c s')
  end.

(** [.] matches anything but a line terminator. *)
Definition line_terminator (a : ascii) : bool := Ascii.eqb a "010" || Ascii.eqb a "013".

Fixpoint one_line (s : string) : bool :=
  match s with "" => true | String a s' => negb (line_terminator a) && one_line s' end.

(** [s.replace(/\+.*$/, '')]: from the first [+] that is followed by no line
    terminator. *)
Fixpoint strip_plus (s : string) : string :=
  match s with
  | "" => ""
  | String a s' => if Ascii.eqb a "+" && one_line s' then "" else String a (strip_plus s')
  end.

(** White space, as [trim] and [\s] have it. *)
Definition is_space (a : ascii) : bool :=
  let n := nat_of_ascii a in
  ((9 <=? n)%nat && (n <=? 13)%nat) || (n =? 32)%nat || (n =? 160)%nat.

Fixpoint trim_start (s : string) : string :=
  match s with
  | String a s' => if is_space a then trim_start s' else s
  | EmptyString => EmptyString
  end.

Fixpoint trim_end (s : string) : string :=
  match s with
  | EmptyString => EmptyString
  | String a s' =>
      match trim_end s' with
      | EmptyString => if is_space a then EmptyString else String a EmptyString
      | s'' => String a s''
      end
  end.

Definition trim (s : string) : string := trim_end (trim_start s).

(** [s.split(/\s+/g)] on a trimmed string. *)
Definition split_spaces (s : string) : list string :=
  match filterb str_truthy (split_on " " (smap (fun a => if is_space a then " "%char else a) s)) with
  | [] => [""]
  | l => l
  end.

(** ** [normalizedEmail] *)
Definition normalize_local (local : string) : string := remove_char "." (strip_plus local).

Definition normalizedEmail (rawEmail : string) : string :=
  let lowercaseEmail := toLowerCase rawEmail in
  if endsWith "@gmail.com" lowercaseEmail then
    match split_on "@" lowercaseEmail with
    | local :: domain :: _ => normalize_local local ++ "@" ++ domain
    | _ => lowercaseEmail
    end
  else lowercaseEmail.

(** ** lib/utils.js

    [createHashHex(...args)]: SHA-256 (of the crypto library, [sha256hex]
    here) of the arguments, each followed by a NUL. *)
Fixpoint hash_input (args : list string) : string :=
  match args with
  | [] => ""
  | arg :: args' => (arg ++ String "000" "") ++ hash_input args'
  end.

Definition createHashHex (sha256hex : string -> string) (args : list string) : string :=
  sha256hex (hash_input args).

(** ** Lemmas on strings *)

#[local] Arguments String.append !_ _ / : simpl nomatch.

Fixpoint avoids (c : ascii) (s : string) : bool :=
  match s with "" => true | String a s' => negb (Ascii.eqb a c) && avoids c s' end.

Lemma append_assoc s t u : (s ++ t) ++ u = s ++ t ++ u.
Proof. induction s as [|a s IH]; simpl; [done|by rewrite IH]. Qed.

Lemma append_nil_r s : s ++ "" = s.
Proof. induction s as [|a s IH]; simpl; [done|by rewrite IH]. Qed.

Lemma smap_app f s t : smap f (s ++ t) = smap f s ++ smap f t.
Proof. induction s as [|a s IH]; simpl; [done|by rewrite IH]. Qed.

Lemma lower_char_idem a : lower_char (lower_char a) = lower_char a.
Proof. by destruct a as [[] [] [] [] [] [] [] []]. Qed.

Lemma lower_idem s : toLowerCase (toLowerCase s) = toLowerCase s.
Proof. unfold toLowerCase. induction s as [|a s IH]; simpl; [done|]. by rewrite lower_char_idem, IH. Qed.

(** Lower-casing does not touch the characters that matter here. *)
Lemma lower_char_fixed a c :
  c ∈ ["@"%char; "+"%char; "."%char; "010"%char; "013"%char] -> Ascii.eqb (lower_char a) c = Ascii.eqb a c.
Proof.
  intros H. repeat (apply elem_of_cons in H as [->|H]; [by destruct a as [[] [] [] [] [] [] [] []]|]).
  by apply elem_of_nil in H.
Qed.

Lemma avoids_lower c s :
  c ∈ ["@"%char; "+"%char; "."%char; "010"%char; "013"%char] -> avoids c (toLowerCase s) = avoids c s.
Proof.
  intros Hc. unfold toLowerCase. induction s as [|a s IH]; simpl; [done|].
  by rewrite IH, lower_char_fixed.
Qed.

Lemma one_line_lower s : one_line (toLowerCase s) = one_line s.
Proof.
  unfold toLowerCase. induction s as [|a s IH]; simpl; [done|]. unfold line_terminator.
  by rewrite IH, !lower_char_fixed by set_solver.
Qed.

Lemma endsWith_app suf s : endsWith suf (s ++ suf) = true.
Proof.
  induction s as [|a s IH]; simpl.
  - destruct suf; simpl; [done|]. by rewrite Ascii.eqb_refl, String.eqb_refl.
  - rewrite IH. apply orb_true_r.
Qed.

Lemma endsWith_split suf s : endsWith suf s = true -> exists p, s = p ++ suf.
Proof.
  induction s as [|a s IH]; cbn [endsWith]; intros [H|H]%orb_true_iff.
  - apply String.eqb_eq in H as <-. by exists "".
  - done.
  - apply String.eqb_eq in H as <-. by exists "".
  - destruct (IH H) as [p ->]. by exists (String a p).
Qed.

Lemma split_on_avoids c s : avoids c s = true -> split_on c s = [s].
Proof.
  induction s as [|a s IH]; simpl; [done|]. intros [Ha Hs]%andb_true_iff.
  apply negb_true_iff in Ha. by rewrite Ha, IH.
Qed.

Lemma split_on_app c s t : avoids c s = true -> split_on c (s ++ String c t) = s :: split_on c t.
Proof.
  induction s as [|a s IH]; simpl; intros H; [by rewrite Ascii.eqb_refl|].
  apply andb_true_iff in H as [Ha Hs]. apply negb_true_iff in Ha. by rewrite Ha, IH.
Qed.

(** A split is the list of pieces: none contains the separator. *)
Lemma split_on_pieces c s : Forall (fun p => avoids c p = true) (split_on c s).
Proof.
  induction s as [|a s IH]; simpl; [by repeat constructor|].
  destruct (Ascii.eqb a c) eqn:E; [by constructor|].
  destruct (split_on c s) as [|h t]; [by repeat constructor; simpl; rewrite E|].
  inversion IH; subst. constructor; [|done]. simpl. by rewrite E.
Qed.

(** ** The normal form of an address *)

(** [s] is its own lower-case form. *)
Definition lowered (s : string) : Prop := toLowerCase s = s.

Lemma lowered_cons a s : lowered (String a s) <-> lower_char a = a /\ lowered s.
Proof.
  unfold lowered, toLowerCase. simpl. split; [intros [= H1 H2]; auto|]. intros [H1 H2]. by rewrite H1, H2.
Qed.

Lemma lowered_app s t : lowered s -> lowered t -> lowered (s ++ t).
Proof. unfold lowered, toLowerCase. intros Hs Ht. by rewrite smap_app, Hs, Ht. Qed.

Lemma lowered_remove c s : lowered s -> lowered (remove_char c s).
Proof.
  induction s as [|a s IH]; [done|]. rewrite lowered_cons. intros [Ha Hs]. simpl.
  destruct (Ascii.eqb a c); [auto|]. apply lowered_cons. auto.
Qed.

Lemma lowered_strip s : lowered s -> lowered (strip_plus s).
Proof.
  induction s as [|a s IH]; [done|]. rewrite lowered_cons. intros [Ha Hs]. simpl.
  destruct (_ && _); [done|]. apply lowered_cons. auto.
Qed.

Lemma lowered_split c s : lowered s -> Forall lowered (split_on c s).
Proof.
  induction s as [|a s IH]; simpl; [by repeat constructor|]. rewrite lowered_cons. intros [Ha Hs].
  specialize (IH Hs). destruct (Ascii.eqb a c); [by constructor|].
  destruct (split_on c s) as [|h t]; [repeat constructor; by apply lowered_cons|].
  inversion IH; subst. constructor; [|done]. by apply lowered_cons.
Qed.

(** Every [+] is followed by a line terminator: nothing to strip. *)
Fixpoint plus_free (s : string) : bool :=
  match s with "" => true | String a s' => negb (Ascii.eqb a "+" && one_line s') && plus_free s' end.

Lemma strip_plus_free s : plus_free s = true -> strip_plus s = s.
Proof.
  induction s as [|a s IH]; simpl; [done|]. intros [Ha Hs]%andb_true_iff.
  apply negb_true_iff in Ha. by rewrite Ha, IH.
Qed.

Lemma one_line_strip s : one_line s = false -> one_line (strip_plus s) = false.
Proof.
  induction s as [|a s IH]; simpl; [done|]. intros H.
  destruct (Ascii.eqb a "+" && one_line s) eqn:E.
  - apply andb_true_iff in E as [Ha%Ascii.eqb_eq E]. subst a. by rewrite E in H.
  - simpl. destruct (line_terminator a); [done|]. simpl in *. auto.
Qed.

Lemma plus_free_strip s : plus_free (strip_plus s) = true.
Proof.
  induction s as [|a s IH]; simpl; [done|].
  destruct (Ascii.eqb a "+") eqn:Ea; simpl; [|by rewrite Ea].
  destruct (one_line s) eqn:E; [done|]. simpl. by rewrite Ea, (one_line_strip s E).
Qed.

Lemma one_line_remove s : one_line (remove_char "." s) = one_line s.
Proof.
  induction s as [|a s IH]; simpl; [done|].
  destruct (Ascii.eqb_spec a ".") as [->|]; [done|]. simpl. by rewrite IH.
Qed.

Lemma plus_free_remove s : plus_free s = true -> plus_free (remove_char "." s) = true.
Proof.
  induction s as [|a s IH]; simpl; [done|]. intros [Ha Hs]%andb_true_iff.
  destruct (Ascii.eqb a "."); [auto|]. simpl. by rewrite one_line_remove, Ha, IH.
Qed.

Lemma remove_char_idem c s : remove_char c (remove_char c s) = remove_char c s.
Proof.
  induction s as [|a s IH]; simpl; [done|]. destruct (Ascii.eqb a c) eqn:E; [done|]. simpl. by rewrite E, IH.
Qed.

Lemma normalize_local_idem s : normalize_local (normalize_local s) = normalize_local s.
Proof.
  unfold normalize_local. rewrite strip_plus_free by (apply plus_free_remove, plus_free_strip).
  apply remove_char_idem.
Qed.

Lemma avoids_remove c d s : avoids c s = true -> avoids c (remove_char d s) = true.
Proof.
  induction s as [|a s IH]; simpl; [done|]. intros [Ha Hs]%andb_true_iff.
  destruct (Ascii.eqb a d); [auto|]. simpl. by rewrite Ha, IH.
Qed.

Lemma avoids_strip c s : avoids c s = true -> avoids c (strip_plus s) = true.
Proof.
  induction s as [|a s IH]; simpl; [done|]. intros [Ha Hs]%andb_true_iff.
  destruct (_ && _); [done|]. simpl. by rewrite Ha, IH.
Qed.

(** An address [local@domain] in lower case without further [@]. *)
Lemma normalizedEmail_pieces local domain :
  lowered local -> lowered domain -> avoids "@" local = true -> avoids "@" domain = true ->
  normalizedEmail (local ++ "@" ++ domain) =
  if endsWith "@gmail.com" (local ++ "@" ++ domain)
  then normalize_local local ++ "@" ++ domain else local ++ "@" ++ domain.
Proof.
  intros Hl Hd Al Ad. unfold normalizedEmail.
  assert (toLowerCase (local ++ "@" ++ domain) = local ++ "@" ++ domain) as ->.
  { apply lowered_app; [done|]. by apply (lowered_app "@"). }
  destruct (endsWith _ _); [|done]. simpl ("@" ++ domain). by rewrite split_on_app, split_on_avoids.
Qed.

Lemma smap_empty f s : smap f s = "" -> s = "".
Proof. by destruct s. Qed.

Lemma append_at s d : s ++ "@" ++ d <> "".
Proof. by destruct s. Qed.

(** Normalising a non-empty address does not empty it. *)
Lemma normalizedEmail_truthy e : str_truthy e = true -> str_truthy (normalizedEmail e) = true.
Proof.
  unfold str_truthy. rewrite !negb_true_iff, !String.eqb_neq. intros He Hn. apply He.
  unfold normalizedEmail in Hn. apply (smap_empty lower_char).
  destruct (endsWith _ _); [|done]. destruct (split_on "@" _) as [|l [|d ?]]; try done.
  by apply append_at in Hn.
Qed.

(** Normalising an address is idempotent: a normalised address is its
    own normal form, for every input string. *)
Theorem normalizedEmail_idempotent e : normalizedEmail (normalizedEmail e) = normalizedEmail e.
Proof.
  unfold normalizedEmail at 2 3.
  assert (lowered (toLowerCase e)) as Hl by apply lower_idem.
  destruct (endsWith "@gmail.com" (toLowerCase e)) eqn:Eg.
  - pose proof (split_on_pieces "@" (toLowerCase e)) as Hp.
    pose proof (lowered_split "@" _ Hl) as Hq.
    destruct (split_on "@" (toLowerCase e)) as [|local [|domain rest]] eqn:Es.
    + unfold normalizedEmail. by rewrite lower_idem, Eg, Es.
    + unfold normalizedEmail. by rewrite lower_idem, Eg, Es.
    + inversion Hp as [|? ? A1 Hp']; subst. inversion Hp' as [|? ? A2 _]; subst.
      inversion Hq as [|? ? L1 Hq']; subst. inversion Hq' as [|? ? L2 _]; subst.
      rewrite normalizedEmail_pieces; [|by apply lowered_remove, lowered_strip|done
        |by apply avoids_remove, avoids_strip|done].
      rewrite normalize_local_idem. by destruct (endsWith _ (_ ++ _)).
  - unfold normalizedEmail. by rewrite lower_idem, Eg.
Qed.

Lemma strip_plus_app s tag :
  avoids "+" s = true -> one_line tag = true -> strip_plus (s ++ "+" ++ tag) = s.
Proof.
  induction s as [|a s IH]; simpl; intros Hs Ht; [by rewrite Ht|].
  apply andb_true_iff in Hs as [Ha Hs]. apply negb_true_iff in Ha. rewrite Ha. simpl.
  f_equal. by apply IH.
Qed.

Lemma strip_plus_avoids s : avoids "+" s = true -> strip_plus s = s.
Proof.
  induction s as [|a s IH]; simpl; [done|]. intros [Ha Hs]%andb_true_iff.
  apply negb_true_iff in Ha. by rewrite Ha, IH.
Qed.

Lemma avoids_app c s t : avoids c (s ++ t) = avoids c s && avoids c t.
Proof. induction s as [|a s IH]; simpl; [done|]. by rewrite IH, andb_assoc. Qed.

Lemma normalizedEmail_gmail local :
  avoids "@" local = true ->
  normalizedEmail (local ++ "@gmail.com") = normalize_local (toLowerCase local) ++ "@gmail.com".
Proof.
  intros Ha. unfold normalizedEmail, toLowerCase at 1. rewrite smap_app.
  change (smap lower_char "@gmail.com") with "@gmail.com". fold (toLowerCase local).
  rewrite endsWith_app. unfold toLowerCase at 1. rewrite smap_app.
  change (smap lower_char "@gmail.com") with "@gmail.com". fold (toLowerCase local).
  rewrite split_on_app by (by rewrite avoids_lower by set_solver). done.
Qed.

(** All spellings of a gmail address share one record: addresses that
    differ by letter case, by dots in the local part or by a [+tag] have the
    same normal form. *)
Theorem normalizedEmail_aliases l1 l2 tag :
  avoids "@" l1 = true -> avoids "+" l1 = true -> avoids "@" l2 = true -> avoids "+" l2 = true ->
  avoids "@" tag = true -> one_line tag = true ->
  remove_char "." (toLowerCase l1) = remove_char "." (toLowerCase l2) ->
  normalizedEmail (l1 ++ "+" ++ tag ++ "@gmail.com") = normalizedEmail (l2 ++ "@gmail.com").
Proof.
  intros A1 P1 A2 P2 At Ot E.
  replace (l1 ++ "+" ++ tag ++ "@gmail.com") with ((l1 ++ "+" ++ tag) ++ "@gmail.com")
    by (by rewrite !append_assoc).
  rewrite !normalizedEmail_gmail by (rewrite ?avoids_app; simpl; rewrite ?A1, ?At, ?A2; done).
  f_equal. unfold normalize_local. unfold toLowerCase at 1. rewrite !smap_app.
  change (smap lower_char "+") with "+". fold (toLowerCase l1) (toLowerCase tag).
  rewrite strip_plus_app; [|by rewrite avoids_lower by set_solver|by rewrite one_line_lower].
  rewrite strip_plus_avoids by (by rewrite avoids_lower by set_solver). done.
Qed.

Lemma normalizedEmail_aliases_witness :
  normalizedEmail ("A.ttack.e.R" ++ "+" ++ "is+a+goon" ++ "@gmail.com") =
  normalizedEmail ("attacker" ++ "@gmail.com").
Proof. apply normalizedEmail_aliases; reflexivity. Defined.

(** ** Keys of user-defined rules *)

Lemma hash_arg_inj a b s t :
  avoids "000" a = true -> avoids "000" b = true ->
  a ++ String "000" s = b ++ String "000" t -> a = b /\ s = t.
Proof.
  revert b. induction a as [|x a IH]; intros [|y b]; simpl; intros Ha Hb E.
  - by injection E as ->.
  - apply andb_true_iff in Hb as [Hb _]. injection E as <- _. by rewrite Ascii.eqb_refl in Hb.
  - apply andb_true_iff in Ha as [Ha _]. injection E as -> _. by rewrite Ascii.eqb_refl in Ha.
  - apply andb_true_iff in Ha as [_ Ha], Hb as [_ Hb]. injection E as -> E.
    destruct (IH b Ha Hb E) as [-> ->]. done.
Qed.

(** The text hashed for a rule key determines its parts: two lists of
    the same number of NUL-free arguments with the same hash input are equal,
    so distinct (e-mail, IP) pairs only share a key if SHA-256 collides. *)
Theorem hash_input_injective args args' :
  Forall (fun a => avoids "000" a = true) args -> Forall (fun a => avoids "000" a = true) args' ->
  length args = length args' -> hash_input args = hash_input args' -> args = args'.
Proof.
  revert args'. induction args as [|a args IH]; intros [|b args']; try done.
  intros Ha Hb Hl E. inversion Ha; inversion Hb; subst. simpl in Hl, E.
  rewrite !append_assoc in E. simpl in E.
  destruct (hash_arg_inj a b _ _ ltac:(done) ltac:(done) E) as [-> E'].
  f_equal. apply IH; auto.
Qed.

Lemma hash_input_injective_witness :
  ["a@x.org"; "1.2.3.4"] = ["a@x.org"; "1.2.3.4"].
Proof. apply hash_input_injective; [repeat constructor..|reflexivity|reflexivity]. Defined.
