(* ===== verification/Settings.v ===== *)
(** * Hot-loaded settings (packages/fxa-customs-server/lib/settings)

    settings.js defines the abstract class: [push] writes the settings to
    memcached, [refresh] reads, validates and installs them.  [SettingsKind]
    is what a subclass provides, [SettingsLaws] what [refresh] needs of it;
    the limits, the three allowlists and the request checks are instances. *)

From S2P Require Import Prelude Store Text.
From S2P Require Limits.
From Stdlib Require Import Ascii.

Inductive failure :=
  | McError                                  (* memcached rejected *)
  | Invalid (e : Limits.settings_error)      (* [validate] threw *)
  | SetAllThrew.

(** [S]: the settings object; [J]: the value stored in memcached ([None] is a
    miss); [V]: the argument and the return value of [setAll].  [setAll]
    yields the mutated object, and [None] when it throws. *)
Class SettingsKind (S J V : Type) := {
  settings_key : string;
  setAll : S -> V -> S * option V;
  validate : S -> option J -> V + Limits.settings_error;
  toJSON : S -> J }.

Arguments settings_key S {J V _}.

Section Settings.
Context {S J V M : Type} `{SettingsKind S J V} `{Memcached M J}.
Context (now : Z).

Definition install (s : S) (v : V) : S * (V + failure) :=
  match setAll s v with
  | (s', Some v') => (s', inl v')
  | (s', None) => (s', inr SetAllThrew)
  end.

(** [mc.getAsync(this[KEY]).then((value) => this.validate(value))] *)
Definition read (s : S) (m : M) : V + failure :=
  match mc_get m (settings_key S) now with
  | inr _ => inr McError
  | inl o => match validate s o with inl v => inl v | inr e => inr (Invalid e) end
  end.

(** [refresh()] without options. *)
Definition refresh (s : S) (m : M) : S * (V + failure) :=
  match read s m with
  | inl v => install s v
  | inr e => (s, inr e)
  end.

Definition push (s : S) (m : M) : S * M * (V + failure) :=
  let '(m', ok) := mc_set m (settings_key S) (toJSON s) 0 now in
  if ok then let '(s', r) := refresh s m' in (s', m', r) else (s, m', inr McError).

(** [refresh({ pushOnMissing: true })]: after a push, what the inner
    [refresh] returned is installed once more. *)
Definition refresh_pushOnMissing (s : S) (m : M) : S * M * (V + failure) :=
  match read s m with
  | inl v => let '(s', r) := install s v in (s', m, r)
  | inr (Invalid Limits.Missing) =>
      match push s m with
      | (s', m', inl v) => let '(s'', r) := install s' v in (s'', m', r)
      | (s', m', inr e) => (s', m', inr e)
      end
  | inr e => (s, m, inr e)
  end.

(** One tick of [pollForUpdates]: errors are only logged. *)
Definition poll (s : S) (m : M) : S := (refresh s m).1.

End Settings.

(** What a kind of settings promises: a miss is reported as [Missing], and a
    well-formed object survives its own serialisation up to [eqv]. *)
Class SettingsLaws (S J V : Type) `{SettingsKind S J V} (wf : S -> Prop) (eqv : S -> S -> Prop) : Prop := {
  eqv_equivalence :: Equivalence eqv;
  validate_miss s : validate s None = inr Limits.Missing;
  validate_own s : wf s ->
    exists v s1 v1 s2 v2, validate s (Some (toJSON s)) = inl v /\
      setAll s v = (s1, Some v1) /\ setAll s1 v1 = (s2, Some v2) /\ eqv s s1 /\ eqv s s2 }.

(** ** lib/settings/limits.js as a kind of settings

    [setAll] leaves the object alone where [Limits.setAll] is undefined (a
    stored nested group of the wrong shape). *)
#[export] Instance limits_kind : SettingsKind Limits.t Limits.stored Limits.raw := {
  settings_key := "limits"%string;
  setAll l r := match Limits.setAll r with
                | Some l' => (l', Some (Limits.own_properties l'))
                | None => (l, None) end;
  validate l o := Limits.validate l (default Limits.NotObject o);
  toJSON l := Limits.Object_ (Limits.own_properties l) }.

Definition limits_eqv (l l' : Limits.t) : Prop := Limits.without_intervals l = Limits.without_intervals l'.

#[export] Instance limits_eqv_equivalence : Equivalence limits_eqv.
Proof. split; unfold limits_eqv; congruence. Qed.

Lemma without_intervals_derived l l' :
  Limits.setAll (Limits.own_properties l) = Some l' -> Limits.derived_ok l'.
Proof. intros. by exists (Limits.own_properties l). Qed.

#[export] Instance limits_laws : SettingsLaws _ _ _ Limits.derived_ok limits_eqv.
Proof.
  split; [apply _|done|]. intros l Hl. pose proof (Limits.setAll_own l Hl) as H1.
  pose proof (Limits.setAll_own _ (without_intervals_derived _ _ H1)) as H2.
  exists (Limits.reload l (Limits.own_properties l)). do 4 eexists. split; [done|].
  cbn [setAll limits_kind].
  rewrite (Limits.setAll_ext _ (Limits.own_properties l)) by apply Limits.reload_self.
  rewrite H1. split; [done|]. rewrite H2. split; [done|]. by split; destruct l.
Qed.

(** ** The allowlists

    A stored allowlist is a JSON array (of strings), or something else. *)
Inductive stored_list := NotArray | Array_ (l : list string).

(** Keys of [o = {}; for (...) o[l[i]] = true;]: the assignment to
    [__proto__] has no effect. *)
Definition object_of (l : list string) : list string :=
  fold_left (fun acc k => if String.eqb k "__proto__" then acc else add_key acc k) l [].

Definition validate_array (ok : string -> bool) (o : option stored_list) : list string + Limits.settings_error :=
  match o with
  | Some (Array_ l) => inl (filterb ok l)
  | _ => inr Limits.Missing
  end.

(** [net.isIPv4]: four decimal octets without leading zeros. *)
Definition digit (a : Ascii.ascii) : option Z :=
  let n := Z.of_nat (Ascii.nat_of_ascii a) in
  if (48 <=? n) && (n <=? 57) then Some (n - 48) else None.

Fixpoint decimal (acc : Z) (s : string) : option Z :=
  match s with
  | EmptyString => Some acc
  | String a s' => d ← digit a; decimal (10 * acc + d) s'
  end.

Definition octet (s : string) : bool :=
  match s with
  | EmptyString => false
  | String a s' =>
      match decimal 0 s with
      | Some n => (n <=? 255) && (negb (Ascii.eqb a "0"%char) || String.eqb s' "") && (String.length s <=? 3)%nat
      | None => false
      end
  end.

Definition isIPv4 (s : string) : bool :=
  match split_on "."%char s with
  | [a; b; c; d] => octet a && octet b && octet c && octet d
  | _ => false
  end.

Module AllowedIPs.

Record t := mk { ips : list string }.

Definition new (l : list string) : t := mk (object_of l).

Definition isAllowed (s : t) (ip : string) : bool := js_truthy_in ip s.(ips).

#[global] Instance kind : SettingsKind t stored_list (list string) := {
  settings_key := "allowedIPs"%string;
  setAll _ l := (new l, Some (object_of l));
  validate _ := validate_array isIPv4;
  toJSON s := Array_ s.(ips) }.

End AllowedIPs.

Module AllowedEmailDomains.

Record t := mk { domains : list string }.

Definition new (l : list string) : t := mk (object_of l).

(** The group of [/^.+@(.+)$/]: what follows the last [@] that has something
    before and after it. *)
Fixpoint domain_after (nonempty : bool) (s : string) : option string :=
  match s with
  | EmptyString => None
  | String a s' =>
      match domain_after true s' with
      | Some d => Some d
      | None => if nonempty && Ascii.eqb a "@"%char && str_truthy s' then Some s' else None
      end
  end.

Definition isAllowed (s : t) (email : option string) : bool :=
  match email with
  | Some e =>
      if one_line e then
        match domain_after false e with
        | Some d => js_truthy_in d s.(domains)
        | None => false
        end
      else false
  | None => false
  end.

#[global] Instance kind : SettingsKind t stored_list (list string) := {
  settings_key := "allowedEmailDomains"%string;
  setAll _ l := (new l, Some (object_of l));
  validate _ := validate_array (fun _ => true);
  toJSON s := Array_ s.(domains) }.

End AllowedEmailDomains.

Module AllowedPhoneNumbers.

Record t := mk { phoneNumbers : list string }.

Definition new (l : list string) : t := mk (set_of l).

Definition isAllowed (s : t) (phoneNumber : option string) : bool :=
  match phoneNumber with Some p => bool_decide (p ∈ s.(phoneNumbers)) | None => false end.

#[global] Instance kind : SettingsKind t stored_list (list string) := {
  settings_key := "allowedPhoneNumbers"%string;
  setAll _ l := (new l, Some (set_of l));
  validate _ := validate_array (fun _ => true);
  toJSON s := Array_ s.(phoneNumbers) }.

End AllowedPhoneNumbers.

(** ** lib/settings/requestChecks.js

    Regular expressions are compiled by the language's [RegExp]: [compile re]
    is [None] when the pattern is invalid, else the [test] of the object. *)
Module RequestChecks.

Inductive value := RBool (b : bool) | RArr (l : list string) | RNum (z : Z) | RStr (s : string) | RObj.

Definition typeof (v : option value) : string :=
  match v with
  | None => "undefined" | Some (RBool _) => "boolean" | Some (RNum _) => "number"
  | Some (RStr _) => "string" | Some _ => "object"
  end%string.

Definition truthy (v : option value) : bool :=
  match v with
  | None => false | Some (RBool b) => b | Some (RNum z) => negb (z =? 0)
  | Some (RStr s) => str_truthy s | Some (RArr _) | Some RObj => true
  end.

Record t := mk {
  treatEveryoneWithSuspicion : option value;
  flowIdRequiredOnLogin : option value;
  flowIdExemptUserAgentREs : option value;
  compiledREs : list (string -> bool) }.

Definition raw := jsobj value.

Inductive stored := NotObject | Null | Object_ (r : raw).

Definition field (s : t) (k : string) : option value :=
  if String.eqb k "treatEveryoneWithSuspicion" then s.(treatEveryoneWithSuspicion)
  else if String.eqb k "flowIdRequiredOnLogin" then s.(flowIdRequiredOnLogin)
  else if String.eqb k "flowIdExemptUserAgentREs" then s.(flowIdExemptUserAgentREs)
  else None.

(** [Object.keys(config.requestChecks)] *)
Definition keys : list string :=
  ["treatEveryoneWithSuspicion"; "flowIdRequiredOnLogin"; "flowIdExemptUserAgentREs"]%string.

(** [settings[key] = v], where [v] may be [undefined]. *)
Definition assign (r : raw) (key : string) (v : option value) : raw :=
  match v with Some v => obj_set r key v | None => obj_delete r key end.

Definition validate_key (s : t) (settings : raw) (key : string) : raw :=
  let current := field s key in
  let future := obj_get settings key in
  if String.eqb (typeof future) "undefined" then assign settings key current
  else if negb (String.eqb (typeof current) (typeof future)) then assign settings key current
  else settings.

Definition validate (s : t) (o : option stored) : raw + Limits.settings_error :=
  match o with
  | Some (Object_ r) => inl (fold_left (validate_key s) keys r)
  | Some Null => inr Limits.TypeError
  | _ => inr Limits.Missing
  end.

(** The own properties: what [push] serialises and what [setAll], which
    returns the object itself, hands to a second [setAll] (the compiled
    patterns are serialised too, and never read back). *)
Definition own_properties (s : t) : raw :=
  omap (fun k => (pair k) <$> field s k) keys.

Section Compile.
Context (compile : string -> option (string -> bool)).

(** [setAll(settings)]: the three fields are assigned before the patterns
    are compiled, so a pattern that throws leaves the old compiled list;
    [.map] exists on arrays only. *)
Definition setAll (s : t) (r : raw) : t * option raw :=
  let res := obj_get r "flowIdExemptUserAgentREs" in
  let with_compiled c := mk (obj_get r "treatEveryoneWithSuspicion") (obj_get r "flowIdRequiredOnLogin") res c in
  if truthy res then
    match res with
    | Some (RArr l) =>
        match mapM compile l with
        | Some c => (with_compiled c, Some (own_properties (with_compiled c)))
        | None => (with_compiled s.(compiledREs), None)
        end
    | _ => (with_compiled s.(compiledREs), None)
    end
  else (with_compiled [], Some (own_properties (with_compiled []))).

#[global] Instance kind : SettingsKind t stored raw := {
  settings_key := "requestChecks"%string;
  Settings.setAll := setAll;
  Settings.validate := validate;
  toJSON s := Object_ (own_properties s) }.

End Compile.

End RequestChecks.

(** ** Lemmas *)

Lemma object_of_set l : object_of l = set_of (filterb (fun k => negb (String.eqb k "__proto__")) l).
Proof.
  unfold object_of, set_of. generalize (@nil string) as acc.
  induction l as [|k l IH]; intros acc; cbn [fold_left filterb]; [done|].
  destruct (String.eqb k "__proto__"); simpl; apply IH.
Qed.

Lemma elem_of_object_of l x : x ∈ object_of l <-> x ∈ l /\ x <> "__proto__"%string.
Proof.
  rewrite object_of_set, elem_of_set_of, elem_of_filterb, negb_true_iff. by rewrite String.eqb_neq.
Qed.

(** Allowlists that hold the same keys behave alike. *)
Definition same_keys {S} (keys : S -> list string) (s s' : S) : Prop :=
  forall k, k ∈ keys s <-> k ∈ keys s'.

#[export] Instance same_keys_equivalence {S} (keys : S -> list string) : Equivalence (same_keys keys).
Proof. split; unfold same_keys; [done|intros ? ? H k; by rewrite H|intros ? ? ? H1 H2 k; by rewrite H1]. Qed.

#[export] Instance allowed_ips_proper :
  Proper (same_keys AllowedIPs.ips ==> (=) ==> (=)) AllowedIPs.isAllowed.
Proof.
  intros s s' H ip ? <-. unfold AllowedIPs.isAllowed, js_truthy_in.
  by rewrite (bool_decide_ext _ _ (H ip)).
Qed.

#[export] Instance allowed_domains_proper :
  Proper (same_keys AllowedEmailDomains.domains ==> (=) ==> (=)) AllowedEmailDomains.isAllowed.
Proof.
  intros s s' H [e|] ? <-; [|done]. unfold AllowedEmailDomains.isAllowed, js_truthy_in.
  destruct (one_line e); [|done]. destruct (AllowedEmailDomains.domain_after false e) as [d|]; [|done].
  by rewrite (bool_decide_ext _ _ (H d)).
Qed.

#[export] Instance allowed_phones_proper :
  Proper (same_keys AllowedPhoneNumbers.phoneNumbers ==> (=) ==> (=)) AllowedPhoneNumbers.isAllowed.
Proof.
  intros s s' H [p|] ? <-; [|done]. unfold AllowedPhoneNumbers.isAllowed. by rewrite (bool_decide_ext _ _ (H p)).
Qed.

#[export] Instance allowed_ips_laws :
  SettingsLaws _ _ _ (fun s => forall k, k ∈ s.(AllowedIPs.ips) -> isIPv4 k = true) (same_keys AllowedIPs.ips).
Proof.
  split; [apply _|done|]. intros s Hs. do 5 eexists. split; [done|]. split; [done|]. split; [done|].
  rewrite filterb_all by done.
  assert (forall k, k ∈ AllowedIPs.ips s -> k <> "__proto__"%string) as Hp by (by intros k Hk%Hs ->).
  split; intros k; simpl; rewrite ?elem_of_object_of; naive_solver.
Qed.

#[export] Instance allowed_domains_laws :
  SettingsLaws _ _ _ (fun s => "__proto__"%string ∉ s.(AllowedEmailDomains.domains))
    (same_keys AllowedEmailDomains.domains).
Proof.
  split; [apply _|done|]. intros s Hs. do 5 eexists. split; [done|]. split; [done|]. split; [done|].
  rewrite filterb_all by done.
  split; intros k; simpl; rewrite ?elem_of_object_of; naive_solver.
Qed.

#[export] Instance allowed_phones_laws :
  SettingsLaws _ _ _ (fun _ => True) (same_keys AllowedPhoneNumbers.phoneNumbers).
Proof.
  split; [apply _|done|]. intros s _. do 5 eexists. split; [done|]. split; [done|]. split; [done|].
  rewrite filterb_all by done. split; intros k; simpl; by rewrite ?elem_of_set_of.
Qed.

Lemma installs {S J V} `{SettingsKind S J V} (s s' : S) (v v' : V) :
  setAll s v = (s', Some v') -> install s v = (s', inl v').
Proof. unfold install. by intros ->. Qed.

(** On a server that starts against an empty memcached, a refresh with
    [pushOnMissing] succeeds, publishes the configured settings, and leaves
    the server with equivalent ones: for every kind of settings. *)
Theorem settings_push_on_missing {S J V M} `{SettingsLaws S J V wf eqv} `{MemcachedLaws M J} now (s : S) (m m1 : M) :
  wf s -> mc_get m (settings_key S) now = inl None ->
  mc_set m (settings_key S) (toJSON s) 0 now = (m1, true) ->
  exists s' v, refresh_pushOnMissing now s m = (s', m1, inl v) /\ eqv s s' /\
    forall t, now <= t -> mc_get m1 (settings_key S) t = inl (Some (toJSON s)).
Proof.
  intros Hwf Hget Hset. destruct (validate_own s Hwf) as (v & s1 & v1 & s2 & v2 & Hv & E1 & E2 & _ & Heq).
  assert (forall t, now <= t -> mc_get m1 (settings_key S) t = inl (Some (toJSON s))) as Hpub.
  { intros t Ht. apply (mc_get_set _ _ _ _ _ _ t Hset Ht). by right. }
  exists s2, v2. split; [|done]. unfold refresh_pushOnMissing, read. rewrite Hget, validate_miss.
  unfold push. rewrite Hset. unfold refresh, read. rewrite Hpub by lia. rewrite Hv.
  by rewrite (installs _ _ _ _ E1), (installs _ _ _ _ E2).
Qed.

(** A poll that cannot read valid settings (memcached down, nothing
    stored, or a value [validate] refuses) leaves the settings untouched. *)
Theorem settings_poll_failure {S J V M} `{SettingsKind S J V} `{Memcached M J} now (s : S) (m : M) :
  (forall o, mc_get m (settings_key S) now = inl o -> exists e, validate s o = inr e) ->
  poll now s m = s.
Proof.
  unfold poll, refresh, read. intros Hr. destruct (mc_get m (settings_key S) now) as [o|]; [|done].
  by destruct (Hr o eq_refl) as [e ->].
Qed.

(** After a hot load the allowlist of addresses is exactly the valid
    IPv4 addresses of the stored array (inherited property names apart). *)
Theorem allowed_ips_hot_load {M} `{Memcached M stored_list} now s (m : M) l ip :
  mc_get m "allowedIPs" now = inl (Some (Array_ l)) ->
  AllowedIPs.isAllowed (poll now s m) ip = (bool_decide (ip ∈ l) && isIPv4 ip) || is_proto_name ip.
Proof.
  intros Hg. unfold poll, refresh, read. cbn [settings_key AllowedIPs.kind]. rewrite Hg. simpl.
  unfold AllowedIPs.isAllowed, js_truthy_in. simpl. f_equal. apply eq_true_iff_eq.
  rewrite bool_decide_eq_true, elem_of_object_of, elem_of_filterb, andb_true_iff, bool_decide_eq_true.
  split; [by intros [[]]|]. intros [? Hi]. repeat split; try done. by intros ->.
Qed.

(** ** E-mail domains *)
Lemma domain_after_none b d : avoids "@" d = true -> AllowedEmailDomains.domain_after b d = None.
Proof.
  revert b. induction d as [|a d IH]; intros b; simpl; [done|]. intros [Ha Hd]%andb_true_iff.
  apply negb_true_iff in Ha. by rewrite IH, Ha, andb_false_r.
Qed.

Lemma domain_after_spec b l d :
  avoids "@" d = true -> str_truthy d = true -> b || str_truthy l = true ->
  AllowedEmailDomains.domain_after b (String.append l (String "@" d)) = Some d.
Proof.
  intros Ad Hd. revert b. induction l as [|a l IH]; intros b Hb; simpl.
  - rewrite domain_after_none by done. by rewrite orb_false_r in Hb; rewrite Hb, Hd.
  - by rewrite IH.
Qed.

Lemma allowed_domain_exact s local domain :
  one_line (String.append local (String "@" domain)) = true -> str_truthy local = true ->
  str_truthy domain = true -> avoids "@" domain = true ->
  AllowedEmailDomains.isAllowed s (Some (String.append local (String "@" domain))) =
  js_truthy_in domain s.(AllowedEmailDomains.domains).
Proof. intros H1 Hl Hd Ad. unfold AllowedEmailDomains.isAllowed. by rewrite H1, domain_after_spec. Qed.

(** ** Request checks *)
Definition checks_typed (s : RequestChecks.t) : Prop :=
  RequestChecks.typeof (s.(RequestChecks.treatEveryoneWithSuspicion)) = "boolean"%string /\
  RequestChecks.typeof (s.(RequestChecks.flowIdRequiredOnLogin)) = "boolean"%string.

Lemma assign_get r key v k :
  obj_get (RequestChecks.assign r key v) k = if String.eqb key k then v else obj_get r k.
Proof. destruct v; simpl; [apply obj_get_set|apply obj_get_delete]. Qed.

(** What [validate] leaves under each key has the type of the current value. *)
Lemma checks_validate_key s r key k :
  RequestChecks.typeof (obj_get (RequestChecks.validate_key s r key) k) =
  if String.eqb key k then RequestChecks.typeof (RequestChecks.field s k)
  else RequestChecks.typeof (obj_get r k).
Proof.
  unfold RequestChecks.validate_key. destruct (String.eqb_spec key k) as [->|Hne]; destr_ifs;
    rewrite ?assign_get, ?String.eqb_refl, ?(proj2 (String.eqb_neq key k)); try done.
  by apply negb_false_iff, String.eqb_eq in Heqb0.
Qed.

Lemma checks_validate_typed s r r' k :
  k ∈ RequestChecks.keys -> RequestChecks.validate s (Some (RequestChecks.Object_ r)) = inl r' ->
  RequestChecks.typeof (obj_get r' k) = RequestChecks.typeof (RequestChecks.field s k).
Proof.
  unfold RequestChecks.keys. intros Hk [= <-]. unfold RequestChecks.keys. cbn [fold_left].
  rewrite !checks_validate_key.
  repeat (apply elem_of_cons in Hk as [->|Hk]; [done|]). by apply elem_of_nil in Hk.
Qed.

Lemma checks_setAll_fields compile s r :
  let s' := (RequestChecks.setAll compile s r).1 in
  s'.(RequestChecks.treatEveryoneWithSuspicion) = obj_get r "treatEveryoneWithSuspicion" /\
  s'.(RequestChecks.flowIdRequiredOnLogin) = obj_get r "flowIdRequiredOnLogin".
Proof.
  unfold RequestChecks.setAll. destruct (RequestChecks.truthy _); [|done].
  destruct (obj_get r "flowIdExemptUserAgentREs") as [[]|]; try done. by destruct (mapM compile l).
Qed.

(** Whatever memcached holds, polling never changes the type of the
    two boolean request checks, even when a stored pattern does not compile. *)
Theorem request_checks_typed compile {M} `{Memcached M RequestChecks.stored} now s (m : M) :
  checks_typed s -> checks_typed (@poll _ _ _ _ (RequestChecks.kind compile) _ now s m).
Proof.
  intros [T1 T2]. unfold poll, refresh, read. cbn [settings_key validate RequestChecks.kind].
  destruct (mc_get m "requestChecks" now) as [o|]; [|done].
  destruct (RequestChecks.validate s o) as [r'|] eqn:E; [|done].
  assert (exists r, o = Some (RequestChecks.Object_ r)) as [r ->] by (destruct o as [[]|]; eauto; done).
  assert (checks_typed (RequestChecks.setAll compile s r').1).
  { destruct (checks_setAll_fields compile s r') as [E1 E2]. unfold checks_typed. rewrite E1, E2.
    rewrite (checks_validate_typed s r r' "treatEveryoneWithSuspicion"),
      (checks_validate_typed s r r' "flowIdRequiredOnLogin");
      solve [done | unfold RequestChecks.keys; set_solver]. }
  unfold install. cbn [setAll RequestChecks.kind].
  by destruct (RequestChecks.setAll compile s r') as [s' []].
Qed.

(** ** Witnesses *)
Definition sample_checks : RequestChecks.t :=
  RequestChecks.mk (Some (RequestChecks.RBool false)) (Some (RequestChecks.RBool true))
    (Some (RequestChecks.RArr [])) [].

Lemma settings_push_on_missing_witness :
  exists s' v, refresh_pushOnMissing (M := gmap string (Limits.stored * Z * Z)) 1000 Limits.sample ∅ =
      (s', (mc_set ∅ (settings_key Limits.t) (toJSON Limits.sample) 0 1000).1, inl v) /\
    limits_eqv Limits.sample s' /\
    forall t, 1000 <= t ->
      mc_get (mc_set (M := gmap string (Limits.stored * Z * Z)) ∅ (settings_key Limits.t) (toJSON Limits.sample) 0 1000).1
        (settings_key Limits.t) t = inl (Some (toJSON Limits.sample)).
Proof.
  apply (settings_push_on_missing (S := Limits.t) (J := Limits.stored) (V := Limits.raw)
    (wf := Limits.derived_ok) (eqv := limits_eqv) 1000 Limits.sample ∅); [|reflexivity|reflexivity].
  exists Limits.sample_settings. reflexivity.
Defined.

Lemma settings_poll_failure_witness :
  poll (M := gmap string (stored_list * Z * Z)) 1000 (AllowedIPs.new ["10.0.0.1"%string])
    {["allowedIPs"%string := (NotArray, 0, 0)]} = AllowedIPs.new ["10.0.0.1"%string].
Proof. apply (settings_poll_failure 1000). intros o [= <-]. by eexists. Defined.

Lemma allowed_ips_hot_load_witness :
  AllowedIPs.isAllowed (poll (M := gmap string (stored_list * Z * Z)) 1000 (AllowedIPs.new [])
    {["allowedIPs"%string := (Array_ ["10.0.0.1"; "1.2.3.400"]%string, 0, 0)]}) "10.0.0.1" =
  (bool_decide ("10.0.0.1"%string ∈ ["10.0.0.1"; "1.2.3.400"]%string) && isIPv4 "10.0.0.1")
    || is_proto_name "10.0.0.1".
Proof. apply (allowed_ips_hot_load 1000). reflexivity. Defined.

Lemma request_checks_typed_witness :
  checks_typed (@poll _ _ _ _ (RequestChecks.kind (fun _ => None)) (gmap_memcached _) 1000 sample_checks
    {["requestChecks"%string :=
        (RequestChecks.Object_ [("treatEveryoneWithSuspicion"%string, RequestChecks.RStr "yes");
           ("flowIdExemptUserAgentREs"%string, RequestChecks.RArr ["("%string])], 0, 0)]}).
Proof. apply (request_checks_typed (fun _ => None)). by split. Defined.
