(* ===== verification/Blocklist.v ===== *)
(** * IP blocklists (packages/fxa-customs-server/lib/ip_blocklist.js and
    ip_blocklist_manager.js)

    A blocklist is loaded from a file of addresses and CIDR ranges and looked
    up by prefix length.  The [ip] package is a library: [ip_mask] and
    [ip_fromPrefixLen] are parameters ([None]: the call throws), and so are
    the files, given by the results of [stat] and [readFile]. *)

From stdpp Require Import pretty.
From S2P Require Import Prelude Text Settings.
From Stdlib Require Import Ascii.

(** ** JavaScript helpers *)

(** [parseInt(s, 10)]: leading blanks, a sign, then the longest run of digits;
    [None] is [NaN]. *)
Fixpoint digits_prefix (acc : num) (s : string) : num :=
  match s with
  | EmptyString => acc
  | String a s' =>
      match digit a with
      | Some d => digits_prefix (Some (10 * or0 acc + d)) s'
      | None => acc
      end
  end.

Definition parseInt (s : string) : num :=
  match trim_start s with
  | String "-" s' => Z.opp <$> digits_prefix None s'
  | String "+" s' => digits_prefix None s'
  | s' => digits_prefix None s'
  end.

(** Array [some] over a callback that may throw. *)
Fixpoint someM {A} (f : A -> option bool) (l : list A) : option bool :=
  match l with
  | [] => Some false
  | x :: l' =>
      match f x with
      | Some b => if b then Some true else someM f l'
      | None => None
      end
  end.

Fixpoint assoc {V} (l : list (num * V)) (k : num) : option V :=
  match l with
  | [] => None
  | (k', v) :: l' => if bool_decide (k' = k) then Some v else assoc l' k
  end.

Fixpoint assoc_set {V} (l : list (num * V)) (k : num) (v : V) : list (num * V) :=
  match l with
  | [] => [(k, v)]
  | (k', v') :: l' => if bool_decide (k' = k) then (k, v) :: l' else (k', v') :: assoc_set l' k v
  end.

Section Blocklist.
Context (ip_mask : string -> string -> option string) (ip_fromPrefixLen : num -> string).
Context (resolve : string -> string).
Context (stat : string -> option (Z * Z)) (readFile : string -> option string).

Definition getBaseIp (addr : string) (prefixLength : num) : option string :=
  ip_mask addr (ip_fromPrefixLen prefixLength).

(** A parsed row: base address and prefix length. *)
Definition Row := (string * num)%type.

(** Outer option: the row throws; inner: it is a comment. *)
Definition parseRow (ipColumn : string) : option (option Row) :=
  match ipColumn with
  | String "#" _ => Some None
  | _ =>
      match split_on "/" ipColumn with
      | [addr; len] =>
          let prefixLength := parseInt len in
          baseIp ← getBaseIp addr prefixLength;
          Some (Some (baseIp, prefixLength))
      | addr :: _ => Some (Some (addr, Some 32))
      | [] => Some None
      end
  end.

Record IPBlocklist := mkBlocklist {
  prefixLengths : list num;
  ipsByPrefixLength : list (num * list string);
  fileLastModified : Z;
  fileSize : Z;
  listPath : string;
  filePath : string;
  logOnly : bool }.

Definition new_IPBlocklist : IPBlocklist := mkBlocklist [] [] 0 0 "" "" false.

(** The rows of a file: trimmed lines, blanks and comments dropped. *)
Definition rows_of (data : string) : list string :=
  filterb (fun line => str_truthy line && negb (String.prefix "#" line)) (trim <$> split_on "010" data).

Definition Tables := (list num * list (num * list string))%type.

(** [table[baseIp] = true] *)
Definition add_ip (ips : list string) (baseIp : string) : list string :=
  if String.eqb baseIp "__proto__" then ips else add_key ips baseIp.

Definition add_row (tb : Tables) (row : string) : option Tables :=
  let '(lens, ips) := tb in
  parsed ← parseRow row;
  match parsed with
  | None => Some tb
  | Some (baseIp, len) =>
      match assoc ips len with
      | None => Some (lens ++ [len], assoc_set ips len (add_ip [] baseIp))
      | Some known => Some (lens, assoc_set ips len (add_ip known baseIp))
      end
  end.

Fixpoint add_rows (tb : Tables) (rows : list string) : option Tables :=
  match rows with
  | [] => Some tb
  | row :: rows' => tb' ← add_row tb row; add_rows tb' rows'
  end.

(** [load(listPath)]: the new state, and whether the promise resolved. *)
Definition load (path : string) (l : IPBlocklist) : IPBlocklist * bool :=
  let fp := resolve path in
  let l1 := mkBlocklist l.(prefixLengths) l.(ipsByPrefixLength) l.(fileLastModified)
    l.(fileSize) path fp l.(logOnly) in
  match stat fp with
  | None => (l1, false)
  | Some (mtime, size) =>
      let l2 := mkBlocklist l.(prefixLengths) l.(ipsByPrefixLength) mtime size path fp l.(logOnly) in
      match readFile fp with
      | None => (l2, false)
      | Some data =>
          match add_rows ([], []) (rows_of data) with
          | None => (l2, false)
          | Some (lens, ips) => (mkBlocklist lens ips mtime size path fp l.(logOnly), true)
          end
      end
  end.

Definition clear (l : IPBlocklist) : IPBlocklist :=
  mkBlocklist [] [] l.(fileLastModified) l.(fileSize) l.(listPath) l.(filePath) l.(logOnly).

(** [contains(ipAddress)]; [None]: an error is thrown. *)
Definition contains (l : IPBlocklist) (ipAddress : string) : option bool :=
  someM (fun len =>
    base ← getBaseIp ipAddress len;
    ips ← assoc l.(ipsByPrefixLength) len;
    Some (js_truthy_in base ips)) l.(prefixLengths).

(** [refresh()]: reloads when the file is newer; errors are only logged. *)
Definition refresh_list (l : IPBlocklist) : IPBlocklist :=
  match stat l.(filePath) with
  | None => l
  | Some (mtime, _) => if mtime >? l.(fileLastModified) then (load l.(filePath) l).1 else l
  end.

(** ** The manager *)

Definition load_list (log_only : bool) (path : string) : IPBlocklist * bool :=
  load path (mkBlocklist [] [] 0 0 "" "" log_only).

(** [load(lists, logOnlyLists)] on arrays. *)
Definition manager_load (lists : list string) (logOnlyLists : option (list string))
    (ipBlocklists : list IPBlocklist) : list IPBlocklist * bool :=
  let loaded := (load_list false <$> lists) ++ (load_list true <$> default [] logOnlyLists) in
  (ipBlocklists ++ (fst <$> loaded), forallb snd loaded).

(** [contains]: every list is asked; a hit on a log-only list does not count. *)
Fixpoint manager_contains (ipBlocklists : list IPBlocklist) (found : bool) (hits : list string)
    (ipAddress : string) : option (bool * list string) :=
  match ipBlocklists with
  | [] => Some (found, hits)
  | l :: ls =>
      match contains l ipAddress with
      | Some true => manager_contains ls (found || negb l.(logOnly)) (hits ++ [l.(listPath)]) ipAddress
      | Some false => manager_contains ls found hits ipAddress
      | None => None
      end
  end.

Definition manager_found (ipBlocklists : list IPBlocklist) (ipAddress : string) : option bool :=
  fst <$> manager_contains ipBlocklists false [] ipAddress.

(** ** What the tables hold *)

Definition row_in (rows : list string) (len : num) (base : string) : Prop :=
  exists row, row ∈ rows /\ parseRow row = Some (Some (base, len)).

(** Invariant of the loop: the lengths seen are the keys of the table, and
    the table holds the base addresses of the rows read. *)
Definition tables_ok (tb : Tables) (rows : list string) : Prop :=
  (forall len, len ∈ tb.1 <-> is_Some (assoc tb.2 len)) /\
  forall len base, base <> "__proto__"%string ->
    ((exists ips, assoc tb.2 len = Some ips /\ base ∈ ips) <-> row_in rows len base).

Lemma assoc_set_get {V} (l : list (num * V)) k v k' :
  assoc (assoc_set l k v) k' = if bool_decide (k = k') then Some v else assoc l k'.
Proof.
  induction l as [|[k0 v0] l IH]; [done|]. cbn [assoc_set].
  destruct (bool_decide_reflect (k0 = k)) as [->|Hne]; cbn [assoc].
  - by destruct (bool_decide (k = k')).
  - rewrite IH. destruct (bool_decide_reflect (k0 = k')) as [<-|]; [|done]. by rewrite bool_decide_false.
Qed.

Lemma elem_of_add_ip ips b x : x <> "__proto__"%string -> x ∈ add_ip ips b <-> x ∈ ips \/ x = b.
Proof.
  intros Hx. unfold add_ip. destruct (String.eqb_spec b "__proto__") as [->|]; [|apply elem_of_add_key].
  naive_solver.
Qed.

Lemma row_in_snoc rows row len base :
  row_in (rows ++ [row]) len base <-> row_in rows len base \/ parseRow row = Some (Some (base, len)).
Proof. unfold row_in. set_solver. Qed.

Lemma add_row_ok tb row rows tb' :
  tables_ok tb rows -> add_row tb row = Some tb' -> tables_ok tb' (rows ++ [row]).
Proof.
  destruct tb as [lens ips]. intros [Hk Ht] H. unfold add_row in H.
  destruct (parseRow row) as [[[b n]|]|] eqn:Ep; cbn [mbind option_bind] in H; [| |done].
  2:{ injection H as <-. split; [done|]. intros len base Hb. rewrite Ht, row_in_snoc, Ep by done. naive_solver. }
  simpl in Hk, Ht.
  destruct (assoc ips n) as [known|] eqn:Ea; injection H as <-; split; simpl; intros len;
    try (intros base Hb; rewrite row_in_snoc, Ep, <- Ht by done); rewrite ?assoc_set_get;
    destruct (bool_decide_reflect (n = len)) as [<-|Hne]; simpl; rewrite ?Ea.
  - rewrite Hk, Ea. naive_solver.
  - apply Hk.
  - split; [intros (? & [= <-] & [?| ->]%elem_of_add_ip); naive_solver|].
    intros [(? & [= <-] & ?)|[= <-]]; eexists; (split; [done|]); apply elem_of_add_ip; auto.
  - naive_solver.
  - set_solver.
  - rewrite elem_of_app, Hk. set_solver.
  - split; [intros (? & [= <-] & [?%elem_of_nil| ->]%elem_of_add_ip); naive_solver|].
    intros [(? & ? & ?)|[= <-]]; [done|]. eexists; split; [done|]. apply elem_of_add_ip; auto.
  - naive_solver.
Qed.

Lemma add_rows_ok tb rows rows' tb' :
  tables_ok tb rows -> add_rows tb rows' = Some tb' -> tables_ok tb' (rows ++ rows').
Proof.
  revert tb rows. induction rows' as [|row rows' IH]; intros tb rows Hok H; cbn [add_rows] in H.
  - injection H as <-. by rewrite app_nil_r.
  - destruct (add_row tb row) as [tb1|] eqn:E; cbn [mbind option_bind] in H; [|done].
    rewrite cons_middle, app_assoc. apply (IH tb1); [|done]. by apply (add_row_ok tb).
Qed.

Lemma load_tables path l l' data :
  load path l = (l', true) -> readFile (resolve path) = Some data ->
  tables_ok (l'.(prefixLengths), l'.(ipsByPrefixLength)) (rows_of data).
Proof.
  unfold load. destruct (stat (resolve path)) as [[mtime size]|]; [|done]. intros H Hr. rewrite Hr in H.
  destruct (add_rows ([], []) (rows_of data)) as [[lens ips]|] eqn:E; [|done]. injection H as <-. simpl.
  apply (add_rows_ok ([], []) []); [|done].
  split; simpl.
  - intros len. split; [by intros ?%elem_of_nil|by intros [? ?]].
  - intros len base _. unfold row_in. split; [by intros (? & ? & _)|by intros (? & ?%elem_of_nil & _)].
Qed.

Lemma someM_total {A} (f : A -> option bool) (g : A -> bool) l :
  (forall x, x ∈ l -> f x = Some (g x)) -> someM f l = Some (existsb g l).
Proof.
  induction l as [|x l IH]; intros H; [done|]. cbn [someM existsb].
  rewrite (H x) by set_solver. destruct (g x); [done|]. apply IH. set_solver.
Qed.

(** The address can be masked at every length of the list, and a masked
    address is not the name of an inherited property. *)
Definition maskable (l : IPBlocklist) (ip : string) : Prop :=
  (forall len, len ∈ l.(prefixLengths) -> is_Some (getBaseIp ip len)) /\
  forall len base, getBaseIp ip len = Some base -> is_proto_name base = false.

(** Some row of the file covers the address. *)
Definition covered (rows : list string) (ip : string) : Prop :=
  exists row base len, row ∈ rows /\ parseRow row = Some (Some (base, len)) /\ getBaseIp ip len = Some base.

Lemma contains_covered l ip rows :
  tables_ok (l.(prefixLengths), l.(ipsByPrefixLength)) rows -> maskable l ip ->
  exists b, contains l ip = Some b /\ (b = true <-> covered rows ip).
Proof.
  intros [Hk Ht] [Hm Hnp]. simpl in Hk, Ht.
  pose (g := fun len => match getBaseIp ip len, assoc l.(ipsByPrefixLength) len with
                        | Some base, Some ips => bool_decide (base ∈ ips) | _, _ => false end).
  exists (existsb g l.(prefixLengths)). split.
  - apply someM_total. intros len Hl. destruct (Hm len Hl) as [base Hb].
    destruct (proj1 (Hk len) Hl) as [ips Hi]. unfold g, js_truthy_in. rewrite Hb, Hi. simpl.
    by rewrite (Hnp _ _ Hb), orb_false_r.
  - assert (forall base len, getBaseIp ip len = Some base -> base <> "__proto__"%string) as Hne.
    { intros base len Hb%Hnp ->. done. }
    rewrite existsb_exists. split.
    + intros (len & _ & Hg). unfold g in Hg.
      destruct (getBaseIp ip len) as [base|] eqn:Hb; [|done].
      destruct (assoc _ len) as [ips|] eqn:Hi; [|done]. apply bool_decide_eq_true in Hg.
      destruct (proj1 (Ht len base (Hne _ _ Hb))) as (row & Hr & Hp); [eauto|]. exists row, base, len. auto.
    + intros (row & base & len & Hr & Hp & Hb).
      destruct (proj2 (Ht len base (Hne _ _ Hb))) as (ips & Hi & Hin); [by exists row|].
      exists len. split; [apply list_elem_of_In, Hk; eauto|]. unfold g. rewrite Hb, Hi.
      by apply bool_decide_eq_true.
Qed.

(** A loaded blocklist answers for the file it was loaded from: it
    contains an address exactly when some row of the file, a single address
    or a CIDR range, covers it. *)
Theorem blocklist_contains_exact path l l' data ip :
  load path l = (l', true) -> readFile (resolve path) = Some data -> maskable l' ip ->
  exists b, contains l' ip = Some b /\ (b = true <-> covered (rows_of data) ip).
Proof. intros Hl Hr. by apply contains_covered, (load_tables path l). Qed.

(** Loading is atomic: a load that fails, at whatever row, keeps the
    tables in use.  But the failed file counts as loaded: polling does not try
    it again until its modification time changes. *)
Theorem blocklist_failed_load path l l' ip :
  load path l = (l', false) ->
  contains l' ip = contains l ip /\ (is_Some (stat (resolve path)) -> refresh_list l' = l').
Proof.
  unfold load. intros H.
  destruct (stat (resolve path)) as [[mtime size]|] eqn:Es.
  - assert (l' = mkBlocklist (prefixLengths l) (ipsByPrefixLength l) mtime size path (resolve path) (logOnly l)) as ->.
    { destruct (readFile (resolve path)) as [data|]; [|by injection H as <-].
      destruct (add_rows ([], []) (rows_of data)) as [[lens ips]|]; [done|by injection H as <-]. }
    split; [done|]. intros _. unfold refresh_list. simpl. rewrite Es.
    by rewrite Z.gtb_ltb, Z.ltb_irrefl.
  - injection H as <-. split; [done|]. by intros [? ?].
Qed.

Lemma manager_contains_total ls found hits ip :
  (forall l, l ∈ ls -> is_Some (contains l ip)) ->
  fst <$> manager_contains ls found hits ip =
  Some (found || existsb (fun l => negb l.(logOnly) && bool_decide (contains l ip = Some true)) ls).
Proof.
  revert found hits. induction ls as [|l ls IH]; intros found hits H; cbn [manager_contains existsb].
  - simpl. by rewrite orb_false_r.
  - destruct (H l) as [b Hb]; [set_solver|]. rewrite Hb. destruct b.
    + rewrite IH by set_solver. rewrite bool_decide_true by done. by rewrite andb_true_r, orb_assoc.
    + rewrite IH by set_solver. rewrite bool_decide_false by done. by rewrite andb_false_r.
Qed.

(** The manager reports an address exactly when a list that is not
    log-only contains it; when any list throws, so does the manager. *)
Theorem blocklist_manager_exact ls ip :
  manager_found ls ip =
  if forallb (fun l => bool_decide (is_Some (contains l ip))) ls
  then Some (existsb (fun l => negb l.(logOnly) && bool_decide (contains l ip = Some true)) ls)
  else None.
Proof.
  unfold manager_found. destruct (forallb _ ls) eqn:E.
  - rewrite manager_contains_total; [done|]. intros l Hl. rewrite forallb_forall in E.
    apply (bool_decide_eq_true_1 (is_Some (contains l ip))). apply E. by apply list_elem_of_In.
  - assert (forall found hits, manager_contains ls found hits ip = None) as ->; [|done].
    induction ls as [|l ls IH]; [done|]. intros found hits. cbn [manager_contains forallb] in *.
    destruct (contains l ip) as [[]|]; [| |done]; apply IH; exact E.
Qed.

End Blocklist.

(** ** Witnesses

    An instance of the library's functions on IPv4 addresses. *)
Definition octets (s : string) : option (list Z) :=
  l ← mapM (decimal 0) (split_on "." s);
  if (length l =? 4)%nat then Some l else None.

Definition dotted (l : list Z) : string := String.concat "." (pretty <$> l).

Definition v4_mask (addr mask : string) : option string :=
  a ← octets addr; m ← octets mask; let r := dotted (zip_with Z.land a m) in if isIPv4 r then Some r else None.

Definition v4_fromPrefixLen (len : num) : string :=
  dotted ((fun i => 256 - 2 ^ (8 - Z.min 8 (Z.max 0 (or0 len - 8 * i)))) <$> [0; 1; 2; 3]).

Definition v4_file : string :=
  String.append "# list" (String "010" (String.append "10.1.2.0/24" (String "010" " 1.2.3.4 "))).

Definition v4_load := load v4_mask v4_fromPrefixLen id (fun _ => Some (7, 30)) (fun _ => Some v4_file).

Definition v4_list : IPBlocklist := (v4_load "bad.netset" new_IPBlocklist).1.

Lemma v4_list_lengths : prefixLengths v4_list = [Some 24; Some 32].
Proof. vm_compute. reflexivity. Qed.

Lemma isIPv4_safe s : isIPv4 s = true -> is_proto_name s = false.
Proof.
  intros H. apply bool_decide_eq_false. unfold object_prototype. intros Hin.
  repeat (apply elem_of_cons in Hin as [->|Hin]; [by vm_compute in H|]). by apply elem_of_nil in Hin.
Qed.

Lemma v4_mask_safe a m base : v4_mask a m = Some base -> is_proto_name base = false.
Proof.
  unfold v4_mask. destruct (octets a), (octets m); try done. cbn [mbind option_bind].
  destruct (isIPv4 _) eqn:E; [|done]. intros [= <-]. by apply isIPv4_safe.
Qed.

Lemma blocklist_contains_exact_witness :
  exists b, contains v4_mask v4_fromPrefixLen v4_list "10.1.2.77" = Some b /\
    (b = true <-> covered v4_mask v4_fromPrefixLen (rows_of v4_file) "10.1.2.77").
Proof.
  apply (blocklist_contains_exact v4_mask v4_fromPrefixLen id (fun _ => Some (7, 30)) (fun _ => Some v4_file)
    "bad.netset" new_IPBlocklist); [vm_compute; reflexivity|reflexivity|].
  split; [|intros len base; apply v4_mask_safe].
  intros len. rewrite v4_list_lengths. intros [->|[->|?%elem_of_nil]%elem_of_cons]%elem_of_cons; [| |done];
    eexists; vm_compute; reflexivity.
Defined.

Lemma blocklist_failed_load_witness :
  let l' := (load v4_mask v4_fromPrefixLen id (fun _ => Some (9, 5)) (fun _ => Some "x/24"%string) "bad.netset" v4_list).1 in
  contains v4_mask v4_fromPrefixLen l' "1.2.3.4" = contains v4_mask v4_fromPrefixLen v4_list "1.2.3.4" /\
  (is_Some (Some (9, 5)) ->
   refresh_list v4_mask v4_fromPrefixLen id (fun _ => Some (9, 5)) (fun _ => Some "x/24"%string) l' = l').
Proof.
  apply (blocklist_failed_load v4_mask v4_fromPrefixLen id (fun _ => Some (9, 5)) (fun _ => Some "x/24"%string)
    "bad.netset" v4_list). vm_compute. reflexivity.
Defined.
