(* ===== verification/UserRules.v ===== *)
(** * User-defined rate limit rules
    (packages/fxa-customs-server/lib/user_defined_rules.js)

    The rules of the configuration are compiled once into a map from actions
    to rule names; every request is then checked against the rules of its
    action. *)

From S2P Require Import Prelude Window Store Limits Text Records.
From S2P Require RuleRecord.

(** The result of a check, as the handlers of lib/server.js build it;
    [undefined] and [null] are [None]. *)
Record Result := mkResult {
  r_block : bool;
  r_blockReason : option string;
  r_retryAfter : Z;
  r_unblock : option bool;
  r_suspect : option bool }.

(** ** Compiling the rules

    A value of the map is the array of rule names, or, because [Array.push]
    returns the new length, a number. *)
Inductive Computed := CArr (names : list string) | CNum (length : Z).

Definition Rules := jsobj RuleRecord.Rule.

(** The callback for one action of the rule [key]; [None]: [items.push] is
    not a function. *)
Definition add_action (key : string) (computed : gmap string Computed) (action : string)
    : option (gmap string Computed) :=
  match computed !! action with
  | None => Some (<[action := CArr [key]]> computed)
  | Some (CArr names) => Some (<[action := CNum (Z.of_nat (length (names ++ [key])))]> computed)
  | Some (CNum n) => if n =? 0 then Some (<[action := CArr [key]]> computed) else None
  end.

Fixpoint add_actions (key : string) (actions : list string) (computed : gmap string Computed)
    : option (gmap string Computed) :=
  match actions with
  | [] => Some computed
  | action :: actions' => c ← add_action key computed action; add_actions key actions' c
  end.

Fixpoint compute_from (rules : Rules) (computed : gmap string Computed) : option (gmap string Computed) :=
  match rules with
  | [] => Some computed
  | (key, rule) :: rules' => c ← add_actions key rule.(RuleRecord.actions) computed; compute_from rules' c
  end.

Definition compute (rules : Rules) : option (gmap string Computed) := compute_from rules ∅.

(** [Math.max(retries)] on an array: the array is converted to a number. *)
Definition max_of_array (retries : list Z) : num :=
  match retries with [] => Some 0 | [x] => Some x | _ => None end.

Section Check.
Context {M : Type} `{Memcached M StoredObject}.
Context (sha256hex : string -> string) (limits : Limits.t) (life : Z) (now : Z).
Context (rules : Rules) (computed : gmap string Computed).

Definition recordKey (ruleName email ip : string) : string :=
  String.append ruleName (String.append ":" (createHashHex sha256hex [email; ip])).

(** One rule: fetch, update, save.  No retry time: an unknown rule or a
    rejected write. *)
Definition check_rule (action email ip ruleName : string) (m : M) : M * option Z :=
  match obj_get rules ruleName with
  | None => (m, None)
  | Some rule =>
      let key := recordKey ruleName email ip in
      let record := fetchRecord (H0 := rule_storable rule) now m key in
      let '(record', retry) := RuleRecord.update rule now action record in
      let '(m', ok) := setRecords [setRecord (H0 := rule_storable rule) limits life now key record'] m in
      (m', if ok then Some retry else None)
  end.

(** [Promise.all(checkRules.map(...))]: every rule runs. *)
Fixpoint check_rules (action email ip : string) (names : list string) (m : M) : M * option (list Z) :=
  match names with
  | [] => (m, Some [])
  | name :: names' =>
      let '(m1, retry) := check_rule action email ip name m in
      let '(m2, retries) := check_rules action email ip names' m1 in
      (m2, w ← retry; ws ← retries; Some (w :: ws))
  end.

Definition apply_retry (maxRetry : num) (result : Result) : Result :=
  let block := num_gtb maxRetry (Some 0) in
  let retryAfter := or0 maxRetry in
  if negb (retryAfter =? 0) && (retryAfter >? result.(r_retryAfter))
  then mkResult block result.(r_blockReason) retryAfter result.(r_unblock) result.(r_suspect)
  else result.

(** [checkUserDefinedRateLimitRules]; no result: the promise is rejected. *)
Definition checkUserDefinedRateLimitRules (result : Result) (action email ip : string) (m : M)
    : M * option Result :=
  match computed !! action with
  | None => (m, Some result)
  | Some (CNum n) =>
      (* [0] is falsy; any other number has no [length] and no [map] *)
      (m, if n =? 0 then Some result else None)
  | Some (CArr []) => (m, Some result)
  | Some (CArr names) =>
      let '(m', retries) := check_rules action email ip names m in
      (m', (fun ws => apply_retry (max_of_array ws) result) <$> retries)
  end.

End Check.

(** ** What the compiled map holds *)

Definition listed (key action : string) (actions : list string) : list string :=
  (fun _ => key) <$> filterb (String.eqb action) actions.

(** The rules that list an action, in order, with repetitions. *)
Fixpoint occurrences (rules : Rules) (action : string) : list string :=
  match rules with
  | [] => []
  | (key, rule) :: rules' => listed key action rule.(RuleRecord.actions) ++ occurrences rules' action
  end.

(** The entry for the rules seen so far. *)
Definition entry (names : list string) : option Computed :=
  match names with
  | [] => None
  | [k] => Some (CArr [k])
  | _ => Some (CNum 2)
  end.

Definition compiled (computed : gmap string Computed) (seen : string -> list string) : Prop :=
  forall action, computed !! action = entry (seen action) /\ (length (seen action) <= 2)%nat.

Lemma add_action_ok key c seen action :
  compiled c seen ->
  let seen' a := seen a ++ listed key a [action] in
  match add_action key c action with
  | Some c' => compiled c' seen'
  | None => (3 <= length (seen' action))%nat
  end.
Proof.
  intros Hc seen'. destruct (Hc action) as [He Hl]. unfold add_action. rewrite He.
  assert (seen' action = seen action ++ [key]) as Ha.
  { unfold seen', listed. cbn [filterb]. by rewrite String.eqb_refl. }
  assert (forall v, entry (seen' action) = Some v -> (length (seen' action) <= 2)%nat ->
    compiled (<[action := v]> c) seen') as Hset.
  { intros v Hv Hn a. destruct (decide (a = action)) as [->|Hne]; [by rewrite lookup_insert_eq|].
    rewrite lookup_insert_ne by done. unfold seen', listed. cbn [filterb].
    rewrite (proj2 (String.eqb_neq a action)) by done. simpl. rewrite app_nil_r. apply Hc. }
  destruct (seen action) as [|k [|k' [|k'' l]]] eqn:Es; simpl in Hl; cbn [entry]; try lia.
  - apply Hset; rewrite Ha; simpl; [done|lia].
  - apply Hset; rewrite Ha; simpl; [done|lia].
  - simpl. rewrite Ha. simpl. lia.
Qed.

Lemma compiled_ext c seen seen' : (forall a, seen a = seen' a) -> compiled c seen -> compiled c seen'.
Proof. intros H Hc a. rewrite <- H. apply Hc. Qed.

Lemma add_actions_ok key actions c seen :
  compiled c seen ->
  match add_actions key actions c with
  | Some c' => compiled c' (fun a => seen a ++ listed key a actions)
  | None => exists a, (3 <= length (seen a ++ listed key a actions))%nat
  end.
Proof.
  revert c seen. induction actions as [|action actions IH]; intros c seen Hc; cbn [add_actions].
  - apply (compiled_ext c seen); [|done]. intros a. unfold listed. simpl. by rewrite app_nil_r.
  - assert (forall a, (seen a ++ listed key a [action]) ++ listed key a actions =
      seen a ++ listed key a (action :: actions)) as Hsplit.
    { intros a. rewrite <- app_assoc. f_equal. unfold listed. by rewrite <- fmap_app, <- filterb_app. }
    pose proof (add_action_ok key c seen action Hc) as Ha. simpl in Ha.
    destruct (add_action key c action) as [c'|]; cbn [mbind option_bind].
    + specialize (IH c' _ Ha). destruct (add_actions key actions c') as [c''|].
      * eapply compiled_ext; [|exact IH]. apply Hsplit.
      * destruct IH as [a Hl]. exists a. by rewrite <- Hsplit.
    + exists action. rewrite <- Hsplit, length_app. lia.
Qed.

Lemma compute_from_ok rules c seen :
  compiled c seen ->
  match compute_from rules c with
  | Some c' => compiled c' (fun a => seen a ++ occurrences rules a)
  | None => exists a, (3 <= length (seen a ++ occurrences rules a))%nat
  end.
Proof.
  revert c seen. induction rules as [|[key rule] rules IH]; intros c seen Hc; cbn [compute_from occurrences].
  - apply (compiled_ext c seen); [|done]. intros a. by rewrite app_nil_r.
  - pose proof (add_actions_ok key rule.(RuleRecord.actions) c seen Hc) as Ha.
    destruct (add_actions key _ c) as [c'|]; cbn [mbind option_bind].
    + specialize (IH c' _ Ha). destruct (compute_from rules c').
      * eapply compiled_ext; [|exact IH]. intros a. simpl. by rewrite app_assoc.
      * destruct IH as [a Hl]. exists a. by rewrite app_assoc.
    + destruct Ha as [a Hl]. exists a. rewrite app_assoc, length_app. lia.
Qed.

Lemma compute_ok rules :
  match compute rules with
  | Some c => compiled c (occurrences rules)
  | None => exists a, (3 <= length (occurrences rules a))%nat
  end.
Proof.
  pose proof (compute_from_ok rules ∅ (fun _ => [])) as H. unfold compute.
  destruct (compute_from rules ∅); apply H; intros a; simpl; split; done || lia.
Qed.

(** The compiled map is usable only for actions listed by one rule: an
    action listed once maps to that rule, one listed twice maps to the number
    2 on which the check rejects every request, and one listed three times
    stops the server at startup. *)
Theorem user_rules_compute_exact {M} `{Memcached M StoredObject} sha limits life now rules action :
  match compute rules with
  | Some c =>
      match occurrences rules action with
      | [] => c !! action = None
      | [k] => c !! action = Some (CArr [k])
      | _ => forall result email ip m,
          checkUserDefinedRateLimitRules sha limits life now rules c result action email ip m = (m, None)
      end
  | None => exists a, (3 <= length (occurrences rules a))%nat
  end.
Proof.
  pose proof (compute_ok rules) as Hc. destruct (compute rules) as [c|]; [|done].
  destruct (Hc action) as [He Hl]. destruct (occurrences rules action) as [|k [|k' l]] eqn:E; [done|done|].
  intros. unfold checkUserDefinedRateLimitRules. by rewrite He.
Qed.

Lemma rule_retry_nonneg rule now action r : 0 <= (RuleRecord.update rule now action r).2.
Proof.
  unfold RuleRecord.update, RuleRecord.hit, RuleRecord.isOverLimit, RuleRecord.retryAfter.
  destr_ifs; cbn [snd]; lia.
Qed.

Section Laws.
Context {M : Type} `{Memcached M StoredObject}.
Context (sha256hex : string -> string) (limits : Limits.t) (life : Z) (now : Z).
Context (rules : Rules).

Lemma check_rules_nonneg action email ip names m m' retries :
  check_rules sha256hex limits life now rules action email ip names m = (m', Some retries) ->
  Forall (fun z => 0 <= z) retries.
Proof.
  revert m m' retries. induction names as [|name names IH]; intros m m' retries E; cbn [check_rules] in E.
  - injection E as <- <-. constructor.
  - destruct (check_rule _ _ _ _ _ action email ip name m) as [m1 [w|]] eqn:E1;
      destruct (check_rules _ _ _ _ _ action email ip names m1) as [m2 [ws|]] eqn:E2; try done.
    injection E as <- <-. constructor; [|eauto]. unfold check_rule in E1.
    destruct (obj_get rules name) as [rule|]; [|done].
    pose proof (rule_retry_nonneg rule now action
      (fetchRecord (H0 := rule_storable rule) now m (recordKey sha256hex name email ip))) as Hn.
    destruct (RuleRecord.update rule now action _) as [r w']. destruct (setRecords _ m) as [? []]; [|done].
    by injection E1 as <- <-.
Qed.

Lemma apply_retry_monotone maxRetry result :
  (forall z, maxRetry = Some z -> 0 <= z) ->
  let result' := apply_retry maxRetry result in
  result.(r_retryAfter) <= result'.(r_retryAfter) /\ (result.(r_block) = true -> result'.(r_block) = true).
Proof.
  intros Hn. unfold apply_retry. destruct (_ && _) eqn:E; simpl; [|split; [lia|done]].
  apply andb_true_iff in E as [E1 E2]. split; [lia|intros _].
  destruct maxRetry as [z|]; [|done]. specialize (Hn z eq_refl). unfold num_gtb, or0, num_or in *. simpl.
  destr_ifs; lia.
Qed.

(** User-defined rules only ever tighten a result: they never shorten
    the retry time and never lift a block. *)
Theorem user_rules_tighten computed result action email ip m m' result' :
  checkUserDefinedRateLimitRules sha256hex limits life now rules computed result action email ip m =
    (m', Some result') ->
  result.(r_retryAfter) <= result'.(r_retryAfter) /\
  (result.(r_block) = true -> result'.(r_block) = true).
Proof.
  unfold checkUserDefinedRateLimitRules. intros E.
  destruct (computed !! action) as [[[|name names]|n]|].
  - injection E as <- <-. split; [lia|done].
  - destruct (check_rules _ _ _ _ _ action email ip (name :: names) m) as [m1 [retries|]] eqn:Er; [|done].
    injection E as <- <-. apply apply_retry_monotone. intros z Hz.
    apply check_rules_nonneg in Er. destruct retries as [|x [|y l]]; simpl in Hz; [injection Hz as <-; lia| |done].
    injection Hz as <-. by inversion Er.
  - destruct (n =? 0); [|done]. injection E as <- <-. split; [lia|done].
  - injection E as <- <-. split; [lia|done].
Qed.

End Laws.

(** ** Witnesses *)
Definition totp_rules : Rules := [("totpCodeRules"%string, RuleRecord.totpCodeRules)].

Definition totp_computed : gmap string Computed := {["verifyTotpCode"%string := CArr ["totpCodeRules"%string]]}.

Lemma totp_compute : compute totp_rules = Some totp_computed.
Proof. reflexivity. Qed.

Definition passing : Result := mkResult false None 0 (Some true) (Some false).

Lemma user_rules_tighten_witness :
  let r := checkUserDefinedRateLimitRules (M := gmap string (StoredObject * Z * Z)) id Limits.sample 900 5000
    totp_rules totp_computed passing "verifyTotpCode" "a@x.org" "1.2.3.4" ∅ in
  match r with
  | (_, Some result') => passing.(r_retryAfter) <= result'.(r_retryAfter) /\
      (passing.(r_block) = true -> result'.(r_block) = true)
  | (_, None) => False
  end.
Proof.
  destruct (checkUserDefinedRateLimitRules _ _ _ _ _ _ passing _ _ _ _) as [m' [result'|]] eqn:E.
  - exact (user_rules_tighten id Limits.sample 900 5000 totp_rules totp_computed passing
      "verifyTotpCode" "a@x.org" "1.2.3.4" _ m' result' E).
  - vm_compute in E. discriminate E.
Defined.
