(* ===== verification/Dataflow.v ===== *)
(** * Manual bans and the Dataflow pipeline
    (packages/fxa-customs-server/lib/bans/handler.js and lib/dataflow.js)

    Both raise flags on the records of an address or of an e-mail. *)

From S2P Require Import Prelude Window Store Limits Reputation Text Records.
From S2P Require EmailRecord IpRecord.

(** A flag to raise; the methods of the same names of both records. *)
Inductive flag := FSuspect | FBlock | FDisable.

Definition raise_ip (f : flag) (now : Z) : IpRecord.t -> IpRecord.t :=
  match f with FSuspect => IpRecord.suspect now | FBlock => IpRecord.block now | FDisable => IpRecord.disable now end.

Definition raise_email (f : flag) (now : Z) : EmailRecord.t -> EmailRecord.t :=
  match f with
  | FSuspect => EmailRecord.suspect now | FBlock => EmailRecord.block now | FDisable => EmailRecord.disable now
  end.

Section Handlers.
Context {M : Type} `{Memcached M StoredObject}.
Context (rep : string -> reputation) (limits : Limits.t) (life : Z) (now : Z).

(** Fetch the record, raise the flag, save: the new store and whether the
    promise resolved. *)
Definition flag_ip (f : flag) (ip : string) (m : M) : M * bool :=
  match ipRecord (fetchRecords now rep m (mkFetch (Some ip) None None None)) with
  | Some r => setRecords [setRecord limits life now ip (raise_ip f now r)] m
  | None => (m, false)
  end.

Definition flag_email (f : flag) (email : string) (m : M) : M * bool :=
  match emailRecord (fetchRecords now rep m (mkFetch None (Some email) None None)) with
  | Some r => setRecords [setRecord limits life now email (raise_email f now r)] m
  | None => (m, false)
  end.

(** ** lib/bans/handler.js *)

Record Ban := mkBan { ban_ip : option string; ban_email : option string }.

Definition blockIp (ip : string) (m : M) : M * bool := flag_ip FBlock ip m.

Definition blockEmail (email : string) (m : M) : M * bool := flag_email FBlock email m.

Definition handleBan (ban : option Ban) (m : M) : M * bool :=
  match ban with
  | Some b =>
      match when_truthy b.(ban_ip) id, when_truthy b.(ban_email) id with
      | Some ip, _ => blockIp ip m
      | None, Some email => blockEmail email m
      | None, None => (m, false)
      end
  | None => (m, false)
  end.

(** ** lib/dataflow.js *)

Record DataflowConfig := mkDataflow { ignoreOlderThan : Z; reportOnly : bool }.

(** [typeof indicator] *)
Inductive indicator := IString (s : string) | IOther.

(** The fields of an action that are used; a field of the wrong type is
    [None], and so is a timestamp that is not a date. *)
Record Action := mkAction {
  a_timestamp : num;
  a_indicator_type : option string;
  a_indicator : indicator;
  a_suggested_action : option string }.

(** A message of the queue: its payload once parsed, [None] when it is not a
    buffer or not the JSON of an object. *)
Record Message := mkMessage { data : option Action; publishTime : num }.

Inductive target := TEmail | TIp.

Definition TYPES (t : string) : option target :=
  if String.eqb t "email" then Some TEmail
  else if String.eqb t "sourceaddress" then Some TIp else None.

Inductive suggestion := Report | Raise (f : flag).

Definition VALID_ACTIONS (a : string) : option suggestion :=
  if String.eqb a "report" then Some Report
  else if String.eqb a "suspect" then Some (Raise FSuspect)
  else if String.eqb a "block" then Some (Raise FBlock)
  else if String.eqb a "disable" then Some (Raise FDisable) else None.

(** [parseMessage], with [assertAction]: [None] when one of them throws. *)
Definition assertAction (a : Action) : option (suggestion * target * string) :=
  sa ← a.(a_suggested_action); s ← VALID_ACTIONS sa;
  it ← a.(a_indicator_type); t ← TYPES it;
  match a.(a_indicator) with
  | IString i => if String.eqb i "" then None else Some (s, t, i)
  | IOther => None
  end.

Definition parseMessage (msg : Message) : option (Action * (suggestion * target * string)) :=
  a ← msg.(data); x ← assertAction a; Some (a, x).

Context (config : DataflowConfig).

Definition isFresh (timestamp : num) : bool :=
  if config.(ignoreOlderThan) >? 0
  then num_gtb timestamp (Some (now - config.(ignoreOlderThan))) else true.

Inductive receipt := Ack | Nack.

Inductive outcome := Reported | Success | Ignored | Error_ | ErrorOld.

(** The [catch] block. *)
Definition failed (msg : Message) : receipt * outcome :=
  if isFresh msg.(publishTime) then (Nack, Error_) else (Ack, ErrorOld).

Definition apply_flag (f : flag) (t : target) (i : string) (m : M) : M * bool :=
  match t with TIp => flag_ip f i m | TEmail => flag_email f i m end.

Definition handleMessage (msg : Message) (m : M) : M * (receipt * outcome) :=
  match parseMessage msg with
  | None => (m, failed msg)
  | Some (a, (s, t, i)) =>
      match s with
      | Report => (m, (Ack, Reported))
      | Raise f =>
          if config.(reportOnly) then (m, (Ack, Reported))
          else if isFresh a.(a_timestamp) then
            let '(m', ok) := apply_flag f t i m in
            if ok then (m', (Ack, Success)) else (m', failed msg)
          else (m, (Ack, Ignored))
      end
  end.

End Handlers.

(** ** Theorems *)

Section Laws.
Context {M : Type} `{MemcachedLaws M StoredObject}.
Context (rep : string -> reputation) (limits : Limits.t) (life : Z) (now : Z).

Lemma setRecords_one (w : M -> M * bool) m : setRecords [w] m = w m.
Proof. cbn [setRecords]. destruct (w m) as [m' b]. by rewrite andb_true_r. Qed.

Lemma flag_ip_spec f ip (m : M) :
  str_truthy ip = true ->
  flag_ip rep limits life now f ip m =
  setRecord limits life now ip (raise_ip f now (fetchRecord now m ip)) m.
Proof.
  intros Hip. unfold flag_ip. cbn [ipRecord fetchRecords f_ip when_truthy]. rewrite Hip. apply setRecords_one.
Qed.

Lemma flag_email_spec f email (m : M) :
  str_truthy email = true ->
  flag_email rep limits life now f email m =
  setRecord limits life now email (raise_email f now (fetchRecord now m email)) m.
Proof.
  intros He. unfold flag_email. cbn [emailRecord fetchRecords f_email when_truthy]. rewrite He. apply setRecords_one.
Qed.

(** The flag raised at [now] is up at [t]: what the records' predicates say. *)
Definition ip_flag_up (f : flag) (t : Z) (r : IpRecord.t) : bool :=
  match f with
  | FSuspect => IpRecord.isSuspected limits t r | FBlock => IpRecord.isBlocked limits t r
  | FDisable => IpRecord.isDisabled limits t r end.

Definition email_flag_up (f : flag) (t : Z) (r : EmailRecord.t) : bool :=
  match f with
  | FSuspect => EmailRecord.isSuspected limits t r | FBlock => EmailRecord.isBlocked limits t r
  | FDisable => EmailRecord.isDisabled limits t r end.

(** How long a flag lasts. *)
Definition flag_interval (f : flag) : option Z :=
  match f with
  | FSuspect => suspectIntervalMs limits | FBlock => Some (blockIntervalMs limits) | FDisable => disableIntervalMs limits
  end.

Lemma ip_flag_up_raise f t r :
  now <> 0 -> ip_flag_up f t (raise_ip f now r) =
  match flag_interval f with Some i => t - now <? i | None => false end.
Proof.
  intros Hn. assert ((now =? 0) = false) as E by lia.
  destruct f; simpl; unfold IpRecord.isSuspected, IpRecord.isBlocked, IpRecord.isDisabled, active_opt, active; simpl;
    [destruct (suspectIntervalMs limits)| |destruct (disableIntervalMs limits)]; rewrite ?E; done.
Qed.

Lemma email_flag_up_raise f t r :
  now <> 0 -> email_flag_up f t (raise_email f now r) =
  match flag_interval f with Some i => t - now <? i | None => false end.
Proof.
  intros Hn. assert ((now =? 0) = false) as E by lia.
  destruct f; simpl; unfold EmailRecord.isSuspected, EmailRecord.isBlocked, EmailRecord.isDisabled, active_opt, active; simpl;
    [destruct (suspectIntervalMs limits)| |destruct (disableIntervalMs limits)]; rewrite ?E; done.
Qed.

(** A block outlives neither the record nor the interval: the lifetime of a
    saved record covers the block interval. *)
Lemma blocked_ip ip (m m' : M) t :
  now <> 0 -> now <= t < now + blockIntervalMs limits -> str_truthy ip = true ->
  flag_ip rep limits life now FBlock ip m = (m', true) ->
  IpRecord.isBlocked limits t (fetchRecord t m' ip) = true.
Proof.
  intros Hn Ht Hip. rewrite flag_ip_spec by done. intros Hs.
  rewrite (fetch_after_set _ _ _ _ _ t _ _ Hs) by
    (cbn [getMinLifetimeMS ip_storable]; unfold IpRecord.getMinLifetimeMS; lia).
  change (ip_flag_up FBlock t (raise_ip FBlock now (fetchRecord now m ip)) = true).
  rewrite ip_flag_up_raise by done. simpl. lia.
Qed.

Lemma blocked_email email (m m' : M) t :
  now <> 0 -> now <= t < now + blockIntervalMs limits -> str_truthy email = true ->
  flag_email rep limits life now FBlock email m = (m', true) ->
  EmailRecord.isBlocked limits t (fetchRecord t m' email) = true.
Proof.
  intros Hn Ht He. rewrite flag_email_spec by done. intros Hs.
  rewrite (fetch_after_set _ _ _ _ _ t _ _ Hs) by
    (cbn [getMinLifetimeMS email_storable]; unfold EmailRecord.getMinLifetimeMS; lia).
  change (email_flag_up FBlock t (raise_email FBlock now (fetchRecord now m email)) = true).
  rewrite email_flag_up_raise by done. simpl. lia.
Qed.

(** A manual ban holds for the whole block interval: whatever else is
    stored, the record of the banned address or e-mail reads as blocked at
    every moment of the [blockIntervalMs] that follow. *)
Theorem ban_lasts ban m m' t :
  now <> 0 -> now <= t < now + blockIntervalMs limits ->
  handleBan rep limits life now (Some ban) m = (m', true) ->
  match when_truthy ban.(ban_ip) id, when_truthy ban.(ban_email) id with
  | Some ip, _ => IpRecord.isBlocked limits t (fetchRecord t m' ip) = true
  | None, Some email => EmailRecord.isBlocked limits t (fetchRecord t m' email) = true
  | None, None => False
  end.
Proof.
  intros Hn Ht. unfold handleBan, when_truthy, id, blockIp, blockEmail.
  destruct (ban_ip ban) as [ip|]; [destruct (str_truthy ip) eqn:Hip|];
    [by apply blocked_ip| |]; destruct (ban_email ban) as [email|]; try done;
    (destruct (str_truthy email) eqn:He; [by apply blocked_email|done]).
Qed.

(** What a message asks for, when it is to be acted upon. *)
Definition request_of (config : DataflowConfig) (msg : Message) : option (flag * target * string) :=
  match parseMessage msg with
  | Some (a, (Raise f, t, i)) =>
      if negb config.(reportOnly) && isFresh now config a.(a_timestamp) then Some (f, t, i) else None
  | _ => None
  end.

Definition target_flag_up (f : flag) (tg : target) (t : Z) (m : M) (i : string) : bool :=
  match tg with
  | TIp => ip_flag_up f t (fetchRecord t m i)
  | TEmail => email_flag_up f t (fetchRecord t m i)
  end.

Lemma apply_flag_up f tg i (m m' : M) t :
  now <> 0 -> now <= t < now + life * 1000 -> str_truthy i = true ->
  apply_flag rep limits life now f tg i m = (m', true) ->
  target_flag_up f tg t m' i = match flag_interval f with Some d => t - now <? d | None => false end.
Proof.
  intros Hn Ht Hi. unfold apply_flag, target_flag_up.
  destruct tg; rewrite ?flag_email_spec, ?flag_ip_spec by done; intros Hs;
    rewrite (fetch_after_set _ _ _ _ _ t _ _ Hs) by lia;
    [by apply email_flag_up_raise|by apply ip_flag_up_raise].
Qed.

Lemma apply_flag_other f tg i (m m' : M) b t k {R} `{Storable R} :
  k <> i -> str_truthy i = true -> apply_flag rep limits life now f tg i m = (m', b) ->
  fetchRecord (R := R) t m' k = fetchRecord t m k.
Proof.
  intros Hk Hi. unfold apply_flag.
  destruct tg; rewrite ?flag_email_spec, ?flag_ip_spec by done; intros Hs;
    by apply (fetch_other_after_set _ _ _ _ _ _ _ _ _ _ (not_eq_sym Hk) Hs).
Qed.

Lemma request_truthy config msg f tg i : request_of config msg = Some (f, tg, i) -> str_truthy i = true.
Proof.
  unfold request_of, parseMessage, assertAction. intros E.
  destruct (data msg) as [a|]; [|done]. cbn [mbind option_bind] in E.
  destruct (a_suggested_action a) as [sa|]; [|done]. cbn [mbind option_bind] in E.
  destruct (VALID_ACTIONS sa) as [s|]; [|done]. cbn [mbind option_bind] in E.
  destruct (a_indicator_type a) as [it|]; [|done]. cbn [mbind option_bind] in E.
  destruct (TYPES it) as [tt|]; [|done]. cbn [mbind option_bind] in E.
  destruct (a_indicator a) as [j|]; [|done]. destruct (String.eqb j "") eqn:Ej; [done|].
  cbn [mbind option_bind] in E. destruct s as [|f']; [done|]. destruct (_ && _); [|done].
  injection E as <- <- <-. unfold str_truthy. by rewrite Ej.
Qed.

(** [handleMessage] from the request a message makes. *)
Lemma handleMessage_request config msg m :
  handleMessage rep limits life now config msg m =
  match request_of config msg with
  | Some (f, tg, i) =>
      let '(m', ok) := apply_flag rep limits life now f tg i m in
      (m', if ok then (Ack, Success) else failed now config msg)
  | None => (m, match parseMessage msg with
                | None => failed now config msg
                | Some (_, (Report, _, _)) => (Ack, Reported)
                | Some (_, (Raise _, _, _)) => (Ack, if config.(reportOnly) then Reported else Ignored)
                end)
  end.
Proof.
  unfold handleMessage, request_of.
  destruct (parseMessage msg) as [[a [[[|f] tg] i]]|]; [done| |done].
  destruct (reportOnly config); [done|]. simpl.
  destruct (isFresh now config (a_timestamp a)); [|done].
  destruct (apply_flag rep limits life now f tg i m) as [m' []]; done.
Qed.

(** Handling a Dataflow message: a message that requests no flag (a
    report, a stale one, an invalid one, or any in report-only mode) leaves
    the store alone; a request raises exactly the flag it names on exactly
    the record it names, for the configured interval; and only a failure of a
    freshly published message is put back on the queue. *)
Theorem dataflow_message config msg m m' rc out :
  handleMessage rep limits life now config msg m = (m', (rc, out)) ->
  (rc = Nack -> out = Error_ /\ isFresh now config msg.(publishTime) = true) /\
  match request_of config msg with
  | None => m' = m
  | Some (f, tg, i) =>
      (forall k R `(Storable R) t, k <> i -> fetchRecord (R := R) t m' k = fetchRecord t m k) /\
      (out = Success -> now <> 0 -> forall t, now <= t < now + life * 1000 ->
        target_flag_up f tg t m' i = match flag_interval f with Some d => t - now <? d | None => false end)
  end.
Proof.
  rewrite handleMessage_request. unfold failed.
  destruct (request_of config msg) as [[[f tg] i]|] eqn:Er.
  - apply request_truthy in Er. destruct (apply_flag rep limits life now f tg i m) as [m1 ok] eqn:Ea.
    intros [= <- E]. split.
    + intros ->. destruct ok; [done|]. by destruct (isFresh now config (publishTime msg)); injection E.
    + split; [intros k R HR t Hk; by apply (apply_flag_other f tg i m m1 ok)|].
      intros -> Hn t Ht. apply (apply_flag_up f tg i m m1); try done.
      destruct ok; [done|]. by destruct (isFresh now config (publishTime msg)).
  - intros [= <- E]. split; [|done]. intros ->.
    destruct (parseMessage msg) as [[a [[[|f] tg] i]]|]; try done.
    by destruct (isFresh now config (publishTime msg)); injection E.
Qed.

(** Dataflow flags are stored under the address as the message spells
    it, while requests look records up under the normalised address: a flag
    for an address that is not in normal form is never seen by them. *)
Theorem dataflow_unnormalised_email config msg f i m m' b t :
  request_of config msg = Some (f, TEmail, i) -> normalizedEmail i <> i ->
  handleMessage rep limits life now config msg m = (m', b) ->
  fetchRecord (R := EmailRecord.t) t m' (normalizedEmail i) = fetchRecord t m (normalizedEmail i).
Proof.
  intros Er Hne. rewrite handleMessage_request, Er.
  destruct (apply_flag rep limits life now f TEmail i m) as [m1 ok] eqn:Ea. intros [= <- _].
  apply (apply_flag_other f TEmail i m m1 ok); [done|by eapply request_truthy|done].
Qed.

End Laws.

(** ** Witnesses *)
Definition sample_dataflow : DataflowConfig := mkDataflow 86400000 false.

Definition block_message (address : string) : Message :=
  mkMessage (Some (mkAction (Some 1000000) (Some "email"%string) (IString address) (Some "block"%string))) (Some 1000000).

Definition handled (address : string) :=
  handleMessage (M := gmap string (StoredObject * Z * Z)) (fun _ => None) Limits.sample 900 1000000 sample_dataflow
    (block_message address) ∅.

Lemma ban_lasts_witness :
  let m' := (handleBan (M := gmap string (StoredObject * Z * Z)) (fun _ => None) Limits.sample 900 1000000
    (Some (mkBan (Some "1.2.3.4"%string) None)) ∅).1 in
  IpRecord.isBlocked Limits.sample 87399999 (fetchRecord 87399999 m' "1.2.3.4") = true.
Proof.
  apply (ban_lasts (fun _ => None) Limits.sample 900 1000000 (mkBan (Some "1.2.3.4"%string) None) ∅);
    [lia|simpl; lia|reflexivity].
Defined.

Lemma dataflow_message_witness :
  (Ack = Nack -> Success = Error_ /\ isFresh 1000000 sample_dataflow (Some 1000000) = true) /\
  (forall k R `(Storable R) t, k <> "bad@x.org"%string ->
    fetchRecord (R := R) t (handled "bad@x.org").1 k = fetchRecord t (∅ : gmap string (StoredObject * Z * Z)) k) /\
  (Success = Success -> 1000000 <> 0 -> forall t, 1000000 <= t < 1000000 + 900 * 1000 ->
    target_flag_up Limits.sample FBlock TEmail t (handled "bad@x.org").1 "bad@x.org" = (t - 1000000 <? 86400000)).
Proof.
  exact (dataflow_message (fun _ => None) Limits.sample 900 1000000 sample_dataflow (block_message "bad@x.org") ∅
    (handled "bad@x.org").1 Ack Success eq_refl).
Defined.

Lemma dataflow_unnormalised_email_witness :
  fetchRecord (R := EmailRecord.t) 1000001 (handled "Bad@x.org").1 (normalizedEmail "Bad@x.org") =
  fetchRecord 1000001 (∅ : gmap string (StoredObject * Z * Z)) (normalizedEmail "Bad@x.org").
Proof.
  apply (dataflow_unnormalised_email (fun _ => None) Limits.sample 900 1000000 sample_dataflow
    (block_message "Bad@x.org") FBlock "Bad@x.org" ∅ _ (Ack, Success));
    [reflexivity|vm_compute; discriminate|reflexivity].
Defined.
