(* ===== verification/Server.v ===== *)
(** * The customs server (packages/fxa-customs-server/lib/server.js)

    The request handlers: what they read, which records they update, which
    violations they report and what they answer.  A handler is a function of
    the server's state (the record store and the violations reported so far);
    the settings, the blocklists and the clock are fixed during a request. *)

From S2P Require Import Prelude Window Store Limits Reputation Text Records Settings Blocklist UserRules Dataflow.
From S2P Require EmailRecord IpRecord IpEmailRecord SmsRecord UidRecord.

(** lib/block_reasons.js *)
Definition IP_IN_BLOCKLIST : string := "ip_in_blocklist".
Definition IP_BAD_REPUTATION : string := "ip_reputation_too_low".
Definition OTHER : string := "other".

(** What a request finds in place. *)
Record Env := mkEnv {
  limits : Limits.t;
  allowedIPs : AllowedIPs.t;
  allowedEmailDomains : AllowedEmailDomains.t;
  allowedPhoneNumbers : AllowedPhoneNumbers.t;
  requestChecks : RequestChecks.t;
  reputationConfig : Reputation.Config;
  reputationClient : string -> Reply;
  ipBlocklist_enable : bool;
  blocklist_contains : string -> option bool;   (* [blockListManager.contains] *)
  sha256hex : string -> string;
  rules : Rules;
  computedRules : gmap string Computed;
  recordLifetimeSeconds : Z;
  now : Z }.

(** The manager of ip_blocklist_manager.js, given its lists. *)
Definition with_blocklists (mask : string -> string -> option string) (fromPrefixLen : num -> string)
    (lists : list IPBlocklist) : string -> option bool := manager_found mask fromPrefixLen lists.

Section Server.
Context {M : Type} `{Memcached M StoredObject}.
Context (env : Env).

Record State := mkState { store : M; reports : list (string * string) }.

Abbreviation lim := env.(limits).
Abbreviation t_now := env.(now).
Abbreviation life := env.(recordLifetimeSeconds).

Definition rep (ip : string) : reputation :=
  Reputation.get env.(reputationConfig) env.(reputationClient) ip.

Definition report (ip violation : string) (s : State) : State :=
  mkState s.(store) (Reputation.report env.(reputationConfig) ip violation s.(reports)).

(** ** Helpers *)

Definition isAllowed (ip : string) (email phoneNumber : option string) : bool :=
  AllowedIPs.isAllowed env.(allowedIPs) ip ||
  AllowedEmailDomains.isAllowed env.(allowedEmailDomains) email ||
  AllowedPhoneNumbers.isAllowed env.(allowedPhoneNumbers) phoneNumber.

Definition otrue (b : option bool) : bool := default false b.

Definition checkAllowlist (result : Result) (ip : string) (email phoneNumber : option string) : Result :=
  if (result.(r_block) || otrue result.(r_suspect)) && isAllowed ip email phoneNumber
  then mkResult false result.(r_blockReason) result.(r_retryAfter) result.(r_unblock) (Some false)
  else result.

Definition optionallyReportIp (result : Result) (ip action : string) (s : State) : State :=
  if result.(r_block) && negb (bool_decide (result.(r_blockReason) = Some IP_BAD_REPUTATION))
  then report ip (String.append "fxa:request.check.block." action) s else s.

(** ** Requests and replies *)

Record CheckPayload := mkPayload {
  p_phoneNumber : option string;
  p_unblockCode : option string;
  p_flowId : option string;         (* [metricsContext.flowId] *)
  p_reason : option string }.

Record CheckRequest := mkCheck {
  q_email : option string;
  q_ip : option string;
  q_action : option string;
  q_userAgent : option string;      (* [headers['user-agent']] *)
  q_payload : CheckPayload }.

Inductive Reply :=
  | MissingParameters                       (* code 400 *)
  | ServerError                             (* code 500 *)
  | Done                                    (* [{}] *)
  | Checked (r : Result)
  | Authenticated (block : bool) (retryAfter : num).

(** ** POST /check *)

Definition blocklisted (ip : string) : option bool :=
  if env.(ipBlocklist_enable) then env.(blocklist_contains) ip else Some false.

Definition isBlockBelow : reputation -> bool := Reputation.isBlockBelow env.(reputationConfig).
Definition isSuspectBelow : reputation -> bool := Reputation.isSuspectBelow env.(reputationConfig).

Definition treatEveryone : bool :=
  RequestChecks.truthy env.(requestChecks).(RequestChecks.treatEveryoneWithSuspicion).

(** A login request without flow id that no exemption covers. *)
Definition missingFlow (action : string) (userAgent : option string) (p : CheckPayload) : bool :=
  String.eqb action "accountLogin" && negb (ostr_truthy p.(p_flowId)) &&
  let isExemptUA := existsb (fun re => re (default "undefined"%string userAgent))
                      env.(requestChecks).(RequestChecks.compiledREs) in
  let isExemptRequest := ostr_truthy p.(p_reason) && negb (bool_decide (p.(p_reason) = Some "signin"%string)) in
  negb isExemptUA && negb isExemptRequest.

(** The records of a request once each has been updated, with the largest
    retry time. *)
Record Updated := mkUpdated {
  u_ip : IpRecord.t; u_email : EmailRecord.t; u_ipEmail : IpEmailRecord.t;
  u_sms : option SmsRecord.t; u_retryAfter : Z }.

Definition updateRecords (action email : string) (unblockCode : bool) (ipR : IpRecord.t) (emailR : EmailRecord.t)
    (ipEmailR : IpEmailRecord.t) (smsR : option SmsRecord.t) : Updated :=
  let '(emailR, blockEmail) := EmailRecord.update lim t_now action unblockCode emailR in
  let '(ipEmailR, blockIpEmail) := IpEmailRecord.update lim t_now action ipEmailR in
  let '(ipR, blockIp) := IpRecord.update lim t_now action (Some email) ipR in
  let '(smsR, blockSMS) :=
    match smsR with
    | Some r => let '(r, w) := SmsRecord.update lim t_now action r in (Some r, w)
    | None => (None, 0)
    end in
  let '(ipEmailR, blockIpEmail) :=
    if blockIpEmail =? 0 then (ipEmailR, blockIpEmail)
    else
      let '(ipEmailR, reset) := IpEmailRecord.unblockIfReset emailR.(EmailRecord.pr) ipEmailR in
      (ipEmailR, if reset then 0 else blockIpEmail) in
  mkUpdated ipR emailR ipEmailR smsR (Z.max (Z.max (Z.max blockEmail blockIpEmail) blockIp) blockSMS).

(** [setRecords(...recordsToSave)] *)
Definition saveRecords (ip email : string) (phoneNumber : option string) (u : Updated) (m : M) : M * bool :=
  setRecords ([setRecord lim life t_now ip u.(u_ip);
               setRecord lim life t_now email u.(u_email);
               setRecord lim life t_now (String.append ip email) u.(u_ipEmail)] ++
              match u.(u_sms), phoneNumber with
              | Some r, Some p => [setRecord lim life t_now p r]
              | _, _ => []
              end) m.

(** The part of [checkRecords] that follows the updates: [None] when the
    blocklist throws. *)
Definition decide_check (action ip : string) (userAgent : option string) (p : CheckPayload)
    (reputation : reputation) (u : Updated) : option (Updated * Result) :=
  let block := u.(u_retryAfter) >? 0 in
  let blockReason := if block then Some OTHER else None in
  let suspect := treatEveryone || isSuspectBelow reputation ||
    IpRecord.isSuspected lim t_now u.(u_ip) || EmailRecord.isSuspected lim t_now u.(u_email) in
  let noFlow := negb block && missingFlow action userAgent p in
  let suspect := suspect || noFlow in
  let block := block ||
    (noFlow && RequestChecks.truthy env.(requestChecks).(RequestChecks.flowIdRequiredOnLogin)) in
  let '(emailR, canUnblock) := EmailRecord.canUnblock lim t_now u.(u_email) in
  let u := mkUpdated u.(u_ip) emailR u.(u_ipEmail) u.(u_sms) u.(u_retryAfter) in
  match blocklisted ip with
  | None => None
  | Some listed =>
      let '(block, blockReason, retryAfter) :=
        if listed then (true, Some IP_IN_BLOCKLIST, 0) else (block, blockReason, u.(u_retryAfter)) in
      let '(block, blockReason, retryAfter) :=
        if isBlockBelow reputation
        then (true, Some IP_BAD_REPUTATION, IpRecord.retryAfter lim t_now u.(u_ip))
        else (block, blockReason, retryAfter) in
      Some (u, mkResult block blockReason retryAfter (Some canUnblock) (Some suspect))
  end.

(** [checkRecords(records)]: the store afterwards, and the result unless the
    promise is rejected. *)
Definition checkRecords (action ip email : string) (userAgent : option string) (p : CheckPayload)
    (ipR : IpRecord.t) (reputation : reputation) (emailR : EmailRecord.t) (ipEmailR : IpEmailRecord.t)
    (smsR : option SmsRecord.t) (m : M) : M * option Result :=
  if IpRecord.isBlocked lim t_now ipR || IpRecord.isDisabled lim t_now ipR
  then (m, Some (mkResult true None (IpRecord.retryAfter lim t_now ipR) None None))
  else
    let u := updateRecords action email (ostr_truthy p.(p_unblockCode)) ipR emailR ipEmailR smsR in
    match decide_check action ip userAgent p reputation u with
    | None => (m, None)
    | Some (u, result) =>
        let '(m', ok) := saveRecords ip email p.(p_phoneNumber) u m in
        (m', if ok then Some result else None)
    end.

(** [handleError]: block on any error of the server. *)
Definition handleError : Result :=
  mkResult true None lim.(rateLimitIntervalSeconds) (Some false) None.

Definition createResponse (result : Result) (ip email : string) (phoneNumber : option string) (action : string)
    (s : State) : State * Reply :=
  let result := checkAllowlist result ip (Some email) phoneNumber in
  (optionallyReportIp result ip action s, Checked result).

(** From [fetchRecords] on, with all parameters present. *)
Definition run_check (action ip email : string) (userAgent : option string) (p : CheckPayload) (s : State)
    : State * Reply :=
  let f := fetchRecords t_now rep s.(store) (mkFetch (Some ip) (Some email) p.(p_phoneNumber) None) in
  match ipRecord f, emailRecord f, ipEmailRecord f with
  | Some ipR, Some emailR, Some ipEmailR =>
      let '(m1, r) := checkRecords action ip email userAgent p ipR (f_reputation f) emailR ipEmailR
                        (smsRecord f) s.(store) in
      match r with
      | None => (mkState m1 s.(reports), Checked handleError)
      | Some result =>
          match checkUserDefinedRateLimitRules env.(sha256hex) lim life t_now env.(rules) env.(computedRules)
                  result action email ip m1 with
          | (m2, None) => (mkState m2 s.(reports), Checked handleError)
          | (m2, Some result) => createResponse result ip email p.(p_phoneNumber) action (mkState m2 s.(reports))
          end
      end
  | _, _, _ => (s, Checked handleError)
  end.

Definition truthy_str (o : option string) : option string := when_truthy o id.

(** [if (payload.phoneNumber) { phoneNumber = payload.phoneNumber; }] *)
Definition clean_payload (p : CheckPayload) : CheckPayload :=
  mkPayload (truthy_str p.(p_phoneNumber)) p.(p_unblockCode) p.(p_flowId) p.(p_reason).

Definition check (q : CheckRequest) (s : State) : State * Reply :=
  match truthy_str q.(q_email), truthy_str q.(q_ip), truthy_str q.(q_action) with
  | Some email, Some ip, Some action =>
      run_check action ip (normalizedEmail email) q.(q_userAgent) (clean_payload q.(q_payload)) s
  | _, _, _ => (s, MissingParameters)
  end.

(** ** POST /checkAuthenticated *)
Definition checkAuthenticated (action ip uid : option string) (s : State) : State * Reply :=
  match truthy_str action, truthy_str ip, truthy_str uid with
  | Some action, Some ip, Some uid =>
      let violation := String.append "fxa:request.checkAuthenticated.block." action in
      let failed m := (report ip violation (mkState m s.(reports)),
                       Authenticated true (Some lim.(blockIntervalSeconds))) in
      match uidRecord (fetchRecords t_now rep s.(store) (mkFetch None None None (Some uid))) with
      | None => failed s.(store)
      | Some r =>
          match UidRecord.addCount lim t_now action r with
          | None => failed s.(store)
          | Some (r, retryAfter) =>
              let '(m, ok) := setRecords [setRecord lim life t_now uid r] s.(store) in
              if ok then
                let block := num_gtb retryAfter (Some 0) in
                let s := mkState m s.(reports) in
                (if block then report ip violation s else s, Authenticated block retryAfter)
              else failed m
          end
      end
  | _, _, _ => (s, MissingParameters)
  end.

(** ** POST /checkIpOnly *)
Definition check_ip_records (action ip : string) (r : IpRecord.t) (reputation : reputation) (m : M)
    : M * option Result :=
  if IpRecord.isBlocked lim t_now r || IpRecord.isDisabled lim t_now r
  then (m, Some (mkResult true None (IpRecord.retryAfter lim t_now r) None None))
  else
    let suspect := treatEveryone || isSuspectBelow reputation in
    let '(r, retryAfter) := IpRecord.update lim t_now action None r in
    let block := retryAfter >? 0 in
    let blockReason := if block then Some OTHER else None in
    match blocklisted ip with
    | None => (m, None)
    | Some listed =>
        let '(block, blockReason, retryAfter) :=
          if listed then (true, Some IP_IN_BLOCKLIST, 0) else (block, blockReason, retryAfter) in
        let '(block, blockReason, retryAfter) :=
          if isBlockBelow reputation
          then (true, Some IP_BAD_REPUTATION, IpRecord.retryAfter lim t_now r)
          else (block, blockReason, retryAfter) in
        let '(m', ok) := setRecords [setRecord lim life t_now ip r] m in
        (m', if ok then Some (mkResult block blockReason retryAfter None (Some suspect)) else None)
    end.

Definition checkIpOnly (action ip : option string) (s : State) : State * Reply :=
  match truthy_str action, truthy_str ip with
  | Some action, Some ip =>
      let f := fetchRecords t_now rep s.(store) (mkFetch (Some ip) None None None) in
      let failed := Checked (mkResult true None lim.(ipRateLimitIntervalSeconds) None None) in
      match ipRecord f with
      | None => (s, failed)
      | Some r =>
          let '(m, res) := check_ip_records action ip r (f_reputation f) s.(store) in
          let s := mkState m s.(reports) in
          match res with
          | None => (s, failed)
          | Some result =>
              let result := checkAllowlist result ip None None in
              (optionallyReportIp result ip action s, Checked result)
          end
      end
  | _, _ => (s, MissingParameters)
  end.

(** ** POST /failedLoginAttempt *)
Definition failedLoginAttempt (email ip : option string) (errno : num) (s : State) : State * Reply :=
  let errno := num_or errno 999 in
  match truthy_str email, truthy_str ip with
  | Some email, Some ip =>
      let email := normalizedEmail email in
      let f := fetchRecords t_now rep s.(store) (mkFetch (Some ip) (Some email) None None) in
      match ipRecord f, emailRecord f, ipEmailRecord f with
      | Some ipR, Some emailR, Some ipEmailR =>
          let ipR := IpRecord.addBadLogin lim t_now (Some email) (Some errno) ipR in
          let ipEmailR := IpEmailRecord.addBadLogin lim t_now ipEmailR in
          let emailR := EmailRecord.addBadLogin lim t_now emailR in
          let '(ipR, over) := IpRecord.isOverBadLogins lim t_now ipR in
          let s := if over then report ip "fxa:request.failedLoginAttempt.isOverBadLogins" s else s in
          let '(m, ok) := setRecords [setRecord lim life t_now ip ipR;
                                      setRecord lim life t_now email emailR;
                                      setRecord lim life t_now (String.append ip email) ipEmailR] s.(store) in
          (mkState m s.(reports), if ok then Done else ServerError)
      | _, _, _ => (s, ServerError)
      end
  | _, _ => (s, MissingParameters)
  end.

(** ** POST /passwordReset *)
Definition passwordReset (email : option string) (s : State) : State * Reply :=
  match truthy_str email with
  | Some email =>
      let email := normalizedEmail email in
      match emailRecord (fetchRecords t_now rep s.(store) (mkFetch None (Some email) None None)) with
      | Some r =>
          let '(m, ok) := setRecords [setRecord lim life t_now email (EmailRecord.passwordReset t_now r)] s.(store) in
          (mkState m s.(reports), if ok then Done else ServerError)
      | None => (s, ServerError)
      end
  | None => (s, MissingParameters)
  end.

(** ** POST /blockEmail and /blockIp *)
Definition blockEmail (email : option string) (s : State) : State * Reply :=
  match truthy_str email with
  | Some email =>
      let '(m, ok) := handleBan rep lim life t_now (Some (mkBan None (Some (normalizedEmail email)))) s.(store) in
      (mkState m s.(reports), if ok then Done else ServerError)
  | None => (s, MissingParameters)
  end.

Definition blockIp (ip : option string) (s : State) : State * Reply :=
  match truthy_str ip with
  | Some ip =>
      let '(m, ok) := handleBan rep lim life t_now (Some (mkBan (Some ip) None)) s.(store) in
      let s := mkState m s.(reports) in
      if ok then (report ip "fxa:request.blockIp" s, Done) else (s, ServerError)
  | None => (s, MissingParameters)
  end.

(** ** GET /limits, /allowedIPs, /allowedEmailDomains, /allowedPhoneNumbers *)
Definition get_limits : Limits.t := lim.
Definition get_allowedIPs : list string := env.(allowedIPs).(AllowedIPs.ips).
Definition get_allowedEmailDomains : list string := env.(allowedEmailDomains).(AllowedEmailDomains.domains).
Definition get_allowedPhoneNumbers : list string := env.(allowedPhoneNumbers).(AllowedPhoneNumbers.phoneNumbers).

End Server.
