(* ===== verification/ServerLaws.v ===== *)
(** * Theorems on the request handlers of the customs server

    What a request to the server of [Server] is answered, and how requests
    compose through the record store. *)

From S2P Require Import Prelude Window Store Actions Limits Reputation Text Records Settings UserRules Dataflow Server.
From S2P Require EmailRecord IpRecord IpEmailRecord SmsRecord UidRecord RuleRecord.

Section Check.
Context {M : Type} `{Memcached M StoredObject}.
Context (env : Env).
Implicit Types (s : State (M := M)) (p : CheckPayload) (r : Result).

Abbreviation lim := env.(limits).
Abbreviation t_now := env.(now).

(** The record of the address, as a request reads it. *)
Definition ip_of s ip : IpRecord.t := fetchRecord t_now s.(store) ip.
Definition email_of s email : EmailRecord.t := fetchRecord t_now s.(store) email.
Definition ip_email_of s ip email : IpEmailRecord.t := fetchRecord t_now s.(store) (String.append ip email).
Definition sms_of s p : option SmsRecord.t := when_truthy p.(p_phoneNumber) (fetchRecord t_now s.(store)).

Definition ip_banned s ip : bool :=
  IpRecord.isBlocked lim t_now (ip_of s ip) || IpRecord.isDisabled lim t_now (ip_of s ip).

Definition checked s action ip email ua p : M * option Result :=
  checkRecords env action ip email ua p (ip_of s ip) (rep env ip) (email_of s email)
    (ip_email_of s ip email) (sms_of s p) s.(store).

Definition ruled m action ip email r : M * option Result :=
  checkUserDefinedRateLimitRules env.(sha256hex) lim env.(recordLifetimeSeconds) t_now env.(rules)
    env.(computedRules) r action email ip m.

Lemma run_check_eq s action ip email ua p :
  str_truthy ip = true -> str_truthy email = true ->
  run_check env action ip email ua p s =
  match checked s action ip email ua p with
  | (m1, None) => (mkState m1 s.(reports), Checked (handleError env))
  | (m1, Some r) =>
      match ruled m1 action ip email r with
      | (m2, None) => (mkState m2 s.(reports), Checked (handleError env))
      | (m2, Some r') => createResponse env r' ip email p.(p_phoneNumber) action (mkState m2 s.(reports))
      end
  end.
Proof.
  intros Hip He. unfold run_check, checked, sms_of, ip_email_of, email_of, ip_of.
  unfold fetchRecords. cbn [ipRecord emailRecord ipEmailRecord smsRecord f_reputation f_ip f_email f_phoneNumber].
  cbn [when_truthy]. rewrite Hip, He. cbn [mbind option_bind id default].
  by destruct (checkRecords _ _ _ _ _ _ _ _ _ _ _ _) as [m1 [r|]].
Qed.

(** A request with all parameters: address, normalised e-mail, action. *)
Definition full_request (q : CheckRequest) (ip email action : string) : Prop :=
  truthy_str q.(q_ip) = Some ip /\ truthy_str q.(q_action) = Some action /\
  exists e, truthy_str q.(q_email) = Some e /\ email = normalizedEmail e.

Lemma truthy_str_some o x : truthy_str o = Some x -> str_truthy x = true.
Proof. unfold truthy_str, when_truthy, id. destruct o as [y|]; [|done]. destruct (str_truthy y) eqn:E; congruence. Qed.

Lemma full_request_truthy q ip email action :
  full_request q ip email action -> str_truthy ip = true /\ str_truthy email = true.
Proof.
  intros (Hip%truthy_str_some & _ & e & He%truthy_str_some & ->). auto using normalizedEmail_truthy.
Qed.

Lemma check_full q ip email action s :
  full_request q ip email action ->
  check env q s = run_check env action ip email q.(q_userAgent) (clean_payload q.(q_payload)) s.
Proof. intros (Hip & Ha & e & He & ->). unfold check. by rewrite He, Hip, Ha. Qed.

(** A request that is not full is refused before anything is read. *)
Lemma check_params q s :
  (exists ip email action, full_request q ip email action) \/ check env q s = (s, MissingParameters).
Proof.
  unfold check, full_request. destruct (truthy_str (q_email q)) as [e|], (truthy_str (q_ip q)) as [ip|],
    (truthy_str (q_action q)) as [a|]; auto. left. exists ip, (normalizedEmail e), a. eauto.
Qed.

Lemma checkAllowlist_allowed r ip email phone :
  isAllowed env ip email phone = true ->
  let r' := checkAllowlist env r ip email phone in r_block r' = false /\ otrue (r_suspect r') = false.
Proof.
  intros Ha. unfold checkAllowlist. rewrite Ha, andb_true_r.
  destruct (r_block r || otrue (r_suspect r)) eqn:E; [done|]. by apply orb_false_iff in E.
Qed.

Lemma checkAllowlist_other r ip email phone :
  isAllowed env ip email phone = false -> checkAllowlist env r ip email phone = r.
Proof. intros Ha. unfold checkAllowlist. by rewrite Ha, andb_false_r. Qed.

Lemma createResponse_reply r ip email phone action s :
  (createResponse env r ip email phone action s).2 = Checked (checkAllowlist env r ip (Some email) phone).
Proof. done. Qed.

(** Allowlisted requests are never blocked nor suspected, whatever the
    records, the blocklists and the reputation say, unless the server itself
    fails; then the request is refused like any other. *)
Theorem check_allowlisted q ip email action s :
  full_request q ip email action ->
  isAllowed env ip (Some email) (truthy_str q.(q_payload).(p_phoneNumber)) = true ->
  exists r, (check env q s).2 = Checked r /\
    (r = handleError env \/ r_block r = false /\ otrue (r_suspect r) = false).
Proof.
  intros Hq Ha. rewrite (check_full q ip email action) by done.
  destruct (full_request_truthy _ _ _ _ Hq) as [Hip He]. rewrite run_check_eq by done.
  destruct (checked s action ip email _ _) as [m1 [r|]]; [|by eauto].
  destruct (ruled m1 action ip email r) as [m2 [r'|]]; [|by eauto].
  rewrite createResponse_reply. eexists. split; [done|]. right. by apply checkAllowlist_allowed.
Qed.

Lemma checked_banned s action ip email ua p :
  ip_banned s ip = true ->
  checked s action ip email ua p =
  (s.(store), Some (mkResult true None (IpRecord.retryAfter lim t_now (ip_of s ip)) None None)).
Proof. intros Hb. unfold checked, checkRecords. unfold ip_banned in Hb. by rewrite Hb. Qed.

Lemma ruled_block m action ip email r m' r' :
  ruled m action ip email r = (m', Some r') -> r_block r = true -> r_block r' = true.
Proof.
  unfold ruled, checkUserDefinedRateLimitRules. intros E Hb.
  destruct (env.(computedRules) !! action) as [[[|name names]|n]|]; try (by injection E as <- <-).
  - destruct (check_rules _ _ _ _ _ _ _ _ _ _) as [m1 [ws|]] eqn:Er; [|done].
    injection E as <- <-. apply apply_retry_monotone; [|done]. intros z Hz.
    apply check_rules_nonneg in Er. destruct ws as [|x [|y l]]; simpl in Hz; [injection Hz as <-; lia| |done].
    injection Hz as <-. by inversion Er.
  - destruct (n =? 0); [|done]. by injection E as <- <-.
Qed.

(** A result that blocks reaches a request that is not allowlisted. *)
Lemma run_check_blocks s action ip email ua p m o :
  str_truthy ip = true -> str_truthy email = true ->
  isAllowed env ip (Some email) p.(p_phoneNumber) = false ->
  checked s action ip email ua p = (m, o) -> (forall x, o = Some x -> r_block x = true) ->
  exists r', (run_check env action ip email ua p s).2 = Checked r' /\ r_block r' = true.
Proof.
  intros Hip He Ha Hc Hr. rewrite run_check_eq, Hc by done.
  destruct o as [r|]; [|by eexists]. specialize (Hr r eq_refl).
  destruct (ruled m action ip email r) as [m2 [r'|]] eqn:Er; [|by eexists].
  rewrite createResponse_reply, checkAllowlist_other by done. eexists. split; [done|].
  by apply (ruled_block _ _ _ _ _ _ _ Er).
Qed.

(** A banned address is refused and leaves no trace: unless it is
    allowlisted, its request is blocked, and no counter of any record changes
    (user-defined rules, which are still counted, apart). *)
Theorem check_banned_ip q ip email action s :
  full_request q ip email action -> ip_banned s ip = true ->
  (isAllowed env ip (Some email) (truthy_str q.(q_payload).(p_phoneNumber)) = false ->
   exists r, (check env q s).2 = Checked r /\ r_block r = true) /\
  (env.(computedRules) !! action = None -> store (check env q s).1 = store s).
Proof.
  intros Hq Hb. rewrite (check_full q ip email action) by done.
  destruct (full_request_truthy _ _ _ _ Hq) as [Hip He]. split.
  - intros Ha. eapply run_check_blocks; [done|done|done|by apply checked_banned|]. by intros x [= <-].
  - intros Hr. rewrite run_check_eq, checked_banned by done.
    unfold ruled, checkUserDefinedRateLimitRules. rewrite Hr. simpl.
    unfold optionallyReportIp. by destruct (_ && _).
Qed.

(** ** The decision *)

(** The records of a request after their updates. *)
Definition updated s action ip email p : Updated :=
  updateRecords env action email (ostr_truthy p.(p_unblockCode)) (ip_of s ip) (email_of s email)
    (ip_email_of s ip email) (sms_of s p).

Definition saved s ip email p (u : Updated) : M * bool :=
  saveRecords env ip email p.(p_phoneNumber) u s.(store).

Lemma email_update_pr t action unblock (r : EmailRecord.t) :
  EmailRecord.pr (EmailRecord.update lim t action unblock r).1 = EmailRecord.pr r.
Proof.
  apply (EmailRecord.update_preserves lim t (fun r' : EmailRecord.t => EmailRecord.pr r' = EmailRecord.pr r)); done.
Qed.

(** How long each record asks the request to wait.  The pair's record asks
    for nothing when the password was reset after it was throttled. *)
Definition email_wait s action email p : Z :=
  (EmailRecord.update lim t_now action (ostr_truthy p.(p_unblockCode)) (email_of s email)).2.

Definition pair_wait s action ip email : Z :=
  let '(r, w) := IpEmailRecord.update lim t_now action (ip_email_of s ip email) in
  if num_gtb (EmailRecord.pr (email_of s email)) r.(IpEmailRecord.rl) then 0 else w.

Definition ip_wait s action ip email : Z := (IpRecord.update lim t_now action (Some email) (ip_of s ip)).2.

Definition sms_wait s action p : Z :=
  match sms_of s p with Some r => (SmsRecord.update lim t_now action r).2 | None => 0 end.

Definition must_wait s action ip email p : bool :=
  existsb (Z.ltb 0) [email_wait s action email p; pair_wait s action ip email; ip_wait s action ip email; sms_wait s action p].

Lemma max_positive a b : (0 <? Z.max a b) = (0 <? a) || (0 <? b).
Proof. destruct (Z.max_spec a b) as [[? ->]|[? ->]]; lia. Qed.

Lemma updated_waits s action ip email p :
  (u_retryAfter (updated s action ip email p) >? 0) = must_wait s action ip email p.
Proof.
  unfold must_wait, email_wait, pair_wait, ip_wait, sms_wait, updated, updateRecords.
  pose proof (email_update_pr t_now action (ostr_truthy (p_unblockCode p)) (email_of s email)) as Hpr.
  destruct (EmailRecord.update _ _ _ _ _) as [emailR w1], (IpEmailRecord.update _ _ _ _) as [pairR w2],
    (IpRecord.update _ _ _ _ _) as [ipR w3]. cbn [fst snd] in *.
  assert (exists smsR w4, match sms_of s p with
    | Some r => let '(r, w) := SmsRecord.update lim t_now action r in (Some r, w) | None => (None, 0) end = (smsR, w4) /\
    match sms_of s p with Some r => (SmsRecord.update lim t_now action r).2 | None => 0 end = w4) as (smsR & w4 & -> & ->)
    by (destruct (sms_of s p) as [r|]; [destruct (SmsRecord.update _ _ _ r)|]; eauto).
  unfold IpEmailRecord.unblockIfReset. rewrite Hpr. cbn [existsb].
  destruct (Z.eqb_spec w2 0) as [->|]; destruct (num_gtb _ _); cbn [u_retryAfter];
    rewrite Z.gtb_ltb, !max_positive, ?Z.ltb_irrefl, ?orb_false_r, ?orb_assoc, ?orb_false_r; done.
Qed.

(** Why a request of an address that is not banned is refused. *)
Definition refused s action ip email ua p (listed : bool) : bool :=
  must_wait s action ip email p ||
  (missingFlow env action ua p &&
    RequestChecks.truthy env.(requestChecks).(RequestChecks.flowIdRequiredOnLogin)) ||
  listed || isBlockBelow env (rep env ip).

Lemma decide_check_spec s action ip email ua p listed :
  blocklisted env ip = Some listed ->
  exists u r, decide_check env action ip ua p (rep env ip) (updated s action ip email p) = Some (u, r) /\
    r_block r = refused s action ip email ua p listed.
Proof.
  intros Hl. unfold decide_check, refused. rewrite Hl, <- updated_waits.
  destruct (u_retryAfter (updated s action ip email p) >? 0), (missingFlow env action ua p),
    (RequestChecks.truthy (RequestChecks.flowIdRequiredOnLogin (requestChecks env))),
    listed, (isBlockBelow env (rep env ip)); simpl; eauto.
Qed.

(** A result that asks to wait blocks. *)
Lemma decide_check_retry action ip ua p rp u u' r :
  decide_check env action ip ua p rp u = Some (u', r) -> 0 < r_retryAfter r -> r_block r = true.
Proof.
  unfold decide_check. destruct (EmailRecord.canUnblock _ _ _). destruct (blocklisted env ip) as [[]|]; [..|done];
    destruct (isBlockBelow env rp); cbn; intros [= <- <-]; cbn; try done; lia.
Qed.

Lemma checked_unbanned s action ip email ua p :
  ip_banned s ip = false ->
  checked s action ip email ua p =
  match decide_check env action ip ua p (rep env ip) (updated s action ip email p) with
  | None => (s.(store), None)
  | Some (u, r) => let '(m', ok) := saved s ip email p u in (m', if ok then Some r else None)
  end.
Proof. intros Hb. unfold checked, checkRecords. unfold ip_banned in Hb. by rewrite Hb. Qed.

(** Every write the request asks for succeeds. *)
Definition store_up : Prop :=
  forall m k v life t, (mc_set (M := M) (V := StoredObject) m k v life t).2 = true.

Lemma setRecords_up (writes : list (M -> M * bool)) m :
  (forall w, w ∈ writes -> forall m, (w m).2 = true) -> (setRecords writes m).2 = true.
Proof.
  revert m. induction writes as [|w writes IH]; intros m Hw; [done|]. cbn [setRecords].
  pose proof (Hw w ltac:(set_solver) m) as H1. destruct (w m) as [m1 ok].
  specialize (IH m1 ltac:(intros w' Hw'; apply Hw; set_solver)).
  destruct (setRecords writes m1) as [m2 oks]. simpl in *. by subst.
Qed.

Lemma saved_up s ip email p u : store_up -> (saved s ip email p u).2 = true.
Proof.
  intros Hup. apply setRecords_up. intros w Hw m.
  assert (forall R (HR : Storable R) k (x : R), (setRecord lim env.(recordLifetimeSeconds) t_now k x m).2 = true) as Hs
    by (intros; apply Hup).
  destruct (u_sms u), (p_phoneNumber p); simpl in Hw;
    repeat (apply elem_of_cons in Hw as [->|Hw]; [apply Hs|]); by apply elem_of_nil in Hw.
Qed.

(** The decision, for an address that is not banned while the store works. *)
Lemma check_decided q ip email action s listed :
  let ua := q.(q_userAgent) in let p := clean_payload q.(q_payload) in
  full_request q ip email action -> ip_banned s ip = false -> store_up ->
  blocklisted env ip = Some listed -> env.(computedRules) !! action = None ->
  exists r, (check env q s).2 = Checked r /\
    r_block r = negb (isAllowed env ip (Some email) p.(p_phoneNumber)) &&
                refused s action ip email ua p listed.
Proof.
  intros ua p Hq Hb Hup Hl Hr. rewrite (check_full q ip email action) by done. fold ua p.
  destruct (full_request_truthy _ _ _ _ Hq) as [Hip He]. rewrite run_check_eq, checked_unbanned by done.
  destruct (decide_check_spec s action ip email ua p listed Hl) as (u & r & -> & Hd).
  pose proof (saved_up s ip email p u Hup) as Hs. destruct (saved s ip email p u) as [m' ok]. simpl in Hs. subst ok.
  unfold ruled, checkUserDefinedRateLimitRules. rewrite Hr, createResponse_reply. eexists. split; [done|].
  destruct (isAllowed env ip (Some email) (p_phoneNumber p)) eqn:Ha.
  - by destruct (checkAllowlist_allowed r ip (Some email) (p_phoneNumber p) Ha).
  - by rewrite checkAllowlist_other.
Qed.

(** The server fails closed: when a blocklist throws or a record cannot
    be saved, the request of an address that is not banned is blocked for
    [rateLimitIntervalSeconds], whoever sends it, and nothing is reported. *)
Theorem check_fails_closed q ip email action s :
  let ua := q.(q_userAgent) in let p := clean_payload q.(q_payload) in
  full_request q ip email action -> ip_banned s ip = false ->
  (blocklisted env ip = None \/
   forall u, (saved s ip email p u).2 = false) ->
  let '(s', reply) := check env q s in
  reply = Checked (mkResult true None lim.(rateLimitIntervalSeconds) (Some false) None) /\
  reports s' = reports s.
Proof.
  intros ua p Hq Hb Hf. rewrite (check_full q ip email action) by done. fold ua p.
  destruct (full_request_truthy _ _ _ _ Hq) as [Hip He]. rewrite run_check_eq, checked_unbanned by done.
  destruct (decide_check env action ip ua p (rep env ip) (updated s action ip email p)) as [[u r]|] eqn:Ed; [|done].
  destruct Hf as [Hl|Hs].
  - exfalso. unfold decide_check in Ed. rewrite Hl in Ed.
    by destruct (EmailRecord.canUnblock _ _ _).
  - specialize (Hs u). destruct (saved s ip email p u) as [m' ok]. simpl in Hs. by subst ok.
Qed.

End Check.

(** ** Requests in sequence *)

(** The server at another moment. *)
Definition at_time (env : Env) (t : Z) : Env :=
  mkEnv env.(limits) env.(allowedIPs) env.(allowedEmailDomains) env.(allowedPhoneNumbers) env.(requestChecks)
    env.(reputationConfig) env.(reputationClient) env.(ipBlocklist_enable) env.(blocklist_contains)
    env.(sha256hex) env.(rules) env.(computedRules) env.(recordLifetimeSeconds) t.

Section Sequence.
Context {M : Type} `{MemcachedLaws M StoredObject}.
Context (env : Env).
Implicit Types (s : State (M := M)).

Abbreviation lim := env.(limits).

(** ** The decision on every branch *)

(** Every write during the request succeeds, or every one is rejected. *)
Definition store_answers (up : bool) : Prop :=
  forall m k v life t, (mc_set (M := M) (V := StoredObject) m k v life t).2 = up.

(** The user-defined rule of an action: the server's map holds the one rule
    that lists the action; an action of several rules always fails. *)
Definition rule_fails action (up : bool) : bool :=
  match occurrences env.(rules) action with [] => false | [_] => negb up | _ => true end.

Definition rule_wait s action ip email : Z :=
  match occurrences env.(rules) action with
  | [k] =>
      match obj_get env.(rules) k with
      | Some rule => (RuleRecord.update rule env.(now) action
          (fetchRecord (H0 := rule_storable rule) env.(now) s.(store) (recordKey env.(sha256hex) k email ip))).2
      | None => 0
      end
  | _ => 0
  end.

(** The record of the rule is none of the others. *)
Definition rule_apart action ip email (phone : option string) : Prop :=
  forall k, occurrences env.(rules) action = [k] ->
    recordKey env.(sha256hex) k email ip ∉ [ip; email; String.append ip email] ++ option_list phone.

(** The server fails: a blocklist throws, a record cannot be saved or the
    rules of the action cannot be used. *)
Definition check_fails s action ip (up : bool) : bool :=
  negb (ip_banned env s ip) && (negb up || bool_decide (blocklisted env ip = None)) || rule_fails action up.

Lemma setRecords_answers up (ws : list (M -> M * bool)) m :
  (forall w, w ∈ ws -> forall m, (w m).2 = up) -> ws <> [] -> (setRecords ws m).2 = up.
Proof.
  intros Hw Hne. destruct up; [by apply setRecords_up|]. destruct ws as [|w ws]; [done|]. cbn [setRecords].
  pose proof (Hw w ltac:(left) m) as Hw1. destruct (w m) as [m1 ok]. cbn in Hw1. subst ok. by destruct (setRecords ws m1).
Qed.

Lemma saved_answers up s ip email p u : store_answers up -> (saved env s ip email p u).2 = up.
Proof.
  intros Hup. apply setRecords_answers; [|done]. intros w Hw m.
  assert (forall R (HR : Storable R) k (x : R), (setRecord lim env.(recordLifetimeSeconds) env.(now) k x m).2 = up) as Hs
    by (intros; apply Hup).
  destruct (u_sms u), (p_phoneNumber p); simpl in Hw;
    repeat (apply elem_of_cons in Hw as [->|Hw]; [apply Hs|]); by apply elem_of_nil in Hw.
Qed.

(** Saving the records of a request leaves every other key alone. *)
Lemma setRecords_other {R} `{Storable R} t key (ws : list (M -> M * bool)) m :
  (forall w, w ∈ ws -> forall m, fetchRecord (R := R) t (w m).1 key = fetchRecord t m key) ->
  fetchRecord (R := R) t (setRecords ws m).1 key = fetchRecord t m key.
Proof.
  revert m. induction ws as [|w ws IH]; intros m Hw; [done|]. cbn [setRecords].
  pose proof (Hw w ltac:(left) m) as Hw1. destruct (w m) as [m1 ok].
  specialize (IH m1 ltac:(intros w' Hw'; apply Hw; by right)). destruct (setRecords ws m1) as [m2 oks]. cbn in *. congruence.
Qed.

Lemma saved_other {R} `{Storable R} t key s ip email p u :
  key ∉ [ip; email; String.append ip email] ++ option_list p.(p_phoneNumber) ->
  fetchRecord (R := R) t (saved env s ip email p u).1 key = fetchRecord t (store s) key.
Proof.
  intros Hk. apply setRecords_other. intros w Hw m.
  assert (forall Q (HQ : Storable Q) k (x : Q), k <> key ->
    fetchRecord (R := R) t (setRecord lim env.(recordLifetimeSeconds) env.(now) k x m).1 key = fetchRecord t m key) as Hs.
  { intros Q HQ k x Hne. destruct (setRecord _ _ _ k x m) as [m' b] eqn:E. by apply (fetch_other_after_set _ _ _ _ _ _ _ _ _ _ Hne E). }
  destruct (u_sms u), (p_phoneNumber p); simpl in Hw, Hk;
    repeat (apply elem_of_cons in Hw as [->|Hw]; [apply Hs; set_solver|]); by apply elem_of_nil in Hw.
Qed.

Lemma checked_spec up s action ip email ua p m o :
  store_answers up -> checked env s action ip email ua p = (m, o) ->
  (if negb (ip_banned env s ip) && (negb up || bool_decide (blocklisted env ip = None)) then o = None
   else exists r, o = Some r /\ (0 < r_retryAfter r -> r_block r = true) /\
     r_block r = ip_banned env s ip || refused env s action ip email ua p (default false (blocklisted env ip))) /\
  forall R (HR : Storable R) key, key ∉ [ip; email; String.append ip email] ++ option_list p.(p_phoneNumber) ->
    fetchRecord (R := R) env.(now) m key = fetchRecord env.(now) (store s) key.
Proof.
  intros Hup. destruct (ip_banned env s ip) eqn:Hb.
  { rewrite checked_banned by done. intros [= <- <-]. cbn. eauto 10. }
  rewrite checked_unbanned by done. destruct (blocklisted env ip) as [listed|] eqn:Hl.
  - destruct (decide_check_spec env s action ip email ua p listed Hl) as (u & r & Hd & Hr). rewrite Hd.
    pose proof (saved_answers up s ip email p u Hup) as Ha.
    pose proof (fun R (HR : Storable R) key => saved_other (R := R) env.(now) key s ip email p u) as Ho.
    destruct (saved env s ip email p u) as [m' ok]. cbn [fst snd] in *. subst ok. intros [= <- <-].
    rewrite bool_decide_eq_false_2 by done. split; [|done]. destruct up; cbn; [|done].
    exists r. split_and!; [done|by eapply decide_check_retry|done].
  - assert (decide_check env action ip ua p (rep env ip) (updated env s action ip email p) = None) as ->
      by (unfold decide_check; rewrite Hl; by destruct (EmailRecord.canUnblock _ _ _)).
    intros [= <- <-]. rewrite bool_decide_eq_true_2 by done. by rewrite orb_true_r.
Qed.

Lemma occurrences_get rls action k l : occurrences rls action = k :: l -> exists rule, obj_get rls k = Some rule.
Proof.
  intros Ho. destruct (obj_get rls k) as [rule|] eqn:E; [eauto|]. exfalso. apply obj_get_none_keys in E. apply E.
  assert (k ∈ occurrences rls action) as Hk by (rewrite Ho; left). clear -Hk.
  induction rls as [|[k' rule] rls IH]; cbn [occurrences] in Hk; [by apply elem_of_nil in Hk|]. rewrite fmap_cons.
  apply elem_of_app in Hk as [(x & -> & _)%list_elem_of_fmap|Hk]; [left|right; auto].
Qed.

Lemma ruled_spec up s m action ip email p r :
  store_answers up -> compute env.(rules) = Some env.(computedRules) -> rule_apart action ip email p ->
  (forall R (HR : Storable R) key, key ∉ [ip; email; String.append ip email] ++ option_list p ->
    fetchRecord (R := R) env.(now) m key = fetchRecord env.(now) (store s) key) ->
  (0 < r_retryAfter r -> r_block r = true) ->
  if rule_fails action up then (ruled env m action ip email r).2 = None
  else exists r', (ruled env m action ip email r).2 = Some r' /\ r_block r' = r_block r || (0 <? rule_wait s action ip email).
Proof.
  intros Hup Hc Hk Hm Hr. pose proof (user_rules_compute_exact env.(sha256hex) lim env.(recordLifetimeSeconds) env.(now)
    env.(rules) action) as Hx. rewrite Hc in Hx. unfold rule_fails, rule_wait, rule_apart, ruled in *.
  destruct (occurrences env.(rules) action) as [|k [|k' l]] eqn:Ho.
  - unfold checkUserDefinedRateLimitRules. rewrite Hx. exists r. split; [done|]. cbn. by rewrite orb_false_r.
  - unfold checkUserDefinedRateLimitRules. rewrite Hx. cbn [check_rules]. unfold check_rule.
    destruct (occurrences_get _ _ _ _ Ho) as [rule Hrule]. rewrite Hrule, Hm by auto.
    pose proof (rule_retry_nonneg rule env.(now) action (fetchRecord (H0 := rule_storable rule) env.(now) (store s)
      (recordKey env.(sha256hex) k email ip))) as Hn.
    destruct (RuleRecord.update _ _ _ _) as [record w]. cbn [snd] in *.
    pose proof (setRecords_answers up [setRecord (H0 := rule_storable rule) lim env.(recordLifetimeSeconds) env.(now)
      (recordKey env.(sha256hex) k email ip) record] m ltac:(intros w' ->%list_elem_of_singleton m'; apply Hup) ltac:(done)) as Ha.
    destruct (setRecords _ m) as [m' ok]. cbn [snd] in Ha. subst ok. destruct up; cbn [negb]; [|done].
    eexists. split; [done|]. cbn [max_of_array]. unfold apply_retry, or0, num_or, num_gtb, num_ltb.
    destruct (Z.eqb_spec w 0) as [->|]; cbn; [by rewrite orb_false_r|].
    destruct (Z.ltb_spec 0 w); [|lia]. rewrite orb_true_r.
    rewrite (proj2 (Z.eqb_neq w 0)) by done. destruct (Z.gtb_spec w (r_retryAfter r)); cbn; [done|]. apply Hr. lia.
  - by rewrite Hx.
Qed.

(** [C30] The decision of /check on every branch, with a store that works or
    rejects every write: when the server fails the request is blocked for
    [rateLimitIntervalSeconds], allowlisted or not; otherwise it is blocked
    exactly when it is not allowlisted and its address is banned, or a record
    of the e-mail, the pair, the address or the phone number asks it to wait
    (the pair's not after a later password reset), or it lacks a required
    flow id, or its address is on a blocklist or has a bad reputation, or the
    user-defined rule of its action asks it to wait. *)
Theorem check_decision q ip email action s up :
  let ua := q.(q_userAgent) in let p := clean_payload q.(q_payload) in
  full_request q ip email action -> compute env.(rules) = Some env.(computedRules) -> store_answers up ->
  rule_apart action ip email p.(p_phoneNumber) ->
  exists r, (check env q s).2 = Checked r /\
    if check_fails s action ip up then r = handleError env
    else r_block r = negb (isAllowed env ip (Some email) p.(p_phoneNumber)) &&
      (ip_banned env s ip || refused env s action ip email ua p (default false (blocklisted env ip)) ||
       (0 <? rule_wait s action ip email)).
Proof.
  intros ua p Hq Hc Hup Hk. rewrite (check_full env q ip email action) by done. fold ua p.
  destruct (full_request_truthy _ _ _ _ Hq) as [Hip He]. rewrite run_check_eq by done.
  destruct (checked env s action ip email ua p) as [m o] eqn:Ec.
  destruct (checked_spec up s action ip email ua p m o Hup Ec) as [Ho Hm]. unfold check_fails.
  destruct (negb (ip_banned env s ip) && _); [subst o; cbn [orb]; by eexists|]. destruct Ho as (r & -> & Hr & Hb). cbn [orb].
  pose proof (ruled_spec up s m action ip email _ r Hup Hc Hk Hm Hr) as Hx.
  destruct (ruled env m action ip email r) as [m2 o2]. cbn [snd] in Hx.
  destruct (rule_fails action up); [subst o2; by eexists|]. destruct Hx as (r' & -> & Hb').
  rewrite createResponse_reply. eexists. split; [done|]. rewrite <- Hb, <- Hb'.
  destruct (isAllowed env ip (Some email) (p_phoneNumber p)) eqn:Ha.
  - by destruct (checkAllowlist_allowed env r' ip (Some email) (p_phoneNumber p) Ha).
  - by rewrite checkAllowlist_other.
Qed.

(** After /blockIp, every /check of that address is blocked for the
    whole block interval, unless the request is allowlisted. *)
Theorem blockIp_then_check t0 t q ip email action s s' :
  t0 <> 0 -> t0 <= t < t0 + blockIntervalMs lim ->
  blockIp (at_time env t0) (Some ip) s = (s', Done) -> full_request q ip email action ->
  isAllowed env ip (Some email) (truthy_str q.(q_payload).(p_phoneNumber)) = false ->
  exists r, (check (at_time env t) q s').2 = Checked r /\ r_block r = true.
Proof.
  intros Hn Ht Hbl Hq Ha. destruct (full_request_truthy _ _ _ _ Hq) as [Hip He].
  assert (IpRecord.isBlocked lim t (fetchRecord t (store s') ip) = true) as Hb.
  { unfold blockIp in Hbl. unfold truthy_str, when_truthy, id in Hbl. rewrite Hip in Hbl.
    destruct (handleBan _ _ _ _ _ (store s)) as [m' ok] eqn:Eb. destruct ok; [|done]. injection Hbl as <-.
    unfold handleBan in Eb. cbn [ban_ip when_truthy] in Eb. rewrite Hip in Eb.
    by apply (blocked_ip _ _ _ _ _ _ _ _ Hn Ht Hip) in Eb. }
  rewrite (check_full (at_time env t) q ip email action) by done.
  eapply (run_check_blocks (at_time env t)); [done|done|done|apply checked_banned|].
  - unfold ip_banned, ip_of. simpl. by rewrite Hb.
  - by intros x [= <-].
Qed.

Lemma setRecords_cons (w : M -> M * bool) ws m m' :
  setRecords (w :: ws) m = (m', true) ->
  exists m1, w m = (m1, true) /\ setRecords ws m1 = (m', true).
Proof.
  cbn [setRecords]. destruct (w m) as [m1 ok]. destruct (setRecords ws m1) as [m2 oks] eqn:E.
  intros [= <- [-> ->]%andb_true_iff]. eauto.
Qed.

Lemma append_ne (a b : string) : str_truthy a = true -> b <> String.append a b.
Proof.
  intros Ha Hab. destruct a as [|c a]; [done|].
  assert (String.length (String.append a b) = (String.length a + String.length b)%nat) as Hl.
  { clear. induction a as [|d a IH]; [done|].
    change (S (String.length (String.append a b)) = S (String.length a + String.length b)). by rewrite IH. }
  apply (f_equal String.length) in Hab.
  change (String.length b = S (String.length (String.append a b))) in Hab. rewrite Hl in Hab. lia.
Qed.

End Sequence.

#[local] Opaque Limits.reload.

(** Once the limits have been hot-loaded, from whatever stored object,
    the suspect and disable flags of the Dataflow pipeline have no effect on
    any record, whenever they were raised. *)
Theorem reload_voids_flags l r r' l' f t ipR emailR :
  Limits.validate l (Limits.Object_ r) = inl r' -> Limits.setAll r' = Some l' -> f <> FBlock ->
  ip_flag_up l' f t ipR = false /\ email_flag_up l' f t emailR = false.
Proof.
  intros [= <-] [Hs Hd]%Limits.setAll_flag_intervals Hf.
  rewrite Limits.reload_flag_interval in Hs, Hd by set_solver.
  destruct f; [|done|]; unfold ip_flag_up, email_flag_up, IpRecord.isSuspected, IpRecord.isDisabled,
    EmailRecord.isSuspected, EmailRecord.isDisabled; rewrite ?Hs, ?Hd; done.
Qed.

#[local] Transparent Limits.reload.

(** ** Witnesses *)

Definition mem := gmap string (StoredObject * Z * Z).

(** The default configuration. *)
Definition sample_env (t : Z) : Env :=
  mkEnv Limits.sample (AllowedIPs.new []) (AllowedEmailDomains.new ["restmail.net"%string]) (AllowedPhoneNumbers.new [])
    sample_checks (Reputation.mkConfig true true 60 20) (fun _ => NoResponse) true
    (fun ip => Some (String.eqb ip "6.6.6.6")) id totp_rules totp_computed 900 t.

Definition no_payload : CheckPayload := mkPayload None None (Some "flow"%string) None.

Definition login (email ip : string) : CheckRequest :=
  mkCheck (Some email) (Some ip) (Some "accountLogin"%string) None no_payload.

Definition empty : State (M := mem) := mkState ∅ [].

Definition banned_state : State (M := mem) := (blockIp (sample_env 1000) (Some "1.2.3.4"%string) empty).1.

Lemma login_full email ip :
  str_truthy email = true -> str_truthy ip = true ->
  full_request (login email ip) ip (normalizedEmail email) "accountLogin".
Proof.
  intros He Hi. unfold full_request, truthy_str, when_truthy. simpl. rewrite He, Hi. eauto.
Qed.

Lemma check_allowlisted_witness :
  exists r, (check (sample_env 2000) (login "qa@restmail.net" "1.2.3.4") banned_state).2 = Checked r /\
    (r = handleError (sample_env 2000) \/ r_block r = false /\ otrue (r_suspect r) = false).
Proof.
  apply (check_allowlisted (sample_env 2000) _ "1.2.3.4" "qa@restmail.net" "accountLogin");
    [by apply (login_full "qa@restmail.net")|vm_compute; reflexivity].
Defined.

Lemma check_banned_ip_witness :
  (isAllowed (sample_env 2000) "1.2.3.4" (Some "a@x.org"%string) None = false ->
   exists r, (check (sample_env 2000) (login "a@x.org" "1.2.3.4") banned_state).2 = Checked r /\
     r_block r = true) /\
  (totp_computed !! "accountLogin"%string = None ->
   store (check (sample_env 2000) (login "a@x.org" "1.2.3.4") banned_state).1 = store banned_state).
Proof.
  apply (check_banned_ip (sample_env 2000) (login "a@x.org" "1.2.3.4") "1.2.3.4" "a@x.org" "accountLogin" banned_state);
    [by apply (login_full "a@x.org")|vm_compute; reflexivity].
Defined.

(** A request of a blocklisted address, and one of an action with a rule. *)
Lemma check_decision_witness :
  (exists r, (check (sample_env 2000) (login "a@x.org" "6.6.6.6") empty).2 = Checked r /\ r_block r = true) /\
  exists r, (check (sample_env 1600000000000) (mkCheck (Some "a@x.org") (Some "1.2.3.4") (Some "verifyTotpCode") None no_payload)%string
    empty).2 = Checked r /\ r_block r = false.
Proof.
  assert (store_answers (M := mem) true) as Hup by (by intros m k v life t). split.
  - destruct (check_decision (sample_env 2000) (login "a@x.org" "6.6.6.6") "6.6.6.6" "a@x.org" "accountLogin" empty true)
      as (r & Hr & Hb); [by apply (login_full "a@x.org")|reflexivity|done|intros k; discriminate|].
    exists r. split; [exact Hr|]. vm_compute in Hb. exact Hb.
  - destruct (check_decision (sample_env 1600000000000)
      (mkCheck (Some "a@x.org") (Some "1.2.3.4") (Some "verifyTotpCode") None no_payload)%string "1.2.3.4" "a@x.org"
      "verifyTotpCode" empty true) as (r & Hr & Hb).
    + split; [reflexivity|]. split; [reflexivity|]. exists "a@x.org"%string. split; reflexivity.
    + reflexivity.
    + done.
    + intros k [= <-]. apply (bool_decide_unpack _). vm_compute. exact I.
    + exists r. split; [exact Hr|]. vm_compute in Hb. exact Hb.
Defined.

Definition broken_lists (t : Z) : Env :=
  mkEnv Limits.sample (AllowedIPs.new []) (AllowedEmailDomains.new []) (AllowedPhoneNumbers.new [])
    sample_checks (Reputation.mkConfig true true 60 20) (fun _ => NoResponse) true
    (fun _ => None) id totp_rules totp_computed 900 t.

Lemma check_fails_closed_witness :
  let '(s', reply) := check (broken_lists 2000) (login "a@x.org" "1.2.3.4") empty in
  reply = Checked (mkResult true None 900 (Some false) None) /\ reports s' = reports empty.
Proof.
  apply (check_fails_closed (broken_lists 2000) (login "a@x.org" "1.2.3.4") "1.2.3.4" "a@x.org" "accountLogin" empty);
    [by apply (login_full "a@x.org")|vm_compute; reflexivity|left; reflexivity].
Defined.

Lemma blockIp_then_check_witness :
  exists r, (check (sample_env 80000000) (login "a@x.org" "1.2.3.4") banned_state).2 = Checked r /\ r_block r = true.
Proof.
  apply (blockIp_then_check (sample_env 0) 1000 80000000 (login "a@x.org" "1.2.3.4") "1.2.3.4" "a@x.org" "accountLogin"
    empty banned_state); [lia|simpl; lia|vm_compute; reflexivity|by apply (login_full "a@x.org")|vm_compute; reflexivity].
Defined.

Lemma reload_voids_flags_witness :
  ip_flag_up (Limits.without_intervals Limits.sample) FDisable 2000 (IpRecord.disable 1000 (IpRecord.parse None)) = false /\
  email_flag_up (Limits.without_intervals Limits.sample) FDisable 2000 (EmailRecord.disable 1000 EmailRecord.fresh) = false.
Proof.
  apply (reload_voids_flags Limits.sample (Limits.own_properties Limits.sample)
    (Limits.reload Limits.sample (Limits.own_properties Limits.sample)));
    [reflexivity|vm_compute; reflexivity|discriminate].
Defined.
