(* ===== verification/Recovery.v ===== *)
(** * Lockouts end

    All handlers of the customs server as one system: which keys of the store
    a request may write, and that whatever happened, an address, e-mail and
    phone number that nobody asks about for the lifetime of a record is
    treated as if it were new. *)

From S2P Require Import Prelude Window Store Actions Limits Reputation Text Records Settings UserRules Dataflow Server ServerLaws.
From S2P Require EmailRecord IpRecord IpEmailRecord SmsRecord UidRecord RuleRecord.

(** ** Requests *)

Inductive CustomsRequest :=
  | QCheck (q : CheckRequest)
  | QAuthenticated (action ip uid : option string)
  | QIpOnly (action ip : option string)
  | QFailedLogin (email ip : option string) (errno : num)
  | QPasswordReset (email : option string)
  | QBlockEmail (email : option string)
  | QBlockIp (ip : option string)
  | QDataflow (config : DataflowConfig) (msg : Message).

(** The keys of the records of an address, an e-mail and a phone number. *)
Definition record_keys (ip email : string) (phone : option string) : list string :=
  [ip; email; String.append ip email] ++ match phone with Some p => [p] | None => [] end.

Section Requests.
Context {M : Type} `{Memcached M StoredObject}.

Definition handle (env : Env) (q : CustomsRequest) (s : State (M := M)) : State (M := M) :=
  match q with
  | QCheck q => (check env q s).1
  | QAuthenticated action ip uid => (checkAuthenticated env action ip uid s).1
  | QIpOnly action ip => (checkIpOnly env action ip s).1
  | QFailedLogin email ip errno => (failedLoginAttempt env email ip errno s).1
  | QPasswordReset email => (passwordReset env email s).1
  | QBlockEmail email => (blockEmail env email s).1
  | QBlockIp ip => (blockIp env ip s).1
  | QDataflow config msg =>
      mkState (handleMessage (rep env) env.(limits) env.(recordLifetimeSeconds) env.(now) config msg s.(store)).1 s.(reports)
  end.

(** A history of requests, the latest first. *)
Fixpoint handle_all (h : list (Env * CustomsRequest)) (s : State (M := M)) : State (M := M) :=
  match h with [] => s | (env, q) :: h => handle env q (handle_all h s) end.

(** ** What a request writes *)

(** [m'] is [m] after writes to keys of [K] at [now], with lifetimes up to
    [L]. *)
Inductive writes (K : string -> Prop) (L now : Z) : M -> M -> Prop :=
  | writes_none m : writes K L now m m
  | writes_set m k v life m1 b m2 :
      K k -> 0 < life <= L -> mc_set (V := StoredObject) m k v life now = (m1, b) -> writes K L now m1 m2 ->
      writes K L now m m2.

Lemma writes_trans K L now m1 m2 m3 : writes K L now m1 m2 -> writes K L now m2 m3 -> writes K L now m1 m3.
Proof. induction 1; eauto using writes. Qed.

(** The lifetimes that the settings of a request give to records. *)
Definition lifetimes (env : Env) : list Z :=
  let l := env.(limits) in
  [env.(recordLifetimeSeconds) * 1000; EmailRecord.getMinLifetimeMS l; IpRecord.getMinLifetimeMS l;
   IpEmailRecord.getMinLifetimeMS l; SmsRecord.getMinLifetimeMS l; UidRecord.getMinLifetimeMS l] ++
  ((fun kr => RuleRecord.getMinLifetimeMS kr.2) <$> env.(rules)).

Definition lifetimes_within (L : Z) (env : Env) : Prop :=
  0 < env.(recordLifetimeSeconds) /\ Forall (fun x => x <= L) (lifetimes env).

(** The keys a request may write. *)
Definition rule_keys (env : Env) (email ip : string) : list string :=
  (fun kr => recordKey env.(sha256hex) kr.1 email ip) <$> env.(rules).

Definition touched (env : Env) (q : CustomsRequest) : list string :=
  match q with
  | QCheck q =>
      let ip := default ""%string q.(q_ip) in let email := normalizedEmail (default ""%string q.(q_email)) in
      record_keys ip email (truthy_str q.(q_payload).(p_phoneNumber)) ++ rule_keys env email ip
  | QAuthenticated _ _ uid => [default ""%string uid]
  | QIpOnly _ ip => [default ""%string ip]
  | QFailedLogin email ip _ => record_keys (default ""%string ip) (normalizedEmail (default ""%string email)) None
  | QPasswordReset email | QBlockEmail email => [normalizedEmail (default ""%string email)]
  | QBlockIp ip => [default ""%string ip]
  | QDataflow _ msg => match parseMessage msg with Some (_, (_, _, i)) => [i] | None => [] end
  end.

Section Writes.
Context (env : Env) (L : Z) (K : string -> Prop).
Hypothesis Hlife : lifetimes_within L env.

Abbreviation wr := (writes K L env.(now)).
Abbreviation save := (setRecord env.(limits) env.(recordLifetimeSeconds) env.(now)).

Lemma within_bounds x : x ∈ lifetimes env -> 0 < Z.max (env.(recordLifetimeSeconds) * 1000) x <= L.
Proof.
  destruct Hlife as [Hp Hall]. rewrite Forall_forall in Hall. intros Hx. apply Hall in Hx.
  assert (env.(recordLifetimeSeconds) * 1000 <= L) by (apply Hall; left). lia.
Qed.

(** One record. *)
Definition saving (w : M -> M * bool) : Prop := forall m, wr m (w m).1.

Lemma save_writes {R} `{Storable R} key (r : R) :
  K key -> getMinLifetimeMS env.(limits) r ∈ lifetimes env -> saving (save key r).
Proof.
  intros Hk Hl m. unfold setRecord. destruct (mc_set m key (marshall r) _ _) as [m1 b] eqn:E.
  eapply writes_set; [exact Hk|by apply within_bounds|exact E|constructor].
Qed.

Lemma setRecords_writes ws m : Forall saving ws -> wr m (setRecords ws m).1.
Proof.
  intros Hf. revert m. induction Hf as [|w ws Hw _ IH]; intros m; [constructor|]. cbn [setRecords].
  specialize (Hw m). destruct (w m) as [m1 ok]. specialize (IH m1). destruct (setRecords ws m1) as [m2 oks].
  by eapply writes_trans.
Qed.

Lemma save_ip key (r : IpRecord.t) : K key -> saving (save key r).
Proof. intros. apply save_writes; [done|]. cbn. set_solver. Qed.

Lemma save_email key (r : EmailRecord.t) : K key -> saving (save key r).
Proof. intros. apply save_writes; [done|]. cbn. set_solver. Qed.

Lemma save_pair key (r : IpEmailRecord.t) : K key -> saving (save key r).
Proof. intros. apply save_writes; [done|]. cbn. set_solver. Qed.

Lemma save_sms key (r : SmsRecord.t) : K key -> saving (save key r).
Proof. intros. apply save_writes; [done|]. cbn. set_solver. Qed.

Lemma save_uid key (r : UidRecord.t) : K key -> saving (save key r).
Proof. intros. apply save_writes; [done|]. cbn. set_solver. Qed.

Lemma check_rules_writes action email ip names m :
  (forall k, k ∈ rule_keys env email ip -> K k) ->
  wr m (check_rules env.(sha256hex) env.(limits) env.(recordLifetimeSeconds) env.(now) env.(rules) action email ip names m).1.
Proof.
  intros HK. revert m. induction names as [|name names IH]; intros m; [constructor|]. cbn [check_rules].
  destruct (check_rule _ _ _ _ _ _ _ _ _ m) as [m1 retry] eqn:E. specialize (IH m1).
  destruct (check_rules _ _ _ _ _ _ _ _ _ m1) as [m2 retries]. cbn in *. eapply writes_trans; [|exact IH].
  unfold check_rule in E. destruct (obj_get (rules env) name) as [rule|] eqn:Hr; [|injection E as <- _; constructor].
  apply obj_get_elem in Hr. destruct (RuleRecord.update _ _ _ _) as [record retry'].
  set (ws := [_]) in E. assert (wr m (setRecords ws m).1) as Hw.
  { apply setRecords_writes. constructor; [|constructor]. apply save_writes.
    - apply HK. apply list_elem_of_fmap. by exists (name, rule).
    - unfold lifetimes. apply elem_of_app. right. apply list_elem_of_fmap. by exists (name, rule). }
  destruct (setRecords ws m) as [m3 ok]. by injection E as <- _.
Qed.

Lemma rules_writes result action email ip m :
  (forall k, k ∈ rule_keys env email ip -> K k) ->
  wr m (checkUserDefinedRateLimitRules env.(sha256hex) env.(limits) env.(recordLifetimeSeconds) env.(now) env.(rules)
          env.(computedRules) result action email ip m).1.
Proof.
  intros HK. unfold checkUserDefinedRateLimitRules. destruct (computedRules env !! action) as [[[|name names]|n]|]; try constructor.
  pose proof (check_rules_writes action email ip (name :: names) m HK). by destruct (check_rules _ _ _ _ _ _ _ _ _ m).
Qed.

Lemma checkRecords_writes action ip email ua p ipR rp emailR pairR smsR m :
  (forall k, k ∈ record_keys ip email p.(p_phoneNumber) -> K k) ->
  wr m (checkRecords env action ip email ua p ipR rp emailR pairR smsR m).1.
Proof.
  intros HK. unfold checkRecords. destruct (_ || _); [constructor|].
  destruct (decide_check _ _ _ _ _ _ _) as [[u r]|]; [|constructor].
  assert (wr m (saveRecords env ip email (p_phoneNumber p) u m).1) as Hw.
  { apply setRecords_writes. unfold record_keys in HK. apply Forall_app. split.
    - repeat constructor; [apply save_ip|apply save_email|apply save_pair]; apply HK; set_solver.
    - destruct (u_sms u), (p_phoneNumber p) as [n|]; repeat constructor. apply save_sms, HK. set_solver. }
  by destruct (saveRecords _ _ _ _ _ m).
Qed.

Lemma run_check_writes action ip email ua p s :
  (forall k, k ∈ record_keys ip email p.(p_phoneNumber) ++ rule_keys env email ip -> K k) ->
  wr (store s) (store (run_check env action ip email ua p s).1).
Proof.
  intros HK. unfold run_check. set (f := fetchRecords _ _ _ _).
  destruct (ipRecord f) as [ipR|], (emailRecord f) as [emailR|], (ipEmailRecord f) as [pairR|]; try constructor.
  pose proof (checkRecords_writes action ip email ua p ipR (f_reputation f) emailR pairR (smsRecord f) (store s)
    ltac:(intros; apply HK; apply elem_of_app; by left)) as H1.
  destruct (checkRecords _ _ _ _ _ _ _ _ _ _ _ _) as [m1 [r|]]; [|done].
  pose proof (rules_writes r action email ip m1 ltac:(intros; apply HK; apply elem_of_app; by right)) as H2.
  cbn [fst] in *.
  destruct (checkUserDefinedRateLimitRules _ _ _ _ _ _ _ _ _ _ m1) as [m2 [r'|]]; cbn [fst] in *; [|by eapply writes_trans].
  unfold createResponse, optionallyReportIp. cbn [fst]. destruct (_ && _); by eapply writes_trans.
Qed.

Lemma flag_ip_writes f ip m : K ip -> wr m (flag_ip (rep env) env.(limits) env.(recordLifetimeSeconds) env.(now) f ip m).1.
Proof.
  intros Hk. unfold flag_ip. destruct (ipRecord _); [|constructor]. apply setRecords_writes. repeat constructor. by apply save_ip.
Qed.

Lemma flag_email_writes f e m : K e -> wr m (flag_email (rep env) env.(limits) env.(recordLifetimeSeconds) env.(now) f e m).1.
Proof.
  intros Hk. unfold flag_email. destruct (emailRecord _); [|constructor]. apply setRecords_writes. repeat constructor. by apply save_email.
Qed.

Lemma truthy_value o x : truthy_str o = Some x -> default ""%string o = x.
Proof. unfold truthy_str, when_truthy, id. destruct o as [y|]; [|done]. cbn. destruct (str_truthy y); congruence. Qed.
(** A handler that saves one record, or nothing. *)
Lemma save_one w m : saving w -> wr m (setRecords [w] m).1.
Proof. intros. apply setRecords_writes. by repeat constructor. Qed.

Lemma authenticated_writes action ip uid s :
  K (default ""%string uid) -> wr (store s) (store (checkAuthenticated env action ip uid s).1).
Proof.
  intros Hk. unfold checkAuthenticated.
  destruct (truthy_str action) as [a|], (truthy_str ip) as [i|], (truthy_str uid) as [u|] eqn:Hu; try constructor.
  apply truthy_value in Hu as <-.
  destruct (uidRecord _) as [r|]; [|constructor]. destruct (UidRecord.addCount _ _ _ _) as [[r' retry]|]; [|constructor].
  pose proof (save_one _ (store s) (save_uid _ r' Hk)). destruct (setRecords _ (store s)) as [m []]; [|done].
  by destruct (num_gtb _ _).
Qed.

Lemma check_ip_records_writes action ip r rp m : K ip -> wr m (check_ip_records env action ip r rp m).1.
Proof.
  intros Hk. unfold check_ip_records. destruct (_ || _); [constructor|]. destruct (IpRecord.update _ _ _ _ _) as [r' retry].
  destruct (blocklisted env ip) as [listed|]; [|constructor].
  pose proof (save_one _ m (save_ip _ r' Hk)). destruct (setRecords _ m) as [m' ok]. by destruct listed, (isBlockBelow _ _).
Qed.

Lemma ip_only_writes action ip s : K (default ""%string ip) -> wr (store s) (store (checkIpOnly env action ip s).1).
Proof.
  intros Hk. unfold checkIpOnly. destruct (truthy_str action) as [a|], (truthy_str ip) as [i|] eqn:Hi; try constructor.
  apply truthy_value in Hi as <-. destruct (ipRecord _) as [r|]; [|constructor].
  set (rp := f_reputation _). pose proof (check_ip_records_writes a _ r rp (store s) Hk).
  destruct (check_ip_records _ _ _ _ _ _) as [m [r'|]]; [|done]. cbn [fst] in *. unfold optionallyReportIp. by destruct (_ && _).
Qed.

Lemma failed_login_writes email ip errno s :
  (forall k, k ∈ record_keys (default ""%string ip) (normalizedEmail (default ""%string email)) None -> K k) ->
  wr (store s) (store (failedLoginAttempt env email ip errno s).1).
Proof.
  intros HK. unfold failedLoginAttempt. destruct (truthy_str email) as [e|] eqn:He, (truthy_str ip) as [i|] eqn:Hi; try constructor.
  apply truthy_value in He as <-, Hi as <-. set (f := fetchRecords _ _ _ _).
  destruct (ipRecord f) as [ipR|], (emailRecord f) as [emailR|], (ipEmailRecord f) as [pairR|]; try constructor.
  destruct (IpRecord.isOverBadLogins _ _ _) as [ipR' over].
  set (s' := if over then _ else _). assert (store s' = store s) as Hs by (unfold s'; by destruct over). cbv zeta.
  match goal with |- context [setRecords ?ws (store s')] => assert (wr (store s) (setRecords ws (store s')).1) as Hw end.
  { rewrite Hs. apply setRecords_writes. unfold record_keys in HK.
    repeat constructor; [apply save_ip|apply save_email|apply save_pair]; apply HK; set_solver. }
  by destruct (setRecords _ (store s')) as [m ok].
Qed.

Lemma reset_writes email s :
  K (normalizedEmail (default ""%string email)) -> wr (store s) (store (passwordReset env email s).1).
Proof.
  intros Hk. unfold passwordReset. destruct (truthy_str email) as [e|] eqn:He; [|constructor]. apply truthy_value in He as <-.
  destruct (emailRecord _) as [r|]; [|constructor].
  pose proof (save_one _ (store s) (save_email _ (EmailRecord.passwordReset (now env) r) Hk)). by destruct (setRecords _ (store s)).
Qed.

Lemma block_email_writes email s :
  K (normalizedEmail (default ""%string email)) -> wr (store s) (store (blockEmail env email s).1).
Proof.
  intros Hk. unfold blockEmail. destruct (truthy_str email) as [e|] eqn:He; [|constructor]. apply truthy_value in He as <-.
  unfold handleBan, Dataflow.blockEmail. cbn [ban_ip ban_email when_truthy]. destruct (str_truthy _); [|constructor].
  pose proof (flag_email_writes FBlock _ (store s) Hk). unfold id. by destruct (flag_email _ _ _ _ _ _ _).
Qed.

Lemma block_ip_writes ip s : K (default ""%string ip) -> wr (store s) (store (blockIp env ip s).1).
Proof.
  intros Hk. unfold blockIp. destruct (truthy_str ip) as [i|] eqn:Hi; [|constructor]. apply truthy_value in Hi as <-.
  unfold handleBan, Dataflow.blockIp. cbn [ban_ip ban_email when_truthy]. destruct (str_truthy _); [|constructor].
  pose proof (flag_ip_writes FBlock _ (store s) Hk). unfold id. by destruct (flag_ip _ _ _ _ _ _ _) as [m []].
Qed.

Lemma message_writes config msg m :
  (forall a sg t i, parseMessage msg = Some (a, (sg, t, i)) -> K i) ->
  wr m (handleMessage (rep env) env.(limits) env.(recordLifetimeSeconds) env.(now) config msg m).1.
Proof.
  intros HK. unfold handleMessage. destruct (parseMessage msg) as [[a [[sg t] i]]|]; [|constructor].
  destruct sg as [|f]; [constructor|]. destruct (reportOnly config); [constructor|].
  destruct (isFresh _ _ _); [|constructor]. pose proof (HK a (Raise f) t i eq_refl) as Hk.
  assert (wr m (apply_flag (rep env) env.(limits) env.(recordLifetimeSeconds) env.(now) f t i m).1)
    by (unfold apply_flag; destruct t; [by apply flag_email_writes|by apply flag_ip_writes]).
  by destruct (apply_flag _ _ _ _ _ _ _ _) as [m' []].
Qed.
End Writes.

(** The store after a request: writes to the keys the request names. *)
Lemma handle_writes env L q s :
  lifetimes_within L env -> writes (fun k => k ∈ touched env q) L env.(now) (store s) (store (handle env q s)).
Proof.
  intros HL. destruct q; cbn [handle touched].
  - unfold check. destruct (truthy_str (q_email q)) as [e|] eqn:He, (truthy_str (q_ip q)) as [ip|] eqn:Hip,
      (truthy_str (q_action q)) as [a|]; try constructor.
    apply truthy_value in He as <-, Hip as <-. by apply run_check_writes.
  - apply authenticated_writes; [done|]. left.
  - apply ip_only_writes; [done|]. left.
  - by apply failed_login_writes.
  - apply reset_writes; [done|]. left.
  - apply block_email_writes; [done|]. left.
  - apply block_ip_writes; [done|]. left.
  - cbn [store]. apply message_writes; [done|]. intros a sg t i ->. left.
Qed.
End Requests.

(** ** A record that is new *)

(** Limits that let a first request pass. *)
Definition limits_allow (l : Limits.t) : Prop :=
  1 <= l.(maxEmails) /\ 1 <= l.(maxVerifyCodes) /\ 1 <= l.(maxSms) /\ 0 <= l.(maxBadLogins) /\
  0 <= l.(maxBadLoginsPerIp) /\ 0 <= l.(maxBadLoginsPerEmail) /\ 1 <= l.(maxAccountStatusCheck) /\ 1 <= l.(maxAccountAccess).

Section NewRecords.
Context (l : Limits.t) (now : Z).
Hypothesis Hl : limits_allow l.

Lemma trim_hits_one interval max x : (length (trim_hits now interval max [x]) <= 1)%nat.
Proof. by apply (suffix_length _ [x]), trim_hits_suffix. Qed.

Lemma not_over (n : nat) max : (n <= 1)%nat -> 1 <= max -> (Z.of_nat n >? max) = false.
Proof. intros. rewrite Z.gtb_ltb. apply Z.ltb_ge. lia. Qed.

Lemma none_over max : 0 <= max -> (0 >? max) = false.
Proof. intros. rewrite Z.gtb_ltb. by apply Z.ltb_ge. Qed.

(** A record that is neither blocked nor limited counts the request. *)
Definition idle (r : EmailRecord.t) : Prop := r.(EmailRecord.bk) = None /\ r.(EmailRecord.rl) = None /\ r.(EmailRecord.di) = None.

Lemma idle_open r : idle r -> EmailRecord.shouldBlock l now r = false.
Proof.
  intros (Hb & Hr & Hd). unfold EmailRecord.shouldBlock, EmailRecord.isRateLimited, EmailRecord.isBlocked, EmailRecord.isDisabled.
  rewrite Hb, Hr, Hd. cbn. by destruct (disableIntervalMs l).
Qed.

Lemma count_step_idle counts add over r :
  idle r -> (over (add r)).2 = false ->
  EmailRecord.count_step l now counts add over r = inl (if counts then (over (add r)).1 else r).
Proof.
  intros Hi Ho. unfold EmailRecord.count_step. rewrite idle_open by done. destruct counts; [|done].
  destruct (over (add r)). cbn in Ho. by subst.
Qed.

Lemma new_email_waits action unblock : (EmailRecord.update l now action unblock (EmailRecord.parse None)).2 = 0.
Proof.
  destruct Hl as (? & ? & ? & _ & _ & ? & _). unfold EmailRecord.update. cbn [EmailRecord.isBlocked].
  change (EmailRecord.isBlocked l now (EmailRecord.parse None)) with false. cbv iota.
  set (r0 := if unblock then _ else _). assert (exists ub, r0 = EmailRecord.set_ub EmailRecord.fresh ub) as [ub ->]
    by (destruct unblock; eexists; done).
  rewrite count_step_idle by (done || (apply not_over; [apply trim_hits_one|done])).
  set (r1 := if isCodeVerifyingAction _ then _ else _).
  assert (exists vc, r1 = EmailRecord.set_vc (EmailRecord.set_ub EmailRecord.fresh ub) vc) as [vc ->]
    by (unfold r1; destruct (isCodeVerifyingAction _); eexists; done).
  rewrite count_step_idle by (done || (apply not_over; [apply trim_hits_one|done])).
  set (r2 := if isEmailSendingAction _ then _ else _).
  assert (exists xs, r2 = EmailRecord.set_xs (EmailRecord.set_vc (EmailRecord.set_ub EmailRecord.fresh ub) vc) xs) as [xs ->]
    by (unfold r2; destruct (isEmailSendingAction _); eexists; done).
  unfold EmailRecord.update_tail.
  rewrite count_step_idle by (done || (apply not_over; [apply trim_hits_one|done])).
  destruct (isSmsSendingAction _); cbn -[Z.gtb]; by rewrite none_over.
Qed.

Lemma new_pair_waits action : (IpEmailRecord.update l now action (IpEmailRecord.parse None)).2 = 0.
Proof.
  destruct Hl as (_ & _ & _ & ? & _). unfold IpEmailRecord.update. destruct (negb _); [done|]. cbn -[Z.gtb]. by rewrite none_over.
Qed.

Lemma new_sms_waits action : (SmsRecord.update l now action (SmsRecord.parse None)).2 = 0.
Proof.
  destruct Hl as (_ & _ & ? & _). unfold SmsRecord.update, SmsRecord.hit. destruct (isSmsSendingAction _); [|done].
  cbn -[Z.gtb trim_hits Z.of_nat]. by rewrite not_over by (try apply trim_hits_one; done).
Qed.

Lemma count_unique_le items seen n : IpRecord.count_unique items seen n <= n + Z.of_nat (length items).
Proof.
  revert seen n. induction items as [|x items IH]; intros seen n; cbn -[Z.of_nat]; [lia|].
  destruct (js_in _ _); [pose proof (IH seen n)|pose proof (IH (obj_set seen (item_u x) true) (n + 1))]; lia.
Qed.

Lemma trim_unique_one x max : IpRecord.count_unique (IpRecord._trim l now [x] max) [] 0 <= 1.
Proof.
  etransitivity; [apply count_unique_le|]. unfold IpRecord._trim. rewrite length_drop. cbn [length]. lia.
Qed.

Lemma unique_not_over x max m : 1 <= max -> (IpRecord.count_unique (IpRecord._trim l now [x] m) [] 0 >? max) = false.
Proof. intros. rewrite Z.gtb_ltb. apply Z.ltb_ge. pose proof (trim_unique_one x m). lia. Qed.

(** The limits of an address that is counted for the first time. *)
Definition unlimited (r : IpRecord.t) : Prop := r.(IpRecord.bk) = None /\ r.(IpRecord.rl) = None.

Lemma unlimited_waits r :
  unlimited r -> ipRateLimitBanDurationMs l <= now -> blockIntervalMs l <= now -> IpRecord.retryAfter l now r = 0.
Proof.
  intros [Hb Hr] ? ?. unfold IpRecord.retryAfter. rewrite Hb, Hr. cbn [or0 num_or].
  pose proof (ceil1000_sign (0 + ipRateLimitBanDurationMs l - now)). pose proof (ceil1000_sign (0 + blockIntervalMs l - now)). lia.
Qed.

Lemma new_ip_waits action email :
  ipRateLimitBanDurationMs l <= now -> blockIntervalMs l <= now ->
  (IpRecord.update l now action email (IpRecord.parse None)).2 = 0.
Proof.
  intros Hban Hblock. destruct Hl as (_ & ? & ? & _ & ? & _ & ? & ?). unfold IpRecord.update.
  change (IpRecord.isBlocked l now (IpRecord.parse None)) with false. cbv iota.
  set (r1 := IpRecord.on_account_status _ _ _ _ _). assert (exists as_, r1 = IpRecord.set_as (IpRecord.parse None) as_) as [as_ ->].
  { unfold r1, IpRecord.on_account_status. destruct (isAccountStatusAction _); [|by exists []].
    unfold IpRecord.limit_if. replace ((IpRecord.isOverAccountStatusCheck _ _ _).2) with false; [by eexists|].
    symmetry. by apply unique_not_over. }
  set (r2 := IpRecord.on_code_verifying _ _ _ _ _).
  assert (exists vc, r2 = IpRecord.set_vc (IpRecord.set_as (IpRecord.parse None) as_) vc) as [vc ->].
  { unfold r2, IpRecord.on_code_verifying. destruct (isCodeVerifyingAction _); [|by exists []].
    unfold IpRecord.limit_if. replace ((IpRecord.isOverVerifyCodes _ _ _).2) with false; [by eexists|].
    symmetry. by apply unique_not_over. }
  set (r3 := IpRecord.on_password_checking _ _ _ _ _).
  assert (r3 = IpRecord.set_vc (IpRecord.set_as (IpRecord.parse None) as_) vc) as ->.
  { unfold r3, IpRecord.on_password_checking. destruct (isPasswordCheckingAction _); [|done]. cbn -[Z.gtb Z.ltb].
    assert ((maxBadLoginsPerIp l <? 0) = false) as -> by (by apply Z.ltb_ge). unfold IpRecord.limit_if. cbn -[Z.gtb Z.ltb].
    by assert ((maxBadLoginsPerIp l <? 0) = false) as -> by (by apply Z.ltb_ge). }
  set (r4 := IpRecord.on_sms_sending _ _ _ _).
  assert (exists sms, r4 = IpRecord.set_sms (IpRecord.set_vc (IpRecord.set_as (IpRecord.parse None) as_) vc) sms) as [sms ->].
  { unfold r4, IpRecord.on_sms_sending. destruct (isSmsSendingAction _); [|by exists []].
    unfold IpRecord.limit_if. replace ((IpRecord.isOverSmsLimit _ _ _).2) with false; [by eexists|].
    symmetry. apply not_over; [apply trim_hits_one|done]. }
  destruct (isAccountAccessAction _); [|by apply unlimited_waits].
  replace (IpRecord.isOverAccountAccessLimit _ _) with false; [done|]. symmetry. by apply not_over.
Qed.
End NewRecords.

(** ** Recovery *)

Section Recovery.
Context {M : Type} `{MemcachedLaws M StoredObject} `{!MemcachedExpiry M StoredObject}.
Implicit Types (s : State (M := M)).

(** Nothing is read under the key. *)
Definition absent (m : M) (k : string) (t : Z) : Prop := forall v : StoredObject, mc_get m k t <> inl (Some v).

Lemma writes_absent K L now m m' k t :
  writes K L now m m' -> (K k -> now + L <= t) -> absent m k t -> absent m' k t.
Proof.
  induction 1 as [|m k0 v life m1 b m2 Hk0 Hlife Hset _ IH]; intros Hk Ha; [done|]. apply IH; [done|].
  destruct (decide (k0 = k)) as [->|Hne].
  - intros w. eapply mc_get_expired; [exact Hset|lia| |exact Ha]. specialize (Hk Hk0). lia.
  - intros w. rewrite (mc_get_set_ne _ _ _ _ _ _ _ _ t Hne Hset). apply Ha.
Qed.

(** Since [T] no request of the history has named one of the keys. *)
Definition quiet_since (T : Z) (keys : list string) (h : list (Env * CustomsRequest)) : Prop :=
  Forall (fun eq => eq.1.(now) <= T \/ forall k, k ∈ keys -> k ∉ touched eq.1 eq.2) h.

Lemma quiet_absent L T keys h s t k :
  Forall (fun eq => lifetimes_within L eq.1) h -> quiet_since T keys h -> T + L <= t ->
  (forall k, absent (store s) k t) -> k ∈ keys -> absent (store (handle_all h s)) k t.
Proof.
  intros HL Hq Ht Hs Hk. induction h as [|[env q] h IH]; cbn [handle_all]; [done|].
  apply Forall_cons in HL as [HL1 HL], Hq as [Hq1 Hq]. cbn [fst snd] in *.
  eapply writes_absent; [by apply handle_writes| |by apply IH].
  intros Htouch. destruct Hq1 as [?|Hn]; [lia|]. by destruct (Hn k Hk).
Qed.

Lemma absent_fresh {R} `{Storable R} m k t :
  parser (Some empty_object) = parser None -> absent m k t -> fetchRecord t m k = parser None.
Proof.
  intros He Ha. unfold fetchRecord. specialize (Ha : forall v, _). destruct (mc_get m k t) as [[v|]|[]] eqn:E; [|done..].
  by destruct (Ha v).
Qed.

(** Without history only the properties of the request itself count. *)
Lemma new_request_waits env s action ip email p :
  limits_allow env.(limits) -> ipRateLimitBanDurationMs env.(limits) <= env.(now) -> blockIntervalMs env.(limits) <= env.(now) ->
  (forall k, k ∈ record_keys ip email p.(p_phoneNumber) -> absent (store s) k env.(now)) ->
  ip_banned env s ip = false /\ u_retryAfter (updated env s action ip email p) = 0.
Proof.
  intros Hl Hban Hblock Ha. unfold record_keys in Ha.
  assert (ip_of env s ip = IpRecord.parse None) as Hip
    by exact (absent_fresh (R := IpRecord.t) _ _ _ eq_refl (Ha ip ltac:(set_solver))).
  assert (email_of env s email = EmailRecord.parse None) as He
    by exact (absent_fresh (R := EmailRecord.t) _ _ _ eq_refl (Ha email ltac:(set_solver))).
  assert (ip_email_of env s ip email = IpEmailRecord.parse None) as Hp
    by exact (absent_fresh (R := IpEmailRecord.t) _ _ _ eq_refl (Ha (String.append ip email) ltac:(set_solver))).
  assert (forall r, sms_of env s p = Some r -> r = SmsRecord.parse None) as Hsms.
  { unfold sms_of. destruct (p_phoneNumber p) as [n|]; [|done]. cbn. destruct (str_truthy n); [|done]. intros r [= <-].
    exact (absent_fresh (R := SmsRecord.t) _ _ _ eq_refl (Ha n ltac:(set_solver))). }
  split.
  - unfold ip_banned. rewrite Hip. unfold IpRecord.isDisabled. cbn. by destruct (disableIntervalMs _).
  - unfold updated, updateRecords. rewrite Hip, He, Hp.
    pose proof (new_email_waits env.(limits) env.(now) Hl action (ostr_truthy p.(p_unblockCode))) as H1.
    pose proof (new_pair_waits env.(limits) env.(now) Hl action) as H2.
    pose proof (new_ip_waits env.(limits) env.(now) Hl action (Some email) Hban Hblock) as H3.
    destruct (EmailRecord.update _ _ _ _ _) as [r1 w1], (IpEmailRecord.update _ _ _ _) as [r2 w2], (IpRecord.update _ _ _ _ _) as [r3 w3].
    cbn [snd] in *. subst. destruct (sms_of env s p) as [r|]; [|done]. rewrite (Hsms r) by done.
    pose proof (new_sms_waits env.(limits) env.(now) Hl action) as H4. destruct (SmsRecord.update _ _ _ _) as [r4 w4]. cbn [snd] in *.
    by subst.
Qed.

(** [C9] A lockout ends.  Whatever requests the server has handled, in any order,
    under settings that may change but keep the lifetimes of records within
    [L]: when since [T] no request has named the address, the e-mail, the
    pair or the phone number, a request at [T + L] or later is refused only
    for what it is itself: not allowlisted, and without a required flow id,
    or from an address that is on a blocklist or has a bad reputation. *)
Theorem lockout_ends env L T h s q ip email action listed :
  let p := clean_payload q.(q_payload) in
  Forall (fun eq => lifetimes_within L eq.1) h -> quiet_since T (record_keys ip email p.(p_phoneNumber)) h ->
  (forall k t, absent (store s) k t) -> lifetimes_within L env -> 0 <= T -> T + L <= env.(now) ->
  limits_allow env.(limits) -> full_request q ip email action ->
  store_up (M := M) -> blocklisted env ip = Some listed -> env.(computedRules) !! action = None ->
  exists r, (check env q (handle_all h s)).2 = Checked r /\
    r_block r = negb (isAllowed env ip (Some email) p.(p_phoneNumber)) &&
      (missingFlow env action q.(q_userAgent) p &&
         RequestChecks.truthy env.(requestChecks).(RequestChecks.flowIdRequiredOnLogin) ||
       listed || isBlockBelow env (rep env ip)).
Proof.
  intros p HL Hq Hs HLe HT Ht Hl Hfull Hup Hb Hr.
  assert (forall x, x ∈ lifetimes env -> x <= env.(now)) as Hle.
  { intros x Hx. destruct HLe as [_ HLe]. rewrite Forall_forall in HLe. apply HLe in Hx. lia. }
  destruct (new_request_waits env (handle_all h s) action ip email p) as [Hban Hw]; [done| | | |].
  - transitivity (IpRecord.getMinLifetimeMS env.(limits)); [unfold IpRecord.getMinLifetimeMS; lia|]. apply Hle. cbn. set_solver.
  - transitivity (IpRecord.getMinLifetimeMS env.(limits)); [unfold IpRecord.getMinLifetimeMS; lia|]. apply Hle. cbn. set_solver.
  - intros k Hk. by eapply quiet_absent.
  - destruct (check_decided env q ip email action (handle_all h s) listed) as (r & Hc & Hblock); [done..|].
    exists r. split; [done|]. rewrite Hblock. unfold refused. fold p. by rewrite <- updated_waits, Hw.
Qed.
End Recovery.

(** ** A witness *)

(** Five failed logins lock the pair out; a day later it is free. *)
Definition locked_out : list (Env * CustomsRequest) :=
  (fun t => (at_time (sample_env 0) t, QFailedLogin (Some "a@x.org"%string) (Some "1.2.3.4"%string) (Some 103)))
    <$> [5000; 4000; 3000; 2000; 1000].

Lemma lockout_ends_witness :
  r_block (match (check (sample_env 6000) (login "a@x.org" "1.2.3.4") (handle_all locked_out empty)).2 with
           | Checked r => r | _ => handleError (sample_env 0) end) = true /\
  exists r, (check (sample_env 86405000) (login "a@x.org" "1.2.3.4") (handle_all locked_out empty)).2 = Checked r /\ r_block r = false.
Proof.
  split; [vm_compute; reflexivity|].
  destruct (lockout_ends (sample_env 86405000) 86400000 5000 locked_out empty (login "a@x.org" "1.2.3.4") "1.2.3.4" "a@x.org"
    "accountLogin" false) as (r & Hr & Hb).
  - apply Forall_forall. intros [env q'] (t & [= -> _] & _)%list_elem_of_fmap. split; [reflexivity|].
    apply (bool_decide_unpack _). vm_compute. exact I.
  - repeat (constructor; [left; cbn; lia|]). constructor.
  - intros k t v. discriminate.
  - split; [reflexivity|]. apply (bool_decide_unpack _). vm_compute. exact I.
  - lia.
  - cbn. lia.
  - repeat split; cbn; lia.
  - split; [reflexivity|]. split; [reflexivity|]. exists "a@x.org"%string. split; reflexivity.
  - intros m k v lf t. reflexivity.
  - reflexivity.
  - reflexivity.
  - exists r. split; [exact Hr|]. rewrite Hb. vm_compute. reflexivity.
Defined.
