(* ===== verification/Guessing.v ===== *)
(** * Password guessing is stopped

    What more than [maxBadLogins] failed logins do to later password checks
    of the same e-mail from the same address, over any history of requests to
    the customs server: checks of the pair itself, other addresses, other
    e-mails, blocks and Dataflow messages may come in between. *)

From S2P Require Import Prelude Window Store Actions Limits Reputation Text Records Settings UserRules Dataflow Server ServerLaws Recovery.
From S2P Require EmailRecord IpRecord IpEmailRecord SmsRecord UidRecord RuleRecord.

(** ** Requests about a pair *)

Section Keys.
Context (ip email : string).

Definition pair_key : string := String.append ip email.

(** The key of an e-mail, or of a pair, unless it is the one we look at. *)
Definition other_mail (e : string) : list string := if bool_decide (e = email) then [] else [e].

Definition other_pair (i e : string) : list string :=
  if bool_decide (i = ip /\ e = email) then [] else [String.append i e].

(** The keys a request writes for other records than those of [email] and of
    the pair. *)
Definition other_keys (env : Env) (q : CustomsRequest) : list string :=
  match q with
  | QCheck q =>
      let i := default ""%string q.(q_ip) in let e := normalizedEmail (default ""%string q.(q_email)) in
      i :: other_mail e ++ other_pair i e ++ option_list (truthy_str q.(q_payload).(p_phoneNumber)) ++ rule_keys env e i
  | QAuthenticated _ _ uid => [default ""%string uid]
  | QIpOnly _ i => [default ""%string i]
  | QFailedLogin e i _ =>
      let i := default ""%string i in let e := normalizedEmail (default ""%string e) in
      i :: other_mail e ++ other_pair i e
  | QPasswordReset e | QBlockEmail e => other_mail (normalizedEmail (default ""%string e))
  | QBlockIp i => [default ""%string i]
  | QDataflow _ msg =>
      match parseMessage msg with
      | Some (_, (_, TEmail, i)) => other_mail i
      | Some (_, (_, TIp, i)) => [i]
      | None => []
      end
  end.

(** The request keeps no other record under the key of [email] or of the
    pair. *)
Definition apart (env : Env) (q : CustomsRequest) : Prop :=
  (pair_key ∉ other_keys env q) /\ (email ∉ other_keys env q).

(** The request reports a password reset of [email]. *)
Definition resets (q : CustomsRequest) : Prop :=
  match q with QPasswordReset e => normalizedEmail (default ""%string e) = email | _ => False end.

(** The request reports a failed login of the pair. *)
Definition fails_login (q : CustomsRequest) : bool :=
  match q with
  | QFailedLogin (Some e) (Some i) _ => str_truthy e && bool_decide (i = ip /\ normalizedEmail e = email)
  | _ => false
  end.

Definition failures (h : list (Env * CustomsRequest)) : Z := countb (fun eq => fails_login eq.2) h.

Lemma failures_cons env q h : failures ((env, q) :: h) = failures h + if fails_login q then 1 else 0.
Proof. unfold failures, countb. cbn [filterb snd]. destruct (fails_login q); cbn [length]; lia. Qed.

End Keys.

(** ** What the pair's record remembers *)

Section Pair.
Context (lim : Limits.t) (t1 : Z).
Hypothesis Hmax : 0 <= maxBadLogins lim.
Hypothesis Hint : 0 < rateLimitIntervalMs lim.
Hypothesis Ht1 : 0 < t1.

Abbreviation deadline := (t1 + rateLimitIntervalMs lim).

(** The record knows of [n] failures since [t1]: it was throttled since, or
    its array ends with that many, up to the limit. *)
Definition remembers (n : Z) (r : IpEmailRecord.t) : Prop :=
  (exists c, r.(IpEmailRecord.rl) = Some c /\ t1 <= c) \/
  (exists xs zs, r.(IpEmailRecord.lf) = xs ++ (Num <$> zs) /\ Forall (fun z => t1 <= z) zs /\
     Z.min (maxBadLogins lim + 1) n <= Z.of_nat (length zs)).

Lemma trim_run_kept t xs zs :
  t < deadline -> Forall (fun z => t1 <= z) zs ->
  exists xs' zs', trim_hits t (rateLimitIntervalMs lim) (maxBadLogins lim) (xs ++ (Num <$> zs)) = xs' ++ (Num <$> zs') /\
    Forall (fun z => t1 <= z) zs' /\ length zs' = Nat.min (Z.to_nat (maxBadLogins lim + 1)) (length zs).
Proof.
  intros Ht Hz. rewrite trim_hits_run, reverse_app, <- fmap_reverse.
  set (k := Z.to_nat _). set (f := fresh_hit _ _).
  assert (forall ys rest, Forall (fun z => t1 <= z) ys -> take_while f ((Num <$> ys) ++ rest) = (Num <$> ys) ++ take_while f rest) as Hw.
  { induction ys as [|y ys IH]; intros rest; [done|]. intros [Hy Hys]%Forall_cons.
    rewrite fmap_cons. cbn [app take_while]. assert (f (Num y) = true) as -> by (unfold f; rewrite fresh_num; lia). by rewrite IH. }
  rewrite Hw by by apply Forall_reverse. rewrite take_app, reverse_app, length_fmap, length_reverse, <- fmap_take, <- fmap_reverse.
  eexists _, _. split; [done|]. split.
  - apply Forall_reverse, Forall_take. by apply Forall_reverse.
  - by rewrite length_reverse, length_take, length_reverse.
Qed.

Lemma remembers_trim n t r : t < deadline -> remembers n r -> remembers n (IpEmailRecord.trimBadLogins lim t r).
Proof.
  intros Ht [Hl|(xs & zs & E & Hz & Hn)]; [by left|]. right. unfold IpEmailRecord.trimBadLogins. cbn [IpEmailRecord.lf]. rewrite E.
  destruct (trim_run_kept t xs zs Ht Hz) as (xs' & zs' & -> & Hz' & Hl'). exists xs', zs'. split_and!; [done..|]. lia.
Qed.

Lemma remembers_add n t r :
  t1 <= t < deadline -> remembers n r -> remembers (n + 1) (IpEmailRecord.addBadLogin lim t r).
Proof.
  intros Ht Hr. apply (remembers_trim n t) in Hr; [|lia]. unfold IpEmailRecord.addBadLogin.
  destruct Hr as [Hl|(xs & zs & E & Hz & Hn)]; [by left|]. right. cbn [IpEmailRecord.lf]. rewrite E.
  exists xs, (zs ++ [t]). rewrite fmap_app, <- app_assoc. split_and!; [done| |].
  - apply Forall_app. split; [done|]. repeat constructor. lia.
  - rewrite length_app. cbn. lia.
Qed.

(** A step of the record: what it remembers, and when it was throttled. *)
Definition moves (n n' : Z) (r r' : IpEmailRecord.t) : Prop :=
  (remembers n r -> remembers n' r') /\
  (r'.(IpEmailRecord.rl) = r.(IpEmailRecord.rl) \/ exists c, r'.(IpEmailRecord.rl) = Some c /\ t1 <= c).

Lemma moves_refl n r : moves n n r r.
Proof. split; auto. Qed.

Lemma moves_add n t r : t1 <= t < deadline -> moves n (n + 1) r (IpEmailRecord.addBadLogin lim t r).
Proof. intros Ht. split; [by apply remembers_add|by left]. Qed.

Lemma moves_update n t action r : t1 <= t < deadline -> moves n n r (IpEmailRecord.update lim t action r).1.
Proof.
  intros Ht. unfold IpEmailRecord.update. destruct (negb _); [apply moves_refl|].
  destruct (IpEmailRecord.shouldBlock _ _ _); [apply moves_refl|]. unfold IpEmailRecord.isOverBadLogins.
  destruct (_ >? _); cbn; (split; [intros Hr|]).
  - left. exists t. split; [done|lia].
  - right. exists t. split; [done|lia].
  - apply remembers_trim; [lia|done].
  - by left.
Qed.

(** With more than [maxBadLogins] failures a password check has to wait. *)
Lemma remembers_waits n t action r :
  isPasswordCheckingAction action = true -> t1 <= t < deadline -> maxBadLogins lim < n -> remembers n r ->
  0 < (IpEmailRecord.update lim t action r).2.
Proof.
  intros Ha Ht Hn Hr. unfold IpEmailRecord.update. rewrite Ha. cbn [negb].
  unfold IpEmailRecord.shouldBlock, IpEmailRecord.isRateLimited.
  destruct (active (IpEmailRecord.rl r) _ t) eqn:Eact.
  { apply active_retry in Eact. unfold IpEmailRecord.retryAfter. cbn. lia. }
  destruct Hr as [(c & Hc & Hc1)|(xs & zs & E & Hz & Hl)].
  { rewrite Hc in Eact. cbn in Eact. lia. }
  unfold IpEmailRecord.isOverBadLogins, IpEmailRecord.trimBadLogins. cbn [IpEmailRecord.lf]. rewrite E.
  destruct (trim_run_kept t xs zs ltac:(lia) Hz) as (xs' & zs' & -> & _ & Hl').
  rewrite length_app, length_fmap. destruct (Z.gtb_spec (Z.of_nat (length xs' + length zs')) (maxBadLogins lim)); [|exfalso; lia].
  cbn [snd]. unfold IpEmailRecord.retryAfter. cbn [IpEmailRecord.rl IpEmailRecord.rateLimit]. pose proof (throttle_retry t _ Hint). lia.
Qed.
End Pair.

(** ** One request *)

Section Steps.
Context {M : Type} `{MemcachedLaws M StoredObject}.
Implicit Types (s : State (M := M)).
Context (lim : Limits.t) (t1 : Z) (ip email : string).
Hypothesis Hmax : 0 <= maxBadLogins lim.
Hypothesis Hint : 0 < rateLimitIntervalMs lim.
Hypothesis Ht1 : 0 < t1.
Hypothesis Hip : str_truthy ip = true.
Hypothesis Hem : str_truthy email = true.
Hypothesis Hup : store_up (M := M).

Abbreviation deadline := (t1 + rateLimitIntervalMs lim).
Abbreviation pk := (pair_key ip email).

Definition pair_at s (u : Z) : IpEmailRecord.t := fetchRecord u (store s) pk.
Definition reset_at s (u : Z) : option Z := EmailRecord.pr (fetchRecord u (store s) email).

(** No password reset is on record that the pair's record has not seen. *)
Definition settled (t : Z) s : Prop :=
  forall u v, t <= u < deadline -> t <= v < deadline ->
    num_gtb (reset_at s v) (pair_at s u).(IpEmailRecord.rl) = false /\ forall p, reset_at s v = Some p -> p <= t1.

Definition guarded (t n : Z) s : Prop :=
  settled t s /\ forall u, t <= u < deadline -> remembers lim t1 n (pair_at s u).

(** How a request at [t] changes what is read about the pair. *)
Definition steps (t n n' : Z) s s' : Prop :=
  forall u, t <= u < deadline ->
    (exists w, t <= w < deadline /\ reset_at s' u = reset_at s w) /\
    (exists w, t <= w < deadline /\ moves lim t1 n n' (pair_at s w) (pair_at s' u)).

Lemma guarded_steps t n n' s s' : guarded t n s -> steps t n n' s s' -> guarded t n' s'.
Proof.
  intros [Hs Hr] Hst. split.
  - intros u v Hu Hv. destruct (Hst u Hu) as [_ (w & Hw & _ & Hrl)], (Hst v Hv) as [(x & Hx & ->) _].
    destruct (Hs w x Hw Hx) as [Hg Hp]. split; [|done]. destruct Hrl as [->|(c & -> & Hc)]; [done|].
    destruct (reset_at s x) as [p|]; [|done]. specialize (Hp p eq_refl). cbn. lia.
  - intros u Hu. destruct (Hst u Hu) as [_ (w & Hw & Hm & _)]. auto.
Qed.

Lemma guarded_later t t' n s : guarded t n s -> t <= t' -> guarded t' n s.
Proof. intros [Hs Hr] Ht. split; [intros u v Hu Hv; apply Hs; lia|intros u Hu; apply Hr; lia]. Qed.

Lemma steps_same t n s s' :
  (forall u, pair_at s' u = pair_at s u) -> (forall u, reset_at s' u = reset_at s u) -> steps t n n s s'.
Proof. intros Hp He u Hu. split; exists u; [by rewrite He|rewrite Hp; auto using moves_refl]. Qed.

(** A request that writes neither key. *)
Lemma writes_fetch {R} `{Storable R} K L now m m' key u :
  writes K L now m m' -> ~ K key -> fetchRecord (R := R) u m' key = fetchRecord u m key.
Proof.
  induction 1 as [|m k v life m1 b m2 Hk _ Hset _ IH]; intros Hn; [done|]. rewrite IH by done.
  assert (k <> key) as Hne by congruence. unfold fetchRecord. by rewrite (mc_get_set_ne _ _ _ _ _ _ _ _ u Hne Hset).
Qed.

Lemma some_lifetime env : 0 < env.(recordLifetimeSeconds) -> exists L, lifetimes_within L env.
Proof.
  intros Hl. unfold lifetimes_within. induction (lifetimes env) as [|x l [L [_ HL]]]; [by exists 0|].
  exists (Z.max x L). split; [done|]. constructor; [lia|]. eapply Forall_impl; [exact HL|]. cbn. lia.
Qed.

Lemma handle_untouched {R} `{Storable R} env q s key u :
  0 < env.(recordLifetimeSeconds) -> key ∉ touched env q ->
  fetchRecord (R := R) u (store (handle env q s)) key = fetchRecord u (store s) key.
Proof.
  intros [L HL]%some_lifetime Hk. by apply (writes_fetch _ _ _ _ _ _ _ (handle_writes env L q s HL)).
Qed.

(** *** A check *)

Section Env.
Context (env : Env).
Hypothesis Hlim : env.(limits) = lim.
Hypothesis Hlife : 0 < env.(recordLifetimeSeconds).
Hypothesis Hnow : t1 <= env.(now) < deadline.

Lemma saved_reads s i e p u m' v :
  saved env s i e p u = (m', true) -> str_truthy i = true -> env.(now) <= v < deadline ->
  (String.append i e ∉ option_list p.(p_phoneNumber) -> fetchRecord v m' (String.append i e) = u.(u_ipEmail)) /\
  (e ∉ option_list p.(p_phoneNumber) -> fetchRecord v m' e = u.(u_email)).
Proof.
  intros Hs Hi Hv. unfold saved, saveRecords in Hs. cbn [app] in Hs.
  apply setRecords_cons in Hs as (m1 & W1 & Hs). apply setRecords_cons in Hs as (m2 & W2 & Hs).
  apply setRecords_cons in Hs as (m3 & W3 & Hs).
  assert (forall R (HR : Storable R) k, k ∉ option_list p.(p_phoneNumber) -> fetchRecord (R := R) v m' k = fetchRecord v m3 k) as Hk.
  { intros R HR k Hk. destruct (u_sms u) as [r|], (p_phoneNumber p) as [n|]; cbn in Hk; try (by injection Hs as <-).
    apply setRecords_cons in Hs as (m4 & W4 & [= <-]).
    refine (fetch_other_after_set _ _ _ _ _ _ _ _ _ _ _ W4). intros ->. apply Hk. left. }
  split; intros Hp; rewrite Hk by done.
  - rewrite (fetch_after_set _ _ _ _ _ v _ _ W3); [done|lia|]. rewrite Hlim.
    cbn [getMinLifetimeMS ip_email_storable]. unfold IpEmailRecord.getMinLifetimeMS. lia.
  - rewrite (fetch_other_after_set _ _ _ _ _ _ _ _ _ _ (not_eq_sym (append_ne i e Hi)) W3).
    rewrite (fetch_after_set _ _ _ _ _ v _ _ W2); [done|lia|]. rewrite Hlim.
    cbn [getMinLifetimeMS email_storable]. unfold EmailRecord.getMinLifetimeMS. lia.
Qed.

Lemma decide_keeps action i ua p rp u u' r :
  decide_check env action i ua p rp u = Some (u', r) ->
  u'.(u_ipEmail) = u.(u_ipEmail) /\ EmailRecord.pr u'.(u_email) = EmailRecord.pr u.(u_email).
Proof.
  unfold decide_check. destruct (EmailRecord.canUnblock _ _ _) as [er can] eqn:Ec. injection Ec as <- _.
  destruct (blocklisted env i) as [[]|]; [..|done]; destruct (isBlockBelow env rp); cbn; intros [= <- _]; done.
Qed.

Lemma updated_reset s action i e p :
  EmailRecord.pr (u_email (updated env s action i e p)) = EmailRecord.pr (email_of env s e).
Proof.
  unfold updated, updateRecords. rewrite <- (email_update_pr env env.(now) action (ostr_truthy p.(p_unblockCode)) (email_of env s e)).
  destruct (EmailRecord.update _ _ _ _ _), (IpEmailRecord.update _ _ _ _) as [r2 w2], (IpRecord.update _ _ _ _ _).
  destruct (match sms_of env s p with Some _ => _ | None => _ end). destruct (w2 =? 0); [done|].
  by destruct (IpEmailRecord.unblockIfReset _ _).
Qed.

(** A check leaves the pair and the e-mail as they were, or saves both. *)
Lemma check_reads q i e action s :
  let s' := (check env q s).1 in let p := clean_payload q.(q_payload) in
  let more := option_list p.(p_phoneNumber) ++ rule_keys env e i in
  full_request q i e action ->
  (forall v,
     (String.append i e ∉ more ->
        fetchRecord (R := IpEmailRecord.t) v (store s') (String.append i e) = fetchRecord v (store s) (String.append i e)) /\
     (e ∉ more -> EmailRecord.pr (fetchRecord v (store s') e) = EmailRecord.pr (fetchRecord v (store s) e))) \/
  (forall v, env.(now) <= v < deadline ->
     (String.append i e ∉ more -> fetchRecord v (store s') (String.append i e) = u_ipEmail (updated env s action i e p)) /\
     (e ∉ more -> EmailRecord.pr (fetchRecord v (store s') e) = EmailRecord.pr (email_of env s e))).
Proof.
  intros s' p more Hq.
  destruct (full_request_truthy _ _ _ _ Hq) as [Hi He].
  assert (exists m1 o, checked env s action i e q.(q_userAgent) p = (m1, o) /\
    forall R (HR : Storable R) k v, k ∉ rule_keys env e i -> fetchRecord (R := R) v (store s') k = fetchRecord v m1 k) as (m1 & o & Hc & Hk).
  { destruct (some_lifetime env Hlife) as [L HL]. subst s'. rewrite (check_full env q i e action), run_check_eq by done. fold p.
    destruct (checked env s action i e (q_userAgent q) p) as [m1 [r|]]; exists m1; eexists; (split; [done|]); [|done].
    intros R HR k v Hn. pose proof (rules_writes env L (fun k => k ∈ rule_keys env e i) HL r action e i m1 (fun k Hk => Hk)) as Hw.
    unfold ruled. destruct (checkUserDefinedRateLimitRules _ _ _ _ _ _ _ _ _ _ _) as [m2 [r'|]]; cbn [fst] in *;
      [|by apply (writes_fetch _ _ _ _ _ _ _ Hw)].
    unfold createResponse, optionallyReportIp. cbn [fst]. destruct (_ && _); by apply (writes_fetch _ _ _ _ _ _ _ Hw). }
  assert (forall R (HR : Storable R) k v, k ∉ more -> fetchRecord (R := R) v (store s') k = fetchRecord v m1 k) as Hk'.
  { intros R HR k v [_ Hn]%not_elem_of_app. by apply Hk. }
  destruct (ip_banned env s i) eqn:Hb.
  { rewrite checked_banned in Hc by done. injection Hc as <- _. left. intros v. split; intros Hn; by rewrite Hk'. }
  rewrite checked_unbanned in Hc by done.
  destruct (decide_check _ _ _ _ _ _ _) as [[u r]|] eqn:Hd;
    [|injection Hc as <- _; left; intros v; split; intros Hn; by rewrite Hk'].
  right. intros v Hv. destruct (decide_keeps _ _ _ _ _ _ _ _ Hd) as [<- Hpr].
  rewrite <- (updated_reset s action i e p), <- Hpr.
  pose proof (saved_up env s i e p u Hup) as Hok. destruct (saved env s i e p u) as [m' ok] eqn:Hs. cbn in Hok. subst ok.
  injection Hc as <- _. destruct (saved_reads s i e p u m' v Hs Hi Hv) as [H1 H2].
  split; intros Hn; rewrite Hk' by done; apply not_elem_of_app in Hn as [Hn _]; [by apply H1|by rewrite H2].
Qed.

(** The pair's own record, when no reset is outstanding. *)
Lemma updated_pair s action p :
  settled env.(now) s ->
  u_ipEmail (updated env s action ip email p) = (IpEmailRecord.update lim env.(now) action (pair_at s env.(now))).1.
Proof.
  intros Hs. destruct (Hs env.(now) env.(now) ltac:(lia) ltac:(lia)) as [Hg Hp].
  pose proof (moves_update lim t1 Hmax 0 env.(now) action (pair_at s env.(now)) Hnow) as [_ Hrl].
  unfold updated, updateRecords. rewrite Hlim. change (ip_email_of env s ip email) with (pair_at s env.(now)).
  pose proof (email_update_pr env env.(now) action (ostr_truthy p.(p_unblockCode)) (email_of env s email)) as Hpr. rewrite Hlim in Hpr.
  change (EmailRecord.pr (email_of env s email)) with (reset_at s env.(now)) in Hpr.
  destruct (EmailRecord.update _ _ _ _ _) as [er w1], (IpEmailRecord.update _ _ _ _) as [r2 w2], (IpRecord.update _ _ _ _ _) as [ir w3].
  destruct (match sms_of env s p with Some _ => _ | None => _ end) as [sr w4]. cbn [fst] in *.
  unfold IpEmailRecord.unblockIfReset. rewrite Hpr.
  assert (num_gtb (reset_at s (now env)) (IpEmailRecord.rl r2) = false) as ->; [|by destruct (w2 =? 0)].
  destruct Hrl as [->|(c & -> & Hc)]; [done|]. destruct (reset_at s (now env)) as [x|]; [|done]. specialize (Hp x eq_refl). cbn. lia.
Qed.

(** *** A failed login, a block *)

Lemma failed_reads e0 i errno s v :
  str_truthy e0 = true -> str_truthy i = true -> env.(now) <= v < deadline ->
  let e := normalizedEmail e0 in let s' := (failedLoginAttempt env (Some e0) (Some i) errno s).1 in
  fetchRecord v (store s') (String.append i e) =
    IpEmailRecord.addBadLogin lim env.(now) (fetchRecord env.(now) (store s) (String.append i e)) /\
  EmailRecord.pr (fetchRecord v (store s') e) = EmailRecord.pr (fetchRecord env.(now) (store s) e).
Proof.
  intros He Hi Hv e s'. pose proof (normalizedEmail_truthy _ He) as He'. unfold s', failedLoginAttempt.
  unfold truthy_str, when_truthy, id. rewrite Hi, He. unfold fetchRecords.
  cbn [ipRecord emailRecord ipEmailRecord f_ip f_email when_truthy]. fold e. fold e in He'. rewrite Hi, He'. cbn [mbind option_bind id].
  destruct (IpRecord.isOverBadLogins _ _ _) as [ipR over]. set (s1 := if over then _ else s).
  assert (store s1 = store s) as Hs1 by (unfold s1; by destruct over). rewrite Hs1.
  match goal with |- context [setRecords ?ws (store s)] => destruct (setRecords ws (store s)) as [m' ok] eqn:Ew;
    assert (ok = true) as -> by (change ok with ((m', ok).2); rewrite <- Ew; apply setRecords_up;
      intros w Hw m; repeat (apply elem_of_cons in Hw as [->|Hw]; [apply Hup|]); by apply elem_of_nil in Hw) end.
  apply setRecords_cons in Ew as (m1 & W1 & Ew). apply setRecords_cons in Ew as (m2 & W2 & Ew).
  apply setRecords_cons in Ew as (m3 & W3 & [= <-]). cbn [store fst]. split.
  - rewrite (fetch_after_set _ _ _ _ _ v _ _ W3); [by rewrite Hlim|lia|]. rewrite Hlim.
    cbn [getMinLifetimeMS ip_email_storable]. unfold IpEmailRecord.getMinLifetimeMS. lia.
  - rewrite (fetch_other_after_set _ _ _ _ _ _ _ _ _ _ (not_eq_sym (append_ne i e Hi)) W3).
    rewrite (fetch_after_set _ _ _ _ _ v _ _ W2); [done|lia|]. rewrite Hlim.
    cbn [getMinLifetimeMS email_storable]. unfold EmailRecord.getMinLifetimeMS. lia.
Qed.

Lemma flag_reads f m v :
  env.(now) <= v < deadline ->
  EmailRecord.pr (fetchRecord v (flag_email (rep env) env.(limits) env.(recordLifetimeSeconds) env.(now) f email m).1 email) =
  EmailRecord.pr (fetchRecord env.(now) m email).
Proof.
  intros Hv. rewrite flag_email_spec by done.
  destruct (setRecord _ _ _ email _ m) as [m' ok] eqn:W.
  assert (ok = true) as -> by (change ok with ((m', ok).2); rewrite <- W; apply Hup). cbn [fst].
  rewrite (fetch_after_set _ _ _ _ _ v _ _ W); [by destruct f|lia|]. rewrite Hlim.
  cbn [getMinLifetimeMS email_storable]. unfold EmailRecord.getMinLifetimeMS. lia.
Qed.

(** *** Any request *)

Lemma pk_email : pk <> email.
Proof. exact (not_eq_sym (append_ne ip email Hip)). Qed.

(** Only the pair is read differently, or only the e-mail, or neither. *)
Lemma steps_untouched n q s : (pk ∉ touched env q) -> (email ∉ touched env q) -> steps env.(now) n n s (handle env q s).
Proof.
  intros Hp He. apply steps_same; intros u; [unfold pair_at|unfold reset_at]; by rewrite handle_untouched.
Qed.

Lemma steps_mail n q s :
  (pk ∉ touched env q) ->
  (forall u, env.(now) <= u < deadline -> exists w, env.(now) <= w < deadline /\ reset_at (handle env q s) u = reset_at s w) ->
  steps env.(now) n n s (handle env q s).
Proof.
  intros Hp He u Hu. split; [by apply He|]. exists u. split; [done|]. unfold pair_at. rewrite handle_untouched by done. apply moves_refl.
Qed.

Lemma full_request_keys q i e action :
  full_request q i e action -> default ""%string q.(q_ip) = i /\ normalizedEmail (default ""%string q.(q_email)) = e.
Proof. intros (Hi%truthy_value & _ & e0 & He%truthy_value & ->). by rewrite Hi, He. Qed.

Lemma check_steps n q s :
  apart ip email env (QCheck q) -> settled env.(now) s -> steps env.(now) n n s (handle env (QCheck q) s).
Proof.
  intros [Hap Hae] Hs. destruct (check_params env q s) as [(i & e & action & Hq)|Hsame];
    [|apply steps_same; cbn [handle]; by rewrite Hsame].
  destruct (full_request_keys _ _ _ _ Hq) as [Hqi Hqe]. unfold other_keys in Hap, Hae. rewrite Hqi, Hqe in Hap, Hae.
  pose proof pk_email as Hpe. unfold other_mail, other_pair in Hap, Hae.
  destruct (decide (e = email)) as [->|Hne].
  - rewrite bool_decide_eq_true_2 in Hap, Hae by done. cbn [app] in Hap, Hae.
    pose proof (check_reads q i email action s Hq) as Hr. cbv zeta in Hr.
    set (more := option_list _ ++ rule_keys env email i) in *.
    change (option_list (truthy_str (p_phoneNumber (q_payload q))) ++ rule_keys env email i) with more in Hap, Hae.
    assert (email ∉ more) as Hm by set_solver.
    destruct (decide (i = ip)) as [->|Hni].
    + assert (pk ∉ more) as Hpm by set_solver.
      intros u Hu. cbn [handle]. destruct Hr as [Hr|Hr].
      * destruct (Hr u) as [H1 H2]. split; exists u; (split; [done|]); [by apply H2|].
        unfold pair_at, pair_key. rewrite H1 by done. apply moves_refl.
      * destruct (Hr u Hu) as [H1 H2]. split; exists env.(now); (split; [lia|]); [by apply H2|].
        unfold pair_at at 2, pair_key. rewrite H1, updated_pair by done. by apply moves_update.
    + rewrite bool_decide_eq_false_2 in Hap, Hae by naive_solver. apply steps_mail.
      * cbn [touched]. rewrite Hqi, Hqe. unfold record_keys. unfold more in Hap. cbn [clean_payload p_phoneNumber] in Hap.
        destruct (truthy_str _); set_solver.
      * intros u Hu. cbn [handle]. destruct Hr as [Hr|Hr]; [exists u; split; [done|]; by apply Hr|].
        exists env.(now). split; [lia|]. by apply Hr.
  - rewrite !bool_decide_eq_false_2 in Hap, Hae by naive_solver.
    apply steps_untouched; cbn [touched]; rewrite Hqi, Hqe; unfold record_keys; destruct (truthy_str _); set_solver.
Qed.

Lemma fails_login_params e0 i0 errno :
  truthy_str e0 = None \/ truthy_str i0 = None -> fails_login ip email (QFailedLogin e0 i0 errno) = false.
Proof.
  unfold truthy_str, when_truthy, id, fails_login. destruct e0 as [e|]; [|done]. destruct i0 as [i|]; [|done].
  destruct (str_truthy e); cbn; [|done]. intros [?|Hi]; [done|]. apply bool_decide_eq_false_2. intros [-> _]. by rewrite Hip in Hi.
Qed.

Lemma failed_steps n e0 i0 errno s :
  apart ip email env (QFailedLogin e0 i0 errno) ->
  steps env.(now) n (n + if fails_login ip email (QFailedLogin e0 i0 errno) then 1 else 0) s (handle env (QFailedLogin e0 i0 errno) s).
Proof.
  intros [Hap Hae]. pose proof pk_email as Hpe.
  destruct (truthy_str e0) as [e|] eqn:He, (truthy_str i0) as [i|] eqn:Hi.
  2-4: rewrite fails_login_params, Z.add_0_r by auto; apply steps_same; cbn [handle]; unfold failedLoginAttempt; by rewrite ?He, ?Hi.
  pose proof (truthy_str_some _ _ He) as Het. pose proof (truthy_str_some _ _ Hi) as Hit.
  assert (e0 = Some e) as -> by (destruct e0 as [x|]; [|done]; apply truthy_value in He; by cbn in He; subst).
  assert (i0 = Some i) as -> by (destruct i0 as [x|]; [|done]; apply truthy_value in Hi; by cbn in Hi; subst).
  unfold other_keys, other_mail, other_pair in Hap, Hae. cbn [from_option id] in Hap, Hae. cbn [fails_login]. rewrite Het. cbn [andb].
  destruct (decide (normalizedEmail e = email)) as [Hee|Hne].
  - pose proof (failed_reads e i errno s) as Hr. cbv zeta in Hr. rewrite Hee in *.
    destruct (decide (i = ip)) as [->|Hni].
    + rewrite bool_decide_eq_true_2 by done. intros u Hu. cbn [handle]. destruct (Hr u Het Hit Hu) as [H1 H2].
      split; exists env.(now); (split; [lia|]); [done|].
      unfold pair_at, pair_key. rewrite H1. by apply moves_add.
    + rewrite (bool_decide_eq_false_2 (i = ip /\ _)) in Hap, Hae by naive_solver.
      rewrite (bool_decide_eq_false_2 (i = ip /\ _)) by naive_solver. rewrite Z.add_0_r. apply steps_mail.
      * cbn [touched from_option id]. rewrite Hee. unfold record_keys. set_solver.
      * intros u Hu. exists env.(now). split; [lia|]. by apply Hr.
  - rewrite !bool_decide_eq_false_2 in Hap, Hae by naive_solver. rewrite bool_decide_eq_false_2 by naive_solver. rewrite Z.add_0_r.
    apply steps_untouched; cbn [touched from_option id]; unfold record_keys; set_solver.
Qed.

Lemma block_steps n e0 s : apart ip email env (QBlockEmail e0) -> steps env.(now) n n s (handle env (QBlockEmail e0) s).
Proof.
  intros [Hap Hae]. unfold other_keys, other_mail in Hap, Hae. pose proof pk_email as Hpe.
  destruct (decide (normalizedEmail (default ""%string e0) = email)) as [Hee|Hne].
  - apply steps_mail; [cbn [touched]; rewrite Hee; set_solver|]. intros u Hu. cbn [handle]. unfold Server.blockEmail.
    destruct (truthy_str e0) as [e|] eqn:He; [|by exists u]. apply truthy_value in He as <-. rewrite Hee.
    unfold handleBan, Dataflow.blockEmail. cbn [ban_ip ban_email when_truthy]. rewrite Hem. cbn [id].
    pose proof (flag_reads FBlock (store s) u Hu) as Hr. unfold id. exists env.(now). split; [lia|].
    destruct (flag_email _ _ _ _ _ _ _) as [m' ok]. exact Hr.
  - rewrite bool_decide_eq_false_2 in Hap, Hae by done. apply steps_untouched; cbn [touched]; set_solver.
Qed.

Lemma message_steps n config msg s : apart ip email env (QDataflow config msg) -> steps env.(now) n n s (handle env (QDataflow config msg) s).
Proof.
  intros [Hap Hae]. unfold other_keys, other_mail in Hap, Hae. pose proof pk_email as Hpe.
  destruct (parseMessage msg) as [[a [[sg t] i]]|] eqn:Hm.
  2: apply steps_untouched; cbn [touched]; rewrite Hm; set_solver.
  destruct t; [|apply steps_untouched; cbn [touched]; rewrite Hm; set_solver].
  destruct (decide (i = email)) as [->|Hne];
    [|rewrite bool_decide_eq_false_2 in Hap, Hae by done; apply steps_untouched; cbn [touched]; rewrite Hm; set_solver].
  apply steps_mail; [cbn [touched]; rewrite Hm; set_solver|]. intros u Hu. cbn [handle]. unfold reset_at. cbn [store].
  unfold handleMessage. rewrite Hm. destruct sg as [|f]; [by exists u|]. destruct (reportOnly config); [by exists u|].
  destruct (isFresh _ _ _); [|by exists u]. cbn [apply_flag]. exists env.(now). split; [lia|].
  pose proof (flag_reads f (store s) u Hu) as Hr. destruct (flag_email _ _ _ _ _ _ _) as [m' []]; exact Hr.
Qed.

Lemma handle_steps n q s :
  apart ip email env q -> ~ resets email q -> settled env.(now) s ->
  steps env.(now) n (n + if fails_login ip email q then 1 else 0) s (handle env q s).
Proof.
  intros Ha Hn Hs. destruct q as [q|a i uid|a i|e i errno|e|e|i|config msg]; try (cbn [fails_login]; rewrite Z.add_0_r).
  - by apply check_steps.
  - apply steps_untouched; apply Ha.
  - apply steps_untouched; apply Ha.
  - by apply failed_steps.
  - destruct Ha as [Hap Hae]. cbn [other_keys] in Hap, Hae. unfold other_mail in Hap, Hae. cbn [resets] in Hn.
    rewrite bool_decide_eq_false_2 in Hap, Hae by done. by apply steps_untouched.
  - by apply block_steps.
  - apply steps_untouched; apply Ha.
  - by apply message_steps.
Qed.
End Env.
End Steps.

(** ** Histories *)

(** A request handled since [t1] under the limits [lim], without a record
    under the keys of the pair for another purpose, and without a password
    reset of the e-mail. *)
Definition kept (lim : Limits.t) (t1 : Z) (ip email : string) (eq : Env * CustomsRequest) : Prop :=
  eq.1.(limits) = lim /\ 0 < eq.1.(recordLifetimeSeconds) /\ t1 <= eq.1.(now) /\
  apart ip email eq.1 eq.2 /\ ~ resets email eq.2.

(** The requests came one after the other, the last one by [t]. *)
Fixpoint chronological (t : Z) (h : list (Env * CustomsRequest)) : Prop :=
  match h with [] => True | (env, _) :: h => env.(now) <= t /\ chronological env.(now) h end.

Section History.
Context {M : Type} `{MemcachedLaws M StoredObject}.
Implicit Types (s : State (M := M)).

Lemma guarded_history lim t1 ip email h s t :
  0 <= maxBadLogins lim -> 0 < t1 -> str_truthy ip = true -> str_truthy email = true -> store_up (M := M) ->
  settled lim t1 ip email t1 s -> Forall (kept lim t1 ip email) h -> chronological t h ->
  t1 <= t < t1 + rateLimitIntervalMs lim ->
  guarded lim t1 ip email t (failures ip email h) (handle_all h s).
Proof.
  intros Hm Ht1 Hip Hem Hup Hs. revert t. induction h as [|[env q] h IH]; intros t Hk Hc Ht.
  - apply (guarded_later _ _ _ _ t1); [|lia]. split; [done|]. intros u Hu. right. eexists _, []. rewrite app_nil_r.
    split_and!; [done|constructor|]. change (failures ip email []) with 0. cbn [length]. lia.
  - apply Forall_cons in Hk as [(Hl & Hlife & Hn & Ha & Hr) Hk]. destruct Hc as [Hct Hc]. cbn [fst snd] in *.
    specialize (IH env.(now) Hk Hc ltac:(lia)). apply (guarded_later _ _ _ _ env.(now)); [|done]. cbn [handle_all].
    eapply guarded_steps; [exact IH|]. rewrite failures_cons. apply handle_steps; try done; try lia; apply IH.
Qed.

(** A check of a pair that has failed too often. *)
Lemma guarded_blocks env n s q ip email action t1 :
  let lim := env.(limits) in
  0 <= maxBadLogins lim -> 0 < rateLimitIntervalMs lim -> 0 < t1 -> t1 <= env.(now) < t1 + rateLimitIntervalMs lim ->
  guarded lim t1 ip email env.(now) n s -> maxBadLogins lim < n ->
  full_request q ip email action -> isPasswordCheckingAction action = true ->
  isAllowed env ip (Some email) (truthy_str q.(q_payload).(p_phoneNumber)) = false ->
  exists r, (check env q s).2 = Checked r /\ r_block r = true.
Proof.
  intros lim Hm Hi Ht1 Ht [Hs Hr] Hn Hq Ha Hal. destruct (full_request_truthy _ _ _ _ Hq) as [Hip He].
  rewrite (check_full env q ip email action) by done. set (p := clean_payload _).
  destruct (ip_banned env s ip) eqn:Hb.
  { eapply (run_check_blocks env); [done|done|done|by apply checked_banned|by intros x [= <-]]. }
  destruct (checked env s action ip email (q_userAgent q) p) as [m o] eqn:Ec.
  eapply (run_check_blocks env); [done|done|done|done|]. intros r ->. rewrite checked_unbanned in Ec by done.
  destruct (blocklisted env ip) as [listed|] eqn:El.
  2: unfold decide_check in Ec; rewrite El in Ec; by destruct (EmailRecord.canUnblock _ _ _).
  destruct (decide_check_spec env s action ip email (q_userAgent q) p listed El) as (u & r' & Ed & Hr'). rewrite Ed in Ec.
  destruct (saved env s ip email p u) as [m' []]; [|done]. injection Ec as <- <-. rewrite Hr'. unfold refused.
  assert (0 < pair_wait env s action ip email) as Hw; [|unfold must_wait; cbn [existsb];
    destruct (Z.ltb_spec 0 (pair_wait env s action ip email)); [by rewrite !orb_true_r|lia]].
  unfold pair_wait. change (ip_email_of env s ip email) with (pair_at ip email s env.(now)).
  assert (env.(now) <= env.(now) < t1 + rateLimitIntervalMs lim) as Ht' by lia.
  destruct (Hs env.(now) env.(now) Ht' Ht') as [Hg Hp].
  destruct (moves_update lim t1 Hm n env.(now) action (pair_at ip email s env.(now)) Ht) as [_ Hrl].
  pose proof (remembers_waits lim t1 Hm Hi Ht1 n env.(now) action _ Ha Ht Hn (Hr _ Ht')) as Hwait. fold lim.
  destruct (IpEmailRecord.update _ _ _ _) as [r2 w2]. cbn [fst snd] in *.
  change (EmailRecord.pr (email_of env s email)) with (reset_at email s env.(now)).
  replace (num_gtb _ _) with false; [done|]. symmetry. destruct Hrl as [->|(c & -> & Hc)]; [done|].
  destruct (reset_at email s env.(now)) as [x|]; [|done]. specialize (Hp x eq_refl). cbn. lia.
Qed.

(** [C1] Password guessing is stopped, end to end.  Take any history of
    requests that the customs server handles one after the other from [t1]
    on, with a store that works: checks of the pair of address and e-mail,
    failed logins, requests about others, blocks and Dataflow messages, but
    no password reset of the e-mail, and none outstanding at [t1].  Once it
    has more than [maxBadLogins] failed logins of the pair, every password
    check of the pair before [t1 + rateLimitIntervalMs], however many checks
    came before it, is blocked unless it is allowlisted. *)
Theorem password_guessing_blocked env h s q ip email action t1 :
  let lim := env.(limits) in
  0 <= maxBadLogins lim -> 0 < rateLimitIntervalMs lim -> 0 < t1 -> store_up (M := M) ->
  settled lim t1 ip email t1 s -> Forall (kept lim t1 ip email) h ->
  chronological env.(now) h -> t1 <= env.(now) < t1 + rateLimitIntervalMs lim ->
  maxBadLogins lim < failures ip email h ->
  full_request q ip email action -> isPasswordCheckingAction action = true ->
  isAllowed env ip (Some email) (truthy_str q.(q_payload).(p_phoneNumber)) = false ->
  exists r, (check env q (handle_all h s)).2 = Checked r /\ r_block r = true.
Proof.
  intros lim Hm Hi Ht1 Hup Hs Hk Hc Ht Hn Hq Ha Hal. destruct (full_request_truthy _ _ _ _ Hq) as [Hip He].
  eapply guarded_blocks; try done. by apply guarded_history.
Qed.
End History.

(** ** Keys that collide *)

(** The key of a pair is the address followed by the e-mail: the failures of
    one user lock out another, whose e-mail and address are split
    differently. *)
Definition three_failures (email ip : string) : list (Env * CustomsRequest) :=
  (fun t => (sample_env t, QFailedLogin (Some email) (Some ip) (Some 103))) <$> [1600000003000; 1600000002000; 1600000001000].

Definition blocks (r : Reply) : bool := match r with Checked r => r_block r | _ => false end.

Theorem pair_keys_collide :
  pair_key "1.2.3.4" "5a@x.org" = pair_key "1.2.3.45" "a@x.org" /\
  blocks (check (sample_env 1600000004000) (login "a@x.org" "1.2.3.45") (handle_all (three_failures "5a@x.org" "1.2.3.4") empty)).2 = true /\
  blocks (check (sample_env 1600000004000) (login "a@x.org" "1.2.3.45") (handle_all (three_failures "b@x.org" "1.2.3.4") empty)).2 = false.
Proof. split_and!; vm_compute; reflexivity. Qed.

(** ** A witness *)

(** Three failures with traffic in between, and a check that already throttled
    the pair and emptied its list. *)
Definition guessing : list (Env * CustomsRequest) :=
  [(sample_env 1600000005000, QCheck (login "a@x.org" "1.2.3.4"));
   (sample_env 1600000004000, QBlockIp (Some "9.9.9.9"%string));
   (sample_env 1600000003000, QFailedLogin (Some "A@x.org"%string) (Some "1.2.3.4"%string) (Some 103));
   (sample_env 1600000002500, QCheck (login "b@x.org" "1.2.3.4"));
   (sample_env 1600000002000, QFailedLogin (Some "a@x.org"%string) (Some "1.2.3.4"%string) (Some 103));
   (sample_env 1600000001500, QCheck (login "a@x.org" "1.2.3.4"));
   (sample_env 1600000001000, QFailedLogin (Some "a@x.org"%string) (Some "1.2.3.4"%string) (Some 103))].

Lemma guessing_kept t1 : t1 <= 1600000001000 -> Forall (kept Limits.sample t1 "1.2.3.4" "a@x.org") guessing.
Proof.
  intros Ht. repeat constructor; cbn [fst snd resets]; try (cbn; lia); try done; apply (bool_decide_unpack _); vm_compute; exact I.
Qed.

Lemma empty_settled lim t1 ip email t : settled lim t1 ip email t (empty : State (M := mem)).
Proof. intros u v _ _. split; [reflexivity|done]. Qed.

Lemma password_guessing_blocked_witness :
  (pair_at "1.2.3.4" "a@x.org" (handle_all guessing empty) 1600000006000).(IpEmailRecord.lf) = [] /\
  exists r, (check (sample_env 1600000006000) (login "a@x.org" "1.2.3.4") (handle_all guessing empty)).2 = Checked r /\ r_block r = true.
Proof.
  split; [vm_compute; reflexivity|].
  apply (password_guessing_blocked (sample_env 1600000006000) guessing empty (login "a@x.org" "1.2.3.4") "1.2.3.4" "a@x.org" "accountLogin" 1600000001000).
  - cbn. lia.
  - cbn. lia.
  - lia.
  - intros m k v life t. reflexivity.
  - apply empty_settled.
  - apply guessing_kept. lia.
  - cbn. lia.
  - cbn. lia.
  - vm_compute. reflexivity.
  - apply (login_full "a@x.org"); reflexivity.
  - reflexivity.
  - vm_compute. reflexivity.
Defined.
