(* ===== verification/ScopeValues.v ===== *)
(** * Scope values and their implicants
    (packages/fxa-shared/oauth/scopes.js, getImplicantValues)

    A scope is a short name such as [profile:email:write] or an https URL.
    The implicants of a scope are the scopes that grant it. *)

From S2P Require Import Prelude Text.
From Stdlib Require Import Ascii.

#[local] Open Scope string_scope.

(** ** JavaScript helpers *)

Fixpoint string_forall (p : ascii -> bool) (s : string) : bool :=
  match s with "" => true | String a s' => p a && string_forall p s' end.

(** [l.join(c)] *)
Fixpoint join (c : string) (l : list string) : string :=
  match l with
  | [] => ""
  | [x] => x
  | x :: l' => x ++ c ++ join c l'
  end.

(** What precedes the first [c], and what follows it if there is one. *)
Fixpoint split_first (c : ascii) (s : string) : string * option string :=
  match s with
  | "" => ("", None)
  | String a s' =>
      if Ascii.eqb a c then ("", Some s')
      else let '(h, t) := split_first c s' in (String a h, t)
  end.

(** [s.slice(pre.length)] when [s.startsWith(pre)]. *)
Fixpoint strip_prefix (pre s : string) : option string :=
  match pre, s with
  | "", _ => Some s
  | String a pre', String b s' => if Ascii.eqb a b then strip_prefix pre' s' else None
  | _, "" => None
  end.

Definition char_between (lo hi : nat) (a : ascii) : bool :=
  (lo <=? nat_of_ascii a)%nat && (nat_of_ascii a <=? hi)%nat.

(** [/^[\x21\x23-\x5B\x5D-\x7E]+$/] *)
Definition VALID_SCOPE_VALUE (s : string) : bool :=
  str_truthy s &&
  string_forall (fun a => char_between 33 33 a || char_between 35 91 a || char_between 93 126 a) s.

Definition name_char (a : ascii) : bool :=
  char_between 97 122 a || char_between 65 90 a || char_between 48 57 a || Ascii.eqb a "_".

(** [/^[a-zA-Z0-9_]+$/] *)
Definition VALID_SHORT_NAME_VALUE (s : string) : bool := str_truthy s && string_forall name_char s.

(** [/^#[a-zA-Z0-9_]+$/], on what follows the [#]. *)
Definition VALID_FRAGMENT_VALUE (s : string) : bool := VALID_SHORT_NAME_VALUE s.

(** ** Short-name scopes *)

(** The validation: the name components without the final [write], and
    whether it was there; [None]: the function throws. *)
Definition parse_short (value : string) : option (list string * bool) :=
  if VALID_SCOPE_VALUE value && forallb VALID_SHORT_NAME_VALUE (split_on ":" value) then
    match reverse (split_on ":" value) with
    | [] => None
    | last :: rest =>
        if String.eqb last "write"
        then match rest with [] => None | _ => Some (reverse rest, true) end
        else Some (split_on ":" value, false)
    end
  else None.

(** The [while] loop, on the remaining components (last one first). *)
Fixpoint short_loop (hasWrite : bool) (rnames : list string) : list string :=
  match rnames with
  | [] => []
  | _ :: rest =>
      let name := join ":" (reverse rnames) in
      String.append name ":write" :: ((if hasWrite then [] else [name]) ++ short_loop hasWrite rest)%list
  end.

Definition getImplicantValuesForShortScope (value : string) : option (list string) :=
  match parse_short value with
  | Some (names, hasWrite) => Some (short_loop hasWrite (reverse names))
  | None => None
  end.

(** ** URL-format scopes

    [href_of s] stands for [new URL(s).href] of the platform's URL parser
    ([None]: it throws).  A scope must equal its own [href], and the parts of
    such a canonical URL are read off the string. *)
Section Urls.
Context (href_of : string -> option string).

Record Url := mkUrl { authority : string; pathname : string; hash : option string }.

(** [new URL(value)] with the checks that follow it.  [url.query] is no
    property of URL objects, so a query is not refused; it is part of no
    field read later. *)
Definition parse_url (value : string) : option Url :=
  if VALID_SCOPE_VALUE value && bool_decide (href_of value = Some value) then
    match strip_prefix "https://" value with
    | None => None
    | Some rest =>
        let '(no_hash, frag) := split_first "#" rest in
        let '(no_query, _) := split_first "?" no_hash in
        match split_first "/" no_query with
        | (auth, Some path) =>
            let url_hash := match frag with Some h => if str_truthy h then Some h else None | None => None end in
            if avoids "@" auth && negb (endsWith "/" ("/" ++ path)) &&
               match url_hash with Some h => VALID_FRAGMENT_VALUE h | None => true end
            then Some (mkUrl auth ("/" ++ path) url_hash) else None
        | (_, None) => None
        end
    end
  else None.

(** [new URL(rel, url).href] for a [rel] that starts with a slash. *)
Definition resolve_path (u : Url) (rel : string) : option string :=
  if String.prefix "//" rel then href_of ("https:" ++ rel)
  else Some ("https://" ++ u.(authority) ++ rel).

(** The [while] loop, on the remaining path parts (last one first). *)
Fixpoint url_loop (u : Url) (rparts : list string) : option (list string) :=
  match rparts with
  | [] | [_] => Some []
  | _ :: rest =>
      let path := join "/" (reverse rparts) in
      here ← resolve_path u path;
      tagged ← match u.(hash) with
               | Some h => r ← resolve_path u (path ++ "#" ++ h); Some [r]
               | None => Some []
               end;
      parents ← url_loop u rest;
      Some (here :: (tagged ++ parents)%list)
  end.

Definition getImplicantValuesForURLScope (value : string) : option (list string) :=
  u ← parse_url value; url_loop u (reverse (split_on "/" u.(pathname))).

Definition getImplicantValues (value : string) : option (list string) :=
  if String.prefix "https:" value then getImplicantValuesForURLScope value
  else getImplicantValuesForShortScope value.

End Urls.

(** ** Lemmas on strings *)

#[local] Arguments String.append !_ _ / : simpl nomatch.

Lemma join_cons c x l : l <> [] -> join c (x :: l) = x ++ c ++ join c l.
Proof. by destruct l. Qed.

Lemma join_split c s : join (String c "") (split_on c s) = s.
Proof.
  induction s as [|a s IH]; simpl; [done|]. destruct (Ascii.eqb_spec a c) as [->|Hne].
  - rewrite join_cons; [by rewrite IH|]. by destruct s as [|b s]; simpl; [|destruct (Ascii.eqb b c); [|destruct (split_on c s)]].
  - destruct (split_on c s) as [|h t] eqn:E; [by rewrite <- IH|].
    destruct t as [|h' t]; [by rewrite <- IH|]. simpl in IH |- *. by rewrite <- IH.
Qed.

Lemma split_join c l :
  l <> [] -> Forall (fun x => avoids c x = true) l -> split_on c (join (String c "") l) = l.
Proof.
  induction l as [|x l IH]; [done|]. intros _ Hl. inversion Hl as [|? ? Hx Hl']; subst.
  destruct l as [|y l]; [by apply split_on_avoids|].
  rewrite join_cons by done. simpl (String c "" ++ _). rewrite split_on_app by done. f_equal. by apply IH.
Qed.

Lemma join_snoc c l x : l <> [] -> join c (l ++ [x])%list = join c l ++ c ++ x.
Proof.
  induction l as [|y l IH]; [done|]. intros _. destruct l as [|z l]; [done|].
  change ((y :: z :: l) ++ [x])%list with (y :: ((z :: l) ++ [x]))%list.
  rewrite !join_cons by (done || by destruct l). rewrite IH by done. by rewrite !append_assoc.
Qed.

Lemma prefix_snoc_iff {A} (p l : list A) x : p `prefix_of` (l ++ [x])%list <-> p `prefix_of` l \/ p = (l ++ [x])%list.
Proof.
  split.
  - intros [k Hk]. destruct k as [|y k _] using rev_ind; [right; by rewrite app_nil_r in Hk|].
    left. exists k. rewrite app_assoc in Hk. by apply app_inj_tail in Hk as [-> _].
  - intros [[k ->]| ->]; [|done]. exists (k ++ [x])%list. by rewrite app_assoc.
Qed.

(** ** The implicants of a short-name scope *)

(** [u] is the write or, for a read-only scope, the read value of a prefix. *)
Definition short_implicant (names : list string) (hasWrite : bool) (u : string) : Prop :=
  exists p, p <> [] /\ p `prefix_of` names /\
    (u = join ":" p ++ ":write" \/ hasWrite = false /\ u = join ":" p).

Lemma elem_short_loop w rnames u : u ∈ short_loop w rnames <-> short_implicant (reverse rnames) w u.
Proof.
  induction rnames as [|x rest IH].
  - simpl. split; [by intros ?%elem_of_nil|]. intros (p & Hp & [k Hk] & _). by destruct p.
  - cbn [short_loop]. rewrite reverse_cons. rewrite elem_of_cons, elem_of_app, IH.
    unfold short_implicant. split.
    + intros [->|[Hu|(p & Hp & Hpre & Hu)]].
      * exists (reverse rest ++ [x])%list. split; [by destruct (reverse rest)|]. auto.
      * exists (reverse rest ++ [x])%list. split; [by destruct (reverse rest)|]. split; [done|].
        right. destruct w; [by apply elem_of_nil in Hu|]. split; [done|]. set_solver.
      * exists p. split; [done|]. split; [|done]. by apply prefix_app_r.
    + intros (p & Hp & [Hpre| ->]%prefix_snoc_iff & Hu).
      * right. right. exists p. auto.
      * destruct Hu as [->|[-> ->]]; [by left|]. right. left. set_solver.
Qed.

Lemma name_avoids_colon s : VALID_SHORT_NAME_VALUE s = true -> avoids ":" s = true.
Proof.
  unfold VALID_SHORT_NAME_VALUE. intros [_ H]%andb_true_iff.
  induction s as [|a s IH]; [done|]. simpl in *. apply andb_true_iff in H as [Ha Hs].
  rewrite (IH Hs), andb_true_r. apply negb_true_iff.
  destruct (Ascii.eqb_spec a ":") as [->|]; [done|done].
Qed.

(** A scope value is printed from its parts. *)
Definition print_short (names : list string) (hasWrite : bool) : string :=
  if hasWrite then join ":" names ++ ":write" else join ":" names.

Definition short_ok (names : list string) (hasWrite : bool) : Prop :=
  names <> [] /\ Forall (fun x => VALID_SHORT_NAME_VALUE x = true) names /\
  (hasWrite = false -> List.last names "" <> "write").

Lemma name_scope_char a : name_char a = true ->
  char_between 33 33 a || char_between 35 91 a || char_between 93 126 a = true.
Proof. by destruct a as [[] [] [] [] [] [] [] []]. Qed.

Lemma parse_short_split value names w :
  parse_short value = Some (names, w) ->
  split_on ":" value = (names ++ if w then ["write"] else [])%list /\ short_ok names w.
Proof.
  unfold parse_short. destruct (_ && _) eqn:E; [|done]. apply andb_true_iff in E as [_ Hn].
  assert (Forall (fun x => VALID_SHORT_NAME_VALUE x = true) (split_on ":" value)) as HF.
  { apply Forall_forall. rewrite forallb_forall in Hn. intros x Hx. apply Hn. by apply list_elem_of_In. }
  intros H. destruct (reverse (split_on ":" value)) as [|l rest] eqn:Er; [done|].
  apply (f_equal reverse) in Er. rewrite reverse_involutive, reverse_cons in Er. rewrite Er in HF |- *.
  apply Forall_app in HF as [HF Hl].
  destruct (String.eqb_spec l "write") as [->|Hne].
  - destruct rest as [|y rest]; [done|]. injection H as <- <-. split; [done|].
    split; [|by split]. rewrite reverse_cons. by destruct (reverse rest).
  - injection H as <- <-. rewrite Er, app_nil_r. split; [done|]. split; [by destruct (reverse rest)|].
    split; [by apply Forall_app|]. intros _. by rewrite List.last_last.
Qed.

Lemma print_of_parse value names w : parse_short value = Some (names, w) -> print_short names w = value.
Proof.
  intros [Hs (Hne & _)]%parse_short_split. rewrite <- (join_split ":" value), Hs. unfold print_short.
  destruct w; [by rewrite join_snoc|by rewrite app_nil_r].
Qed.

Lemma string_forall_app p s t : string_forall p (s ++ t) = string_forall p s && string_forall p t.
Proof. induction s as [|a s IH]; simpl; [done|]. by rewrite IH, andb_assoc. Qed.

Lemma string_forall_impl p q s :
  (forall a, p a = true -> q a = true) -> string_forall p s = true -> string_forall q s = true.
Proof.
  intros Hpq. induction s as [|a s IH]; simpl; [done|]. intros [Ha Hs]%andb_true_iff. by rewrite (Hpq a Ha), IH.
Qed.

Lemma join_chars p c l :
  string_forall p c = true -> Forall (fun x => string_forall p x = true) l -> string_forall p (join c l) = true.
Proof.
  intros Hc. induction 1 as [|x l Hx Hl IH]; [done|]. destruct l as [|y l]; [done|].
  rewrite join_cons by done. by rewrite !string_forall_app, Hx, Hc, IH.
Qed.

Lemma join_truthy c l : l <> [] -> Forall (fun x => str_truthy x = true) l -> str_truthy (join c l) = true.
Proof.
  intros Hne. destruct 1 as [|x l Hx Hl]; [done|]. destruct l; [done|]. rewrite join_cons by done. by destruct x.
Qed.

Lemma names_valid_scope l :
  l <> [] -> Forall (fun x => VALID_SHORT_NAME_VALUE x = true) l -> VALID_SCOPE_VALUE (join ":" l) = true.
Proof.
  intros Hne HF. unfold VALID_SCOPE_VALUE, VALID_SHORT_NAME_VALUE in *. apply andb_true_iff. split.
  - apply join_truthy; [done|]. eapply Forall_impl; [exact HF|]. by intros x [? _]%andb_true_iff.
  - apply join_chars; [done|]. eapply Forall_impl; [exact HF|]. intros x [_ Hx]%andb_true_iff.
    revert Hx. apply string_forall_impl, name_scope_char.
Qed.

Lemma parse_print names w : short_ok names w -> parse_short (print_short names w) = Some (names, w).
Proof.
  intros (Hne & HF & Hw). set (l := (names ++ if w then ["write"] else [])%list).
  assert (print_short names w = join ":" l) as ->.
  { unfold print_short, l. destruct w; [by rewrite join_snoc|by rewrite app_nil_r]. }
  assert (l <> []) as Hl by (unfold l; by destruct names).
  assert (Forall (fun x => VALID_SHORT_NAME_VALUE x = true) l) as HFl.
  { unfold l. apply Forall_app. split; [done|]. destruct w; by repeat constructor. }
  unfold parse_short. rewrite (split_join ":" l) by
    (done || (eapply Forall_impl; [exact HFl|]; apply name_avoids_colon)).
  rewrite names_valid_scope by done. simpl.
  replace (forallb VALID_SHORT_NAME_VALUE l) with true by
    (symmetry; apply forallb_forall; intros x Hx; rewrite Forall_forall in HFl; by apply HFl, list_elem_of_In).
  unfold l. destruct w.
  - rewrite reverse_snoc. cbn [String.eqb]. simpl.
    destruct (reverse names) as [|y r] eqn:Er; [apply (f_equal reverse) in Er; by rewrite reverse_involutive in Er|].
    by rewrite <- Er, reverse_involutive.
  - rewrite app_nil_r. destruct names as [|x names _] using rev_ind; [done|]. rewrite reverse_snoc.
    rewrite (proj2 (String.eqb_neq x "write")); [done|]. specialize (Hw eq_refl). by rewrite List.last_last in Hw.
Qed.

Lemma print_short_inj n1 w1 n2 w2 :
  short_ok n1 w1 -> short_ok n2 w2 -> print_short n1 w1 = print_short n2 w2 -> n1 = n2 /\ w1 = w2.
Proof.
  intros H1 H2 E. pose proof (parse_print n1 w1 H1) as P1. rewrite E, (parse_print n2 w2 H2) in P1.
  by injection P1.
Qed.

Lemma short_ok_prefix p names w : p <> [] -> p `prefix_of` names -> short_ok names w -> short_ok p true.
Proof. intros Hp [k ->] (_ & [HF _]%Forall_app & _). by repeat split. Qed.

(** The values of a prefix, as scopes: a prefix that itself ends in [write]
    prints as a write scope. *)
Lemma implicant_parts names w u un uw :
  short_ok names w -> parse_short u = Some (un, uw) -> short_implicant names w u ->
  un `prefix_of` names /\ (w = true -> uw = true).
Proof.
  intros Hok Hu (p & Hp & Hpre & Hval).
  pose proof (parse_short_split u un uw Hu) as [_ Hu'].
  assert (u <> "write") as Hnw by (intros ->; vm_compute in Hu; done). apply print_of_parse in Hu.
  assert (forall q, q <> [] -> q `prefix_of` names -> u = join ":" q ++ ":write" -> un = q /\ uw = true) as Hwr.
  { intros q Hq Hqp ->. apply (print_short_inj un uw q true); [done|by apply (short_ok_prefix q names w)|done]. }
  destruct Hval as [E|[-> E]].
  - by destruct (Hwr p Hp Hpre E) as [-> ->].
  - split; [|done]. destruct p as [|x p _] using rev_ind; [done|].
    destruct (String.eqb_spec x "write") as [->|Hx].
    + destruct p as [|y p]; [by rewrite E in Hnw|].
      assert ((y :: p) `prefix_of` names) as Hyp by (by eapply prefix_app_l).
      destruct (Hwr (y :: p) ltac:(done) Hyp) as [-> _]; [|done]. rewrite E. by rewrite join_snoc.
    + destruct (print_short_inj un uw (p ++ [x])%list false) as [-> _]; [done| | |done].
      * destruct (short_ok_prefix _ names false Hp Hpre Hok) as (_ & HF & _). split; [done|]. split; [done|].
        intros _. by rewrite List.last_last.
      * by rewrite Hu.
Qed.

(** The implicants computed for a short-name scope are exactly its
    implicants in the sense of the documentation: among valid scopes, [u]
    implies [v] iff the names of [u] are a prefix of those of [v], and only a
    write scope implies a write scope. *)
Theorem short_implicants_exact u v un uw vn vw :
  parse_short u = Some (un, uw) -> parse_short v = Some (vn, vw) ->
  exists I, getImplicantValuesForShortScope v = Some I /\
    (u ∈ I <-> un `prefix_of` vn /\ (vw = true -> uw = true)).
Proof.
  intros Hu Hv. unfold getImplicantValuesForShortScope. rewrite Hv. eexists. split; [done|].
  rewrite elem_short_loop, reverse_involutive.
  pose proof (parse_short_split _ _ _ Hv) as [_ Hok]. pose proof (parse_short_split _ _ _ Hu) as [_ (Hne & _)].
  split; [by apply implicant_parts|]. intros [Hpre Hw]. exists un. split; [done|]. split; [done|].
  rewrite <- (print_of_parse _ _ _ Hu). unfold print_short.
  destruct uw; [by left|]. right. split; [|done]. destruct vw; [by specialize (Hw eq_refl)|done].
Qed.

(** ** The implicants of a URL-format scope *)

Lemma split_first_spec c s h t :
  split_first c s = (h, t) ->
  avoids c h = true /\ s = match t with Some t' => h ++ String c t' | None => h end.
Proof.
  revert h t. induction s as [|a s IH]; intros h t; simpl; [by intros [= <- <-]|].
  destruct (Ascii.eqb_spec a c) as [->|Hne]; [by intros [= <- <-]|].
  destruct (split_first c s) as [h' t'] eqn:E. intros [= <- <-].
  destruct (IH h' t' eq_refl) as [Ha Hs]. simpl. rewrite Ha, Hs.
  rewrite (proj2 (Ascii.eqb_neq a c)) by done. by destruct t'.
Qed.

Lemma split_first_app c h t : avoids c h = true -> split_first c (h ++ String c t) = (h, Some t).
Proof.
  induction h as [|a h IH]; simpl; [by rewrite Ascii.eqb_refl|]. intros [Ha Hh]%andb_true_iff.
  apply negb_true_iff in Ha. by rewrite Ha, IH.
Qed.

Lemma split_first_none c h : avoids c h = true -> split_first c h = (h, None).
Proof.
  induction h as [|a h IH]; simpl; [done|]. intros [Ha Hh]%andb_true_iff.
  apply negb_true_iff in Ha. by rewrite Ha, IH.
Qed.

Lemma strip_prefix_spec pre s t : strip_prefix pre s = Some t <-> s = pre ++ t.
Proof.
  revert s. induction pre as [|a pre IH]; intros s; simpl; [split; congruence|].
  destruct s as [|b s]; [done|]. destruct (Ascii.eqb_spec a b) as [->|Hne].
  - rewrite IH. split; congruence.
  - split; [done|]. by intros [= ? _].
Qed.

(** The string of a URL without query. *)
Definition print_url (u : Url) : string :=
  "https://" ++ u.(authority) ++ u.(pathname) ++
  match u.(hash) with Some h => "#" ++ h | None => "" end.

(** A scope without query, without empty fragment, whose path does not start
    with two slashes. *)
Definition plain_url (value : string) (u : Url) : Prop :=
  value = print_url u /\ String.prefix "//" u.(pathname) = false.

(** What the parser guarantees of the parts of a plain URL. *)
Record url_ok (u : Url) : Prop := {
  uo_auth : avoids "/" u.(authority) = true /\ avoids "#" u.(authority) = true;
  uo_path : exists c path, u.(pathname) = String "/" (String c path);
  uo_path_hash : avoids "#" u.(pathname) = true }.

Section UrlLaws.
Context (href_of : string -> option string).

Lemma parse_url_ok value u : parse_url href_of value = Some u -> url_ok u.
Proof.
  unfold parse_url. destruct (_ && _); [|done]. destruct (strip_prefix "https://" value) as [rest|]; [|done].
  destruct (split_first "#" rest) as [nh frag] eqn:Eh. destruct (split_first "?" nh) as [nq query] eqn:Eq.
  destruct (split_first "/" nq) as [auth [path|]] eqn:Es; [|done].
  destruct (_ && match _ with Some h => VALID_FRAGMENT_VALUE h | None => true end) eqn:Ec; [|done]. intros [= <-].
  apply andb_true_iff in Ec as [[_ Hend]%andb_true_iff _].
  apply split_first_spec in Eh as [Hh _], Eq as [_ ->], Es as [Hs ->].
  assert (avoids "#" (auth ++ String "/" path) = true) as Hnq.
  { destruct query as [q|]; [|done]. rewrite avoids_app in Hh. by apply andb_true_iff in Hh as [? _]. }
  rewrite avoids_app in Hnq. apply andb_true_iff in Hnq as [Ha Hp].
  split; simpl; [done| |done]. destruct path as [|c path]; [done|]. eauto.
Qed.

Lemma resolve_plain u p q tail :
  str_truthy p = true -> avoids "/" p = true ->
  resolve_path href_of u (join "/" ("" :: p :: q) ++ tail) =
  Some ("https://" ++ u.(authority) ++ join "/" ("" :: p :: q) ++ tail).
Proof.
  intros Hp Ha. unfold resolve_path. destruct p as [|c p]; [done|]. simpl in Ha.
  apply andb_true_iff in Ha as [Hc _]. apply negb_true_iff, Ascii.eqb_neq in Hc.
  assert (exists rest, join "/" ("" :: String c p :: q) ++ tail = String "/" (String c rest)) as [rest ->].
  { destruct q; simpl; eauto. }
  assert (String.prefix "//" (String "/" (String c rest)) = false) as ->; [|done].
  cbn [String.prefix]. destruct (ascii_dec "/" "/"); [|done]. destruct (ascii_dec "/" c); [congruence|done].
Qed.

(** The value of a parent resource, with or without the fragment. *)
Definition url_implicant (u : Url) (parts : list string) (x : string) : Prop :=
  exists q, (2 <= length q)%nat /\ q `prefix_of` parts /\
    (x = "https://" ++ u.(authority) ++ join "/" q \/
     exists h, u.(hash) = Some h /\ x = "https://" ++ u.(authority) ++ join "/" q ++ "#" ++ h).

Lemma url_implicant_snoc u l y x :
  (1 <= length l)%nat ->
  url_implicant u (l ++ [y])%list x <->
  url_implicant u l x \/ x = "https://" ++ u.(authority) ++ join "/" (l ++ [y])%list \/
  exists h, u.(hash) = Some h /\ x = "https://" ++ u.(authority) ++ join "/" (l ++ [y])%list ++ "#" ++ h.
Proof.
  intros Hl. unfold url_implicant. split.
  - intros (q & Hq & [Hp| ->]%prefix_snoc_iff & Hx); [left; by exists q|]. naive_solver.
  - intros [(q & Hq & Hp & Hx)|Hx].
    + exists q. split; [done|]. split; [by apply prefix_app_r|done].
    + exists (l ++ [y])%list. split; [rewrite length_app; simpl; lia|]. split; [done|]. naive_solver.
Qed.

Lemma url_loop_cons u y r :
  r <> [] ->
  url_loop href_of u (y :: r) =
  (here ← resolve_path href_of u (join "/" (reverse (y :: r)));
   tagged ← match u.(hash) with
            | Some h => x ← resolve_path href_of u (join "/" (reverse (y :: r)) ++ "#" ++ h); Some [x]
            | None => Some []
            end;
   parents ← url_loop href_of u r;
   Some (here :: (tagged ++ parents)%list)).
Proof. by destruct r. Qed.

Lemma url_loop_spec u p k rparts :
  str_truthy p = true -> avoids "/" p = true -> reverse rparts `prefix_of` ("" :: p :: k) ->
  exists I, url_loop href_of u rparts = Some I /\ forall x, x ∈ I <-> url_implicant u (reverse rparts) x.
Proof.
  intros Hp Ha. induction rparts as [|y rest IH]; intros Hpre.
  - exists []. split; [done|]. intros x. split; [by intros ?%elem_of_nil|]. intros (q & Hq & Hqp & _).
    apply prefix_length in Hqp. simpl in Hqp. lia.
  - destruct rest as [|z rest].
    + exists []. split; [done|]. intros x. split; [by intros ?%elem_of_nil|]. intros (q & Hq & Hqp & _).
      apply prefix_length in Hqp. simpl in Hqp. lia.
    + set (r := z :: rest) in *. rewrite reverse_cons in Hpre |- *.
      destruct IH as (I & HI & Hspec); [by eapply prefix_app_l|].
      assert (exists q, (reverse r ++ [y])%list = "" :: p :: q) as [q Hq].
      { assert (2 <= length (reverse r ++ [y])%list)%nat as Hlen
          by (unfold r; rewrite reverse_cons, !length_app; simpl; lia).
        destruct (reverse r ++ [y])%list as [|a [|b q]]; simpl in Hlen; try lia.
        destruct Hpre as [k' Hk]. injection Hk as <- <- _. eauto. }
      pose proof (fun x => url_implicant_snoc u (reverse r) y x) as Hsn.
      assert (1 <= length (reverse r))%nat as Hr by (unfold r; rewrite reverse_cons, length_app; simpl; lia).
      rewrite url_loop_cons, reverse_cons by done. rewrite Hq in Hsn |- *.
      pose proof (resolve_plain u p q "" Hp Ha) as Hres. rewrite append_nil_r in Hres. rewrite Hres.
      cbn [mbind option_bind]. destruct (hash u) as [h|] eqn:Eh.
      * rewrite (resolve_plain u p q ("#" ++ h)) by done. cbn [mbind option_bind]. rewrite HI.
        eexists. split; [done|]. intros x. rewrite Hsn, <- Hspec by done. set_solver.
      * cbn [mbind option_bind]. rewrite HI. eexists. split; [done|]. intros x.
        rewrite Hsn, <- Hspec by done. set_solver.
Qed.

Lemma plain_parts u :
  url_ok u -> String.prefix "//" u.(pathname) = false ->
  exists p k, split_on "/" u.(pathname) = "" :: p :: k /\ str_truthy p = true /\ avoids "/" p = true.
Proof.
  intros [_ (c & path & Hp) _] Hpl. rewrite Hp in Hpl |- *. cbn [split_on]. rewrite Ascii.eqb_refl.
  assert (c <> "/"%char) as Hc.
  { intros ->. cbn [String.prefix] in Hpl. destruct (ascii_dec "/" "/"); [by destruct path|congruence]. }
  rewrite (proj2 (Ascii.eqb_neq c "/")) by done.
  pose proof (split_on_pieces "/" path) as HF. destruct (split_on "/" path) as [|h t].
  - exists (String c ""), []. simpl. by rewrite (proj2 (Ascii.eqb_neq c "/")).
  - exists (String c h), t. split; [done|]. split; [done|]. inversion HF; subst. simpl.
    by rewrite (proj2 (Ascii.eqb_neq c "/")).
Qed.

Lemma url_implicants_spec value u :
  parse_url href_of value = Some u -> String.prefix "//" u.(pathname) = false ->
  exists I, getImplicantValuesForURLScope href_of value = Some I /\
    forall x, x ∈ I <-> url_implicant u (split_on "/" u.(pathname)) x.
Proof.
  intros Hp Hpl. pose proof (parse_url_ok _ _ Hp) as Hok.
  destruct (plain_parts u Hok Hpl) as (p & k & Hparts & Ht & Ha).
  unfold getImplicantValuesForURLScope. rewrite Hp. cbn [mbind option_bind].
  destruct (url_loop_spec u p k (reverse (split_on "/" u.(pathname))) Ht Ha) as (I & HI & Hspec).
  { by rewrite reverse_involutive, Hparts. }
  exists I. split; [done|]. intros x. by rewrite Hspec, reverse_involutive.
Qed.

(** The implicants of a URL scope whose path does not start with two
    slashes are exactly its parent resources on the same authority, itself
    included, each bare and, when the scope has a fragment, with that
    fragment; in particular a scope without query implies itself. *)
Theorem url_implicants_exact value u :
  parse_url href_of value = Some u -> String.prefix "//" u.(pathname) = false ->
  exists I, getImplicantValuesForURLScope href_of value = Some I /\
    (forall x, x ∈ I <-> url_implicant u (split_on "/" u.(pathname)) x) /\
    (value = print_url u -> value ∈ I).
Proof.
  intros Hp Hpl. destruct (url_implicants_spec value u Hp Hpl) as (I & HI & Hspec).
  exists I. split; [done|]. split; [done|]. intros Hv. apply Hspec.
  destruct (plain_parts u (parse_url_ok _ _ Hp) Hpl) as (p & k & Hparts & _).
  exists (split_on "/" u.(pathname)). split; [rewrite Hparts; simpl; lia|]. split; [done|].
  rewrite (join_split "/" u.(pathname)), Hv. unfold print_url.
  destruct (hash u) as [h|]; [eauto|]. left. by rewrite append_nil_r.
Qed.

Lemma print_url_inj u1 u2 : url_ok u1 -> url_ok u2 -> print_url u1 = print_url u2 -> u1 = u2.
Proof.
  intros [[A1 _] (c1 & p1 & P1) H1] [[A2 _] (c2 & p2 & P2) H2] E. unfold print_url in E.
  assert (forall (s t : string), "https://" ++ s = "https://" ++ t -> s = t) as Hinj by (intros s t [=]; done).
  apply Hinj in E. clear Hinj.
  assert (forall u c p, pathname u = String "/" (String c p) -> avoids "/" (authority u) = true ->
    split_first "/" (authority u ++ pathname u ++ match hash u with Some h => "#" ++ h | None => "" end) =
    (authority u, Some (String c (p ++ match hash u with Some h => "#" ++ h | None => "" end)))) as Hsplit.
  { intros u c p Hp Ha. rewrite Hp. by apply split_first_app. }
  pose proof (Hsplit u1 c1 p1 P1 A1) as E1. rewrite E, (Hsplit u2 c2 p2 P2 A2) in E1.
  assert (authority u1 = authority u2) as Ea by congruence.
  assert (pathname u1 ++ match hash u1 with Some h => "#" ++ h | None => "" end =
          pathname u2 ++ match hash u2 with Some h => "#" ++ h | None => "" end) as Ep.
  { rewrite P1, P2. injection E1 as _ Hc Hr. cbn [String.append]. by rewrite Hc, Hr. }
  assert (forall u, avoids "#" (pathname u) = true ->
    split_first "#" (pathname u ++ match hash u with Some h => "#" ++ h | None => "" end) =
    (pathname u, hash u)) as Hfrag.
  { intros u Hu. destruct (hash u) as [h|]; [by apply split_first_app|]. rewrite append_nil_r. by apply split_first_none. }
  pose proof (Hfrag u1 H1) as E3. rewrite Ep, (Hfrag u2 H2) in E3.
  destruct u1, u2; simpl in *. congruence.
Qed.

Lemma join_app_prefix c q k : q <> [] -> exists tail, join c (q ++ k)%list = join c q ++ tail.
Proof.
  induction q as [|x q IH]; [done|]. intros _. destruct q as [|y q].
  - destruct k as [|z k]; [exists ""; by rewrite append_nil_r|]. exists (c ++ join c (z :: k)). done.
  - destruct IH as [tail Ht]; [done|]. exists tail.
    change ((x :: y :: q) ++ k)%list with (x :: ((y :: q) ++ k))%list.
    rewrite !join_cons by done. by rewrite Ht, !append_assoc.
Qed.

(** A plain URL that is an implicant of a plain URL has the same authority, a
    prefix of its path, and no other fragment. *)
Lemma url_implicant_parts uy uz :
  url_ok uy -> url_ok uz -> String.prefix "//" uz.(pathname) = false ->
  url_implicant uz (split_on "/" uz.(pathname)) (print_url uy) ->
  uy.(authority) = uz.(authority) /\ split_on "/" uy.(pathname) `prefix_of` split_on "/" uz.(pathname) /\
  (forall h, uy.(hash) = Some h -> uz.(hash) = Some h).
Proof.
  intros Hy Hz Hpl (q & Hq & Hpre & Hx).
  destruct (plain_parts uz Hz Hpl) as (p & k & Hparts & Ht & Ha).
  assert (Forall (fun x => avoids "/" x = true) q) as HF.
  { destruct Hpre as [k' Hk]. pose proof (split_on_pieces "/" (pathname uz)) as HF. rewrite Hk in HF.
    by apply Forall_app in HF as [HF _]. }
  assert (q <> []) as Hne by (by intros ->; simpl in Hq; lia).
  set (u' hsh := mkUrl (authority uz) (join "/" q) hsh).
  assert (forall hsh, url_ok (u' hsh)) as Hok'.
  { intros hsh. destruct Hz as [Hauth _ Hhash]. split; simpl; [done| |].
    - destruct q as [|a [|b q]]; simpl in Hq; try lia. destruct Hpre as [k' Hk]. rewrite Hparts in Hk.
      injection Hk as <- <- _. destruct p as [|c p]; [done|]. destruct q; simpl; eauto.
    - destruct Hpre as [k' Hk]. rewrite <- (join_split "/" (pathname uz)), Hk in Hhash.
      destruct (join_app_prefix "/" q k' Hne) as [tail Htail]. rewrite Htail, avoids_app in Hhash.
      by apply andb_true_iff in Hhash as [? _]. }
  assert (exists hsh, uy = u' hsh /\ (forall h, hsh = Some h -> uz.(hash) = Some h)) as (hsh & -> & Hh).
  { destruct Hx as [E|(h & Hh & E)].
    - exists None. split; [|done]. apply print_url_inj; auto. rewrite E. unfold print_url, u'. simpl.
      by rewrite append_nil_r.
    - exists (Some h). split; [|by intros ? [= <-]]. apply print_url_inj; auto. }
  unfold u'. simpl. rewrite split_join by done. done.
Qed.

(** Implication between plain URL scopes is transitive. *)
Lemma url_implicant_trans x uy uz :
  url_ok uy -> url_ok uz -> String.prefix "//" uz.(pathname) = false ->
  url_implicant uy (split_on "/" uy.(pathname)) x ->
  url_implicant uz (split_on "/" uz.(pathname)) (print_url uy) ->
  url_implicant uz (split_on "/" uz.(pathname)) x.
Proof.
  intros Hy Hz Hpl (q & Hq & Hqp & Hx) Hyz.
  destruct (url_implicant_parts uy uz Hy Hz Hpl Hyz) as (Ea & Hpre & Hh).
  exists q. split; [done|]. split; [by etrans|]. rewrite Ea in Hx. naive_solver.
Qed.

End UrlLaws.

(** ** Implication as an order *)

(** A scope that is accepted, does not collide with an inherited property
    name and, if it is a URL, is plain. *)
Definition good_scope (href_of : string -> option string) (s : string) : Prop :=
  exists I, getImplicantValues href_of s = Some I /\ (forall i, i ∈ I -> is_proto_name i = false) /\
    (String.prefix "https:" s = true -> exists u, parse_url href_of s = Some u /\ plain_url s u).

Section Order.
Context (href_of : string -> option string).
Abbreviation imp := (getImplicantValues href_of).
Abbreviation good := (good_scope href_of).

Lemma name_avoids_slash s : VALID_SHORT_NAME_VALUE s = true -> avoids "/" s = true.
Proof.
  unfold VALID_SHORT_NAME_VALUE. intros [_ H]%andb_true_iff.
  induction s as [|a s IH]; [done|]. simpl in *. apply andb_true_iff in H as [Ha Hs].
  rewrite (IH Hs), andb_true_r. apply negb_true_iff. by destruct (Ascii.eqb_spec a "/") as [->|].
Qed.

Lemma join_avoids c d l : avoids c d = true -> Forall (fun x => avoids c x = true) l -> avoids c (join d l) = true.
Proof.
  intros Hd. induction 1 as [|x l Hx Hl IH]; [done|]. destruct l as [|y l]; [done|].
  rewrite join_cons by done. by rewrite !avoids_app, Hx, Hd, IH.
Qed.

Lemma short_implicant_slash names w u : short_ok names w -> short_implicant names w u -> avoids "/" u = true.
Proof.
  intros Hok (p & Hp & Hpre & Hu). destruct (short_ok_prefix p names w Hp Hpre Hok) as (_ & HF & _).
  assert (avoids "/" (join ":" p) = true) as Hj.
  { apply join_avoids; [done|]. eapply Forall_impl; [exact HF|]. apply name_avoids_slash. }
  destruct Hu as [->|[_ ->]]; [|done]. by rewrite avoids_app, Hj.
Qed.

(** A good scope is a short name or a plain URL. *)
Lemma good_cases s :
  good s ->
  (exists names w, parse_short s = Some (names, w) /\ imp s = getImplicantValuesForShortScope s) \/
  (exists u, parse_url href_of s = Some u /\ s = print_url u /\ String.prefix "//" u.(pathname) = false /\
     imp s = getImplicantValuesForURLScope href_of s).
Proof.
  intros (I & HI & _ & Hu). unfold getImplicantValues in *. destruct (String.prefix "https:" s).
  - right. destruct (Hu eq_refl) as (u & Hp & Hv & Hpl). eauto 10.
  - left. unfold getImplicantValuesForShortScope in HI |- *. destruct (parse_short s) as [[names w]|]; [eauto|done].
Qed.

Lemma print_url_slash u : avoids "/" (print_url u) = false.
Proof. done. Qed.

Lemma good_refl s I : good s -> imp s = Some I -> s ∈ I.
Proof.
  intros [(names & w & Hp & ->)|(u & Hp & Hv & Hpl & ->)]%good_cases HI.
  - unfold getImplicantValuesForShortScope in HI. rewrite Hp in HI. injection HI as <-.
    apply elem_short_loop. rewrite reverse_involutive. destruct (parse_short_split _ _ _ Hp) as [_ (Hne & _)].
    exists names. split; [done|]. split; [done|]. rewrite <- (print_of_parse _ _ _ Hp). unfold print_short.
    destruct w; auto.
  - destruct (url_implicants_spec href_of s u Hp Hpl) as (I' & HI' & Hspec). rewrite HI in HI'.
    injection HI' as <-. apply Hspec.
    destruct (plain_parts u (parse_url_ok href_of s u Hp) Hpl) as (p & k & Hparts & _).
    exists (split_on "/" u.(pathname)). split; [rewrite Hparts; simpl; lia|]. split; [done|].
    rewrite (join_split "/" u.(pathname)), Hv. unfold print_url. destruct (hash u) as [h|]; [eauto|].
    left. by rewrite append_nil_r.
Qed.

Lemma short_implicants_slash s names w I x :
  parse_short s = Some (names, w) -> getImplicantValuesForShortScope s = Some I -> x ∈ I ->
  avoids "/" x = true /\ short_implicant names w x.
Proof.
  intros Hp HI Hx. unfold getImplicantValuesForShortScope in HI. rewrite Hp in HI. injection HI as <-.
  apply elem_short_loop in Hx. rewrite reverse_involutive in Hx.
  destruct (parse_short_split _ _ _ Hp) as [_ Hok]. eauto using short_implicant_slash.
Qed.

Lemma good_trans x y z Iy Iz :
  good x -> good y -> good z -> imp y = Some Iy -> imp z = Some Iz -> x ∈ Iy -> y ∈ Iz -> x ∈ Iz.
Proof.
  intros Gx Gy Gz HIy HIz Hxy Hyz.
  destruct (good_cases z Gz) as [(zn & zw & Pz & Ez)|(uz & Pz & Vz & Lz & Ez)]; rewrite Ez in HIz.
  - destruct (short_implicants_slash z zn zw Iz y Pz HIz Hyz) as [Sy Hyi].
    destruct (good_cases y Gy) as [(yn & yw & Py & Ey)|(uy & _ & -> & _)]; [|by rewrite print_url_slash in Sy].
    rewrite Ey in HIy. destruct (short_implicants_slash y yn yw Iy x Py HIy Hxy) as [Sx Hxi].
    destruct (good_cases x Gx) as [(xn & xw & Px & _)|(ux & _ & -> & _)]; [|by rewrite print_url_slash in Sx].
    destruct (implicant_parts zn zw y yn yw (proj2 (parse_short_split _ _ _ Pz)) Py Hyi) as [H1 H2].
    destruct (implicant_parts yn yw x xn xw (proj2 (parse_short_split _ _ _ Py)) Px Hxi) as [H3 H4].
    destruct (parse_short_split _ _ _ Px) as [_ (Hne & _)].
    unfold getImplicantValuesForShortScope in HIz. rewrite Pz in HIz. injection HIz as <-.
    apply elem_short_loop. rewrite reverse_involutive. exists xn. split; [done|]. split; [by etrans|].
    rewrite <- (print_of_parse _ _ _ Px). unfold print_short. destruct xw; [by left|]. right. split; [|done].
    destruct zw; [|done]. specialize (H4 (H2 eq_refl)). done.
  - destruct (url_implicants_spec href_of z uz Pz Lz) as (I' & HI' & Hz). rewrite HIz in HI'. injection HI' as <-.
    apply Hz in Hyz. apply Hz.
    destruct (good_cases y Gy) as [(yn & yw & Py & Ey)|(uy & Py & -> & Ly & Ey)].
    { exfalso. assert (avoids "/" y = true) as Hs.
      { rewrite <- (print_of_parse _ _ _ Py). destruct (parse_short_split _ _ _ Py) as [_ Hok].
        apply (short_implicant_slash yn yw); [done|]. exists yn. split; [apply Hok|]. split; [done|].
        unfold print_short. destruct yw; auto. }
      destruct Hyz as (q & _ & _ & [->|(h & _ & ->)]); done. }
    rewrite Ey in HIy. destruct (url_implicants_spec href_of _ uy Py Ly) as (I' & HI' & Hy).
    rewrite HIy in HI'. injection HI' as <-. apply Hy in Hxy.
    eapply (url_implicant_trans href_of x uy uz); eauto using parse_url_ok.
Qed.

End Order.

(** The code means to refuse query parameters but tests a property URL
    objects do not have: a scope with a query is accepted and then does not
    imply itself. *)
Theorem url_query_not_reflexive :
  getImplicantValues Some "https://x.org/a?b=1" = Some ["https://x.org/a"].
Proof. vm_compute. reflexivity. Qed.

(** A URL scope whose path starts with two slashes is implied by a URL
    of another origin: the path is resolved as a network reference. *)
Theorem url_cross_origin (href_of : string -> option string) :
  href_of "https://good.org//evil.org/x" = Some "https://good.org//evil.org/x" ->
  href_of "https://evil.org/x" = Some "https://evil.org/x" ->
  href_of "https://evil.org" = Some "https://evil.org/" ->
  exists I, getImplicantValues href_of "https://good.org//evil.org/x" = Some I /\ "https://evil.org/x" ∈ I.
Proof.
  intros H1 H2 H3. unfold getImplicantValues.
  change (String.prefix "https:" "https://good.org//evil.org/x") with true. cbv iota.
  assert (parse_url href_of "https://good.org//evil.org/x" = Some (mkUrl "good.org" "//evil.org/x" None)) as Hp.
  { unfold parse_url. rewrite bool_decide_true by done. reflexivity. }
  unfold getImplicantValuesForURLScope. rewrite Hp. cbn [mbind option_bind pathname].
  change (reverse (split_on "/" "//evil.org/x")) with ["x"; "evil.org"; ""; ""].
  cbn [url_loop hash].
  change (resolve_path href_of ?u (join "/" (reverse ["x"; "evil.org"; ""; ""]))) with (href_of "https://evil.org/x").
  rewrite H2. cbn [mbind option_bind].
  change (resolve_path href_of ?u (join "/" (reverse ["evil.org"; ""; ""]))) with (href_of "https://evil.org").
  rewrite H3. cbn [mbind option_bind]. eexists. split; [reflexivity|]. set_solver.
Qed.

(** ** Witnesses *)
Lemma short_implicants_exact_witness :
  exists I, getImplicantValuesForShortScope "profile:email:write" = Some I /\
    ("profile:write" ∈ I <-> ["profile"] `prefix_of` ["profile"; "email"] /\ (true = true -> true = true)).
Proof. apply (short_implicants_exact "profile:write" "profile:email:write"); vm_compute; reflexivity. Defined.

Definition sync_url : Url := mkUrl "identity.mozilla.com" "/apps/oldsync" (Some "read").

Lemma url_implicants_exact_witness :
  exists I, getImplicantValuesForURLScope Some "https://identity.mozilla.com/apps/oldsync#read" = Some I /\
    (forall x, x ∈ I <-> url_implicant sync_url (split_on "/" sync_url.(pathname)) x) /\
    ("https://identity.mozilla.com/apps/oldsync#read" = print_url sync_url ->
     "https://identity.mozilla.com/apps/oldsync#read" ∈ I).
Proof. apply (url_implicants_exact Some _ sync_url); vm_compute; reflexivity. Defined.

Lemma url_cross_origin_witness :
  let href s := if String.eqb s "https://evil.org" then Some "https://evil.org/" else Some s in
  exists I, getImplicantValues href "https://good.org//evil.org/x" = Some I /\ "https://evil.org/x" ∈ I.
Proof. intros href. apply (url_cross_origin href); reflexivity. Defined.
