(* ===== verification/Scopes.v ===== *)
(** * Sets of scopes (packages/fxa-shared/oauth/scopes.js, ScopeSet)

    A set keeps, for each of its scopes, all its implicants, and for each
    implicant the scopes it implies; redundant scopes are dropped.  The model
    follows the two objects the class keeps; [None] is a thrown error. *)

From S2P Require Import Prelude Text ScopeValues.
From Stdlib Require Import Ascii.

(** What the set operations need of scope values: every good scope implies
    itself, none collides with an inherited property name, and implication
    is transitive. *)
Class ScopeOrder (imp : string -> option (list string)) (good : string -> Prop) : Prop := {
  so_imp s : good s -> exists I, imp s = Some I /\ s ∈ I /\ forall i, i ∈ I -> is_proto_name i = false;
  so_trans x y z Iy Iz : good x -> good y -> good z ->
    imp y = Some Iy -> imp z = Some Iz -> x ∈ Iy -> y ∈ Iz -> x ∈ Iz }.

#[export] Instance scope_values_order href_of : ScopeOrder (getImplicantValues href_of) (good_scope href_of).
Proof.
  split.
  - intros s Hg. pose proof Hg as (I & HI & Hp & _). exists I. eauto using good_refl.
  - eauto using good_trans.
Qed.

Record ScopeSet := mkScopeSet {
  _scopesToImplicants : jsobj (list string);
  _implicantsToScopes : jsobj (list string) }.

Definition empty_set : ScopeSet := mkScopeSet [] [].

(** ** The methods *)

Definition _hasScope (A : ScopeSet) (scope : string) : bool := js_in scope A.(_scopesToImplicants).

Definition _hasSomeScope (A : ScopeSet) (scopes : list string) : bool := existsb (_hasScope A) scopes.

Definition _hasImplicant (A : ScopeSet) (scope : string) : bool := js_in scope A.(_implicantsToScopes).

Definition _hasSomeImplicant (A : ScopeSet) (scopes : list string) : bool := existsb (_hasImplicant A) scopes.

Definition _searchScopes (A : ScopeSet) (cb : string -> list string -> bool) : bool :=
  existsb (fun '(scope, implicants) => cb scope implicants) A.(_scopesToImplicants).

Definition _searchImplicants (A : ScopeSet) (cb : string -> list string -> bool) : bool :=
  existsb (fun '(implicant, scopes) => cb implicant scopes) A.(_implicantsToScopes).

(** [set.delete(k)] *)
Definition set_delete (l : list string) (k : string) : list string := filterb (fun x => negb (String.eqb x k)) l.

(** [if (impliedScopes.size === 0) delete ...] *)
Definition put_scopes (m : jsobj (list string)) (implicant : string) (scopes : list string) : jsobj (list string) :=
  match scopes with [] => obj_delete m implicant | _ => obj_set m implicant scopes end.

(** The loop of [_removeScope]. *)
Fixpoint unlink (scope : string) (implicants : list string) (m : jsobj (list string)) : option (jsobj (list string)) :=
  match implicants with
  | [] => Some m
  | implicant :: implicants' =>
      match obj_get m implicant with
      | None => None
      | Some implied => unlink scope implicants' (put_scopes m implicant (set_delete implied scope))
      end
  end.

Definition _removeScope (A : ScopeSet) (scope : string) : option ScopeSet :=
  implicants ← obj_get A.(_scopesToImplicants) scope;
  m ← unlink scope implicants A.(_implicantsToScopes);
  Some (mkScopeSet (obj_delete A.(_scopesToImplicants) scope) m).

(** [_iterImpliedScopes(implicant, _removeScope)]: a removal only deletes the
    element being visited from the set that is iterated. *)
Fixpoint removeScopes (A : ScopeSet) (scopes : list string) : option ScopeSet :=
  match scopes with
  | [] => Some A
  | scope :: scopes' => A' ← _removeScope A scope; removeScopes A' scopes'
  end.

(** The second loop of [_addScope]. *)
Fixpoint link (scope : string) (implicants : list string) (m : jsobj (list string)) : option (jsobj (list string)) :=
  match implicants with
  | [] => Some m
  | implicant :: implicants' =>
      if js_in implicant m then
        match obj_get m implicant with
        | Some scopes => link scope implicants' (obj_set m implicant (add_key scopes scope))
        | None => None
        end
      else link scope implicants' (obj_set m implicant [scope])
  end.

Definition _addScope (A : ScopeSet) (scope : string) (implicants : list string) : option ScopeSet :=
  if _hasSomeScope A implicants then Some A
  else
    A1 ← removeScopes A (default [] (obj_get A.(_implicantsToScopes) scope));
    m ← link scope implicants A1.(_implicantsToScopes);
    Some (mkScopeSet (obj_set A1.(_scopesToImplicants) scope implicants) m).

(** [_iterScopes((scope, implicants) => this._addScope(scope, implicants))] *)
Fixpoint addScopes (A : ScopeSet) (entries : jsobj (list string)) : option ScopeSet :=
  match entries with
  | [] => Some A
  | (scope, implicants) :: entries' => A' ← _addScope A scope implicants; addScopes A' entries'
  end.

Definition getScopeValues (A : ScopeSet) : list string := A.(_scopesToImplicants).*1.

Definition getImplicantValues_ (A : ScopeSet) : list string := A.(_implicantsToScopes).*1.

Definition toString (A : ScopeSet) : string := join " " (getScopeValues A).

Definition isEmpty (A : ScopeSet) : bool := match A.(_scopesToImplicants) with [] => true | _ => false end.

Definition add (A other : ScopeSet) : option ScopeSet := addScopes A other.(_scopesToImplicants).

Definition contains (A other : ScopeSet) : bool :=
  negb (_searchScopes other (fun _ implicants => negb (_hasSomeScope A implicants))).

Definition intersects (A other : ScopeSet) : bool :=
  _searchImplicants other (fun implicant _ => _hasScope A implicant) ||
  _searchImplicants A (fun implicant _ => _hasScope other implicant).

Definition filtered (A other : ScopeSet) : option ScopeSet :=
  addScopes empty_set (filterb (fun e => _hasSomeScope other e.2) A.(_scopesToImplicants)).

Definition difference (A other : ScopeSet) : option ScopeSet :=
  addScopes empty_set (filterb (fun e => negb (_hasSomeScope other e.2)) A.(_scopesToImplicants)).

Definition union (A other : ScopeSet) : option ScopeSet :=
  A1 ← addScopes empty_set A.(_scopesToImplicants); addScopes A1 other.(_scopesToImplicants).

Section Parse.
Context (imp : string -> option (list string)).

(** [new ScopeSet(scopes)] *)
Fixpoint build (A : ScopeSet) (scopes : list string) : option ScopeSet :=
  match scopes with
  | [] => Some A
  | s :: scopes' => I ← imp s; A' ← _addScope A s (set_of I); build A' scopes'
  end.

Definition fromArray (scopes : list string) : option ScopeSet := build empty_set scopes.

(** [scopesString.split(/ +/).filter(...)] *)
Definition fromString (scopesString : string) : option ScopeSet :=
  fromArray (filterb str_truthy (split_on " " scopesString)).

(** [decodeURIComponent]: [None] also for a byte above 127, which either is
    no UTF-8 or decodes to a character no scope may hold. *)
Definition hex_digit (a : ascii) : option nat :=
  let n := nat_of_ascii a in
  if (48 <=? n)%nat && (n <=? 57)%nat then Some (n - 48)%nat
  else if (65 <=? n)%nat && (n <=? 70)%nat then Some (n - 55)%nat
  else if (97 <=? n)%nat && (n <=? 102)%nat then Some (n - 87)%nat else None.

Fixpoint decodeURIComponent (s : string) : option string :=
  match s with
  | EmptyString => Some EmptyString
  | String "%" (String a (String b s')) =>
      h ← hex_digit a; l ← hex_digit b;
      if (16 * h + l <=? 127)%nat then rest ← decodeURIComponent s'; Some (String (ascii_of_nat (16 * h + l)) rest)
      else None
  | String "%" _ => None
  | String c s' => rest ← decodeURIComponent s'; Some (String c rest)
  end.

Definition fromURLEncodedString (encodedScopesString : string) : option ScopeSet :=
  decoded ← mapM decodeURIComponent (filterb str_truthy (split_on "+" encodedScopesString));
  fromArray decoded.

End Parse.

(** ** The two-way mapping *)

(** [i] is recorded as an implicant of [s]. *)
Definition linked (m : jsobj (list string)) (i s : string) : Prop := exists l, obj_get m i = Some l /\ s ∈ l.

(** The values are non-empty sets. *)
Definition sets_ok (m : jsobj (list string)) : Prop := forall i l, obj_get m i = Some l -> l <> [] /\ NoDup l.

Lemma elem_of_set_delete l k x : x ∈ set_delete l k <-> x ∈ l /\ x <> k.
Proof. unfold set_delete. rewrite elem_of_filterb, negb_true_iff, String.eqb_neq. done. Qed.

Lemma linked_set m i l i' s : linked (obj_set m i l) i' s <-> if String.eqb i i' then s ∈ l else linked m i' s.
Proof. unfold linked. rewrite obj_get_set. destruct (String.eqb i i'); naive_solver. Qed.

Lemma linked_delete m i i' s : linked (obj_delete m i) i' s <-> i <> i' /\ linked m i' s.
Proof. unfold linked. rewrite obj_get_delete. destruct (String.eqb_spec i i'); naive_solver. Qed.

Lemma sets_ok_set m i l : sets_ok m -> l <> [] -> NoDup l -> sets_ok (obj_set m i l).
Proof. intros Hm Hl Hn i' l'. rewrite obj_get_set. destruct (String.eqb i i'); [by intros [= <-]|apply Hm]. Qed.

Lemma sets_ok_delete m i : sets_ok m -> sets_ok (obj_delete m i).
Proof. intros Hm i' l'. rewrite obj_get_delete. destruct (String.eqb i i'); [done|apply Hm]. Qed.

Lemma NoDup_set_delete l k : NoDup l -> NoDup (set_delete l k).
Proof.
  unfold set_delete. induction 1 as [|x l Hx Hn IH]; cbn [filterb]; [constructor|].
  destruct (negb (String.eqb x k)); [|done]. constructor; [|done]. by rewrite elem_of_filterb; intros [? _].
Qed.

(** One round of [unlink]. *)
Lemma unlink_step m i s l :
  sets_ok m -> obj_get m i = Some l ->
  let m' := put_scopes m i (set_delete l s) in
  sets_ok m' /\ (forall j, j <> i -> obj_get m' j = obj_get m j) /\
  forall j t, linked m' j t <-> linked m j t /\ ~ (j = i /\ t = s).
Proof.
  intros Hm Hl m'. pose proof (elem_of_set_delete l s) as Hd. unfold m', put_scopes.
  pose proof (NoDup_set_delete l s (proj2 (Hm i l Hl))) as Hnd.
  assert (forall j t, i <> j -> linked m j t <-> linked m j t /\ ~ (j = i /\ t = s)) as Hother by naive_solver.
  assert (forall t, linked m i t <-> t ∈ l) as Hlink by (unfold linked; rewrite Hl; naive_solver).
  destruct (set_delete l s) as [|x l'] eqn:E.
  - split; [by apply sets_ok_delete|]. split; [intros; by apply obj_get_delete_ne|]. intros j t. rewrite linked_delete.
    destruct (decide (i = j)) as [<-|Hne]; [|rewrite <- Hother by done; naive_solver].
    rewrite Hlink. specialize (Hd t). rewrite elem_of_nil in Hd. destruct (decide (t = s)); naive_solver.
  - split; [by apply sets_ok_set|]. split; [intros; by apply obj_get_set_ne|]. intros j t. rewrite linked_set.
    destruct (String.eqb_spec i j) as [<-|Hne]; [rewrite Hd, Hlink; naive_solver|by apply Hother].
Qed.

Lemma unlink_spec s I m :
  sets_ok m -> NoDup I -> (forall i, i ∈ I -> is_Some (obj_get m i)) ->
  exists m', unlink s I m = Some m' /\ sets_ok m' /\
    forall j t, linked m' j t <-> linked m j t /\ ~ (j ∈ I /\ t = s).
Proof.
  intros Hm Hn. revert m Hm. induction Hn as [|i I Hi Hn IH]; intros m Hm HI.
  - exists m. split; [done|]. split; [done|]. intros j t. rewrite elem_of_nil. naive_solver.
  - cbn [unlink]. destruct (HI i) as [l Hl]; [set_solver|]. rewrite Hl.
    destruct (unlink_step m i s l Hm Hl) as (Hm1 & Hget & H1).
    destruct (IH _ Hm1) as (m' & -> & Hm' & H2).
    { intros j Hj. rewrite Hget by (intros ->; done). apply HI. set_solver. }
    exists m'. split; [done|]. split; [done|]. intros j t. rewrite H2, H1, elem_of_cons. naive_solver.
Qed.

Lemma link_spec s I m :
  sets_ok m -> (forall i, i ∈ I -> is_proto_name i = false) ->
  exists m', link s I m = Some m' /\ sets_ok m' /\
    forall j t, linked m' j t <-> linked m j t \/ (j ∈ I /\ t = s).
Proof.
  revert m. induction I as [|i I IH]; intros m Hm Hp.
  - exists m. split; [done|]. split; [done|]. intros j t. rewrite elem_of_nil. naive_solver.
  - cbn [link]. unfold js_in, obj_has. rewrite (Hp i), orb_false_r by set_solver.
    destruct (obj_get m i) as [l|] eqn:E.
    + destruct (IH (obj_set m i (add_key l s))) as (m' & -> & Hm' & H2).
      { apply sets_ok_set; [done| |by apply NoDup_add_key, (Hm i l E)]. intros Hnil. pose proof (elem_of_add_key l s s) as Hk. rewrite Hnil in Hk. set_solver. }
      { set_solver. }
      exists m'. split; [done|]. split; [done|]. intros j t. rewrite H2, linked_set, elem_of_cons.
      destruct (String.eqb_spec i j) as [<-|Hne]; [|naive_solver].
      rewrite elem_of_add_key. unfold linked at 1. rewrite E. naive_solver.
    + destruct (IH (obj_set m i [s])) as (m' & -> & Hm' & H2); [by apply sets_ok_set; [| |apply NoDup_singleton]|set_solver|].
      exists m'. split; [done|]. split; [done|]. intros j t. rewrite H2, linked_set.
      destruct (String.eqb_spec i j) as [<-|Hne]; [|set_solver].
      unfold linked. rewrite E. set_solver.
Qed.

Section Laws.
Context (imp : string -> option (list string)) (good : string -> Prop) `{ScopeOrder imp good}.

Definition member (A : ScopeSet) (s : string) : Prop := is_Some (obj_get A.(_scopesToImplicants) s).

(** [u] implies [v] *)
Definition implies (u v : string) : Prop := exists I, imp v = Some I /\ u ∈ I.

(** The representation invariant: the stored implicants are those of the
    scope, the two mappings mirror each other, no entry is empty, and no scope
    of the set implies another one. *)
Record inv (A : ScopeSet) : Prop := {
  inv_good s I : obj_get A.(_scopesToImplicants) s = Some I ->
    good s /\ exists I0, imp s = Some I0 /\ I = set_of I0;
  inv_linked i s : linked A.(_implicantsToScopes) i s <->
    exists I, obj_get A.(_scopesToImplicants) s = Some I /\ i ∈ I;
  inv_sets : sets_ok A.(_implicantsToScopes);
  inv_antichain s t : member A s -> member A t -> implies s t -> s = t;
  inv_keys : NoDup A.(_scopesToImplicants).*1 }.

Lemma empty_inv : inv empty_set.
Proof.
  split; simpl; [done| |done| |by constructor].
  - intros i s. split; [by intros (l & ? & _)|by intros (I & ? & _)].
  - by intros s t [? ?].
Qed.

Lemma member_good A s : inv A -> member A s -> good s.
Proof. intros HA [I HI]. by apply (inv_good A HA) in HI as [? _]. Qed.

Lemma implies_trans x y z : good x -> good y -> good z -> implies x y -> implies y z -> implies x z.
Proof. intros Gx Gy Gz (Iy & HIy & Hx) (Iz & HIz & Hy). exists Iz. split; [done|]. by apply (so_trans x y z Iy Iz). Qed.

Lemma implies_refl s : good s -> implies s s.
Proof. intros Hs. destruct (so_imp s Hs) as (I & HI & Hin & _). by exists I. Qed.

(** What is stored for a scope decides implication. *)
Lemma stored_implies A s I u : inv A -> obj_get A.(_scopesToImplicants) s = Some I -> u ∈ I <-> implies u s.
Proof.
  intros HA HI. apply (inv_good A HA) in HI as [_ (I0 & HI0 & ->)]. rewrite elem_of_set_of.
  unfold implies. rewrite HI0. naive_solver.
Qed.

Lemma NoDup_delete_keys (o : jsobj (list string)) k : NoDup o.*1 -> NoDup (obj_delete o k).*1.
Proof.
  assert (forall x, x ∈ (obj_delete o k).*1 -> x ∈ o.*1) as Hsub.
  { induction o as [|[k' v] o IH]; simpl; [done|]. destruct (String.eqb k' k); set_solver. }
  clear Hsub. induction o as [|[k' v] o IH]; simpl; [done|]. intros [Hk Hn]%NoDup_cons.
  destruct (String.eqb k' k); [by apply IH|]. simpl. apply NoDup_cons. split; [|by apply IH].
  intros Hin. apply Hk. clear -Hin. induction o as [|[k0 v0] o IH]; simpl in *; [done|].
  destruct (String.eqb k0 k); set_solver.
Qed.

Lemma removeScope_spec A s :
  inv A -> member A s ->
  exists A', _removeScope A s = Some A' /\ inv A' /\
    forall t, obj_get A'.(_scopesToImplicants) t = if String.eqb s t then None else obj_get A.(_scopesToImplicants) t.
Proof.
  intros HA [I HI]. unfold _removeScope. rewrite HI. cbn [mbind option_bind].
  destruct (unlink_spec s I A.(_implicantsToScopes)) as (m & -> & Hm & Hl).
  - apply HA.
  - apply (inv_good A HA) in HI as [_ (I0 & _ & ->)]. apply NoDup_set_of.
  - intros i Hi. destruct (proj2 (inv_linked A HA i s)) as (l & Hl & _); eauto.
  - eexists. split; [done|]. split; [|intros t; apply obj_get_delete].
    split; simpl.
    + intros t It. rewrite obj_get_delete. destruct (String.eqb s t); [done|]. by apply HA.
    + intros i t. rewrite Hl, (inv_linked A HA), obj_get_delete. destruct (String.eqb_spec s t) as [<-|Hne]; [|naive_solver].
      rewrite HI. naive_solver.
    + done.
    + intros x y. unfold member. simpl. rewrite !obj_get_delete.
      destruct (String.eqb s x), (String.eqb s y); try (by intros [? ?]); try (by intros _ [? ?]). apply (inv_antichain A HA).
    + apply NoDup_delete_keys, HA.
Qed.

Lemma removeScopes_spec A ss :
  inv A -> NoDup ss -> (forall s, s ∈ ss -> member A s) ->
  exists A', removeScopes A ss = Some A' /\ inv A' /\
    forall t, obj_get A'.(_scopesToImplicants) t = if bool_decide (t ∈ ss) then None else obj_get A.(_scopesToImplicants) t.
Proof.
  intros HA Hn. revert A HA. induction Hn as [|s ss Hs Hn IH]; intros A HA Hm.
  - exists A. split; [done|]. split; [done|]. intros t. by rewrite bool_decide_false by set_solver.
  - cbn [removeScopes]. destruct (removeScope_spec A s HA) as (A1 & -> & HA1 & Hg1); [apply Hm; set_solver|].
    cbn [mbind option_bind]. destruct (IH A1 HA1) as (A' & -> & HA' & Hg).
    { intros t Ht. unfold member. rewrite Hg1, (proj2 (String.eqb_neq s t)) by (intros ->; done). apply Hm. set_solver. }
    exists A'. split; [done|]. split; [done|]. intros t. rewrite Hg, Hg1.
    destruct (String.eqb_spec s t) as [<-|Hne].
    + rewrite (bool_decide_true (s ∈ s :: ss)) by set_solver. by case_bool_decide.
    + by rewrite (bool_decide_ext (t ∈ s :: ss) (t ∈ ss)) by set_solver.
Qed.

(** ** Adding a scope *)

Definition grants (A : ScopeSet) (v : string) : Prop := exists a, member A a /\ implies a v.

Lemma hasScope_member A s : is_proto_name s = false -> _hasScope A s = true <-> member A s.
Proof.
  intros Hp. unfold _hasScope, js_in, obj_has, member. rewrite Hp, orb_false_r.
  destruct (obj_get _ s); split; done || by intros [? ?].
Qed.

Lemma hasSome_grants A s I0 :
  good s -> imp s = Some I0 -> _hasSomeScope A (set_of I0) = true <-> grants A s.
Proof.
  intros Hg HI. destruct (so_imp s Hg) as (I & HI' & _ & Hp). rewrite HI in HI'. injection HI' as <-.
  unfold _hasSomeScope, grants, implies. rewrite existsb_exists. split.
  - intros (i & Hi%list_elem_of_In & Hm). rewrite elem_of_set_of in Hi.
    rewrite hasScope_member in Hm by auto. eauto.
  - intros (a & Ha & I & HI' & Hin). rewrite HI in HI'. injection HI' as <-. exists a.
    rewrite hasScope_member by auto. split; [|done]. apply list_elem_of_In. by rewrite elem_of_set_of.
Qed.

(** The scopes of the set that [s] implies, as the reverse mapping has them. *)
Lemma implied_scopes A s t :
  inv A -> t ∈ default [] (obj_get A.(_implicantsToScopes) s) <-> member A t /\ implies s t.
Proof.
  intros HA. transitivity (linked A.(_implicantsToScopes) s t).
  { unfold linked. destruct (obj_get _ s) as [l|]; simpl; [naive_solver|]. rewrite elem_of_nil. naive_solver. }
  rewrite (inv_linked A HA). split.
  - intros (I & HI & Hs). split; [by exists I|]. by apply (stored_implies A t I s HA HI).
  - intros [[I HI] Hs]. exists I. split; [done|]. by apply (stored_implies A t I s HA HI).
Qed.

Lemma addScope_new A s I0 :
  inv A -> good s -> imp s = Some I0 -> ~ grants A s ->
  exists A', _addScope A s (set_of I0) = Some A' /\ inv A' /\
    (forall t, obj_get A'.(_scopesToImplicants) t =
      if String.eqb s t then Some (set_of I0)
      else if bool_decide (t ∈ default [] (obj_get A.(_implicantsToScopes) s)) then None
      else obj_get A.(_scopesToImplicants) t).
Proof.
  intros HA Hg HI Hng. set (R := default [] (obj_get A.(_implicantsToScopes) s)).
  destruct (so_imp s Hg) as (I & HI' & Hs & Hp). rewrite HI in HI'. injection HI' as <-.
  assert (forall t, t ∈ R <-> member A t /\ implies s t) as HR by (intros t; by apply implied_scopes).
  assert (_hasSomeScope A (set_of I0) = false) as Hf.
  { apply not_true_iff_false. by rewrite hasSome_grants. }
  unfold _addScope. rewrite Hf. fold R.
  destruct (removeScopes_spec A R HA) as (A1 & -> & HA1 & Hget).
  { unfold R. destruct (obj_get _ s) as [l|] eqn:E; simpl; [by apply (inv_sets A HA s)|constructor]. }
  { intros t Ht. by apply HR. }
  cbn [mbind option_bind].
  destruct (link_spec s (set_of I0) A1.(_implicantsToScopes)) as (m & -> & Hm & Hl).
  { apply HA1. } { intros i. rewrite elem_of_set_of. apply Hp. }
  assert (obj_get A1.(_scopesToImplicants) s = None) as Hs1.
  { rewrite Hget. case_bool_decide; [done|]. destruct (obj_get A.(_scopesToImplicants) s) as [I|] eqn:E; [|done].
    exfalso. apply Hng. exists s. split; [by exists I|by apply implies_refl]. }
  assert (forall t, member A1 t -> member A t /\ ~ implies s t) as Hm1.
  { intros t [I HIt]. rewrite Hget in HIt. case_bool_decide as Hd; [done|]. assert (member A t) by (by exists I).
    split; [done|]. intros Hi. apply Hd, HR. auto. }
  eexists. split; [done|]. split; [|intros t; simpl; rewrite obj_get_set, Hget; done].
  split; simpl.
  - intros t I. rewrite obj_get_set. destruct (String.eqb_spec s t) as [<-|]; [|apply HA1].
    intros [= <-]. eauto.
  - intros i t. rewrite Hl, (inv_linked A1 HA1), obj_get_set.
    destruct (String.eqb_spec s t) as [<-|]; [rewrite Hs1|]; naive_solver.
  - done.
  - intros x y. unfold member. simpl. rewrite !obj_get_set.
    destruct (String.eqb_spec s x) as [<-|], (String.eqb_spec s y) as [<-|]; intros Hx Hy Hi; [done| | |].
    + by destruct (Hm1 y Hy).
    + exfalso. apply Hng. exists x. split; [by apply Hm1|done].
    + by apply (inv_antichain A1 HA1).
  - rewrite obj_set_keys. rewrite bool_decide_false by (by apply obj_get_none_keys).
    rewrite NoDup_app. split; [apply HA1|]. split; [|apply NoDup_singleton].
    intros x Hx. rewrite list_elem_of_singleton. intros ->. by apply obj_get_none_keys in Hs1.
Qed.

Lemma addScope_spec A s I0 :
  inv A -> good s -> imp s = Some I0 ->
  exists A', _addScope A s (set_of I0) = Some A' /\ inv A' /\
    forall v, good v -> grants A' v <-> grants A v \/ implies s v.
Proof.
  intros HA Hg HI. destruct (_hasSomeScope A (set_of I0)) eqn:Hs.
  - exists A. unfold _addScope. rewrite Hs. split; [done|]. split; [done|]. intros v Hv.
    apply (hasSome_grants A s I0 Hg HI) in Hs as (a & Ha & Has). split; [auto|]. intros [?|Hsv]; [done|].
    exists a. split; [done|]. apply (implies_trans a s v); eauto using member_good.
  - assert (~ grants A s) as Hng by (by rewrite <- (hasSome_grants A s I0 Hg HI), Hs).
    destruct (addScope_new A s I0 HA Hg HI Hng) as (A' & HA' & Hinv & Hget).
    exists A'. split; [done|]. split; [done|]. intros v Hv. unfold grants, member. setoid_rewrite Hget. split.
    + intros (a & Ha & Hav). destruct (String.eqb_spec s a) as [Heq|Hne]; [right; by rewrite Heq|].
      case_bool_decide; [by destruct Ha|]. left. by exists a.
    + intros [(a & Ha & Hav)|Hsv].
      * destruct (decide (a ∈ default [] (obj_get A.(_implicantsToScopes) s))) as [Hr|Hr].
        -- exists s. rewrite String.eqb_refl. split; [eauto|]. apply (implied_scopes A s a HA) in Hr as [_ Hsa].
           apply (implies_trans s a v); eauto using member_good.
        -- exists a. rewrite bool_decide_false by done. split; [|done]. by destruct (String.eqb s a); eauto.
      * exists s. rewrite String.eqb_refl. eauto.
Qed.

(** ** Adding many *)

Definition entry_ok (e : string * list string) : Prop :=
  good e.1 /\ exists I0, imp e.1 = Some I0 /\ e.2 = set_of I0.

Lemma addScopes_spec A es :
  inv A -> Forall entry_ok es ->
  exists A', addScopes A es = Some A' /\ inv A' /\
    forall v, good v -> grants A' v <-> grants A v \/ exists s, s ∈ es.*1 /\ implies s v.
Proof.
  intros HA He. revert A HA. induction He as [|[s I] es [Hg (I0 & HI & HE)] He IH]; intros A HA.
  - exists A. split; [done|]. split; [done|]. set_solver.
  - simpl in *. subst I. cbn [addScopes]. destruct (addScope_spec A s I0 HA Hg HI) as (A1 & -> & HA1 & H1).
    cbn [mbind option_bind]. destruct (IH A1 HA1) as (A' & -> & HA' & H2).
    exists A'. split; [done|]. split; [done|]. intros v Hv. rewrite H2, H1 by done. set_solver.
Qed.

Lemma entries_ok A : inv A -> Forall entry_ok A.(_scopesToImplicants).
Proof.
  intros HA. apply Forall_forall. intros [s I] Hin. apply (inv_good A HA s I). revert Hin.
  pose proof (inv_keys A HA) as Hn. induction (_scopesToImplicants A) as [|[k v] o IH]; [by intros ?%elem_of_nil|].
  rewrite fmap_cons in Hn. apply NoDup_cons in Hn as [Hk Hn]. cbn [obj_get].
  intros [[= -> ->]|Hin]%elem_of_cons; [by rewrite String.eqb_refl|].
  destruct (String.eqb_spec k s) as [->|]; [|by apply IH]. exfalso. apply Hk. apply list_elem_of_fmap. by exists (s, I).
Qed.

Lemma member_keys A s : member A s <-> s ∈ A.(_scopesToImplicants).*1.
Proof.
  unfold member. destruct (obj_get _ s) eqn:E.
  - split; [intros _|eauto]. destruct (decide (s ∈ (_scopesToImplicants A).*1)) as [?|Hn]; [done|].
    apply obj_get_none_keys in Hn. congruence.
  - apply obj_get_none_keys in E. split; [by intros [? ?]|done].
Qed.

(** ** Building from values *)

Lemma build_spec A l :
  inv A -> Forall good l ->
  exists A', build imp A l = Some A' /\ inv A' /\
    forall v, good v -> grants A' v <-> grants A v \/ exists s, s ∈ l /\ implies s v.
Proof.
  intros HA Hl. revert A HA. induction Hl as [|s l Hs Hl IH]; intros A HA.
  - exists A. split; [done|]. split; [done|]. set_solver.
  - cbn [build]. destruct (so_imp s Hs) as (I0 & HI & _). rewrite HI. cbn [mbind option_bind].
    destruct (addScope_spec A s I0 HA Hs HI) as (A1 & -> & HA1 & H1). cbn [mbind option_bind].
    destruct (IH A1 HA1) as (A' & -> & HA' & H2). exists A'. split; [done|]. split; [done|].
    intros v Hv. rewrite H2, H1 by done. set_solver.
Qed.

Lemma empty_grants v : ~ grants empty_set v.
Proof. by intros (a & [? ?] & _). Qed.

Lemma grants_keys A v : (exists s, s ∈ A.(_scopesToImplicants).*1 /\ implies s v) <-> grants A v.
Proof. unfold grants. by setoid_rewrite member_keys. Qed.

(** Building a set from good scope values always succeeds, keeps the
    two-way mapping consistent and free of redundancy, and grants exactly what
    the values grant, whatever their order and redundancy. *)
Theorem scopes_fromArray l :
  Forall good l ->
  exists A, fromArray imp l = Some A /\ inv A /\
    forall v, good v -> grants A v <-> exists s, s ∈ l /\ implies s v.
Proof.
  intros Hl. destruct (build_spec empty_set l empty_inv Hl) as (A & HA & Hinv & Hgr).
  exists A. split; [done|]. split; [done|]. intros v Hv. rewrite Hgr by done.
  pose proof (empty_grants v). naive_solver.
Qed.

Lemma grants_member B b : inv B -> member B b -> grants B b.
Proof. intros HB Hb. exists b. split; [done|]. apply implies_refl. by apply (member_good B). Qed.

Lemma contains_members A B :
  inv A -> inv B -> contains A B = true <-> forall b, member B b -> grants A b.
Proof.
  intros HA HB. unfold contains, _searchScopes. rewrite negb_true_iff, <- not_true_iff_false, existsb_exists.
  pose proof (entries_ok B HB) as Hok. rewrite Forall_forall in Hok. split.
  - intros Hn b Hb. apply member_keys, list_elem_of_fmap in Hb as ([b' I] & Heq & Hin). simpl in Heq. subst b'.
    destruct (Hok _ Hin) as [Hg (I0 & HI & HE)]. simpl in *. subst I. apply (hasSome_grants A b I0 Hg HI).
    destruct (_hasSomeScope A (set_of I0)) eqn:E; [done|]. exfalso. apply Hn. exists (b, set_of I0).
    split; [by apply list_elem_of_In|]. by rewrite E.
  - intros Hall ([b I] & Hin%list_elem_of_In & Hc). destruct (Hok _ Hin) as [Hg (I0 & HI & HE)]. simpl in *. subst I.
    assert (member B b) as Hb by (apply member_keys, list_elem_of_fmap; by exists (b, set_of I0)).
    apply Hall, (hasSome_grants A b I0 Hg HI) in Hb. by rewrite Hb in Hc.
Qed.

Lemma contains_grants A B :
  inv A -> inv B ->
  contains A B = true <-> forall v, good v -> grants B v -> grants A v.
Proof.
  intros HA HB. rewrite contains_members by done. split.
  - intros Hall v Hv (b & Hb & Hbv). destruct (Hall b Hb) as (a & Ha & Hab). exists a. split; [done|].
    apply (implies_trans a b v); eauto using member_good.
  - intros Hall b Hb. apply Hall; eauto using member_good, grants_member.
Qed.

(** [C34] [contains] decides inclusion of capabilities: [A.contains(B)] holds
    iff every scope granted by [B] is granted by [A]. *)
Theorem scopes_contains_exact A B :
  inv A -> inv B ->
  contains A B = true <-> forall v, good v -> grants B v -> grants A v.
Proof. apply contains_grants. Qed.

(** ** Adding scopes none of which implies another *)

Lemma obj_set_append (o : jsobj (list string)) k v : obj_get o k = None -> obj_set o k v = o ++ [(k, v)].
Proof.
  induction o as [|[k' v'] o IH]; [done|]. cbn [obj_get obj_set]. destruct (String.eqb k' k); [done|].
  intros Hk. by rewrite IH.
Qed.

Definition unrelated (s : string) (ks : list string) : Prop := forall k, k ∈ ks -> ~ implies s k /\ ~ implies k s.

Lemma addScope_unrelated A s I0 :
  inv A -> good s -> imp s = Some I0 -> unrelated s (getScopeValues A) ->
  exists A', _addScope A s (set_of I0) = Some A' /\ inv A' /\
    A'.(_scopesToImplicants) = A.(_scopesToImplicants) ++ [(s, set_of I0)].
Proof.
  intros HA Hg HI Hu.
  assert (~ grants A s) as Hng by (intros (a & Ha%member_keys & Has); by apply (Hu a Ha)).
  destruct (addScope_new A s I0 HA Hg HI Hng) as (A' & HE & Hinv & _). exists A'. split; [done|]. split; [done|].
  unfold _addScope in HE.
  assert (_hasSomeScope A (set_of I0) = false) as Hf by (apply not_true_iff_false; by rewrite hasSome_grants).
  rewrite Hf in HE.
  assert (default [] (obj_get A.(_implicantsToScopes) s) = []) as HR.
  { apply elem_of_nil_inv. intros t Ht. apply (implied_scopes A s t HA) in Ht as [Ht%member_keys Hst].
    by destruct (Hu t Ht). }
  rewrite HR in HE. cbn [removeScopes mbind option_bind] in HE.
  destruct (link s (set_of I0) _) as [m|]; [|done]. injection HE as <-. simpl. apply obj_set_append.
  apply obj_get_none_keys. intros Hs. apply (Hu s Hs). by apply implies_refl.
Qed.

Lemma addScopes_unrelated A es :
  inv A -> Forall entry_ok es -> NoDup es.*1 ->
  (forall s t, s ∈ es.*1 -> t ∈ getScopeValues A ++ es.*1 -> s <> t -> ~ implies s t /\ ~ implies t s) ->
  (forall s, s ∈ es.*1 -> s ∉ getScopeValues A) ->
  exists A', addScopes A es = Some A' /\ inv A' /\ A'.(_scopesToImplicants) = A.(_scopesToImplicants) ++ es.
Proof.
  intros HA He. revert A HA. induction He as [|[s I] es [Hg (I0 & HI & HE)] He IH]; intros A HA Hn Hu Hd.
  - exists A. by rewrite app_nil_r.
  - simpl in Hg, HI, HE. subst I. rewrite fmap_cons in Hn, Hu, Hd. cbn [fst] in Hn, Hu, Hd.
    apply NoDup_cons in Hn as [Hs Hn].
    destruct (addScope_unrelated A s I0 HA Hg HI) as (A1 & H1 & HA1 & E1).
    { intros k Hk. apply Hu; [set_solver|set_solver|]. intros ->. by apply (Hd k); [set_solver|]. }
    cbn [addScopes]. rewrite H1. cbn [mbind option_bind].
    destruct (IH A1 HA1 Hn) as (A' & -> & HA' & E').
    + intros x y Hx Hy. apply Hu; [set_solver|]. unfold getScopeValues in *. rewrite E1, fmap_app in Hy. set_solver.
    + intros x Hx. unfold getScopeValues. rewrite E1, fmap_app, elem_of_app. intros [Hin|Hin].
      * apply (Hd x); set_solver.
      * apply Hs. set_solver.
    + exists A'. split; [done|]. split; [done|]. by rewrite E', E1, <- app_assoc.
Qed.

Lemma NoDup_filterb_keys (p : string * list string -> bool) (o : jsobj (list string)) :
  NoDup o.*1 -> NoDup (filterb p o).*1.
Proof.
  induction o as [|e o IH]; [done|]. rewrite fmap_cons. intros [Hx Hk]%NoDup_cons. cbn [filterb].
  destruct (p e); [|by apply IH]. rewrite fmap_cons. apply NoDup_cons. split; [|by apply IH]. intros Hin. apply Hx.
  apply list_elem_of_fmap in Hin as (e' & -> & Hin). apply elem_of_filterb in Hin as [Hin _].
  apply list_elem_of_fmap. eauto.
Qed.

(** The entries of a set that pass a test make a set of their own. *)
Lemma select_spec A (p : string * list string -> bool) :
  inv A ->
  exists A', addScopes empty_set (filterb p A.(_scopesToImplicants)) = Some A' /\ inv A' /\
    A'.(_scopesToImplicants) = filterb p A.(_scopesToImplicants).
Proof.
  intros HA. set (es := filterb p A.(_scopesToImplicants)).
  assert (forall s, s ∈ es.*1 -> member A s) as Hsub.
  { intros s ([s' I] & -> & Hin)%list_elem_of_fmap. apply elem_of_filterb in Hin as [Hin _].
    apply member_keys, list_elem_of_fmap. eauto. }
  assert (NoDup es.*1) as Hn.
  { apply NoDup_filterb_keys, HA. }
  destruct (addScopes_unrelated empty_set es empty_inv) as (A' & HE & Hinv & E); [|done| | |by exists A'].
  - pose proof (entries_ok A HA) as Hok. rewrite Forall_forall in Hok |- *. intros e He.
    apply Hok. by apply elem_of_filterb in He as [? _].
  - intros s t Hs%Hsub Ht Hne. assert (member A t) as Ht' by (apply Hsub; set_solver).
    split; intros Hi; apply Hne; [|symmetry]; by apply (inv_antichain A HA).
  - intros s _. apply not_elem_of_nil.
Qed.

Lemma select_members A B (keep : bool) :
  inv A -> inv B ->
  exists A', addScopes empty_set (filterb (fun e => Bool.eqb keep (_hasSomeScope B e.2)) A.(_scopesToImplicants)) = Some A' /\
    inv A' /\ forall s, member A' s <-> member A s /\ (grants B s <-> keep = true).
Proof.
  intros HA HB. destruct (select_spec A (fun e => Bool.eqb keep (_hasSomeScope B e.2)) HA) as (A' & HE & Hinv & E).
  exists A'. split; [done|]. split; [done|]. intros s. rewrite !member_keys, E, !list_elem_of_fmap.
  pose proof (entries_ok A HA) as Hok. rewrite Forall_forall in Hok.
  assert (forall I, (s, I) ∈ _scopesToImplicants A -> _hasSomeScope B I = true <-> grants B s) as Hg.
  { intros I Hin. destruct (Hok _ Hin) as [Hgd (I0 & HI & HE')]. simpl in *. subst I. by apply hasSome_grants. }
  split.
  - intros ([s' I] & -> & [Hin Hk]%elem_of_filterb). simpl in *. split; [by exists (s', I)|].
    rewrite <- (Hg I Hin). apply Bool.eqb_prop in Hk. by subst keep.
  - intros [([s' I] & -> & Hin) Hk]. exists (s', I). split; [done|]. apply elem_of_filterb. split; [done|]. simpl in *.
    rewrite <- (Hg I Hin) in Hk. apply Bool.eqb_true_iff. destruct keep, (_hasSomeScope B I); naive_solver.
Qed.

Lemma filtered_spec A B :
  inv A -> inv B ->
  exists F, filtered A B = Some F /\ inv F /\ forall s, member F s <-> member A s /\ grants B s.
Proof.
  intros HA HB. destruct (select_members A B true HA HB) as (F & HF & Hinv & Hm). exists F. split; [|split; [done|]].
  - unfold filtered. rewrite <- HF. f_equal. apply filterb_ext. intros e _. by destruct (_hasSomeScope B e.2).
  - intros s. rewrite Hm. naive_solver.
Qed.

Lemma difference_spec A B :
  inv A -> inv B ->
  exists D, difference A B = Some D /\ inv D /\ forall s, member D s <-> member A s /\ ~ grants B s.
Proof.
  intros HA HB. destruct (select_members A B false HA HB) as (D & HD & Hinv & Hm). exists D. split; [|split; [done|]].
  - by unfold difference.
  - intros s. rewrite Hm. naive_solver.
Qed.

Lemma union_spec A B :
  inv A -> inv B ->
  exists U, union A B = Some U /\ inv U /\ forall v, good v -> grants U v <-> grants A v \/ grants B v.
Proof.
  intros HA HB. unfold union.
  destruct (addScopes_spec empty_set _ empty_inv (entries_ok A HA)) as (A1 & -> & HA1 & H1).
  cbn [mbind option_bind]. destruct (addScopes_spec A1 _ HA1 (entries_ok B HB)) as (U & -> & HU & H2).
  exists U. split; [done|]. split; [done|]. intros v Hv. rewrite H2, H1 by done.
  rewrite !grants_keys. pose proof (empty_grants v). naive_solver.
Qed.

(** [filtered] and [difference] split a set: [A.filtered(B)] has exactly
    the scopes of [A] that [B] grants, [A.difference(B)] exactly the others,
    and [A.union(B)] grants exactly what [A] or [B] grants. *)
Theorem scopes_algebra A B :
  inv A -> inv B ->
  (exists F, filtered A B = Some F /\ inv F /\ forall s, member F s <-> member A s /\ grants B s) /\
  (exists D, difference A B = Some D /\ inv D /\ forall s, member D s <-> member A s /\ ~ grants B s) /\
  (exists U, union A B = Some U /\ inv U /\ forall v, good v -> grants U v <-> grants A v \/ grants B v).
Proof. intros HA HB. split_and!; [by apply filtered_spec|by apply difference_spec|by apply union_spec]. Qed.

Lemma implicant_keys A i :
  inv A -> i ∈ A.(_implicantsToScopes).*1 <-> exists a, member A a /\ implies i a.
Proof.
  intros HA. transitivity (is_Some (obj_get A.(_implicantsToScopes) i)).
  { destruct (obj_get A.(_implicantsToScopes) i) eqn:E.
    - split; [eauto|]. intros _. destruct (decide (i ∈ A.(_implicantsToScopes).*1)) as [?|Hn]; [done|].
      apply obj_get_none_keys in Hn. congruence.
    - apply obj_get_none_keys in E. split; [done|by intros [? ?]]. }
  setoid_rewrite <- (implied_scopes A i _ HA). split.
  - intros [l Hl]. rewrite Hl. simpl. destruct (inv_sets A HA i l Hl) as [Hne _]. destruct l as [|x l]; [done|].
    exists x. set_solver.
  - intros [a Ha]. destruct (obj_get _ i); [eauto|]. by apply elem_of_nil in Ha.
Qed.

Lemma search_implicants A B :
  inv A -> inv B ->
  _searchImplicants B (fun i _ => _hasScope A i) = true <-> exists a b, member A a /\ member B b /\ implies a b.
Proof.
  intros HA HB. unfold _searchImplicants. rewrite existsb_exists. split.
  - intros ([i l] & Hin%list_elem_of_In & Hs).
    destruct (proj1 (implicant_keys B i HB)) as (b & Hb & Hib); [apply list_elem_of_fmap; by exists (i, l)|].
    exists i, b. split; [|done]. apply (hasScope_member A); [|done].
    destruct (so_imp b (member_good B b HB Hb)) as (I & HI & _ & Hp). destruct Hib as (I' & HI' & Hi).
    rewrite HI in HI'. injection HI' as <-. auto.
  - intros (a & b & Ha & Hb & Hab).
    assert (a ∈ B.(_implicantsToScopes).*1) as Hk by (apply implicant_keys; eauto).
    apply list_elem_of_fmap in Hk as ([i l] & -> & Hin). exists (i, l). split; [by apply list_elem_of_In|].
    unfold _hasScope, js_in, obj_has. simpl in Ha. destruct Ha as [I HI]. by rewrite HI.
Qed.

(** [intersects] holds iff some scope of one set implies some scope of
    the other. *)
Theorem scopes_intersects_exact A B :
  inv A -> inv B ->
  intersects A B = true <-> exists a b, member A a /\ member B b /\ (implies a b \/ implies b a).
Proof.
  intros HA HB. unfold intersects. rewrite orb_true_iff, !search_implicants by done. naive_solver.
Qed.

(** ** Printing and parsing *)

Lemma build_entries A es :
  Forall entry_ok es -> build imp A es.*1 = addScopes A es.
Proof.
  intros He. revert A. induction He as [|[s I] es [Hg (I0 & HI & HE)] He IH]; intros A; [done|].
  simpl in HI, HE. subst I. rewrite fmap_cons. cbn [fst build addScopes]. rewrite HI. cbn [mbind option_bind].
  destruct (_addScope A s (set_of I0)); [apply IH|done].
Qed.

Lemma fromArray_values A :
  inv A -> exists A', fromArray imp (getScopeValues A) = Some A' /\ inv A' /\
    A'.(_scopesToImplicants) = A.(_scopesToImplicants).
Proof.
  intros HA. unfold fromArray, getScopeValues. rewrite build_entries by (by apply entries_ok).
  destruct (select_spec A (fun _ => true) HA) as (A' & HE & Hinv & E). rewrite filterb_all in HE, E by done. eauto.
Qed.

End Laws.

Lemma good_printable href_of s : good_scope href_of s -> str_truthy s = true /\ avoids " " s = true.
Proof.
  intros Hg.
  assert (VALID_SCOPE_VALUE s = true) as Hv.
  { destruct (good_cases href_of s Hg) as [(names & w & Hp & _)|(u & Hp & _)].
    - unfold parse_short in Hp. destruct (_ && _) eqn:E; [|done]. by apply andb_true_iff in E as [? _].
    - unfold parse_url in Hp. destruct (_ && _) eqn:E; [|done]. by apply andb_true_iff in E as [? _]. }
  unfold VALID_SCOPE_VALUE in Hv. apply andb_true_iff in Hv as [Ht Hf]. split; [done|].
  clear -Hf. induction s as [|b s IH]; [done|]. simpl in *. apply andb_true_iff in Hf as [Hb Hf].
  rewrite IH, andb_true_r by done. apply negb_true_iff. by destruct (Ascii.eqb_spec b " ") as [->|].
Qed.

Lemma string_roundtrip href_of A :
  inv (getImplicantValues href_of) (good_scope href_of) A ->
  exists A', fromString (getImplicantValues href_of) (toString A) = Some A' /\
    inv (getImplicantValues href_of) (good_scope href_of) A' /\ getScopeValues A' = getScopeValues A.
Proof.
  intros HA. destruct (fromArray_values (getImplicantValues href_of) (good_scope href_of) A HA) as (A' & HE & Hinv & E).
  exists A'. split; [|split; [done|]; unfold getScopeValues; by rewrite E].
  unfold fromString, toString. rewrite <- HE. f_equal.
  assert (forall s, s ∈ getScopeValues A -> str_truthy s = true /\ avoids " " s = true) as Hp.
  { intros s Hs%member_keys.
    apply (good_printable href_of). by apply (member_good (getImplicantValues href_of) _ A). }
  destruct (getScopeValues A) as [|k ks]; [done|]. rewrite (split_join " " (k :: ks)).
  - apply filterb_all. intros s Hs. by apply Hp.
  - done.
  - apply Forall_forall. intros s Hs. by apply Hp.
Qed.

(** Parsing what [toString] prints gives back the same scopes in the
    same order, for every consistent set. *)
Theorem scopes_string_roundtrip href_of A :
  inv (getImplicantValues href_of) (good_scope href_of) A ->
  exists A', fromString (getImplicantValues href_of) (toString A) = Some A' /\
    inv (getImplicantValues href_of) (good_scope href_of) A' /\ getScopeValues A' = getScopeValues A.
Proof. apply string_roundtrip. Qed.

(** Membership is tested with [in] on plain objects: a scope below an
    inherited property name is dropped when parsed, and every set, the empty
    one included, is said to contain it. *)
Theorem scopes_prototype_names href_of A :
  fromArray (getImplicantValues href_of) ["constructor:admin"%string] = Some empty_set /\
  _hasScope A "constructor" = true /\ contains A empty_set = true.
Proof.
  split; [vm_compute; reflexivity|]. split; [|done]. unfold _hasScope, js_in. apply orb_true_r.
Qed.

(** ** Witnesses *)

Definition url_imp := getImplicantValues Some.
Definition url_good := good_scope Some.

Ltac good_short :=
  eexists; split; [vm_compute; reflexivity|]; split;
  [let i := fresh in let Hi := fresh in intros i Hi;
   repeat (apply elem_of_cons in Hi as [->|Hi]; [vm_compute; reflexivity|]); by apply elem_of_nil in Hi
  |let Hc := fresh in intros Hc; vm_compute in Hc; discriminate Hc].

Lemma good_profile : url_good "profile". Proof. good_short. Qed.
Lemma good_email : url_good "profile:email". Proof. good_short. Qed.
Lemma good_basket : url_good "basket:write". Proof. good_short. Qed.

Definition profile_set : ScopeSet := default empty_set (fromArray url_imp ["profile:email"; "profile"]%string).
Definition mixed_set : ScopeSet := default empty_set (fromArray url_imp ["profile:email"; "basket:write"]%string).

Lemma sample_inv l A : Forall url_good l -> fromArray url_imp l = Some A -> inv url_imp url_good A.
Proof.
  intros Hl E. destruct (build_spec url_imp url_good empty_set l (empty_inv _ _) Hl) as (A' & HE & Hinv & _).
  unfold fromArray in E. rewrite HE in E. by injection E as <-.
Qed.

Lemma profile_inv : inv url_imp url_good profile_set.
Proof.
  apply (sample_inv ["profile:email"; "profile"]%string); [|vm_compute; reflexivity].
  repeat constructor; [apply good_email|apply good_profile].
Qed.

Lemma mixed_inv : inv url_imp url_good mixed_set.
Proof.
  apply (sample_inv ["profile:email"; "basket:write"]%string); [|vm_compute; reflexivity].
  repeat constructor; [apply good_email|apply good_basket].
Qed.

Lemma scopes_fromArray_witness :
  exists A, fromArray url_imp ["profile:email"; "profile"]%string = Some A /\ inv url_imp url_good A /\
    forall v, url_good v -> grants url_imp A v <->
      exists s, s ∈ ["profile:email"; "profile"]%string /\ implies url_imp s v.
Proof.
  apply (scopes_fromArray url_imp url_good).
  repeat constructor; [apply good_email|apply good_profile].
Defined.

Lemma scopes_contains_exact_witness :
  (contains profile_set mixed_set = true <->
   forall v, url_good v -> grants url_imp mixed_set v -> grants url_imp profile_set v) /\
  contains profile_set mixed_set = false.
Proof.
  split; [|vm_compute; reflexivity].
  exact (scopes_contains_exact url_imp url_good profile_set mixed_set profile_inv mixed_inv).
Defined.

Lemma scopes_algebra_witness :
  (exists F, filtered mixed_set profile_set = Some F /\ inv url_imp url_good F /\
     forall s, member F s <-> member mixed_set s /\ grants url_imp profile_set s) /\
  (exists D, difference mixed_set profile_set = Some D /\ inv url_imp url_good D /\
     forall s, member D s <-> member mixed_set s /\ ~ grants url_imp profile_set s) /\
  (exists U, union mixed_set profile_set = Some U /\ inv url_imp url_good U /\
     forall v, url_good v -> grants url_imp U v <-> grants url_imp mixed_set v \/ grants url_imp profile_set v).
Proof. exact (scopes_algebra url_imp url_good mixed_set profile_set mixed_inv profile_inv). Defined.

Lemma scopes_intersects_exact_witness :
  intersects mixed_set profile_set = true <->
  exists a b, member mixed_set a /\ member profile_set b /\ (implies url_imp a b \/ implies url_imp b a).
Proof. exact (scopes_intersects_exact url_imp url_good mixed_set profile_set mixed_inv profile_inv). Defined.

Lemma scopes_string_roundtrip_witness :
  exists A', fromString url_imp (toString mixed_set) = Some A' /\ inv url_imp url_good A' /\
    getScopeValues A' = getScopeValues mixed_set.
Proof. exact (scopes_string_roundtrip Some mixed_set mixed_inv). Defined.
