(* ===== verification/Grant.v ===== *)
(** * OAuth grants (packages/fxa-auth-server/lib/oauth/grant.js)

    [validateRequestedGrant] decides whether a client may be granted the
    requested access; [generateTokens] hands out the tokens of a grant.  The
    scope database, the token store and the signing of JWTs are parameters. *)

From S2P Require Import Prelude Text ScopeValues Scopes.

#[local] Open Scope string_scope.

(** ** Data *)

Record Claims := mkClaims {
  uid : string;
  fxa_verifiedEmail : string;
  fxa_aal : option Z;
  fxa_tokenVerified : bool;
  fxa_sessionTokenId : option string;
  fxa_lastAuthAt : option Z;
  fxa_amr : option (list string) }.

Record Client := mkClient {
  client_id : string;
  client_name : string;
  trusted : bool;
  allowedScopes : option string }.

Record RequestedGrant := mkRequested {
  rg_scope : option ScopeSet;
  rg_acr_values : option string;
  rg_access_type : option string;
  rg_keys_jwe : option string }.

(** A row of the scopes table. *)
Record ScopeRow := mkRow { hasScopedKeys : bool }.

(** What [validateRequestedGrant] returns.  Fields that no decision depends on
    are left out: the name of the client and its [canGrant] and
    [publicClient], which the token endpoint sets again from the client it
    authenticated, and the times [generation] and [profileChangedAt] of the
    claims, which are copied into access tokens. *)
Record Grant := mkGrant {
  g_clientId : string;
  g_userId : string;
  g_email : string;
  g_scope : ScopeSet;
  g_scopeConfig : list (string * option ScopeRow);
  g_sessionTokenId : option string;
  g_offline : bool;
  g_authAt : option Z;
  g_amr : option (list string);
  g_aal : option Z;
  g_keysJwe : option string }.

Inductive Outcome :=
  | Granted (g : Grant)
  | MismatchAcr
  | InvalidScopes (l : list string)
  | InvalidAssertion
  | ScopeError.                     (* a scope value that does not parse *)

Definition UNTRUSTED_CLIENT_ALLOWED : list string := ["openid"; "profile:uid"; "profile:email"; "profile:display_name"].

Section Grant.
Context (href_of : string -> option string) (getScope : string -> option ScopeRow).

Abbreviation imp := (getImplicantValues href_of).
Abbreviation good := (good_scope href_of).

Definition UNTRUSTED_CLIENT_ALLOWED_SCOPES : ScopeSet := default empty_set (fromArray imp UNTRUSTED_CLIENT_ALLOWED).

(** The ACR check: does it pass? *)
Definition acr_ok (acr_values : option string) (claims : Claims) : bool :=
  match acr_values with
  | Some v =>
      if str_truthy v && bool_decide ("AAL2" ∈ split_spaces (trim v))
      then match claims.(fxa_aal) with Some a => a >=? 2 | None => false end
      else true
  | None => true
  end.

(** The loop over the requested scopes. *)
Record Scan := mkScan {
  requiresVerifiedToken : bool;
  scopeConfig : list (string * option ScopeRow);
  customScopes : ScopeSet }.

Definition scan_one (st : Scan) (scope : string) : option Scan :=
  let s := getScope scope in
  let conf := (st.(scopeConfig) ++ [(scope, s)])%list in
  match s with
  | None => Some (mkScan st.(requiresVerifiedToken) conf st.(customScopes))
  | Some row =>
      coerced ← fromArray imp [scope];
      custom ← add st.(customScopes) coerced;
      Some (mkScan (st.(requiresVerifiedToken) || row.(hasScopedKeys)) conf custom)
  end.

Fixpoint scan (st : Scan) (scopes : list string) : option Scan :=
  match scopes with
  | [] => Some st
  | scope :: scopes' => st' ← scan_one st scope; scan st' scopes'
  end.

(** [difference] followed by [isEmpty]: the scopes that are refused, [None]
    when an operation throws. *)
Definition refused_scopes (requested allowed : ScopeSet) : option (list string) :=
  D ← difference requested allowed;
  Some (if isEmpty D then [] else getScopeValues D).

Definition grant_of (claims : Claims) (client : Client) (req : RequestedGrant) (scope : ScopeSet)
    (conf : list (string * option ScopeRow)) : Grant := {|
  g_clientId := client.(client_id);
  g_userId := claims.(uid);
  g_email := claims.(fxa_verifiedEmail);
  g_scope := scope;
  g_scopeConfig := conf;
  g_sessionTokenId := claims.(fxa_sessionTokenId);
  g_offline := bool_decide (req.(rg_access_type) = Some "offline");
  g_authAt := claims.(fxa_lastAuthAt);
  g_amr := claims.(fxa_amr);
  g_aal := claims.(fxa_aal);
  g_keysJwe := req.(rg_keys_jwe) |}.

(** The checks on the scopes a client asks for; [None] when they all pass. *)
Definition check_untrusted (client : Client) (scope : ScopeSet) : option Outcome :=
  if client.(trusted) then None
  else match refused_scopes scope UNTRUSTED_CLIENT_ALLOWED_SCOPES with
       | None => Some ScopeError
       | Some [] => None
       | Some l => Some (InvalidScopes l)
       end.

Definition check_custom (client : Client) (custom : ScopeSet) : option Outcome :=
  if isEmpty custom then None
  else match fromString imp (default "" client.(allowedScopes)) with
       | None => Some ScopeError
       | Some allowed =>
           match refused_scopes custom allowed with
           | None => Some ScopeError
           | Some [] => None
           | Some l => Some (InvalidScopes l)
           end
       end.

Definition validateRequestedGrant (claims : Claims) (client : Client) (req : RequestedGrant) : Outcome :=
  let scope := default empty_set req.(rg_scope) in
  if negb (acr_ok req.(rg_acr_values) claims) then MismatchAcr
  else
    match check_untrusted client scope with
    | Some e => e
    | None =>
        match scan (mkScan false [] empty_set) (getScopeValues scope) with
        | None => ScopeError
        | Some st =>
            match check_custom client st.(customScopes) with
            | Some e => e
            | None =>
                if st.(requiresVerifiedToken) && negb claims.(fxa_tokenVerified) then InvalidAssertion
                else Granted (grant_of claims client req scope st.(scopeConfig))
            end
        end
    end.

(** ** Tokens *)

(** What the callers add to a validated grant. *)
Record Extra := mkExtra { x_ttl : option Z; x_resource : option string }.

Record Tokens := mkTokens {
  access_token : string;
  t_scope : string;
  expires_in : Z;
  auth_at : option Z;
  keys_jwe : option string;
  refresh_token : option string;
  id_token : option string;
  session_token_id : option string }.

(** The claims of an id token and of a JWT access token (the subject, which
    jwt_sub.js derives from the user, and the two times that are copied from
    the grant are left out). *)
Record IdClaims := mkIdClaims {
  id_aud : list string; id_iat : Z; id_exp : Z; id_amr : option (list string);
  id_aal : option Z; id_auth_time : option Z; id_at_hash : string }.

Record AccessClaims := mkAccessClaims {
  at_aud : list string; at_client_id : string; at_exp : Z; at_iat : Z; at_jti : string;
  at_scope : string; at_subscriptions : option (list string) }.

Definition truthy_num (z : option Z) : option Z := match z with Some 0 | None => None | _ => z end.

(** [scope.contains('...')] with the coercion of a string. *)
Definition contains_value (A : ScopeSet) (value : string) : option bool :=
  match fromArray imp [value] with Some B => Some (contains A B) | None => None end.

Definition SESSION_TOKEN_SCOPE : string := "https://identity.mozilla.com/tokens/session".
Definition OLD_SYNC_SCOPE : string := "https://identity.mozilla.com/apps/oldsync".

(** The token store ([newAccess]: token and expiry), the signatures, the
    hash of util.js and the subscription service. *)
Context (newAccess : Grant -> string * Z) (newRefresh : Grant -> string).
Context (sign_id : IdClaims -> string) (sign_access : AccessClaims -> string).
Context (generateTokenHash : string -> string) (capabilities : Grant -> list string).
Context (jwtEnabled : bool) (jwtClients : list string) (tokenServerUrl : string) (ttl now : Z).

Definition generateIdToken (g : Grant) (x : Extra) (accessToken : string) : string :=
  let iat := now / 1000 in
  sign_id {|
    id_aud := match x.(x_resource) with Some r => [g.(g_clientId); r] | None => [g.(g_clientId)] end;
    id_iat := iat; id_exp := iat + ttl; id_amr := g.(g_amr); id_aal := truthy_num g.(g_aal);
    id_auth_time := (fun a => a / 1000) <$> truthy_num g.(g_authAt);
    id_at_hash := generateTokenHash accessToken |}.

(** [JWTAccessToken.create]: the claims that are signed. *)
Definition createJWT (token : string) (expiresAt : Z) (g : Grant) (x : Extra) (subs : option (list string))
    : option string :=
  match contains_value g.(g_scope) OLD_SYNC_SCOPE with
  | None => None
  | Some sync =>
      Some (sign_access {|
        at_aud := match x.(x_resource) with
                  | Some r => [g.(g_clientId); r]
                  | None => if sync then [tokenServerUrl] else [g.(g_clientId)]
                  end;
        at_client_id := g.(g_clientId); at_exp := expiresAt / 1000; at_iat := now / 1000;
        at_jti := token; at_scope := toString g.(g_scope); at_subscriptions := subs |})
  end.

(** [generateAccessToken]: the token handed out and its expiry. *)
Definition generateAccessToken (g : Grant) (x : Extra) : option (string * Z) :=
  let '(token, expiresAt) := newAccess g in
  if negb jwtEnabled || negb (bool_decide (toLowerCase g.(g_clientId) ∈ jwtClients)) then Some (token, expiresAt)
  else
    match contains_value g.(g_scope) "profile:subscriptions" with
    | None => None
    | Some subs =>
        match createJWT token expiresAt g x (if subs then Some (capabilities g) else None) with
        | Some jwt => Some (jwt, expiresAt)
        | None => None
        end
    end.

Definition generateTokens (g : Grant) (x : Extra) : option Tokens :=
  match generateAccessToken g x with
  | None => None
  | Some (access, expiresAt) =>
      match contains_value g.(g_scope) "openid", contains_value g.(g_scope) SESSION_TOKEN_SCOPE with
      | Some openid, Some session =>
          Some {|
            access_token := access;
            t_scope := toString g.(g_scope);
            expires_in := match truthy_num x.(x_ttl) with Some t => t | None => (expiresAt - now) / 1000 end;
            auth_at := truthy_num g.(g_authAt);
            keys_jwe := match g.(g_keysJwe) with Some k => if str_truthy k then Some k else None | None => None end;
            refresh_token := if g.(g_offline) then Some (newRefresh g) else None;
            id_token := if openid then Some (generateIdToken g x access) else None;
            session_token_id := if session then g.(g_sessionTokenId) else None |}
      | _, _ => None
      end
  end.

End Grant.

(** ** What a validated grant guarantees *)

Section Laws.
Context (href_of : string -> option string) (getScope : string -> option ScopeRow).

Abbreviation imp := (getImplicantValues href_of).
Abbreviation good := (good_scope href_of).
Abbreviation set_inv := (inv imp good).
Abbreviation allows := (grants imp).

Lemma isEmpty_members A : isEmpty A = true <-> forall s, ~ member A s.
Proof.
  unfold isEmpty, member. destruct (_scopesToImplicants A) as [|[k v] o].
  - split; [|done]. intros _ s. simpl. by intros [? ?].
  - split; [done|]. intros Hn. exfalso. apply (Hn k). simpl. rewrite String.eqb_refl. eauto.
Qed.

Lemma allows_dec A s : good s -> allows A s \/ ~ allows A s.
Proof.
  intros Hg. destruct (so_imp s Hg) as (I & HI & _). rewrite <- (hasSome_grants imp good A s I Hg HI).
  destruct (_hasSomeScope A (set_of I)); [by left|by right].
Qed.

(** The scopes refused are none iff all are allowed. *)
Lemma refused_scopes_spec R A :
  set_inv R -> set_inv A ->
  exists l, refused_scopes R A = Some l /\ (l = [] <-> forall s, member R s -> allows A s).
Proof.
  intros HR HA. destruct (select_members imp good R A false HR HA) as (D & HD & _ & Hm).
  unfold refused_scopes, difference.
  rewrite (filterb_ext _ (fun e => Bool.eqb false (_hasSomeScope A e.2))) by (by intros [? I] _; simpl; destruct (_hasSomeScope A I)).
  rewrite HD. cbn [mbind option_bind].
  assert (isEmpty D = true <-> forall s, member R s -> allows A s) as He.
  { rewrite isEmpty_members. split.
    - intros Hn s Hs. destruct (allows_dec A s (member_good imp good R s HR Hs)) as [?|Hng]; [done|].
      exfalso. apply (Hn s), Hm. split; [done|]. split; [done|discriminate].
    - intros Hall s Hs. apply Hm in Hs as [Hs Hk]. by apply Hk in Hall. }
  eexists. split; [done|]. destruct (isEmpty D) eqn:Ed; [naive_solver|].
  rewrite <- He. split; [|done]. intros Hl. exfalso. unfold isEmpty, getScopeValues in *.
  by destruct (_scopesToImplicants D).
Qed.

Lemma good_open : good "openid". Proof. good_short. Qed.
Lemma good_uid : good "profile:uid". Proof. good_short. Qed.
Lemma good_mail : good "profile:email". Proof. good_short. Qed.
Lemma good_display : good "profile:display_name". Proof. good_short. Qed.

Lemma untrusted_inv : set_inv (UNTRUSTED_CLIENT_ALLOWED_SCOPES href_of).
Proof.
  destruct (build_spec imp good empty_set UNTRUSTED_CLIENT_ALLOWED (empty_inv _ _)) as (A & HA & Hinv & _).
  { repeat constructor; [apply good_open|apply good_uid|apply good_mail|apply good_display]. }
  unfold UNTRUSTED_CLIENT_ALLOWED_SCOPES, fromArray. by rewrite HA.
Qed.

(** [customScopes.add(scope)] *)
Lemma add_value_spec C s :
  set_inv C -> good s ->
  exists B C', fromArray imp [s] = Some B /\ add C B = Some C' /\ set_inv C' /\
    forall v, good v -> allows C' v <-> allows C v \/ implies imp s v.
Proof.
  intros HC Hs. destruct (build_spec imp good empty_set [s] (empty_inv _ _)) as (B & HB & HBi & HBg).
  { by repeat constructor. }
  destruct (addScopes_spec imp good C B.(_scopesToImplicants) HC (entries_ok imp good B HBi)) as (C' & HC' & Hi & Hg).
  exists B, C'. split; [done|]. split; [done|]. split; [done|]. intros v Hv. rewrite Hg, (grants_keys imp), HBg by done.
  pose proof (empty_grants imp v). set_solver.
Qed.

Lemma exists_elem_cons {A} (P : A -> Prop) y l : (exists x, x ∈ y :: l /\ P x) <-> P y \/ exists x, x ∈ l /\ P x.
Proof.
  split.
  - intros (x & [->|Hx]%elem_of_cons & HP); [by left|right; by exists x].
  - intros [HP|(x & Hx & HP)]; [exists y|exists x]; (split; [|done]); apply elem_of_cons; auto.
Qed.

Definition needs_key (s : string) : bool :=
  match getScope s with Some row => row.(hasScopedKeys) | None => false end.

Lemma scan_spec scopes st :
  set_inv st.(customScopes) -> Forall good scopes ->
  exists st', scan href_of getScope st scopes = Some st' /\ set_inv st'.(customScopes) /\
    st'.(requiresVerifiedToken) = st.(requiresVerifiedToken) || existsb needs_key scopes /\
    forall v, good v -> allows st'.(customScopes) v <->
      allows st.(customScopes) v \/ exists s, s ∈ scopes /\ is_Some (getScope s) /\ implies imp s v.
Proof.
  intros Hi Hg. revert st Hi. induction Hg as [|s scopes Hs Hg IH]; intros st Hi; cbn [scan existsb].
  - exists st. rewrite orb_false_r. split; [done|]. split; [done|]. split; [done|]. set_solver.
  - unfold scan_one, needs_key. destruct (getScope s) as [row|] eqn:Es.
    + destruct (add_value_spec st.(customScopes) s Hi Hs) as (B & C' & HB & HC & HCi & HCg). rewrite HB.
      cbn [mbind option_bind]. rewrite HC. cbn [mbind option_bind].
      destruct (IH (mkScan (requiresVerifiedToken st || hasScopedKeys row)
        ((scopeConfig st ++ [(s, Some row)])%list) C') HCi) as (st' & -> & Hi' & Hr & Hgr).
      exists st'. split; [done|]. split; [done|]. split; [rewrite Hr; simpl; by rewrite orb_assoc|].
      intros v Hv. rewrite Hgr by done. cbn [customScopes]. rewrite HCg, exists_elem_cons, Es by done.
      assert (is_Some (Some row)) as Hrow by eauto. tauto.
    + cbn [mbind option_bind].
      destruct (IH (mkScan (requiresVerifiedToken st) ((scopeConfig st ++ [(s, None)])%list) (customScopes st)) Hi)
        as (st' & -> & Hi' & Hr & Hgr).
      exists st'. split; [done|]. split; [done|]. split; [done|].
      intros v Hv. rewrite Hgr, exists_elem_cons, Es by done. cbn [customScopes].
      assert (~ is_Some (@None ScopeRow)) as Hrow by (by intros [? ?]). tauto.
Qed.

(** Members of the custom set are allowed iff the custom scopes are. *)
Lemma custom_allowed C A scopes :
  set_inv C -> set_inv A -> Forall good scopes ->
  (forall v, good v -> allows C v <-> exists s, s ∈ scopes /\ is_Some (getScope s) /\ implies imp s v) ->
  (forall s, member C s -> allows A s) <-> (forall s, s ∈ scopes -> is_Some (getScope s) -> allows A s).
Proof.
  intros HC HA Hg Hspec. rewrite Forall_forall in Hg. split.
  - intros Hall s Hs Hk. pose proof (Hg s Hs) as Gs.
    destruct (proj2 (Hspec s Gs)) as (c & Hc & Hcs); [|].
    { exists s. split; [done|]. split; [done|]. by apply (implies_refl imp good). }
    destruct (Hall c Hc) as (a & Ha & Hac). exists a. split; [done|].
    apply (implies_trans imp good a c s); [by apply (member_good imp good A)|by apply (member_good imp good C)|done..].
  - intros Hall c Hc. pose proof (member_good imp good C c HC Hc) as Gc.
    destruct (proj1 (Hspec c Gc)) as (s & Hs & Hk & Hsc); [by apply (grants_member imp good)|].
    destruct (Hall s Hs Hk) as (a & Ha & Has). exists a. split; [done|].
    apply (implies_trans imp good a s c); [by apply (member_good imp good A)|by apply Hg|done..].
Qed.

Lemma check_untrusted_spec client S :
  set_inv S ->
  check_untrusted href_of client S = None <->
  client.(trusted) = true \/ forall s, member S s -> allows (UNTRUSTED_CLIENT_ALLOWED_SCOPES href_of) s.
Proof.
  intros HS. unfold check_untrusted. destruct (trusted client); [split; auto|].
  destruct (refused_scopes_spec S _ HS untrusted_inv) as (l & -> & Hl).
  destruct l as [|x l]; split; try done; [naive_solver|]. intros [?|Hall]; [done|]. apply Hl in Hall. done.
Qed.

Lemma check_custom_spec client C A :
  set_inv C -> set_inv A -> fromString imp (default "" client.(allowedScopes)) = Some A ->
  check_custom href_of client C = None <-> forall s, member C s -> allows A s.
Proof.
  intros HC HA Hf. unfold check_custom. rewrite Hf. destruct (isEmpty C) eqn:Ee.
  - split; [|done]. intros _ s Hs. by apply isEmpty_members in Hs.
  - destruct (refused_scopes_spec C A HC HA) as (l & -> & Hl). destruct l as [|x l]; naive_solver.
Qed.

(** [C24] [validateRequestedGrant] grants exactly what policy allows: a
    grant is issued, for exactly the requested scopes, iff the requested
    assurance level is met, an untrusted client asks only for scopes implied
    by the public ones, every scope known to the server is implied by the
    client's own allowed scopes, and key-bearing scopes come with a verified
    token. *)
Theorem grant_policy_exact claims client req S A :
  req.(rg_scope) = Some S -> set_inv S -> set_inv A ->
  fromString imp (default "" client.(allowedScopes)) = Some A ->
  (exists g, validateRequestedGrant href_of getScope claims client req = Granted g /\ g.(g_scope) = S) <->
  acr_ok req.(rg_acr_values) claims = true /\
  (client.(trusted) = true \/ forall s, member S s -> allows (UNTRUSTED_CLIENT_ALLOWED_SCOPES href_of) s) /\
  (forall s, member S s -> is_Some (getScope s) -> allows A s) /\
  (forall s, member S s -> needs_key s = true -> claims.(fxa_tokenVerified) = true).
Proof.
  intros Hreq HS HA Hf. unfold validateRequestedGrant. rewrite Hreq. change (default empty_set (Some S)) with S.
  destruct (acr_ok _ claims); [|simpl; naive_solver]. cbn [negb].
  rewrite <- (check_untrusted_spec client S HS).
  destruct (check_untrusted href_of client S) as [e|] eqn:Eu.
  { split; [|naive_solver]. intros (g & -> & _). unfold check_untrusted in Eu.
    destruct (trusted client); [done|]. destruct (refused_scopes S _) as [[|x l]|]; done. }
  assert (Forall good (getScopeValues S)) as Hg.
  { apply Forall_forall. intros s Hs. apply (member_good imp good S s HS), member_keys, Hs. }
  destruct (scan_spec (getScopeValues S) (mkScan false [] empty_set) (empty_inv _ _) Hg) as (st & -> & HC & Hr & Hspec).
  assert (forall s, s ∈ getScopeValues S <-> member S s) as Hkeys by (intros s; by rewrite member_keys).
  pose proof (check_custom_spec client _ A HC HA Hf) as Hcc.
  rewrite (custom_allowed _ A (getScopeValues S) HC HA Hg) in Hcc.
  2:{ intros v Hv. rewrite Hspec by done. pose proof (empty_grants imp v). simpl. naive_solver. }
  setoid_rewrite Hkeys in Hcc. rewrite <- Hcc.
  destruct (check_custom href_of client (customScopes st)) as [e|] eqn:Ec.
  { split; [|naive_solver]. intros (g & -> & _). unfold check_custom in Ec.
    destruct (isEmpty _); [done|]. rewrite Hf in Ec. destruct (refused_scopes _ A) as [[|x l]|]; done. }
  assert (requiresVerifiedToken st = true <-> exists s, member S s /\ needs_key s = true) as Hneed.
  { rewrite Hr. simpl. rewrite existsb_exists. setoid_rewrite <- Hkeys. by setoid_rewrite list_elem_of_In. }
  destruct (requiresVerifiedToken st), (fxa_tokenVerified claims); simpl; naive_solver.
Qed.


(** ** Tokens *)

Lemma https_not_proto s : is_proto_name (String.append "https://" s) = false.
Proof.
  apply bool_decide_eq_false. unfold object_prototype. intros Hin.
  repeat (apply elem_of_cons in Hin as [Hx|Hin]; [discriminate Hx|]). by apply elem_of_nil in Hin.
Qed.

(** A plain URL is a good scope. *)
Lemma good_url value u :
  String.prefix "https:" value = true -> parse_url href_of value = Some u ->
  value = print_url u -> String.prefix "//" u.(pathname) = false -> good value.
Proof.
  intros Hh Hp Hv Hpl. destruct (url_implicants_spec href_of value u Hp Hpl) as (I & HI & Hspec).
  exists I. split; [unfold getImplicantValues; by rewrite Hh|]. split; [|by exists u].
  intros i Hi. apply Hspec in Hi as (q & _ & _ & [->|(h & _ & ->)]); apply https_not_proto.
Qed.

Lemma contains_value_spec A v :
  set_inv A -> good v -> exists b, contains_value href_of A v = Some b /\ (b = true <-> allows A v).
Proof.
  intros HA Hv. destruct (build_spec imp good empty_set [v] (empty_inv _ _)) as (B & HB & HBi & HBg).
  { by repeat constructor. }
  unfold contains_value, fromArray. rewrite HB. eexists. split; [done|].
  rewrite (contains_members imp good A B HA HBi).
  assert (forall x, good x -> allows B x <-> implies imp v x) as Hgr.
  { intros x Hx. rewrite HBg by done. pose proof (empty_grants imp x). set_solver. }
  split.
  - intros Hall. destruct (proj2 (Hgr v Hv)) as (b & Hb & Hbv); [by apply (implies_refl imp good)|].
    destruct (Hall b Hb) as (a & Ha & Hab). exists a. split; [done|].
    apply (implies_trans imp good a b v); [by apply (member_good imp good A)|by apply (member_good imp good B)|done..].
  - intros (a & Ha & Hav) b Hb. pose proof (member_good imp good B b HBi Hb) as Gb. exists a. split; [done|].
    apply (implies_trans imp good a v b); [by apply (member_good imp good A)|done..|].
    apply (Hgr b Gb). by apply (grants_member imp good).
Qed.

Context (newAccess : Grant -> string * Z) (newRefresh : Grant -> string).
Context (sign_id : IdClaims -> string) (sign_access : AccessClaims -> string).
Context (generateTokenHash : string -> string) (capabilities : Grant -> list string).
Context (jwtEnabled : bool) (jwtClients : list string) (tokenServerUrl : string) (ttl now : Z).
Hypothesis session_canonical : href_of SESSION_TOKEN_SCOPE = Some SESSION_TOKEN_SCOPE.
Hypothesis sync_canonical : href_of OLD_SYNC_SCOPE = Some OLD_SYNC_SCOPE.

Lemma good_session : good SESSION_TOKEN_SCOPE.
Proof.
  apply (good_url _ (mkUrl "identity.mozilla.com" "/tokens/session" None)); [reflexivity| |reflexivity|reflexivity].
  unfold parse_url. rewrite bool_decide_true by done. reflexivity.
Qed.

Lemma good_sync : good OLD_SYNC_SCOPE.
Proof.
  apply (good_url _ (mkUrl "identity.mozilla.com" "/apps/oldsync" None)); [reflexivity| |reflexivity|reflexivity].
  unfold parse_url. rewrite bool_decide_true by done. reflexivity.
Qed.

Lemma good_subs : good "profile:subscriptions". Proof. good_short. Qed.

Lemma access_total g x :
  set_inv g.(g_scope) ->
  is_Some (generateAccessToken href_of newAccess sign_access capabilities jwtEnabled jwtClients tokenServerUrl now g x).
Proof.
  intros Hg. unfold generateAccessToken, createJWT. destruct (newAccess g) as [token expiresAt].
  destruct (_ || _); [eauto|].
  destruct (contains_value_spec _ _ Hg good_subs) as (b & -> & _).
  destruct (contains_value_spec _ _ Hg good_sync) as (b' & -> & _). eauto.
Qed.

Lemma tokens_spec g x :
  set_inv g.(g_scope) ->
  exists t, generateTokens href_of newAccess newRefresh sign_id sign_access generateTokenHash capabilities
      jwtEnabled jwtClients tokenServerUrl ttl now g x = Some t /\
    t.(t_scope) = toString g.(g_scope) /\
    (is_Some t.(refresh_token) <-> g.(g_offline) = true) /\
    (is_Some t.(id_token) <-> allows g.(g_scope) "openid") /\
    (is_Some t.(session_token_id) <-> allows g.(g_scope) SESSION_TOKEN_SCOPE /\ is_Some g.(g_sessionTokenId)).
Proof.
  intros Hg. unfold generateTokens. destruct (access_total g x Hg) as [[access expiresAt] ->].
  destruct (contains_value_spec _ _ Hg good_open) as (b & -> & Hb).
  destruct (contains_value_spec _ _ Hg good_session) as (b' & -> & Hb').
  assert (forall c (y : string), is_Some (if c : bool then Some y else None) <-> c = true) as Hif.
  { intros [] y; split; done || by intros [? ?]. }
  eexists. split; [done|]. simpl. split; [done|]. rewrite !Hif, Hb, <- Hb'. split; [done|]. split; [done|].
  destruct b'; split; done || tauto || by intros [? ?].
Qed.

(** The tokens of a grant never exceed it: [generateTokens] always
    succeeds on a consistent scope set; it hands out a refresh token iff the
    grant is offline, an id token iff the scopes grant [openid], and the
    session token id only if the scopes grant the session token scope. *)
Theorem tokens_exact g x :
  set_inv g.(g_scope) ->
  exists t, generateTokens href_of newAccess newRefresh sign_id sign_access generateTokenHash capabilities
      jwtEnabled jwtClients tokenServerUrl ttl now g x = Some t /\
    t.(t_scope) = toString g.(g_scope) /\
    (is_Some t.(refresh_token) <-> g.(g_offline) = true) /\
    (is_Some t.(id_token) <-> allows g.(g_scope) "openid") /\
    (is_Some t.(session_token_id) <-> allows g.(g_scope) SESSION_TOKEN_SCOPE /\ is_Some g.(g_sessionTokenId)).
Proof. exact (tokens_spec g x). Qed.

End Laws.

(** ** Witnesses *)

Definition sync_row (s : string) : option ScopeRow :=
  if String.eqb s OLD_SYNC_SCOPE then Some (mkRow true) else None.

Definition sample_claims : Claims :=
  mkClaims "0123" "a@x.org" (Some 2) true (Some "beef") (Some 1600000000000) (Some ["pwd"; "otp"]).

Definition sample_client : Client := mkClient "dead" "rp" false (Some "profile basket:write").

Definition email_only : ScopeSet := default empty_set (fromArray url_imp ["profile:email"]).

Definition allowed_set : ScopeSet := default empty_set (fromString url_imp "profile basket:write").

Lemma email_only_inv : inv url_imp url_good email_only.
Proof. apply (sample_inv ["profile:email"]); [by repeat constructor; apply good_email|vm_compute; reflexivity]. Qed.

Lemma allowed_inv : inv url_imp url_good allowed_set.
Proof.
  apply (sample_inv ["profile"; "basket:write"]); [|vm_compute; reflexivity].
  repeat constructor; [apply good_profile|apply good_basket].
Qed.

Definition sample_req : RequestedGrant := mkRequested (Some email_only) (Some " AAL2 ") (Some "offline") None.

Lemma grant_policy_exact_witness :
  (exists g, validateRequestedGrant Some sync_row sample_claims sample_client sample_req = Granted g /\
     g.(g_scope) = email_only) <->
  acr_ok (Some " AAL2 ") sample_claims = true /\
  (false = true \/ forall s, member email_only s -> grants url_imp (UNTRUSTED_CLIENT_ALLOWED_SCOPES Some) s) /\
  (forall s, member email_only s -> is_Some (sync_row s) -> grants url_imp allowed_set s) /\
  (forall s, member email_only s -> needs_key sync_row s = true -> true = true).
Proof.
  apply (grant_policy_exact Some sync_row sample_claims sample_client sample_req email_only allowed_set);
    [reflexivity|exact email_only_inv|exact allowed_inv|vm_compute; reflexivity].
Defined.

Definition sample_grant : Grant := grant_of sample_claims sample_client sample_req email_only [].

Lemma tokens_exact_witness :
  exists t, generateTokens Some (fun _ => ("cafe", 1600003600000)) (fun _ => "f00d") (fun _ => "jwt")
      (fun _ => "at") id (fun _ => []) true ["dead"] "https://sync" 300 1600000000000 sample_grant (mkExtra None None) = Some t /\
    t.(t_scope) = toString email_only /\
    (is_Some t.(refresh_token) <-> g_offline sample_grant = true) /\
    (is_Some t.(id_token) <-> grants url_imp email_only "openid") /\
    (is_Some t.(session_token_id) <-> grants url_imp email_only SESSION_TOKEN_SCOPE /\ is_Some (Some "beef")).
Proof.
  apply (tokens_exact Some sync_row (fun _ => ("cafe", 1600003600000)) (fun _ => "f00d") (fun _ => "jwt")
    (fun _ => "at") id (fun _ => []) true ["dead"] "https://sync" 300 1600000000000 eq_refl eq_refl sample_grant).
  exact email_only_inv.
Defined.
