(* ===== verification/CustomsClient.v ===== *)
(** * The auth server's customs client (packages/fxa-auth-server/lib/customs.js)

    Every sensitive request of the auth server asks the customs server first;
    this module sends the question and acts on the answer.  The HTTP transport
    (backendService.js) is the function [api] that yields the customs server's
    reply. *)

From S2P Require Import Prelude Store Limits Records UserRules Server ServerLaws.
From S2P Require UidRecord.

(** ** Requests of the auth server *)

Record Request := mkRequest {
  clientAddress : string;
  userAgent : option string;
  payload : CheckPayload;
  isSuspiciousRequest : bool;
  events : list string }.             (* metrics events emitted *)

(** The errors thrown; [untilMs] is the moment that [retryAfterLocalized]
    describes to the user. *)
Inductive Verdict :=
  | Pass
  | TooManyRequests (retryAfter untilMs : Z) (unblock : bool)
  | RequestBlocked (unblock : bool)
  | ServiceError.                     (* the call to the customs server failed *)

(** The fields of a reply that are read. *)
Record CheckResult := mkCheckResult {
  block : bool; retryAfter : option Z; unblock : option bool; suspect : option bool }.

(** [sanitizePayload]: [truthy] tells the truthiness of a value. *)
Definition fieldsToOmit : list string := ["authPW"; "oldAuthPW"; "paymentToken"]%string.

Definition omit_field {V} (truthy : V -> bool) (p : jsobj V) (name : string) : jsobj V :=
  match obj_get p name with
  | Some v => if truthy v then obj_delete p name else p
  | None => p
  end.

Definition sanitizePayload {V} (truthy : V -> bool) (payload : option (jsobj V)) : option (jsobj V) :=
  match payload with
  | Some p => Some (fold_left (omit_field truthy) fieldsToOmit p)
  | None => None
  end.

Definition handleCustomsResult (now : Z) (r : CheckResult) (req : Request) : Request * Verdict :=
  let req := if default false r.(suspect)
             then mkRequest req.(clientAddress) req.(userAgent) req.(payload) true req.(events) else req in
  if r.(block) then
    let req := mkRequest req.(clientAddress) req.(userAgent) req.(payload) req.(isSuspiciousRequest)
                 (req.(events) ++ ["customs.blocked"%string]) in
    let u := default false r.(unblock) in
    let w := or0 r.(retryAfter) in
    (req, if w =? 0 then RequestBlocked u else TooManyRequests w (now + w * 1000) u)
  else (req, Pass).

(** The JSON reply of the customs server, as the transport delivers it; an
    error status rejects the promise. *)
Definition of_reply (r : Reply) : option CheckResult :=
  match r with
  | Checked x => Some (mkCheckResult x.(r_block) (Some x.(r_retryAfter)) x.(r_unblock) x.(r_suspect))
  | Authenticated b w => Some (mkCheckResult b w None None)
  | Done | MissingParameters | ServerError => None
  end.

Definition handle_reply (now : Z) (r : Reply) (req : Request) : Request * Verdict :=
  match of_reply r with
  | Some x => handleCustomsResult now x req
  | None => (req, ServiceError)
  end.

Section Client.
Context {M : Type} `{Memcached M StoredObject}.
Context (env : Env).

Definition client_check (email action : string) (req : Request) (s : State (M := M)) : State * (Request * Verdict) :=
  let '(s', r) := Server.check env (mkCheck (Some email) (Some req.(clientAddress)) (Some action)
                    req.(userAgent) req.(payload)) s in
  (s', handle_reply env.(now) r req).

Definition client_checkAuthenticated (uid action : string) (req : Request) (s : State (M := M))
    : State * (Request * Verdict) :=
  let '(s', r) := Server.checkAuthenticated env (Some action) (Some req.(clientAddress)) (Some uid) s in
  (s', handle_reply env.(now) r req).

Definition client_checkIpOnly (action : string) (req : Request) (s : State (M := M)) : State * (Request * Verdict) :=
  let '(s', r) := Server.checkIpOnly env (Some action) (Some req.(clientAddress)) s in
  (s', handle_reply env.(now) r req).

(** [flag(ip, info)]; [999] is [ERRNO.UNEXPECTED_ERROR]. *)
Definition client_flag (ip email : string) (errno : num) (s : State (M := M)) : State * bool :=
  let '(s', r) := Server.failedLoginAttempt env (Some email) (Some ip) (Some (num_or errno 999)) s in
  (s', match r with Done => true | _ => false end).

(** [reset(email)] *)
Definition client_reset (email : string) (s : State (M := M)) : State * bool :=
  let '(s', r) := Server.passwordReset env (Some email) s in
  (s', match r with Done => true | _ => false end).

End Client.

(** With no customs server configured ([url === 'none']). *)
Definition noblock : CheckResult := mkCheckResult false None None None.

(** ** Theorems *)

Lemma obj_get_fold_omit {V} (truthy : V -> bool) names (p : jsobj V) k :
  obj_get (fold_left (omit_field truthy) names p) k =
  match obj_get p k with
  | Some v => if bool_decide (k ∈ names) && truthy v then None else Some v
  | None => None
  end.
Proof.
  revert p. induction names as [|n names IH]; intros p; cbn [fold_left].
  - by destruct (obj_get p k).
  - rewrite IH. unfold omit_field. destruct (String.eqb_spec n k) as [->|Hne].
    + rewrite (bool_decide_true (k ∈ k :: names)) by set_solver.
      destruct (obj_get p k) as [v|] eqn:E; [|by rewrite E].
      destruct (truthy v) eqn:T; rewrite ?obj_get_delete_eq, ?E; [done|]. by rewrite T, andb_false_r.
    + rewrite (bool_decide_ext (k ∈ n :: names) (k ∈ names)) by set_solver.
      destruct (obj_get p n) as [v|]; [|done]. destruct (truthy v); [|done]. by rewrite obj_get_delete_ne.
Qed.

(** The payload forwarded to the customs server carries no password
    and no payment token, and everything else unchanged. *)
Theorem sanitize_exact {V} (truthy : V -> bool) (p : jsobj V) :
  exists p', sanitizePayload truthy (Some p) = Some p' /\
    (forall k v, k ∈ fieldsToOmit -> obj_get p' k = Some v -> truthy v = false) /\
    (forall k, k ∉ fieldsToOmit -> obj_get p' k = obj_get p k).
Proof.
  eexists. split; [done|]. split; intros k; [intros v|]; intros Hk; rewrite obj_get_fold_omit.
  - rewrite bool_decide_true by done. destruct (obj_get p k) as [w|]; [|done]. simpl.
    destruct (truthy w) eqn:T; [done|]. by intros [= <-].
  - rewrite bool_decide_false by done. by destruct (obj_get p k).
Qed.

Lemma handle_pass now r req :
  (handleCustomsResult now r req).2 = Pass <-> r.(block) = false.
Proof.
  unfold handleCustomsResult. destruct (block r); [|done]. simpl. by destruct (_ =? 0).
Qed.

(** The customs server answers every full request. *)
Lemma check_replies {M} `{Memcached M StoredObject} env q ip email action (s : State (M := M)) :
  full_request q ip email action -> exists r, (Server.check env q s).2 = Checked r.
Proof.
  intros Hq. rewrite (check_full env q ip email action) by done.
  destruct (full_request_truthy _ _ _ _ Hq) as [Hip He]. rewrite run_check_eq by done.
  destruct (checked env s action ip email _ _) as [m1 [r|]]; [|by eexists].
  destruct (ruled env m1 action ip email r) as [m2 [r'|]]; by eexists.
Qed.

Lemma request_full email action ip ua p :
  str_truthy email = true -> str_truthy action = true -> str_truthy ip = true ->
  full_request (mkCheck (Some email) (Some ip) (Some action) ua p) ip (Text.normalizedEmail email) action.
Proof.
  intros He Ha Hi. unfold full_request, truthy_str, when_truthy. simpl. rewrite He, Ha, Hi. eauto.
Qed.

(** A request of the auth server goes through only if the customs
    server lets it: the client throws exactly when the reply blocks, with a
    retry time exactly when the reply has one, and marks the request
    suspicious exactly when the reply says so. *)
Theorem client_check_exact {M} `{Memcached M StoredObject} env email action req (s : State (M := M)) :
  str_truthy email = true -> str_truthy action = true -> str_truthy req.(clientAddress) = true ->
  let '(_, (req', v)) := client_check env email action req s in
  exists r, (Server.check env (mkCheck (Some email) (Some req.(clientAddress)) (Some action)
      req.(userAgent) req.(payload)) s).2 = Checked r /\
    (v = Pass <-> r.(r_block) = false) /\
    (r.(r_block) = true -> v = if r.(r_retryAfter) =? 0 then RequestBlocked (otrue r.(r_unblock))
       else TooManyRequests r.(r_retryAfter) (env.(now) + r.(r_retryAfter) * 1000) (otrue r.(r_unblock))) /\
    req'.(isSuspiciousRequest) = req.(isSuspiciousRequest) || otrue r.(r_suspect).
Proof.
  intros He Ha Hi. unfold client_check.
  destruct (check_replies env _ _ _ _ s (request_full email action req.(clientAddress) req.(userAgent) req.(payload) He Ha Hi))
    as [r Hr].
  destruct (Server.check env _ s) as [s' reply]. simpl in Hr. subst reply.
  unfold handle_reply, of_reply, handleCustomsResult. cbn [block retryAfter unblock suspect].
  unfold otrue, or0, num_or.
  destruct (r_block r) eqn:Eb, (default false (r_suspect r)) eqn:Es; simpl; exists r; rewrite Eb, Es;
    rewrite ?orb_true_r, ?orb_false_r; destruct (r_retryAfter r =? 0) eqn:Ew; rewrite ?Ew; done.
Qed.

(** The two servers disagree on units for authenticated checks: the
    customs server answers /checkAuthenticated in milliseconds, the client
    takes the answer as seconds.  A user whose ban ends [w] milliseconds from
    now is told to come back [w] seconds from now. *)
Theorem authenticated_retry_units limits t action r r' w req :
  UidRecord.addCount limits t action r = Some (r', Some w) -> 0 < w ->
  (exists ts, UidRecord.rateLimitedTimestamp r' = Some ts /\ ts + uidRateLimitBanDurationMs limits = t + w) /\
  (handle_reply t (Authenticated true (Some w)) req).2 = TooManyRequests w (t + w * 1000) false.
Proof.
  intros Ha Hw. split.
  - unfold UidRecord.addCount in Ha. destruct (UidRecord.trimCounts limits t action r) as [r1|]; [|done].
    cbn [mbind option_bind] in Ha. injection Ha as Ha. unfold UidRecord.getPossibleRetryDelay in Ha.
    destruct (_ <? _) in Ha; [injection Ha as _ <-; lia|]. injection Ha as <- Hr.
    unfold UidRecord.getRetryAfter in Hr. destruct (UidRecord.rateLimitedTimestamp _) as [ts|] in Hr |- *; [|done].
    exists ts. split; [done|]. simpl in Hr. injection Hr as <-. lia.
  - unfold handle_reply. simpl. unfold or0, num_or. destruct (Z.eqb_spec w 0); [lia|].
    by rewrite (proj2 (Z.eqb_neq w 0)).
Qed.

(** ** Witnesses *)
Definition sample_request : Request := mkRequest "6.6.6.6" None no_payload false [].

Lemma client_check_exact_witness :
  let '(_, (req', v)) := client_check (sample_env 2000) "a@x.org" "accountLogin" sample_request empty in
  exists r, (Server.check (sample_env 2000) (mkCheck (Some "a@x.org"%string) (Some "6.6.6.6"%string)
      (Some "accountLogin"%string) None no_payload) empty).2 = Checked r /\
    (v = Pass <-> r.(r_block) = false) /\
    (r.(r_block) = true -> v = if r.(r_retryAfter) =? 0 then RequestBlocked (otrue r.(r_unblock))
       else TooManyRequests r.(r_retryAfter) (2000 + r.(r_retryAfter) * 1000) (otrue r.(r_unblock))) /\
    req'.(isSuspiciousRequest) = false || otrue r.(r_suspect).
Proof.
  exact (client_check_exact (sample_env 2000) "a@x.org" "accountLogin" sample_request empty eq_refl eq_refl eq_refl).
Defined.

Lemma authenticated_retry_units_witness :
  (exists ts, Some 3000 = Some ts /\ ts + 900000 = 3000 + 900000) /\
  (handle_reply 3000 (Authenticated true (Some 900000)) sample_request).2 =
  TooManyRequests 900000 (3000 + 900000 * 1000) false.
Proof.
  apply (authenticated_retry_units UidRecord.small_limits 3000 "signCert"
    (UidRecord.mk [("signCert"%string, [Window.Num 1000; Window.Num 2000])] None)
    (UidRecord.mk [("signCert"%string, [Window.Num 1000; Window.Num 2000; Window.Num 3000])] (Some 3000)));
    [reflexivity|lia].
Defined.
