(* ===== verification/AuthChecks.v ===== *)
(** * Checks of the auth server: bounces and authentication methods
    (packages/fxa-auth-server/lib/bounces.js and lib/authMethods.js) *)

From S2P Require Import Prelude.

(** ** lib/bounces.js

    Before an e-mail is sent, the address's recorded bounces (newest first)
    are held against tiers: the [n]th bounce of a kind forbids sending while
    it is younger than tier [n]. *)
Module Bounces.

Record Bounce := mkBounce { bounceType : Z; createdAt : Z }.

Definition BOUNCE_TYPE_HARD : Z := 1.
Definition BOUNCE_TYPE_SOFT : Z := 2.
Definition BOUNCE_TYPE_COMPLAINT : Z := 3.

(** Tiers of one kind, by the number of bounces already seen. *)
Definition RuleSet := list (Z * Z).

Record Config := mkConfig {
  enabled : bool; hard : RuleSet; soft : RuleSet; complaint : RuleSet; ignoreTemplates : list string }.

Inductive Error := EmailBouncedHard (at_ : Z) | EmailBouncedSoft (at_ : Z) | EmailComplaint (at_ : Z).

Record Tally := mkTally { count : Z; latest : Z }.

(** [tallies], by bounce type. *)
Definition Tallies := Z -> Tally.

Section Rules.
Context (config : Config) (now : Z).

Definition BOUNCE_RULES (type : Z) : option RuleSet :=
  if type =? BOUNCE_TYPE_HARD then Some config.(hard)
  else if type =? BOUNCE_TYPE_SOFT then Some config.(soft)
  else if type =? BOUNCE_TYPE_COMPLAINT then Some config.(complaint) else None.

Definition ERRORS (type at_ : Z) : Error :=
  if type =? BOUNCE_TYPE_HARD then EmailBouncedHard at_
  else if type =? BOUNCE_TYPE_SOFT then EmailBouncedSoft at_ else EmailComplaint at_.

Fixpoint tier (rules : RuleSet) (n : Z) : Z :=
  match rules with
  | [] => 0
  | (k, t) :: rules' => if k =? n then t else tier rules' n
  end.

(** [tier && bounce.createdAt > now - tier] *)
Definition too_young (rules : RuleSet) (n : Z) (b : Bounce) : bool :=
  negb (tier rules n =? 0) && (b.(createdAt) >? now - tier rules n).

(** The [forEach]; [Some e]: it throws. *)
Fixpoint applyRules (tallies : Tallies) (bounces : list Bounce) : option Error :=
  match bounces with
  | [] => None
  | b :: bounces' =>
      match BOUNCE_RULES b.(bounceType) with
      | None => applyRules tallies bounces'
      | Some ruleSet =>
          let tally := tallies b.(bounceType) in
          let lt := if tally.(latest) =? 0 then b.(createdAt) else tally.(latest) in
          if too_young ruleSet tally.(count) b then Some (ERRORS b.(bounceType) lt)
          else applyRules (fun t => if t =? b.(bounceType) then mkTally (tally.(count) + 1) lt else tallies t) bounces'
      end
  end.

Definition no_tallies : Tallies := fun _ => mkTally 0 0.

(** [check(email, template)], given the bounces the database returns. *)
Definition check (bounces : list Bounce) (template : string) : option Error :=
  if config.(enabled) then
    if bool_decide (template ∈ config.(ignoreTemplates)) then None else applyRules no_tallies bounces
  else None.

(** The bounce has so many newer ones of its kind that it is too young. *)
Definition violates (newer : list Bounce) (b : Bounce) : Prop :=
  exists rules, BOUNCE_RULES b.(bounceType) = Some rules /\
    too_young rules (countb (fun x => x.(bounceType) =? b.(bounceType)) newer) b = true.

Lemma exists_split_cons {A} (P : list A -> A -> Prop) y l :
  (exists pre x post, y :: l = pre ++ x :: post /\ P pre x) <->
  P [] y \/ exists pre x post, l = pre ++ x :: post /\ P (y :: pre) x.
Proof.
  split.
  - intros ([|z pre] & x & post & [= -> ->] & HP); [by left|]. right. eauto 10.
  - intros [HP|(pre & x & post & -> & HP)]; [by exists [], y, l|]. by exists (y :: pre), x, post.
Qed.

Lemma count_snoc newer b t :
  countb (fun x => x.(bounceType) =? t) (newer ++ [b]) =
  countb (fun x => x.(bounceType) =? t) newer + if b.(bounceType) =? t then 1 else 0.
Proof.
  unfold countb. rewrite filterb_app, length_app. cbn [filterb]. destruct (_ =? t); simpl; lia.
Qed.

(** The tallies of the kinds that have rules count the bounces seen. *)
Definition tallied (tallies : Tallies) (newer : list Bounce) : Prop :=
  forall t rules, BOUNCE_RULES t = Some rules ->
    (tallies t).(count) = countb (fun x => x.(bounceType) =? t) newer.

Lemma applyRules_spec newer tallies bounces :
  tallied tallies newer ->
  is_Some (applyRules tallies bounces) <->
  exists pre b post, bounces = pre ++ b :: post /\ violates (newer ++ pre) b.
Proof.
  revert newer tallies. induction bounces as [|b bounces IH]; intros newer tallies Ht; cbn [applyRules].
  - split; [by intros [? ?]|]. by intros ([] & ? & ? & ? & _).
  - rewrite (exists_split_cons (fun pre x => violates (newer ++ pre) x)), app_nil_r.
    assert (forall pre, newer ++ b :: pre = (newer ++ [b]) ++ pre) as Happ by (intros; by rewrite <- app_assoc).
    setoid_rewrite Happ.
    destruct (BOUNCE_RULES (bounceType b)) as [rules|] eqn:Er.
    + assert (violates newer b <-> too_young rules (count (tallies (bounceType b))) b = true) as Hv.
      { unfold violates. rewrite Er, (Ht _ rules Er). split; [by intros (? & [= <-] & ?)|eauto]. }
      rewrite Hv. destruct (too_young rules _ b); [split; eauto|].
      rewrite (IH (newer ++ [b])); [naive_solver|].
      intros t rs Hr. rewrite count_snoc. destruct (Z.eqb_spec t (bounceType b)) as [->|Hne]; simpl.
      * rewrite Z.eqb_refl, (Ht _ rs Hr). lia.
      * rewrite (proj2 (Z.eqb_neq _ _) (not_eq_sym Hne)), (Ht _ rs Hr). lia.
    + rewrite (IH (newer ++ [b])).
      * split; [by right|]. intros [(rs & Hr & _)|?]; [congruence|done].
      * intros t rs Hr. rewrite count_snoc, (Ht _ rs Hr). destruct (Z.eqb_spec (bounceType b) t) as [<-|]; [congruence|lia].
Qed.

End Rules.

(** The bounce check refuses to send exactly when some recorded bounce,
    being the [n]th newest of its kind, is younger than the tier configured
    for [n], for an enabled check and a template that is not exempt. *)
Theorem bounces_exact config now bounces template :
  is_Some (check config now bounces template) <->
  config.(enabled) = true /\ (template ∉ config.(ignoreTemplates)) /\
  exists newer b older, bounces = newer ++ b :: older /\ violates config now newer b.
Proof.
  unfold check. destruct (enabled config); [|split; [by intros [? ?]|naive_solver]].
  case_bool_decide as Hi; [split; [by intros [? ?]|naive_solver]|].
  rewrite (applyRules_spec config now []); [naive_solver|]. by intros t rules _.
Qed.

End Bounces.

(** ** lib/authMethods.js *)
Module AuthMethods.

(** A row of METHOD_TO_AMR and of AMR_TO_TYPE; the tables are object
    literals, read with a property access. *)
Definition METHOD_TO_AMR : jsobj string :=
  [("email", "email"); ("email-captcha", "email"); ("email-2fa", "email");
   ("totp-2fa", "otp"); ("recovery-code", "otp")]%string.

Definition AMR_TO_TYPE : jsobj string := [("pwd", "know"); ("email", "know"); ("otp", "have")]%string.

(** The reply of [db.totpToken]. *)
Inductive TotpReply := Found (verified enabled : bool) | NotFound | DbError.

#[global] Instance totp_reply_eq_dec : EqDecision TotpReply.
Proof. solve_decision. Defined.

Definition availableAuthenticationMethods (totp : TotpReply) : option (list string) :=
  match totp with
  | DbError => None
  | Found true true => Some ["pwd"; "email"; "otp"]%string
  | _ => Some ["pwd"; "email"]%string
  end.

(** [None]: an unknown method throws (inherited property names, which the
    table lookup would find, are left out). *)
Definition verificationMethodToAMR (method : string) : option string := obj_get METHOD_TO_AMR method.

(** The type of an amr value; unknown values share the type [undefined]. *)
Definition amr_type (amr : string) : option string := obj_get AMR_TO_TYPE amr.

Fixpoint add_types (types : list (option string)) (amrs : list string) : list (option string) :=
  match amrs with
  | [] => types
  | a :: amrs' =>
      add_types (if bool_decide (amr_type a ∈ types) then types else types ++ [amr_type a]) amrs'
  end.

Definition maximumAssuranceLevel (amrValues : list string) : Z := Z.of_nat (length (add_types [] amrValues)).

(** Every verification method maps to an amr value of a known type. *)
Lemma method_known m a : verificationMethodToAMR m = Some a -> is_Some (amr_type a).
Proof.
  unfold verificationMethodToAMR, METHOD_TO_AMR. cbn [obj_get].
  destr_ifs; try done; intros [= <-]; vm_compute; eauto.
Qed.

(** An account can reach assurance level 2 exactly when it has a
    verified and enabled TOTP token; a session that used a password and one
    verification method reaches level 2 exactly when that method is an OTP. *)
Theorem assurance_levels totp amrs method amr :
  availableAuthenticationMethods totp = Some amrs -> verificationMethodToAMR method = Some amr ->
  maximumAssuranceLevel amrs = (if bool_decide (totp = Found true true) then 2 else 1) /\
  maximumAssuranceLevel ["pwd"%string; amr] = (if String.eqb amr "otp" then 2 else 1).
Proof.
  intros Ht Hm. split.
  - destruct totp as [[] []| |]; simpl in Ht; try done; injection Ht as <-; reflexivity.
  - unfold verificationMethodToAMR, METHOD_TO_AMR in Hm. cbn [obj_get] in Hm.
    revert Hm. destr_ifs; try done; by intros [= <-].
Qed.

End AuthMethods.

(** ** Witnesses *)
Lemma assurance_levels_witness :
  AuthMethods.maximumAssuranceLevel ["pwd"; "email"; "otp"]%string =
    (if bool_decide (AuthMethods.Found true true = AuthMethods.Found true true) then 2 else 1) /\
  AuthMethods.maximumAssuranceLevel ["pwd"; "email"]%string = (if String.eqb "email" "otp" then 2 else 1).
Proof. apply (AuthMethods.assurance_levels (AuthMethods.Found true true) _ "email-captcha"); reflexivity. Defined.
