(* ===== verification/Redis.v ===== *)
(** * Redis, as the auth server's reminders use it (packages/fxa-auth-server/lib/redis.js)

    The commands on sorted sets and on plain keys, with their documented
    effect, as an interface; the clients of the interface never look inside a
    store. *)

From S2P Require Import Prelude.

(** A command returns the store afterwards and its reply, [None] when the
    promise is rejected.  Plain keys hold the JSON arrays the reminders write;
    scores are timestamps.  [multi_pop] is the transaction
    [MULTI; ZRANGEBYSCORE key min max WITHSCORES; ZREMRANGEBYSCORE key min max; EXEC]. *)
Class Redis (R : Type) := {
  zadd : R -> string -> list (Z * string) -> R * option Z;
  zrem : R -> string -> string -> R * option Z;
  multi_pop : R -> string -> Z -> Z -> R * option (list (string * Z) * Z);
  zrank : R -> string -> string -> option (option Z);
  get : R -> string -> option (option (list string));
  set : R -> string -> list string -> R * bool;
  del : R -> string -> R * bool;
  (** What a sorted set and a plain key hold. *)
  scores : R -> string -> gmap string Z;
  value : R -> string -> option (list string) }.

Definition in_range (min max : Z) (e : string * Z) : bool := (min <=? e.2) && (e.2 <=? max).

Definition with_scores (l : list (Z * string)) (z : gmap string Z) : gmap string Z :=
  fold_left (fun z e => <[e.2 := e.1]> z) l z.

Class RedisLaws (R : Type) `{Redis R} : Prop := {
  zadd_ok r k l r' n : zadd r k l = (r', Some n) ->
    (forall k', scores r' k' = if String.eqb k' k then with_scores l (scores r k) else scores r k') /\
    (forall k', k' <> k -> value r' k' = value r k');
  zrem_ok r k u r' n : zrem r k u = (r', Some n) ->
    (forall k', scores r' k' = if String.eqb k' k then delete u (scores r k) else scores r k') /\
    (forall k', k' <> k -> value r' k' = value r k');
  multi_pop_ok r k min max r' l n : multi_pop r k min max = (r', Some (l, n)) ->
    l ≡ₚ filterb (in_range min max) (map_to_list (scores r k)) /\
    StronglySorted (fun a b => a.2 <= b.2) l /\
    (forall k', scores r' k' =
       if String.eqb k' k then filter (fun e => in_range min max e = false) (scores r k) else scores r k') /\
    (forall k', k' <> k -> value r' k' = value r k');
  get_ok r k v : get r k = Some v -> value r k = v;
  set_ok r k v r' : set r k v = (r', true) ->
    value r' k = Some v /\ forall k', k' <> k -> value r' k' = value r k' /\ scores r' k' = scores r k';
  del_ok r k r' : del r k = (r', true) ->
    value r' k = None /\ forall k', k' <> k -> value r' k' = value r k' /\ scores r' k' = scores r k' }.

(** [FxaRedis.zpoprangebyscore]: the reply of the first command. *)
Definition zpoprangebyscore {R} `{Redis R} (r : R) (key : string) (min max : Z) : R * option (list (string * Z)) :=
  let '(r', results) := multi_pop r key min max in (r', fst <$> results).

(** ** A server on which no command fails *)

Record Server := mkServer { zsets : gmap string (gmap string Z); plain : gmap string (list string) }.

Definition zset_of (s : Server) (k : string) : gmap string Z := default ∅ (s.(zsets) !! k).

(** Insertion sort by score. *)
Fixpoint insert_by_score (e : string * Z) (l : list (string * Z)) : list (string * Z) :=
  match l with
  | [] => [e]
  | x :: l' => if e.2 <=? x.2 then e :: l else x :: insert_by_score e l'
  end.

Definition sort_by_score : list (string * Z) -> list (string * Z) := foldr insert_by_score [].

#[export] Instance server_redis : Redis Server := {
  zadd s k l :=
    match l with
    | [] => (s, None)   (* wrong number of arguments *)
    | _ => let z := with_scores l (zset_of s k) in
           (mkServer (<[k := z]> s.(zsets)) s.(plain), Some (Z.of_nat (size z) - Z.of_nat (size (zset_of s k))))
    end;
  zrem s k u :=
    (mkServer (<[k := delete u (zset_of s k)]> s.(zsets)) s.(plain),
     Some (if bool_decide (is_Some (zset_of s k !! u)) then 1 else 0));
  multi_pop s k min max :=
    let l := filterb (in_range min max) (map_to_list (zset_of s k)) in
    (mkServer (<[k := filter (fun e => in_range min max e = false) (zset_of s k)]> s.(zsets)) s.(plain),
     Some (sort_by_score l, Z.of_nat (length l)));
  zrank s k u :=
    Some ((fun e => Z.of_nat e.1) <$> list_find (fun e => e.1 = u) (sort_by_score (map_to_list (zset_of s k))));
  get s k := Some (s.(plain) !! k);
  set s k v := (mkServer s.(zsets) (<[k := v]> s.(plain)), true);
  del s k := (mkServer s.(zsets) (delete k s.(plain)), true);
  scores := zset_of;
  value s k := s.(plain) !! k }.

Lemma insert_by_score_perm e l : insert_by_score e l ≡ₚ e :: l.
Proof. induction l as [|x l IH]; simpl; [done|]. destr_if; [done|]. rewrite IH. by constructor. Qed.

Lemma sort_by_score_perm l : sort_by_score l ≡ₚ l.
Proof. induction l as [|x l IH]; simpl; [done|]. rewrite insert_by_score_perm. by constructor. Qed.

Lemma insert_by_score_sorted e l :
  StronglySorted (fun a b : string * Z => a.2 <= b.2) l ->
  StronglySorted (fun a b => a.2 <= b.2) (insert_by_score e l).
Proof.
  induction 1 as [|x l Hs IH Hf]; simpl; [repeat constructor|].
  destruct (Z.leb_spec e.2 x.2).
  - constructor; [by constructor|]. constructor; [done|]. eapply Forall_impl; [done|]. simpl. lia.
  - constructor; [done|]. rewrite insert_by_score_perm. constructor; [lia|done].
Qed.

Lemma sort_by_score_sorted l : StronglySorted (fun a b => a.2 <= b.2) (sort_by_score l).
Proof. induction l as [|x l IH]; simpl; [constructor|by apply insert_by_score_sorted]. Qed.

Lemma zset_of_insert s k z k' :
  zset_of (mkServer (<[k := z]> s.(zsets)) s.(plain)) k' = if String.eqb k' k then z else zset_of s k'.
Proof.
  unfold zset_of; simpl. destruct (String.eqb_spec k' k) as [->|].
  - by rewrite lookup_insert_eq.
  - by rewrite lookup_insert_ne.
Qed.

#[export] Instance server_redis_laws : RedisLaws Server.
Proof.
  constructor; simpl.
  - intros r k [|e l] r' n; [done|]. intros [= <- _]. split; [intros; by rewrite zset_of_insert|done].
  - intros r k u r' n [= <- _]. split; [intros; by rewrite zset_of_insert|done].
  - intros r k min max r' l n [= <- <- _].
    split_and!; [by rewrite sort_by_score_perm|apply sort_by_score_sorted|intros; by rewrite zset_of_insert|done].
  - by intros r k v [= ->].
  - intros r k v r' [= <-]; simpl. rewrite lookup_insert_eq. split; [done|].
    intros k' ?. by rewrite lookup_insert_ne.
  - intros r k r' [= <-]; simpl. rewrite lookup_delete_eq. split; [done|].
    intros k' ?. by rewrite lookup_delete_ne.
Qed.
