(* ===== verification/Reminders.v ===== *)
(** * Reminder e-mails (packages/fxa-auth-server/lib/verification-reminders.js,
      subscription-account-reminders.js, cad-reminders.js)

    Each kind of reminder is a sorted set of user ids scored by creation time.
    A cron job pops the reminders that are due, sends them and reinstates
    those that could not be sent.  The first two modules also keep metadata of
    each user under a plain key; they differ only in the name of that key and
    in the number of fields, so they are instances of one definition.  Reading
    and removing metadata is interleaved among the sorted sets, hence the
    schedule that [process] takes. *)

From Stdlib Require Import QArith.
From S2P Require Import Prelude Redis.
#[local] Open Scope Z_scope.

(** ** Configuration: [Object.entries(config...Reminders)] *)

Definition is_lower (a : Ascii.ascii) : bool :=
  let n := Ascii.nat_of_ascii a in Nat.leb 97 n && Nat.leb n 122.

Fixpoint lower_prefix (s : string) : string * string :=
  match s with
  | String a s' => if is_lower a then let '(p, rest) := lower_prefix s' in (String a p, rest) else (EmptyString, s)
  | EmptyString => (EmptyString, EmptyString)
  end.

(** [/^([a-z]+)Interval$/]: no lower-case letter starts [Interval], so the
    longest prefix of such letters is the only possible group. *)
Definition INTERVAL_PATTERN (key : string) : option string :=
  let '(p, rest) := lower_prefix key in
  if str_truthy p && String.eqb rest "Interval" then Some p else None.

(** [keys] and [intervals], in the order of the entries; [None] when a key is
    the forbidden one.  Entries that are not intervals are not looked at. *)
Fixpoint parseIntervals (METADATA_KEY : string) (entries : list (string * Z)) : option (jsobj Z) :=
  match entries with
  | [] => Some []
  | (key, ms) :: entries' =>
      match INTERVAL_PATTERN key with
      | Some k => if String.eqb k METADATA_KEY then None
                  else rest ← parseIntervals METADATA_KEY entries'; Some ((k, ms) :: rest)
      | None => parseIntervals METADATA_KEY entries'
      end
  end.

Record Reminder := mkReminder { uid : string; timestamp : Z; fields : list (option string) }.

Section Reminders.
Context {R : Type} `{Redis R}.
Context (METADATA_KEY : string) (nfields : nat) (intervals : jsobj Z) (rolloutRate : Q).

Definition keys : list string := intervals.*1.

(** [`${METADATA_KEY}:${uid}`] *)
Definition metadata_key (u : string) : string := (METADATA_KEY ++ ":" ++ u)%string.

(** [props(keys.reduce(...))]: every command is sent; the promise is rejected
    when one of them is. *)
Fixpoint each {K A} (op : R -> K -> R * option A) (ks : list K) (r : R) : R * list (K * option A) :=
  match ks with
  | [] => (r, [])
  | k :: ks' => let '(r, a) := op r k in let '(r, l) := each op ks' r in (r, (k, a) :: l)
  end.

Fixpoint all_ok {K A} (l : list (K * option A)) : option (list (K * A)) :=
  match l with
  | [] => Some []
  | (k, Some a) :: l' => rest ← all_ok l'; Some ((k, a) :: rest)
  | (_, None) :: _ => None
  end.

(** [flowId && flowBeginTime && ...]: the values when all are truthy. *)
Definition complete (fs : list (option string)) : option (list string) :=
  if forallb ostr_truthy fs then Some (omap id fs) else None.

Definition rolled_out (random : Q) : bool := Qle_bool rolloutRate 1 && negb (Qle_bool rolloutRate random).

(** [create]: the inner [None] is [undefined], for users left out of the
    rollout; the outer one is a thrown error. *)
Definition create (random : Q) (u : string) (fs : list (option string)) (now : Z) (r : R)
    : R * option (option (list (string * Z))) :=
  if rolled_out random then
    let '(r, results) := each (fun r key => zadd r key [(now, u)]) keys r in
    match all_ok results, complete fs with
    | None, _ => (r, None)
    | Some result, None => (r, Some (Some result))
    | Some result, Some vs =>
        let '(r, ok) := set r (metadata_key u) vs in (r, if ok then Some (Some result) else None)
    end
  else (r, Some None).

Definition delete_ (u : string) (r : R) : R * option (list (string * Z)) :=
  let '(r, results) := each (fun r key => zrem r key u) keys r in
  match all_ok results with
  | None => (r, None)
  | Some result => let '(r, ok) := del r (metadata_key u) in (r, if ok then Some result else None)
  end.

(** ** [process] *)

(** [const [flowId, ...] = JSON.parse(metadata)], [undefined] when there is no
    metadata. *)
Definition destructure (metadata : option (list string)) : list (option string) :=
  match metadata with
  | Some l => (fun i => l !! i) <$> seq 0 nfields
  | None => replicate nfields None
  end.

(** The continuation of one sorted set: the popped items still to be looked
    at, the deletion it is about to send, and what it has produced. *)
Record Chain := mkChain {
  c_key : string;
  c_last : bool;                     (* [keyIndex === keys.length - 1] *)
  c_todo : list (string * Z);
  c_del : option string;
  c_done : list Reminder;
  c_failed : bool }.

(** One redis command of a chain. *)
Definition chain_step (r : R) (c : Chain) : R * Chain :=
  if c.(c_failed) then (r, c)
  else match c.(c_del) with
  | Some u =>
      let '(r, ok) := del r (metadata_key u) in
      (r, mkChain c.(c_key) c.(c_last) c.(c_todo) None c.(c_done) (negb ok))
  | None =>
      match c.(c_todo) with
      | [] => (r, c)
      | (u, ts) :: todo =>
          match get r (metadata_key u) with
          | None => (r, mkChain c.(c_key) c.(c_last) todo None c.(c_done) true)
          | Some metadata =>
              let pending := if c.(c_last) then metadata ≫= fun _ => Some u else None in
              (r, mkChain c.(c_key) c.(c_last) todo pending
                    (c.(c_done) ++ [mkReminder u ts (destructure metadata)]) false)
          end
      end
  end.

Definition step_at (st : R * list Chain) (i : nat) : R * list Chain :=
  match st.2 !! i with
  | Some c => let '(r, c') := chain_step st.1 c in (r, <[i := c']> st.2)
  | None => st
  end.

(** Commands a chain still has to send, at most. *)
Definition work (c : Chain) : nat := (2 * length c.(c_todo) + length (option_list c.(c_del)))%nat.

(** An interleaving, then every chain to its end. *)
Definition drain (cs : list Chain) : list nat :=
  concat ((fun i => replicate (from_option work 0%nat (cs !! i)) i) <$> seq 0 (length cs)).

Definition run_chains (sched : list nat) (r : R) (cs : list Chain) : R * list Chain :=
  fold_left step_at (sched ++ drain cs) (r, cs).

Fixpoint chains (popped : list (string * option (list (string * Z)))) : list Chain :=
  match popped with
  | [] => []
  | (key, items) :: popped' =>
      mkChain key (match popped' with [] => true | _ => false end) (default [] items) None []
        (match items with Some _ => false | None => true end)
      :: chains popped'
  end.

Definition result_of (c : Chain) : string * option (list Reminder) :=
  (c.(c_key), if c.(c_failed) then None else Some c.(c_done)).

Definition pop_all (now : Z) (r : R) : R * list (string * option (list (string * Z))) :=
  let '(r, l) := each (fun r k => zpoprangebyscore r k.1 0 (now - k.2)) intervals r in
  (r, (fun e => (e.1.1, e.2)) <$> l).

Definition process (sched : list nat) (now : Z) (r : R) : R * option (list (string * list Reminder)) :=
  let '(r, popped) := pop_all now r in
  let '(r, cs) := run_chains sched r (chains popped) in
  (r, all_ok (result_of <$> cs)).

(** ** [reinstate] *)

(** [reminders.filter(...)] of those with complete metadata. *)
Definition to_restore (reminders : list Reminder) : list (string * list string) :=
  omap (fun x => vs ← complete x.(fields); Some (x.(uid), vs)) reminders.

Definition reinstate (key : string) (reminders : list Reminder) (r : R) : R * option Z :=
  let '(r, result) := zadd r key ((fun x => (x.(timestamp), x.(uid))) <$> reminders) in
  match result with
  | None => (r, None)
  | Some n =>
      let '(r, l) := each (fun r e => let '(r, ok) := set r (metadata_key e.1) e.2 in
                                      (r, if ok then Some tt else None)) (to_restore reminders) r in
      (r, all_ok l ≫= fun _ => Some n)
  end.

End Reminders.

(** ** The two modules with metadata *)

Module Verification.
Definition METADATA_KEY : string := "metadata".
Definition create {R} `{Redis R} := create METADATA_KEY.
Definition delete_ {R} `{Redis R} := delete_ METADATA_KEY.
Definition process {R} `{Redis R} := process METADATA_KEY 2.   (* flowId, flowBeginTime *)
Definition reinstate {R} `{Redis R} := reinstate METADATA_KEY.
End Verification.

Module SubscriptionAccount.
Definition METADATA_KEY_SUB_FLOW : string := "metadata_sub_flow".
Definition create {R} `{Redis R} := create METADATA_KEY_SUB_FLOW.
Definition delete_ {R} `{Redis R} := delete_ METADATA_KEY_SUB_FLOW.
(* flowId, flowBeginTime, deviceId, productId, productName *)
Definition process {R} `{Redis R} := process METADATA_KEY_SUB_FLOW 5.
Definition reinstate {R} `{Redis R} := reinstate METADATA_KEY_SUB_FLOW.
End SubscriptionAccount.

(** ** Connect-another-device reminders: no metadata, no reinstatement *)

Module Cad.
Section Cad.
Context {R : Type} `{Redis R} (intervals : jsobj Z) (rolloutRate : Q).

Definition create (random : Q) (u : string) (now : Z) (r : R) : R * option (option (list (string * Z))) :=
  if rolled_out rolloutRate random then
    let '(r, results) := each (fun r key => zadd r key [(now, u)]) (keys intervals) r in
    (r, Some <$> all_ok results)
  else (r, Some None).

Definition delete_ (u : string) (r : R) : R * option (list (string * Z)) :=
  let '(r, results) := each (fun r key => zrem r key u) (keys intervals) r in (r, all_ok results).

Definition get (u : string) (r : R) : option (list (string * option Z)) :=
  all_ok ((fun key => (key, zrank r key u)) <$> keys intervals).

Definition process (now : Z) (r : R) : R * option (list (string * list (string * Z))) :=
  let '(r, popped) := pop_all intervals now r in (r, all_ok popped).

End Cad.
End Cad.

(** * Laws *)

Section Laws.
Context {R : Type} `{RedisLaws R}.
Context (METADATA_KEY : string) (nfields : nat) (intervals : jsobj Z) (rolloutRate : Q).

Abbreviation mkey := (metadata_key METADATA_KEY).
Abbreviation fields_of := (destructure nfields).

(** Sorted sets and metadata live under different keys. *)
Hypothesis keys_plain : forall u, mkey u ∉ keys intervals.
Hypothesis keys_nodup : NoDup (keys intervals).

Definition pair_of (x : Reminder) : string * Z := (x.(uid), x.(timestamp)).

(** The reminders of a sorted set that are due. *)
Definition due (now ms : Z) (z : gmap string Z) : list (string * Z) :=
  filterb (in_range 0 (now - ms)) (map_to_list z).

Definition not_due (now ms : Z) (z : gmap string Z) : gmap string Z :=
  filter (fun e => in_range 0 (now - ms) e = false) z.

Lemma string_app_inj_l s a b : (s ++ a)%string = (s ++ b)%string -> a = b.
Proof. induction s as [|c s IH]; simpl; [done|]. intros [= Heq]. by apply IH. Qed.

Lemma mkey_inj u u' : mkey u = mkey u' -> u = u'.
Proof. unfold metadata_key. intros Heq%string_app_inj_l. by injection Heq. Qed.

(** ** Popping the sorted sets *)

Definition popped_ok (now : Z) (r : R) (k : string * Z) (e : (string * Z) * option (list (string * Z))) : Prop :=
  e.1 = k /\ exists items, e.2 = Some items /\ items ≡ₚ due now k.2 (scores r k.1) /\
    StronglySorted (fun a b => a.2 <= b.2) items.

Lemma each_pop now iv : forall r r' l,
  NoDup iv.*1 ->
  each (fun r k => zpoprangebyscore r k.1 0 (now - k.2)) iv r = (r', l) ->
  Forall (fun e => is_Some e.2) l ->
  Forall2 (popped_ok now r) iv l /\
  (forall k ms, (k, ms) ∈ iv -> scores r' k = not_due now ms (scores r k)) /\
  (forall k, k ∉ iv.*1 -> scores r' k = scores r k /\ value r' k = value r k).
Proof.
  induction iv as [|[k ms] iv IH]; intros r r' l Hnd; simpl.
  - intros [= <- <-] _. split_and!; [constructor|by intros ? ? ?%elem_of_nil|done].
  - unfold zpoprangebyscore at 1. simpl.
    destruct (multi_pop r k 0 (now - ms)) as [r1 res] eqn:Hp.
    destruct (each _ iv r1) as [r2 l2] eqn:He. intros [= <- <-] [Hs Hall]%Forall_cons.
    destruct res as [[items n]|]; [|by destruct Hs]. simpl in *.
    destruct (multi_pop_ok _ _ _ _ _ _ _ Hp) as (Hperm & Hsort & Hsc & Hv).
    apply NoDup_cons in Hnd as [Hk Hnd].
    destruct (IH _ _ _ Hnd He Hall) as (Hf & Hin & Hout).
    assert (forall k', k' ∈ iv.*1 -> scores r1 k' = scores r k') as Hother.
    { intros k' ?. rewrite Hsc. destruct (String.eqb_spec k' k); [by subst|done]. }
    split_and!.
    + constructor; [split; [done|]; by exists items|].
      eapply Forall2_impl_in; [exact Hf|].
      intros [k' ms'] e Hk' [He1 Hrest]. split; [done|]. simpl in *.
      rewrite <- Hother; [done|]. by apply (list_elem_of_fmap_2 fst _ (k', ms')).
    + intros k' ms' [[= -> ->]|Hi]%elem_of_cons.
      * destruct (Hout k Hk) as [-> _]. by rewrite Hsc, String.eqb_refl.
      * rewrite (Hin _ _ Hi), Hother; [done|]. by apply (list_elem_of_fmap_2 fst _ (k', ms')).
    + intros k' [Hne Hi]%not_elem_of_cons. destruct (Hout k' Hi) as [-> ->].
      rewrite Hsc, Hv by done. destruct (String.eqb_spec k' k); done.
Qed.

(** ** The chains *)

(** A chain in a run where nothing has failed.  [final] is what the last
    sorted set popped. *)
Record chain_ok (final : list (string * Z)) (r0 r : R) (L : list (string * Z)) (c : Chain) : Prop := {
  ck_ok : c.(c_failed) = false;
  ck_items : (pair_of <$> c.(c_done)) ++ c.(c_todo) = L;
  ck_last : c.(c_last) = true -> L = final;
  ck_fields : Forall (fun x => x.(fields) = fields_of (value r0 (mkey x.(uid))) \/
     c.(c_last) = false /\ x.(fields) = fields_of None /\ x.(uid) ∈ final.*1) c.(c_done);
  ck_del : forall u, c.(c_del) = Some u -> c.(c_last) = true /\ u ∈ uid <$> c.(c_done);
  ck_gone : c.(c_last) = true -> forall u, u ∈ uid <$> c.(c_done) ->
    value r (mkey u) = None \/ c.(c_del) = Some u }.

Record good (final : list (string * Z)) (r0 : R) (Ls : list (list (string * Z))) (st : R * list Chain) : Prop := {
  g_chains : Forall2 (chain_ok final r0 st.1) Ls st.2;
  g_values : forall u, value st.1 (mkey u) = value r0 (mkey u) \/
    value st.1 (mkey u) = None /\ exists j c, st.2 !! j = Some c /\ c.(c_last) = true /\ u ∈ uid <$> c.(c_done);
  g_last : forall j c, st.2 !! j = Some c -> c.(c_last) = true <-> S j = length st.2;
  g_scores : forall k, k ∈ keys intervals -> scores st.1 k = scores r0 k }.

Definition failed_somewhere (cs : list Chain) : Prop := exists c, c ∈ cs /\ c.(c_failed) = true.

Lemma chain_ok_mono final r0 r r' L c :
  (forall u, value r (mkey u) = None -> value r' (mkey u) = None) ->
  chain_ok final r0 r L c -> chain_ok final r0 r' L c.
Proof. intros Hm [? ? ? ? ? Hg]. split; [done..|]. intros Hl u Hu. destruct (Hg Hl u Hu); auto. Qed.

Lemma fmap_uid_app (l : list Reminder) x : uid <$> (l ++ [x]) = (uid <$> l) ++ [x.(uid)].
Proof. by rewrite fmap_app. Qed.

Lemma ck_todo_new final r0 r L c u ts todo :
  NoDup L.*1 -> chain_ok final r0 r L c -> c.(c_todo) = (u, ts) :: todo ->
  u ∈ L.*1 /\ u ∉ uid <$> c.(c_done).
Proof.
  intros Hnd Hc Ht. rewrite <- (ck_items _ _ _ _ _ Hc), Ht, fmap_app in *.
  assert (uid <$> c_done c = (pair_of <$> c_done c).*1) as Hu by by rewrite <- list_fmap_compose.
  rewrite Hu. apply NoDup_app in Hnd as (_ & Hd & _). split; [set_solver|].
  intros Hin. apply (Hd u Hin). simpl. by left.
Qed.

Lemma done_in final r0 r L c u : chain_ok final r0 r L c -> u ∈ uid <$> c.(c_done) -> u ∈ L.*1.
Proof.
  intros Hc Hu. rewrite <- (ck_items _ _ _ _ _ Hc), fmap_app, <- list_fmap_compose.
  apply elem_of_app. by left.
Qed.

(** The general step: chain [i] becomes [c'] and the store [r']. *)
Lemma good_update final r0 Ls r cs i c c' L r' :
  good final r0 Ls (r, cs) -> cs !! i = Some c -> Ls !! i = Some L ->
  (forall u, value r' (mkey u) = value r (mkey u) \/
     value r' (mkey u) = None /\ c.(c_last) = true /\ u ∈ uid <$> c.(c_done)) ->
  (forall k, k ∈ keys intervals -> scores r' k = scores r k) ->
  c'.(c_last) = c.(c_last) -> (forall u, u ∈ uid <$> c.(c_done) -> u ∈ uid <$> c'.(c_done)) ->
  chain_ok final r0 r' L c' -> good final r0 Ls (r', <[i := c']> cs).
Proof.
  intros [Hch Hv Hla Hs] Hi HL Hval Hsc Hl Hd Hok. simpl in *.
  pose proof (lookup_lt_Some _ _ _ Hi) as Hlen.
  split; simpl.
  - rewrite <- (list_insert_id Ls i L HL). apply Forall2_insert; [|done].
    eapply Forall2_impl; [exact Hch|]. intros L' x. apply chain_ok_mono.
    intros u Hu. destruct (Hval u) as [->|[-> _]]; done.
  - intros u. destruct (Hval u) as [->|(-> & Hlast & Hu)].
    + destruct (Hv u) as [?|(Hn & j & x & Hj & Hx & Hux)]; [by left|right]. split; [done|].
      destruct (decide (j = i)) as [->|Hne].
      * exists i, c'. rewrite list_lookup_insert_eq by done. simplify_eq. rewrite Hl. auto.
      * exists j, x. by rewrite list_lookup_insert_ne.
    + right. split; [done|]. exists i, c'. rewrite list_lookup_insert_eq by done. rewrite Hl. auto.
  - intros j x. rewrite length_insert. destruct (decide (j = i)) as [->|Hne].
    + rewrite list_lookup_insert_eq by done. intros [= <-]. rewrite Hl. by apply Hla.
    + rewrite list_lookup_insert_ne by done. apply Hla.
  - intros k Hk. rewrite Hsc by done. by apply Hs.
Qed.

Lemma read_fields final r0 Ls r cs i c L u ts todo :
  Forall (fun L => NoDup L.*1) Ls ->
  good final r0 Ls (r, cs) -> cs !! i = Some c -> Ls !! i = Some L -> c.(c_todo) = (u, ts) :: todo ->
  fields_of (value r (mkey u)) = fields_of (value r0 (mkey u)) \/
  c.(c_last) = false /\ fields_of (value r (mkey u)) = fields_of None /\ u ∈ final.*1.
Proof.
  intros Hnd Hg Hi HL Ht. pose proof (Forall_lookup_1 _ _ _ _ Hnd HL) as HndL.
  pose proof (g_values _ _ _ _ Hg u) as Hv. simpl in Hv.
  destruct Hv as [->|(Hn & j & x & Hj & Hx & Hu)]; [by left|].
  destruct (Forall2_lookup_r _ _ _ _ _ (g_chains _ _ _ _ Hg) Hj) as (L' & HL' & Hx').
  rewrite Hn. destruct (c_last c) eqn:Hlast.
  - assert (i = j) as <-.
    { apply (g_last _ _ _ _ Hg) in Hi as Hi', Hj as Hj'. apply Hi' in Hlast. apply Hj' in Hx. simpl in *. lia. }
    simplify_eq. destruct (ck_todo_new _ _ _ _ _ _ _ _ HndL Hx' Ht) as [_ []]; done.
  - right. split_and!; [done..|]. rewrite <- (ck_last _ _ _ _ _ Hx' Hx). by eapply done_in.
Qed.

Lemma failed_insert (cs : list Chain) i c :
  (i < length cs)%nat -> c.(c_failed) = true -> failed_somewhere (<[i := c]> cs).
Proof. intros Hi Hc. exists c. split; [|done]. by apply list_elem_of_insert. Qed.

Lemma chain_step_del final r0 Ls r cs i c L u :
  good final r0 Ls (r, cs) -> cs !! i = Some c -> Ls !! i = Some L -> c.(c_del) = Some u ->
  good final r0 Ls (step_at METADATA_KEY nfields (r, cs) i) \/
  failed_somewhere (step_at METADATA_KEY nfields (r, cs) i).2.
Proof.
  intros Hg Hi HL Hd. pose proof (Forall2_lookup_lr _ _ _ _ _ _ (g_chains _ _ _ _ Hg) HL Hi) as Hc.
  destruct Hc as [Hf Hit Hla Hfi Hde Hgo]. simpl in *.
  unfold step_at, chain_step; simpl. rewrite Hi, Hf, Hd.
  destruct (del r (mkey u)) as [r' ok] eqn:Hdel. simpl.
  pose proof (lookup_lt_Some _ _ _ Hi) as Hlen.
  destruct ok; [left|right; by apply failed_insert].
  destruct (del_ok _ _ _ Hdel) as [Hn Ho]. destruct (Hde u Hd) as [Hlast Hin].
  eapply good_update; [done..| | |done|done|].
  - intros u'. destruct (decide (u' = u)) as [->|Hne]; [by right|left].
    apply Ho. intros ?%mkey_inj. done.
  - intros k Hk. apply Ho. intros ->. by apply (keys_plain u).
  - split; [done|done|done|done|done|]. simpl. intros _ u' Hu'. left.
    destruct (decide (u' = u)) as [->|Hne]; [done|].
    destruct (Ho (mkey u')) as [-> _]; [by intros ?%mkey_inj|].
    destruct (Hgo Hlast u' Hu') as [?|Heq]; [done|]. congruence.
Qed.

Lemma chain_step_get final r0 Ls r cs i c L u ts todo :
  Forall (fun L => NoDup L.*1) Ls ->
  good final r0 Ls (r, cs) -> cs !! i = Some c -> Ls !! i = Some L ->
  c.(c_del) = None -> c.(c_todo) = (u, ts) :: todo ->
  good final r0 Ls (step_at METADATA_KEY nfields (r, cs) i) \/
  failed_somewhere (step_at METADATA_KEY nfields (r, cs) i).2.
Proof.
  intros Hnd Hg Hi HL Hd Ht.
  pose proof (read_fields _ _ _ _ _ _ _ _ _ _ _ Hnd Hg Hi HL Ht) as Hread.
  pose proof (Forall2_lookup_lr _ _ _ _ _ _ (g_chains _ _ _ _ Hg) HL Hi) as Hc.
  destruct Hc as [Hf Hit Hla Hfi Hde Hgo]. simpl in *.
  unfold step_at, chain_step; simpl. rewrite Hi, Hf, Hd, Ht.
  pose proof (lookup_lt_Some _ _ _ Hi) as Hlen.
  destruct (get r (mkey u)) as [md|] eqn:Hget; [left|right; by apply failed_insert].
  apply get_ok in Hget. subst md.
  eapply good_update; [done..|by left|done|done| |]; simpl.
  - intros u' ?. rewrite fmap_uid_app. apply elem_of_app. by left.
  - split; simpl; [done| |done| | |].
    + rewrite fmap_app, <- app_assoc. rewrite Ht in Hit. exact Hit.
    + apply Forall_app. split; [done|]. by apply Forall_singleton.
    + intros u'. destruct (c_last c); [|done]. destruct (value r (mkey u)); [|done].
      intros [= <-]. split; [done|]. rewrite fmap_uid_app. set_solver.
    + intros Hl u'. rewrite fmap_uid_app, elem_of_app, list_elem_of_singleton, Hl. simpl.
      intros [Hu'| ->].
      * destruct (Hgo Hl u' Hu') as [?|?]; [by left|congruence].
      * destruct (value r (mkey u)); [by right|by left].
Qed.

Lemma step_good final r0 Ls st i :
  Forall (fun L => NoDup L.*1) Ls -> good final r0 Ls st ->
  good final r0 Ls (step_at METADATA_KEY nfields st i) \/
  failed_somewhere (step_at METADATA_KEY nfields st i).2.
Proof.
  destruct st as [r cs]. intros Hnd Hg.
  destruct (cs !! i) as [c|] eqn:Hi; [|left; unfold step_at; simpl; by rewrite Hi].
  destruct (Forall2_lookup_r _ _ _ _ _ (g_chains _ _ _ _ Hg) Hi) as (L & HL & Hc).
  destruct (c_del c) as [u|] eqn:Hd; [by eapply chain_step_del|].
  destruct (c_todo c) as [|[u ts] todo] eqn:Ht; [|by eapply chain_step_get].
  left. unfold step_at, chain_step; simpl. rewrite Hi, Hd, Ht.
  destruct (c_failed c); simpl; by rewrite list_insert_id.
Qed.

Lemma step_failed st i : failed_somewhere st.2 -> failed_somewhere (step_at METADATA_KEY nfields st i).2.
Proof.
  destruct st as [r cs]. intros (c & Hin & Hf). unfold step_at; simpl.
  destruct (cs !! i) as [c'|] eqn:Hi; [|by exists c].
  destruct (chain_step _ _ r c') as [r' c''] eqn:Hs. simpl.
  simpl in Hin. apply list_elem_of_lookup in Hin as [j Hj]. destruct (decide (j = i)) as [->|Hne].
  - assert (c' = c) as -> by congruence. apply failed_insert; [by eapply lookup_lt_Some|].
    unfold chain_step in Hs. rewrite Hf in Hs. by simplify_eq.
  - exists c. split; [|done]. apply list_elem_of_lookup. exists j. by rewrite list_lookup_insert_ne.
Qed.

Lemma run_good final r0 Ls : forall sched st,
  Forall (fun L => NoDup L.*1) Ls -> good final r0 Ls st \/ failed_somewhere st.2 ->
  good final r0 Ls (fold_left (step_at METADATA_KEY nfields) sched st) \/
  failed_somewhere (fold_left (step_at METADATA_KEY nfields) sched st).2.
Proof.
  induction sched as [|i sched IH]; intros st Hnd Hg; simpl; [done|]. apply IH; [done|].
  destruct Hg; [by apply step_good|right; by apply step_failed].
Qed.

(** ** Every chain gets to its end *)

Lemma work_step r c :
  (chain_step METADATA_KEY nfields r c).2.(c_failed) = true \/
  (work (chain_step METADATA_KEY nfields r c).2 <= pred (work c))%nat.
Proof.
  unfold chain_step. destruct (c_failed c) eqn:Hf; simpl; [by left|].
  destruct (c_del c) as [u|] eqn:Hd.
  - destruct (del r (mkey u)) as [r' ok]. right. unfold work. rewrite Hd. simpl. lia.
  - destruct (c_todo c) as [|[u ts] todo] eqn:Ht; simpl; [right; unfold work; rewrite Hd, Ht; simpl; lia|].
    destruct (get r (mkey u)) as [md|]; simpl; [right|by left].
    unfold work. rewrite Hd, Ht. simpl. destruct (c_last c), md; simpl; lia.
Qed.

Lemma run_work : forall sched st i c,
  st.2 !! i = Some c ->
  exists c', (fold_left (step_at METADATA_KEY nfields) sched st).2 !! i = Some c' /\
    (c'.(c_failed) = true \/ (work c' <= work c - count_occ Nat.eq_dec sched i)%nat).
Proof.
  induction sched as [|j sched IH]; intros [r cs] i c Hi; simpl in *; [exists c; split; [done|right; lia]|].
  destruct (Nat.eq_dec j i) as [->|Hne].
  - pose proof (work_step r c) as Hw. pose proof (lookup_lt_Some _ _ _ Hi) as Hlt.
    destruct (chain_step METADATA_KEY nfields r c) as [r1 c1] eqn:Hs. simpl in Hw.
    destruct (IH (r1, <[i := c1]> cs) i c1) as (c' & Hc' & Hw'); [simpl; by apply list_lookup_insert_eq|].
    unfold step_at at 2; simpl. rewrite Hi, Hs. exists c'. split; [done|].
    destruct Hw as [Hf|Hw]; [|destruct Hw'; [by left|right; lia]].
    left. clear -Hc' Hf Hlt. assert ((r1, <[i := c1]> cs).2 !! i = Some c1) as Hi by by apply list_lookup_insert_eq.
    revert Hc' Hi. generalize (r1, <[i := c1]> cs) as st. clear Hlt r1 cs.
    induction sched as [|j sched IH]; simpl; [congruence|]. intros st Hc' Hi. apply (IH _ Hc').
    unfold step_at. destruct (st.2 !! j) as [x|] eqn:Hj; [|done].
    destruct (decide (i = j)) as [<-|Hne].
    + assert (x = c1) as -> by congruence. unfold chain_step. rewrite Hf. simpl. by rewrite list_insert_id.
    + destruct (chain_step _ _ _ x). simpl. by rewrite list_lookup_insert_ne.
  - apply IH. unfold step_at; simpl. destruct (cs !! j) as [x|] eqn:Hj; [|done].
    destruct (chain_step _ _ r x). simpl. by rewrite list_lookup_insert_ne.
Qed.

Lemma count_replicate n (i : nat) : count_occ Nat.eq_dec (replicate n i) i = n.
Proof. induction n as [|n IH]; [done|]. cbn [replicate]. rewrite count_occ_cons_eq; lia. Qed.

Lemma count_drain (f : nat -> nat) i l :
  i ∈ l -> (f i <= count_occ Nat.eq_dec (concat ((fun j => replicate (f j) j) <$> l)) i)%nat.
Proof.
  induction l as [|j l IH]; [by intros ?%elem_of_nil|].
  intros Hi. rewrite fmap_cons. cbn [concat]. rewrite count_occ_app. apply elem_of_cons in Hi as [->|Hi]; [|specialize (IH Hi); lia].
  rewrite count_replicate. lia.
Qed.

Lemma run_finishes sched r cs i c' :
  (run_chains METADATA_KEY nfields sched r cs).2 !! i = Some c' ->
  c'.(c_failed) = true \/ c'.(c_todo) = [] /\ c'.(c_del) = None.
Proof.
  unfold run_chains. intros Hc'.
  assert (is_Some (cs !! i)) as [c Hc].
  { apply lookup_lt_is_Some. apply lookup_lt_Some in Hc'.
    enough (forall l st, length (fold_left (step_at METADATA_KEY nfields) l st).2 = length st.2) as Hl
      by by rewrite Hl in Hc'.
    clear. induction l as [|j l IH]; intros st; simpl; [done|]. rewrite IH. unfold step_at.
    destruct (st.2 !! j); [|done]. destruct (chain_step _ _ _ _). apply length_insert. }
  destruct (run_work (sched ++ drain cs) (r, cs) i c Hc) as (x & Hx & Hw).
  assert (x = c') as -> by congruence. destruct Hw as [?|Hw]; [by left|right].
  assert (i ∈ seq 0 (length cs)) as Hin by (apply elem_of_seq; apply lookup_lt_Some in Hc; lia).
  pose proof (count_drain (fun i => from_option work 0%nat (cs !! i)) i _ Hin) as Hcount.
  simpl in Hcount. rewrite Hc in Hcount. simpl in Hcount. rewrite count_occ_app in Hw.
  unfold drain in Hw. assert (work c' = 0%nat) as Hz by lia. clear -Hz. unfold work in Hz.
  destruct (c_todo c'), (c_del c'); simpl in Hz; (done || lia).
Qed.

(** ** What [process] delivers *)

Lemma all_ok_inv {K A} (l : list (K * option A)) k :
  all_ok l = Some k -> l = (fun e => (e.1, Some e.2)) <$> k.
Proof.
  revert k. induction l as [|[x [a|]] l IH]; intros k; simpl; [by intros [= <-]| |done].
  destruct (all_ok l) as [k'|] eqn:E; simpl; [|done]. intros [= <-]. by rewrite (IH k').
Qed.

Lemma step_at_key st i :
  c_key <$> (step_at METADATA_KEY nfields st i).2 = c_key <$> st.2.
Proof.
  destruct st as [r cs]. unfold step_at; simpl. destruct (cs !! i) as [c|] eqn:Hi; [|done].
  destruct (chain_step METADATA_KEY nfields r c) as [r' c'] eqn:Hs. simpl.
  assert (c_key c' = c_key c) as Hk.
  { unfold chain_step in Hs. repeat (case_match; simplify_eq; try done). }
  rewrite list_fmap_insert, Hk. apply list_insert_id. by rewrite list_lookup_fmap, Hi.
Qed.

Lemma run_key : forall sched st,
  c_key <$> (fold_left (step_at METADATA_KEY nfields) sched st).2 = c_key <$> st.2.
Proof. induction sched as [|i sched IH]; intros st; simpl; [done|]. by rewrite IH, step_at_key. Qed.

Lemma run_failed : forall sched st,
  failed_somewhere st.2 -> failed_somewhere (fold_left (step_at METADATA_KEY nfields) sched st).2.
Proof. induction sched as [|i sched IH]; intros st Hf; simpl; [done|]. by apply IH, step_failed. Qed.

(** The chains [process] starts with, when every sorted set was popped. *)
Definition start (kl : list (string * list (string * Z))) : list Chain :=
  chains ((fun e => (e.1, Some e.2)) <$> kl).

Lemma start_lookup kl : forall j c, start kl !! j = Some c ->
  exists e, kl !! j = Some e /\ c = mkChain e.1 c.(c_last) e.2 None [] false /\
    (c.(c_last) = true <-> S j = length kl).
Proof.
  induction kl as [|e kl IH]; intros j c; [done|]. destruct j as [|j]; simpl.
  - intros [= <-]. exists e. destruct kl; simpl; split_and!; try done; split; (done || lia).
  - intros Hj. destruct (IH j c Hj) as (e' & He & Hc & Hl). exists e'. split_and!; [done..|].
    rewrite Hl. lia.
Qed.

Lemma start_length kl : length (start kl) = length kl.
Proof. induction kl; simpl; [done|]. by rewrite <- IHkl. Qed.

Lemma start_keys kl : c_key <$> start kl = kl.*1.
Proof. induction kl as [|e kl IH]; [done|]. unfold start in *. simpl. f_equal. exact IH. Qed.

Lemma start_good kl r :
  good (default [] (last kl.*2)) r kl.*2 (r, start kl).
Proof.
  split; simpl; [|by left| |done].
  - apply Forall2_same_length_lookup. rewrite length_fmap, start_length. split; [done|].
    intros j L c HL Hc. destruct (start_lookup kl j c Hc) as (e & He & -> & Hl).
    rewrite list_lookup_fmap, He in HL. simpl in HL. injection HL as <-.
    split; simpl; try done; [|by intros _ u ?%elem_of_nil].
    intros Hlast. apply Hl in Hlast. rewrite last_lookup, length_fmap, <- Hlast. simpl.
    by rewrite list_lookup_fmap, He.
  - intros j c Hc. destruct (start_lookup kl j c Hc) as (e & He & Hc' & Hl). by rewrite start_length.
Qed.

(** The users whose reminder of the last kind is due. *)
Definition last_due (now : Z) (r : R) : list string :=
  match last intervals with Some (k, ms) => (due now ms (scores r k)).*1 | None => [] end.

Definition delivered (now : Z) (r : R) (k : string * Z) (e : string * list Reminder) : Prop :=
  e.1 = k.1 /\ pair_of <$> e.2 ≡ₚ due now k.2 (scores r k.1) /\
  StronglySorted (fun a b => a.(timestamp) <= b.(timestamp)) e.2 /\
  Forall (fun x => x.(fields) = fields_of (value r (mkey x.(uid))) \/
    last intervals <> Some k /\ x.(fields) = fields_of None /\ x.(uid) ∈ last_due now r) e.2.

Lemma due_nodup now ms z : NoDup (due now ms z).*1.
Proof.
  unfold due. pose proof (NoDup_fst_map_to_list z) as Hn.
  induction (map_to_list z) as [|x l IH]; simpl; [constructor|].
  apply NoDup_cons in Hn as [Hx Hn]. specialize (IH Hn). destruct (in_range _ _ x); simpl; [|done].
  apply NoDup_cons. split; [|done]. intros Hin. apply Hx.
  apply list_elem_of_fmap in Hin as (y & Hy & Hin). apply elem_of_filterb in Hin as [Hin _].
  rewrite Hy. by apply list_elem_of_fmap_2.
Qed.

Lemma failed_start (l : list ((string * Z) * option (list (string * Z)))) :
  Forall (fun e => is_Some e.2) l \/ failed_somewhere (chains ((fun e => (e.1.1, e.2)) <$> l)).
Proof.
  induction l as [|[k [items|]] l IH]; simpl; [by left| |].
  - destruct IH as [IH|(c & Hc & Hf)]; [left; by constructor|right]. exists c. split; [by right|done].
  - right. eexists. split; [by left|done].
Qed.

(** [process] cut into its two phases. *)
Lemma process_phases sched now r r' res :
  process METADATA_KEY nfields intervals sched now r = (r', Some res) ->
  exists r1 kl cs,
    Forall2 (fun k e => e.1 = k.1 /\ e.2 ≡ₚ due now k.2 (scores r k.1) /\
      StronglySorted (fun a b => a.2 <= b.2) e.2) intervals kl /\
    (forall k ms, (k, ms) ∈ intervals -> scores r1 k = not_due now ms (scores r k)) /\
    (forall u, value r1 (mkey u) = value r (mkey u)) /\
    run_chains METADATA_KEY nfields sched r1 (start kl) = (r', cs) /\
    ~ failed_somewhere cs /\ res = (fun c => (c.(c_key), c.(c_done))) <$> cs.
Proof.
  unfold process, pop_all.
  destruct (each _ intervals r) as [r1 l] eqn:Hpop.
  destruct (run_chains _ _ _ r1 _) as [r2 cs] eqn:Hrun. intros [= <- Hres].
  apply all_ok_inv in Hres.
  assert (~ failed_somewhere cs) as Hnf.
  { intros (c & Hc & Hf). apply (list_elem_of_fmap_2 result_of) in Hc. rewrite Hres in Hc.
    apply list_elem_of_fmap in Hc as (e & He & _). unfold result_of in He. by rewrite Hf in He. }
  assert (Forall (fun e => is_Some e.2) l) as Hall.
  { destruct (failed_start l) as [?|Hf]; [done|]. destruct Hnf.
    pose proof (run_failed (sched ++ drain (chains ((fun e => (e.1.1, e.2)) <$> l))) (r1, _) Hf) as Hx.
    unfold run_chains in Hrun. by rewrite Hrun in Hx. }
  destruct (each_pop now intervals r r1 l keys_nodup Hpop Hall) as (Hf & Hin & Hout).
  exists r1, ((fun e => (e.1.1, default [] e.2)) <$> l), cs. split_and!.
  - apply Forall2_fmap_r. eapply Forall2_impl; [exact Hf|].
    intros k e (He & items & Hi & ? & ?). simpl. by rewrite He, Hi.
  - done.
  - intros u. apply Hout, keys_plain.
  - rewrite <- Hrun. unfold start. do 2 f_equal. rewrite <- list_fmap_compose. apply list_fmap_ext.
    intros i e He. pose proof (Forall_lookup_1 _ _ _ _ Hall He) as [x Hx]. simpl in *. by rewrite Hx.
  - done.
  - clear Hrun. revert res Hres Hnf. induction cs as [|c cs IH]; intros [|e res]; try done.
    simpl. unfold result_of at 1. intros Hres Hnf. injection Hres as Hk Hd Hrest.
    destruct (c_failed c) eqn:Hcf; [destruct Hnf; exists c; split; [by left|done]|].
    injection Hd as Hd. f_equal; [destruct e; simpl in *; congruence|].
    apply IH; [done|]. intros (x & Hx & ?). apply Hnf. exists x. split; [by right|done].
Qed.

Lemma last_due_spec now r kl u :
  Forall2 (fun k e => e.1 = k.1 /\ e.2 ≡ₚ due now k.2 (scores r k.1) /\
    StronglySorted (fun a b : string * Z => a.2 <= b.2) e.2) intervals kl ->
  u ∈ (default [] (last kl.*2)).*1 <-> u ∈ last_due now r.
Proof.
  intros Hf. unfold last_due. rewrite !last_lookup, length_fmap, (Forall2_length _ _ _ Hf), list_lookup_fmap.
  destruct (kl !! pred (length kl)) as [e|] eqn:He.
  - destruct (Forall2_lookup_r _ _ _ _ _ Hf He) as ([k ms] & Hk & _ & Hp & _).
    rewrite Hk. simpl in Hp |- *. rewrite Hp. reflexivity.
  - apply lookup_ge_None in He. assert (kl = []) as -> by (destruct kl; simpl in *; [done|lia]).
    apply Forall2_nil_inv_r in Hf. by rewrite Hf.
Qed.

Lemma lookup_last_inj {A} (f : A -> string) (l : list A) j x :
  NoDup (f <$> l) -> l !! j = Some x -> last l = Some x -> S j = length l.
Proof.
  intros Hn Hj Hl. rewrite last_lookup in Hl.
  enough (j = pred (length l)) by (apply lookup_lt_Some in Hj; lia).
  eapply (NoDup_lookup (f <$> l)); [done|rewrite list_lookup_fmap, Hj|rewrite list_lookup_fmap, Hl]; done.
Qed.

Lemma last_chain_gone r1 (kl : list (string * list (string * Z))) r' cs u :
  good (default [] (last kl.*2)) r1 kl.*2 (r', cs) ->
  (forall j c, cs !! j = Some c -> c.(c_todo) = [] /\ c.(c_del) = None) ->
  u ∈ (default [] (last kl.*2)).*1 -> value r' (mkey u) = None.
Proof.
  intros Hg Hfin Hu. destruct (last kl.*2) as [L|] eqn:HL; simpl in Hu; [|by apply elem_of_nil in Hu].
  rewrite last_lookup in HL.
  destruct (Forall2_lookup_l _ _ _ _ _ (g_chains _ _ _ _ Hg) HL) as (c & Hc & Hck). simpl in Hc.
  assert (c_last c = true) as Hl.
  { apply (g_last _ _ _ _ Hg _ _ Hc). pose proof (Forall2_length _ _ _ (g_chains _ _ _ _ Hg)) as Hlen.
    simpl in *. apply lookup_lt_Some in HL. lia. }
  destruct (Hfin _ _ Hc) as [Ht Hd].
  destruct (ck_gone _ _ _ _ _ Hck Hl u) as [?|?]; [|done|congruence].
  rewrite <- (ck_items _ _ _ _ _ Hck), Ht, app_nil_r, <- list_fmap_compose in Hu. exact Hu.
Qed.

(** The specification of [process], for every interleaving. *)
Lemma process_spec sched now r r' res :
  process METADATA_KEY nfields intervals sched now r = (r', Some res) ->
  Forall2 (delivered now r) intervals res /\
  (forall k ms, (k, ms) ∈ intervals -> scores r' k = not_due now ms (scores r k)) /\
  (forall u, value r' (mkey u) = if bool_decide (u ∈ last_due now r) then None else value r (mkey u)).
Proof.
  intros (r1 & kl & cs & Hkl & Hsc & Hval & Hrun & Hnf & ->)%process_phases.
  pose proof (fun u => last_due_spec now r kl u Hkl) as Hlast.
  assert (Forall (fun L : list (string * Z) => NoDup L.*1) kl.*2) as Hnd.
  { apply Forall_fmap, Forall_lookup. intros i e He.
    destruct (Forall2_lookup_r _ _ _ _ _ Hkl He) as (k & _ & _ & Hp & _). simpl. rewrite Hp. apply due_nodup. }
  assert (good (default [] (last kl.*2)) r1 kl.*2 (r', cs)) as Hg.
  { destruct (run_good _ r1 _ (sched ++ drain (start kl)) _ Hnd (or_introl (start_good kl r1))) as [Hg|Hf];
      unfold run_chains in Hrun; rewrite Hrun in *; done. }
  assert (forall j c, cs !! j = Some c -> c.(c_todo) = [] /\ c.(c_del) = None) as Hfin.
  { intros j c Hc. destruct (run_finishes sched r1 (start kl) j c) as [Hf|?]; [by rewrite Hrun| |done].
    destruct Hnf. exists c. split; [by eapply list_elem_of_lookup_2|done]. }
  assert (c_key <$> cs = kl.*1) as Hkeys.
  { unfold run_chains in Hrun. pose proof (run_key (sched ++ drain (start kl)) (r1, start kl)) as Hk.
    rewrite Hrun in Hk. simpl in Hk. rewrite Hk. apply start_keys. }
  assert (length cs = length intervals) as Hlen.
  { rewrite <- (length_fmap c_key), Hkeys, length_fmap. symmetry. by eapply Forall2_length. }
  split_and!.
  - apply Forall2_fmap_r, Forall2_same_length_lookup. split; [done|]. intros j k c Hk Hc.
    destruct (Forall2_lookup_l _ _ _ _ _ Hkl Hk) as (e & He & He1 & Hp & Hs).
    assert (kl.*2 !! j = Some e.2) as HL by by rewrite list_lookup_fmap, He.
    destruct (Forall2_lookup_lr _ _ _ _ _ _ (g_chains _ _ _ _ Hg) HL Hc) as [_ Hi _ Hfi _ _].
    destruct (Hfin j c Hc) as [Ht _]. rewrite Ht, app_nil_r in Hi. split_and!; simpl.
    + apply (f_equal (fun l => l !! j)) in Hkeys. rewrite !list_lookup_fmap, Hc, He in Hkeys. simpl in *. congruence.
    + by rewrite Hi.
    + rewrite <- Hi in Hs. by apply (StronglySorted_fmap_inv pair_of) in Hs.
    + eapply Forall_impl; [exact Hfi|]. intros x [->|(Hl & -> & Hu)]; [left; by rewrite Hval|right].
      split_and!; [|done|by apply Hlast]. intros Hlk.
      apply (g_last _ _ _ _ Hg) in Hc. simpl in Hc. rewrite Hl in Hc.
      enough (S j = length cs) by (by apply Hc in H1). rewrite Hlen.
      by eapply (lookup_last_inj fst).
  - intros k ms Hin. pose proof (g_scores _ _ _ _ Hg k) as Hgs. simpl in Hgs. rewrite Hgs; [by apply Hsc|].
    by apply (list_elem_of_fmap_2 fst _ (k, ms)).
  - intros u. case_bool_decide as Hu.
    + apply Hlast in Hu. eapply last_chain_gone; [exact Hg| |exact Hu]. intros j c Hc. by apply (Hfin j).
    + rewrite <- Hval. destruct (g_values _ _ _ _ Hg u) as [?|(_ & j & c & Hc & Hl & Huc)]; [done|].
      destruct Hu. apply Hlast. destruct (Forall2_lookup_r _ _ _ _ _ (g_chains _ _ _ _ Hg) Hc) as (L & _ & Hck).
      rewrite <- (ck_last _ _ _ _ _ Hck Hl). by eapply done_in.
Qed.

(** ** Without failures of redis, [process] returns *)

Definition reliable : Prop :=
  (forall (r : R) k a b, is_Some (multi_pop r k a b).2) /\ (forall (r : R) k, is_Some (get r k)) /\
  (forall (r : R) k, (del r k).2 = true).

Lemma run_reliable : reliable -> forall sched st,
  Forall (fun c => c.(c_failed) = false) st.2 ->
  Forall (fun c => c.(c_failed) = false) (fold_left (step_at METADATA_KEY nfields) sched st).2.
Proof.
  intros (_ & Hget & Hdel). induction sched as [|i sched IH]; intros [r cs] Hf; simpl in *; [done|].
  apply IH. unfold step_at; simpl. destruct (cs !! i) as [c|] eqn:Hi; [|done].
  pose proof (Forall_lookup_1 _ _ _ _ Hf Hi) as Hc. simpl in Hc.
  destruct (chain_step METADATA_KEY nfields r c) as [r' c'] eqn:Hs. simpl.
  apply Forall_insert; [done|]. unfold chain_step in Hs. rewrite Hc in Hs.
  destruct (c_del c) as [u|].
  - specialize (Hdel r (mkey u)). destruct (del r (mkey u)) as [? ok]. simpl in Hdel. by simplify_eq.
  - destruct (c_todo c) as [|[u ts] todo]; [by simplify_eq|].
    destruct (Hget r (mkey u)) as [md Hmd]. rewrite Hmd in Hs. by simplify_eq.
Qed.

Lemma all_ok_total {K A} (l : list (K * option A)) :
  Forall (fun e => is_Some e.2) l -> is_Some (all_ok l).
Proof.
  induction 1 as [|[k [a|]] l [x Hx] _ [y IH]]; simpl in *; [done| |done]. rewrite IH. by eexists.
Qed.

Lemma each_pop_total now iv : reliable -> forall r,
  Forall (fun e => is_Some e.2) (each (fun r k => zpoprangebyscore r k.1 0 (now - k.2)) iv r).2.
Proof.
  intros (Hpop & _). induction iv as [|k iv IH]; intros r; simpl; [constructor|].
  unfold zpoprangebyscore at 1. specialize (Hpop r k.1 0 (now - k.2)).
  destruct (multi_pop r k.1 0 (now - k.2)) as [r1 o]. specialize (IH r1).
  destruct (each _ iv r1) as [r2 l]. simpl in *. constructor; [|done]. simpl. by rewrite fmap_is_Some.
Qed.

Lemma process_total sched now r :
  reliable -> is_Some (process METADATA_KEY nfields intervals sched now r).2.
Proof.
  intros Hrel. unfold process, pop_all. pose proof (each_pop_total now intervals Hrel r) as Hpop.
  destruct (each _ intervals r) as [r1 l]. simpl in Hpop.
  assert (Forall (fun c => c.(c_failed) = false) (chains ((fun e => (e.1.1, e.2)) <$> l))) as Hstart.
  { clear -Hpop. induction Hpop as [|[k o] l [x Hx] _ IH]; simpl in *; constructor; [by rewrite Hx|done]. }
  unfold run_chains. pose proof (run_reliable Hrel (sched ++ drain (chains ((fun e => (e.1.1, e.2)) <$> l))) (r1, _) Hstart) as Hrun.
  destruct (fold_left _ _ _) as [r2 cs]. simpl in *. apply all_ok_total, Forall_fmap.
  eapply Forall_impl; [exact Hrun|]. intros c Hc. unfold result_of. simpl. by rewrite Hc.
Qed.

(** ** [reinstate] undoes [process] *)

Lemma with_scores_lookup l : forall z u,
  NoDup l.*2 ->
  with_scores l z !! u = match list_find (fun e => e.2 = u) l with Some (_, e) => Some e.1 | None => z !! u end.
Proof.
  unfold with_scores. induction l as [|e l IH]; intros z u Hn; simpl; [done|].
  apply NoDup_cons in Hn as [He Hn]. rewrite IH by done. case_decide as Hu.
  - assert (list_find (fun x : Z * string => x.2 = u) l = None) as ->.
    { apply list_find_None, Forall_forall. intros x Hx Hxu. apply He. rewrite Hu, <- Hxu.
      by apply (list_elem_of_fmap_2 snd). }
    rewrite <- Hu, lookup_insert_eq. by destruct (decide (e.2 = e.2)).
  - destruct (list_find _ l) as [[i x]|]; simpl; [done|]. by rewrite lookup_insert_ne.
Qed.

Lemma elem_of_due now ms z u s : (u, s) ∈ due now ms z <-> z !! u = Some s /\ in_range 0 (now - ms) (u, s) = true.
Proof. unfold due. by rewrite elem_of_filterb, elem_of_map_to_list. Qed.

Lemma lookup_not_due now ms z u :
  not_due now ms z !! u = s ← z !! u; if in_range 0 (now - ms) (u, s) then None else Some s.
Proof.
  unfold not_due. destruct (z !! u) as [s|] eqn:Hz; simpl.
  - destruct (in_range 0 (now - ms) (u, s)) eqn:Hr.
    + apply map_lookup_filter_None. right. intros s' Hs' Hr'. simplify_eq. congruence.
    + by apply map_lookup_filter_Some.
  - apply map_lookup_filter_None. by left.
Qed.

Lemma reinstate_scores now ms z (rs : list Reminder) :
  pair_of <$> rs ≡ₚ due now ms z ->
  with_scores ((fun x => (x.(timestamp), x.(uid))) <$> rs) (not_due now ms z) = z.
Proof.
  intros Hp. apply map_eq. intros u.
  assert (((fun x => (x.(timestamp), x.(uid))) <$> rs).*2 = (pair_of <$> rs).*1) as Hu
    by by rewrite <- !list_fmap_compose.
  rewrite with_scores_lookup by (rewrite Hu, Hp; apply due_nodup).
  rewrite lookup_not_due.
  destruct (list_find _ _) as [[i e]|] eqn:Hf.
  - apply list_find_Some in Hf as (Hi & Heu & _). apply list_lookup_fmap_Some in Hi as (x & -> & Hx).
    apply list_elem_of_lookup_2, (list_elem_of_fmap_2 pair_of) in Hx. rewrite Hp in Hx.
    apply elem_of_due in Hx as [Hx _]. simpl in *. by subst u.
  - destruct (z !! u) as [s|] eqn:Hz; simpl; [|done]. destruct (in_range 0 (now - ms) (u, s)) eqn:Hr; [|done].
    apply list_find_None in Hf. assert ((u, s) ∈ due now ms z) as Hd by by apply elem_of_due.
    rewrite <- Hp in Hd. apply list_elem_of_fmap in Hd as (x & Hx & Hin).
    rewrite Forall_fmap, Forall_forall in Hf. destruct (Hf x Hin). simpl. unfold pair_of in Hx. congruence.
Qed.

Lemma each_set : forall es r r' l,
  NoDup es.*1 ->
  each (fun r e => let '(r, ok) := set r (mkey e.1) e.2 in (r, if ok then Some tt else None)) es r = (r', l) ->
  is_Some (all_ok l) ->
  (forall e, e ∈ es -> value r' (mkey e.1) = Some e.2) /\
  (forall u, u ∉ es.*1 -> value r' (mkey u) = value r (mkey u)) /\
  (forall k, k ∈ keys intervals -> scores r' k = scores r k).
Proof.
  induction es as [|e es IH]; intros r r' l Hn; simpl.
  - intros [= <- <-] _. split_and!; [by intros ? ?%elem_of_nil|done..].
  - destruct (set r (mkey e.1) e.2) as [r1 ok] eqn:Hset. destruct (each _ es r1) as [r2 l2] eqn:He.
    intros [= <- <-]. apply NoDup_cons in Hn as [He1 Hn].
    destruct ok; simpl; [|by intros [? ?]]. destruct (all_ok l2) as [k2|] eqn:Hl2; [intros _|by intros [? ?]].
    destruct (IH _ _ _ Hn He (mk_is_Some _ _ Hl2)) as (Hin & Hout & Hsc).
    destruct (set_ok _ _ _ _ Hset) as [Hv Ho]. split_and!.
    + intros x [->|Hx]%elem_of_cons; [by rewrite Hout|by apply Hin].
    + intros u [Hu1 Hu2]%not_elem_of_cons. rewrite Hout by done. apply Ho. by intros ?%mkey_inj.
    + intros k Hk. rewrite Hsc by done. apply Ho. intros ->. by apply (keys_plain e.1).
Qed.

Lemma somes_truthy l : forallb ostr_truthy (Some <$> l) = forallb str_truthy l.
Proof. induction l as [|a l IH]; [done|]. rewrite fmap_cons. cbn [forallb ostr_truthy]. by rewrite IH. Qed.

Lemma somes_omap (l : list string) : omap id (Some <$> l) = l.
Proof. induction l as [|a l IH]; [done|]. rewrite fmap_cons. cbn [omap list_omap id]. f_equal. exact IH. Qed.

Lemma complete_fields l :
  length l = nfields -> forallb str_truthy l = true -> complete (fields_of (Some l)) = Some l.
Proof.
  intros Hl Ht. assert (fields_of (Some l) = Some <$> l) as ->.
  { apply list_eq. intros i. simpl. rewrite !list_lookup_fmap. subst nfields.
    destruct (decide (i < length l)%nat) as [Hi|Hi].
    - rewrite lookup_seq_lt by done. simpl. destruct (l !! i) eqn:E; [done|].
      apply lookup_ge_None in E. lia.
    - rewrite lookup_seq_ge by lia. rewrite lookup_ge_None_2 by lia. done. }
  unfold complete. by rewrite somes_truthy, Ht, somes_omap.
Qed.

Lemma complete_none : (0 < nfields)%nat -> complete (fields_of None) = None.
Proof. intros Hn. destruct nfields; [lia|done]. Qed.

(** Metadata as [create] writes it. *)
Definition metadata_wf (v : option (list string)) : Prop :=
  match v with Some l => length l = nfields /\ forallb str_truthy l = true | None => True end.

Lemma to_restore_uids rs : (to_restore rs).*1 `sublist_of` (uid <$> rs).
Proof.
  induction rs as [|x rs IH]; simpl; [constructor|]. destruct (complete (fields x)); simpl; by constructor.
Qed.

Lemma to_restore_spec rs u vs :
  (u, vs) ∈ to_restore rs <-> exists x, x ∈ rs /\ x.(uid) = u /\ complete x.(fields) = Some vs.
Proof.
  unfold to_restore. rewrite list_elem_of_omap. split.
  - intros (x & Hx & He). destruct (complete (fields x)) eqn:E; simplify_eq/=. by exists x.
  - intros (x & Hx & <- & Hc). exists x. split; [done|]. by rewrite Hc.
Qed.

Lemma reinstate_spec sched now r r' res k rs r'' n :
  process METADATA_KEY nfields intervals sched now r = (r', Some res) -> (k, rs) ∈ res ->
  reinstate METADATA_KEY k rs r' = (r'', Some n) ->
  scores r'' k = scores r k /\
  ((0 < nfields)%nat -> fst <$> last intervals = Some k ->
   forall u, u ∈ uid <$> rs -> metadata_wf (value r (mkey u)) -> value r'' (mkey u) = value r (mkey u)).
Proof.
  intros (Hf & Hsc & Hval)%process_spec Hin. unfold reinstate.
  apply list_elem_of_lookup in Hin as [j Hj].
  destruct (Forall2_lookup_r _ _ _ _ _ Hf Hj) as ([k' ms] & Hk & Hkk & Hp & _ & Hfields). simpl in *. subst k'.
  apply list_elem_of_lookup_2 in Hk as Hkin.
  assert (k ∈ keys intervals) as Hkeys by by apply (list_elem_of_fmap_2 fst _ (k, ms)).
  destruct (zadd r' k _) as [r1 o] eqn:Hz. destruct o as [c|]; [|done].
  destruct (each _ _ r1) as [r2 l] eqn:He. destruct (all_ok l) as [u0|] eqn:Hl; [|done]. intros [= <- <-].
  assert (NoDup (uid <$> rs)) as Hnd.
  { assert (uid <$> rs = (pair_of <$> rs).*1) as -> by by rewrite <- list_fmap_compose.
    rewrite Hp. apply due_nodup. }
  destruct (each_set _ _ _ _ (sublist_NoDup _ _ Hnd (to_restore_uids rs)) He (mk_is_Some _ _ Hl))
    as (Hset & Hother & Hscores).
  destruct (zadd_ok _ _ _ _ _ Hz) as [Hzs Hzv]. split.
  - rewrite Hscores by done. rewrite Hzs, String.eqb_refl, (Hsc k ms Hkin). by apply reinstate_scores.
  - intros Hn Hlast u Hu Hwf.
    assert (last intervals = Some (k, ms)) as Hlk.
    { destruct (last intervals) as [[k2 ms2]|] eqn:E; [|done]. simpl in Hlast. injection Hlast as ->.
      apply last_Some_elem_of in E. f_equal.
      apply list_elem_of_lookup in E as [i Hi]. assert (i = j) as ->; [|congruence].
      eapply (NoDup_lookup (keys intervals)); [done|..]; unfold keys; rewrite list_lookup_fmap;
        [rewrite Hi|rewrite Hk]; done. }
    assert (forall x, x ∈ rs -> x.(uid) = u -> x.(fields) = fields_of (value r (mkey u))) as Hexact.
    { intros x Hx <-. rewrite Forall_forall in Hfields. by destruct (Hfields x Hx) as [?|[? _]]. }
    apply list_elem_of_fmap in Hu as (x & -> & Hx). specialize (Hexact x Hx eq_refl) as Hfx.
    destruct (value r (mkey (uid x))) as [vs|] eqn:Hv.
    + destruct Hwf as [Hlen Ht]. apply (Hset (uid x, vs)), to_restore_spec. exists x.
      split_and!; [done..|]. rewrite Hfx. by apply complete_fields.
    + rewrite Hother, Hzv, Hval, Hv; [by destruct (bool_decide _)|intros Heq; apply (keys_plain (uid x)); by rewrite Heq|].
      intros ([u vs] & Heq & (y & Hy & Hyu & Hc)%to_restore_spec)%list_elem_of_fmap. simpl in Heq. subst u.
      by rewrite (Hexact y Hy), complete_none in Hc.
Qed.

(** ** Histories of the sorted sets *)

Inductive event :=
  | ECreate (random : Q) (u : string) (fs : list (option string)) (now : Z)
  | EDelete (u : string)
  | EProcess (sched : list nat) (now : Z)
  | EReinstate (key : string) (rs : list Reminder).

(** A call that succeeds, and what it delivers. *)
Inductive succeeds (r : R) : event -> R -> list (string * list Reminder) -> Prop :=
  | S_create random u fs now r' res :
      create METADATA_KEY intervals rolloutRate random u fs now r = (r', Some res) ->
      succeeds r (ECreate random u fs now) r' []
  | S_delete u r' res :
      delete_ METADATA_KEY intervals u r = (r', Some res) -> succeeds r (EDelete u) r' []
  | S_process sched now r' res :
      process METADATA_KEY nfields intervals sched now r = (r', Some res) ->
      succeeds r (EProcess sched now) r' res
  | S_reinstate key rs r' n :
      key ∈ keys intervals -> reinstate METADATA_KEY key rs r = (r', Some n) ->
      succeeds r (EReinstate key rs) r' [].

Inductive history (r : R) : list event -> R -> list (string * list Reminder) -> Prop :=
  | H_nil : history r [] r []
  | H_snoc evs r1 ds ev r2 d :
      history r evs r1 ds -> succeeds r1 ev r2 d -> history r (evs ++ [ev]) r2 (ds ++ d).

Definition occurrences (u : string) (l : list string) : nat := length (filterb (String.eqb u) l).

(** Deliveries of reminder [k] to user [u]. *)
Definition deliveries (k u : string) (ds : list (string * list Reminder)) : nat :=
  occurrences u (concat ((fun e => if String.eqb e.1 k then uid <$> e.2 else []) <$> ds)).

(** Times user [u] was entered for reminder [k]. *)
Definition entered (k u : string) (ev : event) : nat :=
  match ev with
  | ECreate _ u' _ _ => if String.eqb u' u then 1 else 0
  | EReinstate k' rs => if String.eqb k' k then occurrences u (uid <$> rs) else 0
  | _ => 0
  end.

Definition waiting (r : R) (k u : string) : nat := if bool_decide (is_Some (scores r k !! u)) then 1 else 0.

Lemma occurrences_app u l l' : occurrences u (l ++ l') = (occurrences u l + occurrences u l')%nat.
Proof. unfold occurrences. by rewrite filterb_app, length_app. Qed.

Lemma deliveries_app k u ds ds' : deliveries k u (ds ++ ds') = (deliveries k u ds + deliveries k u ds')%nat.
Proof. unfold deliveries. by rewrite fmap_app, concat_app, occurrences_app. Qed.

(** A command sent to every sorted set. *)
Lemma each_scores {A} (op : R -> string -> R * option A) (f : gmap string Z -> gmap string Z) :
  (forall r k r' a, op r k = (r', Some a) ->
     forall k', scores r' k' = if String.eqb k' k then f (scores r k) else scores r k') ->
  forall ks r r' l, NoDup ks -> each op ks r = (r', l) -> is_Some (all_ok l) ->
  forall k, scores r' k = if bool_decide (k ∈ ks) then f (scores r k) else scores r k.
Proof.
  intros Hop. induction ks as [|x ks IH]; intros r r' l Hn; cbn [each].
  - intros [= <- <-] _ k. by rewrite bool_decide_eq_false_2 by set_solver.
  - destruct (op r x) as [r1 o] eqn:Hz. destruct (each op ks r1) as [r2 l2] eqn:He.
    intros [= <- <-]. apply NoDup_cons in Hn as [Hx Hn]. destruct o as [n|]; [|by intros [? ?]].
    cbn [all_ok]. destruct (all_ok l2) as [k2|] eqn:Hl2; [intros _|by intros [? ?]]. intros k.
    rewrite (IH _ _ _ Hn He (mk_is_Some _ _ Hl2) k). pose proof (Hop _ _ _ _ Hz) as Hs.
    rewrite Hs. destruct (String.eqb_spec k x) as [->|Hne].
    + rewrite bool_decide_eq_false_2 by done. by rewrite bool_decide_eq_true_2 by by left.
    + by rewrite (bool_decide_ext (k ∈ x :: ks) (k ∈ ks)) by set_solver.
Qed.

Lemma create_scores random u fs now r r' res k :
  create METADATA_KEY intervals rolloutRate random u fs now r = (r', Some res) -> k ∈ keys intervals ->
  scores r' k = scores r k \/ scores r' k = <[u := now]> (scores r k).
Proof.
  intros Hc Hk. unfold create in Hc. destruct (rolled_out _ _); [right|left; by simplify_eq].
  destruct (each _ _ r) as [r1 l] eqn:He. destruct (all_ok l) as [x|] eqn:Hl; [|done].
  assert (scores r1 k = <[u := now]> (scores r k)) as Hs.
  { erewrite (each_scores _ (insert u now)); [| |exact keys_nodup|exact He|by eexists].
    - by rewrite bool_decide_eq_true_2.
    - intros ? ? ? ? Hz. apply (zadd_ok _ _ _ _ _ Hz). }
  destruct (complete fs) as [vs|]; [|by simplify_eq].
  destruct (set r1 (mkey u) vs) as [r2 ok] eqn:Hset. destruct ok; [|done]. simplify_eq.
  destruct (set_ok _ _ _ _ Hset) as [_ Ho]. rewrite <- Hs. apply Ho. intros ->. by apply (keys_plain u).
Qed.

Lemma delete_scores u r r' res k :
  delete_ METADATA_KEY intervals u r = (r', Some res) -> k ∈ keys intervals ->
  scores r' k = delete u (scores r k).
Proof.
  intros Hc Hk. unfold delete_ in Hc. destruct (each _ _ r) as [r1 l] eqn:He.
  destruct (all_ok l) as [x|] eqn:Hl; [|done].
  destruct (del r1 (mkey u)) as [r2 ok] eqn:Hd. destruct ok; [|done]. simplify_eq.
  destruct (del_ok _ _ _ Hd) as [_ Ho]. destruct (Ho k) as [_ ->]; [intros ->; by apply (keys_plain u)|].
  erewrite (each_scores _ (delete u)); [| |exact keys_nodup|exact He|by eexists].
  - by rewrite bool_decide_eq_true_2.
  - intros ? ? ? ? Hz. apply (zrem_ok _ _ _ _ _ Hz).
Qed.

Lemma each_set_scores : forall es r r' l k,
  each (fun r e => let '(r, ok) := set r (mkey e.1) e.2 in (r, if ok then Some tt else None)) es r = (r', l) ->
  is_Some (all_ok l) -> k ∈ keys intervals -> scores r' k = scores r k.
Proof.
  induction es as [|e es IH]; intros r r' l k; simpl; [by intros [= <- <-]|].
  destruct (set r (mkey e.1) e.2) as [r1 ok] eqn:Hset. destruct (each _ es r1) as [r2 l2] eqn:He.
  intros [= <- <-]. destruct ok; simpl; [|by intros [? ?]].
  destruct (all_ok l2) as [x|] eqn:Hl2; [intros _ Hk|by intros [? ?]].
  rewrite (IH _ _ _ k He (mk_is_Some _ _ Hl2) Hk). apply (set_ok _ _ _ _ Hset). intros ->. by apply (keys_plain e.1).
Qed.

Lemma occurrences_zero u l : u ∉ l -> occurrences u l = 0%nat.
Proof.
  intros Hu. unfold occurrences. rewrite filterb_none; [done|]. intros x Hx.
  destruct (String.eqb_spec u x); [by subst|done].
Qed.

Lemma occurrences_pos u l : u ∈ l -> (1 <= occurrences u l)%nat.
Proof.
  intros Hu. unfold occurrences. assert (u ∈ filterb (String.eqb u) l) as Hf.
  { apply elem_of_filterb. split; [done|]. apply String.eqb_refl. }
  destruct (filterb _ l); [by apply elem_of_nil in Hf|simpl; lia].
Qed.

Lemma occurrences_nodup u l : NoDup l -> (occurrences u l <= 1)%nat.
Proof.
  induction 1 as [|x l Hx _ IH]; [unfold occurrences; simpl; lia|].
  change (x :: l) with ([x] ++ l). rewrite occurrences_app. unfold occurrences at 1. simpl.
  destruct (String.eqb_spec u x) as [->|_]; simpl; [|lia]. rewrite occurrences_zero by done. lia.
Qed.

Lemma occurrences_perm u l l' : l ≡ₚ l' -> occurrences u l = occurrences u l'.
Proof.
  induction 1 as [|x l l' _ IH|x y l|]; [done| | |congruence]; unfold occurrences in *; simpl.
  - destruct (String.eqb u x); simpl; congruence.
  - destruct (String.eqb u x), (String.eqb u y); done.
Qed.

Lemma with_scores_domain l : forall z u, is_Some (with_scores l z !! u) -> is_Some (z !! u) \/ u ∈ l.*2.
Proof.
  unfold with_scores. induction l as [|e l IH]; intros z u; cbn [fold_left]; [by left|].
  intros [Hz|Hl]%IH; [|right; by right].
  destruct (decide (e.2 = u)) as [<-|Hne]; [right; by left|]. left. by rewrite lookup_insert_ne in Hz.
Qed.

(** What one run of [process] delivers to a user. *)
Lemma process_deliveries now r k u : forall iv res,
  NoDup iv.*1 -> Forall2 (delivered now r) iv res ->
  deliveries k u res =
  match obj_get iv k with Some ms => occurrences u (due now ms (scores r k)).*1 | None => 0%nat end.
Proof.
  induction iv as [|[k' ms] iv IH]; intros res Hn Hf.
  - by apply Forall2_nil_inv_l in Hf as ->.
  - apply Forall2_cons_inv_l in Hf as ([k2 rs] & res' & (Hk & Hp & _) & Hf & ->). simpl in Hk, Hp. subst k2.
    apply NoDup_cons in Hn as [Hk' Hn]. specialize (IH res' Hn Hf).
    change ((k', rs) :: res') with ([(k', rs)] ++ res'). rewrite deliveries_app, IH.
    unfold deliveries at 1. simpl. rewrite app_nil_r.
    destruct (String.eqb_spec k' k) as [->|Hne]; simpl; [|done].
    assert (obj_get iv k = None) as ->.
    { destruct (obj_get iv k) as [ms'|] eqn:E; [|done]. destruct Hk'.
      clear -E. induction iv as [|[a b] iv IH]; simpl in *; [done|].
      destruct (String.eqb_spec a k); [subst; by left|right; by apply IH]. }
    rewrite Nat.add_0_r. apply occurrences_perm. rewrite <- Hp, <- list_fmap_compose. done.
Qed.

Lemma process_accounting now r r' ms k u :
  scores r' k = not_due now ms (scores r k) ->
  (occurrences u (due now ms (scores r k)).*1 + waiting r' k u <= waiting r k u)%nat.
Proof.
  intros Hs. unfold waiting. rewrite Hs, lookup_not_due.
  destruct (scores r k !! u) as [s|] eqn:Hz; simpl.
  - pose proof (occurrences_nodup u _ (due_nodup now ms (scores r k))) as H1.
    destruct (in_range 0 (now - ms) (u, s)) eqn:Hr; simpl; [lia|].
    rewrite occurrences_zero; [lia|].
    intros ([u' s'] & Heq & [Hz' Hr']%elem_of_due)%list_elem_of_fmap. simpl in Heq. subst u'. congruence.
  - rewrite occurrences_zero; [lia|].
    intros ([u' s'] & Heq & [Hz' _]%elem_of_due)%list_elem_of_fmap. simpl in Heq. subst u'. congruence.
Qed.

Lemma event_accounting r ev r' d k u :
  succeeds r ev r' d -> k ∈ keys intervals ->
  (deliveries k u d + waiting r' k u <= entered k u ev + waiting r k u)%nat.
Proof.
  intros Hs Hk. destruct Hs as [random u' fs now r' res Hc|u' r' res Hd|sched now r' res Hp|key rs r' n Hkey Hr].
  - unfold deliveries, waiting. simpl. destruct (create_scores _ _ _ _ _ _ _ _ Hc Hk) as [->| ->]; [lia|].
    destruct (String.eqb_spec u' u) as [->|Hne]; simpl; [destr_ifs; lia|]. by rewrite lookup_insert_ne.
  - unfold deliveries, waiting. simpl. rewrite (delete_scores _ _ _ _ _ Hd Hk).
    destruct (decide (u' = u)) as [->|Hne]; [|by rewrite lookup_delete_ne].
    rewrite lookup_delete_eq, bool_decide_eq_false_2 by by intros [? ?]. lia.
  - apply process_spec in Hp as (Hf & Hsc & _). rewrite (process_deliveries now r k u _ _ keys_nodup Hf).
    destruct (obj_get_key intervals k Hk) as (ms & -> & Hin). simpl.
    by apply process_accounting, Hsc.
  - unfold reinstate in Hr. destruct (zadd r key _) as [r1 o] eqn:Hz. destruct o as [c|]; [|done].
    destruct (each _ _ r1) as [r2 l] eqn:He. destruct (all_ok l) as [x|] eqn:Hl; [|done]. simplify_eq/=.
    unfold deliveries, waiting. simpl. rewrite (each_set_scores _ _ _ _ k He (mk_is_Some _ _ Hl) Hk).
    destruct (zadd_ok _ _ _ _ _ Hz) as [-> _]. rewrite (String.eqb_sym k key).
    destruct (String.eqb_spec key k) as [->|Hne]; [|lia].
    case_bool_decide as Hw; [|lia]. apply with_scores_domain in Hw as [Hw|Hw].
    + rewrite bool_decide_eq_true_2 by done. lia.
    + rewrite <- list_fmap_compose in Hw. change (u ∈ uid <$> rs) in Hw. pose proof (occurrences_pos u _ Hw). lia.
Qed.

Lemma history_accounting r evs r' ds k u :
  history r evs r' ds -> k ∈ keys intervals ->
  (deliveries k u ds + waiting r' k u <= sum_list_with (entered k u) evs + waiting r k u)%nat.
Proof.
  intros Hh Hk. induction Hh as [|evs r1 ds ev r2 d _ IH Hs]; [unfold deliveries; simpl; lia|].
  pose proof (event_accounting _ _ _ _ k u Hs Hk) as Hev.
  rewrite deliveries_app, sum_list_with_app. simpl. lia.
Qed.
End Laws.

(** ** Configured intervals satisfy the hypotheses *)

Fixpoint all_lower (s : string) : bool :=
  match s with String a s' => is_lower a && all_lower s' | EmptyString => true end.

Lemma lower_prefix_spec s p rest :
  lower_prefix s = (p, rest) -> s = (p ++ rest)%string /\ all_lower p = true.
Proof.
  revert p. induction s as [|a s IH]; intros p; simpl; [by intros [= <- <-]|].
  destruct (is_lower a) eqn:Ha; [|by intros [= <- <-]].
  destruct (lower_prefix s) as [q rest'] eqn:E. intros [= <- <-].
  destruct (IH q eq_refl) as [-> Hq]. simpl. by rewrite Ha.
Qed.

Lemma INTERVAL_PATTERN_spec key p :
  INTERVAL_PATTERN key = Some p -> key = (p ++ "Interval")%string /\ all_lower p = true.
Proof.
  unfold INTERVAL_PATTERN. destruct (lower_prefix key) as [q rest] eqn:E.
  destruct (str_truthy q); simpl; [|done]. destruct (String.eqb_spec rest "Interval"); [|done].
  intros [= <-]. apply lower_prefix_spec in E as [-> ?]. by subst rest.
Qed.

Lemma all_lower_plain M u k : all_lower k = true -> k <> metadata_key M u.
Proof.
  unfold metadata_key. revert k. induction M as [|a M IH]; intros [|b k] Hk; simpl; try done.
  - intros [= -> ->]. done.
  - intros [= -> ->]. simpl in Hk. apply andb_prop in Hk as [_ Hk]. by apply (IH _ Hk).
Qed.

Lemma parse_keys M entries iv :
  parseIntervals M entries = Some iv ->
  Forall (fun k => all_lower k = true /\ (k ++ "Interval")%string ∈ entries.*1) iv.*1 /\
  (NoDup entries.*1 -> NoDup iv.*1).
Proof.
  revert iv. induction entries as [|[key ms] entries IH]; intros iv; simpl.
  - intros [= <-]. split; [constructor|intros; constructor].
  - destruct (INTERVAL_PATTERN key) as [k|] eqn:Hk.
    + destruct (String.eqb k M); [done|].
      destruct (parseIntervals M entries) as [rest|] eqn:E; simpl; [|done]. intros [= <-].
      apply INTERVAL_PATTERN_spec in Hk as [-> Hlow]. destruct (IH rest eq_refl) as [Hf Hn]. simpl. split.
      * constructor; [split; [done|by left]|]. eapply Forall_impl; [exact Hf|]. intros x [? ?]. split; [done|by right].
      * intros [Hnew Hrest]%NoDup_cons. apply NoDup_cons. split; [|by apply Hn].
        intros Hin. apply Hnew. rewrite Forall_forall in Hf. by apply Hf.
    + intros Hp. destruct (IH iv Hp) as [Hf Hn]. split.
      * eapply Forall_impl; [exact Hf|]. intros x [? ?]. split; [done|by right].
      * intros [_ ?]%NoDup_cons. by apply Hn.
Qed.

Lemma configured_plain M entries iv u :
  parseIntervals M entries = Some iv -> metadata_key M u ∉ keys iv.
Proof.
  intros [Hf _]%parse_keys Hin. rewrite Forall_forall in Hf. destruct (Hf _ Hin) as [Hl _].
  by apply (all_lower_plain M u) in Hl.
Qed.

Lemma configured_nodup M entries iv :
  parseIntervals M entries = Some iv -> NoDup entries.*1 -> NoDup (keys iv).
Proof. intros [_ Hn]%parse_keys. exact Hn. Qed.

Section Claims.
Context {R : Type} `{RedisLaws R}.
Context (METADATA_KEY : string) (nfields : nat) (entries : list (string * Z)) (intervals : jsobj Z).

(** [C35] Processing reminders is exact, for every interleaving of the metadata
    reads: for each kind it delivers exactly the users whose reminder is due,
    oldest first, and removes exactly those from the sorted set; metadata is
    attached, except that another kind may miss it when the last kind, whose
    processing deletes it, is due as well; and when redis does not fail the
    call returns. *)
Theorem reminders_process_exact sched now (r : R) :
  parseIntervals METADATA_KEY entries = Some intervals -> NoDup entries.*1 ->
  (reliable (R := R) -> is_Some (process METADATA_KEY nfields intervals sched now r).2) /\
  forall r' res, process METADATA_KEY nfields intervals sched now r = (r', Some res) ->
    Forall2 (delivered METADATA_KEY nfields intervals now r) intervals res /\
    (forall k ms, (k, ms) ∈ intervals -> scores r' k = not_due now ms (scores r k)) /\
    (forall u, value r' (metadata_key METADATA_KEY u) =
       if bool_decide (u ∈ last_due intervals now r) then None else value r (metadata_key METADATA_KEY u)).
Proof.
  intros Hp Hn. split; [by apply process_total|]. intros r' res. apply process_spec.
  - intros u. by eapply configured_plain.
  - by eapply configured_nodup.
Qed.

(** Reinstating the reminders of one kind after [process] restores its sorted
    set exactly, and for the last kind also the metadata that processing had
    deleted. *)
Theorem reminders_reinstate sched now (r r' r'' : R) res k rs n :
  parseIntervals METADATA_KEY entries = Some intervals -> NoDup entries.*1 ->
  process METADATA_KEY nfields intervals sched now r = (r', Some res) -> (k, rs) ∈ res ->
  reinstate METADATA_KEY k rs r' = (r'', Some n) ->
  scores r'' k = scores r k /\
  ((0 < nfields)%nat -> fst <$> last intervals = Some k ->
   forall u, u ∈ uid <$> rs -> metadata_wf nfields (value r (metadata_key METADATA_KEY u)) ->
     value r'' (metadata_key METADATA_KEY u) = value r (metadata_key METADATA_KEY u)).
Proof.
  intros Hp Hn. apply reinstate_spec.
  - intros u. by eapply configured_plain.
  - by eapply configured_nodup.
Qed.

(** No reminder is sent twice: over any history of successful calls, a user
    gets a reminder of a kind at most as often as it was entered for it, by
    [create] or by reinstating a reminder that could not be sent, and a
    reminder still waiting has not been used up. *)
Theorem reminders_at_most_once rolloutRate evs (r r' : R) ds k u :
  parseIntervals METADATA_KEY entries = Some intervals -> NoDup entries.*1 ->
  history METADATA_KEY nfields intervals rolloutRate r evs r' ds -> k ∈ keys intervals ->
  (deliveries k u ds + waiting r' k u <= sum_list_with (entered k u) evs + waiting r k u)%nat.
Proof.
  intros Hp Hn. apply history_accounting.
  - intros u'. by eapply configured_plain.
  - by eapply configured_nodup.
Qed.
End Claims.

(** ** Witnesses *)

Definition sample_entries : list (string * Z) :=
  [("rolloutRate"%string, 1); ("firstInterval"%string, 1000); ("finalInterval"%string, 5000)].

Lemma sample_nodup : NoDup sample_entries.*1.
Proof. apply (bool_decide_eq_true_1 (NoDup sample_entries.*1)). vm_compute. reflexivity. Qed.

Definition sample_intervals : jsobj Z := [("first"%string, 1000); ("final"%string, 5000)].

Definition sample_redis : Server :=
  mkServer {["first"%string := {["alice"%string := 100; "bob"%string := 5500]};
             "final"%string := {["alice"%string := 100; "bob"%string := 5500]}]}
    {["metadata:alice"%string := ["flow"%string; "42"%string]]}.

Definition sample_run := process "metadata" 2 sample_intervals [1; 1; 0]%nat 6000 sample_redis.

Definition alice_final : list Reminder := [mkReminder "alice" 100 [Some "flow"; Some "42"]]%string.

Lemma reminders_process_exact_witness :
  Forall2 (delivered "metadata" 2 sample_intervals 6000 sample_redis) sample_intervals
    [("first", [mkReminder "alice" 100 [None; None]]); ("final", alice_final)]%string.
Proof.
  apply (reminders_process_exact "metadata" 2 sample_entries sample_intervals [1; 1; 0]%nat 6000 sample_redis
    eq_refl sample_nodup) with (r' := sample_run.1).
  vm_compute. reflexivity.
Defined.

Lemma reminders_reinstate_witness :
  value (reinstate "metadata" "final" alice_final sample_run.1).1 "metadata:alice" = Some ["flow"; "42"]%string.
Proof.
  refine (proj2 (reminders_reinstate "metadata" 2 sample_entries sample_intervals [1; 1; 0]%nat 6000 sample_redis
    sample_run.1 (reinstate "metadata" "final" alice_final sample_run.1).1 (default [] sample_run.2) "final" alice_final 1
    _ _ _ _ _) _ _ "alice"%string _ _).
  - reflexivity.
  - exact sample_nodup.
  - vm_compute. reflexivity.
  - apply (list_elem_of_lookup_2 _ 1%nat). vm_compute. reflexivity.
  - vm_compute. reflexivity.
  - lia.
  - reflexivity.
  - left.
  - split; reflexivity.
Defined.

Lemma reminders_at_most_once_witness :
  (deliveries "final" "alice" (default [] sample_run.2) + waiting sample_run.1 "final" "alice" <= 1)%nat.
Proof.
  refine (reminders_at_most_once "metadata" 2 sample_entries sample_intervals 1 [EProcess [1; 1; 0]%nat 6000] sample_redis
    sample_run.1 (default [] sample_run.2) "final" "alice" _ _ _ _).
  - reflexivity.
  - exact sample_nodup.
  - apply (H_snoc _ _ _ _ _ [] sample_redis [] (EProcess [1; 1; 0]%nat 6000)); [constructor|].
    constructor. vm_compute. reflexivity.
  - right. left.
Defined.
