(* ===== verification/Tokens.v ===== *)
(** * Tokens of the auth server (packages/fxa-auth-server/lib/tokens)

    Lifetimes, verification state and assurance level of session tokens, and
    the attempts left of a password-forgot token.  The ids and keys derived
    from a token are in [KeyBundle]. *)

From S2P Require Import Prelude AuthChecks.
Import AuthMethods.

#[local] Arguments or0 : simpl never.

(** ** token.js *)

(** [lifetime] is [None] for [Infinity]. *)
Record Token := mkToken { uid : option string; lifetime : option Z; createdAt : Z }.

(** [x || Infinity], [x || null]: 0 is falsy. *)
Definition truthy_z (z : option Z) : option Z := if bool_decide (z = Some 0) then None else z.

Definition new_Token (u : option string) (life created : option Z) : Token :=
  mkToken u (truthy_z life) (or0 created).

(** [asOf || Date.now()] *)
Definition as_of (asOf : option Z) (now : Z) : Z := num_or asOf now.

(** [Math.max(Math.ceil((lifetime - (asOf - createdAt)) / 1000), 0)], [None]
    for [Infinity]. *)
Definition ttl (t : Token) (asOf : option Z) (now : Z) : option Z :=
  life ← t.(lifetime); Some (Z.max (ceil1000 (life - (as_of asOf now - t.(createdAt)))) 0).

Definition expired (t : Token) (asOf : option Z) (now : Z) : bool := bool_decide (ttl t asOf now = Some 0).

(** ** session_token.js *)

Definition VERIFICATION_METHODS (n : Z) : option string :=
  match n with
  | 0 => Some "email" | 1 => Some "email-2fa" | 2 => Some "totp-2fa" | 3 => Some "recovery-code"
  | _ => None
  end%string.

Record Details := mkDetails {
  d_uid : option string;
  d_lifetime : option Z;
  d_createdAt : option Z;
  d_deviceId : option string;
  d_emailVerified : bool;
  d_authAt : option Z;
  d_mustVerify : bool;
  d_tokenVerificationId : option string;
  d_verificationMethod : option Z }.

Record SessionToken := mkSession {
  token : Token;
  deviceId : option string;
  emailVerified : bool;
  authAt : Z;
  mustVerify : bool;
  tokenVerificationId : option string;
  tokenVerified : bool;
  verificationMethod : option Z;
  verificationMethodValue : option string }.

Definition truthy_id (s : option string) : option string := if ostr_truthy s then s else None.

(** [details.verificationMethod || null]: 0, the value for "email", is falsy
    and becomes [null]. *)
Definition new_SessionToken (MAX_AGE_WITHOUT_DEVICE : Z) (d : Details) : SessionToken :=
  let base := new_Token d.(d_uid) d.(d_lifetime) d.(d_createdAt) in
  let base := if negb (MAX_AGE_WITHOUT_DEVICE =? 0) && negb (ostr_truthy d.(d_deviceId))
              then mkToken base.(uid) (Some MAX_AGE_WITHOUT_DEVICE) base.(createdAt) else base in
  let id := truthy_id d.(d_tokenVerificationId) in
  let method := truthy_z d.(d_verificationMethod) in
  mkSession base d.(d_deviceId) d.(d_emailVerified) (or0 d.(d_authAt)) d.(d_mustVerify) id
    (match id with Some _ => false | None => true end) method (method ≫= VERIFICATION_METHODS).

(** [Math.floor((this.authAt || this.createdAt) / 1000)] *)
Definition lastAuthAt (t : SessionToken) : Z :=
  (if t.(authAt) =? 0 then t.(token).(createdAt) else t.(authAt)) / 1000.

Definition state (t : SessionToken) : string := if t.(tokenVerified) then "verified" else "unverified".

(** [copyTokenState]: [fresh] is the new random verification id. *)
Definition copyTokenState (fresh : string) (t : SessionToken) : Details :=
  mkDetails t.(token).(uid) t.(token).(lifetime) (Some t.(token).(createdAt)) t.(deviceId) t.(emailVerified)
    (Some t.(authAt)) t.(mustVerify) (t.(tokenVerificationId) ≫= fun _ => Some fresh) t.(verificationMethod).

(** The getter [authenticationMethods]: [None] when it throws. *)
Definition authenticationMethods (t : SessionToken) : option (list string) :=
  match t.(verificationMethodValue) with
  | Some m => amr ← verificationMethodToAMR m; Some (set_of ["pwd"%string; amr])
  | None => Some (if t.(tokenVerified) then ["pwd"; "email"] else ["pwd"])%string
  end.

Definition authenticatorAssuranceLevel (t : SessionToken) : option Z :=
  maximumAssuranceLevel <$> authenticationMethods t.

(** ** password_forgot_token.js *)

Definition initial_tries : Z := 3.

(** [failAttempt]: the attempts left and whether the token is used up. *)
Definition failAttempt (tries : Z) : Z * bool := let tries := tries - 1 in (tries, tries <? 1).

(** ** Laws *)

Lemma expired_iff t now life :
  t.(lifetime) = Some life -> expired t None now = true <-> t.(createdAt) + life <= now.
Proof.
  intros Hl. unfold expired, ttl. rewrite Hl. simpl. rewrite bool_decide_eq_true.
  pose proof (ceil1000_sign (life - (now - createdAt t))) as Hc.
  split; [intros [= Hm]; lia|]. intros. f_equal. lia.
Qed.

(** A session without a device record expires exactly [MAX_AGE_WITHOUT_DEVICE]
    after its creation, and one with a device, created without a lifetime of
    its own, never does; the state [copyTokenState] hands out keeps both the
    age and whether the session is verified, with a verification id of its own
    when it is not. *)
Theorem session_lifetime max d now fresh :
  max <> 0 -> str_truthy fresh = true -> d.(d_lifetime) = None ->
  let t := new_SessionToken max d in
  let c := new_SessionToken max (copyTokenState fresh t) in
  (expired t.(token) None now = true <->
     ostr_truthy d.(d_deviceId) = false /\ or0 d.(d_createdAt) + max <= now) /\
  (expired c.(token) None now = expired t.(token) None now) /\
  lastAuthAt c = lastAuthAt t /\ c.(tokenVerified) = t.(tokenVerified) /\
  (c.(tokenVerified) = false -> c.(tokenVerificationId) = Some fresh).
Proof.
  intros Hmax Hfresh Hlife t c. subst t c. unfold new_SessionToken, copyTokenState, lastAuthAt; simpl.
  rewrite Hlife. assert ((max =? 0) = false) as Hm by lia. rewrite Hm. simpl.
  assert (forall z : option Z, or0 (Some (or0 z)) = or0 z) as Hor by (intros [[]|]; done).
  destruct (ostr_truthy (d_deviceId d)) eqn:Hd; simpl; rewrite ?Hor; (split_and!; [| |done|..]).
  all: try (destruct (truthy_id (d_tokenVerificationId d)); [|done]; simpl; unfold truthy_id; simpl; by rewrite Hfresh).
  - unfold expired, ttl; simpl. split; [done|by intros [? _]].
  - done.
  - rewrite expired_iff by done. simpl. naive_solver.
  - done.
Qed.

(** The assurance level of a session: 2 exactly when it was verified with a
    TOTP code or a recovery code, 1 otherwise; it is defined for every session
    token that can be built. *)
Lemma assurance_of max d :
  authenticatorAssuranceLevel (new_SessionToken max d) =
  Some (if bool_decide (d.(d_verificationMethod) ∈ [Some 2; Some 3]) then 2 else 1).
Proof.
  unfold authenticatorAssuranceLevel, authenticationMethods, new_SessionToken; simpl.
  destruct (d_verificationMethod d) as [m|]; simpl.
  - destruct (decide (m ∈ [0; 1; 2; 3])) as [Hm|Hm].
    + repeat (apply elem_of_cons in Hm as [->|Hm]; [by destruct (truthy_id (d_tokenVerificationId d)); vm_compute|]).
      by apply elem_of_nil in Hm.
    + rewrite bool_decide_eq_false_2 by set_solver.
      assert (truthy_z (Some m) = Some m) as -> by (unfold truthy_z; case_bool_decide; set_solver).
      assert (VERIFICATION_METHODS m = None) as Hv.
      { unfold VERIFICATION_METHODS. repeat (case_match; try done; try (exfalso; apply Hm; set_solver)). }
      simpl. rewrite Hv. by destruct (truthy_id (d_tokenVerificationId d)); vm_compute.
  - by destruct (truthy_id (d_tokenVerificationId d)); vm_compute.
Qed.

(** A password-forgot code can be tried three times: the token is used up at
    the third failed attempt and not before. *)
Lemma forgot_attempts :
  let '(t1, b1) := failAttempt initial_tries in let '(t2, b2) := failAttempt t1 in
  let '(_, b3) := failAttempt t2 in (b1, b2, b3) = (false, false, true).
Proof. reflexivity. Qed.

Definition sample_details : Details :=
  mkDetails (Some "u"%string) None (Some 1000) None true None true (Some "ff"%string) None.

Lemma session_lifetime_witness :
  expired (new_SessionToken 500 sample_details).(token) None 1500 = true.
Proof.
  refine (proj2 (proj1 (session_lifetime 500 sample_details 1500 "ee" _ _ _)) _); [lia|reflexivity..|].
  split; [reflexivity|vm_compute; discriminate].
Defined.
