(* ===== verification/SignIn.v ===== *)
(** * Signing in (packages/fxa-auth-server/lib/routes/utils/signin.js)

    Whether a caller may try a password at all, loading the account, checking
    the password and telling the customs server about failures, composed with
    the models of the customs client and the customs server; then what a new
    session still has to verify and which e-mail asks for it. *)

From S2P Require Import Prelude Store Limits Text Records UserRules Server ServerLaws CustomsClient Redis Reminders Tokens.
From S2P Require IpEmailRecord EmailRecord.

(** ** The account database

    Only what signing in asks of it.  Errors are their [errno]. *)

Record Account := mkAccount {
  a_uid : string;
  a_email : string;
  normalizedPrimary : string;        (* [primaryEmail.normalizedEmail] *)
  isVerified : bool;                 (* [primaryEmail.isVerified] *)
  emailCode : string;                (* [primaryEmail.emailCode] *)
  authSalt : string }.

Class AccountDB (D : Type) := {
  accountRecord : D -> string -> Account + Z;
  consumeUnblockCode : D -> string -> string -> D * (Z + Z);   (* creation time, or errno *)
  db_checkPassword : D -> string -> string -> bool + Z }.

(** lib/error.js *)
Definition ACCOUNT_UNKNOWN : Z := 102.
Definition INCORRECT_PASSWORD : Z := 103.
Definition THROTTLED : Z := 114.
Definition REQUEST_BLOCKED : Z := 125.
Definition ACCOUNT_RESET : Z := 126.
Definition INVALID_UNBLOCK_CODE : Z := 127.
Definition CANNOT_LOGIN_WITH_SECONDARY_EMAIL : Z := 142.
Definition BACKEND_SERVICE_FAILURE : Z := 203.

(** An error thrown: what the customs client threw, or any other by number. *)
Inductive Err := ECustoms (v : Verdict) | EErrno (errno : Z).

Definition errno (e : Err) : Z :=
  match e with
  | ECustoms (TooManyRequests _ _ _) => THROTTLED
  | ECustoms (RequestBlocked _) => REQUEST_BLOCKED
  | ECustoms _ => BACKEND_SERVICE_FAILURE
  | EErrno n => n
  end.

(** [e.output.payload.verificationMethod === 'email-captcha'] *)
Definition email_captcha (e : Err) : bool :=
  match e with
  | ECustoms (TooManyRequests _ _ u) | ECustoms (RequestBlocked u) => u
  | _ => false
  end.

Definition emit (event : string) (req : Request) : Request :=
  mkRequest req.(clientAddress) req.(userAgent) req.(payload) req.(isSuspiciousRequest) (req.(events) ++ [event]).

(** [emailsMatch] of fxa-shared *)
Definition emailsMatch (a b : string) : bool := String.eqb (toLowerCase a) (toLowerCase b).

Definition upper_char (a : Ascii.ascii) : Ascii.ascii :=
  let n := Ascii.nat_of_ascii a in
  if Nat.leb 97 n && Nat.leb n 122 then Ascii.ascii_of_nat (n - 32) else a.

Definition toUpperCase : string -> string := smap upper_char.

Section SignIn.
Context {M D : Type} `{Memcached M StoredObject} `{AccountDB D}.
Context (env : Env).
Context (ONES : string) (unblockCodeLifetime : Z) (forcedEmailAddresses : option (string -> bool)).

(** ** checkPassword, checkEmailAddress *)

Definition checkPassword (acc : Account) (verifyHash ip : string) (s : State (M := M)) (d : D)
    : State (M := M) * (bool + Err) :=
  if String.eqb acc.(authSalt) ONES then
    let '(s, ok) := client_flag env ip acc.(a_email) (Some ACCOUNT_RESET) s in
    (s, inr (if ok then EErrno ACCOUNT_RESET else ECustoms ServiceError))
  else
    match db_checkPassword d acc.(a_uid) verifyHash with
    | inr e => (s, inr (EErrno e))
    | inl true => (s, inl true)
    | inl false =>
        let '(s, ok) := client_flag env ip acc.(a_email) (Some INCORRECT_PASSWORD) s in
        (s, if ok then inl false else inr (ECustoms ServiceError))
    end.

Definition checkEmailAddress (acc : Account) (email : string) (originalLoginEmail : option string) : bool + Err :=
  let original := default email (when_truthy originalLoginEmail id) in
  if emailsMatch original acc.(normalizedPrimary) then inl true
  else inr (EErrno CANNOT_LOGIN_WITH_SECONDARY_EMAIL).

(** ** checkCustomsAndLoadAccount *)

(** The customs check of the inner [try]: the error it catches, if any. *)
Definition customs_check (email : string) (req : Request) (s : State (M := M))
    : State (M := M) * (Request * option Err) :=
  match forcedEmailAddresses with
  | Some test => if test email then (s, (req, Some (ECustoms (RequestBlocked true)))) else
      let '(s, (req, v)) := client_check env email "accountLogin" req s in
      (s, (req, match v with Pass => None | _ => Some (ECustoms v) end))
  | None =>
      let '(s, (req, v)) := client_check env email "accountLogin" req s in
      (s, (req, match v with Pass => None | _ => Some (ECustoms v) end))
  end.

(** Consuming an unblock code. *)
Definition use_unblock_code (email code : string) (req : Request) (d : D) : D * Request * (Account + Err) :=
  match accountRecord d email with
  | inr n => (d, req, inr (EErrno n))
  | inl acc =>
      match consumeUnblockCode d acc.(a_uid) (toUpperCase code) with
      | (d, inr n) =>
          (d, if n =? INVALID_UNBLOCK_CODE then emit "account.login.invalidUnblockCode" req else req,
           inr (EErrno n))
      | (d, inl createdAt) =>
          if env.(now) - createdAt >? unblockCodeLifetime
          then (d, emit "account.login.invalidUnblockCode" req, inr (EErrno INVALID_UNBLOCK_CODE))
          else (d, emit "account.login.confirmedUnblockCode" req, inl acc)
      end
  end.

(** The [catch] of the inner [try]: the account and whether it was unblocked. *)
Definition after_customs (email : string) (e : option Err) (req : Request) (d : D)
    : D * Request * (option Account + Err) :=
  match e with
  | None => (d, req, inl None)
  | Some e =>
      if negb ((errno e =? REQUEST_BLOCKED) || (errno e =? THROTTLED)) then (d, req, inr e)
      else
        let req := emit "account.login.blocked" req in
        match when_truthy req.(payload).(p_unblockCode) id with
        | Some code =>
            if email_captcha e then
              let '(d, req, r) := use_unblock_code email code req d in
              (d, req, match r with inl acc => inl (Some acc) | inr e' => inr e' end)
            else (d, req, inr e)
        | None => (d, req, inr e)
        end
  end.

Definition load_account (email : string) (originalLoginEmail : option string) (acc : option Account) (d : D)
    : (Account * bool) + Err :=
  match acc with
  | Some acc => inl (acc, true)
  | None =>
      match accountRecord d (default email (when_truthy originalLoginEmail id)) with
      | inl acc => inl (acc, false)
      | inr n => inr (EErrno n)
      end
  end.

(** The outer [catch]: flag with customs, hide behind the customs error. *)
Definition flagged (e : Err) : bool := (errno e =? INVALID_UNBLOCK_CODE) || (errno e =? ACCOUNT_UNKNOWN).

Definition rethrown (originalError : option Err) (e : Err) : Err :=
  match originalError with
  | Some e0 => if errno e =? INVALID_UNBLOCK_CODE then e else e0
  | None => e
  end.

Definition checkCustomsAndLoadAccount (email : string) (originalLoginEmail : option string) (req : Request)
    (s : State (M := M)) (d : D) : State (M := M) * D * Request * ((Account * bool) + Err) :=
  let '(s, (req, originalError)) := customs_check email req s in
  let '(d, req, r) := after_customs email originalError req d in
  let r := match r with
           | inl acc => load_account email originalLoginEmail acc d
           | inr e => inr e
           end in
  match r with
  | inl x => (s, d, req, inl x)
  | inr e =>
      let s := if flagged e then (client_flag env req.(clientAddress) email (Some (errno e)) s).1 else s in
      (s, d, req, inr (rethrown originalError e))
  end.

End SignIn.

(** ** What a new session has to verify *)

Record Status := mkStatus { verified : bool; st_method : option string; st_reason : option string }.

Definition getSessionVerificationStatus (t : SessionToken) (verificationMethod : option string) : Status :=
  if negb t.(emailVerified) then
    mkStatus false (Some (if bool_decide (verificationMethod = Some "email-otp") then "email-otp" else "email")%string)
      (Some "signup"%string)
  else if t.(mustVerify) && negb t.(tokenVerified) then
    mkStatus false (Some (default "email"%string (when_truthy verificationMethod id))) (Some "login"%string)
  else mkStatus true None None.

(** [cleanupReminders] *)
Definition cleanupReminders {R} `{Redis R} (intervals : jsobj Z) (response : Status) (acc : Account) (r : R)
    : R * bool :=
  if response.(verified) then
    let '(r, res) := Cad.delete_ intervals acc.(a_uid) r in (r, bool_decide (is_Some res))
  else (r, true).

(** ** sendSigninNotifications *)

Inductive mail :=
  | VerifyEmail (code : string)                 (* account verification link *)
  | VerifyLogin (code : option string)          (* session confirmation link *)
  | VerifyLoginCode.                            (* session confirmation code *)

Inductive effect :=
  | SetFlowCompleteSignal (signal : string)
  | StashSession
  | StashVerification (id : option string)
  | TooManySessions (n : Z)
  | Emit (event : string)
  | NotifyAttachedServices
  | Send (m : mail)
  | SecurityEvent.

Definition MAX_ACTIVE_SESSIONS : Z := 200.

Definition mustVerifySession (t : SessionToken) : bool := t.(mustVerify) && negb t.(tokenVerified).

Definition flowCompleteSignal (service : option string) (t : SessionToken) : string :=
  if bool_decide (service = Some "sync"%string) then "account.signed"
  else if mustVerifySession t then "account.confirmed" else "account.login".

(** [sendVerifyAccountEmail], [sendVerifySessionEmail] *)
Definition account_mail (acc : Account) (t : SessionToken) (verificationMethod : option string) : mail :=
  if bool_decide (verificationMethod = Some "email-otp"%string) then VerifyLoginCode
  else VerifyEmail (default acc.(emailCode) t.(tokenVerificationId)).

Definition session_mail (t : SessionToken) (verificationMethod : option string) : option mail :=
  if bool_decide (verificationMethod ∈ [Some "email-2fa"; Some "email-otp"]%string) then Some VerifyLoginCode
  else if bool_decide (verificationMethod ∈ [Some "email-captcha"; Some "totp-2fa"]%string) then None
  else Some (VerifyLogin t.(tokenVerificationId)).

Definition signin_mail (acc : Account) (t : SessionToken) (verificationMethod : option string) : option mail :=
  if negb acc.(isVerified) then Some (account_mail acc t verificationMethod)
  else if mustVerifySession t then session_mail t verificationMethod
  else None.

(** The event emitted once a mail is sent. *)
Definition mail_event (m : mail) : string :=
  match m with
  | VerifyEmail _ => "email.verification.sent"
  | VerifyLogin _ => "email.confirmation.sent"
  | VerifyLoginCode => "email.tokencode.sent"
  end.

Definition send_mail (mailer : mail -> bool) (m : mail) : list effect * bool :=
  if mailer m then ([Send m; Emit (mail_event m)], true) else ([Send m], false).

(** The effects in order, and whether the promise resolves.  [sessions] is the
    number of sessions of the account, [None] when the database fails. *)
Definition sendSigninNotifications (service reason : option string) (acc : Account) (t : SessionToken)
    (verificationMethod : option string) (sessions : option Z) (mailer : mail -> bool) : list effect * bool :=
  let stash := SetFlowCompleteSignal (flowCompleteSignal service t) :: StashSession ::
    (if mustVerifySession t then [StashVerification t.(tokenVerificationId)] else []) in
  match sessions with
  | None => (stash, false)
  | Some n =>
      let login := (if n >? MAX_ACTIVE_SESSIONS then [TooManySessions n] else []) ++ [Emit "account.login"] ++
        (if bool_decide (reason = Some "signin"%string) then [NotifyAttachedServices] else []) in
      let '(mails, ok) := match signin_mail acc t verificationMethod with
                          | Some m => send_mail mailer m
                          | None => ([], true)
                          end in
      (stash ++ login ++ mails ++ (if ok then [SecurityEvent] else []), ok)
  end.

(** * Laws *)

(** ** Which mail asks for verification *)

(** The e-mail sent at sign-in is the one the reported status announces: none
    for a verified session; for a new account the confirmation mail of the
    announced method; for a session to confirm, a code for the code methods,
    none for the methods that use another channel, and a link otherwise. *)
Theorem signin_mail_matches_status acc t method :
  acc.(isVerified) = t.(emailVerified) ->
  let st := getSessionVerificationStatus t method in
  match st.(st_reason) with
  | None => st.(verified) = true /\ signin_mail acc t method = None
  | Some reason => st.(verified) = false /\ exists m, st.(st_method) = Some m /\
      if String.eqb reason "signup" then
        signin_mail acc t method = Some (if String.eqb m "email-otp" then VerifyLoginCode
                                         else VerifyEmail (default acc.(emailCode) t.(tokenVerificationId)))
      else signin_mail acc t method =
        if bool_decide (m ∈ ["email-2fa"; "email-otp"]%string) then Some VerifyLoginCode
        else if bool_decide (m ∈ ["email-captcha"; "totp-2fa"]%string) then None
        else Some (VerifyLogin t.(tokenVerificationId))
  end.
Proof.
  intros Hv st. subst st. unfold getSessionVerificationStatus, signin_mail, account_mail. rewrite Hv.
  destruct (emailVerified t); simpl.
  - unfold mustVerifySession. destruct (mustVerify t && negb (tokenVerified t)); simpl; [|done].
    split; [done|]. eexists. split; [done|]. unfold session_mail.
    destruct method as [m|]; [|by rewrite !bool_decide_eq_false_2 by set_solver].
    unfold when_truthy, str_truthy. destruct (String.eqb_spec m "") as [->|Hne]; simpl.
    + done.
    + rewrite (bool_decide_ext (Some m ∈ _) (m ∈ ["email-2fa"; "email-otp"]%string)) by set_solver.
      by rewrite (bool_decide_ext (Some m ∈ _) (m ∈ ["email-captcha"; "totp-2fa"]%string)) by set_solver.
  - split; [done|]. eexists. split; [done|]. simpl. by case_bool_decide.
Qed.

Section Laws.
Context {M D : Type} `{Memcached M StoredObject} `{AccountDB D}.
Context (env : Env) (unblockCodeLifetime : Z) (forced : option (string -> bool)).

Abbreviation gate := (checkCustomsAndLoadAccount (M := M) (D := D) env unblockCodeLifetime forced).
Abbreviation customs := (customs_check (M := M) env forced).

(** The customs error can be answered with an unblock code. *)
Definition customs_refusal (e : Err) : bool := (errno e =? REQUEST_BLOCKED) || (errno e =? THROTTLED).

Lemma handle_reply_payload t r req : (handle_reply t r req).1.(payload) = req.(payload).
Proof.
  unfold handle_reply. destruct (of_reply r) as [x|]; [|done]. unfold handleCustomsResult.
  destruct (default false (suspect x)), (block x); done.
Qed.

Lemma customs_payload email req s : (customs email req s).2.1.(payload) = req.(payload).
Proof.
  assert ((client_check env email "accountLogin" req s).2.1.(payload) = req.(payload)) as Hc.
  { unfold client_check. destruct (Server.check _ _ s) as [s' r]. apply handle_reply_payload. }
  unfold customs_check. destruct forced as [test|]; [destruct (test email); [done|]|];
    destruct (client_check env email "accountLogin" req s) as [s' [req' v]]; done.
Qed.

(** ** The gate *)

Definition code_of (req : Request) : option string := when_truthy req.(payload).(p_unblockCode) id.

(** A code that unblocks the account: known, and not too old. *)
Definition unblocks (d : D) (email code : string) (acc : Account) : Prop :=
  accountRecord d email = inl acc /\ exists d' created,
    consumeUnblockCode d acc.(a_uid) (toUpperCase code) = (d', inl created) /\
    env.(now) - created <= unblockCodeLifetime.

Lemma use_unblock_code_spec email code req d acc :
  (use_unblock_code env unblockCodeLifetime email code req d).2 = inl acc <-> unblocks d email code acc.
Proof.
  unfold use_unblock_code, unblocks. destruct (accountRecord d email) as [a|n]; simpl; [|naive_solver].
  destruct (consumeUnblockCode d (a_uid a) (toUpperCase code)) as [d' [c|n]] eqn:Hc; simpl.
  - destruct (Z.gtb_spec (env.(now) - c) unblockCodeLifetime); simpl; split; try done.
    + intros [[= <-] (d2 & c2 & Hc2 & Hl)]. rewrite Hc in Hc2. simplify_eq. lia.
    + intros [= <-]. eauto 10.
    + by intros [[= <-] _].
  - split; [done|]. intros [[= <-] (d2 & c2 & Hc2 & _)]. rewrite Hc in Hc2. by simplify_eq.
Qed.

(** [C23] Signing in gets past the gate exactly when the customs server lets the
    request through and the account exists, or when it refuses in a way that
    e-mail confirmation can lift and the request carries an unblock code of
    the account that is valid and not too old. *)
Theorem signin_gate_exact email original req s d acc unblocked :
  (gate email original req s d).2 = inl (acc, unblocked) <->
  match (customs email req s).2.2 with
  | None => unblocked = false /\ accountRecord d (default email (when_truthy original id)) = inl acc
  | Some e => unblocked = true /\ customs_refusal e = true /\ email_captcha e = true /\
      exists code, code_of req = Some code /\ unblocks d email code acc
  end.
Proof.
  unfold checkCustomsAndLoadAccount. pose proof (customs_payload email req s) as Hp.
  destruct (customs email req s) as [s1 [req1 oe]]. simpl in *.
  destruct oe as [e|]; simpl.
  - unfold code_of. rewrite <- Hp. unfold customs_refusal.
    destruct ((errno e =? REQUEST_BLOCKED) || (errno e =? THROTTLED)); simpl; [|split; [by case_match|naive_solver]].
    destruct (when_truthy (p_unblockCode (payload req1)) id) as [code|]; simpl; [|split; [by case_match|naive_solver]].
    destruct (email_captcha e); simpl; [|split; [by case_match|naive_solver]].
    pose proof (use_unblock_code_spec email code (emit "account.login.blocked" req1) d) as Hu.
    destruct (use_unblock_code _ _ email code _ d) as [[d1 req2] [a|e']]; simpl in *.
    + split; [intros [= <- <-]; split_and!; [done..|]; exists code; split; [done|by apply Hu]|].
      intros (-> & _ & _ & c & [= <-] & Hub). apply Hu in Hub. by simplify_eq.
    + split; [done|]. intros (_ & _ & _ & c & [= <-] & Hub). apply Hu in Hub. done.
  - destruct (accountRecord d _) as [a|n]; simpl; [|split; [done|naive_solver]].
    split; [by intros [= <- <-]|]. intros [-> [= ->]]. done.
Qed.

Lemma refusal_hides email original req s e :
  (customs email req s).2.2 = Some e -> code_of req = None \/ email_captcha e = false ->
  exists s' req', forall d, gate email original req s d = (s', d, req', inr e).
Proof.
  intros He Hcode. unfold checkCustomsAndLoadAccount. pose proof (customs_payload email req s) as Hp.
  destruct (customs email req s) as [s1 [req1 oe]]. simpl in *. subst oe. unfold code_of in Hcode. rewrite <- Hp in Hcode.
  set (req2 := if negb ((errno e =? REQUEST_BLOCKED) || (errno e =? THROTTLED)) then req1
               else emit "account.login.blocked" req1).
  assert (forall d : D, after_customs env unblockCodeLifetime email (Some e) req1 d = (d, req2, inr e)) as Hafter.
  { intros d. simpl. subst req2. destruct (negb _); [done|]. simpl.
    destruct (when_truthy (p_unblockCode (payload req1)) id) as [code|]; [|done]. by destruct Hcode as [?| ->]. }
  exists (if flagged e then (client_flag env (clientAddress req2) email (Some (errno e)) s1).1 else s1), req2.
  intros d. rewrite Hafter. unfold rethrown. by destruct (errno e =? INVALID_UNBLOCK_CODE).
Qed.

(** A refused caller without an unblock code learns nothing about accounts:
    the answer is the customs error, whatever the database holds, and the
    database is left alone. *)
Theorem signin_refusal_hides_account email original req s e :
  (customs email req s).2.2 = Some e -> code_of req = None \/ email_captcha e = false ->
  exists s' req', forall d, gate email original req s d = (s', d, req', inr e).
Proof. apply refusal_hides. Qed.

(** A refused caller that does present an unblock code can tell whether an
    account exists: with an unknown account the customs error is thrown again,
    with a known one a wrong code is reported as such. *)
Theorem unblock_code_reveals_account email original req s e code d1 d2 d2' acc :
  (customs email req s).2.2 = Some e -> customs_refusal e = true -> email_captcha e = true ->
  code_of req = Some code ->
  accountRecord d1 email = inr ACCOUNT_UNKNOWN ->
  accountRecord d2 email = inl acc ->
  consumeUnblockCode d2 acc.(a_uid) (toUpperCase code) = (d2', inr INVALID_UNBLOCK_CODE) ->
  (gate email original req s d1).2 = inr e /\
  (gate email original req s d2).2 = inr (EErrno INVALID_UNBLOCK_CODE) /\
  e <> EErrno INVALID_UNBLOCK_CODE.
Proof.
  intros He Hr Hc Hcode H1 H2 H2'. unfold checkCustomsAndLoadAccount. pose proof (customs_payload email req s) as Hp.
  destruct (customs email req s) as [s1 [req1 oe]]. simpl in *. subst oe. unfold code_of in Hcode. rewrite <- Hp in Hcode.
  unfold customs_refusal in Hr. simpl. rewrite Hr. simpl. rewrite Hcode, Hc. unfold use_unblock_code.
  rewrite H1, H2, H2'. simpl. split_and!; [done|done|]. by intros ->.
Qed.

End Laws.

Section EndToEnd.
Context {M : Type} `{Memcached M StoredObject} (env : Env) (forced : option (string -> bool)).

Lemma blocked_refuses email req (s : State (M := M)) r :
  (Server.check env (mkCheck (Some email) (Some req.(clientAddress)) (Some "accountLogin"%string)
     req.(userAgent) req.(payload)) s).2 = Checked r -> r_block r = true ->
  exists e, (customs_check env forced email req s).2.2 = Some e /\ customs_refusal e = true.
Proof.
  intros Hc Hb. unfold customs_check.
  assert (exists v, (client_check env email "accountLogin" req s).2.2 = v /\ customs_refusal (ECustoms v) = true /\ v <> Pass)
    as (v & Hv & Hr & Hp).
  { unfold client_check. destruct (Server.check env _ s) as [s' reply]. simpl in Hc. subst reply.
    unfold handle_reply, of_reply, handleCustomsResult. cbn [block retryAfter unblock suspect].
    rewrite Hb. eexists. split; [reflexivity|]. cbn [snd]. by destr_if. }
  destruct forced as [test|]; [destruct (test email); [by eexists|]|];
    destruct (client_check env email "accountLogin" req s) as [s' [req' v']]; simpl in Hv; subst v';
    exists (ECustoms v); destruct v; done.
Qed.

End EndToEnd.

(** ** Witnesses *)

(** A database with single-use unblock codes; one password hash is right. *)
Record SampleDB := mkSampleDB { accounts : gmap string Account; codes : gmap string Z }.

#[export] Instance sample_accountdb : AccountDB SampleDB := {
  accountRecord d email := match d.(accounts) !! email with Some a => inl a | None => inr ACCOUNT_UNKNOWN end;
  consumeUnblockCode d u code :=
    match d.(codes) !! (u ++ code)%string with
    | Some t => (mkSampleDB d.(accounts) (delete (u ++ code)%string d.(codes)), inl t)
    | None => (d, inr INVALID_UNBLOCK_CODE)
    end;
  db_checkPassword d u hash := inl (String.eqb hash "right") }.

Definition alice : Account := mkAccount "alice" "a@x.org" "a@x.org" true "c0de" "salt".

Definition sample_db : SampleDB := mkSampleDB {["a@x.org"%string := alice]} {["aliceABC"%string := 1000]}.

Definition sample_session : SessionToken := new_SessionToken 500 sample_details.

Lemma signin_mail_matches_status_witness :
  signin_mail alice sample_session None = Some (VerifyLogin (Some "ff"%string)).
Proof.
  destruct (signin_mail_matches_status alice sample_session None eq_refl) as (_ & m & [= <-] & Hm). exact Hm.
Defined.

(** Three failures, then a request without and one with a wrong code. *)
Definition request_with (code : option string) : Request :=
  mkRequest "1.2.3.4" None (mkPayload None code (Some "flow"%string) None) false [].

Definition guessed_here : State (M := mem) :=
  fold_left (fun s t => (client_flag (sample_env t) "1.2.3.4" "a@x.org" (Some INCORRECT_PASSWORD) s).1) [1000; 2000; 3000] empty.

Definition refusal : Err :=
  default (EErrno 0) (customs_check (sample_env 4000) None "a@x.org" (request_with None) guessed_here).2.2.

Lemma signin_refusal_hides_account_witness :
  exists s' req', forall d : SampleDB,
    checkCustomsAndLoadAccount (sample_env 4000) 3600000 None "a@x.org" None (request_with None) guessed_here d =
    (s', d, req', inr refusal).
Proof.
  apply (signin_refusal_hides_account (sample_env 4000) 3600000 None "a@x.org" None (request_with None) guessed_here refusal);
    [vm_compute; reflexivity|left; reflexivity].
Defined.

Lemma unblock_code_reveals_account_witness :
  (checkCustomsAndLoadAccount (sample_env 4000) 3600000 (Some (fun _ => true)) "a@x.org" None
     (request_with (Some "zzz"%string)) empty (mkSampleDB ∅ ∅)).2 = inr (ECustoms (RequestBlocked true)) /\
  (checkCustomsAndLoadAccount (sample_env 4000) 3600000 (Some (fun _ => true)) "a@x.org" None
     (request_with (Some "zzz"%string)) empty sample_db).2 = inr (EErrno INVALID_UNBLOCK_CODE).
Proof.
  destruct (unblock_code_reveals_account (sample_env 4000) 3600000 (Some (fun _ => true)) "a@x.org" None
    (request_with (Some "zzz"%string)) empty (ECustoms (RequestBlocked true)) "zzz" (mkSampleDB ∅ ∅) sample_db sample_db alice)
    as (H1 & H2 & _); [reflexivity..|]. split; [exact H1|exact H2].
Defined.
