(* ===== verification/TokenEndpoint.v ===== *)
(** * The OAuth token endpoint (packages/fxa-auth-server/lib/routes/oauth/token.js,
      lib/oauth/client.js, lib/oauth/token.js)

    Client authentication, the three kinds of grant a client can exchange for
    tokens, and the verification of access tokens.  The OAuth database, the
    hashes and the verification of assertions and JWTs are parameters. *)

From Stdlib Require Import Ascii.
From S2P Require Import Prelude Text ScopeValues Scopes Grant.

#[local] Open Scope string_scope.
#[local] Open Scope Z_scope.

(** ** Data *)

Record OAuthClient := mkOAuthClient {
  base : Client;
  canGrant : bool;
  publicClient : bool;
  hashedSecret : string;
  hashedSecretPrevious : option string;
  redirectUri : string }.

(** An authorization code: the grant it stands for and how it may be claimed. *)
Record CodeObj := mkCode {
  k_grant : Grant;
  k_createdAt : Z;
  k_codeChallenge : option string;
  k_codeChallengeMethod : option string }.

(** The OAuth database; [None] is a rejected promise. *)
Class OAuthDB (D : Type) := {
  getClient : D -> string -> option (option OAuthClient);
  getCode : D -> string -> option (option CodeObj);
  removeCode : D -> string -> D * bool;
  getRefreshToken : D -> string -> option (option Grant) }.

(** Documented behaviour: a removed code is gone, the others stay. *)
Class OAuthDBLaws (D : Type) `{OAuthDB D} : Prop := {
  getCode_removed d c d' : removeCode d c = (d', true) -> getCode d' c = Some None;
  getCode_other d c c' d' ok : removeCode d c = (d', ok) -> c' <> c -> getCode d' c' = getCode d c' }.

Inductive OAuthErr :=
  | InvalidRequestParameter (key : string)
  | UnknownClient
  | IncorrectSecret
  | NotPublicClient
  | UnknownCode
  | MismatchCode
  | ExpiredCode (expiresAt : Z)
  | MismatchCodeChallenge
  | MissingPkceParameters
  | InvalidToken
  | RefusedScopes (l : list string)
  | InvalidGrantType
  | DisabledClient
  | GrantRefused (o : Outcome)          (* thrown by validateRequestedGrant *)
  | InternalError.                      (* any other exception *)

(** The payload, one constructor per [grant_type]. *)
Inductive GrantParams :=
  | AuthorizationCode (code : string) (code_verifier : option string)
  | RefreshToken (refresh_token : string) (scope : option ScopeSet)
  | FxaCredentials (assertion : string) (requested : RequestedGrant).

Record Params := mkParams {
  p_client_id : option string;
  p_client_secret : option string;
  p_grant : GrantParams;
  p_ttl : option Z;
  p_resource : option string }.

(** The decoded Basic credentials of the [Authorization] header: the inner
    [None] is a header that does not match [BASIC_AUTH_HEADER]. *)
Record Headers := mkHeaders { authorization : option (option string) }.

(** [crypto.timingSafeEqual] throws on buffers of different lengths. *)
Definition timingSafeEqual (a b : string) : option bool :=
  if Nat.eqb (String.length a) (String.length b) then Some (String.eqb a b) else None.

(** The values that must hold for an exchange to go on. *)
Definition truthy_param (s : option string) : option string := if ostr_truthy s then s else None.

Section Endpoint.
Context {D : Type} `{OAuthDB D}.
Context (href_of : string -> option string) (getScope : string -> option ScopeRow).
Context (valid_clientId valid_clientSecret : string -> bool).     (* the Joi validators *)
Context (hash_secret hash_token pkceHash : string -> string).
Context (verifyAssertion : string -> option Claims).
Context (disabledClients : list string) (codeLifetime MAX_TTL_S now : Z).

Abbreviation imp := (getImplicantValues href_of).

(** ** client.js *)

Definition getClientCredentials (h : Headers) (p : Params) : (option string * option string) + OAuthErr :=
  let id := p.(p_client_id) in
  let secret := truthy_param p.(p_client_secret) in
  match h.(authorization) with
  | None => inl (id, secret)
  | Some None => inr (InvalidRequestParameter "authorization")
  | Some (Some credentials) =>
      if ostr_truthy id || ostr_truthy secret then inr (InvalidRequestParameter "authorization")
      else
        match split_on ":"%char credentials with
        | [clientId; clientSecret] =>
            if valid_clientId clientId && valid_clientSecret clientSecret
            then inl (Some clientId, Some clientSecret)
            else inr (InvalidRequestParameter "authorization")
        | _ => inr (InvalidRequestParameter "authorization")   (* the secret is required *)
        end
  end.

Definition getClientById (d : D) (id : option string) : OAuthClient + OAuthErr :=
  match id with
  | None => inr InternalError                  (* [buf(undefined)] throws *)
  | Some id =>
      match getClient d id with
      | None => inr InternalError
      | Some None => inr UnknownClient
      | Some (Some c) => inl c
      end
  end.

(** The comparison with both stored secrets. *)
Definition check_secret (c : OAuthClient) (secret : string) : OAuthClient + OAuthErr :=
  let submitted := hash_secret secret in
  match timingSafeEqual submitted c.(hashedSecret) with
  | None => inr InternalError
  | Some true => inl c
  | Some false =>
      match c.(hashedSecretPrevious) with
      | None => inr IncorrectSecret
      | Some previous =>
          match timingSafeEqual submitted previous with
          | None => inr InternalError
          | Some true => inl c
          | Some false => inr IncorrectSecret
          end
      end
  end.

Definition authenticateClient (d : D) (h : Headers) (p : Params) : OAuthClient + OAuthErr :=
  match getClientCredentials h p with
  | inr e => inr e
  | inl (id, secret) =>
      match getClientById d id with
      | inr e => inr e
      | inl c =>
          match c.(publicClient), secret with
          | true, Some _ => inr (InvalidRequestParameter "client_secret")
          | true, None => inl c
          | false, None => inr (InvalidRequestParameter "client_secret")
          | false, Some secret => check_secret c secret
          end
      end
  end.

(** ** Authorization codes *)

Definition clientId (c : OAuthClient) : string := c.(base).(client_id).

(** The PKCE part of the checks: [None] when they pass. *)
Definition check_pkce (k : CodeObj) (pkceHashValue : option string) : option OAuthErr :=
  match truthy_param k.(k_codeChallenge) with
  | Some challenge =>
      if negb (bool_decide (k.(k_codeChallengeMethod) = Some "S256")) then Some MismatchCodeChallenge
      else
        match pkceHashValue with
        | None => Some MissingPkceParameters
        | Some v =>
            match timingSafeEqual challenge v with
            | None => Some InternalError
            | Some true => None
            | Some false => Some MismatchCodeChallenge
            end
        end
  | None => match pkceHashValue with Some _ => Some MismatchCodeChallenge | None => None end
  end.

(** Everything [validateAuthorizationCodeGrant] does before it removes the
    code. *)
Definition checkCode (c : OAuthClient) (code : string) (code_verifier : option string) (d : D) : Grant + OAuthErr :=
  let verifier := truthy_param code_verifier in
  if bool_decide (is_Some verifier) && negb c.(publicClient) then inr NotPublicClient
  else
    match getCode d code with
    | None => inr InternalError
    | Some None => inr UnknownCode
    | Some (Some k) =>
        match timingSafeEqual k.(k_grant).(g_clientId) (clientId c) with
        | None => inr InternalError
        | Some false => inr MismatchCode
        | Some true =>
            let expiresAt := k.(k_createdAt) + codeLifetime in
            if now >? expiresAt then inr (ExpiredCode expiresAt)
            else match check_pkce k (pkceHash <$> verifier) with
                 | Some e => inr e
                 | None => inl k.(k_grant)
                 end
        end
    end.

Definition validateAuthorizationCodeGrant (c : OAuthClient) (code : string) (code_verifier : option string) (d : D)
    : D * (Grant + OAuthErr) :=
  match checkCode c code code_verifier d with
  | inr e => (d, inr e)
  | inl g => let '(d, ok) := removeCode d code in (d, if ok then inl g else inr InternalError)
  end.

(** ** Refresh tokens *)

Definition EXCLUDED : list string := ["openid"; "https://identity.mozilla.com/tokens/session"].

Definition SCOPES_TO_EXCLUDE_FROM_REFRESH_TOKEN_GRANTS : ScopeSet := default empty_set (fromArray imp EXCLUDED).

Definition with_scope (g : Grant) (scope : ScopeSet) : Grant := {|
  g_clientId := g.(g_clientId); g_userId := g.(g_userId); g_email := g.(g_email); g_scope := scope;
  g_scopeConfig := g.(g_scopeConfig); g_sessionTokenId := g.(g_sessionTokenId); g_offline := g.(g_offline);
  g_authAt := g.(g_authAt); g_amr := g.(g_amr); g_aal := g.(g_aal); g_keysJwe := g.(g_keysJwe) |}.

(** [ScopeSet.fromArray(client.allowedScopes ? client.allowedScopes.split(' ') : [])] *)
Definition client_scopes (c : OAuthClient) : option ScopeSet :=
  fromArray imp (match truthy_param c.(base).(allowedScopes) with Some s => split_on " "%char s | None => [] end).

(** Whether the requested scopes may replace those of the token: [inl] is the
    scope set to go on with. *)
Definition refresh_scope (c : OAuthClient) (stored : ScopeSet) (requested : option ScopeSet) : ScopeSet + OAuthErr :=
  match requested with
  | None => inl stored
  | Some want =>
      if contains stored want then inl want
      else
        match allowed ← client_scopes c; union allowed stored with
        | None => inr InternalError
        | Some allowed =>
            if negb c.(base).(trusted) || negb (contains allowed want) then
              match difference want stored with
              | Some extra => inr (RefusedScopes (getScopeValues extra))
              | None => inr InternalError
              end
            else inl want
        end
  end.

Definition validateRefreshTokenGrant (c : OAuthClient) (refresh_token : string) (requested : option ScopeSet) (d : D)
    : Grant + OAuthErr :=
  match getRefreshToken d (hash_token refresh_token) with
  | None => inr InternalError
  | Some None => inr InvalidToken
  | Some (Some tok) =>
      match timingSafeEqual tok.(g_clientId) (clientId c) with
      | None => inr InternalError
      | Some false => inr InvalidToken
      | Some true =>
          match refresh_scope c tok.(g_scope) requested with
          | inr e => inr e
          | inl scope =>
              match difference scope SCOPES_TO_EXCLUDE_FROM_REFRESH_TOKEN_GRANTS with
              | None => inr InternalError
              | Some scope =>
                  if tok.(g_offline) then inr (InvalidRequestParameter "") else inl (with_scope tok scope)
              end
          end
      end
  end.

(** ** Direct grants *)

Definition validateAssertionGrant (c : OAuthClient) (assertion : string) (requested : RequestedGrant)
    : Grant + OAuthErr :=
  if negb c.(canGrant) then inr InvalidGrantType
  else if negb c.(publicClient) then inr NotPublicClient
  else
    match verifyAssertion assertion with
    | None => inr InternalError
    | Some claims =>
        match validateRequestedGrant href_of getScope claims c.(base) requested with
        | Granted g => inl g
        | o => inr (GrantRefused o)
        end
    end.

(** ** The endpoint *)

Definition validateGrantParameters (c : OAuthClient) (p : Params) (d : D) : D * ((Grant * Extra) + OAuthErr) :=
  let '(d, r) := match p.(p_grant) with
                 | AuthorizationCode code verifier => validateAuthorizationCodeGrant c code verifier d
                 | RefreshToken tok scope => (d, validateRefreshTokenGrant c tok scope d)
                 | FxaCredentials assertion requested => (d, validateAssertionGrant c assertion requested)
                 end in
  (d, match r with
      | inl g => inl (g, mkExtra ((fun t => Z.min t MAX_TTL_S) <$> p.(p_ttl)) p.(p_resource))
      | inr e => inr e
      end).

Definition is_code_grant (p : Params) : bool := match p.(p_grant) with AuthorizationCode _ _ => true | _ => false end.

(** [tokenHandler]; [issue] is [generateTokens] of grant.js. *)
Definition tokenHandler (issue : Grant -> Extra -> option Tokens) (h : Headers) (p : Params) (d : D)
    : D * (Tokens + OAuthErr) :=
  match authenticateClient d h p with
  | inr e => (d, inr e)
  | inl c =>
      if bool_decide (clientId c ∈ disabledClients) && negb (is_code_grant p) then (d, inr DisabledClient)
      else
        let '(d, r) := validateGrantParameters c p d in
        (d, match r with
            | inr e => inr e
            | inl (g, x) => match issue g x with Some t => inl t | None => inr InternalError end
            end)
  end.
End Endpoint.

(** ** lib/oauth/token.js: verifying an access token *)

Section Verify.
(** A token of the database, and the claims of a valid JWT access token. *)
Record AccessToken := mkAccessToken {
  at_user : string; at_client : string; at_scopes : ScopeSet; expiresAt : Z; profileChangedAt : option Z }.

Record JwtClaims := mkJwtClaims {
  j_sub : string; j_client : string; j_scope : string; j_iat : Z; j_exp : Z; j_profileChangedAt : option Z }.

Record TokenInfo := mkTokenInfo {
  i_user : string; i_client : string; i_scope : ScopeSet; i_profileChangedAt : option Z }.

Inductive VerifyErr := VInvalidToken | VExpiredToken (at_ : Z) | VScopeError.

Context (href_of : string -> option string).
(** [is_jwt]: the Joi validator; [verifyJWT] is [JWTAccessToken.verify];
    [lookup] finds the token stored for an access token ([getTokenId] and
    [db.getAccessToken]). *)
Context (is_jwt : string -> bool) (verifyJWT : string -> option JwtClaims) (lookup_token : string -> option AccessToken).
Context (SHORT_ACCESS_TOKEN_TTL_IN_MS accessTokenExpiryEpoch now : Z) (pocketIds : list string).

Definition verify_stored (accessToken : string) : TokenInfo + VerifyErr :=
  match lookup_token accessToken with
  | None => inr VInvalidToken
  | Some t =>
      let expired := (t.(expiresAt) <? now) && (t.(expiresAt) >=? accessTokenExpiryEpoch) in
      let isPocket := bool_decide (t.(at_client) ∈ pocketIds) in
      if expired && negb isPocket then inr (VExpiredToken t.(expiresAt))
      else inl (mkTokenInfo t.(at_user) t.(at_client) t.(at_scopes) (truthy_num t.(profileChangedAt)))
  end.

Definition verify (accessToken : string) : TokenInfo + VerifyErr :=
  if is_jwt accessToken then
    match verifyJWT accessToken with
    | None => inr VInvalidToken
    | Some t =>
        if (t.(j_exp) - t.(j_iat)) * 1000 <=? SHORT_ACCESS_TOKEN_TTL_IN_MS then
          match fromString (getImplicantValues href_of) t.(j_scope) with
          | None => inr VScopeError
          | Some scope => inl (mkTokenInfo t.(j_sub) t.(j_client) scope t.(j_profileChangedAt))
          end
        else verify_stored accessToken
    end
  else verify_stored accessToken.
End Verify.

(** * Laws *)

Lemma timingSafeEqual_true a b : timingSafeEqual a b = Some true <-> a = b.
Proof.
  unfold timingSafeEqual. split.
  - destruct (Nat.eqb _ _); [|done]. intros [= He]. by apply String.eqb_eq.
  - intros ->. by rewrite Nat.eqb_refl, String.eqb_refl.
Qed.

Section Codes.
Context {D : Type} `{OAuthDBLaws D}.
Context (pkceHash : string -> string) (codeLifetime now : Z).

Abbreviation claim := (validateAuthorizationCodeGrant (D := D) pkceHash codeLifetime now).
Abbreviation checkc := (checkCode (D := D) pkceHash codeLifetime now).

(** The client may claim the code. *)
Definition claimable (c : OAuthClient) (code_verifier : option string) (k : CodeObj) : Prop :=
  k.(k_grant).(g_clientId) = clientId c /\ now <= k.(k_createdAt) + codeLifetime /\
  match truthy_param k.(k_codeChallenge), truthy_param code_verifier with
  | Some challenge, Some v => k.(k_codeChallengeMethod) = Some "S256" /\ c.(publicClient) = true /\ pkceHash v = challenge
  | None, None => True
  | _, _ => False
  end.

Lemma check_pkce_spec k v :
  check_pkce k (pkceHash <$> v) = None <->
  match truthy_param k.(k_codeChallenge), v with
  | Some challenge, Some v => k.(k_codeChallengeMethod) = Some "S256" /\ pkceHash v = challenge
  | None, None => True
  | _, _ => False
  end.
Proof.
  unfold check_pkce. destruct (truthy_param (k_codeChallenge k)) as [ch|]; [|by destruct v].
  case_bool_decide as Hm; simpl; [|split; [done|by destruct v as [v|]; [intros [? _]|]]].
  destruct v as [v|]; simpl; [|done].
  destruct (timingSafeEqual ch (pkceHash v)) as [[]|] eqn:E.
  - apply timingSafeEqual_true in E. naive_solver.
  - split; [done|]. intros [_ <-]. assert (timingSafeEqual (pkceHash v) (pkceHash v) = Some true) by by apply timingSafeEqual_true.
    congruence.
  - split; [done|]. intros [_ <-]. assert (timingSafeEqual (pkceHash v) (pkceHash v) = Some true) by by apply timingSafeEqual_true.
    congruence.
Qed.

Lemma checkCode_spec c code v (d : D) g :
  checkc c code v d = inl g <->
  exists k, getCode d code = Some (Some k) /\ g = k.(k_grant) /\ claimable c v k.
Proof.
  unfold checkCode, claimable.
  destruct (bool_decide (is_Some (truthy_param v)) && negb (publicClient c)) eqn:Hpub.
  { apply andb_prop in Hpub as [[v' Hv]%bool_decide_eq_true Hp]. rewrite Hv. split; [done|].
    intros (k & _ & _ & _ & _ & Hk). destruct (publicClient c); [done|]. destruct (truthy_param (k_codeChallenge k)); naive_solver. }
  assert (forall v', truthy_param v = Some v' -> publicClient c = true) as Hpc.
  { intros v' Hv. rewrite Hv in Hpub. simpl in Hpub. by destruct (publicClient c). }
  destruct (getCode d code) as [[k|]|]; [|naive_solver..].
  destruct (timingSafeEqual (g_clientId (k_grant k)) (clientId c)) as [[]|] eqn:Hc.
  - apply timingSafeEqual_true in Hc.
    destruct (Z.gtb_spec now (k_createdAt k + codeLifetime)) as [Hlt|Hle].
    { split; [done|]. intros (k' & [= <-] & _ & _ & Hn & _). lia. }
    pose proof (check_pkce_spec k (truthy_param v)) as Hs.
    destruct (check_pkce k (pkceHash <$> truthy_param v)) as [e|].
    + split; [done|]. intros (k' & [= <-] & -> & _ & _ & Hk). enough (Some e = None) by done. apply Hs.
      destruct (truthy_param (k_codeChallenge k)), (truthy_param v); naive_solver.
    + split; [|by intros (k' & [= <-] & -> & _)]. intros [= <-]. exists k. split_and!; [done..|].
      apply proj1 in Hs. specialize (Hs eq_refl).
      destruct (truthy_param (k_codeChallenge k)), (truthy_param v); naive_solver.
  - split; [done|]. intros (k' & [= <-] & _ & Heq & _). apply timingSafeEqual_true in Heq. congruence.
  - split; [done|]. intros (k' & [= <-] & _ & Heq & _). apply timingSafeEqual_true in Heq. congruence.
Qed.

Lemma code_claim_spec c code v (d : D) g :
  (claim c code v d).2 = inl g <->
  (removeCode d code).2 = true /\
  exists k, getCode d code = Some (Some k) /\ g = k.(k_grant) /\ claimable c v k.
Proof.
  unfold validateAuthorizationCodeGrant. rewrite <- checkCode_spec.
  destruct (checkc c code v d) as [g'|e]; [|naive_solver].
  destruct (removeCode d code) as [d' []]; simpl; naive_solver.
Qed.

(** Claiming an authorization code succeeds exactly when the code exists, was
    issued to this client, has not expired, and its PKCE challenge, if it has
    one, is met by the verifier of a public client (a verifier without a
    challenge is refused); the grant is the one the code was issued for, and
    the code is removed. *)
Theorem code_claim_exact c code v (d : D) g :
  (claim c code v d).2 = inl g <->
  (removeCode d code).2 = true /\
  exists k, getCode d code = Some (Some k) /\ g = k.(k_grant) /\ claimable c v k.
Proof. apply code_claim_spec. Qed.

(** Codes are used once: after a successful claim every later claim of the
    same code, by any client with any verifier, fails, and other codes are
    still as they were. *)
Theorem code_single_use c code v (d d' : D) g :
  validateAuthorizationCodeGrant pkceHash codeLifetime now c code v d = (d', inl g) ->
  (forall c' v', exists e, validateAuthorizationCodeGrant pkceHash codeLifetime now c' code v' d' = (d', inr e)) /\
  (forall code', code' <> code -> getCode d' code' = getCode d code').
Proof.
  unfold validateAuthorizationCodeGrant. destruct (checkc c code v d) as [g'|e]; [|done].
  destruct (removeCode d code) as [d1 []] eqn:Hr; [|done]. intros [= <- <-]. split.
  - intros c' v'. unfold checkCode. rewrite (getCode_removed _ _ _ Hr). destr_if; eauto.
  - intros code' Hne. by eapply getCode_other.
Qed.

(** ** Two claims at once

    The handler awaits the database twice: to read the code and to remove it. *)
Inductive claim_state := Reading (v : option string) | Removing (g : Grant) | Claimed (g : Grant) | Refused (e : OAuthErr).

Definition claim_step (c : OAuthClient) (code : string) (d : D) (st : claim_state) : D * claim_state :=
  match st with
  | Reading v => (d, match checkc c code v d with inl g => Removing g | inr e => Refused e end)
  | Removing g => let '(d, ok) := removeCode d code in (d, if ok then Claimed g else Refused InternalError)
  | _ => (d, st)
  end.

(** A schedule of two claims: [false] is a step of the first. *)
Fixpoint race (c : OAuthClient) (code : string) (sched : list bool) (d : D) (a b : claim_state)
    : D * claim_state * claim_state :=
  match sched with
  | [] => (d, a, b)
  | false :: sched' => let '(d, a) := claim_step c code d a in race c code sched' d a b
  | true :: sched' => let '(d, b) := claim_step c code d b in race c code sched' d a b
  end.

(** The removal is not tied to the read: two claims of one valid code that
    overlap, each reading before either removes, both succeed (removing a code
    that is already gone is not an error), while one after the other only the
    first does. *)
Theorem code_claimed_twice c code v (d d1 d2 : D) g :
  checkc c code v d = inl g -> removeCode d code = (d1, true) -> removeCode d1 code = (d2, true) ->
  race c code [false; true; false; true] d (Reading v) (Reading v) = (d2, Claimed g, Claimed g) /\
  exists e, race c code [false; false; true; true] d (Reading v) (Reading v) = (d1, Claimed g, Refused e).
Proof.
  intros Hc H1 H2. split.
  - simpl. rewrite Hc. simpl. rewrite H1. by rewrite H2.
  - simpl. rewrite Hc. simpl. rewrite H1. simpl. unfold checkCode. rewrite (getCode_removed _ _ _ H1). destr_if; eauto.
Qed.
End Codes.

(** ** Client authentication *)

Section Clients.
Context {D : Type} `{OAuthDB D}.
Context (valid_clientId valid_clientSecret : string -> bool) (hash_secret : string -> string).

Abbreviation auth := (authenticateClient (D := D) valid_clientId valid_clientSecret hash_secret).
Abbreviation credentials := (getClientCredentials valid_clientId valid_clientSecret).

Lemma check_secret_spec c secret c' :
  check_secret hash_secret c secret = inl c' ->
  c' = c /\ (hash_secret secret = c.(hashedSecret) \/ Some (hash_secret secret) = c.(hashedSecretPrevious)).
Proof.
  unfold check_secret. destruct (timingSafeEqual _ (hashedSecret c)) as [[]|] eqn:E; [|..|done].
  - apply timingSafeEqual_true in E. naive_solver.
  - destruct (hashedSecretPrevious c) as [p|]; [|done].
    destruct (timingSafeEqual _ p) as [[]|] eqn:E'; try done. apply timingSafeEqual_true in E'.
    intros [= <-]. split; [done|]. right. by rewrite E'.
Qed.

(** A request is attributed to a client only if the client is registered under
    the id the request names, and then a public client has sent no secret and
    a confidential one has sent the current or the previous secret; the
    credentials come from the header or from the body, never from both. *)
Theorem client_authentication (d : D) h p c :
  authenticateClient valid_clientId valid_clientSecret hash_secret d h p = inl c ->
  exists id secret, getClientCredentials valid_clientId valid_clientSecret h p = inl (Some id, secret) /\ getClient d id = Some (Some c) /\
    (h.(authorization) = None /\ p.(p_client_id) = Some id \/
     is_Some h.(authorization) /\ ostr_truthy p.(p_client_id) = false /\ ostr_truthy p.(p_client_secret) = false) /\
    if c.(publicClient) then secret = None
    else exists s, secret = Some s /\
      (hash_secret s = c.(hashedSecret) \/ Some (hash_secret s) = c.(hashedSecretPrevious)).
Proof.
  unfold authenticateClient. destruct (credentials h p) as [[id secret]|e] eqn:Hcred; [|done].
  unfold getClientById. destruct id as [id|]; [|done].
  destruct (getClient d id) as [[c0|]|] eqn:Hget; try done. intros Hauth.
  assert (c = c0 /\ if publicClient c0 then secret = None
    else exists s, secret = Some s /\ (hash_secret s = hashedSecret c0 \/ Some (hash_secret s) = hashedSecretPrevious c0))
    as [-> Hsec].
  { destruct (publicClient c0), secret as [s|]; try done; [by simplify_eq|].
    apply check_secret_spec in Hauth as [-> Hs]. eauto. }
  exists id, secret. split_and!; [done..| |done].
  unfold getClientCredentials in Hcred. destruct (authorization h) as [[cr|]|]; [|done|left; by simplify_eq].
  right. split; [eauto|]. destruct (ostr_truthy (p_client_id p)); [done|]. simpl in Hcred.
  destruct (ostr_truthy (truthy_param (p_client_secret p))) eqn:Hs; [done|]. split; [done|].
  unfold truthy_param in Hs. destruct (ostr_truthy (p_client_secret p)) eqn:E; [|done]. by rewrite E in Hs.
Qed.
End Clients.

(** ** Refresh tokens never widen access *)

Section Refresh.
Context {D : Type} `{OAuthDB D}.
Context (href_of : string -> option string) (hash_token : string -> string).
Hypothesis session_canonical : href_of SESSION_TOKEN_SCOPE = Some SESSION_TOKEN_SCOPE.

Abbreviation imp := (getImplicantValues href_of).
Abbreviation good := (good_scope href_of).
Abbreviation set_inv := (inv imp good).
Abbreviation allows := (grants imp).
Abbreviation refresh := (validateRefreshTokenGrant (D := D) href_of hash_token).
Abbreviation excluded := (SCOPES_TO_EXCLUDE_FROM_REFRESH_TOKEN_GRANTS href_of).

Lemma excluded_spec :
  set_inv excluded /\
  forall v, good v -> allows excluded v <-> implies imp "openid" v \/ implies imp SESSION_TOKEN_SCOPE v.
Proof.
  assert (Forall good EXCLUDED) as Hg.
  { constructor; [apply good_open|]. constructor; [|constructor]. by apply good_session. }
  destruct (build_spec imp good empty_set EXCLUDED (empty_inv _ _) Hg) as (A & HA & Hinv & Hgr).
  unfold SCOPES_TO_EXCLUDE_FROM_REFRESH_TOKEN_GRANTS, fromArray. rewrite HA. simpl. split; [done|].
  intros v Hv. rewrite (Hgr v Hv). pose proof (empty_grants imp v). split.
  - intros [?|(s & Hs & Hi)]; [done|]. apply elem_of_cons in Hs as [->|Hs]; [by left|].
    apply list_elem_of_singleton in Hs as ->. by right.
  - intros [Hi|Hi]; right; eexists; (split; [|exact Hi]); set_solver.
Qed.

(** What may be asked for with a stored token. *)
Definition may_ask (c : OAuthClient) (A stored want : ScopeSet) : Prop :=
  (forall v, good v -> allows want v -> allows stored v) \/
  c.(base).(trusted) = true /\ forall v, good v -> allows want v -> allows A v \/ allows stored v.

Lemma refresh_scope_spec c A stored want :
  set_inv stored -> set_inv want -> set_inv A -> client_scopes href_of c = Some A ->
  refresh_scope href_of c stored (Some want) = inl want /\ may_ask c A stored want \/
  (exists e, refresh_scope href_of c stored (Some want) = inr e) /\ ~ may_ask c A stored want.
Proof.
  intros Hs Hw HA Hc. unfold refresh_scope, may_ask. rewrite Hc. cbn [mbind option_bind].
  destruct (union_spec imp good A stored HA Hs) as (U & -> & HU & HUg).
  pose proof (contains_grants imp good stored want Hs Hw) as H1.
  pose proof (contains_grants imp good U want HU Hw) as H2.
  destruct (contains stored want); [left; split; [done|left; by apply H1]|].
  destruct (difference_spec imp good want stored Hw Hs) as (X & -> & _).
  destruct (trusted (base c)) eqn:Ht; simpl.
  - destruct (contains U want); simpl.
    + left. split; [done|right]. split; [done|]. intros v Hv Hwv. apply HUg; [done|]. by apply H2.
    + right. split; [eauto|]. intros [Hx|[_ Hx]]; [by apply H1 in Hx|].
      enough (false = true) by done. apply H2. intros v Hv Hwv. apply HUg; [done|]. by apply Hx.
  - right. split; [eauto|]. intros [Hx|[? _]]; [by apply H1 in Hx|done].
Qed.

(** [C29] Refreshing succeeds exactly for a token of this client that is not itself
    marked offline, and when specific scopes are requested, only if the token
    grants them, or the client is trusted and they are among the token's and
    the client's own scopes.  The new grant has exactly the requested scopes
    (by default the token's) without those that the one-off scopes grant. *)
Theorem refresh_exact c (d : D) tok t A requested g :
  getRefreshToken d (hash_token tok) = Some (Some t) -> set_inv t.(g_scope) ->
  (forall want, requested = Some want -> set_inv want) ->
  set_inv A -> client_scopes href_of c = Some A ->
  refresh c tok requested d = inl g <->
  t.(g_clientId) = clientId c /\ t.(g_offline) = false /\
  (forall want, requested = Some want -> may_ask c A t.(g_scope) want) /\
  exists S, g = with_scope t S /\ difference (default t.(g_scope) requested) excluded = Some S /\ set_inv S /\
    forall s, member S s <-> member (default t.(g_scope) requested) s /\ ~ allows excluded s.
Proof.
  intros Ht Hinv Hreq HA Hc. unfold validateRefreshTokenGrant. rewrite Ht.
  destruct excluded_spec as [Hex _].
  assert (set_inv (default (g_scope t) requested)) as Hbase by (destruct requested; [by apply Hreq|done]).
  destruct (difference_spec imp good _ _ Hbase Hex) as (X & HX & HXi & HXm).
  destruct (timingSafeEqual (g_clientId t) (clientId c)) as [[]|] eqn:He.
  2,3: split; [done|]; intros [Heq _]; apply timingSafeEqual_true in Heq; congruence.
  apply timingSafeEqual_true in He.
  assert (refresh_scope href_of c (g_scope t) requested = inl (default (g_scope t) requested) /\
          (forall want, requested = Some want -> may_ask c A (g_scope t) want) \/
          (exists e, refresh_scope href_of c (g_scope t) requested = inr e) /\
          ~ (forall want, requested = Some want -> may_ask c A (g_scope t) want)) as Hscope.
  { destruct requested as [want|]; [|by left].
    destruct (refresh_scope_spec c A (g_scope t) want Hinv (Hreq want eq_refl) HA Hc) as [[-> Hm]|[[e ->] Hm]].
    - left. split; [done|]. by intros w [= <-].
    - right. split; [eauto|]. intros Hall. by apply Hm, Hall. }
  destruct Hscope as [[-> Hask]|[[e ->] Hno]]; [|split; [done|naive_solver]].
  rewrite HX. destruct (g_offline t); [split; [done|naive_solver]|].
  split; [intros [= <-]; split_and!; [done..|]; by exists X|].
  intros (_ & _ & _ & S & -> & HS & _). congruence.
Qed.

(** ** One-off scopes through the whole endpoint *)

Context (getScope : string -> option ScopeRow) (valid_clientId valid_clientSecret : string -> bool).
Context (hash_secret pkceHash : string -> string) (verifyAssertion : string -> option Claims).
Context (disabledClients : list string) (codeLifetime MAX_TTL_S now : Z).
Context (newAccess : Grant -> string * Z) (newRefresh : Grant -> string).
Context (sign_id : IdClaims -> string) (sign_access : AccessClaims -> string).
Context (generateTokenHash : string -> string) (capabilities : Grant -> list string).
Context (jwtEnabled : bool) (jwtClients : list string) (tokenServerUrl : string) (ttl : Z).
Hypothesis sync_canonical : href_of OLD_SYNC_SCOPE = Some OLD_SYNC_SCOPE.

Abbreviation issue := (generateTokens href_of newAccess newRefresh sign_id sign_access generateTokenHash capabilities
  jwtEnabled jwtClients tokenServerUrl ttl now).
Abbreviation handler := (tokenHandler (D := D) href_of getScope valid_clientId valid_clientSecret hash_secret hash_token
  pkceHash verifyAssertion disabledClients codeLifetime MAX_TTL_S now issue).

Lemma refresh_scope_result c stored requested scope :
  refresh_scope href_of c stored requested = inl scope -> scope = default stored requested.
Proof.
  unfold refresh_scope. destruct requested as [want|]; [|by intros [= <-]]. simpl.
  destruct (contains stored want); [by intros [= <-]|]. destruct (_ ≫= _) as [U|]; [|done].
  destruct (_ || _); [|by intros [= <-]]. by destruct (difference want stored).
Qed.

(** The only scopes that grant [openid] are itself and its write variant. *)
Lemma implies_openid s : implies imp s "openid" <-> s = "openid" \/ s = "openid:write".
Proof.
  unfold implies. split.
  - intros (I & HI & Hs). vm_compute in HI. simplify_eq. set_solver.
  - intros Hs. exists ["openid:write"; "openid"]. split; [reflexivity|set_solver].
Qed.

(** The write variant is not implied by an excluded scope. *)
Lemma openid_write_kept : good "openid:write" /\ ~ allows excluded "openid:write".
Proof.
  assert (good "openid:write") as Hg by good_short. split; [done|].
  rewrite (proj2 excluded_spec) by done. intros [(I & HI & Hs)|(I & HI & Hs)]; vm_compute in HI; simplify_eq;
    apply list_elem_of_singleton in Hs; discriminate.
Qed.

Lemma handler_refresh h p (d d' : D) t tok requested stored :
  handler h p d = (d', inl t) -> p.(p_grant) = RefreshToken tok requested ->
  getRefreshToken d (hash_token tok) = Some (Some stored) ->
  d' = d /\ stored.(g_offline) = false /\ exists S x,
    difference (default stored.(g_scope) requested) excluded = Some S /\ issue (with_scope stored S) x = Some t.
Proof.
  intros Hh Hp Hst. unfold tokenHandler in Hh. destruct (authenticateClient _ _ _ _ _ _) as [c|]; [|done].
  destruct (_ && _); [done|]. unfold validateGrantParameters in Hh. rewrite Hp in Hh.
  unfold validateRefreshTokenGrant in Hh. rewrite Hst in Hh.
  destruct (timingSafeEqual _ _) as [[]|]; try done.
  destruct (refresh_scope _ _ _ _) as [sc|] eqn:Hsc; [|done]. apply refresh_scope_result in Hsc as ->.
  destruct (difference _ _) as [S|] eqn:HS; [|done]. destruct (g_offline stored); [done|].
  destruct (issue _ _) as [t'|] eqn:Ht; [|done]. simplify_eq. eauto 10.
Qed.

(** Exchanging a refresh token never yields another refresh token and leaves
    the database alone.  It yields an id token exactly when the scopes in
    force hold [openid:write], which implies [openid] but is not covered by
    the one-off scopes that are taken out, and a session token id only when
    they hold a scope strictly above the session token scope. *)
Theorem refresh_one_off h p (d d' : D) t tok requested stored :
  tokenHandler href_of getScope valid_clientId valid_clientSecret hash_secret hash_token pkceHash verifyAssertion
    disabledClients codeLifetime MAX_TTL_S now issue h p d = (d', inl t) -> p.(p_grant) = RefreshToken tok requested ->
  getRefreshToken d (hash_token tok) = Some (Some stored) ->
  set_inv (default stored.(g_scope) requested) ->
  d' = d /\ t.(refresh_token) = None /\
  (is_Some t.(id_token) <-> member (default stored.(g_scope) requested) "openid:write") /\
  (is_Some t.(session_token_id) -> exists s, member (default stored.(g_scope) requested) s /\
     s <> SESSION_TOKEN_SCOPE /\ implies imp s SESSION_TOKEN_SCOPE).
Proof.
  intros Hh Hp Hst Hinv. destruct (handler_refresh _ _ _ _ _ _ _ _ Hh Hp Hst) as (-> & Hoff & S & x & HS & Ht).
  destruct excluded_spec as [Hex Hexg]. destruct openid_write_kept as [Hgw Hkw].
  destruct (difference_spec imp good _ _ Hinv Hex) as (S' & HS' & HSi & HSm). simplify_eq.
  destruct (tokens_spec href_of getScope newAccess newRefresh sign_id sign_access generateTokenHash capabilities jwtEnabled
    jwtClients tokenServerUrl ttl now session_canonical sync_canonical (with_scope stored S) x HSi)
    as (t' & Ht' & _ & Hr & Hid & Hsess). assert (t' = t) as -> by congruence. simpl in *.
  split; [done|]. split; [|split].
  - apply eq_None_not_Some. intros Hs. apply Hr in Hs. congruence.
  - rewrite Hid. split.
    + intros (s & [Hm Hne]%HSm & [->| ->]%implies_openid); [|done]. destruct Hne. apply Hexg; [apply good_open|].
      left. by apply implies_openid; left.
    + intros Hm. exists "openid:write". split; [by apply HSm|]. by apply implies_openid; right.
  - intros [(s & [Hm Hne]%HSm & Hs) _]%Hsess. exists s. split_and!; [done| |done]. intros ->. destruct Hne.
    apply Hexg; [by apply good_session|]. by right.
Qed.

End Refresh.

(** ** Verifying access tokens *)

(** An access token is accepted exactly when it is a valid short-lived JWT
    with readable scopes, or, for any other well-formed token, when it is
    stored and not expired, where tokens from before the expiry epoch and
    those of Pocket never expire. *)
Theorem access_token_accepted href_of is_jwt verifyJWT lookup short epoch now pocket tok :
  is_Some (match verify href_of is_jwt verifyJWT lookup short epoch now pocket tok with inl i => Some i | inr _ => None end) <->
  (exists j, is_jwt tok = true /\ verifyJWT tok = Some j /\ (j.(j_exp) - j.(j_iat)) * 1000 <= short /\
     is_Some (fromString (getImplicantValues href_of) j.(j_scope))) \/
  ((is_jwt tok = true -> exists j, verifyJWT tok = Some j /\ short < (j.(j_exp) - j.(j_iat)) * 1000) /\
   exists t, lookup tok = Some t /\
     (now <= t.(expiresAt) \/ t.(expiresAt) < epoch \/ t.(at_client) ∈ pocket)).
Proof.
  assert (is_Some (match verify_stored lookup epoch now pocket tok with inl i => Some i | inr _ => None end) <->
    exists t, lookup tok = Some t /\ (now <= t.(expiresAt) \/ t.(expiresAt) < epoch \/ t.(at_client) ∈ pocket)) as Hst.
  { unfold verify_stored. destruct (lookup tok) as [t|]; [|split; [by intros [? ?]|naive_solver]].
    destruct ((expiresAt t <? now) && (expiresAt t >=? epoch)) eqn:He; simpl.
    - case_bool_decide as Hp; simpl.
      + split; [intros _; exists t; auto|eauto].
      + split; [by intros [? ?]|]. intros (t' & [= <-] & [?|[?|?]]); (done || lia).
    - split; [intros _; exists t; split; [done|]; lia|eauto]. }
  unfold verify. destruct (is_jwt tok) eqn:Hj; [|rewrite Hst; naive_solver].
  destruct (verifyJWT tok) as [j|] eqn:Hv; [|split; [by intros [? ?]|]; intros [(j & _ & ? & _)|[Hx _]]; [done|];
    destruct (Hx eq_refl) as (j & ? & _); done].
  destruct (Z.leb_spec ((j_exp j - j_iat j) * 1000) short).
  - split.
    + intros Hs. left. exists j. split_and!; [done..|]. destruct (fromString _ _); [eauto|by destruct Hs].
    + intros [(j' & _ & [= <-] & _ & [S HS])|[Hx _]]; [by rewrite HS|].
      destruct (Hx eq_refl) as (j' & [= <-] & ?). lia.
  - rewrite Hst. split.
    + intros Ht. right. split; [|done]. intros _. by exists j.
    + intros [(j' & _ & [= <-] & ? & _)|[_ ?]]; [lia|done].
Qed.

(** ** Witnesses: a database of association maps *)

Record MapDB := mkMapDB {
  m_clients : gmap string OAuthClient; m_codes : gmap string CodeObj; m_refresh : gmap string Grant }.

#[export] Instance map_db : OAuthDB MapDB := {
  getClient d id := Some (d.(m_clients) !! id);
  getCode d c := Some (d.(m_codes) !! c);
  removeCode d c := (mkMapDB d.(m_clients) (delete c d.(m_codes)) d.(m_refresh), true);
  getRefreshToken d t := Some (d.(m_refresh) !! t) }.

#[export] Instance map_db_laws : OAuthDBLaws MapDB.
Proof.
  split.
  - intros d c d' [= <-]. simpl. by rewrite lookup_delete_eq.
  - intros d c c' d' ok [= <- <-] Hne. simpl. by rewrite lookup_delete_ne.
Qed.

Definition public_rp : OAuthClient := mkOAuthClient sample_client false true "" None "https://rp.example/done".
Definition private_rp : OAuthClient := mkOAuthClient sample_client false false "s3cret" (Some "former") "https://rp.example/done".

Definition pkce_code : CodeObj := mkCode sample_grant 1600000000000 (Some "verifier") (Some "S256").

Definition online_grant : Grant :=
  grant_of sample_claims sample_client (mkRequested (Some email_only) None None None) email_only [].

Definition wide_openid : ScopeSet := default empty_set (fromArray url_imp ["openid:write"]).

Definition write_grant : Grant := with_scope online_grant wide_openid.

Definition sample_db : MapDB := {|
  m_clients := {["dead" := public_rp; "beef" := private_rp]};
  m_codes := {["c0de" := pkce_code]};
  m_refresh := {["tok" := online_grant; "wide" := write_grant]} |}.

Abbreviation sample_claim := (validateAuthorizationCodeGrant id 900000 1600000000500).

Definition spent_db : MapDB := (removeCode sample_db "c0de").1.

Lemma code_single_use_witness :
  (forall c' v', exists e, sample_claim c' "c0de" v' spent_db = (spent_db, inr e)) /\
  (forall code', code' <> "c0de" -> getCode spent_db code' = getCode sample_db code').
Proof.
  apply (code_single_use id 900000 1600000000500 public_rp "c0de" (Some "verifier") sample_db spent_db sample_grant).
  vm_compute. reflexivity.
Defined.

Lemma code_claimed_twice_witness :
  race id 900000 1600000000500 public_rp "c0de" [false; true; false; true] sample_db
    (Reading (Some "verifier")) (Reading (Some "verifier"))
  = ((removeCode spent_db "c0de").1, Claimed sample_grant, Claimed sample_grant).
Proof.
  apply (code_claimed_twice id 900000 1600000000500 public_rp "c0de" (Some "verifier") sample_db spent_db
    (removeCode spent_db "c0de").1 sample_grant); vm_compute; reflexivity.
Defined.

Definition basic_headers : Headers := mkHeaders (Some (Some "beef:former")).
Definition refresh_params (tok : string) (id : option string) : Params :=
  mkParams id None (RefreshToken tok None) (Some 3600) None.

Lemma client_authentication_witness :
  exists id secret,
    getClientCredentials (fun _ => true) (fun _ => true) basic_headers (refresh_params "tok" None)
      = inl (Some id, secret) /\
    getClient sample_db id = Some (Some private_rp) /\
    (authorization basic_headers = None /\ None = Some id \/
     is_Some (authorization basic_headers) /\ ostr_truthy None = false /\ ostr_truthy None = false) /\
    exists s, secret = Some s /\ (s = "s3cret" \/ Some s = Some "former").
Proof.
  apply (client_authentication (fun _ => true) (fun _ => true) id sample_db basic_headers
    (refresh_params "tok" None) private_rp).
  vm_compute. reflexivity.
Defined.

Lemma refresh_exact_witness :
  validateRefreshTokenGrant Some id public_rp "tok" None sample_db = inl (with_scope online_grant email_only) <->
  g_clientId online_grant = clientId public_rp /\ g_offline online_grant = false /\
  (forall want, None = Some want -> may_ask Some public_rp allowed_set (g_scope online_grant) want) /\
  exists S, with_scope online_grant email_only = with_scope online_grant S /\
    difference (g_scope online_grant) (SCOPES_TO_EXCLUDE_FROM_REFRESH_TOKEN_GRANTS Some) = Some S /\
    inv url_imp url_good S /\
    forall s, member S s <-> member (g_scope online_grant) s /\
      ~ grants url_imp (SCOPES_TO_EXCLUDE_FROM_REFRESH_TOKEN_GRANTS Some) s.
Proof.
  apply (refresh_exact Some id eq_refl public_rp sample_db "tok" online_grant allowed_set None);
    [vm_compute; reflexivity|exact email_only_inv|discriminate|exact allowed_inv|vm_compute; reflexivity].
Defined.

Lemma wide_openid_inv : inv url_imp url_good wide_openid.
Proof.
  apply (sample_inv ["openid:write"]); [|vm_compute; reflexivity]. constructor; [|constructor].
  exact (proj1 (openid_write_kept Some id eq_refl)).
Qed.

Abbreviation sample_handler := (tokenHandler Some sync_row (fun _ => true) (fun _ => true) id id id (fun _ => None) []
  900000 3600 1600000000500 (generateTokens Some (fun _ => ("cafe", 1600003600000)) (fun _ => "f00d") (fun _ => "jwt")
    (fun _ => "at") id (fun _ => []) false [] "https://sync" 300 1600000000500)).

Definition wide_tokens : Tokens :=
  mkTokens "cafe" "openid:write" 3600 (Some 1600000000000) None None (Some "jwt") None.

Lemma refresh_one_off_witness :
  sample_handler (mkHeaders None) (refresh_params "wide" (Some "dead")) sample_db = (sample_db, inl wide_tokens) /\
  (is_Some (id_token wide_tokens) <-> member wide_openid "openid:write").
Proof.
  assert (sample_handler (mkHeaders None) (refresh_params "wide" (Some "dead")) sample_db
    = (sample_db, inl wide_tokens)) as Hh by (vm_compute; reflexivity).
  split; [exact Hh|].
  exact (proj1 (proj2 (proj2 (refresh_one_off Some id eq_refl sync_row (fun _ => true) (fun _ => true) id id
    (fun _ => None) [] 900000 3600 1600000000500 (fun _ => ("cafe", 1600003600000)) (fun _ => "f00d") (fun _ => "jwt")
    (fun _ => "at") id (fun _ => []) false [] "https://sync" 300 eq_refl (mkHeaders None)
    (refresh_params "wide" (Some "dead")) sample_db sample_db wide_tokens "wide" None write_grant Hh eq_refl
    ltac:(vm_compute; reflexivity) wide_openid_inv)))).
Defined.
