(* ===== verification/OAuthStore.v ===== *)
(** * The OAuth store (packages/fxa-auth-server/lib/oauth/db/index.js, db/mysql/index.js,
      lib/redis.js and the scripts of lib/luaScripts)

    Access tokens live in redis with a time to live, next to a set per user of
    the ids of the user's tokens; tokens of Pocket, refresh tokens and
    authorization codes live in MySQL, and redis keeps when a refresh token
    was last used.  The model has the two stores as maps and every method of
    the database class; keys of redis that have expired are still in the maps
    and read as absent.  Both services are up: a call does not fail, except
    for the scripts that redis itself refuses to run. *)

From Stdlib Require Import Ascii.
From S2P Require Import Prelude Text ScopeValues Scopes.

#[local] Open Scope Z_scope.

(** ** Data *)

(** The JSON value of an access token in redis ([AccessToken.toJSON]), and its
    row in the table [tokens]. *)
Record StoredToken := mkStored {
  k_id : string;
  k_client : string;
  k_canGrant : bool;
  k_public : bool;
  k_user : string;
  k_scope : string;
  k_createdAt : Z;
  k_profileChangedAt : Z;
  k_expiresAt : Z }.

(** The object [AccessToken]. *)
Record AccessTok := mkAccessTok {
  a_id : string;
  a_client : string;
  a_canGrant : bool;
  a_public : bool;
  a_user : string;
  a_scope : ScopeSet;
  a_createdAt : Z;
  a_profileChangedAt : Z;
  a_expiresAt : Z }.

Record RefreshRow := mkRefreshRow {
  r_client : string; r_user : string; r_scope : string; r_lastUsedAt : Z }.

Record CodeRow := mkCodeRow {
  c_client : string; c_user : string; c_scope : string; c_authAt : option Z; c_amr : option string;
  c_aal : option Z; c_offline : bool; c_challengeMethod : option string; c_challenge : option string;
  c_keysJwe : option string; c_session : option string; c_createdAt : Z }.

Record ClientRow := mkClientRow { cl_canGrant : bool; cl_public : bool }.

(** Redis: values with the time they expire at. *)
Record Cache := mkCache {
  tokens : gmap string (StoredToken * Z);
  index : gmap string (gset string * Z);
  refresh : gmap string (gmap string Z * Z) }.

Record Mysql := mkMysql {
  m_tokens : gmap string StoredToken;
  m_refresh : gmap string RefreshRow;
  m_codes : gmap string CodeRow;
  m_clients : gmap string ClientRow }.

Record DB := mkDB { cache : Cache; mysql : Mysql }.

(** ** Redis commands *)

Definition live {A} (now : Z) (x : option (A * Z)) : option A :=
  match x with Some (v, e) => if now <? e then Some v else None | None => None end.

Definition cached (now : Z) (c : Cache) (id : string) : option StoredToken := live now (c.(tokens) !! id).

(** [smembers] *)
Definition members (now : Z) (c : Cache) (u : string) : gset string := default ∅ (live now (c.(index) !! u)).

(** [hgetall] *)
Definition metadata (now : Z) (c : Cache) (u : string) : gmap string Z := default ∅ (live now (c.(refresh) !! u)).

(** [unlink] of token keys, [srem] *)
Definition unlink (ids : gset string) (c : Cache) : Cache :=
  mkCache (filter (fun kv => kv.1 ∉ ids) c.(tokens)) c.(index) c.(refresh).

Definition srem (u : string) (ids : gset string) (c : Cache) : Cache :=
  mkCache c.(tokens) (alter (fun m => (m.1 ∖ ids, m.2)) u c.(index)) c.(refresh).

Definition set_refresh (f : gmap string (gmap string Z * Z) -> gmap string (gmap string Z * Z)) (c : Cache) : Cache :=
  mkCache c.(tokens) c.(index) (f c.(refresh)).

(** ** Tokens of other forms *)

Definition toJSON (t : AccessTok) : StoredToken :=
  mkStored t.(a_id) t.(a_client) t.(a_canGrant) t.(a_public) t.(a_user) (toString t.(a_scope)) t.(a_createdAt)
    t.(a_profileChangedAt) t.(a_expiresAt).

Section Store.
Context (href_of : string -> option string).
(** Limits and lifetimes: [redis.accessTokens.recordLimit],
    [oauthServer.expiration.accessToken], [redis.refreshTokens.recordLimit]
    and [.maxttl], [oauthServer.refreshToken.updateAfter],
    [oauthServer.expiration.code]; the ids of Pocket. *)
Context (limit maxttl limit_r maxttl_r updateAfter codeLifetime : Z) (pocketIds : list string).
(** Which members [SPOP] takes is up to redis. *)
Context (spop : gset string -> nat -> gset string).

Abbreviation imp := (getImplicantValues href_of).

(** [AccessToken.parse]: [None] is a thrown error. *)
Definition parse (v : StoredToken) : option AccessTok :=
  scope ← fromString imp v.(k_scope);
  Some (mkAccessTok v.(k_id) v.(k_client) v.(k_canGrant) v.(k_public) v.(k_user) scope v.(k_createdAt)
          v.(k_profileChangedAt) v.(k_expiresAt)).

(** [AccessToken.fromMySQL]: the flags are those of the client now. *)
Definition fromMySQL (clients : gmap string ClientRow) (v : StoredToken) : option AccessTok :=
  scope ← fromString imp v.(k_scope);
  Some (mkAccessTok v.(k_id) v.(k_client) (default false (cl_canGrant <$> clients !! v.(k_client)))
          (default false (cl_public <$> clients !! v.(k_client))) v.(k_user) scope v.(k_createdAt)
          v.(k_profileChangedAt) v.(k_expiresAt)).

(** ** The scripts *)

(** The last three commands of setAccessToken_2.lua. *)
Definition store_token (now : Z) (u id : string) (v : StoredToken) (ttl : Z) (m : gset string) (c : Cache) : Cache :=
  mkCache (<[id := (v, now + ttl)]> c.(tokens)) (<[u := (m, now + maxttl)]> c.(index)) c.(refresh).

(** setAccessToken_2.lua; [None]: [UNLINK] refuses to be called without keys. *)
Definition lua_setAccessToken (now : Z) (u id : string) (v : StoredToken) (ttl : Z) (c : Cache) : option Cache :=
  let m := members now c u in
  let count := Z.of_nat (size m) in
  if count >? limit then
    let toDel := spop m (Z.to_nat (limit / 2)) in
    if bool_decide (toDel = ∅) then None
    else Some (store_token now u id v ttl ((m ∖ toDel) ∪ {[id]}) (unlink toDel c))
  else if (count >? 0) && (count mod 5 =? 0) then
    let popped := spop m (Z.to_nat limit) in
    let alive := filter (fun i => is_Some (cached now c i)) popped in
    Some (store_token now u id v ttl ((m ∖ popped) ∪ ({[id]} ∪ alive)) c)
  else Some (store_token now u id v ttl (m ∪ {[id]}) c).

(** The ids of a user's index whose token is gone or is to be removed. *)
Definition doomed (now : Z) (c : Cache) (u : string) (p : StoredToken -> bool) : gset string :=
  filter (fun i => match cached now c i with Some v => p v | None => true end = true) (members now c u).

(** removeAccessTokensForPublicClients_1.lua, removeAccessTokensForUserAndClient_1.lua *)
Definition lua_remove_where (now : Z) (u : string) (p : StoredToken -> bool) (c : Cache) : Cache :=
  let toDel := doomed now c u p in unlink toDel (srem u toDel c).

Definition for_public_clients (v : StoredToken) : bool := v.(k_canGrant) || v.(k_public).

Definition for_client (client : string) (v : StoredToken) : bool := String.eqb v.(k_client) client.

(** removeAccessTokensForUser_1.lua *)
Definition lua_removeForUser (now : Z) (u : string) (c : Cache) : Cache :=
  let c := unlink (members now c u) c in mkCache c.(tokens) (delete u c.(index)) c.(refresh).

(** removeAccessToken_1.lua: in Lua 0 is true, so [DEL] always runs. *)
Definition lua_removeAccessToken (now : Z) (id : string) (c : Cache) : Cache * bool :=
  (unlink {[id]} c, bool_decide (is_Some (cached now c id))).

(** getAccessTokens_1.lua *)
Definition lua_getAccessTokens (now : Z) (u : string) (c : Cache) : Cache * list StoredToken :=
  let ids := members now c u in
  let gone := filter (fun i => cached now c i = None) ids in
  (srem u gone c, omap (cached now c) (elements ids)).

(** setRefreshToken_1.lua *)
Definition lua_setRefreshToken (now : Z) (u id : string) (lastUsedAt : Z) (c : Cache) : Cache :=
  let m := metadata now c u in
  let old := filter (fun kv => lastUsedAt - kv.2 > maxttl_r) m in
  let m := if (2 <=? size m)%nat then
             if Z.of_nat (size m) - Z.of_nat (size old) >=? limit_r then ∅ else m ∖ old
           else m in
  set_refresh (insert u (<[id := lastUsedAt]> m, now + maxttl_r)) c.

(** ** lib/redis.js and fxa-shared/db/redis.ts *)

(** [None]: the promise is rejected. *)
Definition redis_setAccessToken (now : Z) (t : AccessTok) (c : Cache) : option Cache :=
  let ttl := t.(a_expiresAt) - now in
  if ttl <? 1 then Some c else lua_setAccessToken now t.(a_user) t.(a_id) (toJSON t) ttl c.

Definition redis_getAccessToken (now : Z) (id : string) (c : Cache) : option AccessTok := cached now c id ≫= parse.

(** One token that does not parse empties the list. *)
Definition redis_getAccessTokens (now : Z) (u : string) (c : Cache) : Cache * list AccessTok :=
  let '(c, vs) := lua_getAccessTokens now u c in (c, default [] (mapM parse vs)).

(** [hdel] *)
Definition redis_removeRefreshToken (u : string) (ids : gset string) (c : Cache) : Cache :=
  set_refresh (alter (fun m => (filter (fun kv => kv.1 ∉ ids) m.1, m.2)) u) c.

(** ** db/mysql/index.js *)

Definition with_tokens (f : gmap string StoredToken -> gmap string StoredToken) (m : Mysql) : Mysql :=
  mkMysql (f m.(m_tokens)) m.(m_refresh) m.(m_codes) m.(m_clients).

Definition with_refresh (f : gmap string RefreshRow -> gmap string RefreshRow) (m : Mysql) : Mysql :=
  mkMysql m.(m_tokens) (f m.(m_refresh)) m.(m_codes) m.(m_clients).

Definition with_codes (f : gmap string CodeRow -> gmap string CodeRow) (m : Mysql) : Mysql :=
  mkMysql m.(m_tokens) m.(m_refresh) (f m.(m_codes)) m.(m_clients).

Definition _deleteClientAuthorization (client u : string) (m : Mysql) : Mysql :=
  with_refresh (filter (fun kv => ~ (kv.2.(r_client) = client /\ kv.2.(r_user) = u)))
    (with_tokens (filter (fun kv => ~ (kv.2.(k_client) = client /\ kv.2.(k_user) = u)))
       (with_codes (filter (fun kv => ~ (kv.2.(c_client) = client /\ kv.2.(c_user) = u))) m)).

Definition _removeUser (u : string) (m : Mysql) : Mysql :=
  with_codes (filter (fun kv => kv.2.(c_user) <> u))
    (with_refresh (filter (fun kv => kv.2.(r_user) <> u))
       (with_tokens (filter (fun kv => kv.2.(k_user) <> u)) m)).

(** The rows of [clients] that make the token of a client removable. *)
Definition grants_directly (m : Mysql) (client : string) : bool :=
  match m.(m_clients) !! client with Some c => c.(cl_public) || c.(cl_canGrant) | None => false end.

Definition _removePublicAndCanGrantTokens (u : string) (m : Mysql) : Mysql :=
  let m := with_tokens (filter (fun kv => ~ (kv.2.(k_user) = u /\ grants_directly m kv.2.(k_client) = true))) m in
  with_refresh (filter (fun kv => ~ (kv.2.(r_user) = u /\ grants_directly m kv.2.(r_client) = true))) m.

Definition _deleteClientRefreshToken (id client u : string) (m : Mysql) : Mysql * bool :=
  match m.(m_refresh) !! id with
  | Some r =>
      if String.eqb r.(r_client) client && String.eqb r.(r_user) u then
        (with_tokens (filter (fun kv => ~ (kv.2.(k_client) = client /\ kv.2.(k_user) = u)))
           (with_refresh (delete id) m), true)
      else (m, false)
  | None => (m, false)
  end.

(** [TIMESTAMPDIFF(SECOND, createdAt, NOW()) > ttl / 1000]; the limit of 10000
    rows per run is left out. *)
Definition _pruneAuthorizationCodes (ttlInMs now : Z) (m : Mysql) : Mysql :=
  with_codes (filter (fun kv => (now - kv.2.(c_createdAt)) / 1000 * 1000 <= ttlInMs)) m.

(** ** db/index.js *)

(** What [generateAccessToken] reads of a grant. *)
Record Vals := mkVals {
  v_client : string; v_canGrant : bool; v_public : bool; v_user : string; v_scope : ScopeSet;
  v_profileChangedAt : option Z; v_expiresAt : option Z; v_ttl : option Z }.

(** [AccessToken.generate]; [id] is the hash of the random token. *)
Definition generate (now : Z) (id : string) (v : Vals) : AccessTok :=
  mkAccessTok id v.(v_client) v.(v_canGrant) v.(v_public) v.(v_user) v.(v_scope) (now - now mod 1000)
    (or0 v.(v_profileChangedAt))
    (num_or v.(v_expiresAt) (now + num_or ((fun t => t * 1000) <$> v.(v_ttl)) maxttl)).

(** [JWT_ACCESS_TOKENS_CLIENT_IDS.has(vals.clientId)]: the set holds hex
    strings and is asked for a Buffer, which is none of them. *)
Definition jwt_client_buffer (clientId : string) : bool := false.

Context (jwtEnabled : bool) (SHORT_ACCESS_TOKEN_TTL_IN_MS : Z).

Definition generateAccessToken (now : Z) (id : string) (v : Vals) (d : DB) : DB * option AccessTok :=
  let t := generate now id v in
  if jwtEnabled && jwt_client_buffer v.(v_client) && (t.(a_expiresAt) - now <=? SHORT_ACCESS_TOKEN_TTL_IN_MS)
  then (d, Some t)
  else if bool_decide (v.(v_client) ∈ pocketIds) then
    (mkDB d.(cache) (with_tokens (insert id (toJSON t)) d.(mysql)), Some t)
  else
    match redis_setAccessToken now t d.(cache) with
    | Some c => (mkDB c d.(mysql), Some t)
    | None => (d, None)
    end.

(** The outer [None] is a rejected promise. *)
Definition getAccessToken (now : Z) (id : string) (d : DB) : option (option AccessTok) :=
  match redis_getAccessToken now id d.(cache) with
  | Some t => Some (Some t)
  | None =>
      match d.(mysql).(m_tokens) !! id with
      | None => Some None
      | Some row => Some <$> fromMySQL d.(mysql).(m_clients) row
      end
  end.

Definition removeAccessToken (now : Z) (id : string) (d : DB) : DB :=
  let '(c, found) := lua_removeAccessToken now id d.(cache) in
  mkDB c (if found then d.(mysql) else with_tokens (delete id) d.(mysql)).

Definition rows_of_user {A} (user : A -> string) (u : string) (m : gmap string A) : list (string * A) :=
  map_to_list (filter (fun kv => user kv.2 = u) m).

Definition getAccessTokensByUid (now : Z) (u : string) (d : DB) : DB * option (list AccessTok) :=
  let '(c, ts) := redis_getAccessTokens now u d.(cache) in
  (mkDB c d.(mysql),
   others ← mapM (fun r => fromMySQL d.(mysql).(m_clients) r.2) (rows_of_user k_user u d.(mysql).(m_tokens));
   Some (ts ++ others)).

Definition generateRefreshToken (now : Z) (id client u : string) (scope : ScopeSet) (d : DB) : DB :=
  mkDB d.(cache) (with_refresh (insert id (mkRefreshRow client u (toString scope) now)) d.(mysql)).

(** A refresh token as it is handed out: with the latest time of use. *)
Record RefreshTok := mkRefreshTok { rt_id : string; rt_client : string; rt_user : string; rt_scope : ScopeSet; rt_lastUsedAt : Z }.

Definition touch (id : string) (now : Z) (m : Mysql) : Mysql :=
  with_refresh (alter (fun r => mkRefreshRow r.(r_client) r.(r_user) r.(r_scope) now) id) m.

Definition getRefreshToken (now : Z) (id : string) (d : DB) : DB * option (option RefreshTok) :=
  match d.(mysql).(m_refresh) !! id with
  | None => (d, Some None)
  | Some r =>
      match fromString imp r.(r_scope) with
      | None => (d, None)
      | Some scope =>
          let c := lua_setRefreshToken now r.(r_user) id now d.(cache) in
          let m := if now - r.(r_lastUsedAt) >? updateAfter then touch id now d.(mysql) else d.(mysql) in
          (mkDB c m, Some (Some (mkRefreshTok id r.(r_client) r.(r_user) scope now)))
      end
  end.

(** One pass over the rows of MySQL: the tokens, and the entries of redis that
    no row has used up. *)
Fixpoint merge_metadata (rows : list (string * RefreshRow)) (extra : gmap string Z)
    : option (list RefreshTok) * gmap string Z :=
  match rows with
  | [] => (Some [], extra)
  | (id, r) :: rows' =>
      let '(ts, rest) := merge_metadata rows' (delete id extra) in
      (scope ← fromString imp r.(r_scope);
       ts ← ts;
       Some (mkRefreshTok id r.(r_client) r.(r_user) scope (default r.(r_lastUsedAt) (extra !! id)) :: ts), rest)
  end.

Definition getRefreshTokensByUid (now : Z) (u : string) (d : DB) : DB * option (list RefreshTok) :=
  let '(ts, rest) := merge_metadata (rows_of_user r_user u d.(mysql).(m_refresh)) (metadata now d.(cache) u) in
  match ts with
  | None => (d, None)
  | Some ts =>
      (mkDB (if bool_decide (rest = ∅) then d.(cache) else redis_removeRefreshToken u (dom rest) d.(cache)) d.(mysql),
       Some ts)
  end.

Definition removeRefreshToken (u id : string) (d : DB) : DB :=
  mkDB (redis_removeRefreshToken u {[id]} d.(cache)) (with_refresh (delete id) d.(mysql)).

Definition removePublicAndCanGrantTokens (now : Z) (u : string) (d : DB) : DB :=
  mkDB (lua_remove_where now u for_public_clients d.(cache)) (_removePublicAndCanGrantTokens u d.(mysql)).

Definition deleteClientAuthorization (now : Z) (client u : string) (d : DB) : DB :=
  mkDB (lua_remove_where now u (for_client client) d.(cache)) (_deleteClientAuthorization client u d.(mysql)).

Definition deleteClientRefreshToken (now : Z) (id client u : string) (d : DB) : DB * bool :=
  let '(m, ok) := _deleteClientRefreshToken id client u d.(mysql) in
  (mkDB (if ok then lua_remove_where now u (for_client client) (redis_removeRefreshToken u {[id]} d.(cache))
         else d.(cache)) m, ok).

Definition removeUser (now : Z) (u : string) (d : DB) : DB :=
  mkDB (set_refresh (delete u) (lua_removeForUser now u d.(cache))) (_removeUser u d.(mysql)).

Definition pruneAuthorizationCodes (ttlInMs : option Z) (now : Z) (d : DB) : DB :=
  mkDB d.(cache) (_pruneAuthorizationCodes (num_or ttlInMs codeLifetime) now d.(mysql)).
End Store.

(** * Laws *)

Lemma live_Some {A} now (x : option (A * Z)) v : live now x = Some v <-> exists e, x = Some (v, e) /\ now < e.
Proof.
  unfold live. destruct x as [[v' e]|]; [|naive_solver]. destruct (Z.ltb_spec now e).
  - split; [intros [= ->]; eauto|]. by intros (? & [= -> _] & _).
  - split; [done|]. intros (? & [= -> ->] & ?). lia.
Qed.

Lemma live_later {A} now now' (x : option (A * Z)) v : now <= now' -> live now' x = Some v -> live now x = Some v.
Proof. rewrite !live_Some. intros ? (e & -> & ?). exists e. split; [done|lia]. Qed.

(** ** The index of a user's tokens is complete *)

Record cache_inv (maxttl now : Z) (c : Cache) : Prop := {
  ci_listed id v e : c.(tokens) !! id = Some (v, e) -> now < e ->
    v.(k_id) = id /\ exists m e', c.(index) !! v.(k_user) = Some (m, e') /\ id ∈ m /\ e <= e';
  ci_expiry u m e : c.(index) !! u = Some (m, e) -> e <= now + maxttl }.

Section CacheLaws.
Context (maxttl : Z).
Abbreviation inv := (cache_inv maxttl).

Lemma inv_later now now' c : now <= now' -> inv now c -> inv now' c.
Proof. intros ? [H1 H2]. split; [intros; eapply H1; eauto; lia|]. intros u m e He. specialize (H2 u m e He). lia. Qed.

Lemma inv_listed now c id v : inv now c -> cached now c id = Some v -> v.(k_id) = id /\ id ∈ members now c v.(k_user).
Proof.
  intros [Hl _] (e & Hid & He)%live_Some. destruct (Hl id v e Hid He) as (Hk & m & e' & Hi & Hm & Hle).
  split; [done|]. unfold members. assert (live now (index c !! k_user v) = Some m) as -> by (apply live_Some; eauto with lia).
  done.
Qed.

(** Tokens may go, and ids may leave the index of [u] when their token is gone
    or is not a token of [u]. *)
Lemma inv_shrink now c c' :
  inv now c ->
  (forall id x, c'.(tokens) !! id = Some x -> c.(tokens) !! id = Some x) ->
  (forall u m e, c'.(index) !! u = Some (m, e) -> exists m', c.(index) !! u = Some (m', e)) ->
  (forall u m e i v, c.(index) !! u = Some (m, e) -> i ∈ m -> now < e -> cached now c' i = Some v -> v.(k_user) = u ->
     exists m', c'.(index) !! u = Some (m', e) /\ i ∈ m') ->
  inv now c'.
Proof.
  intros [Hl Hx] Ht Hi Hk. split.
  - intros id v e Hid He. destruct (Hl id v e (Ht _ _ Hid) He) as (? & m & e' & Hm & Hin & Hle). split; [done|].
    destruct (Hk (k_user v) m e' id v Hm Hin) as (m' & Hm' & Hin'); [lia| |done|by exists m', e'].
    apply live_Some. eauto.
  - intros u m e He. destruct (Hi u m e He) as [m' Hm']. by apply (Hx u m' e).
Qed.

Lemma tokens_unlink ids c id x : (unlink ids c).(tokens) !! id = Some x <-> c.(tokens) !! id = Some x /\ id ∉ ids.
Proof. unfold unlink; simpl. by rewrite map_lookup_filter_Some. Qed.

Lemma cached_unlink now ids c id v : cached now (unlink ids c) id = Some v <-> cached now c id = Some v /\ id ∉ ids.
Proof. unfold cached. rewrite !live_Some. setoid_rewrite tokens_unlink. naive_solver. Qed.

Lemma inv_unlink now ids c : inv now c -> inv now (unlink ids c).
Proof.
  intros Hc. apply (inv_shrink now c); [done| | |].
  - intros id x Hid. by apply tokens_unlink in Hid as [? _].
  - simpl. eauto.
  - simpl. eauto.
Qed.

Lemma index_srem u ids c u' :
  (srem u ids c).(index) !! u' = (fun m => if bool_decide (u = u') then (m.1 ∖ ids, m.2) else m) <$> c.(index) !! u'.
Proof.
  simpl. case_bool_decide as He; [subst; by rewrite lookup_alter_eq|]. rewrite lookup_alter_ne by done.
  by destruct (index c !! u').
Qed.

(** [srem] followed by the removal of tokens, or of ids that are gone. *)
Lemma inv_srem_unlink now u ids gone c :
  inv now c -> (forall i v, i ∈ ids -> i ∉ gone -> cached now c i = Some v -> v.(k_user) <> u) ->
  inv now (unlink gone (srem u ids c)).
Proof.
  intros Hc Hgone. apply (inv_shrink now c); [done| | |].
  - intros id x Hid. by apply tokens_unlink in Hid as [? _].
  - intros u' m e. change (index (unlink gone (srem u ids c))) with (index (srem u ids c)). rewrite index_srem.
    destruct (index c !! u') as [[m' e']|]; [|done]. simpl. case_bool_decide; intros [= _ <-]; eauto.
  - intros u' m e i v Hm Hi He Hv Hu. change (index (unlink gone (srem u ids c))) with (index (srem u ids c)).
    rewrite index_srem, Hm. apply cached_unlink in Hv as [Hv Hni]. simpl. case_bool_decide as Hu'; [|eauto].
    eexists. split; [done|]. simpl. apply elem_of_difference. split; [done|]. intros Hin.
    apply (Hgone i v Hin Hni Hv). congruence.
Qed.

Lemma members_lookup now c u i :
  i ∈ members now c u <-> exists m e, c.(index) !! u = Some (m, e) /\ now < e /\ i ∈ m.
Proof.
  unfold members. destruct (live now (index c !! u)) as [m|] eqn:E; simpl.
  - apply live_Some in E as (e & -> & ?). naive_solver.
  - split; [set_solver|]. intros (m & e & Hm & He & _).
    assert (live now (index c !! u) = Some m) by (apply live_Some; eauto). congruence.
Qed.

(** The token of a listed user survives in the new index. *)
Lemma inv_store now u id v ttl m c :
  inv now c -> 0 <= maxttl -> ttl <= maxttl -> v.(k_user) = u -> v.(k_id) = id -> id ∈ m ->
  (forall i w, cached now c i = Some w -> w.(k_user) = u -> i ∈ m) ->
  inv now (store_token maxttl now u id v ttl m c).
Proof.
  intros [Hl Hx] Hmax Httl Hu Hid Hin Hm. split; simpl.
  - intros i w e. destruct (decide (i = id)) as [->|Hne].
    + rewrite lookup_insert_eq. intros [= <- <-] _. split; [done|]. exists m, (now + maxttl).
      rewrite Hu, lookup_insert_eq. split_and!; [done..|lia].
    + rewrite lookup_insert_ne by done. intros Hw He. destruct (Hl i w e Hw He) as (? & m' & e' & Hm' & Hi' & Hle).
      split; [done|]. destruct (decide (k_user w = u)) as [Huw|Huw].
      * exists m, (now + maxttl). rewrite Huw, lookup_insert_eq. split_and!; [done| |].
        -- apply (Hm i w); [|done]. apply live_Some. eauto.
        -- specialize (Hx _ _ _ Hm'). lia.
      * exists m', e'. by rewrite lookup_insert_ne by done.
  - intros u' m' e. destruct (decide (u' = u)) as [->|].
    + rewrite lookup_insert_eq. intros [= _ <-]. lia.
    + rewrite lookup_insert_ne by done. apply Hx.
Qed.

Lemma doomed_spec now c u p i :
  i ∈ doomed now c u p <-> i ∈ members now c u /\ forall v, cached now c i = Some v -> p v = true.
Proof.
  unfold doomed. rewrite elem_of_filter. destruct (cached now c i) as [v|]; naive_solver.
Qed.

Lemma inv_remove_where now u p c : inv now c -> inv now (lua_remove_where now u p c).
Proof. intros Hc. by apply inv_srem_unlink. Qed.

Lemma inv_getAccessTokens now u c : inv now c -> inv now (lua_getAccessTokens now u c).1.
Proof.
  intros Hc. simpl. assert (srem u (filter (fun i => cached now c i = None) (members now c u)) c =
    unlink ∅ (srem u (filter (fun i => cached now c i = None) (members now c u)) c)) as ->.
  { unfold unlink, srem. simpl. f_equal. symmetry. apply map_filter_id. set_solver. }
  apply inv_srem_unlink; [done|]. intros i v [Hn _]%elem_of_filter _ Hs. congruence.
Qed.

Lemma inv_removeForUser now u c : inv now c -> inv now (lua_removeForUser now u c).
Proof.
  intros Hc. apply (inv_shrink now (unlink (members now c u) c)); [by apply inv_unlink|done| |]; simpl.
  - intros u' m e [_ He]%lookup_delete_Some. eauto.
  - intros u' m e i v Hm Hi He Hv Hu. destruct (decide (u' = u)) as [->|].
    + change (cached now (unlink (members now c u) c) i = Some v) in Hv. apply cached_unlink in Hv as [Hv Hni].
      destruct Hni. subst u. by apply inv_listed.
    + exists m. by rewrite lookup_delete_ne.
Qed.

Lemma inv_refresh now f c : inv now c -> inv now (set_refresh f c).
Proof. intros Hc. apply (inv_shrink now c); [done..|eauto|eauto]. Qed.

(** What the removals leave behind, now and later. *)
Lemma removed_where now now' u p c id v :
  inv now c -> now <= now' -> cached now' (lua_remove_where now u p c) id = Some v ->
  ~ (v.(k_user) = u /\ p v = true).
Proof.
  intros Hc Hle Hv. apply (live_later now) in Hv; [|done]. apply (cached_unlink now) in Hv as [Hv Hni].
  intros [<- Hp]. apply Hni, doomed_spec. split; [by apply inv_listed|]. intros w Hw. change (cached now c id = Some v) in Hv.
  congruence.
Qed.

Lemma removed_user now now' u c id v :
  inv now c -> now <= now' -> cached now' (lua_removeForUser now u c) id = Some v -> v.(k_user) <> u.
Proof.
  intros Hc Hle Hv. apply (live_later now) in Hv; [|done]. apply (cached_unlink now) in Hv as [Hv Hni].
  intros <-. by apply Hni, inv_listed.
Qed.

Context (limit : Z) (spop : gset string -> nat -> gset string).
Hypothesis spop_sub : forall m n, spop m n ⊆ m.

Lemma inv_setAccessToken now u id v ttl c c' :
  inv now c -> 0 <= maxttl -> ttl <= maxttl -> v.(k_user) = u -> v.(k_id) = id ->
  lua_setAccessToken limit maxttl spop now u id v ttl c = Some c' -> inv now c'.
Proof.
  intros Hc Hmax Httl Hu Hid. unfold lua_setAccessToken.
  assert (forall i w, cached now c i = Some w -> k_user w = u -> i ∈ members now c u) as Hall.
  { intros i w Hw <-. by apply inv_listed. }
  destruct (_ >? limit).
  - case_bool_decide as Hd; [done|]. intros [= <-]. apply inv_store; try done.
    + by apply inv_unlink.
    + set_solver.
    + intros i w [Hw Hni]%cached_unlink Hwu. specialize (Hall i w Hw Hwu). set_solver.
  - destruct (_ && _); intros [= <-]; apply inv_store; try done; [set_solver| |set_solver|].
    + intros i w Hw Hwu. specialize (Hall i w Hw Hwu).
      destruct (decide (i ∈ spop (members now c u) (Z.to_nat limit))) as [Hp|]; [|set_solver].
      apply elem_of_union_r, elem_of_union_r, elem_of_filter. eauto.
    + intros i w Hw Hwu. specialize (Hall i w Hw Hwu). set_solver.
Qed.

(** ** Sizes *)

Hypothesis spop_size : forall m n, size (spop m n) = Nat.min n (size m).

Lemma members_store now u id v ttl m c u' :
  0 < maxttl -> members now (store_token maxttl now u id v ttl m c) u' =
  if bool_decide (u = u') then m else members now c u'.
Proof.
  intros Hmax. unfold members, store_token; simpl. case_bool_decide as He.
  - subst. rewrite lookup_insert_eq. simpl. by destruct (Z.ltb_spec now (now + maxttl)); [|lia].
  - by rewrite lookup_insert_ne.
Qed.

Lemma size_setAccessToken now u id v ttl c c' u' :
  2 <= limit -> 0 < maxttl -> (forall w, Z.of_nat (size (members now c w)) <= limit + 1) ->
  lua_setAccessToken limit maxttl spop now u id v ttl c = Some c' ->
  Z.of_nat (size (members now c' u')) <= limit + 1.
Proof.
  intros Hlim Hmax Hb. pose proof (Hb u) as Hbu. unfold lua_setAccessToken. set (m := members now c u) in *.
  assert (forall A : gset string, (size (A ∪ {[id]}) <= size A + 1)%nat) as Hadd.
  { intros A. pose proof (size_union_alt A ({[id]} : gset string)) as Hs.
    pose proof (subseteq_size ({[id]} ∖ A) ({[id]} : gset string) ltac:(set_solver)). rewrite size_singleton in *. lia. }
  destruct (Z.gtb_spec (Z.of_nat (size m)) limit).
  - case_bool_decide as Hd; [done|]. intros [= <-]. rewrite members_store by done. case_bool_decide; [|apply Hb].
    pose proof (Hadd (m ∖ spop m (Z.to_nat (limit / 2)))) as Ha.
    pose proof (size_difference m _ (spop_sub m (Z.to_nat (limit / 2)))) as Hsd. rewrite spop_size in Hsd.
    pose proof (Z.div_le_lower_bound limit 2 1). lia.
  - destruct (_ && _) eqn:He; intros [= <-]; rewrite members_store by done; (case_bool_decide; [|apply Hb]).
    + set (al := filter _ _).
      assert (m ∖ spop m (Z.to_nat limit) ∪ ({[id]} ∪ al) ⊆ m ∪ {[id]}) as Hsub.
      { pose proof (spop_sub m (Z.to_nat limit)). subst al. intros x. rewrite !elem_of_union, elem_of_filter. set_solver. }
      apply subseteq_size in Hsub. specialize (Hadd m). lia.
    + specialize (Hadd m). lia.
Qed.

Lemma size_setRefreshToken limit_r maxttl_r now u id at_ c u' :
  (forall w, Z.of_nat (size (metadata now c w)) <= Z.max 2 limit_r) ->
  Z.of_nat (size (metadata now (lua_setRefreshToken limit_r maxttl_r now u id at_ c) u')) <= Z.max 2 limit_r.
Proof.
  intros Hb. unfold lua_setRefreshToken. set (m := metadata now c u). set (old := filter _ m).
  set (n := if (2 <=? size m)%nat then _ else m).
  assert (old ⊆ m) as Hsub by apply map_filter_subseteq.
  assert (Z.of_nat (size n) + 1 <= Z.max 2 limit_r) as Hn.
  { subst n. destruct (Nat.leb_spec 2 (size m)); [|lia].
    destruct (Z.geb_spec (Z.of_nat (size m) - Z.of_nat (size old)) limit_r); [rewrite map_size_empty; lia|].
    assert (dom old ⊆ dom m) as Hd by by apply subseteq_dom. apply size_difference in Hd.
    rewrite <- dom_difference_L, !size_dom in Hd. lia. }
  assert (size (<[id:=at_]> n) <= size n + 1)%nat as Hadd by (rewrite map_size_insert; case_match; simpl; lia).
  clearbody n. unfold metadata; simpl. destruct (decide (u = u')) as [<-|]; [|rewrite lookup_insert_ne by done; apply Hb].
  rewrite lookup_insert_eq. simpl. destruct (now <? now + maxttl_r); simpl; [lia|]. rewrite map_size_empty. lia.
Qed.
End CacheLaws.

(** ** Nothing else grows *)

Definition below (now' : Z) (c' : Cache) (now : Z) (c : Cache) : Prop :=
  forall u, members now' c' u ⊆ members now c u /\ metadata now' c' u ⊆ metadata now c u.

Lemma below_refl now c : below now c now c.
Proof. done. Qed.

Lemma below_later now now' c : now <= now' -> below now' c now c.
Proof.
  intros Hle u. unfold members, metadata. split.
  - destruct (live now' (index c !! u)) as [m|] eqn:E; simpl; [|set_solver]. by apply (live_later now) in E as ->.
  - destruct (live now' (refresh c !! u)) as [m|] eqn:E; simpl; [|apply map_empty_subseteq].
    by apply (live_later now) in E as ->.
Qed.

Lemma live_shrink {A} now (f : A -> A) (x : option (A * Z)) :
  live now ((fun m => (f m.1, m.2)) <$> x) = f <$> live now x.
Proof. destruct x as [[v e]|]; [|done]. simpl. by destruct (now <? e). Qed.

Lemma below_srem now u ids c : below now (srem u ids c) now c.
Proof.
  intros u'. split; [|done]. unfold members, srem; simpl. destruct (decide (u = u')) as [<-|].
  - rewrite lookup_alter_eq, (live_shrink now (fun m => m ∖ ids)). destruct (live now (index c !! u)); set_solver.
  - by rewrite lookup_alter_ne.
Qed.

Lemma below_hdel now u ids c : below now (redis_removeRefreshToken u ids c) now c.
Proof.
  intros u'. split; [done|]. unfold metadata, redis_removeRefreshToken, set_refresh; simpl.
  destruct (decide (u = u')) as [<-|].
  - rewrite lookup_alter_eq, (live_shrink now (filter (fun kv => kv.1 ∉ ids))).
    destruct (live now (refresh c !! u)) as [m|]; [apply map_filter_subseteq|done].
  - by rewrite lookup_alter_ne.
Qed.

Lemma below_removeForUser now u c : below now (lua_removeForUser now u c) now c.
Proof.
  intros u'. split; [|done]. unfold members, lua_removeForUser; simpl. destruct (decide (u = u')) as [<-|].
  - rewrite lookup_delete_eq. set_solver.
  - by rewrite lookup_delete_ne.
Qed.

Lemma below_unlink_user now u c : below now (set_refresh (delete u) c) now c.
Proof.
  intros u'. split; [done|]. unfold metadata, set_refresh; simpl. destruct (decide (u = u')) as [<-|].
  - rewrite lookup_delete_eq. apply map_empty_subseteq.
  - by rewrite lookup_delete_ne.
Qed.

Lemma below_trans now c now' c' now'' c'' : below now'' c'' now' c' -> below now' c' now c -> below now'' c'' now c.
Proof. intros H1 H2 u. destruct (H1 u), (H2 u). split; by etrans. Qed.

(** ** Reachable databases *)

Definition empty_cache : Cache := mkCache ∅ ∅ ∅.

Section Reachable.
Context (href_of : string -> option string).
Context (limit maxttl limit_r maxttl_r updateAfter codeLifetime : Z) (pocketIds : list string).
Context (spop : gset string -> nat -> gset string) (jwtEnabled : bool) (short : Z).

Abbreviation imp := (getImplicantValues href_of).
Abbreviation newToken := (generateAccessToken limit maxttl pocketIds spop jwtEnabled short).
Abbreviation find := (getAccessToken href_of).

(** The endpoints ask for a lifetime of at most [MAX_TTL_S] seconds. *)
Definition admissible (v : Vals) : Prop :=
  v.(v_expiresAt) = None /\ num_or ((fun t => t * 1000) <$> v.(v_ttl)) maxttl <= maxttl.

(** One call of a method that writes. *)
Inductive step (now : Z) (d : DB) : DB -> Prop :=
  | s_generateAccessToken id v : admissible v -> step now d (newToken now id v d).1
  | s_removeAccessToken id : step now d (removeAccessToken now id d)
  | s_getAccessTokensByUid u : step now d (getAccessTokensByUid href_of now u d).1
  | s_generateRefreshToken id client u scope : step now d (generateRefreshToken now id client u scope d)
  | s_getRefreshToken id : step now d (getRefreshToken href_of limit_r maxttl_r updateAfter now id d).1
  | s_getRefreshTokensByUid u : step now d (getRefreshTokensByUid href_of now u d).1
  | s_removeRefreshToken u id : step now d (removeRefreshToken u id d)
  | s_removePublicAndCanGrantTokens u : step now d (removePublicAndCanGrantTokens now u d)
  | s_deleteClientAuthorization client u : step now d (deleteClientAuthorization now client u d)
  | s_deleteClientRefreshToken id client u : step now d (deleteClientRefreshToken now id client u d).1
  | s_removeUser u : step now d (removeUser now u d)
  | s_pruneAuthorizationCodes ttl : step now d (pruneAuthorizationCodes codeLifetime ttl now d)
  | s_mysql m : step now d (mkDB d.(cache) m).          (* codes and clients *)

Inductive reachable : Z -> DB -> Prop :=
  | r_init now m : reachable now (mkDB empty_cache m)
  | r_step now now' d d' : reachable now d -> now <= now' -> step now' d d' -> reachable now' d'.

Hypothesis maxttl_pos : 0 < maxttl.
Hypothesis spop_sub : forall m n, spop m n ⊆ m.

Lemma step_inv now d d' : step now d d' -> cache_inv maxttl now d.(cache) -> cache_inv maxttl now d'.(cache).
Proof.
  intros Hs Hc. destruct Hs; simpl; try done.
  - unfold generateAccessToken. destruct (_ && _); [done|]. case_bool_decide; [done|].
    destruct (redis_setAccessToken _ _ _ _ _ _) as [c|] eqn:E; [|done]. simpl. unfold redis_setAccessToken in E.
    destruct (_ <? 1); [by simplify_eq|]. destruct H as [He Hl].
    apply (inv_setAccessToken maxttl limit spop spop_sub) in E; [done|done|lia| |done|done].
    simpl. rewrite He. simpl. lia.
  - by apply inv_unlink.
  - by apply inv_getAccessTokens.
  - unfold getRefreshToken. destruct (_ !! id); [|done]. destruct (fromString _ _); [|done].
    by apply inv_refresh.
  - unfold getRefreshTokensByUid. destruct (merge_metadata _ _ _) as [[ts|] rest]; [|done]. simpl.
    case_bool_decide; [done|]. by apply inv_refresh.
  - by apply inv_refresh.
  - by apply inv_remove_where.
  - by apply inv_remove_where.
  - unfold deleteClientRefreshToken. destruct (_deleteClientRefreshToken _ _ _ _) as [m []]; simpl; [|done].
    by apply inv_remove_where, inv_refresh.
  - by apply inv_refresh, inv_removeForUser.
Qed.

Lemma empty_cache_inv now : cache_inv maxttl now empty_cache.
Proof. split; intros *; simpl; by rewrite lookup_empty. Qed.

Lemma reachable_inv now d : reachable now d -> cache_inv maxttl now d.(cache).
Proof.
  induction 1 as [now m|now now' d d' _ IH Hle Hs]; [apply empty_cache_inv|].
  eapply step_inv; [done|]. by eapply inv_later.
Qed.

(** ** What removals leave *)

Lemma find_cases now id d t :
  find now id d = Some (Some t) ->
  (exists v, cached now d.(cache) id = Some v /\ t.(a_user) = v.(k_user) /\ t.(a_client) = v.(k_client) /\
     t.(a_canGrant) = v.(k_canGrant) /\ t.(a_public) = v.(k_public)) \/
  (exists v, d.(mysql).(m_tokens) !! id = Some v /\ t.(a_user) = v.(k_user) /\ t.(a_client) = v.(k_client) /\
     t.(a_canGrant) || t.(a_public) = grants_directly d.(mysql) v.(k_client)).
Proof.
  unfold getAccessToken, redis_getAccessToken. destruct (cached now (cache d) id) as [v|] eqn:Hv; simpl.
  - unfold parse. destruct (fromString _ (k_scope v)) as [scope|]; simpl; [intros [= <-]; left; eauto 10|].
    destruct (m_tokens (mysql d) !! id) as [r|]; [|done]. unfold fromMySQL.
    destruct (fromString _ (k_scope r)); [|done]. intros [= <-]. right. exists r. split_and!; try done.
    unfold grants_directly. simpl. by destruct (m_clients (mysql d) !! k_client r) as [[[] []]|].
  - destruct (m_tokens (mysql d) !! id) as [r|]; [|done]. unfold fromMySQL.
    destruct (fromString _ (k_scope r)); [|done]. intros [= <-]. right. exists r. split_and!; try done.
    unfold grants_directly. simpl. by destruct (m_clients (mysql d) !! k_client r) as [[[] []]|].
Qed.

(** No access token is left, now or later, that satisfies [p]. *)
Definition gone_for_good (p : AccessTok -> Prop) (now : Z) (d : DB) : Prop :=
  forall now' id t, now <= now' -> find now' id d = Some (Some t) -> ~ p t.

Lemma removeUser_spec now u d :
  cache_inv maxttl now d.(cache) ->
  gone_for_good (fun t => t.(a_user) = u) now (removeUser now u d) /\
  (forall id r, (removeUser now u d).(mysql).(m_refresh) !! id = Some r -> r.(r_user) <> u) /\
  (forall id r, (removeUser now u d).(mysql).(m_codes) !! id = Some r -> r.(c_user) <> u).
Proof.
  intros Hc. split; [|split; intros id r; simpl; by intros [_ ?]%map_lookup_filter_Some].
  intros now' id t Hle [(v & Hv & Hu & _)|(v & Hv & Hu & _)]%find_cases; rewrite Hu.
  - by eapply removed_user.
  - simpl in Hv. by apply map_lookup_filter_Some in Hv as [_ ?].
Qed.

Lemma deleteClientAuthorization_spec now client u d :
  cache_inv maxttl now d.(cache) ->
  gone_for_good (fun t => t.(a_user) = u /\ t.(a_client) = client) now (deleteClientAuthorization now client u d) /\
  (forall id r, (deleteClientAuthorization now client u d).(mysql).(m_refresh) !! id = Some r ->
     ~ (r.(r_client) = client /\ r.(r_user) = u)) /\
  (forall id r, (deleteClientAuthorization now client u d).(mysql).(m_codes) !! id = Some r ->
     ~ (r.(c_client) = client /\ r.(c_user) = u)).
Proof.
  intros Hc. split; [|split; intros id r; simpl; by intros [_ ?]%map_lookup_filter_Some].
  intros now' id t Hle [(v & Hv & Hu & Hcl & _)|(v & Hv & Hu & Hcl & _)]%find_cases; rewrite Hu, Hcl.
  - intros [Hvu Hvc]. apply (removed_where maxttl now now' u (for_client client) d.(cache) id v Hc Hle Hv).
    split; [done|]. by apply String.eqb_eq.
  - simpl in Hv. apply map_lookup_filter_Some in Hv as [_ ?]. naive_solver.
Qed.

Lemma removePublic_spec now u d :
  cache_inv maxttl now d.(cache) ->
  gone_for_good (fun t => t.(a_user) = u /\ (t.(a_canGrant) || t.(a_public)) = true) now
    (removePublicAndCanGrantTokens now u d).
Proof.
  intros Hc now' id t Hle [(v & Hv & Hu & _ & Hg & Hp)|(v & Hv & Hu & _ & Hg)]%find_cases [Htu Ht].
  - rewrite Hg, Hp in Ht. rewrite Hu in Htu.
    by apply (removed_where maxttl now now' u for_public_clients d.(cache) id v Hc Hle Hv).
  - rewrite Hg in Ht. rewrite Hu in Htu. apply map_lookup_filter_Some in Hv as [_ Hn]. apply Hn. split; [done|exact Ht].
Qed.

Lemma deleteClientRefreshToken_spec now id client u d d' :
  cache_inv maxttl now d.(cache) -> deleteClientRefreshToken now id client u d = (d', true) ->
  gone_for_good (fun t => t.(a_user) = u /\ t.(a_client) = client) now d' /\ d'.(mysql).(m_refresh) !! id = None.
Proof.
  intros Hc. unfold deleteClientRefreshToken, _deleteClientRefreshToken.
  destruct (m_refresh (mysql d) !! id) as [r|] eqn:Hr; [|done]. destruct (_ && _); [|done]. intros [= <-].
  split; [|by apply lookup_delete_eq].
  intros now' i t Hle [(v & Hv & Hu & Hcl & _)|(v & Hv & Hu & Hcl & _)]%find_cases; rewrite Hu, Hcl.
  - intros [Hvu Hvc]. eapply (removed_where maxttl now now' u (for_client client) _ i v); [|done|exact Hv|].
    + by apply inv_refresh.
    + split; [done|]. by apply String.eqb_eq.
  - simpl in Hv. apply map_lookup_filter_Some in Hv as [_ ?]. naive_solver.
Qed.

(** ** Sizes *)

Hypothesis limit_two : 2 <= limit.
Hypothesis spop_size : forall m n, size (spop m n) = Nat.min n (size m).

Definition bounded (now : Z) (c : Cache) : Prop :=
  forall u, Z.of_nat (size (members now c u)) <= limit + 1 /\ Z.of_nat (size (metadata now c u)) <= Z.max 2 limit_r.

Lemma bounded_below now c now' c' : below now' c' now c -> bounded now c -> bounded now' c'.
Proof.
  intros Hb Hc u. destruct (Hb u) as [Hm Hd], (Hc u) as [Hm' Hd'].
  apply subseteq_size in Hm. apply map_subseteq_size in Hd. lia.
Qed.

Lemma step_bounded now d d' : step now d d' -> bounded now d.(cache) -> bounded now d'.(cache).
Proof.
  intros Hs Hc. destruct Hs; simpl; try done.
  - unfold generateAccessToken. destruct (_ && _); [done|]. case_bool_decide; [done|].
    destruct (redis_setAccessToken _ _ _ _ _ _) as [c|] eqn:E; [|done]. simpl. unfold redis_setAccessToken in E.
    destruct (_ <? 1); [by simplify_eq|]. intros w. split.
    + apply (size_setAccessToken maxttl limit spop spop_sub spop_size _ _ _ _ _ _ _ w) in E; [done..|].
      intros w'. apply Hc.
    + assert (refresh c = refresh (cache d)) as Hr.
      { unfold lua_setAccessToken in E. destruct (_ >? limit); [case_bool_decide; by simplify_eq|].
        destruct (_ && _); by simplify_eq. }
      unfold metadata. rewrite Hr. apply Hc.
  - eapply bounded_below, Hc. apply below_srem.
  - unfold getRefreshToken. destruct (_ !! id) as [r|]; [|done]. destruct (fromString _ _); [|done]. simpl. intros w.
    split; [apply Hc|]. apply size_setRefreshToken. intros w'. apply Hc.
  - unfold getRefreshTokensByUid. destruct (merge_metadata _ _ _) as [[ts|] rest]; [|done]. simpl.
    case_bool_decide; [done|]. eapply bounded_below, Hc. apply below_hdel.
  - eapply bounded_below, Hc. apply below_hdel.
  - eapply bounded_below, Hc. apply below_srem.
  - eapply bounded_below, Hc. apply below_srem.
  - unfold deleteClientRefreshToken. destruct (_deleteClientRefreshToken _ _ _ _) as [m []]; simpl; [|done].
    eapply bounded_below, Hc. eapply below_trans; [apply below_srem|apply below_hdel].
  - eapply bounded_below, Hc. eapply below_trans; [apply below_unlink_user|apply below_removeForUser].
Qed.

Lemma reachable_bounded now d : reachable now d -> bounded now d.(cache).
Proof.
  induction 1 as [now m|now now' d d' _ IH Hle Hs].
  - intros u. cbn [cache]. assert (members now empty_cache u = ∅ /\ metadata now empty_cache u = ∅) as [-> ->] by done.
    rewrite size_empty, map_size_empty. lia.
  - eapply step_bounded; [done|]. eapply bounded_below, IH. by apply below_later.
Qed.
End Reachable.

(** ** Round trip *)

Section RoundTrip.
Context (href_of : string -> option string).
Context (limit maxttl : Z) (pocketIds : list string).
Context (spop : gset string -> nat -> gset string) (jwtEnabled : bool) (short : Z).

Abbreviation set_inv := (Scopes.inv (getImplicantValues href_of) (good_scope href_of)).

Definition same_token (t t' : AccessTok) : Prop :=
  t'.(a_id) = t.(a_id) /\ t'.(a_client) = t.(a_client) /\ t'.(a_user) = t.(a_user) /\
  t'.(a_expiresAt) = t.(a_expiresAt) /\ t'.(a_createdAt) = t.(a_createdAt) /\
  getScopeValues t'.(a_scope) = getScopeValues t.(a_scope).

Lemma parse_toJSON t :
  set_inv t.(a_scope) -> exists t', parse href_of (toJSON t) = Some t' /\ same_token t t' /\
    t'.(a_canGrant) = t.(a_canGrant) /\ t'.(a_public) = t.(a_public).
Proof.
  intros Ht. destruct (string_roundtrip href_of _ Ht) as (S & HS & _ & Hv). unfold parse, toJSON; simpl. rewrite HS. simpl.
  eexists. split; [done|]. by repeat split.
Qed.

Lemma fromMySQL_toJSON clients t :
  set_inv t.(a_scope) -> exists t', fromMySQL href_of clients (toJSON t) = Some t' /\ same_token t t'.
Proof.
  intros Ht. destruct (string_roundtrip href_of _ Ht) as (S & HS & _ & Hv). unfold fromMySQL, toJSON; simpl. rewrite HS. simpl.
  eexists. split; [done|]. by repeat split.
Qed.

Lemma set_stores now u id v ttl c c' :
  lua_setAccessToken limit maxttl spop now u id v ttl c = Some c' -> c'.(tokens) !! id = Some (v, now + ttl).
Proof.
  unfold lua_setAccessToken. destruct (_ >? limit); [case_bool_decide; [done|]|destruct (_ && _)];
    intros [= <-]; apply lookup_insert_eq.
Qed.
End RoundTrip.

(** * Claims *)

Section Claims.
Context (href_of : string -> option string).
Context (limit maxttl limit_r maxttl_r updateAfter codeLifetime : Z) (pocketIds : list string).
Context (spop : gset string -> nat -> gset string) (jwtEnabled : bool) (short : Z).
Hypothesis maxttl_pos : 0 < maxttl.
Hypothesis spop_sub : forall m n, spop m n ⊆ m.

Abbreviation reach := (reachable href_of limit maxttl limit_r maxttl_r updateAfter codeLifetime pocketIds spop jwtEnabled short).

(** [C6] Revoking access is complete.  In every database that the methods can
    produce, removing a user, the authorization of one client, one refresh
    token with the access of its client, or (at a password change) the tokens
    of public and directly granting clients, leaves no access token of that
    kind in either store, then or at any later time. *)
Theorem oauth_revocation_complete now d u client id :
  reach now d ->
  gone_for_good href_of (fun t => t.(a_user) = u) now (removeUser now u d) /\
  gone_for_good href_of (fun t => t.(a_user) = u /\ t.(a_client) = client) now
    (deleteClientAuthorization now client u d) /\
  gone_for_good href_of (fun t => t.(a_user) = u /\ (t.(a_canGrant) || t.(a_public)) = true) now
    (removePublicAndCanGrantTokens now u d) /\
  (forall d', deleteClientRefreshToken now id client u d = (d', true) ->
     gone_for_good href_of (fun t => t.(a_user) = u /\ t.(a_client) = client) now d' /\
     d'.(mysql).(m_refresh) !! id = None).
Proof.
  intros Hr. apply reachable_inv in Hr; [|done..]. split_and!.
  - by apply (removeUser_spec href_of maxttl).
  - by apply (deleteClientAuthorization_spec href_of maxttl).
  - by apply (removePublic_spec href_of maxttl).
  - intros d'. by apply (deleteClientRefreshToken_spec href_of maxttl).
Qed.

(** The set of a user's tokens is complete: every access token that can still
    be read from redis is listed under its user, so that nothing escapes the
    removals that go through the list. *)
Theorem oauth_index_complete now d id v :
  reach now d -> cached now d.(cache) id = Some v -> v.(k_id) = id /\ id ∈ members now d.(cache) v.(k_user).
Proof. intros Hr%reachable_inv Hv; [|done..]. by apply (inv_listed maxttl). Qed.

(** Redis keeps at most [limit + 1] access token ids and [max 2 limit_r]
    refresh token entries per user, whatever is asked of the database. *)
Theorem oauth_store_bounded now d u :
  2 <= limit -> (forall m n, size (spop m n) = Nat.min n (size m)) -> reach now d ->
  Z.of_nat (size (members now d.(cache) u)) <= limit + 1 /\
  Z.of_nat (size (metadata now d.(cache) u)) <= Z.max 2 limit_r.
Proof. intros Hl Hs Hr. by eapply reachable_bounded. Qed.
End Claims.

(** A new access token is found again until it expires, and one of Pocket
    beyond that, with its client, user, times and scopes, the scopes having
    been printed and parsed on the way. *)
Theorem access_token_roundtrip href_of limit maxttl pocketIds spop jwtEnabled short now now' id v d d' t :
  Scopes.inv (getImplicantValues href_of) (good_scope href_of) v.(v_scope) ->
  generateAccessToken limit maxttl pocketIds spop jwtEnabled short now id v d = (d', Some t) ->
  now < t.(a_expiresAt) -> d.(cache).(tokens) !! id = None ->
  v.(v_client) ∈ pocketIds \/ now' < t.(a_expiresAt) ->
  exists t', getAccessToken href_of now' id d' = Some (Some t') /\ same_token t t'.
Proof.
  intros Hs Hg Ht Hfree Hlate. unfold generateAccessToken in Hg. unfold jwt_client_buffer in Hg.
  rewrite andb_false_r in Hg. simpl in Hg. unfold getAccessToken, redis_getAccessToken.
  case_bool_decide as Hp.
  - simplify_eq. simpl in *. unfold cached. rewrite Hfree. simpl. rewrite lookup_insert_eq.
    destruct (fromMySQL_toJSON href_of (m_clients (mysql d)) (generate maxttl now id v) Hs) as (t' & -> & ?). by exists t'.
  - destruct Hlate as [?|Hlate]; [done|]. unfold redis_setAccessToken in Hg.
    destruct (Z.ltb_spec (a_expiresAt (generate maxttl now id v) - now) 1) as [?|_]; [simplify_eq; lia|].
    destruct (lua_setAccessToken _ _ _ _ _ _ _ _ _) as [c|] eqn:E; [|done]. simplify_eq. apply set_stores in E.
    assert (cached now' c id = Some (toJSON (generate maxttl now id v))) as Hc.
    { apply live_Some. eexists. split; [exact E|lia]. }
    simpl. rewrite Hc. simpl.
    destruct (parse_toJSON href_of (generate maxttl now id v) Hs) as (t' & -> & ? & _). by exists t'.
Qed.

(** ** Witnesses *)

(** [SPOP] that takes the first members. *)
Definition spop_first (m : gset string) (n : nat) : gset string := list_to_set (take n (elements m)).

Lemma spop_first_sub m n : spop_first m n ⊆ m.
Proof.
  intros x. unfold spop_first. rewrite elem_of_list_to_set. intros Hx. apply elem_of_elements.
  rewrite <- (take_drop n (elements m)). set_solver.
Qed.

Lemma spop_first_size m n : size (spop_first m n) = Nat.min n (size m).
Proof.
  unfold spop_first. rewrite size_list_to_set; [by rewrite length_take|].
  apply (sublist_NoDup _ (elements m)); [apply NoDup_elements|apply sublist_take].
Qed.

Definition profile_vals : Vals := mkVals "c1"%string true true "alice"%string profile_set None None (Some 3600).

Abbreviation sample_reach := (reachable Some 10 7200000 10 7200000 1000 900000 ["poc"%string] spop_first true 21600000).

Abbreviation sample_new := (generateAccessToken 10 7200000 ["poc"%string] spop_first true 21600000).

Definition start_db : DB := mkDB empty_cache (mkMysql ∅ ∅ ∅ ∅).

Definition one_token : DB := (sample_new 1000 "t1"%string profile_vals start_db).1.

Lemma one_token_reachable : sample_reach 1000 one_token.
Proof.
  apply (r_step Some 10 7200000 10 7200000 1000 900000 ["poc"%string] spop_first true 21600000 1000 1000 start_db);
    [constructor|lia|]. apply s_generateAccessToken. by split.
Qed.

Definition revoked_db : DB := deleteClientAuthorization 2000 "c2" "bob" one_token.

Lemma revoked_db_reachable : sample_reach 2000 revoked_db.
Proof.
  apply (r_step Some 10 7200000 10 7200000 1000 900000 ["poc"%string] spop_first true 21600000 1000 2000 one_token);
    [exact one_token_reachable|lia|apply s_deleteClientAuthorization].
Qed.

Lemma oauth_revocation_complete_witness :
  gone_for_good Some (fun t => t.(a_user) = "alice"%string) 2000 (removeUser 2000 "alice" revoked_db).
Proof.
  destruct (oauth_revocation_complete Some 10 7200000 10 7200000 1000 900000 ["poc"%string] spop_first true
    21600000 eq_refl spop_first_sub 2000 revoked_db "alice" "c1" "r1" revoked_db_reachable) as [Hgone _].
  exact Hgone.
Defined.

Lemma oauth_index_complete_witness :
  "t1"%string ∈ members 1000 one_token.(cache) "alice".
Proof.
  refine (proj2 (oauth_index_complete Some 10 7200000 10 7200000 1000 900000 ["poc"%string] spop_first true
    21600000 eq_refl spop_first_sub 1000 one_token "t1" (toJSON (generate 7200000 1000 "t1" profile_vals))
    one_token_reachable _)).
  vm_compute. reflexivity.
Defined.

Lemma oauth_store_bounded_witness :
  Z.of_nat (size (members 1000 one_token.(cache) "alice")) <= 11 /\
  Z.of_nat (size (metadata 1000 one_token.(cache) "alice")) <= 10.
Proof.
  exact (oauth_store_bounded Some 10 7200000 10 7200000 1000 900000 ["poc"%string] spop_first true
    21600000 eq_refl spop_first_sub 1000 one_token "alice" ltac:(lia) spop_first_size one_token_reachable).
Defined.

Lemma access_token_roundtrip_witness :
  exists t', getAccessToken Some 3000 "t1" one_token = Some (Some t') /\
    same_token (generate 7200000 1000 "t1" profile_vals) t'.
Proof.
  apply (access_token_roundtrip Some 10 7200000 ["poc"%string] spop_first true 21600000 1000 3000 "t1" profile_vals
    start_db one_token).
  - exact profile_inv.
  - vm_compute. reflexivity.
  - vm_compute. reflexivity.
  - vm_compute. reflexivity.
  - right. vm_compute. reflexivity.
Defined.
