(* ===== verification/Assertion.v ===== *)
(** * Identity assertions (packages/fxa-auth-server/lib/oauth/util.js,
      oauth/assertion.js, lib/serverJWT.js)

    A session is turned into signed claims ([makeAssertionJWT]) that the OAuth
    code verifies again ([verifyAssertion]).  Signing and checking one
    signature are parameters; the rotation of keys, the schema of the claims
    and the conditions on the session are modelled. *)

From Stdlib Require Import Ascii.
From S2P Require Import Prelude Text ScopeValues Scopes Grant.
From S2P Require Tokens.

#[local] Open Scope string_scope.
#[local] Open Scope Z_scope.

(** ** Data *)

(** The claims of an assertion: what a grant is made of, and the times that
    decide whether keys may be handed out. *)
Record FullClaims := mkFull {
  f_base : Claims;
  f_iat : option Z;
  f_generation : option Z;
  f_keysChangedAt : option Z }.

(** The credentials of a request: the session token and the account's fields
    that the database joins to it. *)
Record Credentials := mkCredentials {
  session : Tokens.SessionToken;
  cr_id : string;
  cr_email : string;
  cr_verifierSetAt : Z;
  cr_keysChangedAt : option Z }.

Inductive AssertErr := UnverifiedAccount | UnverifiedSession | AssertFailed | InvalidAssertionErr.

(** ** util.js *)

(** The claims that are signed. *)
Definition makeAssertion (cr : Credentials) : FullClaims + AssertErr :=
  let t := cr.(session) in
  if negb t.(Tokens.emailVerified) then inr UnverifiedAccount
  else if t.(Tokens.mustVerify) && negb t.(Tokens.tokenVerified) then inr UnverifiedSession
  else
    match Tokens.authenticationMethods t, Tokens.authenticatorAssuranceLevel t with
    | Some amr, Some aal =>
        inl (mkFull
          (mkClaims (default "" t.(Tokens.token).(Tokens.uid)) cr.(cr_email) (Some aal) t.(Tokens.tokenVerified)
             (Some cr.(cr_id)) (Some (Tokens.lastAuthAt t)) (Some amr))
          None (Some cr.(cr_verifierSetAt)) cr.(cr_keysChangedAt))
    | _, _ => inr AssertFailed
    end.

(** [jsonwebtoken.sign] adds the time of signing; [sign] is the signature. *)
Definition makeAssertionJWT (sign : FullClaims -> string) (now : Z) (cr : Credentials) : string + AssertErr :=
  match makeAssertion cr with
  | inl c => inl (sign (mkFull c.(f_base) (Some (now / 1000)) c.(f_generation) c.(f_keysChangedAt)))
  | inr e => inr e
  end.

(** ** serverJWT.js *)

(** [jsonwebtoken.verify] with one key. *)
Inductive JwtCheck := Verified (c : FullClaims) | InvalidSignature | OtherFailure.

Fixpoint verifyJWT (check : string -> string -> JwtCheck) (keys : list string) (jwt : string) : option FullClaims :=
  match keys with
  | [] => None
  | key :: keys' =>
      match check key jwt with
      | Verified c => Some c
      | InvalidSignature => verifyJWT check keys' jwt
      | OtherFailure => None
      end
  end.

(** ** assertion.js *)

Definition is_lower_hex (a : ascii) : bool :=
  let n := nat_of_ascii a in (Nat.leb 48 n && Nat.leb n 57) || (Nat.leb 97 n && Nat.leb n 102).

Definition is_alphanum (a : ascii) : bool :=
  let n := nat_of_ascii a in
  (Nat.leb 48 n && Nat.leb n 57) || (Nat.leb 65 n && Nat.leb n 90) || (Nat.leb 97 n && Nat.leb n 122).

Fixpoint all_chars (p : ascii -> bool) (s : string) : bool :=
  match s with EmptyString => true | String a s' => p a && all_chars p s' end.

Definition is_hex (a : ascii) : bool :=
  let n := nat_of_ascii a in is_lower_hex a || (Nat.leb 65 n && Nat.leb n 70).

(** [Joi.string().length(n).regex(...)] *)
Definition hex_string (p : ascii -> bool) (n : nat) (s : string) : bool :=
  Nat.eqb (String.length s) n && all_chars p s.

Definition opt_min0 (x : option Z) : bool := match x with Some v => 0 <=? v | None => true end.

(** [CLAIMS_SCHEMA] *)
Definition CLAIMS_SCHEMA (c : FullClaims) : bool :=
  let b := c.(f_base) in
  hex_string is_lower_hex 32 b.(uid) &&
  (bool_decide (is_Some c.(f_generation)) && opt_min0 c.(f_generation)) &&
  (str_truthy b.(fxa_verifiedEmail) && Nat.leb (String.length b.(fxa_verifiedEmail)) 255) &&
  (bool_decide (is_Some b.(fxa_lastAuthAt)) && opt_min0 b.(fxa_lastAuthAt)) &&
  opt_min0 c.(f_iat) &&
  match b.(fxa_sessionTokenId) with Some s => hex_string is_hex 64 s | None => true end &&
  match b.(fxa_amr) with Some l => forallb (fun s => str_truthy s && all_chars is_alphanum s) l | None => true end &&
  match b.(fxa_aal) with Some a => (0 <=? a) && (a <=? 3) | None => true end &&
  opt_min0 c.(f_keysChangedAt).

Section Assertion.
(** [check]: one signature; [browserid]: the remote verifier. *)
Context (check : string -> string -> JwtCheck) (keys : list string) (browserid : string -> option FullClaims).

Definition verifyAssertion (assertion : string) : option FullClaims :=
  claims ← (if avoids "~" assertion then verifyJWT check keys assertion else browserid assertion);
  if CLAIMS_SCHEMA claims then Some claims else None.
End Assertion.

(** ** Laws *)

(** Key rotation: a signature by any of the keys is accepted as long as the
    keys before it only report a wrong signature. *)
Lemma verifyJWT_rotation check keys1 key keys2 jwt c :
  Forall (fun k => check k jwt = InvalidSignature) keys1 -> check key jwt = Verified c ->
  verifyJWT check (keys1 ++ key :: keys2)%list jwt = Some c.
Proof. induction 1 as [|k ks Hk _ IH]; intros Hc; simpl; [by rewrite Hc|]. rewrite Hk. by apply IH. Qed.

Lemma verifyJWT_sound check keys jwt c :
  verifyJWT check keys jwt = Some c -> exists key, key ∈ keys /\ check key jwt = Verified c.
Proof.
  induction keys as [|k ks IH]; simpl; [done|]. destruct (check k jwt) eqn:E; [|..|done].
  - intros [= ->]. exists k. split; [by left|done].
  - intros Hc. destruct (IH Hc) as (key & Hin & Hk). exists key. split; [by right|done].
Qed.

(** Which sessions an assertion can be made for, and what it says of them. *)
Lemma makeAssertion_spec cr c :
  makeAssertion cr = inl c ->
  cr.(session).(Tokens.emailVerified) = true /\
  (cr.(session).(Tokens.mustVerify) = true -> cr.(session).(Tokens.tokenVerified) = true) /\
  c.(f_base).(fxa_tokenVerified) = cr.(session).(Tokens.tokenVerified) /\
  c.(f_base).(fxa_lastAuthAt) = Some (Tokens.lastAuthAt cr.(session)) /\
  c.(f_base).(fxa_amr) = Tokens.authenticationMethods cr.(session) /\
  c.(f_base).(fxa_aal) = Tokens.authenticatorAssuranceLevel cr.(session).
Proof.
  unfold makeAssertion. destruct (Tokens.emailVerified (session cr)); [|done]. simpl.
  destruct (Tokens.mustVerify (session cr)) eqn:Hm, (Tokens.tokenVerified (session cr)) eqn:Ht; simpl; try done;
    destruct (Tokens.authenticationMethods (session cr)) as [amr|]; try done;
    destruct (Tokens.authenticatorAssuranceLevel (session cr)) as [aal|]; try done;
    intros [= <-]; by split_and!.
Qed.

Lemma all_chars_avoids p c s : all_chars p s = true -> p c = false -> avoids c s = true.
Proof.
  intros Hs Hc. induction s as [|a s IH]; [done|]. simpl in *. apply andb_true_iff in Hs as [Ha Hs].
  rewrite (IH Hs), andb_true_r. apply negb_true_iff. destruct (Ascii.eqb_spec a c) as [->|]; [congruence|done].
Qed.

(** Claims that pass the schema hold AMR values without commas. *)
Lemma schema_amr c amr :
  CLAIMS_SCHEMA c = true -> c.(f_base).(fxa_amr) = Some amr -> Forall (fun s => avoids "," s = true) amr.
Proof.
  unfold CLAIMS_SCHEMA. intros Hc Hamr. rewrite Hamr in Hc. rewrite !andb_true_iff in Hc. destruct Hc as [[[_ Hl] _] _].
  apply Forall_forall. intros s Hs. rewrite forallb_forall in Hl. apply list_elem_of_In in Hs.
  specialize (Hl s Hs). apply andb_true_iff in Hl as [_ Ha]. by eapply all_chars_avoids.
Qed.
