(* ===== verification/Authorization.v ===== *)
(** * The OAuth authorization endpoints (packages/fxa-auth-server/lib/routes/oauth/authorization.js)

    A session or an assertion is exchanged for an authorization code, or
    directly for tokens.  Codes are kept in the table [codes] of the store of
    [OAuthStore], under the hash of the code; [sql_oauthdb] makes that store
    the database the token endpoint works on, so that a code can be followed
    from the one endpoint to the other. *)

From Stdlib Require Import Ascii.
From S2P Require Import Prelude Text ScopeValues Scopes Grant TokenEndpoint Assertion.
From S2P Require OAuthStore Tokens.

#[local] Open Scope string_scope.
#[local] Open Scope Z_scope.

(** ** The store of codes and clients (oauth/db/mysql/index.js) *)

Record AuthDB := mkAuthDB { s_db : OAuthStore.DB; s_clients : gmap string OAuthClient }.

(** [amr.join(',')] and [amr.split(',')] *)
Definition print_amr (amr : option (list string)) : option string := join "," <$> amr.
Definition parse_amr (amr : option string) : option (list string) := split_on "," <$> amr.

Section Codes.
Context (href_of : string -> option string) (hash : string -> string).
Abbreviation imp := (getImplicantValues href_of).

(** The row [generateCode] writes; the column [createdAt] holds seconds. *)
Definition code_row (now : Z) (g : Grant) (method challenge : option string) : OAuthStore.CodeRow := {|
  OAuthStore.c_client := g.(g_clientId); OAuthStore.c_user := g.(g_userId);
  OAuthStore.c_scope := toString g.(g_scope); OAuthStore.c_authAt := g.(g_authAt);
  OAuthStore.c_amr := print_amr g.(g_amr); OAuthStore.c_aal := truthy_num g.(g_aal);
  OAuthStore.c_offline := g.(g_offline); OAuthStore.c_challengeMethod := method;
  OAuthStore.c_challenge := challenge; OAuthStore.c_keysJwe := g.(g_keysJwe);
  OAuthStore.c_session := g.(g_sessionTokenId); OAuthStore.c_createdAt := now - now mod 1000 |}.

Definition put_codes f (d : AuthDB) : AuthDB :=
  mkAuthDB (OAuthStore.mkDB d.(s_db).(OAuthStore.cache) (OAuthStore.with_codes f d.(s_db).(OAuthStore.mysql))) d.(s_clients).

(** [code] is the random code. *)
Definition generateCode (now : Z) (code : string) (g : Grant) (method challenge : option string) (d : AuthDB) : AuthDB :=
  put_codes (insert (hash code) (code_row now g method challenge)) d.

(** A row of the table as [getCode] returns it: the address and the scope
    configuration of the grant are not stored. *)
Definition read_code (r : OAuthStore.CodeRow) : option CodeObj :=
  scope ← fromString imp r.(OAuthStore.c_scope);
  Some (mkCode
    {| g_clientId := r.(OAuthStore.c_client); g_userId := r.(OAuthStore.c_user); g_email := ""; g_scope := scope;
       g_scopeConfig := []; g_sessionTokenId := r.(OAuthStore.c_session); g_offline := r.(OAuthStore.c_offline);
       g_authAt := r.(OAuthStore.c_authAt); g_amr := parse_amr r.(OAuthStore.c_amr);
       g_aal := r.(OAuthStore.c_aal); g_keysJwe := r.(OAuthStore.c_keysJwe) |}
    r.(OAuthStore.c_createdAt) r.(OAuthStore.c_challenge) r.(OAuthStore.c_challengeMethod)).

Definition sql_getCode (d : AuthDB) (code : string) : option (option CodeObj) :=
  match d.(s_db).(OAuthStore.mysql).(OAuthStore.m_codes) !! hash code with
  | None => Some None
  | Some r => Some <$> read_code r
  end.

Definition sql_removeCode (d : AuthDB) (code : string) : AuthDB * bool := (put_codes (delete (hash code)) d, true).

(** A refresh token stands for a grant of its scopes. *)
Definition refresh_grant (t : OAuthStore.RefreshTok) : Grant := {|
  g_clientId := t.(OAuthStore.rt_client); g_userId := t.(OAuthStore.rt_user); g_email := "";
  g_scope := t.(OAuthStore.rt_scope); g_scopeConfig := []; g_sessionTokenId := None; g_offline := false;
  g_authAt := None; g_amr := None; g_aal := None; g_keysJwe := None |}.

Definition sql_getRefreshToken (limit_r maxttl_r updateAfter now : Z) (d : AuthDB) (id : string) : option (option Grant) :=
  match (OAuthStore.getRefreshToken href_of limit_r maxttl_r updateAfter now id d.(s_db)).2 with
  | Some t => Some (refresh_grant <$> t)
  | None => None
  end.

Definition sql_oauthdb (limit_r maxttl_r updateAfter now : Z) : OAuthDB AuthDB := {|
  getClient d id := Some (d.(s_clients) !! id);
  getCode := sql_getCode;
  removeCode := sql_removeCode;
  getRefreshToken := sql_getRefreshToken limit_r maxttl_r updateAfter now |}.
End Codes.

(** ** authorization.js *)

Inductive ResponseType := RCode | RToken.

Record AuthzParams := mkAuthz {
  z_client_id : string;
  z_assertion : string;
  z_redirect_uri : option string;
  z_response_type : ResponseType;
  z_state : string;
  z_ttl : option Z;
  z_resource : option string;
  z_code_challenge_method : option string;
  z_code_challenge : option string;
  z_requested : RequestedGrant }.

Inductive AuthzErr :=
  | ZDisabledClient
  | ZDisabledClientId
  | ZUnknownClient
  | ZIncorrectRedirect
  | ZMissingPkceParameters
  | ZNotPublicClient
  | ZInvalidResponseType
  | ZInvalidAssertion
  | ZGrantRefused (o : Outcome)
  | ZSession (e : AssertErr)
  | ZInternal.

Inductive AuthzResult := ACode (code state redirect : string) | ATokens (t : Tokens).

Section Authorization.
Context (href_of : string -> option string) (getScope : string -> option ScopeRow) (hash : string -> string).
(** [hostname]: of a parsed URL; [redirect_with]: the URL with the parameters
    [code] and [state] set; both [None] when the URL does not parse. *)
Context (hostname : string -> option string) (redirect_with : string -> string -> string -> option string).
Context (verifyAssertion : string -> option FullClaims).
Context (localRedirects : bool) (MAX_TTL_S now : Z) (disabledClients disabledNewConnections : list string).
(** [issue] is [generateTokens]; [fresh] the random code. *)
Context (issue : Grant -> Extra -> option Tokens) (fresh : string).

Definition isLocalHost (url : string) : option bool := (fun h => String.eqb h "localhost") <$> hostname url.

(** The redirect URI to go on with. *)
Definition validateClientDetails (c : OAuthClient) (p : AuthzParams) : string + AuthzErr :=
  let uri := match truthy_param p.(z_redirect_uri) with Some u => u | None => c.(redirectUri) end in
  if String.eqb uri c.(redirectUri) then inl uri
  else if localRedirects then
    match isLocalHost uri with
    | None => inr ZInternal
    | Some true => inl uri
    | Some false => inr ZIncorrectRedirect
    end
  else inr ZIncorrectRedirect.

(** The PKCE rule: [None] when it is met. *)
Definition pkce_rule (c : OAuthClient) (p : AuthzParams) : option AuthzErr :=
  let method := ostr_truthy p.(z_code_challenge_method) in
  let challenge := ostr_truthy p.(z_code_challenge) in
  if c.(publicClient) then if negb method || negb challenge then Some ZMissingPkceParameters else None
  else if method || challenge then Some ZNotPublicClient else None.

Definition generateAuthorizationCode (c : OAuthClient) (p : AuthzParams) (uri : string) (g : Grant) (d : AuthDB)
    : AuthDB * (AuthzResult + AuthzErr) :=
  match pkce_rule c p with
  | Some e => (d, inr e)
  | None =>
      let d := generateCode hash now fresh g p.(z_code_challenge_method) p.(z_code_challenge) d in
      (d, match redirect_with uri fresh p.(z_state) with
          | Some r => inl (ACode fresh p.(z_state) r)
          | None => inr ZInternal
          end)
  end.

Definition generateImplicitGrant (c : OAuthClient) (p : AuthzParams) (g : Grant) : AuthzResult + AuthzErr :=
  if negb c.(canGrant) then inr ZInvalidResponseType
  else
    match issue g (mkExtra ((fun t => Z.min t MAX_TTL_S) <$> p.(z_ttl)) p.(z_resource)) with
    | Some t => inl (ATokens t)
    | None => inr ZInternal
    end.

Definition authorizationHandler (p : AuthzParams) (d : AuthDB) : AuthDB * (AuthzResult + AuthzErr) :=
  match verifyAssertion p.(z_assertion) with
  | None => (d, inr ZInvalidAssertion)
  | Some claims =>
      match d.(s_clients) !! p.(z_client_id) with
      | None => (d, inr ZUnknownClient)
      | Some c =>
          match validateClientDetails c p with
          | inr e => (d, inr e)
          | inl uri =>
              match validateRequestedGrant href_of getScope claims.(f_base) c.(base) p.(z_requested) with
              | Granted g =>
                  match p.(z_response_type) with
                  | RCode => generateAuthorizationCode c p uri g d
                  | RToken => (d, generateImplicitGrant c p g)
                  end
              | o => (d, inr (ZGrantRefused o))
              end
          end
      end
  end.

(** POST /authorization *)
Definition post_authorization (p : AuthzParams) (d : AuthDB) : AuthDB * (AuthzResult + AuthzErr) :=
  if bool_decide (p.(z_client_id) ∈ disabledClients) then (d, inr ZDisabledClient) else authorizationHandler p d.

Definition with_assertion (p : AuthzParams) (a : string) : AuthzParams :=
  mkAuthz p.(z_client_id) a p.(z_redirect_uri) p.(z_response_type) p.(z_state) p.(z_ttl) p.(z_resource)
    p.(z_code_challenge_method) p.(z_code_challenge) p.(z_requested).

(** POST /oauth/authorization, up to the notification of other services. *)
Definition post_oauth_authorization (sign : FullClaims -> string) (cr : Credentials) (p : AuthzParams) (d : AuthDB)
    : AuthDB * (AuthzResult + AuthzErr) :=
  if bool_decide (p.(z_client_id) ∈ disabledNewConnections) then (d, inr ZDisabledClientId)
  else
    match makeAssertionJWT sign now cr with
    | inr e => (d, inr (ZSession e))
    | inl a => authorizationHandler (with_assertion p a) d
    end.
End Authorization.

(** * Laws *)

(** ** Codes are stored faithfully *)

Lemma amr_roundtrip amr :
  amr <> Some [] -> (forall l, amr = Some l -> Forall (fun s => avoids "," s = true) l) ->
  parse_amr (print_amr amr) = amr.
Proof.
  intros Hne Hc. destruct amr as [l|]; [|done]. unfold parse_amr, print_amr; simpl. f_equal.
  apply (split_join ","); [by intros ->|]. by apply Hc.
Qed.

(** A grant as it comes back from the table. *)
Definition same_grant (g g' : Grant) : Prop :=
  g'.(g_clientId) = g.(g_clientId) /\ g'.(g_userId) = g.(g_userId) /\
  getScopeValues g'.(g_scope) = getScopeValues g.(g_scope) /\ g'.(g_sessionTokenId) = g.(g_sessionTokenId) /\
  g'.(g_offline) = g.(g_offline) /\ g'.(g_authAt) = g.(g_authAt) /\ g'.(g_amr) = g.(g_amr) /\
  g'.(g_aal) = truthy_num g.(g_aal) /\ g'.(g_keysJwe) = g.(g_keysJwe).

Section CodeLaws.
Context (href_of : string -> option string) (hash : string -> string).
Abbreviation imp := (getImplicantValues href_of).
Abbreviation set_inv := (inv imp (good_scope href_of)).

Lemma read_code_row now g m ch :
  set_inv g.(g_scope) -> g.(g_amr) <> Some [] ->
  (forall l, g.(g_amr) = Some l -> Forall (fun s => avoids "," s = true) l) ->
  exists g', read_code href_of (code_row now g m ch) = Some (mkCode g' (now - now mod 1000) ch m) /\
    same_grant g g' /\ set_inv g'.(g_scope).
Proof.
  intros Hs Hne Hc. destruct (string_roundtrip href_of _ Hs) as (S & HS & Hinv & Hv).
  unfold read_code, code_row; simpl. rewrite HS. simpl. eexists. split; [reflexivity|]. split; [|done].
  unfold same_grant; simpl. rewrite amr_roundtrip by done. by split_and!.
Qed.

Lemma sql_getCode_generated now code g m ch d :
  sql_getCode href_of hash (generateCode hash now code g m ch d) code =
  Some <$> read_code href_of (code_row now g m ch).
Proof. unfold sql_getCode, generateCode, put_codes, OAuthStore.with_codes; simpl. by rewrite lookup_insert_eq. Qed.

(** The store discharges the interface of the token endpoint, as long as
    hashes of codes do not collide. *)
Lemma sql_oauthdb_laws limit_r maxttl_r updateAfter now :
  (forall a b, hash a = hash b -> a = b) ->
  @OAuthDBLaws AuthDB (sql_oauthdb href_of hash limit_r maxttl_r updateAfter now).
Proof.
  intros Hinj. split; simpl.
  - intros d c d' [= <-]. unfold sql_getCode, put_codes, OAuthStore.with_codes; simpl. by rewrite lookup_delete_eq.
  - intros d c c' d' ok [= <- <-] Hne. unfold sql_getCode, put_codes, OAuthStore.with_codes; simpl.
    rewrite lookup_delete_ne; [done|]. intros He. apply Hne. symmetry. by apply Hinj.
Qed.
End CodeLaws.

(** ** What a granted request was allowed *)

Lemma granted_is href_of getScope claims client req g :
  validateRequestedGrant href_of getScope claims client req = Granted g ->
  exists st, scan href_of getScope (mkScan false [] empty_set) (getScopeValues (default empty_set req.(rg_scope))) = Some st /\
    g = grant_of claims client req (default empty_set req.(rg_scope)) st.(scopeConfig) /\
    (st.(requiresVerifiedToken) = true -> claims.(fxa_tokenVerified) = true).
Proof.
  unfold validateRequestedGrant. destruct (acr_ok _ claims); [|done]. cbn [negb].
  destruct (check_untrusted _ client _) as [e|] eqn:Eu.
  { intros ->. unfold check_untrusted in Eu. destruct (trusted client); [done|].
    by destruct (refused_scopes _ _) as [[|x l]|]. }
  destruct (scan _ _ _ _) as [st|]; [|done].
  destruct (check_custom _ client _) as [e|] eqn:Ec.
  { intros ->. unfold check_custom in Ec. destruct (isEmpty _); [done|].
    destruct (fromString _ _) as [A|]; [|done]. by destruct (refused_scopes _ A) as [[|x l]|]. }
  destruct (requiresVerifiedToken st) eqn:Hr, (fxa_tokenVerified claims); simpl; try done;
    intros [= <-]; exists st; rewrite Hr; by split_and!.
Qed.

(** ** From authorization to token *)

Section Flow.
Context (href_of : string -> option string) (getScope : string -> option ScopeRow) (hash : string -> string).
Context (hostname : string -> option string) (redirect_with : string -> string -> string -> option string).
Context (check : string -> string -> JwtCheck) (keys : list string) (browserid : string -> option FullClaims).
Context (localRedirects : bool) (MAX_TTL_S now : Z) (disabledClients disabledNew : list string).
Context (issue : Grant -> Extra -> option Tokens) (fresh : string).
Context (pkceHash : string -> string) (codeLifetime limit_r maxttl_r updateAfter now' : Z).

Abbreviation imp := (getImplicantValues href_of).
Abbreviation set_inv := (inv imp (good_scope href_of)).
Abbreviation verified := (verifyAssertion check keys browserid).
Abbreviation handler := (authorizationHandler href_of getScope hash hostname redirect_with verified localRedirects
  MAX_TTL_S now issue fresh).
#[local] Instance store_db : OAuthDB AuthDB := sql_oauthdb href_of hash limit_r maxttl_r updateAfter now'.
Abbreviation claim := (validateAuthorizationCodeGrant (D := AuthDB) pkceHash codeLifetime now').

Lemma handler_code p d d' code st r :
  handler p d = (d', inl (ACode code st r)) ->
  exists claims c uri g, verified p.(z_assertion) = Some claims /\ d.(s_clients) !! p.(z_client_id) = Some c /\
    validateClientDetails hostname localRedirects c p = inl uri /\
    validateRequestedGrant href_of getScope claims.(f_base) c.(base) p.(z_requested) = Granted g /\
    pkce_rule c p = None /\ code = fresh /\
    d' = generateCode hash now fresh g p.(z_code_challenge_method) p.(z_code_challenge) d.
Proof.
  unfold authorizationHandler. destruct (verified (z_assertion p)) as [claims|] eqn:Hv; [|done].
  destruct (s_clients d !! z_client_id p) as [c|] eqn:Hc; [|done].
  destruct (validateClientDetails _ _ c p) as [uri|] eqn:Hu; [|done].
  destruct (validateRequestedGrant _ _ _ _ _) as [g| | | |] eqn:Hg; try done.
  destruct (z_response_type p).
  - unfold generateAuthorizationCode. destruct (pkce_rule c p) eqn:Hp; [done|].
    destruct (redirect_with _ _ _); [|done]. intros [= <- <- _ _]. by exists claims, c, uri, g.
  - unfold generateImplicitGrant. destruct (negb (canGrant c)); [done|]. by destruct (issue _ _).
Qed.

Lemma pkce_rule_None c p : pkce_rule c p = None -> is_Some (truthy_param p.(z_code_challenge)) <-> c.(publicClient) = true.
Proof.
  unfold pkce_rule, truthy_param. destruct (publicClient c), (ostr_truthy (z_code_challenge_method p));
    destruct (z_code_challenge p) as [ch|]; simpl; try done; destruct (str_truthy ch); simpl; try done; naive_solver.
Qed.

(** [C5] A code works, once and for the right party only.  When the authorization
    endpoint has issued a code to a client, the token endpoint accepts that
    code within its lifetime from exactly that client, with a verifier
    matching the challenge if the client is public and with none if it is
    not; what the client then gets is the grant that was validated, with its
    scopes, session and authentication methods. *)
Theorem code_flow_exact p d d' code st r c :
  handler p d = (d', inl (ACode code st r)) -> d.(s_clients) !! p.(z_client_id) = Some c ->
  set_inv (default empty_set p.(z_requested).(rg_scope)) ->
  (forall claims, verified p.(z_assertion) = Some claims -> claims.(f_base).(fxa_amr) <> Some []) ->
  exists claims g g', verified p.(z_assertion) = Some claims /\
    validateRequestedGrant href_of getScope claims.(f_base) c.(base) p.(z_requested) = Granted g /\ same_grant g g' /\
    forall c' v got, (claim c' code v d').2 = inl got <->
      got = g' /\ clientId c' = clientId c /\ now' <= now - now mod 1000 + codeLifetime /\
      if c.(publicClient)
      then exists w, truthy_param v = Some w /\ p.(z_code_challenge) = Some (pkceHash w) /\
        p.(z_code_challenge_method) = Some "S256" /\ c'.(publicClient) = true /\ str_truthy (pkceHash w) = true
      else truthy_param v = None.
Proof.
  intros Hh Hc Hs Hamr. destruct (handler_code _ _ _ _ _ _ Hh) as (claims & c0 & uri & g & Hv & Hc0 & _ & Hg & Hp & -> & ->).
  assert (c0 = c) as -> by congruence. exists claims, g. pose proof (granted_is _ _ _ _ _ _ Hg) as (sc & _ & Hgo & _).
  assert (CLAIMS_SCHEMA claims = true) as Hschema.
  { unfold verifyAssertion in Hv. destruct (if avoids _ _ then _ else _) as [cl|]; [|done]. simpl in Hv.
    destruct (CLAIMS_SCHEMA cl) eqn:?; [by simplify_eq|done]. }
  destruct (read_code_row href_of now g (z_code_challenge_method p) (z_code_challenge p)) as (g' & Hr & Hsame & _).
  { by rewrite Hgo. }
  { rewrite Hgo. simpl. by apply Hamr. }
  { intros l Hl. rewrite Hgo in Hl. simpl in Hl. by eapply schema_amr. }
  exists g'. split; [done|]. split; [done|]. split; [done|]. intros c' v got.
  rewrite (code_claim_spec pkceHash codeLifetime now'). simpl.
  rewrite sql_getCode_generated, Hr. simpl. unfold claimable.
  pose proof (pkce_rule_None c p Hp) as Hpk. destruct Hsame as (Hcl & _). rewrite Hgo in Hcl. simpl in Hcl.
  split.
  - intros [_ (k & [= <-] & -> & Hid & Hlife & Hm)]. simpl in *. split; [done|]. split; [unfold clientId in *; congruence|].
    split; [done|]. destruct (publicClient c).
    + destruct (truthy_param (z_code_challenge p)) as [ch|] eqn:Hch; [|by destruct (proj2 Hpk eq_refl)].
      destruct (truthy_param v) as [w|]; [|done]. destruct Hm as (? & ? & <-). exists w.
      unfold truthy_param in Hch. destruct (ostr_truthy (z_code_challenge p)) eqn:Ht; [|done]. rewrite Hch in Ht. done.
    + destruct (truthy_param (z_code_challenge p)); [enough (false = true) by done; apply Hpk; eauto|].
      by destruct (truthy_param v).
  - intros (-> & Hid & Hlife & Hm). split; [done|]. eexists. split; [done|]. split; [done|]. simpl.
    split; [unfold clientId in *; congruence|]. split; [done|]. destruct (publicClient c).
    + destruct Hm as (w & Hw & Hch & Hmeth & Hpub & Ht). rewrite Hw. unfold truthy_param. rewrite Hch. simpl. by rewrite Ht.
    + destruct (truthy_param (z_code_challenge p)) eqn:Hch; [|by rewrite Hm].
      enough (false = true) by done. apply Hpk. eauto.
Qed.

(** Only a session that is good enough gets a code through
    /oauth/authorization: its account has a verified address, it has itself
    been verified if that was asked of it, and for scopes with keys in any
    case; clients that may not connect any more get nothing, and the
    assurance level claimed is that of the session. *)
Theorem session_authorization sign cr p d d' res :
  (forall c c', verified (sign c) = Some c' -> c' = c) ->
  set_inv (default empty_set p.(z_requested).(rg_scope)) ->
  post_oauth_authorization href_of getScope hash hostname redirect_with verified localRedirects MAX_TTL_S now disabledNew
    issue fresh sign cr p d = (d', inl res) ->
  (p.(z_client_id) ∉ disabledNew) /\ cr.(session).(Tokens.emailVerified) = true /\
  (cr.(session).(Tokens.mustVerify) = true -> cr.(session).(Tokens.tokenVerified) = true) /\
  (forall s, member (default empty_set p.(z_requested).(rg_scope)) s -> needs_key getScope s = true ->
     cr.(session).(Tokens.tokenVerified) = true) /\
  acr_ok p.(z_requested).(rg_acr_values)
    (mkClaims "" "" (Tokens.authenticatorAssuranceLevel cr.(session)) true None None None) = true.
Proof.
  intros Hsign Hs Hp. unfold post_oauth_authorization in Hp. case_bool_decide as Hdis; [done|]. split; [done|].
  unfold makeAssertionJWT in Hp. destruct (makeAssertion cr) as [c|e] eqn:Hm; [|done].
  destruct (makeAssertion_spec cr c Hm) as (He & Hv & Htv & _ & _ & Haal). split; [done|]. split; [done|].
  unfold authorizationHandler in Hp. simpl in Hp.
  destruct (verified (sign _)) as [c'|] eqn:Hver; [|done]. apply Hsign in Hver as ->.
  destruct (s_clients d !! z_client_id p) as [cl|]; [|done].
  destruct (validateClientDetails _ _ cl _) as [uri|]; [|done].
  destruct (validateRequestedGrant _ _ _ _ _) as [g| | | |] eqn:Hg; try done. simpl in Hg. split.
  - destruct (granted_is _ _ _ _ _ _ Hg) as (st & Hscan & _ & Hreq). intros s Hmem Hk. rewrite <- Htv. apply Hreq.
    assert (Forall (good_scope href_of) (getScopeValues (default empty_set (rg_scope (z_requested p))))) as Hgood.
    { apply Forall_forall. intros x Hx. by apply (member_good imp _ _ x Hs), member_keys. }
    destruct (scan_spec href_of getScope _ (mkScan false [] empty_set) (empty_inv _ _) Hgood) as (st' & Hst' & _ & Hr & _).
    assert (st' = st) as -> by congruence. rewrite Hr. simpl. apply existsb_exists. exists s. split; [|done].
    apply list_elem_of_In. by apply member_keys.
  - rewrite <- Haal. unfold validateRequestedGrant in Hg.
    assert (acr_ok (rg_acr_values (z_requested p)) (f_base c) = true) as Ha by (by destruct (acr_ok _ (f_base c))).
    by unfold acr_ok in *.
Qed.

(** The [auth_time] of an id token is a thousandth of the time in seconds at
    which the session authenticated: the claim is made in seconds and divided
    by 1000 once more. *)
Theorem id_token_auth_time sign_id generateTokenHash ttl cr claims client req g x a :
  makeAssertion cr = inl claims ->
  validateRequestedGrant href_of getScope claims.(f_base) client req = Granted g ->
  Tokens.lastAuthAt cr.(session) <> 0 ->
  exists cl, generateIdToken sign_id generateTokenHash ttl now g x a = sign_id cl /\
    cl.(id_auth_time) = Some (Tokens.lastAuthAt cr.(session) / 1000).
Proof.
  intros Hm Hg Hne. destruct (makeAssertion_spec cr claims Hm) as (_ & _ & _ & Hl & _).
  destruct (granted_is _ _ _ _ _ _ Hg) as (st & _ & -> & _). eexists. split; [reflexivity|]. simpl. rewrite Hl.
  unfold truthy_num. by destruct (Tokens.lastAuthAt (session cr)).
Qed.
End Flow.

(** ** Witnesses *)

#[export] Instance Claims_eq_dec : EqDecision Claims.
Proof. solve_decision. Defined.

#[export] Instance FullClaims_eq_dec : EqDecision FullClaims.
Proof. solve_decision. Defined.

Definition sample_session : Tokens.SessionToken :=
  Tokens.new_SessionToken 500 (Tokens.mkDetails (Some "0123456789abcdef0123456789abcdef") None (Some 1600000000000)
    (Some "dev") true (Some 1600000000000) true None (Some 2)).

Definition sample_credentials : Credentials :=
  mkCredentials sample_session "beefbeefbeefbeefbeefbeefbeefbeefbeefbeefbeefbeefbeefbeefbeefbeef" "a@x.org" 1500000000000 None.

Definition signed_claims : FullClaims :=
  mkFull (mkClaims "0123456789abcdef0123456789abcdef" "a@x.org" (Some 2) true
            (Some "beefbeefbeefbeefbeefbeefbeefbeefbeefbeefbeefbeefbeefbeefbeefbeef") (Some 1600000000) (Some ["pwd"; "otp"]))
    (Some 1600000001) (Some 1500000000000) None.

Definition sample_sign (c : FullClaims) : string := if decide (c = signed_claims) then "good" else "bad".

Definition sample_check (key jwt : string) : JwtCheck :=
  if String.eqb jwt "good" then Verified signed_claims else InvalidSignature.

Definition sample_authdb : AuthDB :=
  mkAuthDB (OAuthStore.mkDB OAuthStore.empty_cache (OAuthStore.mkMysql ∅ ∅ ∅ ∅)) {["dead" := public_rp]}.

Definition sample_params : AuthzParams :=
  mkAuthz "dead" "good" None RCode "xyz" None None (Some "S256") (Some "challenge")
    (mkRequested (Some email_only) (Some "AAL2") (Some "offline") None).

Definition sample_redirect (uri code st : string) : option string := Some (uri ++ "?code=" ++ code ++ "&state=" ++ st).

Abbreviation sample_authorize := (authorizationHandler Some sync_row id Some sample_redirect
  (verifyAssertion sample_check ["k1"; "k2"] (fun _ => None)) false 3600 1600000001000 (fun _ _ => None) "c0de").

Definition issued_db : AuthDB := (sample_authorize sample_params sample_authdb).1.

Lemma sample_sign_sound c c' :
  verifyAssertion sample_check ["k1"; "k2"] (fun _ => None) (sample_sign c) = Some c' -> c' = c.
Proof.
  unfold sample_sign. destruct (decide (c = signed_claims)) as [->|]; [|done]. vm_compute. by intros [= <-].
Qed.

Lemma code_flow_exact_witness :
  exists claims g g', verifyAssertion sample_check ["k1"; "k2"] (fun _ => None) "good" = Some claims /\
    validateRequestedGrant Some sync_row claims.(f_base) sample_client sample_params.(z_requested) = Granted g /\
    same_grant g g' /\
    (@validateAuthorizationCodeGrant AuthDB (sql_oauthdb Some id 10 10 10 1600000002000) (fun s => s) 900000 1600000002000
       public_rp "c0de" (Some "challenge") issued_db).2 = inl g'.
Proof.
  destruct (code_flow_exact Some sync_row id Some sample_redirect sample_check ["k1"; "k2"] (fun _ => None) false 3600
    1600000001000 (fun _ _ => None) "c0de" (fun s => s) 900000 10 10 10 1600000002000 sample_params sample_authdb
    issued_db "c0de" "xyz" "https://rp.example/done?code=c0de&state=xyz" public_rp) as (claims & g & g' & Hv & Hg & Hs & Hiff).
  - vm_compute. reflexivity.
  - reflexivity.
  - exact email_only_inv.
  - intros claims Hv. vm_compute in Hv. injection Hv as <-. discriminate.
  - exists claims, g, g'. split; [exact Hv|]. split; [exact Hg|]. split; [exact Hs|]. apply Hiff.
    split; [reflexivity|]. split; [reflexivity|]. split; [vm_compute; discriminate|]. exists "challenge". done.
Defined.

Lemma session_authorization_witness :
  ("dead" ∉ ["f00d"]) /\ acr_ok (Some "AAL2") (mkClaims "" "" (Some 2) true None None None) = true.
Proof.
  destruct (session_authorization Some sync_row id Some sample_redirect sample_check ["k1"; "k2"] (fun _ => None) false 3600
    1600000001000 ["f00d"] (fun _ _ => None) "c0de" sample_sign sample_credentials sample_params sample_authdb
    issued_db (ACode "c0de" "xyz" "https://rp.example/done?code=c0de&state=xyz")) as (H1 & _ & _ & _ & H2).
  - exact sample_sign_sound.
  - exact email_only_inv.
  - vm_compute. reflexivity.
  - split; [exact H1|exact H2].
Defined.

Lemma id_token_auth_time_witness :
  exists cl, id_auth_time cl = Some 1600000.
Proof.
  destruct (id_token_auth_time Some sync_row 1600000001000 (fun _ => "jwt") id 300 sample_credentials
    (mkFull (f_base signed_claims) None (Some 1500000000000) None) sample_client
    (mkRequested (Some email_only) None None None)
    (grant_of (f_base signed_claims) sample_client (mkRequested (Some email_only) None None None) email_only
       [("profile:email", None)]) (mkExtra None None) "at") as (cl & _ & Hcl).
  - vm_compute. reflexivity.
  - vm_compute. reflexivity.
  - vm_compute. discriminate.
  - exists cl. exact Hcl.
Defined.
