(* ===== verification/OAuthRoutes.v ===== *)
(** * Revocation, introspection and scoped keys
      (packages/fxa-auth-server/lib/routes/oauth/destroy.js, introspect.js, key_data.js, verify.js)

    The routes that work on tokens already issued, over the store of
    [OAuthStore], and the route that hands out the data of scoped keys. *)

From S2P Require Import Prelude Text ScopeValues Scopes Grant TokenEndpoint Assertion Authorization.
From S2P Require OAuthStore.

#[local] Open Scope string_scope.
#[local] Open Scope Z_scope.

Abbreviation find := OAuthStore.getAccessToken.

(** ** Data *)

(** The token a request names. *)
Inductive TokenArg := AnAccessToken (s : string) | ARefreshToken (s : string) | ARefreshTokenId (s : string).

Record DestroyPayload := mkDestroy { y_client_id : option string; y_client_secret : option string; y_token : TokenArg }.

Inductive TokenType := TAccess | TRefresh.

Inductive DestroyErr := DInvalidToken | DClient (e : OAuthErr) | DUnknownClientId | DInternal.

Record Introspection := mkIntrospection {
  active : bool; n_scope : option string; n_client : option string; n_type : option TokenType;
  n_iat : option Z; n_sub : option string; n_jti : option string; n_exp : option Z; n_lastUsedAt : option Z }.

Section Routes.
Context (href_of : string -> option string) (hash hash_secret : string -> string).
Context (limit_r maxttl_r updateAfter now : Z).
Context (valid_clientId valid_clientSecret : string -> bool).
(** [is_jwt], [is_access], [is_refresh]: the validators; [jti]: the id in a
    JWT access token, [None] when it does not verify. *)
Context (is_jwt is_access is_refresh : string -> bool) (jti : string -> option string).

#[local] Instance routes_db : OAuthDB AuthDB := sql_oauthdb href_of hash limit_r maxttl_r updateAfter now.

(** ** oauth/token.js *)

Definition getTokenId (accessToken : string) : option string :=
  if is_jwt accessToken then hash <$> jti accessToken else Some (hash accessToken).

(** ** destroy.js *)

Definition on_store (f : OAuthStore.DB -> OAuthStore.DB) (d : AuthDB) : AuthDB := mkAuthDB (f d.(s_db)) d.(s_clients).

(** Whose token it is and how it is removed; reading a refresh token also
    records its use. *)
Definition locate (arg : TokenArg) (d : AuthDB) : AuthDB * ((string * (OAuthStore.DB -> OAuthStore.DB)) + DestroyErr) :=
  let refresh id :=
    match OAuthStore.getRefreshToken href_of limit_r maxttl_r updateAfter now id d.(s_db) with
    | (s, None) => (on_store (fun _ => s) d, inr DInternal)
    | (s, Some None) => (on_store (fun _ => s) d, inr DInvalidToken)
    | (s, Some (Some t)) =>
        (on_store (fun _ => s) d,
         inl (t.(OAuthStore.rt_client), OAuthStore.removeRefreshToken t.(OAuthStore.rt_user) t.(OAuthStore.rt_id)))
    end in
  match arg with
  | AnAccessToken s =>
      (d, match getTokenId s with
          | None => inr DInvalidToken
          | Some id =>
              match find href_of now id d.(s_db) with
              | None => inr DInternal
              | Some None => inr DInvalidToken
              | Some (Some t) =>
                  inl (t.(OAuthStore.a_client), OAuthStore.removeAccessToken now t.(OAuthStore.a_id))
              end
          end)
  | ARefreshTokenId id => refresh id
  | ARefreshToken s => refresh (hash s)
  end.

(** The client a request is made for, if it carries credentials. *)
Definition destroy_client (h : Headers) (y : DestroyPayload) (d : AuthDB) : option OAuthClient + OAuthErr :=
  if bool_decide (is_Some h.(authorization)) || ostr_truthy y.(y_client_id) then
    match authenticateClient valid_clientId valid_clientSecret hash_secret d h
            (mkParams y.(y_client_id) y.(y_client_secret) (RefreshToken "" None) None None) with
    | inl c => inl (Some c)
    | inr e => inr e
    end
  else inl None.

Definition destroyHandler (h : Headers) (y : DestroyPayload) (d : AuthDB) : AuthDB * (unit + DestroyErr) :=
  match destroy_client h y d with
  | inr e => (d, inr (DClient e))
  | inl client =>
      match locate y.(y_token) d with
      | (d, inr e) => (d, inr e)
      | (d, inl (owner, remove)) =>
          match client with
          | Some c =>
              match timingSafeEqual owner (clientId c) with
              | None => (d, inr DInternal)
              | Some false => (d, inr DInvalidToken)
              | Some true => (on_store remove d, inl tt)
              end
          | None => (on_store remove d, inl tt)
          end
      end
  end.

(** POST /oauth/destroy: the types to try, in order. *)
Definition token_types (hint : option string) : list TokenType :=
  if bool_decide (hint = Some "refresh_token") then [TRefresh; TAccess] else [TAccess; TRefresh].

Definition fits (ty : TokenType) (token : string) : bool :=
  match ty with TAccess => is_access token | TRefresh => is_refresh token end.

Definition as_arg (ty : TokenType) (token : string) : TokenArg :=
  match ty with TAccess => AnAccessToken token | TRefresh => ARefreshToken token end.

Fixpoint try_types (tys : list TokenType) (h : Headers) (client_id client_secret : option string) (token : string)
    (d : AuthDB) : AuthDB * (unit + DestroyErr) :=
  match tys with
  | [] => (d, inl tt)
  | ty :: tys' =>
      if fits ty token then
        match destroyHandler h (mkDestroy client_id client_secret (as_arg ty token)) d with
        | (d', inl u) => (d', inl u)
        | (d', inr (DClient UnknownClient)) => (d', inr DUnknownClientId)
        | (d', inr DInvalidToken) => try_types tys' h client_id client_secret token d'
        | (d', inr e) => (d', inr e)
        end
      else try_types tys' h client_id client_secret token d
  end.

Definition oauth_destroy (h : Headers) (client_id client_secret : option string) (token : string) (hint : option string)
    (d : AuthDB) : AuthDB * (unit + DestroyErr) :=
  try_types (token_types hint) h client_id client_secret token d.

(** ** introspect.js *)

Definition inactive : Introspection := mkIntrospection false None None None None None None None None.

Definition of_access (id : string) (t : OAuthStore.AccessTok) : Introspection :=
  mkIntrospection (t.(OAuthStore.a_expiresAt) >? now) (Some (toString t.(OAuthStore.a_scope)))
    (Some t.(OAuthStore.a_client)) (Some TAccess) (Some t.(OAuthStore.a_createdAt)) (Some t.(OAuthStore.a_user)) (Some id)
    (Some t.(OAuthStore.a_expiresAt)) None.

(** The rows of refresh tokens have no expiry; [createdAt] is left out. *)
Definition of_refresh (id : string) (t : OAuthStore.RefreshTok) : Introspection :=
  mkIntrospection true (Some (toString t.(OAuthStore.rt_scope))) (Some t.(OAuthStore.rt_client)) (Some TRefresh) None
    (Some t.(OAuthStore.rt_user)) (Some id) None (Some t.(OAuthStore.rt_lastUsedAt)).

(** [inr]: the client is not public, or the database fails. *)
Definition introspect_refresh (id : string) (d : AuthDB) : AuthDB * (Introspection + OAuthErr) :=
  match OAuthStore.getRefreshToken href_of limit_r maxttl_r updateAfter now id d.(s_db) with
  | (_, None) => (d, inr InternalError)
  | (_, Some None) => (d, inl inactive)
  | (s, Some (Some t)) =>
      (mkAuthDB s d.(s_clients),
       match d.(s_clients) !! t.(OAuthStore.rt_client) with
       | Some c => if c.(publicClient) then inl (of_refresh id t) else inr NotPublicClient
       | None => inr NotPublicClient
       end)
  end.

Definition introspect (token : string) (hint : option TokenType) (d : AuthDB) : AuthDB * (Introspection + OAuthErr) :=
  match getTokenId token with
  | None => (d, inl inactive)
  | Some id =>
      match hint with
      | Some TRefresh => introspect_refresh id d
      | _ =>
          match find href_of now id d.(s_db) with
          | None => (d, inr InternalError)
          | Some (Some t) => (d, inl (of_access id t))
          | Some None => match hint with None => introspect_refresh id d | Some _ => (d, inl inactive) end
          end
      end
  end.

(** ** verify.js: the lookup that [TokenEndpoint.verify] is given. *)

Definition stored_token (d : AuthDB) (token : string) : option AccessToken :=
  match getTokenId token with
  | None => None
  | Some id =>
      match find href_of now id d.(s_db) with
      | Some (Some t) => Some (mkAccessToken t.(OAuthStore.a_user) t.(OAuthStore.a_client) t.(OAuthStore.a_scope)
                                 t.(OAuthStore.a_expiresAt) (Some t.(OAuthStore.a_profileChangedAt)))
      | _ => None
      end
  end.
End Routes.

(** ** key_data.js *)

Record KeyData := mkKeyData { identifier : string; keyRotationSecret : string; keyRotationTimestamp : option Z }.

Inductive KeyErr :=
  | KInvalidAssertion | KUnknownClient | KGrantRefused (o : Outcome) | KStaleAuthAt
  | KDisabledClientId | KSession (e : AssertErr) | KUnknownClientId.

Definition zero32 : string := "0000000000000000000000000000000000000000000000000000000000000000".

Section KeyData.
Context (href_of : string -> option string) (getScope : string -> option ScopeRow).
Context (verifyAssertion : string -> option FullClaims).

(** The scopes of the request that bear keys. *)
Definition keyBearingScopes (conf : list (string * option ScopeRow)) (scopes : list string) : list string :=
  filterb (fun s => match obj_get conf s with Some (Some row) => row.(hasScopedKeys) | _ => false end) scopes.

(** [a || b] *)
Definition num_or_opt (a b : option Z) : option Z := match truthy_num a with Some x => Some x | None => b end.

(** Comparisons with [NaN] are false: a missing time refuses nothing ([None]
    stands for [NaN]). *)
Definition stale (iat keysChangedAt : option Z) : bool :=
  match iat, keysChangedAt with Some i, Some k => i <? Z.max k 0 / 1000 | _, _ => false end.

Definition keyDataHandler (clients : gmap string OAuthClient) (assertion client_id : string) (scope : ScopeSet)
    : list KeyData + KeyErr :=
  match verifyAssertion assertion with
  | None => inr KInvalidAssertion
  | Some claims =>
      match clients !! client_id with
      | None => inr KUnknownClient
      | Some c =>
          match validateRequestedGrant href_of getScope claims.(f_base) c.(base) (mkRequested (Some scope) None None None) with
          | Granted g =>
              let scopes := keyBearingScopes g.(g_scopeConfig) (getScopeValues scope) in
              let iat := num_or_opt claims.(f_iat) claims.(f_base).(fxa_lastAuthAt) in
              let changed := num_or_opt claims.(f_keysChangedAt) claims.(f_generation) in
              if negb (bool_decide (scopes = [])) && stale iat changed then inr KStaleAuthAt
              else inl ((fun s => mkKeyData s zero32 ((fun k => Z.max k 0) <$> changed)) <$> scopes)
          | o => inr (KGrantRefused o)
          end
      end
  end.

(** POST /account/scoped-key-data *)
Definition post_scoped_key_data (disabledNewConnections : list string) (sign : FullClaims -> string) (now : Z)
    (clients : gmap string OAuthClient) (cr : Credentials) (client_id : string) (scope : ScopeSet)
    : list KeyData + KeyErr :=
  if bool_decide (client_id ∈ disabledNewConnections) then inr KDisabledClientId
  else
    match makeAssertionJWT sign now cr with
    | inr e => inr (KSession e)
    | inl a =>
        match keyDataHandler clients a client_id scope with
        | inr KUnknownClient => inr KUnknownClientId
        | r => r
        end
    end.
End KeyData.

(** * Laws *)

(** What the store is assumed to hold: ids are those of the keys, no token is
    in both stores, scopes parse, and client ids have the length of [c]'s. *)
Record store_ok (href_of : string -> option string) (now : Z) (c : OAuthClient) (d : AuthDB) : Prop := {
  so_read id : is_Some (find href_of now id d.(s_db));
  so_id id t : find href_of now id d.(s_db) = Some (Some t) ->
    t.(OAuthStore.a_id) = id /\ String.length t.(OAuthStore.a_client) = String.length (clientId c);
  so_one id v : OAuthStore.cached now d.(s_db).(OAuthStore.cache) id = Some v ->
    d.(s_db).(OAuthStore.mysql).(OAuthStore.m_tokens) !! id = None;
  so_refresh id r : d.(s_db).(OAuthStore.mysql).(OAuthStore.m_refresh) !! id = Some r ->
    is_Some (fromString (getImplicantValues href_of) r.(OAuthStore.r_scope)) /\
    String.length r.(OAuthStore.r_client) = String.length (clientId c) }.

Lemma timingSafeEqual_same a b :
  String.length a = String.length b -> timingSafeEqual a b = Some (String.eqb a b).
Proof. intros Hl. unfold timingSafeEqual. by rewrite (proj2 (Nat.eqb_eq _ _) Hl). Qed.

(** Two stores in which the same access tokens can be read. *)
Definition same_access (s s' : OAuthStore.DB) : Prop :=
  OAuthStore.tokens s'.(OAuthStore.cache) = OAuthStore.tokens s.(OAuthStore.cache) /\
  OAuthStore.m_tokens s'.(OAuthStore.mysql) = OAuthStore.m_tokens s.(OAuthStore.mysql) /\
  OAuthStore.m_clients s'.(OAuthStore.mysql) = OAuthStore.m_clients s.(OAuthStore.mysql).

Lemma same_access_find href_of now id s s' : same_access s s' -> find href_of now id s' = find href_of now id s.
Proof.
  intros (Ht & Hm & Hc). unfold OAuthStore.getAccessToken, OAuthStore.redis_getAccessToken, OAuthStore.cached.
  by rewrite Ht, Hm, Hc.
Qed.

Lemma getRefreshToken_access href_of limit_r maxttl_r updateAfter now id s :
  same_access s (OAuthStore.getRefreshToken href_of limit_r maxttl_r updateAfter now id s).1.
Proof.
  unfold OAuthStore.getRefreshToken. destruct (_ !! id) as [r|]; [|done]. destruct (fromString _ _); [|done].
  by destruct (_ >? updateAfter).
Qed.

(** Removing one access token. *)
Lemma removeAccessToken_find href_of now id s :
  (forall v, OAuthStore.cached now s.(OAuthStore.cache) id = Some v -> s.(OAuthStore.mysql).(OAuthStore.m_tokens) !! id = None) ->
  forall id', find href_of now id' (OAuthStore.removeAccessToken now id s) =
    if bool_decide (id = id') then Some None else find href_of now id' s.
Proof.
  intros Hone id'. unfold OAuthStore.removeAccessToken, OAuthStore.lua_removeAccessToken.
  unfold OAuthStore.getAccessToken, OAuthStore.redis_getAccessToken. cbn [OAuthStore.cache OAuthStore.mysql].
  destruct (decide (id = id')) as [<-|Hne].
  - rewrite (bool_decide_eq_true_2 (id = id)) by done. assert (OAuthStore.cached now (OAuthStore.unlink {[id]} (OAuthStore.cache s)) id = None) as ->.
    { apply eq_None_not_Some. intros [v Hv%OAuthStore.cached_unlink]. set_solver. }
    simpl. case_bool_decide as Hf; simpl; [destruct Hf as [v Hv]; by rewrite (Hone v Hv)|by rewrite lookup_delete_eq].
  - rewrite (bool_decide_eq_false_2 (id = id')) by done.
    assert (OAuthStore.cached now (OAuthStore.unlink {[id]} (OAuthStore.cache s)) id' =
      OAuthStore.cached now (OAuthStore.cache s) id') as ->.
    { apply option_eq. intros v. rewrite OAuthStore.cached_unlink. set_solver. }
    destruct (OAuthStore.cached now (OAuthStore.cache s) id' ≫= _); [done|].
    case_bool_decide; simpl; [done|]. by rewrite lookup_delete_ne.
Qed.

Section DestroyLaws.
Context (href_of : string -> option string) (hash hash_secret : string -> string).
Context (limit_r maxttl_r updateAfter now : Z).
Context (valid_clientId valid_clientSecret : string -> bool).
Context (is_jwt is_access is_refresh : string -> bool) (jti : string -> option string).
Context (h : Headers) (cid cs : option string) (c : OAuthClient).

Abbreviation client_of := (destroy_client href_of hash hash_secret limit_r maxttl_r updateAfter now valid_clientId valid_clientSecret h).
Abbreviation destroy := (destroyHandler href_of hash hash_secret limit_r maxttl_r updateAfter now valid_clientId
  valid_clientSecret is_jwt jti h).
Abbreviation token_id := (getTokenId hash is_jwt jti).
Abbreviation ok := (store_ok href_of now c).
Abbreviation fnd id d := (find href_of now id d.(s_db)).
Abbreviation rows d := d.(s_db).(OAuthStore.mysql).(OAuthStore.m_refresh).

(** Reading the refresh token [id]. *)
Definition touched (id : string) (d : AuthDB) : AuthDB :=
  on_store (fun s => (OAuthStore.getRefreshToken href_of limit_r maxttl_r updateAfter now id s).1) d.

Lemma client_of_clients arg arg' d d' :
  d'.(s_clients) = d.(s_clients) -> client_of (mkDestroy cid cs arg') d' = client_of (mkDestroy cid cs arg) d.
Proof.
  intros Hc. unfold destroy_client, authenticateClient, getClientById. simpl. by rewrite Hc.
Qed.

Lemma access_try token d :
  client_of (mkDestroy cid cs (AnAccessToken token)) d = inl (Some c) -> ok d ->
  destroy (mkDestroy cid cs (AnAccessToken token)) d =
  match token_id token with
  | Some id =>
      match fnd id d with
      | Some (Some t) => if String.eqb t.(OAuthStore.a_client) (clientId c)
                         then (on_store (OAuthStore.removeAccessToken now id) d, inl tt) else (d, inr DInvalidToken)
      | _ => (d, inr DInvalidToken)
      end
  | None => (d, inr DInvalidToken)
  end.
Proof.
  intros Hc Hok. unfold destroyHandler. rewrite Hc. simpl. destruct (token_id token) as [id|]; [|done].
  destruct (so_read _ _ _ _ Hok id) as [ot Hf]. rewrite Hf. destruct ot as [t|]; [|done].
  destruct (so_id _ _ _ _ Hok id t Hf) as [Hid Hlen]. rewrite timingSafeEqual_same by done. rewrite Hid.
  by destruct (String.eqb _ _).
Qed.

Lemma refresh_try token d :
  client_of (mkDestroy cid cs (ARefreshToken token)) d = inl (Some c) -> ok d ->
  destroy (mkDestroy cid cs (ARefreshToken token)) d =
  match rows d !! hash token with
  | Some r => if String.eqb r.(OAuthStore.r_client) (clientId c)
              then (on_store (OAuthStore.removeRefreshToken r.(OAuthStore.r_user) (hash token)) (touched (hash token) d), inl tt)
              else (touched (hash token) d, inr DInvalidToken)
  | None => (d, inr DInvalidToken)
  end.
Proof.
  intros Hc Hok. unfold destroyHandler. rewrite Hc. simpl. unfold touched, OAuthStore.getRefreshToken, on_store.
  destruct (rows d !! hash token) as [r|] eqn:Hr; rewrite ?Hr; [|by destruct d].
  destruct (so_refresh _ _ _ _ Hok _ r Hr) as [[S HS] Hlen]. rewrite HS. simpl.
  rewrite timingSafeEqual_same by done. by destruct (String.eqb _ _).
Qed.

Lemma touched_access id d : same_access d.(s_db) (touched id d).(s_db).
Proof. apply getRefreshToken_access. Qed.

Lemma touched_rows id d i :
  rows (touched id d) !! i = rows d !! i \/
  exists r, rows d !! i = Some r /\ rows (touched id d) !! i = Some (OAuthStore.mkRefreshRow r.(OAuthStore.r_client)
    r.(OAuthStore.r_user) r.(OAuthStore.r_scope) now).
Proof.
  unfold touched, OAuthStore.getRefreshToken. simpl. destruct (_ !! id) as [r|] eqn:Hr; [|by left].
  destruct (fromString _ _); [|by left]. destruct (_ >? updateAfter); [|by left]. simpl.
  destruct (decide (id = i)) as [<-|]; [|left; by rewrite lookup_alter_ne].
  right. rewrite lookup_alter_eq, Hr. by exists r.
Qed.

Lemma touched_ok id d : ok d -> ok (touched id d).
Proof.
  intros [H1 H2 H3 H4]. pose proof (touched_access id d) as Hs.
  assert (forall i, fnd i (touched id d) = fnd i d) as Hf by (intros i; by apply same_access_find).
  split.
  - intros i. rewrite Hf. apply H1.
  - intros i t. rewrite Hf. apply H2.
  - intros i v. destruct Hs as (Ht & -> & _). unfold OAuthStore.cached. rewrite Ht. apply H3.
  - intros i r Hr. destruct (touched_rows id d i) as [He|(r0 & He & Hr0)].
    + rewrite He in Hr. by apply (H4 i).
    + assert (r = OAuthStore.mkRefreshRow (OAuthStore.r_client r0) (OAuthStore.r_user r0) (OAuthStore.r_scope r0) now) as -> by congruence.
      by apply (H4 i r0).
Qed.

Abbreviation tries tys token d := (try_types href_of hash hash_secret limit_r maxttl_r updateAfter now valid_clientId
  valid_clientSecret is_jwt is_access is_refresh jti tys h cid cs token d).

Lemma run_access rest token d :
  client_of (mkDestroy cid cs (AnAccessToken token)) d = inl (Some c) -> ok d ->
  (is_access token = true /\ exists id t, token_id token = Some id /\ fnd id d = Some (Some t) /\
     t.(OAuthStore.a_client) = clientId c /\
     tries (TAccess :: rest) token d = (on_store (OAuthStore.removeAccessToken now id) d, inl tt)) \/
  ((is_access token = true -> forall id t, token_id token = Some id -> fnd id d = Some (Some t) ->
      t.(OAuthStore.a_client) <> clientId c) /\ tries (TAccess :: rest) token d = tries rest token d).
Proof.
  intros Hc Hok. cbn [try_types fits as_arg]. destruct (is_access token); [|by right].
  rewrite access_try by done. destruct (token_id token) as [id|]; [|by right].
  destruct (fnd id d) as [[t|]|] eqn:Hf; [|right; split; [naive_solver|done]..].
  destruct (String.eqb_spec (OAuthStore.a_client t) (clientId c)); [left; naive_solver|right; naive_solver].
Qed.

Lemma run_refresh rest token d :
  client_of (mkDestroy cid cs (ARefreshToken token)) d = inl (Some c) -> ok d ->
  (is_refresh token = true /\ exists r, rows d !! hash token = Some r /\ r.(OAuthStore.r_client) = clientId c /\
     tries (TRefresh :: rest) token d =
       (on_store (OAuthStore.removeRefreshToken r.(OAuthStore.r_user) (hash token)) (touched (hash token) d), inl tt)) \/
  ((is_refresh token = true -> forall r, rows d !! hash token = Some r -> r.(OAuthStore.r_client) <> clientId c) /\
   exists d1, (d1 = d \/ d1 = touched (hash token) d) /\ tries (TRefresh :: rest) token d = tries rest token d1).
Proof.
  intros Hc Hok. cbn [try_types fits as_arg]. destruct (is_refresh token); [|right; split; [done|]; exists d; auto].
  rewrite refresh_try by done. destruct (rows d !! hash token) as [r|] eqn:Hr; [|right; split; [done|]; exists d; auto].
  destruct (String.eqb_spec (OAuthStore.r_client r) (clientId c)).
  - left. eauto 10.
  - right. split; [naive_solver|]. exists (touched (hash token) d). auto.
Qed.

Lemma kept_removed d id t :
  ok d -> fnd id d = Some (Some t) -> t.(OAuthStore.a_client) = clientId c ->
  (forall i u, fnd i d = Some (Some u) -> u.(OAuthStore.a_client) <> clientId c ->
     fnd i (on_store (OAuthStore.removeAccessToken now id) d) = Some (Some u)) /\
  fnd id (on_store (OAuthStore.removeAccessToken now id) d) = Some None.
Proof.
  intros Hok Hf Ht. pose proof (removeAccessToken_find href_of now id (s_db d) (so_one _ _ _ _ Hok id)) as Hr.
  cbn [s_db on_store]. split.
  - intros i u Hu Hne. rewrite Hr. case_bool_decide as He; [|done]. subst i. congruence.
  - rewrite Hr. by rewrite bool_decide_eq_true_2.
Qed.

Lemma removed_refresh_access u id d :
  same_access d.(s_db) (on_store (OAuthStore.removeRefreshToken u id) (touched id d)).(s_db).
Proof. destruct (touched_access id d) as (? & ? & ?). by split_and!. Qed.

Lemma access_of_touched d d1 id :
  d1 = d \/ d1 = touched id d -> ok d ->
  ok d1 /\ d1.(s_clients) = d.(s_clients) /\ forall i, fnd i d1 = fnd i d.
Proof.
  intros [->| ->] Hok; [done|]. split; [by apply touched_ok|]. split; [done|].
  intros i. apply same_access_find, touched_access.
Qed.

(** Revoking through /oauth/destroy says nothing about tokens: to a client
    that has authenticated it answers the same whatever the token is.  Tokens
    of other clients stay valid; its own access token is invalid afterwards,
    or its own refresh token, when the value names only one of them. *)
Theorem oauth_destroy_exact token hint d :
  client_of (mkDestroy cid cs (AnAccessToken token)) d = inl (Some c) -> store_ok href_of now c d ->
  exists d', oauth_destroy href_of hash hash_secret limit_r maxttl_r updateAfter now valid_clientId valid_clientSecret
      is_jwt is_access is_refresh jti h cid cs token hint d = (d', inl tt) /\
    (forall id t, fnd id d = Some (Some t) -> t.(OAuthStore.a_client) <> clientId c -> fnd id d' = Some (Some t)) /\
    (forall id t, is_access token = true -> token_id token = Some id -> rows d !! hash token = None ->
       fnd id d = Some (Some t) -> t.(OAuthStore.a_client) = clientId c -> fnd id d' = Some None) /\
    (forall r, is_refresh token = true -> rows d !! hash token = Some r -> r.(OAuthStore.r_client) = clientId c ->
       (forall id t, token_id token = Some id -> fnd id d <> Some (Some t)) -> rows d' !! hash token = None).
Proof.
  intros Hc Hok. unfold oauth_destroy, token_types.
  assert (forall arg d1, d1.(s_clients) = d.(s_clients) -> client_of (mkDestroy cid cs arg) d1 = inl (Some c)) as Hcl.
  { intros arg d1 Hd. rewrite <- Hc. by apply client_of_clients. }
  case_bool_decide.
  - destruct (run_refresh [TAccess] token d (Hcl _ d eq_refl) Hok) as [(Hi & r & Hr & Hrc & ->)|(Hno & d1 & Hd1 & ->)].
    { eexists. split; [done|]. split_and!.
      - intros id t Hf _. rewrite <- Hf. apply same_access_find, removed_refresh_access.
      - intros id t _ _ Hn. congruence.
      - intros _ _ _ _ _. simpl. apply lookup_delete_eq. }
    destruct (access_of_touched d d1 _ Hd1 Hok) as (Hok1 & Hs1 & Hf1).
    destruct (run_access [] token d1 (Hcl _ d1 Hs1) Hok1) as [(Hi & id & t & Hid & Hf & Ht & ->)|[Hna ->]].
    + destruct (kept_removed d1 id t Hok1 Hf Ht) as [Hkeep Hgone]. eexists. split; [done|]. split_and!.
      * intros i u Hu. apply Hkeep. by rewrite Hf1.
      * intros i u _ Hi' _ _ _. congruence.
      * intros r Hir Hr Hrc. by apply Hno in Hr.
    + exists d1. split; [done|]. split_and!.
      * intros i u Hu _. by rewrite Hf1.
      * intros i u Hi Hii _ Hu Huc. rewrite <- Hf1 in Hu. by apply (Hna Hi i u) in Hu.
      * intros r Hir Hr Hrc. by apply Hno in Hr.
  - destruct (run_access [TRefresh] token d (Hcl _ d eq_refl) Hok) as [(Hi & id & t & Hid & Hf & Ht & ->)|[Hna ->]].
    { destruct (kept_removed d id t Hok Hf Ht) as [Hkeep Hgone]. eexists. split; [done|]. split_and!.
      - done.
      - intros i u _ Hi' _ _ _. congruence.
      - intros r _ _ _ Hnone. by apply Hnone in Hf. }
    destruct (run_refresh [] token d (Hcl _ d eq_refl) Hok) as [(Hi & r & Hr & Hrc & ->)|(Hno & d1 & Hd1 & ->)].
    + eexists. split; [done|]. split_and!.
      * intros id t Hf _. rewrite <- Hf. apply same_access_find, removed_refresh_access.
      * intros id t _ _ Hn. congruence.
      * intros _ _ _ _ _. simpl. apply lookup_delete_eq.
    + destruct (access_of_touched d d1 _ Hd1 Hok) as (_ & _ & Hf1). exists d1. split; [done|]. split_and!.
      * intros i u Hu _. by rewrite Hf1.
      * intros i u Hi Hii _ Hu Huc. by apply (Hna Hi i u) in Hu.
      * intros r Hir Hr Hrc. by apply Hno in Hr.
Qed.
End DestroyLaws.

(** ** Introspection and verification *)

Section Introspection.
Context (href_of : string -> option string) (hash : string -> string) (limit_r maxttl_r updateAfter now : Z).
Context (is_jwt : string -> bool) (jti : string -> option string).

(** What /introspect says of a stored opaque access token and what the
    resource servers are told by [verify] agree, except that [verify] still
    accepts a token in the millisecond of its expiry, before the expiry epoch
    and for the clients of Pocket. *)
Theorem introspect_verify_agree verifyJWT short epoch pocket tok hint d t n :
  is_jwt tok = false -> hint <> Some TRefresh ->
  find href_of now (hash tok) d.(s_db) = Some (Some t) ->
  (introspect href_of hash limit_r maxttl_r updateAfter now is_jwt jti tok hint d).2 = inl n ->
  n = of_access now (hash tok) t /\
  (is_Some (match verify href_of is_jwt verifyJWT (stored_token href_of hash now is_jwt jti d) short epoch now pocket tok
            with inl i => Some i | inr _ => None end) <->
   n.(active) = true \/ t.(OAuthStore.a_expiresAt) = now \/ t.(OAuthStore.a_expiresAt) < epoch \/
   t.(OAuthStore.a_client) ∈ pocket).
Proof.
  intros Hj Hh Hf. unfold introspect, verify, verify_stored, stored_token, getTokenId. rewrite Hj, Hf.
  destruct hint as [[]|]; [|done|]; intros [= <-]; (split; [done|]); simpl;
    (destruct (Z.ltb_spec (OAuthStore.a_expiresAt t) now), (Z.geb_spec (OAuthStore.a_expiresAt t) epoch); simpl;
     [case_bool_decide; simpl|..]; rewrite ?Z.gtb_lt; split; intros Hx; eauto; try lia;
     try (destruct Hx as [? ?]; done); try (destruct Hx as [?|[?|[?|?]]]; (lia || done))).
Qed.
End Introspection.

(** ** Scoped keys *)

Section KeyLaws.
Context (href_of : string -> option string) (getScope : string -> option ScopeRow).

Lemma scan_config scopes st st' :
  scan href_of getScope st scopes = Some st' ->
  st'.(scopeConfig) = (st.(scopeConfig) ++ (List.map (fun s => (s, getScope s)) scopes))%list.
Proof.
  revert st. induction scopes as [|s scopes IH]; intros st; simpl; [intros [= <-]; by rewrite app_nil_r|].
  destruct (scan_one href_of getScope st s) as [st1|] eqn:E; [|done]. simpl. intros ->%IH.
  assert (scopeConfig st1 = (scopeConfig st ++ [(s, getScope s)])%list) as ->; [|by rewrite <- app_assoc].
  revert E. unfold scan_one. destruct (getScope s) as [row|]; [|by intros [= <-]].
  destruct (fromArray _ _); [|done]. simpl. destruct (add _ _); [|done]. by intros [= <-].
Qed.

Lemma config_get scopes s :
  s ∈ scopes -> obj_get (List.map (fun s => (s, getScope s)) scopes) s = Some (getScope s).
Proof.
  induction scopes as [|x scopes IH]; intros Hs; [by apply elem_of_nil in Hs|]. cbn.
  destruct (String.eqb_spec x s) as [->|Hne]; [done|]. apply IH. apply elem_of_cons in Hs as [?|?]; congruence.
Qed.

Lemma keyBearing_spec scopes :
  keyBearingScopes (List.map (fun s => (s, getScope s)) scopes) scopes = filterb (needs_key getScope) scopes.
Proof.
  unfold keyBearingScopes. apply filterb_ext. intros s Hs. rewrite config_get by done. by unfold needs_key.
Qed.

Lemma stale_false iat changed :
  stale iat changed = false <-> forall i k, iat = Some i -> changed = Some k -> Z.max k 0 < (i + 1) * 1000.
Proof.
  unfold stale. destruct iat as [i|], changed as [k|]; try (split; naive_solver).
  pose proof (Z.div_mod (Z.max k 0) 1000 ltac:(lia)). pose proof (Z.mod_pos_bound (Z.max k 0) 1000 ltac:(lia)).
  rewrite Z.ltb_ge. split; [intros Hle ? ? [= <-] [= <-]; lia|]. intros Hlt. specialize (Hlt i k eq_refl eq_refl). lia.
Qed.

(** The data of scoped keys goes to exactly the requests that may have it:
    those whose grant is allowed, and, when a scope of the request bears
    keys, whose session is verified and whose assertion is not older, in
    seconds, than the last change of the keys.  The answer names exactly the
    scopes of the request that bear keys, dated at that change. *)
Theorem key_data_exact verify_ clients a cid scope claims c ks :
  verify_ a = Some claims -> clients !! cid = Some c -> inv (getImplicantValues href_of) (good_scope href_of) scope ->
  let changed := num_or_opt claims.(f_keysChangedAt) claims.(f_generation) in
  keyDataHandler href_of getScope verify_ clients a cid scope = inl ks <->
  (exists g, validateRequestedGrant href_of getScope claims.(f_base) c.(base) (mkRequested (Some scope) None None None) = Granted g) /\
  ks = (fun s => mkKeyData s zero32 ((fun k => Z.max k 0) <$> changed)) <$> filterb (needs_key getScope) (getScopeValues scope) /\
  (ks <> [] -> claims.(f_base).(fxa_tokenVerified) = true /\
     forall i k, num_or_opt claims.(f_iat) claims.(f_base).(fxa_lastAuthAt) = Some i -> changed = Some k ->
       Z.max k 0 < (i + 1) * 1000).
Proof.
  intros Hv Hc Hs changed. unfold keyDataHandler. rewrite Hv, Hc. fold changed.
  set (dated := fun s => mkKeyData s zero32 ((fun k => Z.max k 0) <$> changed)).
  set (iat := num_or_opt _ _). rewrite <- stale_false.
  destruct (validateRequestedGrant _ _ _ _ _) as [g| | | |] eqn:Hg; [|naive_solver..].
  destruct (granted_is _ _ _ _ _ _ Hg) as (st & Hscan & Hgo & Hreq). simpl in Hscan.
  assert (g_scopeConfig g = List.map (fun s => (s, getScope s)) (getScopeValues scope)) as ->.
  { rewrite Hgo. simpl. by apply scan_config in Hscan. }
  rewrite keyBearing_spec. set (ss := filterb _ _).
  assert (dated <$> ss <> [] -> fxa_tokenVerified (f_base claims) = true) as Htv.
  { intros Hne. apply Hreq.
    assert (Forall (good_scope href_of) (getScopeValues scope)) as Hgood.
    { apply Forall_forall. intros x Hx.
      by apply (member_good (getImplicantValues href_of) _ _ x Hs), member_keys. }
    destruct (scan_spec href_of getScope _ (mkScan false [] empty_set) (empty_inv _ _) Hgood) as (st' & Hst' & _ & Hr & _).
    assert (st' = st) as -> by congruence. rewrite Hr. simpl. destruct ss as [|s l] eqn:Hss; [done|].
    assert (s ∈ ss) as [Hin Hk]%elem_of_filterb by (rewrite Hss; by left).
    apply existsb_exists. exists s. split; [by apply list_elem_of_In|done]. }
  destruct (decide (ss = [])) as [Hnil|Hne].
  - rewrite (bool_decide_eq_true_2 _ Hnil), Hnil. simpl. naive_solver.
  - rewrite (bool_decide_eq_false_2 _ Hne). simpl. assert (dated <$> ss <> []) as Hne' by (by destruct ss).
    destruct (stale iat changed); split.
    + done.
    + intros (_ & -> & Hx). by apply Hx in Hne' as [_ ?].
    + intros [= <-]. split; [by exists g|]. split; [done|]. auto.
    + by intros (_ & -> & _).
Qed.
End KeyLaws.

(** ** Witnesses *)

Definition stored_for (id client : string) : OAuthStore.StoredToken :=
  OAuthStore.mkStored id client false true "alice" "profile:email" 1000 0 5000.

(** One access token each of two clients, and a refresh token of the first. *)
Definition revocation_db : AuthDB :=
  mkAuthDB (OAuthStore.mkDB OAuthStore.empty_cache
    (OAuthStore.mkMysql {["t1" := stored_for "t1" "dead"; "t2" := stored_for "t2" "beef"]}
       {["r1" := OAuthStore.mkRefreshRow "dead" "alice" "profile:email" 1000]} ∅ ∅)) {["dead" := public_rp]}.

Definition tok_of (id client : string) : OAuthStore.AccessTok :=
  OAuthStore.mkAccessTok id client false false "alice" email_only 1000 0 5000.

Lemma revocation_find id :
  find Some 2000 id revocation_db.(s_db) =
  if bool_decide (id = "t1") then Some (Some (tok_of "t1" "dead"))
  else if bool_decide (id = "t2") then Some (Some (tok_of "t2" "beef")) else Some None.
Proof.
  case_bool_decide as H1; [subst; by vm_compute|]. case_bool_decide as H2; [subst; by vm_compute|].
  unfold OAuthStore.getAccessToken, OAuthStore.redis_getAccessToken, OAuthStore.cached. cbn [revocation_db s_db
    OAuthStore.cache OAuthStore.mysql OAuthStore.m_tokens OAuthStore.tokens OAuthStore.empty_cache].
  rewrite lookup_empty, lookup_insert_ne, lookup_singleton_ne by (intros <-; done). done.
Qed.

Lemma revocation_db_ok : store_ok Some 2000 public_rp revocation_db.
Proof.
  split.
  - intros id. rewrite revocation_find. repeat case_bool_decide; eauto.
  - intros id t. rewrite revocation_find. repeat case_bool_decide; [intros [= <-]; by subst..|done].
  - done.
  - intros id r. simpl. intros [<- <-]%lookup_singleton_Some. vm_compute. eauto.
Qed.

Lemma oauth_destroy_exact_witness :
  exists d', oauth_destroy Some id id 10 10 1000 2000 (fun _ => true) (fun _ => true) (fun _ => false) (fun _ => true)
      (fun _ => true) (fun _ => None) (mkHeaders None) (Some "dead") None "t1" None revocation_db = (d', inl tt) /\
    find Some 2000 "t1" d'.(s_db) = Some None /\ find Some 2000 "t2" d'.(s_db) = Some (Some (tok_of "t2" "beef")).
Proof.
  destruct (oauth_destroy_exact Some id id 10 10 1000 2000 (fun _ => true) (fun _ => true) (fun _ => false) (fun _ => true)
      (fun _ => true) (fun _ => None) (mkHeaders None) (Some "dead") None public_rp "t1" None revocation_db)
    as (d' & Hd & Hkeep & Hgone & _).
  - vm_compute. reflexivity.
  - exact revocation_db_ok.
  - exists d'. split; [exact Hd|]. split.
    + apply (Hgone "t1" (tok_of "t1" "dead")); [reflexivity|reflexivity|vm_compute; reflexivity|apply revocation_find|reflexivity].
    + apply (Hkeep "t2"); [apply revocation_find|discriminate].
Defined.

Lemma introspect_verify_agree_witness :
  is_Some (match verify Some (fun _ => false) (fun _ => None) (stored_token Some id 2000 (fun _ => false) (fun _ => None)
             revocation_db) 21600000 0 2000 [] "t1" with inl i => Some i | inr _ => None end) <->
  (5000 >? 2000) = true \/ 5000 = 2000 \/ 5000 < 0 \/ "dead" ∈ ([] : list string).
Proof.
  exact (proj2 (introspect_verify_agree Some id 10 10 1000 2000 (fun _ => false) (fun _ => None) (fun _ => None) 21600000 0 []
    "t1" None revocation_db (tok_of "t1" "dead") (of_access 2000 "t1" (tok_of "t1" "dead")) eq_refl
    ltac:(discriminate) (revocation_find "t1") ltac:(vm_compute; reflexivity))).
Defined.

Definition sync_claims : FullClaims :=
  mkFull (f_base signed_claims) (Some 1600000001) (Some 1500000000000) (Some 1600000001999).

Definition keys_row (s : string) : option ScopeRow := if String.eqb s "profile:email" then Some (mkRow true) else None.

Lemma key_data_exact_witness :
  keyDataHandler Some keys_row (fun _ => Some sync_claims) {["dead" := public_rp]} "assertion" "dead" email_only =
  inl [mkKeyData "profile:email" zero32 (Some 1600000001999)].
Proof.
  apply (key_data_exact Some keys_row (fun _ => Some sync_claims) {["dead" := public_rp]} "assertion" "dead" email_only
    sync_claims public_rp); [reflexivity|reflexivity|exact email_only_inv|].
  split; [eexists; vm_compute; reflexivity|]. split; [vm_compute; reflexivity|].
  intros _. split; [reflexivity|]. intros i k [= <-] [= <-]. reflexivity.
Defined.
