(* ===== verification/Bytes.v ===== *)
(** * Bytes and hexadecimal text
      (packages/fxa-auth-server/lib/crypto/butil.js, packages/fxa-auth-client/lib/utils.ts)

    Buffers are lists of bytes, a byte an integer below 256.  The server reads
    hexadecimal text with Node's lenient decoder, the client with a strict
    one; both print it in lower case. *)

From Stdlib Require Import Ascii.
From S2P Require Import Prelude Text.

#[local] Open Scope string_scope.
#[local] Open Scope Z_scope.

Definition is_byte (b : Z) : Prop := 0 <= b < 256.
Abbreviation bytes := (Forall is_byte).

(** ** Hexadecimal text *)

Definition hex_digit (n : Z) : ascii := ascii_of_N (Z.to_N (if n <? 10 then 48 + n else 87 + n)).

Definition hex_value (a : ascii) : option Z :=
  let n := Z.of_N (N_of_ascii a) in
  if (48 <=? n) && (n <=? 57) then Some (n - 48)
  else if (97 <=? n) && (n <=? 102) then Some (n - 87)
  else if (65 <=? n) && (n <=? 70) then Some (n - 55)
  else None.

(** [buffer.toString('hex')] *)
Fixpoint to_hex (l : list Z) : string :=
  match l with
  | [] => ""
  | b :: l' => String (hex_digit (b / 16)) (String (hex_digit (b mod 16)) (to_hex l'))
  end.

(** [Buffer.from(s, 'hex')]: stops at the first pair that is not hexadecimal. *)
Fixpoint from_hex (s : string) : list Z :=
  match s with
  | String a (String b s') =>
      match hex_value a, hex_value b with
      | Some x, Some y => 16 * x + y :: from_hex s'
      | _, _ => []
      end
  | _ => []
  end.

(** What butil.js accepts: [Buffer.from(x, 'hex')] decodes a string and
    copies a buffer. *)
Inductive Data := Hex (s : string) | Buf (l : list Z).

Definition from (x : Data) : list Z := match x with Hex s => from_hex s | Buf l => l end.

(** ** butil.js *)

(** The loop that collects differing bits. *)
Fixpoint mismatches (acc : Z) (l1 l2 : list Z) : Z :=
  match l1, l2 with
  | x :: l1', y :: l2' => mismatches (Z.lor acc (Z.lxor x y)) l1' l2'
  | _, _ => acc
  end.

Definition buffersAreEqual (buffer1 buffer2 : Data) : bool :=
  let l1 := from buffer1 in let l2 := from buffer2 in
  let mismatch := Z.of_nat (length l1) - Z.of_nat (length l2) in
  if negb (mismatch =? 0) then false else mismatches mismatch l1 l2 =? 0.

(** [None]: buffers of different lengths are an error. *)
Definition xorBuffers (buffer1 buffer2 : Data) : option (list Z) :=
  let l1 := from buffer1 in let l2 := from buffer2 in
  if Nat.eqb (length l1) (length l2) then Some (zip_with Z.lxor l1 l2) else None.

(** ** utils.ts of the client *)

(** [HEX_STRING] *)
Fixpoint hex_pairs (s : string) : bool :=
  match s with
  | "" => true
  | String a (String b s') => bool_decide (is_Some (hex_value a)) && bool_decide (is_Some (hex_value b)) && hex_pairs s'
  | _ => false
  end.

Definition HEX_STRING (s : string) : bool := str_truthy s && hex_pairs s.

Definition hexToUint8 (s : string) : option (list Z) := if HEX_STRING s then Some (from_hex s) else None.

(** [('00' + byte.toString(16)).slice(-2)] *)
Definition byte_hex (b : Z) : string :=
  let digits := if b <? 16 then String (hex_digit b) "" else String (hex_digit (b / 16)) (String (hex_digit (b mod 16)) "") in
  let padded := "00" ++ digits in
  String.substring (String.length padded - 2) 2 padded.

Definition uint8ToHex (l : list Z) : string := fold_left (fun str b => str ++ byte_hex b) l "".

(** [array1.map((byte, i) => byte ^ array2[i])]: a missing byte counts as 0. *)
Fixpoint xor (l1 l2 : list Z) : list Z :=
  match l1, l2 with
  | x :: l1', y :: l2' => Z.lxor x y :: xor l1' l2'
  | _, [] => l1
  | [], _ => []
  end.

(** * Laws *)

Lemma nibbles b : is_byte b -> 0 <= b / 16 < 16 /\ 0 <= b mod 16 < 16.
Proof.
  unfold is_byte. intros Hb. pose proof (Z.mod_pos_bound b 16). pose proof (Z.div_mod b 16). lia.
Qed.

Lemma hex_value_digit n : 0 <= n < 16 -> hex_value (hex_digit n) = Some n.
Proof.
  intros Hn. assert (Forall (fun n => hex_value (hex_digit n) = Some n) (seqZ 0 16)) as Hall
    by (cbn; repeat (constructor; [reflexivity|]); constructor).
  rewrite Forall_forall in Hall. apply Hall, elem_of_seqZ. lia.
Qed.

Lemma hex_value_bound a v : hex_value a = Some v -> 0 <= v < 16.
Proof. unfold hex_value. intros H. repeat case_match; simplify_eq; lia. Qed.

Lemma from_to_hex l : bytes l -> from_hex (to_hex l) = l.
Proof.
  induction 1 as [|b l Hb Hl IH]; [done|]. cbn [to_hex from_hex].
  rewrite !hex_value_digit, IH by (by apply nibbles).
  f_equal. symmetry. apply Z.div_mod. lia.
Qed.

Lemma from_hex_bytes s : bytes (from_hex s).
Proof.
  revert s. fix IH 1. intros [|a [|b s]]; [constructor..|]. cbn [from_hex].
  destruct (hex_value a) as [x|] eqn:Ha; [|constructor]. destruct (hex_value b) as [y|] eqn:Hb; [|constructor].
  apply hex_value_bound in Ha, Hb. constructor; [unfold is_byte; lia|apply IH].
Qed.

Lemma to_hex_app l k : to_hex (l ++ k)%list = to_hex l ++ to_hex k.
Proof. induction l as [|b l IH]; [done|]. simpl. by rewrite IH. Qed.

Lemma to_hex_length l : String.length (to_hex l) = (2 * length l)%nat.
Proof. induction l as [|b l IH]; [done|]. simpl. lia. Qed.

Lemma lxor_byte x y : is_byte x -> is_byte y -> is_byte (Z.lxor x y).
Proof.
  unfold is_byte. intros Hx Hy. assert (0 <= Z.lxor x y) as Hp by (apply Z.lxor_nonneg; lia). split; [done|].
  destruct (Z.eq_dec (Z.lxor x y) 0) as [->|Hne]; [lia|].
  assert (forall z, 0 <= z < 256 -> Z.log2 z < 8) as Hlog.
  { intros z Hz. destruct (Z.eq_dec z 0) as [->|]; [done|]. apply Z.log2_lt_pow2; lia. }
  pose proof (Z.log2_lxor x y ltac:(lia) ltac:(lia)). pose proof (Hlog x Hx). pose proof (Hlog y Hy).
  change 256 with (2 ^ 8). apply Z.log2_lt_pow2; lia.
Qed.

Lemma zip_xor_bytes l k : bytes l -> bytes k -> bytes (zip_with Z.lxor l k).
Proof. intros Hl. revert k. induction Hl as [|x l Hx Hl IH]; intros [|y k] Hk; inversion Hk; constructor; auto using lxor_byte. Qed.

Lemma zip_xor_length l k : length l = length k -> length (zip_with Z.lxor l k) = length k.
Proof. intros H. rewrite length_zip_with. lia. Qed.

(** Exclusive or with the same key twice gives the bytes back. *)
Lemma zip_xor_involutive l k : length l = length k -> zip_with Z.lxor (zip_with Z.lxor l k) k = l.
Proof.
  revert k. induction l as [|x l IH]; intros [|y k] H; simplify_eq/=; [done|].
  by rewrite IH, Z.lxor_assoc, Z.lxor_nilpotent, Z.lxor_0_r by lia.
Qed.

Lemma zip_xor_comm l k : zip_with Z.lxor l k = zip_with Z.lxor k l.
Proof. revert k. induction l as [|x l IH]; intros [|y k]; [done..|]. simpl. by rewrite IH, Z.lxor_comm. Qed.

Lemma xor_zip l k : length l = length k -> xor l k = zip_with Z.lxor l k.
Proof. revert k. induction l as [|x l IH]; intros [|y k] H; simplify_eq/=; [done|]. by rewrite IH by lia. Qed.

Lemma mismatches_zero acc l k :
  mismatches acc l k = 0 <-> acc = 0 /\ Forall2 (fun x y => x = y) (take (length k) l) (take (length l) k).
Proof.
  revert acc k. induction l as [|x l IH]; intros acc [|y k]; simpl.
  1-3: split; [intros ->; split; [done|constructor]|by intros [-> _]].
  rewrite IH, Z.lor_eq_0_iff, Z.lxor_eq_0_iff, Forall2_cons. tauto.
Qed.

Lemma Forall2_eq {A} (l k : list A) : Forall2 (fun x y => x = y) l k <-> l = k.
Proof. split; [induction 1; congruence|intros ->; by induction k; constructor]. Qed.

(** The constant-time comparison decides equality of the bytes. *)
Lemma buffersAreEqual_spec a b : buffersAreEqual a b = true <-> from a = from b.
Proof.
  unfold buffersAreEqual. destruct (Z.eqb_spec (Z.of_nat (length (from a)) - Z.of_nat (length (from b))) 0) as [He|Hne]; cbn [negb].
  - rewrite He, Z.eqb_eq, mismatches_zero, Forall2_eq.
    assert (length (from a) = length (from b)) as Hl by lia. rewrite <- Hl at 1. rewrite Hl, !take_ge by lia. tauto.
  - split; [done|]. intros Heq. rewrite Heq in Hne. lia.
Qed.

Lemma append_empty_l s : "" ++ s = s.
Proof. done. Qed.

Lemma byte_hex_to_hex b : is_byte b -> byte_hex b = to_hex [b].
Proof.
  intros Hb. unfold byte_hex. destruct (Z.ltb_spec b 16); [|done].
  cbn [to_hex]. unfold is_byte in Hb. rewrite Z.div_small, Z.mod_small by lia. done.
Qed.

Lemma uint8ToHex_to_hex l : bytes l -> uint8ToHex l = to_hex l.
Proof.
  intros Hl. unfold uint8ToHex.
  assert (forall acc, fold_left (fun str b => str ++ byte_hex b) l acc = acc ++ to_hex l) as H; [|by rewrite H].
  induction Hl as [|b l Hb Hl IH]; intros acc; simpl; [by rewrite append_nil_r|].
  rewrite IH, byte_hex_to_hex, append_assoc by done. done.
Qed.

Lemma hex_pairs_to_hex l : bytes l -> hex_pairs (to_hex l) = true.
Proof.
  induction 1 as [|b l Hb Hl IH]; [done|]. cbn [to_hex hex_pairs].
  rewrite !hex_value_digit, IH by (by apply nibbles).
  by rewrite !bool_decide_eq_true_2 by eauto.
Qed.

(** The client reads what both sides print. *)
Lemma hexToUint8_to_hex l : bytes l -> l <> [] -> hexToUint8 (to_hex l) = Some l.
Proof.
  intros Hl Hne. unfold hexToUint8, HEX_STRING. rewrite hex_pairs_to_hex, from_to_hex by done. by destruct l.
Qed.
