(* ===== verification/KeyBundle.v ===== *)
(** * Keys, bundles and passwords
      (packages/fxa-auth-server/lib/tokens/bundle.js, tokens/token.js, tokens/key_fetch_token.js, crypto/hkdf.js,
       crypto/password.js; packages/fxa-auth-client/lib/crypto.ts, hawk.ts)

    The server encrypts the keys of an account for the holder of a key fetch
    token and wraps the account's secret with the password; the client undoes
    both.  The primitives are an interface. *)

From S2P Require Import Prelude Text Bytes.

#[local] Open Scope string_scope.
#[local] Open Scope Z_scope.

(** ** The primitives *)

(** [hkdf km info len] without salt, HMAC-SHA-256, scrypt with the server's
    parameters, and PBKDF2 with the client's. *)
Class Crypto := {
  HKDF : list Z -> string -> nat -> list Z;
  HMAC : list Z -> list Z -> list Z;
  scrypt : list Z -> list Z -> list Z;
  PBKDF2 : string -> string -> list Z }.

Class CryptoLaws `{Crypto} := {
  HKDF_length km info n : length (HKDF km info n) = n;
  HKDF_bytes km info n : bytes (HKDF km info n);
  HMAC_length k m : length (HMAC k m) = 32%nat;
  HMAC_bytes k m : bytes (HMAC k m) }.

(** ** Data *)

Inductive BundleErr := InvalidSignature | XorLength | InvalidHex | BadHMac | UnknownVersion.

Record BundleKeys := mkBundleKeys { hmacKey : list Z; xorKey : list Z }.

Record TokenKeys := mkTokenKeys { k_data : string; k_id : string; k_authKey : string; k_bundleKey : string }.

Record KeyFetchToken := mkKeyFetchToken {
  kf_keys : TokenKeys;
  kf_uid : string;
  kf_keyBundle : string;
  kf_emailVerified : bool;
  kf_tokenVerificationId : option string;
  kf_tokenVerified : bool }.

Record Password := mkPassword { authPW : list Z; authSalt : list Z; version : Z; stretched : list Z }.

Record ClientCredentials := mkClientCredentials { cc_authPW : string; cc_unwrapBKey : string }.

Section KeyBundle.
Context `{Crypto}.

(** ** hkdf.js *)

Definition NAMESPACE : string := "identity.mozilla.com/picl/v1/".

Definition KW (name : string) : string := NAMESPACE ++ name.

Definition hkdf (km : list Z) (info : string) (len : nat) : list Z := HKDF km (KW info) len.

(** ** bundle.js *)

Definition deriveBundleKeys (key : list Z) (keyInfo : string) (payloadSize : nat) : BundleKeys :=
  let keyMaterial := hkdf key keyInfo (32 + payloadSize) in
  mkBundleKeys (take 32 keyMaterial) (drop 32 keyMaterial).

Definition bundle (key : string) (keyInfo : string) (payload : Data) : option string :=
  let key := from_hex key in
  let payload := from payload in
  let keys := deriveBundleKeys key keyInfo (length payload) in
  ciphertext ← xorBuffers (Buf payload) (Buf keys.(xorKey));
  Some (to_hex (ciphertext ++ HMAC keys.(hmacKey) ciphertext)%list).

Definition unbundle (key : string) (keyInfo : string) (payload : Data) : string + BundleErr :=
  let key := from_hex key in
  let payload := from payload in
  let ciphertext := take (length payload - 32) payload in
  let expectedHmac := drop (length payload - 32) payload in
  let keys := deriveBundleKeys key keyInfo (length ciphertext) in
  if negb (buffersAreEqual (Buf (HMAC keys.(hmacKey) ciphertext)) (Buf expectedHmac)) then inr InvalidSignature
  else match xorBuffers (Buf ciphertext) (Buf keys.(xorKey)) with
       | Some p => inl (to_hex p)
       | None => inr XorLength
       end.

(** ** token.js *)

(** [seed]: the 32 random bytes, or the ones a client sends back. *)
Definition deriveTokenKeys (tokenTypeID : string) (seed : list Z) : TokenKeys :=
  let keyMaterial := hkdf seed tokenTypeID 96 in
  mkTokenKeys (to_hex seed) (to_hex (take 32 keyMaterial)) (to_hex (take 32 (drop 32 keyMaterial)))
    (to_hex (take 32 (drop 64 keyMaterial))).

Definition createTokenFromHexData (tokenTypeID : string) (hexData : string) : TokenKeys :=
  deriveTokenKeys tokenTypeID (from_hex hexData).

(** ** key_fetch_token.js *)

Definition keyFetchToken : string := "keyFetchToken".

Definition bundleKeys (keys : TokenKeys) (kA wrapKb : string) : option string :=
  bundle keys.(k_bundleKey) "account/keys" (Buf (from_hex kA ++ from_hex wrapKb)%list).

(** [plaintext.slice(0, 64)] and [plaintext.slice(64, 128)], of a string. *)
Definition unbundleKeys (keys : TokenKeys) (b : string) : (string * string) + BundleErr :=
  match unbundle keys.(k_bundleKey) "account/keys" (Hex b) with
  | inl plaintext => inl (String.substring 0 64 plaintext, String.substring 64 64 plaintext)
  | inr e => inr e
  end.

(** [KeyFetchToken.create]; [None]: an error is thrown. *)
Definition create_key_fetch_token (seed : list Z) (uid kA wrapKb : string) (emailVerified : bool)
    (tokenVerificationId : option string) : option KeyFetchToken :=
  let keys := deriveTokenKeys keyFetchToken seed in
  b ← bundleKeys keys kA wrapKb;
  let vid := match tokenVerificationId with Some v => if str_truthy v then Some v else None | None => None end in
  Some (mkKeyFetchToken keys uid b emailVerified vid (match vid with Some _ => false | None => true end)).

(** ** password.js *)

(** [hashVersions]; there are only versions 0 and 1. *)
Definition stretch (v : Z) (pw salt : list Z) : option (list Z) :=
  if v =? 0 then xorBuffers (Buf pw) (Buf salt) else if v =? 1 then Some (scrypt pw salt) else None.

Definition new_Password (pw salt : string) (v : option Z) : option Password :=
  let v := default 1 v in
  let pw := from_hex pw in let salt := from_hex salt in
  s ← stretch v pw salt;
  Some (mkPassword pw salt v s).

Definition verifyHash (p : Password) : string := to_hex (hkdf p.(stretched) "verifyHash" 32).

Definition matches (p : Password) (hash : string) : bool := buffersAreEqual (Hex (verifyHash p)) (Hex hash).

(** [Password.prototype.unwrap], which is also [wrap]. *)
Definition unwrap (p : Password) (wrapped : string) (context : option string) : option string :=
  let context := match context with Some c => if str_truthy c then c else "wrapwrapKey" | None => "wrapwrapKey" end in
  to_hex <$> xorBuffers (Buf (hkdf p.(stretched) context 32)) (Hex wrapped).

Definition wrap := unwrap.

(** ** crypto.ts and hawk.ts of the client *)

Definition getCredentials (email password : string) : ClientCredentials :=
  let quickStretched := PBKDF2 password (NAMESPACE ++ "quickStretch:" ++ email) in
  mkClientCredentials (uint8ToHex (HKDF quickStretched (NAMESPACE ++ "authPW") 32))
    (uint8ToHex (HKDF quickStretched (NAMESPACE ++ "unwrapBkey") 32)).

Definition client_deriveBundleKeys (key keyInfo : string) (payloadBytes : nat) : option BundleKeys :=
  k ← hexToUint8 key;
  let keyMaterial := HKDF k (NAMESPACE ++ keyInfo) (32 + payloadBytes) in
  Some (mkBundleKeys (take 32 keyMaterial) (drop 32 keyMaterial)).

(** [b.subarray(start)]: a negative start counts from the end. *)
Definition subarray_from (l : list Z) (start : Z) : list Z :=
  drop (Z.to_nat (if start <? 0 then Z.max (Z.of_nat (length l) + start) 0 else start)) l.

Definition unbundleKeyFetchResponse (key b : string) : (string * string) + BundleErr :=
  match hexToUint8 b, client_deriveBundleKeys key "account/keys" 64 with
  | Some b, Some keys =>
      let ciphertext := take 64 b in
      let expectedHmac := subarray_from b (Z.of_nat (length b) - 32) in
      if negb (bool_decide (HMAC keys.(hmacKey) ciphertext = expectedHmac)) then inr BadHMac
      else
        let keyAWrapB := xor ciphertext keys.(xorKey) in
        inl (uint8ToHex (take 32 keyAWrapB), uint8ToHex (drop 32 keyAWrapB))
  | _, _ => inr InvalidHex
  end.

Definition unwrapKB (wrapKB unwrapBKey : string) : option string :=
  a ← hexToUint8 wrapKB; b ← hexToUint8 unwrapBKey; Some (uint8ToHex (xor a b)).

(** The [bundleKey] of [deriveHawkCredentials]. *)
Definition deriveHawkCredentials (token context : string) : option TokenKeys :=
  t ← hexToUint8 token;
  let keyMaterial := HKDF t (NAMESPACE ++ context) 96 in
  Some (mkTokenKeys token (uint8ToHex (take 32 keyMaterial)) (uint8ToHex (take 32 (drop 32 keyMaterial)))
          (uint8ToHex (drop 64 keyMaterial))).
End KeyBundle.

(** * Laws *)

(** Lower-case hexadecimal text of [n] bytes. *)
Definition hex_of (n : nat) (s : string) : Prop := exists l, bytes l /\ length l = n /\ s = to_hex l.

Lemma hex_of_from n s : hex_of n s -> bytes (from_hex s) /\ length (from_hex s) = n /\ to_hex (from_hex s) = s.
Proof. intros (l & Hl & Hn & ->). by rewrite from_to_hex. Qed.

Lemma hex_of_client n s : hex_of n s -> (0 < n)%nat -> hexToUint8 s = Some (from_hex s).
Proof.
  intros (l & Hl & Hn & ->) Hp. rewrite from_to_hex by done. apply hexToUint8_to_hex; [done|]. by destruct l; [simpl in *; lia|].
Qed.

Lemma take_bytes n l : bytes l -> bytes (take n l).
Proof. apply Forall_take. Qed.

Lemma drop_bytes n l : bytes l -> bytes (drop n l).
Proof. apply Forall_drop. Qed.

Lemma substring_prefix s t : String.substring 0 (String.length s) (s ++ t) = s.
Proof. induction s as [|a s IH]; simpl; [by destruct t|]. by rewrite IH. Qed.

Lemma substring_all s : String.substring 0 (String.length s) s = s.
Proof. induction s as [|a s IH]; simpl; [done|]. by rewrite IH. Qed.

Lemma substring_suffix s t : String.substring (String.length s) (String.length t) (s ++ t) = t.
Proof. induction s as [|a s IH]; simpl; [apply substring_all|done]. Qed.

Lemma xorBuffers_same l k : length l = length k -> xorBuffers (Buf l) (Buf k) = Some (zip_with Z.lxor l k).
Proof. intros Hl. unfold xorBuffers. simpl. by rewrite Hl, Nat.eqb_refl. Qed.

Section Laws.
Context `{CryptoLaws}.

Lemma hkdf_length km info n : length (hkdf km info n) = n.
Proof. apply HKDF_length. Qed.

Lemma hkdf_bytes km info n : bytes (hkdf km info n).
Proof. apply HKDF_bytes. Qed.

Lemma xorKey_length key info n : length (deriveBundleKeys key info n).(xorKey) = n.
Proof. simpl. rewrite length_drop, hkdf_length. lia. Qed.

Lemma xorKey_bytes key info n : bytes (deriveBundleKeys key info n).(xorKey).
Proof. apply drop_bytes, hkdf_bytes. Qed.

(** The ciphertext of a plaintext. *)
Definition ciphertext_of (key : list Z) (info : string) (p : list Z) : list Z :=
  zip_with Z.lxor p (deriveBundleKeys key info (length p)).(xorKey).

Definition mac_of (key : list Z) (info : string) (c : list Z) : list Z :=
  HMAC (deriveBundleKeys key info (length c)).(hmacKey) c.

Lemma ciphertext_length key info p : length (ciphertext_of key info p) = length p.
Proof. unfold ciphertext_of. rewrite zip_xor_length, xorKey_length; rewrite ?xorKey_length; done. Qed.

Lemma ciphertext_bytes key info p : bytes p -> bytes (ciphertext_of key info p).
Proof. intros Hp. apply zip_xor_bytes; [done|apply xorKey_bytes]. Qed.

Lemma ciphertext_involutive key info p : ciphertext_of key info (ciphertext_of key info p) = p.
Proof. unfold ciphertext_of at 1. rewrite ciphertext_length. apply zip_xor_involutive. by rewrite xorKey_length. Qed.

Lemma mac_length key info c : length (mac_of key info c) = 32%nat.
Proof. apply HMAC_length. Qed.

Lemma sealed_bytes key info p :
  bytes p -> bytes (ciphertext_of key info p ++ mac_of key info (ciphertext_of key info p))%list.
Proof. intros Hp. apply Forall_app. split; [by apply ciphertext_bytes|apply HMAC_bytes]. Qed.

Lemma bundle_spec key info x :
  bundle key info x = Some (to_hex (ciphertext_of (from_hex key) info (from x) ++
    mac_of (from_hex key) info (ciphertext_of (from_hex key) info (from x)))%list).
Proof.
  unfold bundle. rewrite xorBuffers_same by (by rewrite xorKey_length). simpl.
  unfold mac_of. by rewrite ciphertext_length.
Qed.

Lemma unbundle_spec key info x c m :
  from x = (c ++ m)%list -> length m = 32%nat ->
  unbundle key info x =
    if bool_decide (mac_of (from_hex key) info c = m) then inl (to_hex (ciphertext_of (from_hex key) info c))
    else inr InvalidSignature.
Proof.
  intros Hx Hm. unfold unbundle. rewrite Hx, length_app, Hm. replace (length c + 32 - 32)%nat with (length c) by lia.
  rewrite take_app_length, drop_app_length. fold (mac_of (from_hex key) info c).
  destruct (buffersAreEqual _ _) eqn:Heq; cbn [negb].
  - apply buffersAreEqual_spec in Heq. simpl in Heq. rewrite bool_decide_eq_true_2 by done.
    rewrite xorBuffers_same by (by rewrite xorKey_length). done.
  - rewrite bool_decide_eq_false_2; [done|]. intros He. enough (false = true) by done. rewrite <- Heq.
    by apply buffersAreEqual_spec.
Qed.

Lemma unbundle_short key info x : (length (from x) < 32)%nat -> unbundle key info x = inr InvalidSignature.
Proof.
  intros Hl. unfold unbundle. replace (length (from x) - 32)%nat with 0%nat by lia. rewrite drop_0.
  destruct (buffersAreEqual _ _) eqn:Heq; [|done]. apply buffersAreEqual_spec in Heq. simpl in Heq.
  apply (f_equal length) in Heq. rewrite HMAC_length in Heq. lia.
Qed.

(** Bundles are authenticated: [unbundle] gives a plaintext exactly for the
    bytes that [bundle] makes of that plaintext with the same key, and
    refuses everything else, payloads shorter than a MAC included. *)
Theorem bundle_exact key info s p :
  unbundle key info (Hex s) = inl p <->
  to_hex (from_hex p) = p /\ exists b, bundle key info (Hex p) = Some b /\ from_hex s = from_hex b.
Proof.
  setoid_rewrite bundle_spec. simpl. split.
  - destruct (decide (length (from_hex s) < 32)%nat) as [Hs|Hs]; [by rewrite unbundle_short|].
    set (n := (length (from_hex s) - 32)%nat).
    assert (length (drop n (from_hex s)) = 32%nat) as Hd by (rewrite length_drop; unfold n; lia).
    rewrite (unbundle_spec key info (Hex s) (take n (from_hex s)) (drop n (from_hex s)));
      [|simpl; by rewrite take_drop|done].
    case_bool_decide as Hm; [|done]. intros [= <-]. rewrite from_to_hex.
    2:{ apply ciphertext_bytes, take_bytes, from_hex_bytes. }
    split; [done|]. eexists. split; [done|]. rewrite ciphertext_involutive, Hm, take_drop.
    symmetry. apply from_to_hex, from_hex_bytes.
  - intros (Hp & b & [= <-] & Hs). rewrite from_to_hex in Hs by apply sealed_bytes, from_hex_bytes.
    rewrite (unbundle_spec _ _ (Hex s) _ _ Hs) by apply mac_length.
    by rewrite bool_decide_eq_true_2, ciphertext_involutive, Hp.
Qed.

Lemma token_bundleKey id seed :
  from_hex (deriveTokenKeys id seed).(k_bundleKey) = drop 64 (hkdf seed id 96).
Proof.
  simpl. rewrite from_to_hex by (apply take_bytes, drop_bytes, hkdf_bytes).
  rewrite take_ge; [done|]. rewrite length_drop, hkdf_length. lia.
Qed.

(** Client and server derive the same credentials from a token. *)
Lemma hawk_credentials id seed :
  bytes seed -> seed <> [] -> deriveHawkCredentials (to_hex seed) id = Some (deriveTokenKeys id seed).
Proof.
  intros Hb Hne. unfold deriveHawkCredentials. rewrite hexToUint8_to_hex by done. simpl. unfold deriveTokenKeys.
  rewrite !uint8ToHex_to_hex by (repeat apply take_bytes; repeat apply drop_bytes; apply HKDF_bytes).
  do 2 f_equal. rewrite take_ge; [done|]. rewrite length_drop, hkdf_length. lia.
Qed.

Lemma client_unbundle key c m :
  hex_of 32 key -> bytes (c ++ m)%list -> length c = 64%nat -> length m = 32%nat ->
  m = mac_of (from_hex key) "account/keys" c ->
  let p := ciphertext_of (from_hex key) "account/keys" c in
  unbundleKeyFetchResponse key (to_hex (c ++ m)%list) = inl (to_hex (take 32 p), to_hex (drop 32 p)).
Proof.
  intros Hk Hb Hc Hm Hmac p. unfold unbundleKeyFetchResponse.
  assert (client_deriveBundleKeys key "account/keys" 64 = Some (deriveBundleKeys (from_hex key) "account/keys" 64)) as ->
    by (unfold client_deriveBundleKeys; by rewrite (hex_of_client 32) by (done || lia)).
  rewrite hexToUint8_to_hex by (try done; destruct c; simpl in *; (done || lia)).
  rewrite <- Hc, take_app_length, length_app, Hm.
  unfold subarray_from. destruct (Z.ltb_spec (Z.of_nat (length c + 32) - 32) 0); [lia|].
  replace (Z.to_nat (Z.of_nat (length c + 32) - 32)) with (length c) by lia. rewrite drop_app_length.
  fold (mac_of (from_hex key) "account/keys" c). rewrite bool_decide_eq_true_2 by done. cbn [negb].
  assert (bytes p) as Hp by (apply ciphertext_bytes; by apply Forall_app in Hb as [? _]).
  rewrite xor_zip by (by rewrite xorKey_length). fold (ciphertext_of (from_hex key) "account/keys" c). fold p.
  rewrite !uint8ToHex_to_hex; auto using take_bytes, drop_bytes.
Qed.

Lemma key_fetch_spec seed uid kA wrapKb verified vid :
  bytes seed -> seed <> [] -> hex_of 32 kA -> hex_of 32 wrapKb ->
  exists t, create_key_fetch_token seed uid kA wrapKb verified vid = Some t /\
    t.(kf_keys) = deriveTokenKeys keyFetchToken seed /\ t.(kf_uid) = uid /\
    (vid = None -> t.(kf_tokenVerificationId) = None) /\ to_hex (from_hex t.(kf_keyBundle)) = t.(kf_keyBundle) /\
    deriveHawkCredentials t.(kf_keys).(k_data) keyFetchToken = Some t.(kf_keys) /\
    unbundleKeyFetchResponse t.(kf_keys).(k_bundleKey) t.(kf_keyBundle) = inl (kA, wrapKb) /\
    unbundleKeys t.(kf_keys) t.(kf_keyBundle) = inl (kA, wrapKb).
Proof.
  intros Hs Hne (a & Ha & Hla & ->) (w & Hw & Hlw & ->). unfold create_key_fetch_token, bundleKeys.
  rewrite bundle_spec. cbn [mbind option_bind from]. rewrite !from_to_hex by done. eexists. split; [done|].
  cbn [kf_keys kf_keyBundle kf_uid kf_tokenVerificationId]. split; [done|]. split; [done|]. split; [by intros ->|].
  set (tk := deriveTokenKeys keyFetchToken seed). set (key := from_hex (k_bundleKey tk)).
  assert (bytes (a ++ w)%list) as Haw by (by apply Forall_app). set (c := ciphertext_of _ _ (a ++ w)%list).
  assert (length c = 64%nat) as Hc by (unfold c; rewrite ciphertext_length, length_app; lia).
  assert (bytes (c ++ mac_of key "account/keys" c)%list) as Hb by (by apply sealed_bytes).
  split; [fold key; fold c; by rewrite from_to_hex|]. split; [by apply hawk_credentials|]. split.
  - rewrite (client_unbundle (k_bundleKey tk)); [| |done|done|apply mac_length|done].
    + fold key. unfold c. rewrite ciphertext_involutive, <- Hla, take_app_length, drop_app_length. done.
    + exists (drop 64 (hkdf seed keyFetchToken 96)).
      split; [apply drop_bytes, hkdf_bytes|]. split; [rewrite length_drop, hkdf_length; lia|].
      simpl. rewrite take_ge; [done|]. rewrite length_drop, hkdf_length. lia.
  - unfold unbundleKeys. rewrite (unbundle_spec _ _ _ c (mac_of key "account/keys" c));
      [|simpl; by rewrite from_to_hex|apply mac_length].
    rewrite bool_decide_eq_true_2 by done. fold key. unfold c. rewrite ciphertext_involutive, to_hex_app.
    assert (String.length (to_hex a) = 64%nat) as Hl1 by (rewrite to_hex_length; lia).
    assert (String.length (to_hex w) = 64%nat) as Hl2 by (rewrite to_hex_length; lia).
    pose proof (substring_prefix (to_hex a) (to_hex w)) as Hpre. pose proof (substring_suffix (to_hex a) (to_hex w)) as Hsuf.
    rewrite Hl1 in Hpre, Hsuf. rewrite Hl2 in Hsuf. by rewrite Hpre, Hsuf.
Qed.

(** [C38] The keys that the server puts into a key fetch token come out of it at
    the client that holds the token, and at the server; the token's id and
    request key are the same on both sides. *)
Theorem key_fetch_roundtrip seed uid kA wrapKb verified vid :
  bytes seed -> seed <> [] -> hex_of 32 kA -> hex_of 32 wrapKb ->
  exists t, create_key_fetch_token seed uid kA wrapKb verified vid = Some t /\
    deriveHawkCredentials t.(kf_keys).(k_data) keyFetchToken = Some t.(kf_keys) /\
    unbundleKeyFetchResponse t.(kf_keys).(k_bundleKey) t.(kf_keyBundle) = inl (kA, wrapKb) /\
    unbundleKeys t.(kf_keys) t.(kf_keyBundle) = inl (kA, wrapKb).
Proof.
  intros Hs Hne Ha Hw. destruct (key_fetch_spec seed uid kA wrapKb verified vid Hs Hne Ha Hw) as (t & Ht & _ & _ & _ & _ & Hx).
  by exists t.
Qed.

Lemma unwrap_spec p w ctx : hex_of 32 w -> exists w', unwrap p w ctx = Some w' /\ hex_of 32 w' /\ unwrap p w' ctx = Some w.
Proof.
  intros (l & Hl & Hn & ->). unfold unwrap. set (c := match ctx with Some _ => _ | None => _ end).
  set (k := hkdf (stretched p) c 32). assert (length k = 32%nat) as Hk by apply hkdf_length.
  assert (bytes k) as Hb by apply hkdf_bytes.
  assert (forall m, bytes m -> length m = 32%nat ->
    to_hex <$> xorBuffers (Buf k) (Hex (to_hex m)) = Some (to_hex (zip_with Z.lxor m k))) as Hx.
  { intros m Hm Hlm. unfold xorBuffers. simpl. rewrite from_to_hex, Hk, Hlm by done. simpl. by rewrite zip_xor_comm. }
  rewrite Hx by done. eexists. split; [done|].
  assert (bytes (zip_with Z.lxor l k)) as Hlk by (by apply zip_xor_bytes).
  assert (length (zip_with Z.lxor l k) = 32%nat) as Hlen by (rewrite zip_xor_length; lia).
  split; [by exists (zip_with Z.lxor l k)|]. rewrite Hx, zip_xor_involutive by (done || lia). done.
Qed.

(** Wrapping is its own inverse on the keys of accounts, for every password
    and context, and fails for anything that is not 32 bytes long. *)
Theorem password_wrap_exact p w ctx :
  (is_Some (wrap p w ctx) <-> length (from_hex w) = 32%nat) /\
  (forall w', hex_of 32 w -> wrap p w ctx = Some w' -> hex_of 32 w' /\ unwrap p w' ctx = Some w).
Proof.
  split.
  - unfold wrap, unwrap, xorBuffers. simpl. rewrite hkdf_length.
    destruct (Nat.eqb_spec 32 (length (from_hex w))); split; intros Hx; eauto; [by destruct Hx|lia].
  - intros w' Hw Hs. destruct (unwrap_spec p w ctx Hw) as (w1 & H1 & Hh & Hu). unfold wrap in Hs. by simplify_eq.
Qed.

Lemma matches_spec p h : matches p h = true <-> from_hex h = hkdf p.(stretched) "verifyHash" 32.
Proof.
  unfold matches, verifyHash. rewrite buffersAreEqual_spec. simpl. rewrite from_to_hex by apply hkdf_bytes. by split.
Qed.

(** The client's side of the wrapping. *)
Lemma unwrapKB_spec a k : hex_of 32 a -> hex_of 32 k -> exists b, unwrapKB a k = Some b /\ hex_of 32 b /\ unwrapKB b k = Some a.
Proof.
  intros Ha Hk. destruct (hex_of_from _ _ Ha) as (Ba & La & Ca). destruct (hex_of_from _ _ Hk) as (Bk & Lk & _).
  unfold unwrapKB. rewrite (hex_of_client 32 a), (hex_of_client 32 k) by (done || lia). simpl.
  set (x := xor (from_hex a) (from_hex k)).
  assert (x = zip_with Z.lxor (from_hex a) (from_hex k)) as Hx by (apply xor_zip; lia).
  assert (bytes x) as Bx by (rewrite Hx; by apply zip_xor_bytes).
  assert (length x = 32%nat) as Lx by (rewrite Hx, zip_xor_length; lia).
  rewrite uint8ToHex_to_hex by done. assert (hex_of 32 (to_hex x)) as Hhx by (by exists x).
  eexists. split; [done|]. split; [done|]. rewrite (hex_of_client 32) by (done || lia). simpl.
  rewrite from_to_hex by done. rewrite xor_zip by lia. rewrite Hx, zip_xor_involutive by lia.
  by rewrite uint8ToHex_to_hex, Ca.
Qed.

Lemma credentials_hex email pw : hex_of 32 (getCredentials email pw).(cc_authPW) /\ hex_of 32 (getCredentials email pw).(cc_unwrapBKey).
Proof.
  simpl. rewrite !uint8ToHex_to_hex by apply HKDF_bytes.
  split; eexists; (split; [apply HKDF_bytes|]); split; (apply HKDF_length || done).
Qed.
End Laws.

(** ** Witnesses *)

(** Primitives of the right shape, for evaluation only. *)
Definition toy (seed : Z) (n : nat) : list Z := (fun i => (seed + 7 * i) mod 256) <$> seqZ 0 (Z.of_nat n).

Definition sum (l : list Z) : Z := fold_right Z.add 0 l.

Fixpoint text_sum (s : string) : Z :=
  match s with EmptyString => 0 | String a s' => Z.of_N (Ascii.N_of_ascii a) + 3 * text_sum s' end.

Definition toy_crypto : Crypto := {|
  HKDF km info n := toy (sum km + text_sum info) n;
  HMAC k m := toy (sum k + 3 * sum m) 32;
  scrypt a b := toy (sum a + 5 * sum b) 32;
  PBKDF2 pw salt := toy (text_sum pw + 11 * text_sum salt) 32 |}.

Lemma toy_length seed n : length (toy seed n) = n.
Proof. unfold toy. rewrite length_fmap, length_seqZ. lia. Qed.

Lemma toy_bytes seed n : bytes (toy seed n).
Proof. unfold toy. apply Forall_fmap, Forall_forall. intros i _. apply Z.mod_pos_bound. lia. Qed.

Lemma toy_laws : @CryptoLaws toy_crypto.
Proof. split; intros; apply toy_length || apply toy_bytes. Qed.

Definition key_of (b : Z) : string := to_hex (toy b 32).

Lemma key_of_hex b : hex_of 32 (key_of b).
Proof. exists (toy b 32). split; [apply toy_bytes|]. split; [apply toy_length|done]. Qed.

Lemma bundle_exact_witness :
  unbundle (H := toy_crypto) (key_of 1) "account/keys" (Hex (default "" (bundle (H := toy_crypto) (key_of 1)
    "account/keys" (Hex "c0ffee")))) = inl "c0ffee".
Proof.
  apply (@bundle_exact toy_crypto toy_laws (key_of 1) "account/keys"). split; [vm_compute; reflexivity|].
  eexists. split; vm_compute; reflexivity.
Defined.

Lemma key_fetch_roundtrip_witness :
  exists t, create_key_fetch_token (H := toy_crypto) (toy 9 32) "u" (key_of 1) (key_of 2) true None = Some t /\
    unbundleKeys (H := toy_crypto) t.(kf_keys) t.(kf_keyBundle) = inl (key_of 1, key_of 2).
Proof.
  destruct (@key_fetch_roundtrip toy_crypto toy_laws (toy 9 32) "u" (key_of 1) (key_of 2) true None (toy_bytes 9 32)
    ltac:(discriminate) (key_of_hex 1) (key_of_hex 2)) as (t & Ht & _ & _ & Hu).
  exists t. split; [exact Ht|exact Hu].
Defined.

Definition toy_password : Password := mkPassword (toy 1 32) (toy 2 32) 1 (toy 3 32).

Lemma password_wrap_exact_witness :
  is_Some (wrap (H := toy_crypto) toy_password (key_of 4) None) <-> length (from_hex (key_of 4)) = 32%nat.
Proof. exact (proj1 (@password_wrap_exact toy_crypto toy_laws toy_password (key_of 4) None)). Defined.
