(* ===== verification/AccountStore.v ===== *)
(** * The account database
      (packages/fxa-auth-server/lib/db/index.js, packages/fxa-shared/db/models/auth/*.ts and the stored procedures
       they call in packages/db-migrations/databases/fxa/patches)

    Accounts, sessions and the one-time tokens of the password flows, as
    tables.  Binary columns are lists of bytes; ids are the text of their
    columns.  The primary e-mail row is kept with its account; redis only
    caches when sessions were last seen and is left out. *)

From S2P Require Import Prelude Text Bytes KeyBundle.
From S2P Require Tokens.

#[local] Open Scope string_scope.
#[local] Open Scope Z_scope.

(** ** Tables *)

Record AccountRow := mkAccountRow {
  email : string;                 (* [accounts.email]: the address the account was created with *)
  emailVerified : bool;           (* [accounts.emailVerified] *)
  primaryVerified : bool;         (* [emails.isVerified] of the primary e-mail *)
  kA : list Z;
  wrapWrapKb : list Z;
  authSalt : list Z;
  a_verifyHash : list Z;
  verifierVersion : Z;
  verifierSetAt : Z;
  keysChangedAt : option Z;
  profileChangedAt : option Z;
  createdAt : Z;
  lockedAt : option Z;
  disabledAt : option Z;
  emailCode : string;             (* the secret of the primary e-mail's codes *)
  accountCode : string;           (* [accounts.emailCode] *)
  primaryEmail : string;          (* the primary e-mail row: address, *)
  primaryNormalized : string;     (* normalised address, *)
  primaryCreatedAt : Z }.         (* and when it was added *)

Record SessionRow := mkSessionRow {
  s_uid : string; s_createdAt : Z; s_authAt : option Z; s_mustVerify : bool; s_method : option Z }.

Record KeyFetchRow := mkKeyFetchRow { f_uid : string; f_keyBundle : list Z; f_createdAt : Z }.

(** Password change tokens and account reset tokens. *)
Record TokenRow := mkTokenRow { t_uid : string; t_createdAt : Z }.

Record ForgotRow := mkForgotRow { o_uid : string; o_passCode : list Z; o_createdAt : Z; o_tries : Z }.

(** A row of [emails] that is not primary. *)
Record EmailRow := mkEmailRow { e_uid : string; e_address : string; e_code : string; e_verified : bool; e_createdAt : Z }.

Record RecoveryRow := mkRecoveryRow { v_idHash : list Z; v_data : string; v_enabled : bool }.

Record TotpRow := mkTotpRow { tt_secret : string; tt_verified : bool; tt_enabled : bool }.

Record DB := mkDB {
  accounts : gmap string AccountRow;
  emails : gmap string string;                        (* normalised address, primary or not, to uid *)
  sessionTokens : gmap string SessionRow;
  keyFetchTokens : gmap string KeyFetchRow;
  unverifiedTokens : gmap string (string * string);   (* token id to verification id and uid *)
  passwordChangeTokens : gmap string TokenRow;
  passwordForgotTokens : gmap string ForgotRow;
  accountResetTokens : gmap string TokenRow;
  recoveryKeys : gmap string RecoveryRow;             (* by uid *)
  totp : gmap string TotpRow;                         (* by uid *)
  devices : gmap string (string * option string);     (* device id to uid and session token *)
  unblockCodes : gmap string (gmap string Z);         (* uid to hashed codes and their creation *)
  secondaryEmails : gmap string EmailRow;             (* by normalised address *)
  recoveryCodes : gmap string (list (list Z * list Z)) }.   (* uid to hashes and salts *)

Inductive DBErr :=
  | UnknownAccount | InvalidToken | RecoveryKeyNotFound | RecoveryKeyInvalid | NotFound
  | TotpTokenExists | TotpTokenNotFound | RecoveryKeyExists | RecoveryCodeNotFound | DuplicateCode
  | EmailExists | CannotDeletePrimaryEmail | UnknownSecondaryEmail | DuplicateRecord | AccountExists.

(** Mapping the result of a call that may fail. *)
Definition on_ok {A B E} (f : A -> B) (x : A + E) : B + E := match x with inl a => inl (f a) | inr e => inr e end.
Infix "<$$>" := on_ok (at level 61, left associativity).

(** ** Changing one table *)

Definition on_accounts f (d : DB) : DB :=
  mkDB (f d.(accounts)) d.(emails) d.(sessionTokens) d.(keyFetchTokens) d.(unverifiedTokens)
    d.(passwordChangeTokens) d.(passwordForgotTokens) d.(accountResetTokens) d.(recoveryKeys) d.(totp) d.(devices)
    d.(unblockCodes) d.(secondaryEmails) d.(recoveryCodes).
Definition on_emails f (d : DB) : DB :=
  mkDB d.(accounts) (f d.(emails)) d.(sessionTokens) d.(keyFetchTokens) d.(unverifiedTokens)
    d.(passwordChangeTokens) d.(passwordForgotTokens) d.(accountResetTokens) d.(recoveryKeys) d.(totp) d.(devices)
    d.(unblockCodes) d.(secondaryEmails) d.(recoveryCodes).
Definition on_sessions f (d : DB) : DB :=
  mkDB d.(accounts) d.(emails) (f d.(sessionTokens)) d.(keyFetchTokens) d.(unverifiedTokens)
    d.(passwordChangeTokens) d.(passwordForgotTokens) d.(accountResetTokens) d.(recoveryKeys) d.(totp) d.(devices)
    d.(unblockCodes) d.(secondaryEmails) d.(recoveryCodes).
Definition on_keyFetch f (d : DB) : DB :=
  mkDB d.(accounts) d.(emails) d.(sessionTokens) (f d.(keyFetchTokens)) d.(unverifiedTokens)
    d.(passwordChangeTokens) d.(passwordForgotTokens) d.(accountResetTokens) d.(recoveryKeys) d.(totp) d.(devices)
    d.(unblockCodes) d.(secondaryEmails) d.(recoveryCodes).
Definition on_unverified f (d : DB) : DB :=
  mkDB d.(accounts) d.(emails) d.(sessionTokens) d.(keyFetchTokens) (f d.(unverifiedTokens))
    d.(passwordChangeTokens) d.(passwordForgotTokens) d.(accountResetTokens) d.(recoveryKeys) d.(totp) d.(devices)
    d.(unblockCodes) d.(secondaryEmails) d.(recoveryCodes).
Definition on_change f (d : DB) : DB :=
  mkDB d.(accounts) d.(emails) d.(sessionTokens) d.(keyFetchTokens) d.(unverifiedTokens) (f
    d.(passwordChangeTokens)) d.(passwordForgotTokens) d.(accountResetTokens) d.(recoveryKeys) d.(totp) d.(devices)
    d.(unblockCodes) d.(secondaryEmails) d.(recoveryCodes).
Definition on_forgot f (d : DB) : DB :=
  mkDB d.(accounts) d.(emails) d.(sessionTokens) d.(keyFetchTokens) d.(unverifiedTokens) d.(passwordChangeTokens) (f
    d.(passwordForgotTokens)) d.(accountResetTokens) d.(recoveryKeys) d.(totp) d.(devices) d.(unblockCodes)
    d.(secondaryEmails) d.(recoveryCodes).
Definition on_reset f (d : DB) : DB :=
  mkDB d.(accounts) d.(emails) d.(sessionTokens) d.(keyFetchTokens) d.(unverifiedTokens) d.(passwordChangeTokens)
    d.(passwordForgotTokens) (f d.(accountResetTokens)) d.(recoveryKeys) d.(totp) d.(devices) d.(unblockCodes)
    d.(secondaryEmails) d.(recoveryCodes).
Definition on_recovery f (d : DB) : DB :=
  mkDB d.(accounts) d.(emails) d.(sessionTokens) d.(keyFetchTokens) d.(unverifiedTokens) d.(passwordChangeTokens)
    d.(passwordForgotTokens) d.(accountResetTokens) (f d.(recoveryKeys)) d.(totp) d.(devices) d.(unblockCodes)
    d.(secondaryEmails) d.(recoveryCodes).
Definition on_totp f (d : DB) : DB :=
  mkDB d.(accounts) d.(emails) d.(sessionTokens) d.(keyFetchTokens) d.(unverifiedTokens) d.(passwordChangeTokens)
    d.(passwordForgotTokens) d.(accountResetTokens) d.(recoveryKeys) (f d.(totp)) d.(devices) d.(unblockCodes)
    d.(secondaryEmails) d.(recoveryCodes).
Definition on_devices f (d : DB) : DB :=
  mkDB d.(accounts) d.(emails) d.(sessionTokens) d.(keyFetchTokens) d.(unverifiedTokens) d.(passwordChangeTokens)
    d.(passwordForgotTokens) d.(accountResetTokens) d.(recoveryKeys) d.(totp) (f d.(devices)) d.(unblockCodes)
    d.(secondaryEmails) d.(recoveryCodes).
Definition on_unblock f (d : DB) : DB :=
  mkDB d.(accounts) d.(emails) d.(sessionTokens) d.(keyFetchTokens) d.(unverifiedTokens) d.(passwordChangeTokens)
    d.(passwordForgotTokens) d.(accountResetTokens) d.(recoveryKeys) d.(totp) d.(devices) (f d.(unblockCodes))
    d.(secondaryEmails) d.(recoveryCodes).
Definition on_secondary f (d : DB) : DB :=
  mkDB d.(accounts) d.(emails) d.(sessionTokens) d.(keyFetchTokens) d.(unverifiedTokens) d.(passwordChangeTokens)
    d.(passwordForgotTokens) d.(accountResetTokens) d.(recoveryKeys) d.(totp) d.(devices) d.(unblockCodes) (f
    d.(secondaryEmails)) d.(recoveryCodes).
Definition on_recoveryCodes f (d : DB) : DB :=
  mkDB d.(accounts) d.(emails) d.(sessionTokens) d.(keyFetchTokens) d.(unverifiedTokens) d.(passwordChangeTokens)
    d.(passwordForgotTokens) d.(accountResetTokens) d.(recoveryKeys) d.(totp) d.(devices) d.(unblockCodes)
    d.(secondaryEmails) (f d.(recoveryCodes)).

(** [DELETE ... WHERE uid = u] *)
Definition but_of {A} (owner : A -> string) (u : string) (m : gmap string A) : gmap string A :=
  filter (fun kv => owner kv.2 <> u) m.

(** [REPLACE INTO] a table whose [uid] is unique. *)
Definition replace {A} (owner : A -> string) (id : string) (row : A) (m : gmap string A) : gmap string A :=
  <[id := row]> (but_of owner (owner row) m).

(** ** Reading *)

(** accountRecord_9: by any address of the account. *)
Definition record_by_email (n : string) (d : DB) : option (string * AccountRow) :=
  uid ← d.(emails) !! n; a ← d.(accounts) !! uid; Some (uid, a).

(** By the address the account was created with, which it may no longer
    have. *)
Definition record_by_name (n : string) (d : DB) : option (string * AccountRow) :=
  head (filter (fun kv : string * AccountRow => toLowerCase kv.2.(email) = n) (map_to_list d.(accounts))).

(** [findByPrimaryEmail] *)
Definition accountRecord (addr : string) (d : DB) : option (string * AccountRow) :=
  let n := toLowerCase addr in
  match record_by_email n d with Some x => Some x | None => record_by_name n d end.

Definition account (uid : string) (d : DB) : AccountRow + DBErr :=
  match d.(accounts) !! uid with Some a => inl a | None => inr UnknownAccount end.

(** [COALESCE(a.keysChangedAt, a.verifierSetAt, a.createdAt)]; the second
    column is never null. *)
Definition keys_changed (a : AccountRow) : Z := default a.(verifierSetAt) a.(keysChangedAt).

Definition checkPassword (uid hash : string) (d : DB) : bool :=
  match d.(accounts) !! uid with Some a => bool_decide (a.(a_verifyHash) = from_hex hash) | None => false end.

(** The device of a session. *)
Definition device_of (uid id : string) (d : DB) : option string :=
  fst <$> head (filter (fun kv : string * (string * option string) => kv.2 = (uid, Some id)) (map_to_list d.(devices))).

(** sessionWithDevice, [notExpired] and [SessionToken.fromHex]. *)
Definition sessionToken (MAX_AGE : Z) (now : Z) (id : string) (d : DB) : Tokens.SessionToken + DBErr :=
  match d.(sessionTokens) !! id with
  | None => inr InvalidToken
  | Some r =>
      let device := device_of r.(s_uid) id d in
      if bool_decide (is_Some device) || (r.(s_createdAt) >? now - 2419200000) then
        inl (Tokens.new_SessionToken MAX_AGE (Tokens.mkDetails (Some r.(s_uid)) None (Some r.(s_createdAt)) device
          (match d.(accounts) !! r.(s_uid) with Some a => a.(primaryVerified) | None => false end)
          (Some (default r.(s_createdAt) r.(s_authAt))) r.(s_mustVerify) (fst <$> d.(unverifiedTokens) !! id) r.(s_method)))
      else inr InvalidToken
  end.

(** The key fetch token that a request presents, with its verification state. *)
Record KeyFetch := mkKeyFetch { kt_uid : string; kt_bundle : string; kt_emailVerified : bool; kt_tokenVerified : bool }.

Definition keyFetchTokenWithVerificationStatus (id : string) (d : DB) : KeyFetch + DBErr :=
  match d.(keyFetchTokens) !! id with
  | None => inr InvalidToken
  | Some r =>
      match d.(accounts) !! r.(f_uid) with
      | None => inr InvalidToken
      | Some a => inl (mkKeyFetch r.(f_uid) (to_hex r.(f_keyBundle)) a.(primaryVerified)
                         (match d.(unverifiedTokens) !! id with Some _ => false | None => true end))
      end
  end.

Definition hasTotpToken (uid : string) (d : DB) : bool :=
  match d.(totp) !! uid with Some t => t.(tt_verified) && t.(tt_enabled) | None => false end.

(** [sha256]: the digest. *)
Definition getRecoveryKey (sha256 : list Z -> list Z) (uid recoveryKeyId : string) (d : DB) : RecoveryRow + DBErr :=
  match d.(recoveryKeys) !! uid with
  | None => inr RecoveryKeyNotFound
  | Some k => if bool_decide (sha256 (from_hex recoveryKeyId) = k.(v_idHash)) then inl k else inr RecoveryKeyInvalid
  end.

(** ** Writing *)

Definition add_unverified (id uid : string) (vid : option string) (d : DB) : DB :=
  match vid with Some v => on_unverified <[id := (v, uid)]> d | None => d end.

Definition createSessionToken (id uid : string) (now : Z) (mustVerify : bool) (vid : option string) (d : DB) : DB :=
  add_unverified id uid vid (on_sessions <[id := mkSessionRow uid now None mustVerify None]> d).

Definition createKeyFetchToken (now : Z) (t : KeyFetchToken) (d : DB) : DB :=
  let id := t.(kf_keys).(k_id) in
  add_unverified id t.(kf_uid) t.(kf_tokenVerificationId)
    (on_keyFetch <[id := mkKeyFetchRow t.(kf_uid) (from_hex t.(kf_keyBundle)) now]> d).

Definition deleteKeyFetchToken (id : string) (d : DB) : DB := on_unverified (delete id) (on_keyFetch (delete id) d).

Definition createPasswordChangeToken (id uid : string) (now : Z) (d : DB) : DB :=
  on_change (replace t_uid id (mkTokenRow uid now)) d.

Definition deletePasswordChangeToken (id : string) (d : DB) : DB := on_change (delete id) d.

Definition createPasswordForgotToken (id uid passCode : string) (now : Z) (d : DB) : DB :=
  on_forgot (replace o_uid id (mkForgotRow uid (from_hex passCode) now Tokens.initial_tries)) d.

Definition deletePasswordForgotToken (id : string) (d : DB) : DB := on_forgot (delete id) d.

Definition updatePasswordForgotToken (id : string) (tries : Z) (d : DB) : DB :=
  on_forgot (alter (fun r => mkForgotRow r.(o_uid) r.(o_passCode) r.(o_createdAt) tries) id) d.

Definition verify_account (a : AccountRow) : AccountRow :=
  mkAccountRow a.(email) true true a.(kA) a.(wrapWrapKb) a.(authSalt) a.(a_verifyHash) a.(verifierVersion) a.(verifierSetAt)
    a.(keysChangedAt) a.(profileChangedAt) a.(createdAt) a.(lockedAt) a.(disabledAt) a.(emailCode) a.(accountCode)
    a.(primaryEmail) a.(primaryNormalized) a.(primaryCreatedAt).

(** forgotPasswordVerified: trade the code for an account reset token. *)
Definition forgotPasswordVerified (forgotId resetId uid : string) (now : Z) (d : DB) : DB :=
  on_accounts (alter verify_account uid) (on_forgot (delete forgotId) (on_reset (replace t_uid resetId (mkTokenRow uid now)) d)).

(** The account's part of resetAccount. *)
Definition reset_row (hash salt wrapped : list Z) (version now : Z) (keysHaveChanged : bool) (a : AccountRow) : AccountRow :=
  mkAccountRow a.(email) a.(emailVerified) a.(primaryVerified) a.(kA) wrapped salt hash version now
    (Some (if keysHaveChanged then now else keys_changed a)) (Some now) a.(createdAt) None a.(disabledAt) a.(emailCode) a.(accountCode)
    a.(primaryEmail) a.(primaryNormalized) a.(primaryCreatedAt).

Definition resetAccount (uid hash salt wrapped : string) (version now : Z) (keysHaveChanged : bool) (d : DB) : DB :=
  mkDB (alter (reset_row (from_hex hash) (from_hex salt) (from_hex wrapped) version now keysHaveChanged) uid d.(accounts))
    d.(emails) (but_of s_uid uid d.(sessionTokens)) (but_of f_uid uid d.(keyFetchTokens))
    (but_of snd uid d.(unverifiedTokens)) (but_of t_uid uid d.(passwordChangeTokens))
    (but_of o_uid uid d.(passwordForgotTokens)) (but_of t_uid uid d.(accountResetTokens))
    (delete uid d.(recoveryKeys)) d.(totp) (but_of fst uid d.(devices)) d.(unblockCodes) d.(secondaryEmails)
    d.(recoveryCodes).

Definition resetAccountTokens (uid : string) (d : DB) : DB :=
  on_reset (but_of t_uid uid) (on_change (but_of t_uid uid) (on_forgot (but_of o_uid uid) d)).

Definition deleteRecoveryKey (uid : string) (d : DB) : DB := on_recovery (delete uid) d.

(** verifyToken: every token with this verification id. *)
Definition verifyTokens (vid uid : string) (d : DB) : DB + DBErr :=
  if bool_decide (map_Exists (fun _ v => v = (vid, uid)) d.(unverifiedTokens))
  then inl (on_unverified (filter (fun kv => kv.2 <> (vid, uid))) d) else inr NotFound.

Definition verifyTokensWithMethod (id : string) (method : Z) (d : DB) : DB + DBErr :=
  match d.(sessionTokens) !! id with
  | None => inr NotFound
  | Some r =>
      let d := on_sessions <[id := mkSessionRow r.(s_uid) r.(s_createdAt) r.(s_authAt) r.(s_mustVerify) (Some method)]> d in
      inl (match d.(unverifiedTokens) !! id with
           | Some (vid, _) => on_unverified (filter (fun kv => kv.2 <> (vid, r.(s_uid)))) d
           | None => d
           end)
  end.

Definition createPassword (uid salt hash wrapped : string) (version now : Z) (d : DB) : DB :=
  on_accounts (alter (fun a => mkAccountRow a.(email) a.(emailVerified) a.(primaryVerified) a.(kA) (from_hex wrapped)
    (from_hex salt) (from_hex hash) version now (Some now) (Some now) a.(createdAt) a.(lockedAt) a.(disabledAt) a.(emailCode) a.(accountCode)
    a.(primaryEmail) a.(primaryNormalized) a.(primaryCreatedAt)) uid) d.

(** [hash]: of a code salted with the uid. *)
Definition createUnblockCode (hash : string -> string -> string) (uid code : string) (now : Z) (d : DB) : DB :=
  on_unblock (fun m => <[uid := <[hash uid code := now]> (default ∅ (m !! uid))]> m) d.

(** consumeUnblockCode: a code that is found uses up all codes of the account. *)
Definition consumeUnblockCode (hash : string -> string -> string) (uid code : string) (d : DB) : DB * (Z + DBErr) :=
  match d.(unblockCodes) !! uid ≫= fun m => m !! hash uid code with
  | Some created => if created >? 0 then (on_unblock (delete uid) d, inl created) else (d, inr NotFound)
  | None => (d, inr NotFound)
  end.

(** [UPDATE accounts SET profileChangedAt = now WHERE uid = uid] *)
Definition touch_profile (uid : string) (now : Z) (d : DB) : DB :=
  on_accounts (alter (fun a => mkAccountRow a.(email) a.(emailVerified) a.(primaryVerified) a.(kA) a.(wrapWrapKb) a.(authSalt)
    a.(a_verifyHash) a.(verifierVersion) a.(verifierSetAt) a.(keysChangedAt) (Some now) a.(createdAt) a.(lockedAt)
    a.(disabledAt) a.(emailCode) a.(accountCode)
    a.(primaryEmail) a.(primaryNormalized) a.(primaryCreatedAt)) uid) d.

(** ** Second factors *)

Definition totpToken (uid : string) (d : DB) : TotpRow + DBErr :=
  match d.(totp) !! uid with Some t => inl t | None => inr TotpTokenNotFound end.

(** The columns [verified] and [enabled] have the defaults false and true. *)
Definition createTotpToken (uid secret : string) (d : DB) : DB + DBErr :=
  match d.(totp) !! uid with
  | Some _ => inr TotpTokenExists
  | None => inl (on_totp <[uid := mkTotpRow secret false true]> d)
  end.

Definition deleteTotpToken (uid : string) (now : Z) (d : DB) : DB := touch_profile uid now (on_totp (delete uid) d).

(** The number of rows that the call reports is that of its last statement,
    the update of the account. *)
Definition updateTotpToken (uid : string) (verified enabled : bool) (now : Z) (d : DB) : DB + DBErr :=
  match d.(accounts) !! uid with
  | Some _ => inl (touch_profile uid now (on_totp (alter (fun t => mkTotpRow t.(tt_secret) verified enabled) uid) d))
  | None => inr TotpTokenNotFound
  end.

Section RecoveryCodes.
(** [scrypt code salt]; the cost parameters are fixed. *)
Context (scrypt : string -> list Z -> list Z).

(** createRecoveryCode_3 for each row; (uid, hash) is a unique key.  The
    procedure that deletes the old codes commits by itself, so that rows
    inserted before a duplicate stay. *)
Fixpoint insert_codes (rows present : list (list Z * list Z)) : list (list Z * list Z) * bool :=
  match rows with
  | [] => (present, true)
  | row :: rows => if bool_decide (row.1 ∈ present.*1) then (present, false) else insert_codes rows (present ++ [row])%list
  end.

(** [updateRecoveryCodes]: [salts] are the random salts drawn for the codes. *)
Definition updateRecoveryCodes (uid : string) (codes : list string) (salts : list (list Z)) (d : DB) : DB * (unit + DBErr) :=
  let rows := zip_with (fun code salt => (scrypt code salt, salt)) codes salts in
  match d.(accounts) !! uid with
  | None => (d, inr NotFound)
  | Some _ => let '(present, ok) := insert_codes rows [] in
              (on_recoveryCodes <[uid := present]> d, if ok then inl tt else inr DuplicateCode)
  end.

(** [createRecoveryCodes] and [replaceRecoveryCodes]: [codes] are the codes
    drawn. *)
Definition replaceRecoveryCodes (uid : string) (codes : list string) (salts : list (list Z)) (d : DB)
    : DB * (list string + DBErr) :=
  let codes := toLowerCase <$> codes in
  let '(d, r) := updateRecoveryCodes uid codes salts d in (d, (fun _ => codes) <$$> r).

(** [codeChecker] of [consumeRecoveryCode]. *)
Definition code_matches (code : string) (row : list Z * list Z) : bool :=
  bool_decide (row.1 = scrypt (toLowerCase code) row.2).

(** The loop over the rows: the hash of the first one that matches. *)
Fixpoint find_code (code : string) (rows : list (list Z * list Z)) : option (list Z) :=
  match rows with
  | [] => None
  | row :: rows => if code_matches code row then Some row.1 else find_code code rows
  end.

(** consumeRecoveryCode_3: delete the code, count the others. *)
Definition delete_code (uid : string) (hash : list Z) (d : DB) : DB * Z :=
  let rows := filter (fun row => row.1 <> hash) (default [] (d.(recoveryCodes) !! uid)) in
  (on_recoveryCodes <[uid := rows]> d, Z.of_nat (length rows)).

Definition consumeRecoveryCode (uid code : string) (d : DB) : (DB * Z) + DBErr :=
  match find_code code (default [] (d.(recoveryCodes) !! uid)) with
  | Some hash => inl (delete_code uid hash d)
  | None => inr RecoveryCodeNotFound
  end.
End RecoveryCodes.

(** ** Recovery keys *)

Definition createRecoveryKey (sha256 : list Z -> list Z) (uid recoveryKeyId data : string) (enabled : bool) (now : Z) (d : DB)
    : DB + DBErr :=
  match d.(accounts) !! uid, d.(recoveryKeys) !! uid with
  | None, _ => inr NotFound
  | Some _, Some _ => inr RecoveryKeyExists
  | Some _, None => inl (touch_profile uid now
      (on_recovery <[uid := mkRecoveryRow (sha256 (from_hex recoveryKeyId)) data enabled]> d))
  end.

(** True for a key that is enabled. *)
Definition recoveryKeyExists (uid : string) (d : DB) : bool :=
  match d.(recoveryKeys) !! uid with Some k => k.(v_enabled) | None => false end.

Definition updateRecoveryKey (sha256 : list Z -> list Z) (uid recoveryKeyId : string) (enabled : bool) (now : Z) (d : DB)
    : DB + DBErr :=
  match d.(recoveryKeys) !! uid with
  | Some k => if bool_decide (k.(v_idHash) = sha256 (from_hex recoveryKeyId))
              then inl (touch_profile uid now (on_recovery <[uid := mkRecoveryRow k.(v_idHash) k.(v_data) enabled]> d))
              else inr NotFound
  | None => inr NotFound
  end.

(** ** Sessions *)

(** deleteSessionToken_4, with the device of the session. *)
Definition deleteSessionToken (id : string) (d : DB) : DB :=
  match d.(sessionTokens) !! id with
  | None => d
  | Some r => on_devices (filter (fun kv => kv.2 <> (r.(s_uid), Some id))) (on_unverified (delete id) (on_sessions (delete id) d))
  end.

(** updateSessionToken_3 *)
Definition updateSessionToken (id : string) (authAt : option Z) (mustVerify : bool) (d : DB) : DB :=
  on_sessions (alter (fun r => mkSessionRow r.(s_uid) r.(s_createdAt)
    (Some (default (default r.(s_createdAt) r.(s_authAt)) authAt)) (mustVerify || r.(s_mustVerify)) r.(s_method)) id) d.

(** ** E-mail addresses *)

(** A row of [emails], primary or not. *)
Record FoundEmail := mkFound {
  fe_normalized : string; fe_uid : string; fe_address : string; fe_code : string; fe_verified : bool; fe_primary : bool;
  fe_createdAt : Z }.

Definition primary_email (uid : string) (a : AccountRow) : FoundEmail :=
  mkFound a.(primaryNormalized) uid a.(primaryEmail) a.(emailCode) a.(primaryVerified) true a.(primaryCreatedAt).

Definition secondary_email (n : string) (r : EmailRow) : FoundEmail :=
  mkFound n r.(e_uid) r.(e_address) r.(e_code) r.(e_verified) false r.(e_createdAt).

(** [accountEmails], the primary address first. *)
Definition accountEmails (uid : string) (d : DB) : list FoundEmail :=
  (match d.(accounts) !! uid with Some a => [primary_email uid a] | None => [] end ++
   ((fun kv => secondary_email kv.1 kv.2) <$>
     filter (fun kv : string * EmailRow => kv.2.(e_uid) = uid) (map_to_list d.(secondaryEmails))))%list.

Definition getSecondaryEmail (addr : string) (d : DB) : FoundEmail + DBErr :=
  let n := toLowerCase addr in
  match d.(secondaryEmails) !! n with
  | Some r => inl (secondary_email n r)
  | None =>
      match d.(emails) !! n ≫= fun uid => pair uid <$> d.(accounts) !! uid with
      | Some (uid, a) => inl (primary_email uid a)
      | None => inr UnknownSecondaryEmail
      end
  end.

Definition createEmail (uid normalized addr code : string) (verified : bool) (now : Z) (d : DB) : DB + DBErr :=
  let n := toLowerCase normalized in
  match d.(emails) !! n with
  | Some _ => inr EmailExists
  | None => inl (on_secondary <[n := mkEmailRow uid addr code verified now]> (on_emails <[n := uid]> d))
  end.

Definition deleteEmail (uid normalized : string) (now : Z) (d : DB) : DB + DBErr :=
  if match d.(accounts) !! uid with Some a => bool_decide (a.(primaryNormalized) = normalized) | None => false end
  then inr CannotDeletePrimaryEmail
  else inl (touch_profile uid now
    (match d.(secondaryEmails) !! normalized with
     | Some r => if bool_decide (r.(e_uid) = uid) then on_secondary (delete normalized) (on_emails (delete normalized) d) else d
     | None => d
     end)).

(** The account's part of verifyEmail_9. *)
Definition verify_code (code : string) (a : AccountRow) : AccountRow :=
  mkAccountRow a.(email) (bool_decide (a.(accountCode) = code) || a.(emailVerified))
    (bool_decide (a.(emailCode) = code) || a.(primaryVerified)) a.(kA) a.(wrapWrapKb) a.(authSalt) a.(a_verifyHash)
    a.(verifierVersion) a.(verifierSetAt) a.(keysChangedAt) a.(profileChangedAt) a.(createdAt) a.(lockedAt) a.(disabledAt)
    a.(emailCode) a.(accountCode) a.(primaryEmail) a.(primaryNormalized) a.(primaryCreatedAt).

(** verifyEmail_9: every address of the account with this code. *)
Definition verifyEmail (uid code : string) (now : Z) (d : DB) : DB :=
  touch_profile uid now
    (on_secondary (fmap (fun r => if bool_decide (r.(e_uid) = uid /\ r.(e_code) = code)
                                  then mkEmailRow r.(e_uid) r.(e_address) r.(e_code) true r.(e_createdAt) else r))
       (on_accounts (alter (verify_code code) uid) d)).

(** The row of an account whose primary address is replaced. *)
Definition with_primary (n : string) (r : EmailRow) (a : AccountRow) : AccountRow :=
  mkAccountRow a.(email) a.(emailVerified) r.(e_verified) a.(kA) a.(wrapWrapKb) a.(authSalt) a.(a_verifyHash)
    a.(verifierVersion) a.(verifierSetAt) a.(keysChangedAt) a.(profileChangedAt) a.(createdAt) a.(lockedAt) a.(disabledAt)
    r.(e_code) a.(accountCode) r.(e_address) n r.(e_createdAt).

(** setPrimaryEmail_6: the old primary row becomes a secondary one.  The
    address must be a verified one of the account ([@foundEmail]; that session
    variable is taken to be null at the call). *)
Definition setPrimaryEmail (uid normalized : string) (now : Z) (d : DB) : DB + DBErr :=
  match d.(accounts) !! uid with
  | None => inr DuplicateRecord
  | Some a =>
      if bool_decide (a.(primaryNormalized) = normalized) && a.(primaryVerified) then inl (touch_profile uid now d)
      else
        match d.(secondaryEmails) !! normalized with
        | Some r =>
            if bool_decide (r.(e_uid) = uid) && r.(e_verified) then
              inl (touch_profile uid now
                (on_secondary (fun m => <[a.(primaryNormalized) :=
                                 mkEmailRow uid a.(primaryEmail) a.(emailCode) a.(primaryVerified) a.(primaryCreatedAt)]>
                                 (delete normalized m))
                   (on_accounts <[uid := with_primary normalized r a]> d)))
            else inr DuplicateRecord
        | None => inr DuplicateRecord
        end
  end.

(** createAccount_9; [accounts.normalizedEmail] is a unique key as well. *)
Definition createAccount (uid addr code : string) (verified : bool) (ka wrapped salt hash : string) (version setAt now : Z) (d : DB)
    : DB + DBErr :=
  let n := toLowerCase addr in
  if bool_decide (is_Some (d.(emails) !! n)) || bool_decide (is_Some (record_by_name n d)) || bool_decide (is_Some (d.(accounts) !! uid))
  then inr AccountExists
  else inl (on_emails <[n := uid]>
         (on_accounts <[uid := mkAccountRow addr verified verified (from_hex ka) (from_hex wrapped) (from_hex salt) (from_hex hash)
            version setAt None None now None None code code addr n now]> d)).

(** deleteAccount_20 *)
Definition deleteAccount (uid : string) (d : DB) : DB :=
  mkDB (delete uid d.(accounts)) (filter (fun kv => kv.2 <> uid) d.(emails)) (but_of s_uid uid d.(sessionTokens))
    (but_of f_uid uid d.(keyFetchTokens)) (but_of snd uid d.(unverifiedTokens)) (but_of t_uid uid d.(passwordChangeTokens))
    (but_of o_uid uid d.(passwordForgotTokens)) (but_of t_uid uid d.(accountResetTokens)) (delete uid d.(recoveryKeys))
    (delete uid d.(totp)) (but_of fst uid d.(devices)) (delete uid d.(unblockCodes)) (but_of e_uid uid d.(secondaryEmails))
    (delete uid d.(recoveryCodes)).
