(* ===== verification/PasswordFlows.v ===== *)
(** * Changing and resetting passwords
      (packages/fxa-auth-server/lib/routes/password.js; keys and reset of routes/account.ts;
       packages/fxa-auth-client/lib/client.ts; makeCredentialFn of lib/server.js)

    The routes over the account database, the OAuth store and the customs
    server, and the client that drives them.  What random values are drawn is
    an argument; mails, push notifications and metrics are left out. *)

From S2P Require Import Prelude Store Limits Text Records Server CustomsClient SignIn.
From S2P Require Import Bytes KeyBundle AccountStore.
From S2P Require Tokens OAuthStore.

#[local] Open Scope string_scope.
#[local] Open Scope Z_scope.

(** ** Data *)

Inductive PwErr :=
  | PDB (e : DBErr)
  | PCustoms (e : Err)
  | PIncorrectPassword
  | PIncorrectEmailCase (registered : string)
  | PUnverifiedSession
  | PUnverifiedAccount
  | PInvalidCode (tries ttl : Z)
  | PCannotCreatePassword
  | PSecondaryEmail
  | PMissingParameter
  | PThrown.                          (* an exception that is not an error of the service *)

(** The databases that the routes write. *)
Record World := mkWorld { db : DB; oauth : OAuthStore.DB }.

Definition on_db (f : DB -> DB) (w : World) : World := mkWorld (f w.(db)) w.(oauth).

(** The random values of one request. *)
Record Fresh := mkFresh {
  salt : string; seed_key : list Z; seed_token : list Z; seed_session : list Z; verification : string; new_key : string }.

Record StartReply := mkStart { st_keyFetchToken : string; st_passwordChangeToken : string; st_verified : bool }.

Record FinishPayload := mkFinish { p_authPW : string; p_wrapKb : string; p_sessionToken : option string }.

Record SessionReply := mkReply {
  rp_uid : string; rp_sessionToken : string; rp_verified : bool; rp_authAt : Z; rp_keyFetchToken : option string }.

(** [error.incorrectPassword] *)
Definition incorrectPassword (dbEmail requestEmail : string) : PwErr :=
  if String.eqb dbEmail requestEmail then PIncorrectPassword else PIncorrectEmailCase dbEmail.

(** ** server.js: authenticating with a token *)

(** [expired] for a token with a lifetime. *)
Definition token_expired (lifetime created now : Z) : bool :=
  Tokens.expired (Tokens.new_Token None (Some lifetime) (Some created)) None now.

Section Tokens.
Context (MAX_AGE changeLife forgotLife resetLife now : Z).

Definition auth_change (id : string) (d : DB) : TokenRow + PwErr :=
  match d.(passwordChangeTokens) !! id with
  | Some t => if bool_decide (is_Some (d.(accounts) !! t.(t_uid))) && negb (token_expired changeLife t.(t_createdAt) now)
              then inl t else inr (PDB InvalidToken)
  | None => inr (PDB InvalidToken)
  end.

Definition auth_reset (id : string) (d : DB) : TokenRow + PwErr :=
  match d.(accountResetTokens) !! id with
  | Some t => if bool_decide (is_Some (d.(accounts) !! t.(t_uid))) && negb (token_expired resetLife t.(t_createdAt) now)
              then inl t else inr (PDB InvalidToken)
  | None => inr (PDB InvalidToken)
  end.

Definition auth_forgot (id : string) (d : DB) : (ForgotRow * AccountRow) + PwErr :=
  match d.(passwordForgotTokens) !! id with
  | Some t =>
      match d.(accounts) !! t.(o_uid) with
      | Some a => if negb (token_expired forgotLife t.(o_createdAt) now) then inl (t, a) else inr (PDB InvalidToken)
      | None => inr (PDB InvalidToken)
      end
  | None => inr (PDB InvalidToken)
  end.

(** [ttl()] of a password forgot token. *)
Definition forgot_ttl (t : ForgotRow) : Z :=
  default 0 (Tokens.ttl (Tokens.new_Token None (Some forgotLife) (Some t.(o_createdAt))) None now).
End Tokens.

Section Flows.
Context {M : Type} `{Memcached M StoredObject} `{Crypto}.
Context (env : Env) (sha256 : list Z -> list Z) (hash_code : string -> string -> string).
Context (MAX_AGE changeLife forgotLife resetLife : Z) (version : option Z).

Abbreviation now := (env.(Server.now)).
Abbreviation state := (State (M := M)).

(** ** The account database as signing in sees it *)

Definition signin_account (uid : string) (a : AccountRow) : Account :=
  mkAccount uid a.(AccountStore.email) a.(primaryNormalized) a.(primaryVerified) a.(AccountStore.emailCode) (to_hex a.(AccountStore.authSalt)).

#[local] Instance account_db : AccountDB DB := {|
  SignIn.accountRecord d e :=
    match accountRecord e d with Some (uid, a) => inl (signin_account uid a) | None => inr ACCOUNT_UNKNOWN end;
  SignIn.consumeUnblockCode d uid code :=
    match consumeUnblockCode hash_code uid code d with
    | (d, inl t) => (d, inl t) | (d, inr _) => (d, inr INVALID_UNBLOCK_CODE) end;
  db_checkPassword d uid hash := inl (checkPassword uid hash d) |}.

(** [butil.ONES] *)
Definition ONES : string := "ffffffffffffffffffffffffffffffffffffffffffffffffffffffffffffffff".

(** [createKeyFetchToken] of the database: the token and its seed. *)
Definition give_keys (seed : list Z) (uid : string) (a : AccountRow) (wrapKb : string) (verified : bool) (vid : option string)
    (d : DB) : option (DB * string) :=
  t ← create_key_fetch_token seed uid (to_hex a.(kA)) wrapKb verified vid;
  Some (createKeyFetchToken now t d, t.(kf_keys).(k_data)).

Definition token_id (type : string) (seed : list Z) : string := (deriveTokenKeys type seed).(k_id).

(** ** POST /password/change/start *)

Definition change_tokens (fr : Fresh) (uid : string) (a : AccountRow) (p : Password) (d : DB) : DB * (StartReply + PwErr) :=
  match unwrap p (to_hex a.(wrapWrapKb)) None with
  | None => (d, inr PThrown)
  | Some wrapKb =>
      match give_keys fr.(seed_key) uid a wrapKb a.(AccountStore.emailVerified) None d with
      | None => (d, inr PThrown)
      | Some (d, key) =>
          (createPasswordChangeToken (token_id "passwordChangeToken" fr.(seed_token)) uid now d,
           inl (mkStart key (to_hex fr.(seed_token)) a.(AccountStore.emailVerified)))
      end
  end.

Definition changeStart (addr oldAuthPW : string) (fr : Fresh) (req : Request) (s : state) (d : DB)
    : state * DB * (StartReply + PwErr) :=
  let '(s, (req, v)) := client_check env addr "passwordChange" req s in
  match v with
  | Pass =>
      match accountRecord addr d with
      | None =>
          let '(s, _) := client_flag env req.(clientAddress) addr (Some ACCOUNT_UNKNOWN) s in
          (s, d, inr (PDB UnknownAccount))
      | Some (uid, a) =>
          match new_Password oldAuthPW (to_hex a.(AccountStore.authSalt)) (Some a.(verifierVersion)) with
          | None => (s, d, inr PThrown)
          | Some p =>
              match SignIn.checkPassword env ONES (signin_account uid a) (verifyHash p) req.(clientAddress) s d with
              | (s, inr e) => (s, d, inr (PCustoms e))
              | (s, inl false) => (s, d, inr (incorrectPassword a.(AccountStore.email) addr))
              | (s, inl true) => let '(d, r) := change_tokens fr uid a p d in (s, d, r)
              end
          end
      end
  | v => (s, d, inr (PCustoms (ECustoms v)))
  end.

(** ** GET /account/keys *)

Definition keys (id : string) (d : DB) : DB * (string + PwErr) :=
  match keyFetchTokenWithVerificationStatus id d with
  | inr e => (d, inr (PDB e))
  | inl t => if t.(kt_tokenVerified) && t.(kt_emailVerified) then (deleteKeyFetchToken id d, inl t.(kt_bundle))
             else (d, inr PUnverifiedAccount)
  end.

(** ** POST /password/change/finish *)

(** [VERIFICATION_METHOD] of session-token.ts *)
Definition VERIFICATION_METHOD (m : string) : option Z :=
  if String.eqb m "email" then Some 0 else if String.eqb m "email-2fa" then Some 1
  else if String.eqb m "totp-2fa" then Some 2 else if String.eqb m "recovery-code" then Some 3 else None.

(** The session that the request names: its verification status and, when it
    was verified with one, its method. *)
Definition previous_session (uid : string) (sid : option string) (d : DB) : (bool * option string) + PwErr :=
  let hasTotp := hasTotpToken uid d in
  match sid with
  | None => if hasTotp then inr PUnverifiedSession else inl (false, None)
  | Some id =>
      match sessionToken MAX_AGE now id d with
      | inr e => inr (PDB e)
      | inl t =>
          let aal := default 0 (Tokens.authenticatorAssuranceLevel t) in
          if hasTotp && (aal <=? 1) then inr PUnverifiedSession
          else inl (t.(Tokens.tokenVerified), t.(Tokens.verificationMethodValue))
      end
  end.

(** [changePassword]: the token is used up before the key is wrapped. *)
Definition changePassword (fr : Fresh) (pcId uid : string) (y : FinishPayload) (d : DB) : DB * bool :=
  match new_Password y.(p_authPW) fr.(salt) version with
  | None => (d, false)
  | Some p =>
      let d := deletePasswordChangeToken pcId d in
      match wrap p y.(p_wrapKb) None with
      | None => (d, false)
      | Some wrapped => (resetAccount uid (verifyHash p) fr.(salt) wrapped p.(KeyBundle.version) now false d, true)
      end
  end.

(** [createSessionToken] and [verifySessionToken] *)
Definition change_session (fr : Fresh) (uid : string) (verified : bool) (method : option string) (wantsKeys : bool) (d : DB)
    : DB + PwErr :=
  let sid := token_id "sessionToken" fr.(seed_session) in
  let d := createSessionToken sid uid now wantsKeys (if verified then None else Some fr.(verification)) d in
  match method ≫= VERIFICATION_METHOD with
  | Some m => match verifyTokensWithMethod sid m d with inl d => inl d | inr e => inr (PDB e) end
  | None => inl d
  end.

Definition changeFinish (fr : Fresh) (pcId : string) (y : FinishPayload) (wantsKeys : bool) (w : World)
    : World * (option SessionReply + PwErr) :=
  match auth_change changeLife now pcId w.(db) with
  | inr e => (w, inr e)
  | inl t =>
      let uid := t.(t_uid) in
      match previous_session uid y.(p_sessionToken) w.(db) with
      | inr e => (w, inr e)
      | inl (verified, method) =>
          match changePassword fr pcId uid y w.(db) with
          | (d, false) => (mkWorld d w.(oauth), inr PThrown)
          | (d, true) =>
              match account uid d with
              | inr e => (mkWorld d w.(oauth), inr (PDB e))
              | inl a =>
                  let o := OAuthStore.removePublicAndCanGrantTokens now uid w.(oauth) in
                  match change_session fr uid verified method wantsKeys d with
                  | inr e => (mkWorld d o, inr e)
                  | inl d =>
                      let reply key :=
                        match y.(p_sessionToken) with
                        | None => None
                        | Some _ => Some (mkReply uid (to_hex fr.(seed_session))
                            (a.(AccountStore.emailVerified) && verified) (now / 1000) key)
                        end in
                      if wantsKeys then
                        match give_keys fr.(seed_key) uid a y.(p_wrapKb) a.(AccountStore.emailVerified) None d with
                        | None => (mkWorld d o, inr PThrown)
                        | Some (d, key) => (mkWorld d o, inl (reply (Some key)))
                        end
                      else (mkWorld d o, inl (reply None))
                  end
              end
          end
      end
  end.

(** ** The forgotten password *)

(** POST /password/forgot/send_code; the code and the token go out by mail. *)
Definition forgotSendCode (addr : string) (fr : Fresh) (code : string) (req : Request) (s : state) (d : DB)
    : state * DB * (string + PwErr) :=
  let '(s, (_, v)) := client_check env addr "passwordForgotSendCode" req s in
  match v with
  | Pass =>
      match accountRecord addr d with
      | None => (s, d, inr (PDB UnknownAccount))
      | Some (uid, a) =>
          if emailsMatch a.(primaryNormalized) addr then
            (s, createPasswordForgotToken (token_id "passwordForgotToken" fr.(seed_token)) uid code now d,
             inl (to_hex fr.(seed_token)))
          else (s, d, inr PSecondaryEmail)
      end
  | v => (s, d, inr (PCustoms (ECustoms v)))
  end.

(** [failVerifyAttempt] *)
Definition failVerifyAttempt (id : string) (t : ForgotRow) (d : DB) : DB * Z :=
  let '(tries, used_up) := Tokens.failAttempt t.(o_tries) in
  (if used_up then deletePasswordForgotToken id d else updatePasswordForgotToken id tries d, tries).

(** POST /password/forgot/verify_code *)
Definition forgotVerifyCode (id code : string) (fr : Fresh) (req : Request) (s : state) (d : DB)
    : state * DB * (string + PwErr) :=
  match auth_forgot forgotLife now id d with
  | inr e => (s, d, inr e)
  | inl (t, a) =>
      let '(s, (_, v)) := client_check env a.(primaryEmail) "passwordForgotVerifyCode" req s in
      match v with
      | Pass =>
          if buffersAreEqual (Buf t.(o_passCode)) (Hex code) && (forgot_ttl forgotLife now t >? 0) then
            (s, forgotPasswordVerified id (token_id "accountResetToken" fr.(seed_token)) t.(o_uid) now d,
             inl (to_hex fr.(seed_token)))
          else
            let '(d, tries) := failVerifyAttempt id t d in
            (s, d, inr (PInvalidCode tries (forgot_ttl forgotLife now t)))
      | v => (s, d, inr (PCustoms (ECustoms v)))
      end
  end.

(** ** POST /password/create, for a session *)

Definition passwordCreate (authPW : string) (t : Tokens.SessionToken) (fr : Fresh) (d : DB) : DB * (Z + PwErr) :=
  let uid := default "" t.(Tokens.token).(Tokens.uid) in
  match account uid d with
  | inr e => (d, inr (PDB e))
  | inl a =>
      if a.(verifierSetAt) >? 0 then (d, inr PCannotCreatePassword)
      else if hasTotpToken uid d && (ostr_truthy t.(Tokens.tokenVerificationId) ||
                (default 0 (Tokens.authenticatorAssuranceLevel t) <=? 1)) then (d, inr PUnverifiedSession)
      else
        match new_Password authPW fr.(salt) version with
        | None => (d, inr PThrown)
        | Some p => (createPassword uid fr.(salt) (verifyHash p) fr.(new_key) p.(KeyBundle.version) now d, inl now)
        end
  end.

(** ** POST /account/reset *)

Record ResetPayload := mkReset {
  q_authPW : string; q_wrapKb : string; q_recoveryKeyId : option string; q_sessionToken : bool }.

(** [resetAccountData]: the new state and the key to hand out. *)
Definition resetAccountData (fr : Fresh) (uid : string) (y : ResetPayload) (d : DB) : option (DB * string) :=
  p ← new_Password y.(q_authPW) fr.(salt) version;
  let put wrapped changed :=
    resetAccountTokens uid (resetAccount uid (verifyHash p) fr.(salt) wrapped p.(KeyBundle.version) now changed d) in
  if ostr_truthy y.(q_recoveryKeyId) then wrapped ← wrap p y.(q_wrapKb) None; Some (put wrapped false, y.(q_wrapKb))
  else wrapKb ← unwrap p fr.(new_key) None; Some (put fr.(new_key) true, wrapKb).

Definition reset_session (fr : Fresh) (uid : string) (hasTotp : bool) (d : DB) : DB * option string :=
  let vid := if hasTotp then Some fr.(verification) else None in
  (createSessionToken (token_id "sessionToken" fr.(seed_session)) uid now hasTotp vid d, vid).

Definition reset (fr : Fresh) (id : string) (y : ResetPayload) (wantsKeys : bool) (s : state) (w : World)
    : state * World * (option SessionReply + PwErr) :=
  match auth_reset resetLife now id w.(db) with
  | inr e => (s, w, inr e)
  | inl t =>
      let uid := t.(t_uid) in
      let recovery := if ostr_truthy y.(q_recoveryKeyId)
                      then (fun _ => tt) <$$> getRecoveryKey sha256 uid (default "" y.(q_recoveryKeyId)) w.(db) else inl tt in
      match recovery with
      | inr e => (s, w, inr (PDB e))
      | inl _ =>
          let hasTotp := hasTotpToken uid w.(db) in
          match resetAccountData fr uid y w.(db) with
          | None => (s, w, inr PThrown)
          | Some (d, wrapKb) =>
              match account uid d with
              | inr e => (s, mkWorld d w.(oauth), inr (PDB e))
              | inl a =>
                  let o := OAuthStore.removePublicAndCanGrantTokens now uid w.(oauth) in
                  let '(s, told) := client_reset env a.(AccountStore.email) s in
                  if negb told then (s, mkWorld d o, inr (PCustoms (ECustoms ServiceError)))
                  else
                    let d := if ostr_truthy y.(q_recoveryKeyId) then deleteRecoveryKey uid d else d in
                    let '(d, vid) := if y.(q_sessionToken) then reset_session fr uid hasTotp d else (d, None) in
                    let reply key :=
                      if y.(q_sessionToken)
                      then Some (mkReply uid (to_hex fr.(seed_session))
                                   (a.(primaryVerified) && bool_decide (vid = None)) (now / 1000) key)
                      else None in
                    if wantsKeys then
                      if negb y.(q_sessionToken) then (s, mkWorld d o, inr PMissingParameter)
                      else
                        match give_keys fr.(seed_key) uid a wrapKb a.(primaryVerified) vid d with
                        | None => (s, mkWorld d o, inr PThrown)
                        | Some (d, key) => (s, mkWorld d o, inl (reply (Some key)))
                        end
                    else (s, mkWorld d o, inl (reply None))
              end
          end
      end
  end.

(** ** client.ts *)

Inductive ClientErr := CServer (e : PwErr) | CBundle (e : BundleErr).

Definition accountKeys (token unwrapBKey : string) (d : DB) : DB * ((string * string) + ClientErr) :=
  match deriveHawkCredentials token "keyFetchToken" with
  | None => (d, inr (CBundle InvalidHex))
  | Some cr =>
      match keys cr.(k_id) d with
      | (d, inr e) => (d, inr (CServer e))
      | (d, inl b) =>
          (d, match unbundleKeyFetchResponse cr.(k_bundleKey) b with
              | inr e => inr (CBundle e)
              | inl (kA, wrapKB) =>
                  match unwrapKB wrapKB unwrapBKey with Some kB => inl (kA, kB) | None => inr (CBundle InvalidHex) end
              end)
      end
  end.

(** [passwordChangeStart]: one more try when the server knows the address in
    another case; the address that worked is part of the answer. *)
Definition passwordChangeStart (addr oldPassword : string) (fr : Fresh) (req : Request) (s : state) (d : DB)
    : state * DB * ((StartReply * string) + PwErr) :=
  match changeStart addr (getCredentials addr oldPassword).(cc_authPW) fr req s d with
  | (s, d, inl r) => (s, d, inl (r, addr))
  | (s, d, inr (PIncorrectEmailCase e)) =>
      if str_truthy e then
        match changeStart e (getCredentials e oldPassword).(cc_authPW) fr req s d with
        | (s, d, inl r) => (s, d, inl (r, e))
        | (s, d, inr err) => (s, d, inr err)
        end
      else (s, d, inr (PIncorrectEmailCase e))
  | (s, d, inr err) => (s, d, inr err)
  end.

(** The payload that ends a password change. *)
Definition finish_payload (addr newPassword kB : string) (sessionToken : option string) : option FinishPayload :=
  let cr := getCredentials addr newPassword in
  wrapKb ← unwrapKB kB cr.(cc_unwrapBKey);
  sid ← match sessionToken with
        | Some t => if str_truthy t then (fun c => Some c.(k_id)) <$> deriveHawkCredentials t "sessionToken" else Some None
        | None => Some None
        end;
  Some (mkFinish cr.(cc_authPW) wrapKb sid).

Definition passwordChange (addr oldPassword newPassword : string) (wantsKeys : bool) (sessionToken : option string)
    (fr fr' : Fresh) (req : Request) (s : state) (w : World) : state * World * (option SessionReply + ClientErr) :=
  match passwordChangeStart addr oldPassword fr req s w.(db) with
  | (s, d, inr e) => (s, mkWorld d w.(oauth), inr (CServer e))
  | (s, d, inl (r, addr)) =>
      match accountKeys r.(st_keyFetchToken) (getCredentials addr oldPassword).(cc_unwrapBKey) d with
      | (d, inr e) => (s, mkWorld d w.(oauth), inr e)
      | (d, inl (_, kB)) =>
          match finish_payload addr newPassword kB sessionToken,
                deriveHawkCredentials r.(st_passwordChangeToken) "passwordChangeToken" with
          | Some y, Some cr =>
              let '(w, r) := changeFinish fr' cr.(k_id) y wantsKeys (mkWorld d w.(oauth)) in
              (s, w, match r with inl x => inl x | inr e => inr (CServer e) end)
          | _, _ => (s, mkWorld d w.(oauth), inr (CBundle InvalidHex))
          end
      end
  end.

End Flows.

(** * Laws *)

Lemma but_of_lookup {A} (owner : A -> string) u (m : gmap string A) id v :
  but_of owner u m !! id = Some v <-> m !! id = Some v /\ owner v <> u.
Proof. unfold but_of. by rewrite map_lookup_filter_Some. Qed.

Lemma record_by_name_spec n d uid a :
  record_by_name n d = Some (uid, a) -> d.(accounts) !! uid = Some a /\ toLowerCase a.(AccountStore.email) = n.
Proof.
  unfold record_by_name. set (l := filter _ _). destruct l as [|x l'] eqn:E; [done|]. intros [= ->].
  assert ((uid, a) ∈ l) as [? ?%elem_of_map_to_list]%list_elem_of_filter by (rewrite E; left). done.
Qed.

Lemma accountRecord_account addr d uid a : accountRecord addr d = Some (uid, a) -> d.(accounts) !! uid = Some a.
Proof.
  unfold accountRecord, record_by_email. destruct (emails d !! toLowerCase addr) as [u|]; [|by intros [? _]%record_by_name_spec].
  simpl. destruct (accounts d !! u) eqn:E; [|by intros [? _]%record_by_name_spec]. simpl. intros [= <- <-]. done.
Qed.

(** The binary columns of an account hold 32 bytes each. *)
Record account_ok (a : AccountRow) : Prop := {
  ok_kA : bytes a.(kA) /\ length a.(kA) = 32%nat;
  ok_key : bytes a.(wrapWrapKb) /\ length a.(wrapWrapKb) = 32%nat;
  ok_salt : bytes a.(AccountStore.authSalt) /\ length a.(AccountStore.authSalt) = 32%nat;
  ok_hash : bytes a.(a_verifyHash) /\ length a.(a_verifyHash) = 32%nat }.

Lemma bytes_hex_of n l : bytes l -> length l = n -> hex_of n (to_hex l).
Proof. intros Hl Hn. by exists l. Qed.

(** Random values as the server draws them. *)
Record fresh_ok (fr : Fresh) : Prop := {
  fo_salt : hex_of 32 fr.(salt);
  fo_key : bytes fr.(seed_key) /\ fr.(seed_key) <> [];
  fo_token : bytes fr.(seed_token) /\ fr.(seed_token) <> [];
  fo_new : hex_of 32 fr.(new_key) }.

(** Stretching never fails in the versions there are. *)
Definition version_ok (v : Z) : Prop := v = 0 \/ v = 1.

Section Passwords.
Context `{CryptoLaws}.

Lemma new_Password_ok pw salt v :
  hex_of 32 pw -> hex_of 32 salt -> version_ok (default 1 v) ->
  exists p, new_Password pw salt v = Some p /\ p.(KeyBundle.version) = default 1 v.
Proof.
  intros Hp Hs Hv. apply hex_of_from in Hp as (_ & Hlp & _), Hs as (_ & Hls & _). unfold new_Password, stretch.
  destruct Hv as [->| ->]; simpl; [|by eexists].
  unfold xorBuffers. simpl. rewrite Hlp, Hls. simpl. by eexists.
Qed.

Lemma verifyHash_hex p : hex_of 32 (verifyHash p).
Proof. apply bytes_hex_of; [apply hkdf_bytes|apply hkdf_length]. Qed.

(** A password opens an account: it is accepted, and with it a client gets
    the key [kB] out of what the server stores. *)
Definition opens (a : AccountRow) (addr pw kB : string) : Prop :=
  let cr := getCredentials addr pw in
  exists p w, new_Password cr.(cc_authPW) (to_hex a.(AccountStore.authSalt)) (Some a.(verifierVersion)) = Some p /\
    matches p (to_hex a.(a_verifyHash)) = true /\
    unwrap p (to_hex a.(wrapWrapKb)) None = Some w /\ unwrapKB w cr.(cc_unwrapBKey) = Some kB.

Lemma matches_stored p a :
  bytes a.(a_verifyHash) -> matches p (to_hex a.(a_verifyHash)) = true <-> a.(a_verifyHash) = from_hex (verifyHash p).
Proof.
  intros Hb. rewrite matches_spec. unfold verifyHash. rewrite !from_to_hex by (done || apply hkdf_bytes). done.
Qed.

(** Storing a password and a key makes the password open the account with
    that key. *)
Lemma stored_opens a addr pw kB salt v now changed p wrapKb wrapped :
  hex_of 32 kB -> hex_of 32 salt ->
  let cr := getCredentials addr pw in
  unwrapKB kB cr.(cc_unwrapBKey) = Some wrapKb ->
  new_Password cr.(cc_authPW) salt v = Some p -> wrap p wrapKb None = Some wrapped ->
  opens (reset_row (from_hex (verifyHash p)) (from_hex salt) (from_hex wrapped) p.(KeyBundle.version) now changed a) addr pw kB.
Proof.
  intros HkB Hsalt cr Hw Hp Hwr. subst cr. destruct (credentials_hex addr pw) as [_ Hu].
  destruct (unwrapKB_spec kB _ HkB Hu) as (w1 & Hw1 & Hhw & Hback).
  assert (w1 = wrapKb) as -> by congruence.
  destruct (unwrap_spec p wrapKb None Hhw) as (w2 & Hw2 & Hhw2 & Hback2).
  assert (w2 = wrapped) as -> by (unfold wrap in Hwr; congruence).
  exists p, wrapKb. apply hex_of_from in Hsalt as (_ & _ & Hs), Hhw2 as (_ & _ & Hw2').
  cbn [reset_row AccountStore.authSalt verifierVersion a_verifyHash wrapWrapKb]. rewrite Hs, Hw2'.
  split; [|split; [|by split]].
  - revert Hp. unfold new_Password. destruct (stretch (default 1 v) _ _) eqn:E; [|done].
    intros [= <-]. cbn [KeyBundle.version default from_option id]. by rewrite E.
  - rewrite matches_spec. unfold verifyHash. by rewrite !from_to_hex by (done || apply hkdf_bytes || (apply from_hex_bytes)).
Qed.
End Passwords.

Section FlowLaws.
Context {M : Type} `{Memcached M StoredObject} `{CryptoLaws}.
Context (env : Env) (hash_code : string -> string -> string) (MAX_AGE changeLife : Z) (version : option Z).
Abbreviation now := (env.(Server.now)).
Abbreviation state := (State (M := M)).

Definition kf_id (fr : Fresh) : string := token_id keyFetchToken fr.(seed_key).
Definition pc_id (fr : Fresh) : string := token_id "passwordChangeToken" fr.(seed_token).

Lemma client_token type seed :
  bytes seed -> seed <> [] -> exists cr, deriveHawkCredentials (to_hex seed) type = Some cr /\ cr.(k_id) = token_id type seed.
Proof. intros Hb Hne. eexists. by rewrite hawk_credentials by done. Qed.

Lemma changeStart_ok addr pw fr req (s s' : state) req' d uid a kB :
  client_check env addr "passwordChange" req s = (s', (req', Pass)) -> accountRecord addr d = Some (uid, a) ->
  account_ok a -> fresh_ok fr -> to_hex a.(AccountStore.authSalt) <> ONES -> opens a addr pw kB ->
  d.(accounts) !! uid = Some a ->
  exists t wrapKb,
    changeStart env hash_code addr (getCredentials addr pw).(cc_authPW) fr req s d =
      (s', createPasswordChangeToken (pc_id fr) uid now (createKeyFetchToken now t d),
       inl (mkStart (to_hex fr.(seed_key)) (to_hex fr.(seed_token)) a.(AccountStore.emailVerified))) /\
    create_key_fetch_token fr.(seed_key) uid (to_hex a.(kA)) wrapKb a.(AccountStore.emailVerified) None = Some t /\
    hex_of 32 wrapKb /\ unwrapKB wrapKb (getCredentials addr pw).(cc_unwrapBKey) = Some kB.
Proof.
  intros Hc Ha Hok Hfr Hsalt (p & w & Hp & Hm & Hw & HkB) Hacc. unfold changeStart. rewrite Hc, Ha, Hp.
  apply matches_stored in Hm; [|apply Hok].
  assert (SignIn.checkPassword (H0 := account_db hash_code) env ONES (signin_account uid a) (verifyHash p)
    (clientAddress req') s' d = (s', inl true)) as ->.
  { unfold SignIn.checkPassword. cbn [signin_account SignIn.authSalt].
    rewrite (proj2 (String.eqb_neq _ _) Hsalt). cbn. unfold checkPassword. rewrite Hacc, bool_decide_eq_true_2 by done. done. }
  unfold change_tokens. rewrite Hw.
  destruct (unwrap_spec p (to_hex (wrapWrapKb a)) None) as (w' & Hw' & Hh & _); [apply bytes_hex_of; apply Hok|].
  assert (w' = w) as -> by congruence.
  destruct (key_fetch_spec fr.(seed_key) uid (to_hex (kA a)) w a.(AccountStore.emailVerified) None) as (t & Ht & Hkeys & _);
    [apply Hfr|apply Hfr|apply bytes_hex_of; apply Hok|done|].
  unfold give_keys. rewrite Ht. cbn [mbind option_bind]. exists t, w. rewrite Hkeys. done.
Qed.

Lemma keys_ok id d uid row a :
  d.(keyFetchTokens) !! id = Some row -> row.(f_uid) = uid -> d.(unverifiedTokens) !! id = None ->
  d.(accounts) !! uid = Some a -> a.(primaryVerified) = true ->
  keys id d = (deleteKeyFetchToken id d, inl (to_hex row.(f_keyBundle))).
Proof.
  intros Hr <- Hu Ha Hv. unfold keys, keyFetchTokenWithVerificationStatus. by rewrite Hr, Ha, Hu, Hv.
Qed.

Lemma accountKeys_any fr uid kA wrapKb verified vid t d1 d a unwrapB kB :
  fresh_ok fr -> create_key_fetch_token fr.(seed_key) uid kA wrapKb verified vid = Some t ->
  hex_of 32 kA -> hex_of 32 wrapKb -> unwrapKB wrapKb unwrapB = Some kB ->
  d1.(keyFetchTokens) = (createKeyFetchToken now t d).(keyFetchTokens) -> d1.(unverifiedTokens) !! kf_id fr = None ->
  d1.(accounts) !! uid = Some a -> a.(primaryVerified) = true ->
  accountKeys (to_hex fr.(seed_key)) unwrapB d1 = (deleteKeyFetchToken (kf_id fr) d1, inl (kA, kB)).
Proof.
  intros Hfr Ht HkA Hw HkB Hd Hu Ha Hv.
  destruct (key_fetch_spec fr.(seed_key) uid kA wrapKb verified vid) as (t' & Ht' & Hkeys & Huid & _ & Hcanon & Hcr & Hopen & _);
    [apply Hfr|apply Hfr|done..|]. assert (t' = t) as -> by congruence.
  unfold accountKeys. rewrite Hkeys in Hcr, Hopen.
  change (deriveHawkCredentials (to_hex (seed_key fr)) "keyFetchToken" = Some (deriveTokenKeys keyFetchToken (seed_key fr))) in Hcr.
  rewrite Hcr. change (k_id (deriveTokenKeys keyFetchToken (seed_key fr))) with (kf_id fr).
  rewrite (keys_ok (kf_id fr) d1 uid (mkKeyFetchRow uid (from_hex t.(kf_keyBundle)) now) a); [|rewrite Hd|done..].
  - cbn [f_keyBundle]. rewrite Hcanon, Hopen. by rewrite HkB.
  - unfold createKeyFetchToken, add_unverified. rewrite Huid, Hkeys. destruct (kf_tokenVerificationId t); cbn; by rewrite lookup_insert_eq.
Qed.

Definition session_id (fr : Fresh) : string := token_id "sessionToken" fr.(seed_session).

(** Two databases that differ at most in one session and one key fetch token
    of [uid], and in which tokens are unverified. *)
Record same_but (uid sid kid : string) (d d' : DB) : Prop := {
  sb_accounts : d'.(accounts) = d.(accounts);
  sb_emails : d'.(emails) = d.(emails);
  sb_session id : id <> sid -> d'.(sessionTokens) !! id = d.(sessionTokens) !! id;
  sb_keyFetch id : id <> kid -> d'.(keyFetchTokens) !! id = d.(keyFetchTokens) !! id;
  sb_change : d'.(passwordChangeTokens) = d.(passwordChangeTokens);
  sb_forgot : d'.(passwordForgotTokens) = d.(passwordForgotTokens);
  sb_reset : d'.(accountResetTokens) = d.(accountResetTokens);
  sb_recovery : d'.(recoveryKeys) = d.(recoveryKeys);
  sb_totp : d'.(totp) = d.(totp);
  sb_devices : d'.(devices) = d.(devices) }.

Lemma same_but_trans uid sid kid d1 d2 d3 : same_but uid sid kid d1 d2 -> same_but uid sid kid d2 d3 -> same_but uid sid kid d1 d3.
Proof.
  intros S1 S2. split; try (destruct S1, S2; congruence).
  - intros id Hid. by rewrite (sb_session _ _ _ _ _ S2 id Hid), (sb_session _ _ _ _ _ S1 id Hid).
  - intros id Hid. by rewrite (sb_keyFetch _ _ _ _ _ S2 id Hid), (sb_keyFetch _ _ _ _ _ S1 id Hid).
Qed.

Lemma add_unverified_same uid sid kid id u v d : same_but uid sid kid d (add_unverified id u v d).
Proof. destruct v; by split. Qed.

Lemma createSessionToken_same uid sid kid u t b v d : same_but uid sid kid d (createSessionToken sid u t b v d).
Proof.
  eapply same_but_trans; [|apply add_unverified_same]. split; try done. intros id Hid. simpl. by rewrite lookup_insert_ne.
Qed.

Lemma change_session_ok fr uid v m b d kid :
  exists d', change_session env fr uid v m b d = inl d' /\ same_but uid (session_id fr) kid d d'.
Proof.
  unfold change_session. fold (session_id fr). set (d1 := createSessionToken _ _ _ _ _ d).
  assert (same_but uid (session_id fr) kid d d1) as S1 by apply createSessionToken_same.
  destruct (m ≫= VERIFICATION_METHOD) as [k|]; [|by exists d1].
  unfold verifyTokensWithMethod. assert (exists r, d1.(sessionTokens) !! session_id fr = Some r) as [r Hr].
  { unfold d1, createSessionToken. destruct v; cbn; rewrite lookup_insert_eq; eauto. }
  rewrite Hr. eexists. split; [done|]. eapply same_but_trans; [exact S1|].
  assert (same_but uid (session_id fr) kid d1 (on_sessions <[session_id fr :=
    mkSessionRow (s_uid r) (s_createdAt r) (s_authAt r) (s_mustVerify r) (Some k)]> d1)) as S2.
  { split; try done. intros id Hid. simpl. by rewrite lookup_insert_ne. }
  destruct (unverifiedTokens _ !! _) as [[vid ?]|]; [|done]. eapply same_but_trans; [exact S2|]. by split.
Qed.

Lemma give_keys_ok seed uid a wrapKb verified vid d sid :
  bytes seed -> seed <> [] -> account_ok a -> hex_of 32 wrapKb ->
  exists d' key, give_keys env seed uid a wrapKb verified vid d = Some (d', key) /\
    same_but uid sid (token_id keyFetchToken seed) d d'.
Proof.
  intros Hb Hne Hok Hw. destruct (key_fetch_spec seed uid (to_hex (kA a)) wrapKb verified vid) as (t & Ht & Hkeys & _);
    [done..|apply bytes_hex_of; apply Hok|done|].
  unfold give_keys. rewrite Ht. cbn [mbind option_bind]. eexists _, _. split; [done|].
  unfold createKeyFetchToken. rewrite Hkeys. eapply same_but_trans; [|apply add_unverified_same].
  split; try done. intros id Hid. simpl. by rewrite lookup_insert_ne.
Qed.

(** Nothing that was issued to [uid] before is left. *)
Record cut_off (uid sid kid : string) (d : DB) : Prop := {
  cu_session id r : d.(sessionTokens) !! id = Some r -> r.(s_uid) = uid -> id = sid;
  cu_keyFetch id r : d.(keyFetchTokens) !! id = Some r -> r.(f_uid) = uid -> id = kid;
  cu_change id r : d.(passwordChangeTokens) !! id = Some r -> r.(t_uid) <> uid;
  cu_forgot id r : d.(passwordForgotTokens) !! id = Some r -> r.(o_uid) <> uid;
  cu_reset id r : d.(accountResetTokens) !! id = Some r -> r.(t_uid) <> uid;
  cu_device id r : d.(devices) !! id = Some r -> r.1 <> uid }.

Lemma cut_same uid sid kid d d' : cut_off uid sid kid d -> same_but uid sid kid d d' -> cut_off uid sid kid d'.
Proof.
  intros [C1 C2 C3 C4 C5 C6] Hs. split.
  - intros id r Hr Hu. destruct (decide (id = sid)) as [|Hne]; [done|]. rewrite (sb_session _ _ _ _ _ Hs id Hne) in Hr. by eapply C1.
  - intros id r Hr Hu. destruct (decide (id = kid)) as [|Hne]; [done|]. rewrite (sb_keyFetch _ _ _ _ _ Hs id Hne) in Hr. by eapply C2.
  - intros id r. rewrite (sb_change _ _ _ _ _ Hs). apply C3.
  - intros id r. rewrite (sb_forgot _ _ _ _ _ Hs). apply C4.
  - intros id r. rewrite (sb_reset _ _ _ _ _ Hs). apply C5.
  - intros id r. rewrite (sb_devices _ _ _ _ _ Hs). apply C6.
Qed.

Lemma resetAccount_cut uid sid kid hash slt wrapped v t b d : cut_off uid sid kid (resetAccount uid hash slt wrapped v t b d).
Proof. split; intros id r Hr; apply but_of_lookup in Hr as [_ ?]; done. Qed.

Lemma reset_row_ok hash salt wrapped v t b a :
  account_ok a -> hex_of 32 hash -> hex_of 32 salt -> hex_of 32 wrapped ->
  account_ok (reset_row (from_hex hash) (from_hex salt) (from_hex wrapped) v t b a).
Proof.
  intros [HA _ _ _] (_ & Hh & _)%hex_of_from (_ & Hs & _)%hex_of_from (_ & Hw & _)%hex_of_from.
  split; [done|..]; cbn; (split; [apply from_hex_bytes|done]).
Qed.

(** What ending a password change does. *)
Lemma changeFinish_ok fr pcId y wantsKeys w uid created a v m addr pw kB :
  w.(db).(passwordChangeTokens) !! pcId = Some (mkTokenRow uid created) -> token_expired changeLife created now = false ->
  w.(db).(accounts) !! uid = Some a -> account_ok a -> fresh_ok fr -> version_ok (default 1 version) -> hex_of 32 kB ->
  y.(p_authPW) = (getCredentials addr pw).(cc_authPW) -> unwrapKB kB (getCredentials addr pw).(cc_unwrapBKey) = Some y.(p_wrapKb) ->
  previous_session env MAX_AGE uid y.(p_sessionToken) w.(db) = inl (v, m) ->
  exists w' r a', changeFinish env MAX_AGE changeLife version fr pcId y wantsKeys w = (w', inl r) /\
    w'.(db).(accounts) = <[uid := a']> w.(db).(accounts) /\ opens a' addr pw kB /\ a'.(kA) = a.(kA) /\
    a'.(keysChangedAt) = Some (keys_changed a) /\ account_ok a' /\
    cut_off uid (session_id fr) (kf_id fr) w'.(db) /\
    w'.(oauth) = OAuthStore.removePublicAndCanGrantTokens now uid w.(oauth) /\
    (y.(p_sessionToken) <> None -> exists rep, r = Some rep /\ rep.(rp_uid) = uid /\
       rep.(rp_verified) = a.(AccountStore.emailVerified) && v).
Proof.
  intros Ht He Ha Hok Hfr Hver HkB Hpw Hwrap Hprev. unfold changeFinish.
  assert (auth_change changeLife now pcId (db w) = inl (mkTokenRow uid created)) as ->.
  { unfold auth_change. rewrite Ht. simpl. rewrite Ha, He, bool_decide_eq_true_2 by eauto. done. }
  cbv zeta. cbn [t_uid]. rewrite Hprev.
  destruct (credentials_hex addr pw) as [Hcr Hcu]. unfold changePassword. rewrite Hpw.
  destruct (new_Password_ok (cc_authPW (getCredentials addr pw)) fr.(salt) version) as (p & Hp & _); [done|apply Hfr|done|].
  rewrite Hp. destruct (unwrapKB_spec kB _ HkB Hcu) as (wk & Hwk & Hhw & _). assert (wk = p_wrapKb y) as -> by congruence.
  destruct (unwrap_spec p (p_wrapKb y) None Hhw) as (wrapped & Hwr & Hhwr & _).
  assert (wrap p (p_wrapKb y) None = Some wrapped) as -> by done.
  set (d0 := resetAccount _ _ _ _ _ _ _ _).
  set (a' := reset_row (from_hex (verifyHash p)) (from_hex (salt fr)) (from_hex wrapped) (KeyBundle.version p) now false a).
  assert (d0.(accounts) = <[uid := a']> w.(db).(accounts)) as Hacc.
  { unfold d0. simpl. apply map_eq. intros i. destruct (decide (uid = i)) as [<-|Hne].
    - by rewrite lookup_alter_eq, lookup_insert_eq, Ha.
    - by rewrite lookup_alter_ne, lookup_insert_ne. }
  unfold account. rewrite Hacc, lookup_insert_eq.
  destruct (change_session_ok fr uid v m wantsKeys d0 (kf_id fr)) as (d1 & -> & Hs1).
  assert (account_ok a') as Hok' by (apply reset_row_ok; [done|apply verifyHash_hex|apply Hfr|done]).
  assert (forall d2, same_but uid (session_id fr) (kf_id fr) d0 d2 ->
    d2.(accounts) = <[uid := a']> w.(db).(accounts) /\ opens a' addr pw kB /\ a'.(kA) = a.(kA) /\
    a'.(keysChangedAt) = Some (keys_changed a) /\ account_ok a' /\ cut_off uid (session_id fr) (kf_id fr) d2) as Hall.
  { intros d2 Hs2. split; [by rewrite (sb_accounts _ _ _ _ _ Hs2)|].
    split; [by apply (stored_opens a addr pw kB (salt fr) version now false p (p_wrapKb y) wrapped); [|apply Hfr|..]|].
    split; [done|]. split; [done|]. split; [done|]. eapply cut_same; [apply resetAccount_cut|done]. }
  destruct wantsKeys.
  - destruct (give_keys_ok (seed_key fr) uid a' (p_wrapKb y) (AccountStore.emailVerified a') None d1 (session_id fr))
      as (d2 & key & -> & Hs2); [apply Hfr|apply Hfr|done..|].
    eexists _, _, a'. split; [done|]. cbn [db oauth].
    destruct (Hall d2) as (?&?&?&?&?&?); [by eapply same_but_trans|]. split_and!; try done.
    destruct (p_sessionToken y); [|done]. intros _. by eexists.
  - eexists _, _, a'. split; [done|]. cbn [db oauth]. destruct (Hall d1 Hs1) as (?&?&?&?&?&?). split_and!; try done.
    destruct (p_sessionToken y); [|done]. intros _. by eexists.
Qed.

Lemma previous_session_ext uid sid d d' :
  d'.(totp) = d.(totp) -> d'.(sessionTokens) = d.(sessionTokens) -> d'.(devices) = d.(devices) ->
  d'.(accounts) = d.(accounts) -> d'.(unverifiedTokens) = d.(unverifiedTokens) ->
  previous_session env MAX_AGE uid sid d' = previous_session env MAX_AGE uid sid d.
Proof.
  intros Ht Hs Hd Ha Hu. unfold previous_session, hasTotpToken, sessionToken, device_of. by rewrite Ht, Hs, Hd, Ha, Hu.
Qed.

(** The session id that a client derives from its session token. *)
Definition client_session (tok : option string) : option (option string) :=
  match tok with
  | Some t => if str_truthy t then (fun c => Some c.(k_id)) <$> deriveHawkCredentials t "sessionToken" else Some None
  | None => Some None
  end.

Lemma opens_hex a addr pw kB : account_ok a -> opens a addr pw kB -> hex_of 32 kB.
Proof.
  intros Hok (p & w & _ & _ & Hw & HkB). destruct (unwrap_spec p (to_hex (wrapWrapKb a)) None) as (w' & Hw' & Hh & _).
  { apply bytes_hex_of; apply Hok. }
  assert (w' = w) as -> by congruence. destruct (credentials_hex addr pw) as [_ Hu].
  destruct (unwrapKB_spec w _ Hh Hu) as (k & Hk & Hhk & _). congruence.
Qed.

Lemma token_expired_new life t : 0 < life -> token_expired life t t = false.
Proof.
  intros Hl. unfold token_expired. apply not_true_iff_false. rewrite (Tokens.expired_iff _ _ life).
  - cbn [Tokens.new_Token Tokens.createdAt]. replace (or0 (Some t)) with t by (by destruct t). lia.
  - unfold Tokens.new_Token, Tokens.truthy_z. simpl. rewrite bool_decide_eq_false_2; [done|]. intros [= ?]. lia.
Qed.

(** [C2] Changing the password through the client keeps the account's keys: when
    the old password opens the account, the change goes through (with a
    session that has passed the second factor, if there is one), afterwards
    the new password opens the account with the same [kB], [kA] and the date
    of the keys are the same, every session, device and one-time token issued
    before is gone, and the OAuth tokens of public clients are revoked. *)
Theorem password_change_keeps_keys addr old new wantsKeys tok sid fr fr' req (s s' : state) req' w uid a kB v m :
  client_check env addr "passwordChange" req s = (s', (req', Pass)) ->
  accountRecord addr w.(db) = Some (uid, a) -> account_ok a -> a.(primaryVerified) = true ->
  to_hex a.(AccountStore.authSalt) <> ONES -> opens a addr old kB ->
  fresh_ok fr -> fresh_ok fr' -> version_ok (default 1 version) -> 0 < changeLife ->
  w.(db).(unverifiedTokens) !! kf_id fr = None ->
  client_session tok = Some sid -> previous_session env MAX_AGE uid sid w.(db) = inl (v, m) ->
  exists w' r a',
    passwordChange env hash_code MAX_AGE changeLife version addr old new wantsKeys tok fr fr' req s w = (s', w', inl r) /\
    w'.(db).(accounts) = <[uid := a']> w.(db).(accounts) /\ opens a' addr new kB /\ a'.(kA) = a.(kA) /\
    a'.(keysChangedAt) = Some (keys_changed a) /\ cut_off uid (session_id fr') (kf_id fr') w'.(db) /\
    w'.(oauth) = OAuthStore.removePublicAndCanGrantTokens now uid w.(oauth).
Proof.
  intros Hc Hrec Hok Hver Hsalt Hopen Hfr Hfr' Hvers Hlife Hnew Hsid Hprev.
  pose proof (accountRecord_account _ _ _ _ Hrec) as Hacc.
  destruct (changeStart_ok addr old fr req s s' req' (db w) uid a kB) as (t & wrapKb & Hstart & Ht & Hhw & HkB); [done..|].
  unfold passwordChange, passwordChangeStart. rewrite Hstart. cbn [st_keyFetchToken st_passwordChangeToken].
  destruct (key_fetch_spec (seed_key fr) uid (to_hex (kA a)) wrapKb (AccountStore.emailVerified a) None)
    as (t' & Ht' & Hkeys & Huid & Hvid & _); [apply Hfr|apply Hfr|apply bytes_hex_of; apply Hok|done|].
  assert (t' = t) as -> by congruence. set (d1 := createPasswordChangeToken _ _ _ _).
  assert (d1.(unverifiedTokens) = w.(db).(unverifiedTokens)) as Hunv
    by (unfold d1, createKeyFetchToken; by rewrite Hvid).
  assert (d1.(accounts) = w.(db).(accounts)) as Hacc1 by (unfold d1, createKeyFetchToken; by rewrite Hvid).
  rewrite (accountKeys_any fr uid (to_hex (kA a)) wrapKb (AccountStore.emailVerified a) None t d1 (db w) a _ kB);
    [|done|done|apply bytes_hex_of; apply Hok|done|done|done|by rewrite Hunv|by rewrite Hacc1|done].
  assert (hex_of 32 kB) as HhkB by (by eapply opens_hex).
  destruct (unwrapKB_spec kB _ HhkB (proj2 (credentials_hex addr new))) as (nw & Hnw & _ & _).
  unfold finish_payload. rewrite Hnw. cbn [mbind option_bind]. fold (client_session tok). rewrite Hsid. cbn [mbind option_bind].
  destruct (client_token "passwordChangeToken" (seed_token fr)) as (cr & Hcr & Hid); [apply Hfr..|]. rewrite Hcr, Hid.
  fold (pc_id fr). set (d2 := deleteKeyFetchToken (kf_id fr) d1).
  assert (d2.(unverifiedTokens) = w.(db).(unverifiedTokens)) as Hunv2.
  { unfold d2. cbn [deleteKeyFetchToken on_unverified on_keyFetch unverifiedTokens]. rewrite Hunv. by apply delete_id. }
  destruct (changeFinish_ok fr' (pc_id fr) (mkFinish (cc_authPW (getCredentials addr new)) nw sid) wantsKeys
    (mkWorld d2 (oauth w)) uid now a v m addr new kB) as (w' & r & a' & Hfin & Ha' & Ho & HkA & Hkc & _ & Hcut & Hoa & _).
  - unfold d2, d1. cbn. unfold replace. by rewrite lookup_insert_eq.
  - by apply token_expired_new.
  - change (accounts d1 !! uid = Some a). by rewrite Hacc1.
  - done.
  - done.
  - done.
  - done.
  - done.
  - exact Hnw.
  - cbn [db p_sessionToken]. rewrite (previous_session_ext uid sid (db w) d2); try done;
      unfold d2, d1, createKeyFetchToken; by rewrite Hvid.
  - rewrite Hfin. exists w', r, a'. cbn [db oauth] in *. split; [done|]. split; [|by split_and!].
    rewrite Ha'. change (<[uid:=a']> (accounts d1) = <[uid:=a']> (accounts (db w))). by rewrite Hacc1.
Qed.

(** Keys are handed out once, and only for a verified token of an account
    with a verified address. *)
Theorem keys_once id d d' b :
  keys id d = (d', inl b) ->
  (exists r a, d.(keyFetchTokens) !! id = Some r /\ d.(accounts) !! r.(f_uid) = Some a /\ a.(primaryVerified) = true /\
     d.(unverifiedTokens) !! id = None /\ b = to_hex r.(f_keyBundle)) /\
  keys id d' = (d', inr (PDB InvalidToken)).
Proof.
  unfold keys, keyFetchTokenWithVerificationStatus. destruct (keyFetchTokens d !! id) as [r|] eqn:Hr; [|done].
  destruct (accounts d !! f_uid r) as [a|] eqn:Ha; [|done]. cbn.
  destruct (unverifiedTokens d !! id) as [?|] eqn:Hu; [done|]. destruct (primaryVerified a) eqn:Hv; [|done].
  intros [= <- <-]. split; [by exists r, a|]. cbn. by rewrite lookup_delete_eq.
Qed.

(** The password alone gets the keys of an account out of
    /password/change/start, also when the account has a second factor: no
    session takes part, and the key fetch token is verified from the start. *)
Theorem change_start_skips_second_factor addr pw fr req (s s' : state) req' d uid a kB :
  client_check env addr "passwordChange" req s = (s', (req', Pass)) -> accountRecord addr d = Some (uid, a) ->
  hasTotpToken uid d = true -> account_ok a -> a.(primaryVerified) = true -> fresh_ok fr ->
  to_hex a.(AccountStore.authSalt) <> ONES -> opens a addr pw kB -> d.(unverifiedTokens) !! kf_id fr = None ->
  exists d1 d2 r,
    changeStart env hash_code addr (getCredentials addr pw).(cc_authPW) fr req s d = (s', d1, inl r) /\
    accountKeys r.(st_keyFetchToken) (getCredentials addr pw).(cc_unwrapBKey) d1 = (d2, inl (to_hex a.(kA), kB)).
Proof.
  intros Hc Hrec _ Hok Hver Hfr Hsalt Hopen Hnew.
  pose proof (accountRecord_account _ _ _ _ Hrec) as Hacc.
  destruct (changeStart_ok addr pw fr req s s' req' d uid a kB) as (t & wrapKb & Hstart & Ht & Hhw & HkB); [done..|].
  destruct (key_fetch_spec (seed_key fr) uid (to_hex (kA a)) wrapKb (AccountStore.emailVerified a) None)
    as (t' & Ht' & Hkeys & Huid & Hvid & _); [apply Hfr|apply Hfr|apply bytes_hex_of; apply Hok|done|].
  assert (t' = t) as -> by congruence. eexists _, _, _. split; [exact Hstart|]. cbn [st_keyFetchToken].
  apply (accountKeys_any fr uid (to_hex (kA a)) wrapKb (AccountStore.emailVerified a) None t _ d a);
    [done|done|apply bytes_hex_of; apply Hok|done|done|done| | |done];
    unfold createKeyFetchToken; by rewrite Hvid.
Qed.

(** Ending a password change asks for a session that has passed the second
    factor, but any account's will do: with the session of another account
    the change goes through, and the new session counts as verified. *)
Theorem change_finish_any_session fr pcId y wantsKeys w uid created a sid r addr pw kB :
  w.(db).(passwordChangeTokens) !! pcId = Some (mkTokenRow uid created) -> token_expired changeLife created now = false ->
  w.(db).(accounts) !! uid = Some a -> account_ok a -> fresh_ok fr -> version_ok (default 1 version) -> hex_of 32 kB ->
  y.(p_authPW) = (getCredentials addr pw).(cc_authPW) -> unwrapKB kB (getCredentials addr pw).(cc_unwrapBKey) = Some y.(p_wrapKb) ->
  hasTotpToken uid w.(db) = true ->
  y.(p_sessionToken) = Some sid -> w.(db).(sessionTokens) !! sid = Some r -> r.(s_uid) <> uid -> r.(s_method) = Some 2 ->
  w.(db).(unverifiedTokens) !! sid = None -> r.(s_createdAt) > now - 2419200000 ->
  exists w' rep, changeFinish env MAX_AGE changeLife version fr pcId y wantsKeys w = (w', inl (Some rep)) /\
    rep.(rp_uid) = uid /\ rep.(rp_verified) = a.(AccountStore.emailVerified).
Proof.
  intros Ht He Ha Hok Hfr Hver HkB Hpw Hwrap Htotp Hsid Hr _ Hm Hu Hnew.
  assert (exists m, previous_session env MAX_AGE uid y.(p_sessionToken) w.(db) = inl (true, m)) as [m Hprev].
  { rewrite Hsid. unfold previous_session. rewrite Htotp. unfold sessionToken. rewrite Hr, Hu, Hm. cbn [fmap option_fmap option_map].
    assert ((s_createdAt r >? now - 2419200000) = true) as -> by (apply Z.gtb_gt; lia). rewrite orb_true_r. cbv zeta.
    rewrite Tokens.assurance_of. cbn [Tokens.d_verificationMethod]. rewrite bool_decide_eq_true_2 by apply list_elem_of_here.
    by eexists. }
  destruct (changeFinish_ok fr pcId y wantsKeys w uid created a true m addr pw kB) as (w' & r' & a' & Hfin & _ & _ & _ & _ & _ & _ & _ & Hrep);
    [done..|]. destruct Hrep as (rep & -> & Huid & Hv); [by rewrite Hsid|]. exists w', rep. rewrite andb_true_r in Hv. done.
Qed.
End FlowLaws.

(** ** Guessing the code of a forgotten password *)

Section Guessing.
Context {M : Type} `{Memcached M StoredObject} `{Crypto} (forgotLife : Z).

(** The answers to a code that was compared and found wrong. *)
Definition wrong (r : string + PwErr) : bool := match r with inr (PInvalidCode _ _) => true | _ => false end.

Definition tries_left (id : string) (d : DB) : Z :=
  match d.(passwordForgotTokens) !! id with Some t => Z.max t.(o_tries) 0 | None => 0 end.

(** A token that is still there can be tried at least once more. *)
Definition tries_ok (id : string) (d : DB) : Prop := forall t, d.(passwordForgotTokens) !! id = Some t -> 1 <= t.(o_tries).

Definition there (id : string) (d : DB) : Z := if bool_decide (is_Some (d.(passwordForgotTokens) !! id)) then 1 else 0.

Definition right (r : string + PwErr) : bool := match r with inl _ => true | inr _ => false end.

Lemma guess_step env id code fr req (s s' : State (M := M)) d d' r :
  forgotVerifyCode env forgotLife id code fr req s d = (s', d', r) -> tries_ok id d ->
  tries_ok id d' /\ (if wrong r then 1 else 0) + tries_left id d' <= tries_left id d /\
  (if right r then 1 else 0) + there id d' <= there id d.
Proof.
  intros Hg Hok. revert Hg. unfold forgotVerifyCode, auth_forgot.
  destruct (passwordForgotTokens d !! id) as [t|] eqn:Ht; [|intros [= <- <- <-]; split; [exact Hok|cbn; lia]].
  destruct (accounts d !! o_uid t) as [a|]; [|intros [= <- <- <-]; split; [exact Hok|cbn; lia]].
  destruct (negb _); [|intros [= <- <- <-]; split; [exact Hok|cbn; lia]].
  destruct (client_check _ _ _ _ _) as [s1 [req1 v]]. destruct v; try (intros [= <- <- <-]; split; [exact Hok|cbn; lia]).
  specialize (Hok t Ht). unfold tries_ok, tries_left, there. rewrite Ht, (bool_decide_eq_true_2 (is_Some (Some t))) by eauto.
  destruct (buffersAreEqual _ _ && _).
  { intros [= <- <- <-]. cbn. rewrite lookup_delete_eq. split; [done|]. cbn. lia. }
  unfold failVerifyAttempt. destruct (Tokens.failAttempt (o_tries t)) as [n used] eqn:Hf. intros [= <- <- <-].
  unfold Tokens.failAttempt in Hf. simplify_eq. destruct (Z.ltb_spec (o_tries t - 1) 1); cbn.
  - rewrite lookup_delete_eq. split; [done|]. cbn. lia.
  - rewrite lookup_alter_eq, Ht. cbn. split; [intros t' [= <-]; cbn; lia|]. lia.
Qed.

End Guessing.

(** ** Resetting an account *)

Section ResetLaws.
Context {M : Type} `{Memcached M StoredObject} `{CryptoLaws}.
Context (env : Env) (sha256 : list Z -> list Z) (resetLife : Z) (version : option Z).
Abbreviation now := (env.(Server.now)).
Abbreviation state := (State (M := M)).
Abbreviation recovery y := (ostr_truthy y.(q_recoveryKeyId)).

(** The request's key, when it has been recovered, is a key of 32 bytes that
    the client wrapped with the new password. *)
Definition recovered (y : ResetPayload) (addr pw : string) : Prop :=
  exists kB, hex_of 32 kB /\ unwrapKB kB (getCredentials addr pw).(cc_unwrapBKey) = Some y.(q_wrapKb).

Lemma resetAccountData_ok fr uid y d addr pw :
  fresh_ok fr -> version_ok (default 1 version) -> y.(q_authPW) = (getCredentials addr pw).(cc_authPW) ->
  (recovery y = true -> recovered y addr pw) ->
  exists p wrapKb wrapped kB, new_Password y.(q_authPW) fr.(salt) version = Some p /\
    resetAccountData env version fr uid y d = Some (resetAccountTokens uid
      (resetAccount uid (verifyHash p) fr.(salt) wrapped p.(KeyBundle.version) now (negb (recovery y)) d), wrapKb) /\
    hex_of 32 kB /\ hex_of 32 wrapKb /\ hex_of 32 wrapped /\ wrap p wrapKb None = Some wrapped /\
    unwrapKB kB (getCredentials addr pw).(cc_unwrapBKey) = Some wrapKb /\
    (recovery y = true -> wrapKb = y.(q_wrapKb)) /\ (recovery y = false -> wrapped = fr.(new_key)).
Proof.
  intros Hfr Hver Hpw Hrec. destruct (credentials_hex addr pw) as [Hcr Hcu].
  destruct (new_Password_ok y.(q_authPW) fr.(salt) version) as (p & Hp & _); [by rewrite Hpw|apply Hfr|done|].
  unfold resetAccountData. rewrite Hp. cbn [mbind option_bind]. destruct (recovery y) eqn:Hr.
  - destruct (Hrec eq_refl) as (kB & HkB & Hk). destruct (unwrapKB_spec kB _ HkB Hcu) as (w & Hw & Hhw & _).
    assert (w = q_wrapKb y) as -> by congruence.
    destruct (unwrap_spec p (q_wrapKb y) None Hhw) as (wrapped & Hwr & Hhwr & _).
    assert (wrap p (q_wrapKb y) None = Some wrapped) as -> by done.
    by exists p, (q_wrapKb y), wrapped, kB.
  - destruct (unwrap_spec p fr.(new_key) None) as (wrapKb & Hwr & Hhw & Hback); [apply Hfr|]. rewrite Hwr.
    destruct (unwrapKB_spec wrapKb _ Hhw Hcu) as (kB & HkB & HhkB & Hkback).
    exists p, wrapKb, fr.(new_key), kB. split_and!; try done. apply Hfr.
Qed.

Lemma resetAccountTokens_cut uid sid kid d : cut_off uid sid kid d -> cut_off uid sid kid (resetAccountTokens uid d).
Proof.
  intros [C1 C2 C3 C4 C5 C6]. split; [done|done| | | |done]; intros id r Hr; apply but_of_lookup in Hr as [Hr ?]; done.
Qed.

Lemma reset_accounts uid hash slt wrapped v t b d a :
  d.(accounts) !! uid = Some a ->
  (resetAccount uid hash slt wrapped v t b d).(accounts) =
  <[uid := reset_row (from_hex hash) (from_hex slt) (from_hex wrapped) v t b a]> d.(accounts).
Proof.
  intros Ha. cbn. apply map_eq. intros i. destruct (decide (uid = i)) as [<-|Hne].
  - by rewrite lookup_alter_eq, lookup_insert_eq, Ha.
  - by rewrite lookup_alter_ne, lookup_insert_ne.
Qed.

Lemma auth_reset_ok id uid created (d : DB) a : d.(accountResetTokens) !! id = Some (mkTokenRow uid created) ->
  token_expired resetLife created now = false -> d.(accounts) !! uid = Some a ->
  auth_reset resetLife now id d = inl (mkTokenRow uid created).
Proof. intros Ht He Ha. unfold auth_reset. rewrite Ht. simpl. by rewrite Ha, He, bool_decide_eq_true_2 by eauto. Qed.

(** The recovery key of a reset that used one is deleted as well. *)
Definition used_key (b : bool) (uid : string) (d : DB) : DB := if b then deleteRecoveryKey uid d else d.

Lemma used_key_cut b uid sid kid (d : DB) : cut_off uid sid kid d -> cut_off uid sid kid (used_key b uid d).
Proof. intros Hcut. destruct b; [destruct Hcut; by split|done]. Qed.

(** [C28] Resetting an account through a reset token: the new password opens it, in
    the case of a recovery key with the key that was recovered and an
    unchanged date of the keys, otherwise with a new key and a new date.
    Everything issued before is gone, the recovery key too, and the session
    that is given out is verified only without a second factor. *)
Theorem account_reset_exact fr id y wantsKeys (s s' : state) w uid created a addr pw :
  w.(db).(accountResetTokens) !! id = Some (mkTokenRow uid created) -> token_expired resetLife created now = false ->
  w.(db).(accounts) !! uid = Some a -> account_ok a -> fresh_ok fr -> version_ok (default 1 version) ->
  y.(q_authPW) = (getCredentials addr pw).(cc_authPW) -> y.(q_sessionToken) = true ->
  client_reset env a.(AccountStore.email) s = (s', true) ->
  (recovery y = true -> recovered y addr pw /\ exists k, getRecoveryKey sha256 uid (default "" y.(q_recoveryKeyId)) w.(db) = inl k) ->
  exists w' rep a' kB, reset env sha256 resetLife version fr id y wantsKeys s w = (s', w', inl (Some rep)) /\
    w'.(db).(accounts) = <[uid := a']> w.(db).(accounts) /\ opens a' addr pw kB /\ a'.(kA) = a.(kA) /\
    (if recovery y
     then unwrapKB kB (getCredentials addr pw).(cc_unwrapBKey) = Some y.(q_wrapKb) /\ a'.(keysChangedAt) = Some (keys_changed a)
     else a'.(wrapWrapKb) = from_hex fr.(new_key) /\ a'.(keysChangedAt) = Some now) /\
    cut_off uid (session_id fr) (kf_id fr) w'.(db) /\ w'.(db).(recoveryKeys) !! uid = None /\
    rep.(rp_verified) = a.(primaryVerified) && negb (hasTotpToken uid w.(db)) /\
    w'.(oauth) = OAuthStore.removePublicAndCanGrantTokens now uid w.(oauth).
Proof.
  intros Ht He Ha Hok Hfr Hver Hpw Hsess Hcust Hrec. unfold reset.
  rewrite (auth_reset_ok id uid created (db w) a) by done. cbv zeta. cbn [t_uid].
  assert ((if recovery y then (fun _ => tt) <$$> getRecoveryKey sha256 uid (default "" (q_recoveryKeyId y)) (db w) else inl tt) = inl tt) as ->
    by (destruct (recovery y); [by destruct (Hrec eq_refl) as (_ & k & ->)|done]).
  destruct (resetAccountData_ok fr uid y (db w) addr pw) as
    (p & wrapKb & wrapped & kB & Hp & -> & HkB & Hhw & Hhwr & Hwr & Hk & Hr1 & Hr2); [done..|by intros ?; apply Hrec|].
  set (d0 := resetAccountTokens _ _). set (a' := reset_row (from_hex (verifyHash p)) (from_hex (salt fr)) (from_hex wrapped)
    (KeyBundle.version p) now (negb (recovery y)) a).
  assert (d0.(accounts) = <[uid := a']> w.(db).(accounts)) as Hacc by (unfold d0; cbn; by apply reset_accounts).
  unfold account. rewrite Hacc, lookup_insert_eq. change (AccountStore.email a') with (AccountStore.email a). rewrite Hcust. cbn [negb].
  rewrite Hsess. unfold reset_session. fold (session_id fr).
  set (vid := if hasTotpToken uid (db w) then Some (verification fr) else None).
  set (d1 := if recovery y then deleteRecoveryKey uid d0 else d0). set (d2 := createSessionToken _ _ _ _ _ _).
  assert (same_but uid (session_id fr) (kf_id fr) d1 d2) as Hs12 by apply createSessionToken_same.
  assert (account_ok a') as Hok' by (apply reset_row_ok; [done|apply verifyHash_hex|apply Hfr|done]).
  assert (d1.(recoveryKeys) !! uid = None) as Hrk.
  { unfold d1. by destruct (recovery y); cbn; rewrite ?lookup_delete_eq. }
  assert (forall d3, same_but uid (session_id fr) (kf_id fr) d1 d3 ->
    d3.(accounts) = <[uid := a']> w.(db).(accounts) /\ opens a' addr pw kB /\ a'.(kA) = a.(kA) /\
    (if recovery y
     then unwrapKB kB (getCredentials addr pw).(cc_unwrapBKey) = Some y.(q_wrapKb) /\ a'.(keysChangedAt) = Some (keys_changed a)
     else a'.(wrapWrapKb) = from_hex fr.(new_key) /\ a'.(keysChangedAt) = Some now) /\
    cut_off uid (session_id fr) (kf_id fr) d3 /\ d3.(recoveryKeys) !! uid = None) as Hall.
  { intros d3 Hs3. split; [rewrite (sb_accounts _ _ _ _ _ Hs3); unfold d1; by destruct (recovery y)|].
    split; [apply (stored_opens a addr pw kB (salt fr) version now (negb (recovery y)) p wrapKb wrapped);
      [done|apply Hfr|done|by rewrite <- Hpw|done]|].
    split; [done|]. split.
    { destruct (recovery y) eqn:Hry; [split; [by rewrite <- Hr1|done]|split; [cbn; by rewrite Hr2|done]]. }
    split; [|by rewrite (sb_recovery _ _ _ _ _ Hs3)].
    eapply cut_same; [|done]. apply used_key_cut, resetAccountTokens_cut, resetAccount_cut. }
  assert (bool_decide (vid = None) = negb (hasTotpToken uid (db w))) as Hv by (unfold vid; by destruct (hasTotpToken uid (db w))).
  destruct wantsKeys.
  - destruct (give_keys_ok env (seed_key fr) uid a' wrapKb (primaryVerified a') vid d2 (session_id fr))
      as (d3 & key & -> & Hs3); [apply Hfr|apply Hfr|done..|]. destruct (Hall d3) as (?&?&?&?&?&?); [by eapply same_but_trans|].
    eexists _, _, a', kB. split; [done|]. cbn [db oauth rp_verified]. rewrite Hv. by split_and!.
  - destruct (Hall d2 Hs12) as (?&?&?&?&?&?).
    eexists _, _, a', kB. split; [done|]. cbn [db oauth rp_verified]. rewrite Hv. by split_and!.
Qed.
End ResetLaws.

(** ** Witnesses *)

#[local] Existing Instance toy_crypto.

Definition alice_addr : string := "a@x.org".

Definition alice_password : Password :=
  default toy_password (new_Password (getCredentials alice_addr "old").(cc_authPW) (key_of 5) (Some 1)).

Definition alice_row : AccountRow :=
  mkAccountRow alice_addr true true (toy 1 32) (toy 2 32) (toy 5 32) (from_hex (verifyHash alice_password)) 1 500 None None 400
    None None "c0de" "c0de" alice_addr alice_addr 400.

Definition alice_kB : string :=
  default "" (w ← unwrap alice_password (key_of 2) None; unwrapKB w (getCredentials alice_addr "old").(cc_unwrapBKey)).

Definition reset_id : string := "reset".
Definition change_id : string := "change".

Definition mallory_row : AccountRow :=
  mkAccountRow "m@x.org" true true (toy 11 32) (toy 12 32) (toy 13 32) (toy 14 32) 1 500 None None 400
    None None "dead" "dead" "m@x.org" "m@x.org" 400.

(** [mallory] has a session that passed the second factor; [alice] has TOTP. *)
Definition flow_db (with_totp : bool) : DB :=
  mkDB {["u1" := alice_row; "mallory" := mallory_row]} {[alice_addr := "u1"; "m@x.org" := "mallory"]}
    {["s1" := mkSessionRow "u1" 1599999999900 None true None; "m1" := mkSessionRow "mallory" 1599999999900 None true (Some 2)]} ∅ ∅
    {[change_id := mkTokenRow "u1" 1599999999900]} ∅ {[reset_id := mkTokenRow "u1" 1599999999900]} ∅
    (if with_totp then {["u1" := mkTotpRow "secret" true true]} else ∅) ∅ ∅ ∅ ∅.

Definition flow_world (with_totp : bool) : World :=
  mkWorld (flow_db with_totp) (OAuthStore.mkDB OAuthStore.empty_cache (OAuthStore.mkMysql ∅ ∅ ∅ ∅)).

Definition draw (n : Z) : Fresh := mkFresh (key_of n) (toy (n + 1) 32) (toy (n + 2) 32) (toy (n + 3) 32) "f00d" (key_of (n + 4)).

Lemma draw_ok n : fresh_ok (draw n).
Proof. split; [apply key_of_hex|split; [apply toy_bytes|discriminate]..|apply key_of_hex]. Qed.

Lemma alice_ok : account_ok alice_row.
Proof. split; [split; [apply toy_bytes|apply toy_length]..|]. split; [apply from_hex_bytes|]. vm_compute. reflexivity. Qed.

Lemma alice_opens : opens alice_row alice_addr "old" alice_kB.
Proof.
  exists alice_password. eexists. split; [vm_compute; reflexivity|]. split; [vm_compute; reflexivity|].
  split; vm_compute; reflexivity.
Qed.

Definition flow_env : Env := ServerLaws.sample_env 1600000000000.
Definition started : State * (Request * Verdict) :=
  client_check flow_env alice_addr "passwordChange" (request_with None) ServerLaws.empty.

Lemma password_change_keeps_keys_witness :
  exists w' r a', passwordChange flow_env String.append 0 900000 None alice_addr "old" "new" true None (draw 10) (draw 20)
      (request_with None) ServerLaws.empty (flow_world false) = (started.1, w', inl r) /\
    w'.(db).(accounts) !! "u1" = Some a' /\ opens a' alice_addr "new" alice_kB.
Proof.
  destruct (@password_change_keeps_keys _ _ toy_crypto toy_laws flow_env String.append 0 900000 None alice_addr "old" "new" true None None
    (draw 10) (draw 20) (request_with None) ServerLaws.empty started.1 started.2.1 (flow_world false) "u1" alice_row alice_kB
    false None) as (w' & r & a' & Hp & Ha & Ho & _).
  - vm_compute. reflexivity.
  - vm_compute. reflexivity.
  - exact alice_ok.
  - reflexivity.
  - vm_compute. discriminate.
  - exact alice_opens.
  - exact (draw_ok 10).
  - exact (draw_ok 20).
  - right. reflexivity.
  - lia.
  - reflexivity.
  - reflexivity.
  - vm_compute. reflexivity.
  - exists w', r, a'. split; [exact Hp|]. split; [rewrite Ha; apply lookup_insert_eq|exact Ho].
Defined.

Definition waiting_db : DB :=
  on_keyFetch <["k1" := mkKeyFetchRow "u1" [1; 2] 1599999999900]> (flow_db false).

Lemma keys_once_witness :
  keys "k1" (deleteKeyFetchToken "k1" waiting_db) = (deleteKeyFetchToken "k1" waiting_db, inr (PDB InvalidToken)).
Proof.
  destruct (keys_once "k1" waiting_db (deleteKeyFetchToken "k1" waiting_db) "0102") as [_ Hk]; [vm_compute; reflexivity|].
  exact Hk.
Defined.

Lemma change_start_skips_second_factor_witness :
  exists d1 d2 r,
    changeStart flow_env String.append alice_addr (getCredentials alice_addr "old").(cc_authPW) (draw 10) (request_with None)
      ServerLaws.empty (flow_db true) = (started.1, d1, inl r) /\
    accountKeys r.(st_keyFetchToken) (getCredentials alice_addr "old").(cc_unwrapBKey) d1 = (d2, inl (key_of 1, alice_kB)).
Proof.
  destruct (@change_start_skips_second_factor _ _ toy_crypto toy_laws flow_env String.append alice_addr "old" (draw 10)
    (request_with None) ServerLaws.empty started.1 started.2.1 (flow_db true) "u1" alice_row alice_kB)
    as (d1 & d2 & r & Hs & Hk).
  - vm_compute. reflexivity.
  - vm_compute. reflexivity.
  - vm_compute. reflexivity.
  - exact alice_ok.
  - reflexivity.
  - exact (draw_ok 10).
  - vm_compute. discriminate.
  - exact alice_opens.
  - reflexivity.
  - exists d1, d2, r. split; [exact Hs|exact Hk].
Defined.

(** What [mallory] sends: a password of her own, and her session. *)
Definition taken_over : FinishPayload :=
  mkFinish (getCredentials alice_addr "mine").(cc_authPW)
    (default "" (unwrapKB (key_of 7) (getCredentials alice_addr "mine").(cc_unwrapBKey))) (Some "m1").

Lemma change_finish_any_session_witness :
  exists w' rep, changeFinish flow_env 0 900000 None (draw 20) change_id taken_over true (flow_world true) = (w', inl (Some rep)) /\
    rep.(rp_uid) = "u1" /\ rep.(rp_verified) = true.
Proof.
  apply (@change_finish_any_session toy_crypto toy_laws flow_env 0 900000 None (draw 20) change_id taken_over true
    (flow_world true) "u1" 1599999999900 alice_row "m1" (mkSessionRow "mallory" 1599999999900 None true (Some 2)) alice_addr "mine" (key_of 7)).
  - reflexivity.
  - vm_compute. reflexivity.
  - reflexivity.
  - exact alice_ok.
  - exact (draw_ok 20).
  - right. reflexivity.
  - exact (key_of_hex 7).
  - reflexivity.
  - vm_compute. reflexivity.
  - vm_compute. reflexivity.
  - reflexivity.
  - vm_compute. reflexivity.
  - discriminate.
  - reflexivity.
  - reflexivity.
  - vm_compute. reflexivity.
Defined.

Definition new_start : ResetPayload := mkReset (getCredentials alice_addr "new").(cc_authPW) "" None true.
Definition customs_told : State := (client_reset flow_env alice_addr ServerLaws.empty).1.

Lemma account_reset_exact_witness :
  exists w' rep a' kB, reset flow_env id 900000 None (draw 50) reset_id new_start true ServerLaws.empty (flow_world false)
      = (customs_told, w', inl (Some rep)) /\ w'.(db).(accounts) !! "u1" = Some a' /\ opens a' alice_addr "new" kB /\
    rep.(rp_verified) = true.
Proof.
  destruct (@account_reset_exact _ _ toy_crypto toy_laws flow_env id 900000 None (draw 50) reset_id new_start true
    ServerLaws.empty customs_told (flow_world false) "u1" 1599999999900 alice_row alice_addr "new")
    as (w' & rep & a' & kB & Hr & Ha & Ho & _ & _ & _ & _ & Hv & _).
  - reflexivity.
  - vm_compute. reflexivity.
  - reflexivity.
  - exact alice_ok.
  - exact (draw_ok 50).
  - right. reflexivity.
  - reflexivity.
  - reflexivity.
  - vm_compute. reflexivity.
  - discriminate.
  - exists w', rep, a', kB. split; [exact Hr|]. split; [rewrite Ha; apply lookup_insert_eq|]. split; [exact Ho|exact Hv].
Defined.
