(* ===== verification/Login.v ===== *)
(** * Logging in (login of packages/fxa-auth-server/lib/routes/account.ts;
      createKeyFetchToken of routes/utils/signin.js)

    From the credentials to a session: the gate of customs and unblock codes,
    the password, whether the new session is verified and must be, and the key
    fetch token that shares the session's verification state. *)

From S2P Require Import Prelude Store Limits Text Records Server ServerLaws CustomsClient Redis Reminders SignIn.
From S2P Require Import Bytes KeyBundle AccountStore PasswordFlows.
From S2P Require Tokens.

#[local] Open Scope string_scope.
#[local] Open Scope Z_scope.

(** ** Data *)

Record LoginConfig := mkLoginConfig {
  forceGlobally : bool;
  forcedEmails : option (string -> bool);           (* [signinConfirmation.forcedEmailAddresses] *)
  allowedRecency : Z;
  skipForNewAccounts : option Z;                    (* the maximal age, when enabled *)
  alwaysSkip : list string;
  forcedPasswordChange : option (string -> bool);
  disabledClients : list string }.                  (* [oauth.disableNewConnectionsForClients] *)

(** An entry of the security history: verified, and when. *)
Record SecurityEvent := mkSecurityEvent { ev_verified : bool; ev_createdAt : Z }.

Record LoginForm := mkLoginForm {
  l_email : string; l_authPW : string; l_service : option string; l_originalLoginEmail : option string;
  l_verificationMethod : option string; l_wantsKeys : bool }.

Inductive LoginErr :=
  | LErr (e : Err) | LDisabledClientId | LDisabled | LIncorrectPassword (e : PwErr) | LTotpRequired | LThrown.

Record LoginReply := mkLoginReply {
  lr_uid : string; lr_sessionToken : string; lr_keyFetchToken : option string; lr_status : Status }.

(** [OAUTH_DISABLE_NEW_CONNECTIONS_FOR_CLIENTS.has(service)] *)
Definition client_disabled (clients : list string) (service : option string) : bool :=
  match service with Some s => bool_decide (s ∈ clients) | None => false end.

(** ** Whether a new session is verified *)

(** [checkSecurityHistory]: the time of the latest verified event, if any. *)
Definition latest_verified (events : list SecurityEvent) : option Z :=
  if existsb ev_verified events
  then Some (fold_left (fun latest ev => if ev.(ev_verified) && (ev.(ev_createdAt) >? latest) then ev.(ev_createdAt) else latest)
               events 0)
  else None.

Inductive Forced := Suspect | Global | ByEmail.

Section Policy.
Context (cfg : LoginConfig) (requestNow : Z).

Definition forceTokenVerification (suspicious : bool) (primaryEmail : string) : option Forced :=
  if suspicious then Some Suspect
  else if cfg.(forceGlobally) then Some Global
  else match cfg.(forcedEmails) with Some test => if test primaryEmail then Some ByEmail else None | None => None end.

Definition skipTokenVerification (lastVerified : option Z) (a : AccountRow) : bool :=
  (match lastVerified with Some t => requestNow - t <? cfg.(allowedRecency) | None => false end) ||
  (match cfg.(skipForNewAccounts) with Some maxAge => requestNow - a.(createdAt) <=? maxAge | None => false end) ||
  bool_decide (toLowerCase a.(primaryNormalized) ∈ cfg.(alwaysSkip)).

Definition forcePasswordChange (a : AccountRow) : bool :=
  (match cfg.(forcedPasswordChange) with Some test => test a.(primaryEmail) | None => false end) ||
  (match a.(lockedAt) with Some t => t >? 0 | None => false end).

(** What [createSessionToken] decides. *)
Record Plan := mkPlan {
  needsVerificationId : bool; mustVerifySession : bool; passwordChangeRequired : bool; planMethod : option string }.

Definition plan (suspicious didSigninUnblock wantsKeys : bool) (lastVerified : option Z) (verificationMethod : option string)
    (a : AccountRow) : Plan :=
  let forced := forceTokenVerification suspicious a.(primaryEmail) in
  let needs := match forced with Some _ => true | None => negb (skipTokenVerification lastVerified a) end in
  let needs := if didSigninUnblock then false else needs in
  let must := needs && (match forced with Some Suspect | Some Global => true | _ => false end || wantsKeys) in
  let totp := bool_decide (verificationMethod = Some "totp-2fa") in
  let '(needs, must) := if totp then (true, true) else (needs, must) in
  if forcePasswordChange a
  then mkPlan true true true (match verificationMethod with Some m => if str_truthy m then Some m else Some "email-otp"
                                                       | None => Some "email-otp" end)
  else mkPlan needs must false verificationMethod.
End Policy.

(** ** login *)

Section Login.
Context {M R : Type} `{Memcached M StoredObject} `{Redis R} `{Crypto}.
Context (env : Env) (hash_code : string -> string -> string) (unblockCodeLifetime : Z) (forced : option (string -> bool)).
Context (cfg : LoginConfig) (MAX_AGE : Z) (cadIntervals : jsobj Z).
(** [securityEvents uid ip]: [None] when the history cannot be read. *)
Context (securityEvents : string -> string -> option (list SecurityEvent)).

Abbreviation now := (env.(Server.now)).
#[local] Instance login_db : AccountDB DB := account_db hash_code.

(** [checkTotpToken]: the verification method to go on with. *)
Definition checkTotpToken (uid : string) (method : option string) (d : DB) : option string + LoginErr :=
  if hasTotpToken uid d then inl (Some "totp-2fa")
  else if bool_decide (method = Some "totp-2fa") then inr LTotpRequired else inl method.

(** signin.js: [createKeyFetchToken] *)
Definition login_keys (fr : Fresh) (uid : string) (a : AccountRow) (p : Password) (vid : option string) (d : DB)
    : option (DB * string) :=
  wrapKb ← unwrap p (to_hex a.(wrapWrapKb)) None;
  give_keys env fr.(seed_key) uid a wrapKb a.(primaryVerified) vid d.

(** From the account and its password on. *)
Definition open_session (f : LoginForm) (fr : Fresh) (suspicious unblocked : bool) (ip uid : string) (a : AccountRow)
    (p : Password) (d : DB) : DB * (LoginReply + LoginErr) :=
  let last := match securityEvents uid ip with Some evs => latest_verified evs | None => None end in
  match checkTotpToken uid f.(l_verificationMethod) d with
  | inr e => (d, inr e)
  | inl method =>
      let pl := plan cfg now suspicious unblocked f.(l_wantsKeys) last method a in
      let vid := if pl.(needsVerificationId) then Some fr.(verification) else None in
      let sid := token_id "sessionToken" fr.(seed_session) in
      let d := createSessionToken sid uid now pl.(mustVerifySession) vid d in
      let t := Tokens.new_SessionToken MAX_AGE (Tokens.mkDetails (Some uid) None (Some now) None a.(primaryVerified) None
                 pl.(mustVerifySession) vid None) in
      let status := if pl.(passwordChangeRequired) then mkStatus false pl.(planMethod) (Some "change_password")
                    else getSessionVerificationStatus t pl.(planMethod) in
      let reply key := mkLoginReply uid (to_hex fr.(seed_session)) key status in
      if f.(l_wantsKeys) then
        match login_keys fr uid a p vid d with
        | Some (d, key) => (d, inl (reply (Some key)))
        | None => (d, inr LThrown)
        end
      else (d, inl (reply None))
  end.

Definition login (f : LoginForm) (fr : Fresh) (req : Request) (s : State (M := M)) (r : R) (d : DB)
    : State (M := M) * R * DB * (LoginReply + LoginErr) :=
  if client_disabled cfg.(disabledClients) f.(l_service) then (s, r, d, inr LDisabledClientId)
  else
  match checkCustomsAndLoadAccount env unblockCodeLifetime forced f.(l_email) f.(l_originalLoginEmail) req s d with
  | (s, d, req, inr e) => (s, r, d, inr (LErr e))
  | (s, d, req, inl (acc, unblocked)) =>
      match d.(accounts) !! acc.(a_uid) with
      | None => (s, r, d, inr LThrown)
      | Some a =>
          if match a.(disabledAt) with Some t => negb (t =? 0) | None => false end then (s, r, d, inr LDisabled)
          else
            match checkEmailAddress acc f.(l_email) f.(l_originalLoginEmail) with
            | inr e => (s, r, d, inr (LErr e))
            | inl _ =>
                match new_Password f.(l_authPW) (to_hex a.(AccountStore.authSalt)) (Some a.(verifierVersion)) with
                | None => (s, r, d, inr LThrown)
                | Some p =>
                    match SignIn.checkPassword env ONES acc (verifyHash p) req.(clientAddress) s d with
                    | (s, inr e) => (s, r, d, inr (LErr e))
                    | (s, inl false) => (s, r, d, inr (LIncorrectPassword (incorrectPassword a.(AccountStore.email) f.(l_email))))
                    | (s, inl true) =>
                        let '(d, res) := open_session f fr req.(isSuspiciousRequest) unblocked req.(clientAddress) acc.(a_uid) a p d in
                        match res with
                        | inr e => (s, r, d, inr e)
                        | inl reply =>
                            let '(r, ok) := cleanupReminders cadIntervals reply.(lr_status) acc r in
                            (s, r, d, if ok then inl reply else inr LThrown)
                        end
                    end
                end
            end
      end
  end.
End Login.

(** * Laws *)

(** Which logins need no further verification: without a second factor and
    without a forced change of password, those that used an unblock code, and
    those that nothing forces to verify and that come from a known address,
    belong to a new account or to one that always skips.  A session must be
    verified before it can be used exactly when the account has a second
    factor or has to change its password, or when it is unverified and
    suspect, forced for everyone, or asks for keys. *)
Theorem login_policy_exact cfg now suspicious unblocked wantsKeys last method a :
  let pl := plan cfg now suspicious unblocked wantsKeys last method a in
  (pl.(needsVerificationId) = false <->
     method <> Some "totp-2fa" /\ forcePasswordChange cfg a = false /\
     (unblocked = true \/
      forceTokenVerification cfg suspicious a.(primaryEmail) = None /\ skipTokenVerification cfg now last a = true)) /\
  (pl.(mustVerifySession) = true <->
     method = Some "totp-2fa" \/ forcePasswordChange cfg a = true \/
     pl.(needsVerificationId) = true /\ (suspicious = true \/ cfg.(forceGlobally) = true \/ wantsKeys = true)).
Proof.
  unfold plan. case_bool_decide as Hm.
  - destruct (forcePasswordChange cfg a); cbn; naive_solver.
  - unfold forceTokenVerification. destruct (forcePasswordChange cfg a); cbn; [naive_solver|].
    destruct suspicious, (forceGlobally cfg), (forcedEmails cfg) as [test|]; try destruct (test _);
      destruct unblocked, (skipTokenVerification cfg now last a), wantsKeys; cbn; naive_solver.
Qed.

Section LoginLaws.
Context `{CryptoLaws} (env : Env) (cfg : LoginConfig) (MAX_AGE : Z).
Context (securityEvents : string -> string -> option (list SecurityEvent)).
Abbreviation now := (env.(Server.now)).

Lemma create_key_fetch_seed seed uid kA wrapKb verified vid t :
  create_key_fetch_token seed uid kA wrapKb verified vid = Some t ->
  t.(kf_keys) = deriveTokenKeys keyFetchToken seed /\ t.(kf_uid) = uid /\
  t.(kf_tokenVerificationId) = (v ← vid; if str_truthy v then Some v else None).
Proof.
  unfold create_key_fetch_token. destruct (bundleKeys _ _ _); [|done]. cbn. intros [= <-]. cbn. split_and!; [done..|].
  by destruct vid.
Qed.

Lemma open_session_spec f fr susp unbl ip uid a p d d' reply :
  open_session env cfg MAX_AGE securityEvents f fr susp unbl ip uid a p d = (d', inl reply) -> f.(l_wantsKeys) = true ->
  exists method pl t w,
    checkTotpToken uid f.(l_verificationMethod) d = inl method /\
    pl = plan cfg now susp unbl true (match securityEvents uid ip with Some evs => latest_verified evs | None => None end) method a /\
    unwrap p (to_hex a.(wrapWrapKb)) None = Some w /\
    let vid := if pl.(needsVerificationId) then Some fr.(verification) else None in
    create_key_fetch_token fr.(seed_key) uid (to_hex a.(kA)) w a.(primaryVerified) vid = Some t /\
    d' = createKeyFetchToken now t (createSessionToken (session_id fr) uid now pl.(mustVerifySession) vid d) /\
    reply.(lr_keyFetchToken) = Some (to_hex fr.(seed_key)).
Proof.
  intros Ho Hk. unfold open_session in Ho. destruct (checkTotpToken uid _ d) as [method|] eqn:Hm; [|done]. cbv zeta in Ho.
  rewrite Hk in Ho. fold (session_id fr) in Ho. set (pl := plan _ _ _ _ _ _ _ _) in *.
  unfold login_keys in Ho. destruct (unwrap p _ None) as [w|] eqn:Hw; [|done]. cbn [mbind option_bind] in Ho.
  unfold give_keys in Ho. destruct (create_key_fetch_token _ _ _ _ _ _) as [t|] eqn:Ht; [|done].
  cbn [mbind option_bind] in Ho. injection Ho as <- <-. exists method, pl, t, w. split_and!; try done.
  cbn. by destruct (create_key_fetch_seed _ _ _ _ _ _ _ Ht) as (-> & _).
Qed.

(** The keys of a login and the verification of its session. *)
Lemma login_keys_spec f fr susp unbl ip uid a p d d' reply w unwrapB kB :
  open_session env cfg MAX_AGE securityEvents f fr susp unbl ip uid a p d = (d', inl reply) -> f.(l_wantsKeys) = true ->
  d.(accounts) !! uid = Some a -> account_ok a -> a.(primaryVerified) = true -> fresh_ok fr ->
  str_truthy fr.(verification) = true -> kf_id fr <> session_id fr ->
  d.(unverifiedTokens) !! kf_id fr = None -> d.(unverifiedTokens) !! session_id fr = None ->
  unwrap p (to_hex a.(wrapWrapKb)) None = Some w -> unwrapKB w unwrapB = Some kB ->
  exists key, reply.(lr_keyFetchToken) = Some key /\
  (hasTotpToken uid d = true -> d'.(unverifiedTokens) !! session_id fr <> None) /\
  (d'.(unverifiedTokens) !! session_id fr = None -> exists d1, accountKeys key unwrapB d' = (d1, inl (to_hex a.(kA), kB))) /\
  (d'.(unverifiedTokens) !! session_id fr <> None ->
     keys (kf_id fr) d' = (d', inr PUnverifiedAccount) /\
     forall m d2, verifyTokensWithMethod (session_id fr) m d' = inl d2 ->
       exists d3, accountKeys key unwrapB d2 = (d3, inl (to_hex a.(kA), kB))).
Proof.
  intros Ho Hk Ha Hok Hver Hfr Hv Hdiff Hnk Hns Hw HkB.
  destruct (open_session_spec _ _ _ _ _ _ _ _ _ _ _ Ho Hk) as (method & pl & t & w' & Hm & Hpl & Hw' & Ht & Hd' & Hkey).
  assert (w' = w) as -> by congruence. exists (to_hex (seed_key fr)). split; [done|].
  assert (hex_of 32 w) as Hhw.
  { destruct (unwrap_spec p (to_hex (wrapWrapKb a)) None) as (w2 & Hw2 & Hh & _); [apply bytes_hex_of; apply Hok|]. congruence. }
  destruct (create_key_fetch_seed _ _ _ _ _ _ _ Ht) as (Hkeys & Huid & Hvid).
  set (vid := if needsVerificationId pl then _ else _) in *.
  assert (d'.(unverifiedTokens) !! session_id fr = (fun v => (v, uid)) <$> vid /\
          d'.(unverifiedTokens) !! kf_id fr = (fun v => (v, uid)) <$> vid /\
          d'.(accounts) = d.(accounts) /\ exists r, d'.(sessionTokens) !! session_id fr = Some r /\ r.(s_uid) = uid)
    as (Hs & Hf & Hacc & r & Hr & Hru).
  { rewrite Hd'. unfold createKeyFetchToken. rewrite Hkeys, Huid, Hvid. fold (token_id keyFetchToken (seed_key fr)). fold (kf_id fr).
    unfold createSessionToken, add_unverified, vid. destruct (needsVerificationId pl); cbn.
    - rewrite Hv. cbn. rewrite lookup_insert_ne, !lookup_insert_eq by done. split_and!; [done..|].
      by eexists.
    - split_and!; [exact Hns|exact Hnk|done|]. eexists. split; [apply lookup_insert_eq|done]. }
  assert (forall d1, d1.(keyFetchTokens) = d'.(keyFetchTokens) -> d1.(accounts) = d'.(accounts) ->
    d1.(unverifiedTokens) !! kf_id fr = None ->
    exists d2, accountKeys (to_hex (seed_key fr)) unwrapB d1 = (d2, inl (to_hex (kA a), kB))) as Hopen.
  { intros d1 Hk1 Ha1 Hu1. eexists.
    apply (accountKeys_any env fr uid (to_hex (kA a)) w (primaryVerified a) vid t d1
      (createSessionToken (session_id fr) uid now (mustVerifySession pl) vid d) a);
      [done|done|apply bytes_hex_of; apply Hok|done|done|by rewrite Hk1, Hd'|done|by rewrite Ha1, Hacc|done]. }
  split_and!.
  - intros Htotp. rewrite Hs. unfold vid. unfold checkTotpToken in Hm. rewrite Htotp in Hm. injection Hm as <-.
    subst pl. unfold plan. rewrite bool_decide_eq_true_2 by done. by destruct (forcePasswordChange cfg a).
  - intros Hnone. apply Hopen; [done..|]. rewrite Hf. rewrite Hs in Hnone. by destruct vid.
  - rewrite Hs. destruct vid as [v|]; [|done]. intros _. split.
    + unfold keys, keyFetchTokenWithVerificationStatus. rewrite Hf. rewrite Hd' at 1. unfold createKeyFetchToken.
      rewrite Hkeys. fold (token_id keyFetchToken (seed_key fr)). fold (kf_id fr).
      assert (forall d0 x, (add_unverified (kf_id fr) (kf_uid t) (kf_tokenVerificationId t) (on_keyFetch <[kf_id fr := x]> d0)).(keyFetchTokens)
        !! kf_id fr = Some x) as Hx by (intros d0 x; destruct (kf_tokenVerificationId t); cbn; by rewrite lookup_insert_eq).
      rewrite Hx. cbn [f_uid]. by rewrite Huid, Hacc, Ha, andb_false_l.
    + intros m d2. unfold verifyTokensWithMethod. rewrite Hr. cbv zeta.
      match goal with |- context [unverifiedTokens (on_sessions ?g d')] =>
        change (unverifiedTokens (on_sessions g d')) with (unverifiedTokens d') end.
      rewrite Hs, Hru. cbn [fmap option_fmap option_map]. intros [= <-].
      apply Hopen; [done..|]. apply map_lookup_filter_None. right. intros x.
      change (unverifiedTokens d' !! kf_id fr = Some x -> ~ x <> (v, uid)). rewrite Hf. intros [= <-]. by intros Hne.
Qed.

(** [C8] The keys that a login asks for follow its session: as long as the session
    is unverified, which it always is for an account with a second factor,
    the key fetch token gives nothing; once the session is verified by any
    method, or if it was verified from the start, the client gets [kA] and
    the [kB] that its password unwraps. *)
Theorem login_keys_follow_session f fr susp unbl ip uid a p d d' reply w unwrapB kB :
  open_session env cfg MAX_AGE securityEvents f fr susp unbl ip uid a p d = (d', inl reply) -> f.(l_wantsKeys) = true ->
  d.(accounts) !! uid = Some a -> account_ok a -> a.(primaryVerified) = true -> fresh_ok fr ->
  str_truthy fr.(verification) = true -> kf_id fr <> session_id fr ->
  d.(unverifiedTokens) !! kf_id fr = None -> d.(unverifiedTokens) !! session_id fr = None ->
  unwrap p (to_hex a.(wrapWrapKb)) None = Some w -> unwrapKB w unwrapB = Some kB ->
  exists key, reply.(lr_keyFetchToken) = Some key /\
  (hasTotpToken uid d = true -> d'.(unverifiedTokens) !! session_id fr <> None) /\
  (d'.(unverifiedTokens) !! session_id fr = None -> exists d1, accountKeys key unwrapB d' = (d1, inl (to_hex a.(kA), kB))) /\
  (d'.(unverifiedTokens) !! session_id fr <> None ->
     keys (kf_id fr) d' = (d', inr PUnverifiedAccount) /\
     forall m d2, verifyTokensWithMethod (session_id fr) m d' = inl d2 ->
       exists d3, accountKeys key unwrapB d2 = (d3, inl (to_hex a.(kA), kB))).
Proof. apply login_keys_spec. Qed.
End LoginLaws.

(** [C25] A session is opened only with the password of an account that is not
    disabled, under its primary address, after the gate of customs and
    unblock codes, and for a service that may still connect; accounts that
    must be reset get none. *)
Theorem login_needs_password {M R} `{Memcached M StoredObject} `{Redis R} `{CryptoLaws} env hash_code life forced cfg MAX_AGE cad
    events f fr req (s s' : State (M := M)) (r r' : R) d d' reply :
  login env hash_code life forced cfg MAX_AGE cad events f fr req s r d = (s', r', d', inl reply) ->
  client_disabled cfg.(disabledClients) f.(l_service) = false /\
  exists s1 d1 req1 acc unblocked a p,
    checkCustomsAndLoadAccount (H0 := account_db hash_code) env life forced f.(l_email) f.(l_originalLoginEmail) req s d =
      (s1, d1, req1, inl (acc, unblocked)) /\
    d1.(accounts) !! acc.(a_uid) = Some a /\ or0 a.(disabledAt) = 0 /\
    emailsMatch (default f.(l_email) (when_truthy f.(l_originalLoginEmail) id)) acc.(normalizedPrimary) = true /\
    acc.(SignIn.authSalt) <> ONES /\
    new_Password f.(l_authPW) (to_hex a.(AccountStore.authSalt)) (Some a.(verifierVersion)) = Some p /\
    a.(a_verifyHash) = from_hex (verifyHash p) /\ reply.(lr_uid) = acc.(a_uid).
Proof.
  unfold login. destruct (client_disabled _ _) eqn:Hcl; [done|].
  destruct (checkCustomsAndLoadAccount _ _ _ _ _ _ _ _) as [[[s1 d1] req1] [[acc unblocked]|e]] eqn:Hg; [|done].
  destruct (accounts d1 !! a_uid acc) as [a|] eqn:Ha; [|done].
  destruct (match disabledAt a with Some t => _ | None => _ end) eqn:Hd; [done|].
  unfold checkEmailAddress. destruct (emailsMatch _ _) eqn:He; [|done].
  destruct (new_Password _ _ _) as [p|] eqn:Hp; [|done].
  unfold SignIn.checkPassword. destruct (String.eqb_spec (SignIn.authSalt acc) ONES) as [|Hs].
  { by destruct (client_flag _ _ _ _ _). }
  cbn [db_checkPassword login_db account_db]. destruct (checkPassword (a_uid acc) (verifyHash p) d1) eqn:Hc.
  2:{ destruct (client_flag _ _ _ _ _) as [s2 []]; done. }
  unfold checkPassword in Hc. rewrite Ha in Hc. apply bool_decide_eq_true in Hc.
  destruct (open_session _ _ _ _ _ _ _ _ _ _ _ _ _) as [d2 [rep|]] eqn:Ho; [|done].
  destruct (cleanupReminders _ _ _ _) as [r2 []]; [|done]. intros [= <- <- <- <-].
  split; [done|]. exists s1, d1, req1, acc, unblocked, a, p. split_and!; try done.
  - unfold or0. destruct (disabledAt a) as [[]|]; done.
  - unfold open_session in Ho. destruct (checkTotpToken _ _ _); [|done]. cbv zeta in Ho.
    destruct (l_wantsKeys f); [|by injection Ho as <- <-]. destruct (login_keys _ _ _ _ _ _ _) as [[d3 k]|]; [|done].
    by injection Ho as <- <-.
Qed.

(** ** Witnesses *)

#[local] Existing Instance toy_crypto.

Definition quiet_config : LoginConfig := mkLoginConfig false None 0 None [] None [].

Definition login_form : LoginForm :=
  mkLoginForm alice_addr (getCredentials alice_addr "old").(cc_authPW) None None None true.

Definition logged_in := open_session flow_env quiet_config 0 (fun _ _ => None) login_form (draw 60) false false "1.2.3.4" "u1"
  alice_row alice_password (flow_db true).

Definition login_wrapKb : string := default "" (unwrap alice_password (key_of 2) None).

Lemma login_keys_follow_session_witness :
  keys (kf_id (draw 60)) logged_in.1 = (logged_in.1, inr PUnverifiedAccount).
Proof.
  destruct (@login_keys_follow_session toy_crypto toy_laws flow_env quiet_config 0 (fun _ _ => None) login_form (draw 60) false
    false "1.2.3.4" "u1" alice_row alice_password (flow_db true) logged_in.1
    (mkLoginReply "u1" (to_hex (seed_session (draw 60))) (Some (to_hex (seed_key (draw 60))))
       (mkStatus false (Some "totp-2fa") (Some "login"))) login_wrapKb (getCredentials alice_addr "old").(cc_unwrapBKey) alice_kB)
    as (key & _ & Htotp & _ & Hk).
  - vm_compute. reflexivity.
  - reflexivity.
  - reflexivity.
  - exact alice_ok.
  - reflexivity.
  - exact (draw_ok 60).
  - reflexivity.
  - vm_compute. discriminate.
  - reflexivity.
  - reflexivity.
  - vm_compute. reflexivity.
  - vm_compute. reflexivity.
  - refine (proj1 (Hk _)). apply Htotp. reflexivity.
Defined.

Definition full_login := login (R := Redis.Server) flow_env String.append 3600000 None quiet_config 0 [] (fun _ _ => None) login_form
  (draw 60) (request_with None) ServerLaws.empty (Redis.mkServer ∅ ∅) (flow_db true).

Definition login_reply : LoginReply :=
  mkLoginReply "u1" (to_hex (seed_session (draw 60))) (Some (to_hex (seed_key (draw 60))))
    (mkStatus false (Some "totp-2fa") (Some "login")).

Lemma login_needs_password_witness :
  exists acc a p, acc.(a_uid) = "u1" /\ acc.(SignIn.authSalt) <> ONES /\
    new_Password login_form.(l_authPW) (to_hex a.(AccountStore.authSalt)) (Some a.(verifierVersion)) = Some p /\
    a.(a_verifyHash) = from_hex (verifyHash p).
Proof.
  destruct (@login_needs_password _ _ _ _ toy_crypto toy_laws flow_env String.append 3600000 None quiet_config 0 []
    (fun _ _ => None) login_form (draw 60) (request_with None) ServerLaws.empty full_login.1.1.1 (Redis.mkServer ∅ ∅)
    full_login.1.1.2 (flow_db true) full_login.1.2 login_reply)
    as (_ & s1 & d1 & req1 & acc & unb & a & p & _ & _ & _ & _ & Hs & Hp & Hh & Hu).
  - vm_compute. reflexivity.
  - exists acc, a, p. split; [symmetry; exact Hu|]. split; [exact Hs|]. split; [exact Hp|exact Hh].
Defined.
