(* ===== verification/LoginLock.v ===== *)
(** * Wrong passwords lock the login

    What wrong passwords do to later logins, end to end: the login of the auth
    server, its customs client, the customs server and the record store.  The
    histories hold logins, each against whatever the account database and
    redis hold at that moment, and any other traffic of the customs server. *)

From S2P Require Import Prelude Window Store Actions Limits Text Records UserRules Server ServerLaws Recovery Guessing CustomsClient Redis Reminders SignIn.
From S2P Require Import Bytes KeyBundle AccountStore PasswordFlows Login.
From S2P Require IpEmailRecord EmailRecord.

#[local] Open Scope string_scope.
#[local] Open Scope Z_scope.

(** ** The customs traffic of a login *)

(** What a login may ask or tell the customs server. *)
Definition login_check (f : LoginForm) (req : Request) : CustomsRequest :=
  QCheck (mkCheck (Some f.(l_email)) (Some req.(clientAddress)) (Some "accountLogin") req.(userAgent) req.(payload)).

Definition login_asks (f : LoginForm) (req : Request) (d : DB) (q : CustomsRequest) : Prop :=
  q = login_check f req \/
  exists addr errno, q = QFailedLogin (Some addr) (Some req.(clientAddress)) errno /\
    (addr = f.(l_email) \/ exists uid a, d.(accounts) !! uid = Some a /\ addr = a.(AccountStore.email)).

Section Requests.
Context {M R : Type} `{Memcached M StoredObject} `{Redis R} `{Crypto}.
Implicit Types (s : State (M := M)) (h : list (Env * CustomsRequest)).

Lemma handle_all_app h1 h2 s : handle_all (h1 ++ h2) s = handle_all h1 (handle_all h2 s).
Proof. induction h1 as [|[env q] h1 IH]; [done|]. cbn. by rewrite IH. Qed.

Lemma chronological_app t t' h1 h2 :
  Forall (fun eq => eq.1.(Server.now) = t') h1 -> t' <= t -> chronological t' h2 -> chronological t (h1 ++ h2).
Proof.
  intros Hf. revert t. induction Hf as [|[env q] h1 Hn Hf IH]; intros t Ht Hc; cbn.
  - destruct h2 as [|[env q] h2]; [done|]. destruct Hc as [? Hc]. split; [lia|done].
  - cbn in Hn. split; [lia|]. apply IH; [lia|done].
Qed.

Lemma failures_app ip email h1 h2 : failures ip email (h1 ++ h2) = failures ip email h1 + failures ip email h2.
Proof. apply countb_app. Qed.

Context (hash_code : string -> string -> string) (life : Z) (forced : option (string -> bool)).
#[local] Instance lock_db : AccountDB DB := account_db hash_code.

Lemma client_check_handle env email action req s :
  (client_check env email action req s).1 =
    handle env (QCheck (mkCheck (Some email) (Some req.(clientAddress)) (Some action) req.(userAgent) req.(payload))) s /\
  (client_check env email action req s).2.1.(clientAddress) = req.(clientAddress).
Proof.
  unfold client_check. cbn [handle]. destruct (Server.check _ _ s) as [s' r]. split; [done|]. cbn.
  unfold handle_reply. destruct (of_reply r) as [x|]; [|done]. unfold handleCustomsResult.
  by destruct (default false (suspect x)), (block x).
Qed.

Lemma client_flag_handle env ip email errno s :
  (client_flag env ip email errno s).1 = handle env (QFailedLogin (Some email) (Some ip) (Some (num_or errno 999))) s.
Proof. unfold client_flag. cbn [handle]. by destruct (Server.failedLoginAttempt _ _ _ _ s). Qed.

(** The gate: perhaps a check, perhaps a failure under the address given. *)
Definition gate_history (env : Env) (f : LoginForm) (req : Request) h : Prop :=
  Forall (fun eq => eq.1 = env /\ (eq.2 = login_check f req \/ exists errno, eq.2 = QFailedLogin (Some f.(l_email)) (Some req.(clientAddress)) errno)) h.

Lemma gate_requests env f req s d s' d' req' r :
  checkCustomsAndLoadAccount env life forced f.(l_email) f.(l_originalLoginEmail) req s d = (s', d', req', r) ->
  req'.(clientAddress) = req.(clientAddress) /\ d'.(accounts) = d.(accounts) /\
  exists h, s' = handle_all h s /\ gate_history env f req h.
Proof.
  unfold checkCustomsAndLoadAccount. destruct (customs_check _ _ _ _ _) as [s1 [req1 e1]] eqn:Hc.
  assert (req1.(clientAddress) = req.(clientAddress) /\ exists h, s1 = handle_all h s /\ gate_history env f req h) as (Hreq & h & Hs1 & Hh).
  { destruct (client_check_handle env f.(l_email) "accountLogin" req s) as [Hh Ha].
    assert (exists h, handle env (login_check f req) s = handle_all h s /\ gate_history env f req h) as (h & Hh1 & Hh2).
    { exists [(env, login_check f req)]. split; [done|]. constructor; [|constructor]. split; [done|by left]. }
    unfold customs_check in Hc. destruct (client_check env f.(l_email) "accountLogin" req s) as [s2 [req2 v]]. cbn [fst snd] in Hh, Ha.
    assert ((s2, (req2, match v with Pass => None | _ => Some (ECustoms v) end)) = (s1, (req1, e1)) ->
      req1.(clientAddress) = req.(clientAddress) /\ exists h, s1 = handle_all h s /\ gate_history env f req h) as Hcl.
    { intros [= <- <- _]. split; [done|]. exists h. split; [|done]. by rewrite Hh, <- Hh1. }
    destruct forced as [test|]; [destruct (test _)|]; try (by apply Hcl). injection Hc as <- <- _. split; [done|]. exists []. split; [done|constructor]. }
  destruct (after_customs _ _ _ _ _ _) as [[d2 req2] r2] eqn:Ha.
  assert (req2.(clientAddress) = req.(clientAddress) /\ d2.(accounts) = d.(accounts)) as [Hreq2 Hd2].
  { rewrite <- Hreq. clear -Ha. unfold after_customs, use_unblock_code in Ha. cbn [SignIn.consumeUnblockCode lock_db account_db] in Ha.
    unfold consumeUnblockCode in Ha. repeat (case_match; simplify_eq/=); done. }
  destruct (match r2 with inl acc => _ | inr e => _ end) as [x|e]; intros [= <- <- <- _]; (split_and!; [done|done|]).
  - by exists h.
  - destruct (flagged e); [|by exists h]. rewrite client_flag_handle, Hreq2. eexists ((env, _) :: h). split; [by rewrite Hs1|].
    constructor; [|done]. split; [done|]. right. by eexists.
Qed.

Lemma gate_account env f req s d s' d' req' acc unb :
  checkCustomsAndLoadAccount env life forced f.(l_email) f.(l_originalLoginEmail) req s d = (s', d', req', inl (acc, unb)) ->
  exists uid a, d.(accounts) !! uid = Some a /\ acc.(a_email) = a.(AccountStore.email).
Proof.
  intros Hg. unfold checkCustomsAndLoadAccount in Hg. destruct (customs_check _ _ _ _ _) as [s1 [req1 e1]].
  destruct (after_customs _ _ _ _ _ _) as [[d2 req2] r2] eqn:Ha. unfold after_customs, use_unblock_code in Ha.
  cbn [SignIn.consumeUnblockCode SignIn.accountRecord lock_db account_db] in *. unfold consumeUnblockCode, load_account in *.
  repeat (case_match; simplify_eq/=);
    match goal with E : accountRecord _ _ = Some (?uid, ?a) |- _ => apply accountRecord_account in E; by exists uid, a end.
Qed.

(** Checking a password: a failure under the address of the account unless the
    password is right. *)
Lemma password_requests env acc hash ip s d s' r :
  SignIn.checkPassword env ONES acc hash ip s d = (s', r) ->
  exists h, s' = handle_all h s /\
    Forall (fun eq => eq.1 = env /\ exists errno, eq.2 = QFailedLogin (Some acc.(a_email)) (Some ip) errno) h /\
    (r = inl false -> h <> []).
Proof.
  unfold SignIn.checkPassword.
  assert (forall n, exists h, (client_flag env ip acc.(a_email) n s).1 = handle_all h s /\
    Forall (fun eq => eq.1 = env /\ exists errno, eq.2 = QFailedLogin (Some acc.(a_email)) (Some ip) errno) h /\ h <> []) as Hflag.
  { intros n. rewrite client_flag_handle. eexists [(env, _)]. split; [done|]. split; [|done]. constructor; [|constructor]. split; [done|by eexists]. }
  destruct (String.eqb _ _).
  - destruct (Hflag (Some ACCOUNT_RESET)) as (h & Hh & Hf & _). destruct (client_flag _ _ _ _ _) as [s1 ok]. intros [= <- <-]. by exists h.
  - destruct (db_checkPassword _ _ _) as [[]|e]; [intros [= <- <-]; by exists []| |intros [= <- <-]; by exists []].
    destruct (Hflag (Some INCORRECT_PASSWORD)) as (h & Hh & Hf & Hne). destruct (client_flag _ _ _ _ _) as [s1 ok]. intros [= <- <-].
    by exists h.
Qed.
End Requests.

(** ** Histories of logins *)

Section Lock.
Context {M R : Type} `{MemcachedLaws M StoredObject} `{Redis R} `{Crypto}.
Context (hash_code : string -> string -> string) (life : Z) (forced : option (string -> bool)).
Context (cfg : LoginConfig) (MAX_AGE : Z) (cadIntervals : jsobj Z).
Context (securityEvents : string -> string -> option (list SecurityEvent)).
Implicit Types (s : State (M := M)).
#[local] Existing Instance lock_db.

Abbreviation run_login env := (login (M := M) (R := R) env hash_code life forced cfg MAX_AGE cadIntervals securityEvents).
Abbreviation run_gate env := (checkCustomsAndLoadAccount (M := M) (H0 := account_db hash_code) env life forced).

(** A login, with what redis and the account database hold at that moment, or
    another request to the customs server. *)
Inductive Event :=
  | ELogin (env : Env) (f : LoginForm) (fr : Fresh) (req : Request) (r : R) (d : DB)
  | ETraffic (env : Env) (q : CustomsRequest).

Definition event_env (e : Event) : Env := match e with ELogin env _ _ _ _ _ | ETraffic env _ => env end.

Definition happens (e : Event) s : State (M := M) :=
  match e with
  | ELogin env f fr req r d => (run_login env f fr req s r d).1.1.1
  | ETraffic env q => handle env q s
  end.

(** The customs server after a history, the latest event first. *)
Fixpoint happen_all (h : list Event) s : State (M := M) :=
  match h with [] => s | e :: h => happens e (happen_all h s) end.

(** The event is a login from [ip] that the server answers with an incorrect
    password, for an account under [email]. *)
Definition wrong_password (ip email : string) (e : Event) s : bool :=
  match e with
  | ELogin env f fr req r d =>
      bool_decide (req.(clientAddress) = ip) &&
      match (run_login env f fr req s r d).2 with inr (LIncorrectPassword _) => true | _ => false end &&
      match (run_gate env f.(l_email) f.(l_originalLoginEmail) req s d).2 with
      | inl (acc, _) => str_truthy acc.(a_email) && bool_decide (normalizedEmail acc.(a_email) = email)
      | inr _ => false
      end
  | ETraffic _ _ => false
  end.

Fixpoint wrong_passwords (ip email : string) (h : list Event) s : Z :=
  match h with
  | [] => 0
  | e :: h => wrong_passwords ip email h s + if wrong_password ip email e (happen_all h s) then 1 else 0
  end.

(** The events came one after the other, the last one by [t]. *)
Fixpoint in_order (t : Z) (h : list Event) : Prop :=
  match h with [] => True | e :: h => (event_env e).(Server.now) <= t /\ in_order (event_env e).(Server.now) h end.

(** What [kept] asks of every request that the event may make. *)
Definition event_kept (lim : Limits.t) (t1 : Z) (ip email : string) (e : Event) : Prop :=
  match e with
  | ELogin env f fr req r d => forall q, login_asks f req d q -> kept lim t1 ip email (env, q)
  | ETraffic env q => kept lim t1 ip email (env, q)
  end.

Lemma login_requests env f fr req s r d :
  exists h, (run_login env f fr req s r d).1.1.1 = handle_all h s /\
    Forall (fun eq => eq.1 = env /\ login_asks f req d eq.2) h /\
    forall ip email, wrong_password ip email (ELogin env f fr req r d) s = true -> 1 <= failures ip email h.
Proof.
  unfold wrong_password, login, login_db. destruct (client_disabled _ _).
  { exists []. split; [done|]. split; [constructor|]. intros ip email. by rewrite andb_false_r. }
  destruct (run_gate env f.(l_email) f.(l_originalLoginEmail) req s d) as [[[s1 d1] req1] r1] eqn:Hg.
  destruct (gate_requests hash_code life forced env f req s d s1 d1 req1 r1 Hg) as (Hreq & Hd & h & Hs1 & Hh).
  assert (Forall (fun eq => eq.1 = env /\ login_asks f req d eq.2) h) as Hasks.
  { eapply Forall_impl; [exact Hh|]. intros [e q] [-> [->|[n ->]]]; (split; [done|]); [by left|]. right. exists f.(l_email), n. auto. }
  destruct r1 as [[acc unb]|e]; [|exists h; split; [done|]; split; [done|]; intros ip email; by rewrite andb_false_r].
  destruct (gate_account hash_code life forced env f req s d s1 d1 req1 acc unb Hg) as (uid & a & Ha & He).
  assert (forall res, (forall e, res <> inr (LIncorrectPassword e)) -> exists h',
    s1 = handle_all h' s /\ Forall (fun eq => eq.1 = env /\ login_asks f req d eq.2) h' /\
    forall ip email, bool_decide (clientAddress req = ip) && match (res : LoginReply + LoginErr) with inr (LIncorrectPassword _) => true | _ => false end &&
      (str_truthy acc.(a_email) && bool_decide (normalizedEmail acc.(a_email) = email)) = true -> 1 <= failures ip email h') as Hother.
  { intros res Hres. exists h. split; [done|]. split; [done|]. intros ip email.
    destruct res as [x|[]]; rewrite ?andb_false_r; try done. by destruct (Hres e). }
  destruct (accounts d1 !! a_uid acc) as [a1|]; [|by apply Hother]. destruct (match disabledAt a1 with Some _ => _ | None => _ end); [by apply Hother|].
  destruct (checkEmailAddress _ _ _); [|by apply Hother]. destruct (new_Password _ _ _) as [p|]; [|by apply Hother].
  destruct (SignIn.checkPassword _ _ _ _ _ _ _) as [s2 r2] eqn:Hp.
  destruct (password_requests hash_code env acc _ _ s1 d1 s2 r2 Hp) as (h2 & Hs2 & Hh2 & Hne). rewrite Hreq in Hh2.
  assert (exists h', s2 = handle_all h' s /\ Forall (fun eq => eq.1 = env /\ login_asks f req d eq.2) h' /\
    (r2 = inl false -> forall ip email, clientAddress req = ip -> str_truthy (a_email acc) = true -> normalizedEmail (a_email acc) = email ->
       1 <= failures ip email h')) as (h' & Hs' & Hf' & Hw').
  { exists (h2 ++ h)%list. split; [by rewrite handle_all_app, <- Hs1, <- Hs2|]. split.
    - apply Forall_app. split; [|done]. eapply Forall_impl; [exact Hh2|]. intros [e q] [-> [n ->]]. split; [done|]. right.
      exists (a_email acc), n. split; [done|]. right. by exists uid, a.
    - intros Hr ip email Hip Htr Hem. specialize (Hne Hr). rewrite failures_app. destruct h2 as [|[e q] h2]; [done|].
      apply Forall_cons in Hh2 as [[_ [n Hq]] _]. cbn [snd] in Hq. subst q. rewrite failures_cons. cbn [fails_login].
      rewrite Htr, bool_decide_eq_true_2 by done. unfold failures. cbn [andb].
      pose proof (countb_nonneg (fun eq : Env * CustomsRequest => fails_login ip email eq.2) h2).
      pose proof (countb_nonneg (fun eq : Env * CustomsRequest => fails_login ip email eq.2) h). lia. }
  exists h'. destruct r2 as [[]|e]; cbn [fst snd].
  - destruct (open_session _ _ _ _ _ _ _ _ _ _ _ _ _) as [d3 [reply|e3]] eqn:Ho.
    + destruct (cleanupReminders _ _ _ _) as [r3 ok]. split; [done|]. split; [done|]. intros ip email.
      destruct ok; by rewrite ?andb_false_r.
    + split; [done|]. split; [done|]. intros ip email.
      assert (forall e, e3 <> LIncorrectPassword e) as Hn.
      { intros e ->. unfold open_session, checkTotpToken in Ho. repeat (case_match; simplify_eq/=). }
      destruct e3; rewrite ?andb_false_r; try done. by destruct (Hn e).
  - split; [done|]. split; [done|]. intros ip email Hw. rewrite andb_true_r in Hw.
    apply andb_true_iff in Hw as [Hip [Htr Hem]%andb_true_iff]. apply bool_decide_eq_true in Hip, Hem. by apply Hw'.
  - split; [done|]. split; [done|]. intros ip email. by rewrite ?andb_false_r.
Qed.

(** Every history of events is one of customs requests. *)
Lemma events_history lim t1 ip email h s t :
  Forall (event_kept lim t1 ip email) h -> in_order t h ->
  exists hs, happen_all h s = handle_all hs s /\ Forall (kept lim t1 ip email) hs /\ chronological t hs /\
    wrong_passwords ip email h s <= failures ip email hs.
Proof.
  revert t. induction h as [|e h IH]; intros t Hk Ho.
  { exists []. split; [done|]. split; [constructor|]. split; [done|]. cbn. reflexivity. }
  apply Forall_cons in Hk as [Hk1 Hk]. destruct Ho as [Ht Ho]. destruct (IH _ Hk Ho) as (hs & Hs & Hkept & Hc & Hn).
  cbn [happen_all wrong_passwords]. rewrite Hs.
  assert (exists h1, happens e (handle_all hs s) = handle_all h1 (handle_all hs s) /\ Forall (kept lim t1 ip email) h1 /\
    Forall (fun eq => eq.1.(Server.now) = (event_env e).(Server.now)) h1 /\
    (if wrong_password ip email e (handle_all hs s) then 1 else 0) <= failures ip email h1) as (h1 & Hh1 & Hk' & Henv & Hf).
  { destruct e as [env f fr req r d|env q]; cbn [event_env event_kept] in *.
    - destruct (login_requests env f fr req (handle_all hs s) r d) as (h1 & E & Hasks & Hw). exists h1. split; [exact E|].
      split_and!; [eapply Forall_impl; [exact Hasks|]; intros [e q]; cbn [fst snd]; intros [-> Hq]; by apply Hk1|
                   eapply Forall_impl; [exact Hasks|]; intros [e q]; cbn [fst snd]; by intros [-> _]|].
      destruct (wrong_password ip email _ _) eqn:E2; [by apply Hw|].
      unfold failures. apply countb_nonneg.
    - exists [(env, q)]. split; [done|]. split; [by apply Forall_singleton|]. split; [by apply Forall_singleton|]. apply countb_nonneg. }
  exists (h1 ++ hs)%list. rewrite handle_all_app, <- Hh1. split; [done|]. split; [by apply Forall_app|].
  split; [by eapply chronological_app|]. rewrite failures_app. lia.
Qed.

(** [C7] Wrong passwords lock the login, end to end through the auth server,
    the customs client, the customs server and its store.  Take any history
    of logins and other customs traffic from [t1] on, without a password
    reset of the e-mail.  Once more than [maxBadLogins] logins from the
    address were answered with an incorrect password for accounts under the
    e-mail, every login with this e-mail from there before
    [t1 + rateLimitIntervalMs], without an unblock code and not allowlisted,
    is refused by the gate, whatever redis and the database hold, and changes
    neither. *)
Theorem wrong_passwords_lock_login env f fr req h s t1 :
  let lim := env.(limits) in let ip := req.(clientAddress) in let email := normalizedEmail f.(l_email) in
  0 <= maxBadLogins lim -> 0 < rateLimitIntervalMs lim -> 0 < t1 -> store_up (M := M) ->
  str_truthy ip = true -> str_truthy f.(l_email) = true ->
  settled lim t1 ip email t1 s -> Forall (event_kept lim t1 ip email) h ->
  in_order env.(Server.now) h -> t1 <= env.(Server.now) < t1 + rateLimitIntervalMs lim ->
  maxBadLogins lim < wrong_passwords ip email h s ->
  isAllowed env ip (Some email) (truthy_str req.(payload).(p_phoneNumber)) = false -> code_of req = None ->
  exists e s', (if client_disabled cfg.(disabledClients) f.(l_service) then e = LDisabledClientId
                else exists c, e = LErr c /\ customs_refusal c = true) /\
    forall r d, run_login env f fr req (happen_all h s) r d = (s', r, d, inr e).
Proof.
  intros lim ip email Hm Hi Ht1 Hup Hip Hem Hs Hk Ho Ht Hn Hal Hcode. unfold login, login_db.
  destruct (client_disabled _ _); [by exists LDisabledClientId, (happen_all h s)|].
  destruct (events_history lim t1 ip email h s _ Hk Ho) as (hs & -> & Hkept & Hc & Hf).
  pose proof (request_full f.(l_email) "accountLogin" ip req.(userAgent) req.(payload) Hem eq_refl Hip) as Hfull.
  destruct (guarded_blocks env (failures ip email hs) (handle_all hs s)
    (mkCheck (Some f.(l_email)) (Some ip) (Some "accountLogin") req.(userAgent) req.(payload)) ip email "accountLogin" t1 Hm Hi Ht1 Ht)
    as (r & Hr & Hb); [apply guarded_history; try done; by apply normalizedEmail_truthy|exact (Z.lt_le_trans _ _ _ Hn Hf)|exact Hfull|done|exact Hal|].
  destruct (blocked_refuses env forced f.(l_email) req (handle_all hs s) r Hr Hb) as (c & Hc' & Href).
  destruct (refusal_hides (H0 := account_db hash_code) env life forced f.(l_email) f.(l_originalLoginEmail) req (handle_all hs s) c Hc' (or_introl Hcode))
    as (s' & req' & Hgate).
  exists (LErr c), s'. split; [by exists c|]. intros r0 d. by rewrite Hgate.
Qed.
End Lock.

(** ** Witnesses *)

#[local] Existing Instance toy_crypto.

Definition later (n : Z) : Env := sample_env (1600000000000 + n).

Definition attempt (addr : string) (original : option string) (authPW : string) : LoginForm :=
  mkLoginForm addr authPW None original None false.

Definition right_authPW : string := (getCredentials alice_addr "old").(cc_authPW).
Definition wrong_authPW (n : Z) : string := to_hex (n :: replicate 31 0).

Definition try (n : Z) (authPW : string) : Event (R := Redis.Server) :=
  ELogin (later n) (attempt alice_addr None authPW) (draw 60) (request_with None) (Redis.mkServer ∅ ∅) (flow_db false).

(** Three wrong passwords, and a right one that comes too late. *)
Definition guessed : list (Event (R := Redis.Server)) :=
  [try 5000 right_authPW; ETraffic (later 4000) (QCheck (ServerLaws.login "b@x.org" "1.2.3.4")); try 3000 (wrong_authPW 3); try 2000 (wrong_authPW 2); try 1000 (wrong_authPW 1)].

Abbreviation guessed_state :=
  (happen_all String.append 3600000 None quiet_config 0 [] (fun _ _ => None) guessed (ServerLaws.empty : State (M := mem))).

Abbreviation login_at n addr original :=
  (Login.login (R := Redis.Server) (later n) String.append 3600000 None quiet_config 0 [] (fun _ _ => None)
     (attempt addr original right_authPW) (draw 60) (request_with None) guessed_state (Redis.mkServer ∅ ∅) (flow_db false)).

Lemma try_kept n password :
  1000 <= n -> event_kept Limits.sample 1600000001000 "1.2.3.4" (normalizedEmail alice_addr) (try n password).
Proof.
  intros Hn q Hq. assert (q = login_check (attempt alice_addr None password) (request_with None) \/
    exists errno, q = QFailedLogin (Some alice_addr) (Some "1.2.3.4") errno \/
                  q = QFailedLogin (Some (AccountStore.email mallory_row)) (Some "1.2.3.4") errno) as Hq'.
  { destruct Hq as [->|(addr & errno & -> & [->|(uid & a & Ha & ->)])]; [by left|right; by exists errno; left|].
    right. exists errno. cbn in Ha.
    apply lookup_insert_Some in Ha as [[_ <-]|[_ [_ <-]%lookup_singleton_Some]]; [by left|by right]. }
  split; [reflexivity|]. split; [reflexivity|]. split; [cbn; lia|].
  split; [|destruct Hq' as [->|[errno [->| ->]]]; intros []].
  destruct Hq' as [->|[errno [->| ->]]]; apply (bool_decide_unpack _); vm_compute; exact I.
Qed.

Lemma wrong_passwords_lock_login_witness :
  exists e s', (exists c, e = LErr c /\ customs_refusal c = true) /\ login_at 6000 alice_addr None = (s', Redis.mkServer ∅ ∅, flow_db false, inr e).
Proof.
  destruct (wrong_passwords_lock_login (M := mem) (R := Redis.Server) String.append 3600000 None quiet_config 0 [] (fun _ _ => None)
    (later 6000) (attempt alice_addr None right_authPW) (draw 60) (request_with None) guessed ServerLaws.empty 1600000001000)
    as (e & s' & He & Hl).
  - cbn. lia.
  - cbn. lia.
  - lia.
  - intros m k v lf t. reflexivity.
  - reflexivity.
  - reflexivity.
  - apply empty_settled.
  - constructor; [by apply try_kept|]. constructor; [|by repeat (constructor; [by apply try_kept|])].
    split; [reflexivity|]. split; [reflexivity|]. split; [cbn; lia|]. split; [|intros []].
    apply (bool_decide_unpack _). vm_compute. exact I.
  - cbn. lia.
  - cbn. lia.
  - vm_compute. reflexivity.
  - vm_compute. reflexivity.
  - reflexivity.
  - exists e, s'. split; [exact He|]. apply Hl.
Defined.

(** The gate asks customs about the e-mail of the payload, which need not be
    an address of the account: with the address of the account as
    [originalLoginEmail] a locked caller goes on guessing under any other
    e-mail. *)
Theorem login_lock_bypassed :
  (exists e, (login_at 6000 alice_addr None).2 = inr e) /\
  (exists reply, (login_at 6000 "anyone@x.org" (Some alice_addr)).2 = inl reply /\ reply.(lr_uid) = "u1").
Proof.
  split; [eexists; vm_compute; reflexivity|]. eexists. split; [vm_compute; reflexivity|reflexivity].
Qed.
