(* ===== verification/Routes.v ===== *)
(** * What the routes of the auth server share

    A request runs against the customs server, the account database and the
    reminders in redis, and may throw; what it wrote before stays written.
    Also the authentication of a session (makeCredentialFn of
    packages/fxa-auth-server/lib/server.js for session tokens) and one-time
    passwords (packages/fxa-auth-server/lib/routes/utils/otp.js over the
    library otplib). *)

From S2P Require Import Prelude Store Text Records Server CustomsClient SignIn Redis.
From S2P Require Import AccountStore.
From S2P Require Tokens.

#[local] Open Scope string_scope.
#[local] Open Scope Z_scope.

Inductive RErr :=
  | RDB (e : DBErr)
  | RErr_ (e : Err)                      (* customs, or an error of signing in *)
  | RUnverifiedSession
  | RUnverifiedAccount
  | RInvalidOtpCode
  | RInvalidVerificationCode
  | RInvalidSession
  | RIncorrectPassword (registered : string)
  | RTotpRequired | RDisabledClientId
  | RUnownedEmail
  | RMaxSecondaryEmails
  | RYourPrimaryEmail
  | RAlreadyOwnsEmail
  | RVerifiedPrimaryExists
  | RNewlyCreatedPrimary
  | RSubscribedPrimary
  | RMissingEmail | RMissingUid
  | RAccountExists (addr : string) | RVerifiedSecondaryExists | RCreationRejected | RUnauthorized | RUnknownClient
  | RUnownedNewPrimary | RUnverifiedNewPrimary
  | RMailer
  | RThrown.                             (* an exception that is not an error of the service *)

(** ** One-time passwords *)

(** otplib, for the two configurations: authenticator apps and codes by mail. *)
Class Otp := {
  totp_check (secret : string) (now : Z) (code : string) : bool;
  otp_check (secret : string) (now : Z) (code : string) : bool;
  otp_generate (secret : string) (now : Z) : string }.

Class OtpLaws `{Otp} := {
  generated_checks secret now : otp_check secret now (otp_generate secret now) = true }.

(** ** Requests that write and throw *)

Record World {M R : Type} := mkW { customs : State (M := M); db : DB; redis : R }.
Arguments World : clear implicits.
Arguments mkW {M R}.

Definition Act (M R A : Type) : Type := World M R -> World M R * (A + RErr).

Section Monad.
Context {M R : Type}.

Definition ret {A} (x : A) : Act M R A := fun w => (w, inl x).
Definition throw {A} (e : RErr) : Act M R A := fun w => (w, inr e).
Definition bind {A B} (m : Act M R A) (k : A -> Act M R B) : Act M R B :=
  fun w => match m w with (w, inl x) => k x w | (w, inr e) => (w, inr e) end.

(** Reading and writing the account database. *)
Definition query {A} (f : DB -> A) : Act M R A := fun w => (w, inl (f w.(db))).
Definition fetch {A} (f : DB -> A + DBErr) : Act M R A :=
  fun w => (w, match f w.(db) with inl x => inl x | inr e => inr (RDB e) end).
Definition put (f : DB -> DB) : Act M R unit := fun w => (mkW w.(customs) (f w.(db)) w.(redis), inl tt).
Definition update (f : DB -> DB + DBErr) : Act M R unit :=
  fun w => match f w.(db) with inl d => (mkW w.(customs) d w.(redis), inl tt) | inr e => (w, inr (RDB e)) end.
Definition update_get {A} (f : DB -> DB * (A + DBErr)) : Act M R A :=
  fun w => let '(d, r) := f w.(db) in
           (mkW w.(customs) d w.(redis), match r with inl x => inl x | inr e => inr (RDB e) end).
Definition on_redis_or (e : RErr) (f : R -> R * bool) : Act M R unit :=
  fun w => let '(r, ok) := f w.(redis) in (mkW w.(customs) w.(db) r, if ok then inl tt else inr e).
Definition on_redis : (R -> R * bool) -> Act M R unit := on_redis_or RThrown.

Definition unless (b : bool) (e : RErr) : Act M R unit := if b then ret tt else throw e.
Definition when (b : bool) (m : Act M R unit) : Act M R unit := if b then m else ret tt.
End Monad.

Notation "x <- m ;; k" := (bind m (fun x => k)) (at level 100, m at next level, right associativity).
Notation "m ;;; k" := (bind m (fun _ => k)) (at level 100, right associativity).

(** ** Customs *)

Section Customs.
Context {M R : Type} `{Memcached M StoredObject} (env : Env).

Definition check (email action : string) (req : Request) : Act M R unit :=
  fun w => let '(s, (_, v)) := client_check env email action req w.(customs) in
           (mkW s w.(db) w.(redis), match v with Pass => inl tt | v => inr (RErr_ (ECustoms v)) end).

Definition checkAuthenticated (uid action : string) (req : Request) : Act M R unit :=
  fun w => let '(s, (_, v)) := client_checkAuthenticated env uid action req w.(customs) in
           (mkW s w.(db) w.(redis), match v with Pass => inl tt | v => inr (RErr_ (ECustoms v)) end).

Definition flag (ip email : string) (errno : Z) : Act M R unit :=
  fun w => let '(s, ok) := client_flag env ip email (Some errno) w.(customs) in
           (mkW s w.(db) w.(redis), if ok then inl tt else inr (RErr_ (ECustoms ServiceError))).
End Customs.

(** ** Sessions *)

(** The credentials of a request: the id it presents, the address of the
    account, and the token. *)
Record Session := mkSession { c_id : string; c_uid : string; c_email : string; c_token : Tokens.SessionToken }.

Definition aal (c : Session) : Z := default 0 (Tokens.authenticatorAssuranceLevel c.(c_token)).

(** [sessionToken.tokenVerificationId] is set. *)
Definition unverified (c : Session) : bool := ostr_truthy c.(c_token).(Tokens.tokenVerificationId).

Definition load_session (MAX_AGE now : Z) (id : string) (d : DB) : Session + DBErr :=
  match d.(sessionTokens) !! id, sessionToken MAX_AGE now id d with
  | Some r, inl t =>
      if Tokens.expired t.(Tokens.token) None now then inr InvalidToken
      else inl (mkSession id r.(s_uid) (match d.(accounts) !! r.(s_uid) with Some a => a.(primaryEmail) | None => "" end) t)
  | _, _ => inr InvalidToken
  end.

Definition auth_session {M R} (MAX_AGE now : Z) (id : string) : Act M R Session := fetch (load_session MAX_AGE now id).

(** ** Laws *)

Lemma bind_inl {M R A B} (m : Act M R A) (k : A -> Act M R B) w w' y :
  bind m k w = (w', inl y) <-> exists w1 x, m w = (w1, inl x) /\ k x w1 = (w', inl y).
Proof.
  unfold bind. destruct (m w) as [w1 [x|e]]; split.
  - eauto.
  - by intros (? & ? & [= <- <-] & ?).
  - done.
  - by intros (? & ? & ? & _).
Qed.

(** What a check of customs leaves alone. *)
Lemma check_db {M R} `{Memcached M StoredObject} env email action req (w w' : World M R) r :
  check env email action req w = (w', r) -> w'.(db) = w.(db) /\ w'.(redis) = w.(redis).
Proof.
  unfold check. destruct (client_check _ _ _ _ _) as [s [? v]]. by intros [= <- <-].
Qed.

Lemma checkAuthenticated_db {M R} `{Memcached M StoredObject} env uid action req (w w' : World M R) r :
  checkAuthenticated env uid action req w = (w', r) -> w'.(db) = w.(db) /\ w'.(redis) = w.(redis).
Proof.
  unfold checkAuthenticated. destruct (client_checkAuthenticated _ _ _ _ _) as [s [? v]]. by intros [= <- <-].
Qed.

Lemma load_session_spec MAX_AGE now id d c :
  load_session MAX_AGE now id d = inl c ->
  exists r, d.(sessionTokens) !! id = Some r /\ c.(c_id) = id /\ c.(c_uid) = r.(s_uid) /\
    sessionToken MAX_AGE now id d = inl c.(c_token) /\
    Tokens.authenticatorAssuranceLevel c.(c_token) = Some (if bool_decide (r.(s_method) ∈ [Some 2; Some 3]) then 2 else 1) /\
    c.(c_token).(Tokens.tokenVerificationId) = Tokens.truthy_id (fst <$> d.(unverifiedTokens) !! id).
Proof.
  unfold load_session. destruct (sessionTokens d !! id) as [r|] eqn:Hr; [|done].
  destruct (sessionToken _ _ _ _) as [t|] eqn:Ht; [|done]. destruct (Tokens.expired _ _ _); [done|]. intros [= <-].
  exists r. cbn. split_and!; try done.
  - unfold sessionToken in Ht. rewrite Hr in Ht. destruct (_ || _); [|done]. injection Ht as <-. apply Tokens.assurance_of.
  - unfold sessionToken in Ht. rewrite Hr in Ht. destruct (_ || _); [|done]. by injection Ht as <-.
Qed.

Lemma session_token_uid MAX_AGE now id d c :
  load_session MAX_AGE now id d = inl c -> Tokens.uid (Tokens.token c.(c_token)) = Some c.(c_uid).
Proof.
  intros (r & Hr & _ & Hu & Ht & _)%load_session_spec. unfold sessionToken in Ht. rewrite Hr in Ht. destruct (_ || _); [|done].
  injection Ht as <-. rewrite Hu. unfold Tokens.new_SessionToken. cbn. by destruct (_ && _).
Qed.

Lemma aal_two MAX_AGE now id d c r :
  load_session MAX_AGE now id d = inl c -> d.(sessionTokens) !! id = Some r ->
  aal c = if bool_decide (r.(s_method) ∈ [Some 2; Some 3]) then 2 else 1.
Proof. intros (r' & Hr & _ & _ & _ & Ha & _)%load_session_spec Hr'. unfold aal. rewrite Ha. cbn. by simplify_eq. Qed.

(** Running a request step by step. *)
Lemma bind_ok {M R A B} (m : Act M R A) (k : A -> Act M R B) w w1 x : m w = (w1, inl x) -> bind m k w = k x w1.
Proof. unfold bind. by intros ->. Qed.

Lemma auth_ok {M R} MAX_AGE now id (w : World M R) c :
  load_session MAX_AGE now id w.(db) = inl c -> auth_session MAX_AGE now id w = (w, inl c).
Proof. unfold auth_session, fetch. by intros ->. Qed.

Lemma check_ok {M R} `{Memcached M StoredObject} env email action req (w : World M R) s q :
  client_check env email action req w.(customs) = (s, (q, Pass)) ->
  check env email action req w = (mkW s w.(db) w.(redis), inl tt).
Proof. unfold check. by intros ->. Qed.

(** A session that has just been created loads, with the address of its
    account. *)
Lemma load_new_session MAX_AGE now id d uid must m a :
  0 <= MAX_AGE -> d.(sessionTokens) !! id = Some (mkSessionRow uid now None must m) -> d.(accounts) !! uid = Some a ->
  exists t, load_session MAX_AGE now id d = inl (mkSession id uid a.(primaryEmail) t).
Proof.
  intros Hage Hs Ha. unfold load_session, sessionToken. rewrite Hs. cbn [s_createdAt s_uid].
  assert ((now >? now - 2419200000) = true) as -> by (apply Z.gtb_gt; lia). rewrite orb_true_r, Ha. cbv zeta.
  match goal with |- context [Tokens.expired ?tk None now] => assert (Tokens.expired tk None now = false) as -> end; [|by eexists].
  apply not_true_iff_false. unfold Tokens.new_SessionToken. cbn [Tokens.token Tokens.d_deviceId].
  destruct (Z.eqb_spec MAX_AGE 0) as [->|Hne]; [done|]. cbn [negb andb].
  destruct (ostr_truthy _); [done|]. rewrite (Tokens.expired_iff _ _ MAX_AGE) by done. cbn -[or0].
  assert (or0 (Some now) = now) as Ho by (by destruct now). intros Hle. rewrite Ho in Hle. lia.
Qed.
