(* ===== verification/SecondFactor.v ===== *)
(** * Second factors and sessions
      (packages/fxa-auth-server/lib/routes/totp.js, recovery-codes.js, session.js and recovery-key.js)

    Creating, using and removing TOTP and recovery codes, verifying,
    reauthenticating, duplicating and destroying sessions, and recovery keys.
    Of the mails only those that carry a code are kept, as results. *)

From S2P Require Import Prelude Store Text Records Server CustomsClient SignIn Redis Reminders.
From S2P Require Import Bytes KeyBundle AccountStore.
From S2P Require Import PasswordFlows Login Routes.
From S2P Require Tokens.

#[local] Open Scope string_scope.
#[local] Open Scope Z_scope.

Definition INVALID_EXPIRED_OTP_CODE : Z := 183.

(** A mail with a one-time code: the address and the code. *)
Record CodeMail := mkCodeMail { m_to : string; m_code : string }.

Record ReauthForm := mkReauth {
  ra_email : string; ra_authPW : string; ra_service : option string; ra_originalLoginEmail : option string;
  ra_verificationMethod : option string; ra_wantsKeys : bool }.

Record ReauthReply := mkReauthReply { rr_uid : string; rr_authAt : Z; rr_keyFetchToken : option string; rr_status : Status }.

Record DuplicateReply := mkDuplicate { dr_uid : string; dr_sessionToken : string; dr_authAt : Z; dr_status : Status }.

Section Routes.
Context {M R : Type} `{Memcached M StoredObject} `{Redis R} `{Crypto} `{Otp}.
Context (env : Env) (MAX_AGE : Z).
Context (scrypt : string -> list Z -> list Z) (sha256 : list Z -> list Z) (hash_code : string -> string -> string).
Context (unblockCodeLifetime : Z) (forced : option (string -> bool)) (disabledClients_ : list string).
Context (verificationIntervals cadIntervals : jsobj Z).

Abbreviation now := (env.(Server.now)).
Abbreviation act := (Act M R).
Abbreviation auth := (auth_session (M := M) (R := R) MAX_AGE now).
Abbreviation customs_check email action req := (check (M := M) (R := R) env email action req).

(** ** totp.js *)

(** POST /totp/create: [secret], [codes] and [salts] are drawn. *)
Definition totp_create (id secret : string) (codes : list string) (salts : list (list Z)) (req : Request)
    : act (string * list string) :=
  c <- auth id;;
  customs_check c.(c_email) "totpCreate" req;;;
  unless (negb (unverified c)) RUnverifiedSession;;;
  created <- query (createTotpToken c.(c_uid) secret);;
  match created with
  | inl d => put (fun _ => d)
  | inr TotpTokenExists =>
      enabled <- query (hasTotpToken c.(c_uid));;
      unless (negb enabled) (RDB TotpTokenExists);;;
      put (deleteTotpToken c.(c_uid) now);;;
      update (createTotpToken c.(c_uid) secret)
  | inr _ => ret tt
  end;;;
  codes <- update_get (replaceRecoveryCodes scrypt c.(c_uid) codes salts);;
  ret (secret, codes).

(** POST /totp/destroy *)
Definition totp_destroy (id : string) (req : Request) : act unit :=
  c <- auth id;;
  customs_check c.(c_email) "totpDestroy" req;;;
  enabled <- query (hasTotpToken c.(c_uid));;
  unless c.(c_token).(Tokens.tokenVerified) RUnverifiedSession;;;
  put (deleteTotpToken c.(c_uid) now);;;
  update (verifyTokensWithMethod c.(c_id) 1);;;
  when enabled (_ <- fetch (account c.(c_uid));; ret tt).

(** GET /totp/exists: exists and verified *)
Definition totp_exists (id : string) : act (bool * bool) :=
  c <- auth id;;
  query (fun d => match totpToken c.(c_uid) d with inl t => (true, t.(tt_verified)) | inr _ => (false, false) end).

(** POST /session/verify/totp *)
Definition verify_totp (id code : string) (req : Request) : act bool :=
  c <- auth id;;
  customs_check c.(c_email) "verifyTotpCode" req;;;
  token <- fetch (totpToken c.(c_uid));;
  let isValidCode := totp_check token.(tt_secret) now code in
  when (isValidCode && negb token.(tt_verified)) (update (updateTotpToken c.(c_uid) true true now));;;
  when (isValidCode && (aal c <=? 1)) (update (verifyTokensWithMethod c.(c_id) 2));;;
  when (negb isValidCode) (flag env req.(clientAddress) c.(c_email) INVALID_EXPIRED_OTP_CODE);;;
  _ <- fetch (account c.(c_uid));;
  ret isValidCode.

(** ** recovery-codes.js *)

(** GET /recoveryCodes *)
Definition replace_codes (id : string) (codes : list string) (salts : list (list Z)) : act (list string) :=
  c <- auth id;;
  unless (negb (aal c <=? 1)) RUnverifiedSession;;;
  codes <- update_get (replaceRecoveryCodes scrypt c.(c_uid) codes salts);;
  _ <- fetch (account c.(c_uid));;
  ret codes.

(** PUT /recoveryCodes: the codes of the client *)
Definition update_codes (id : string) (codes : list string) (salts : list (list Z)) : act unit :=
  c <- auth id;;
  unless (negb (aal c <=? 1)) RUnverifiedSession;;;
  update_get (updateRecoveryCodes scrypt c.(c_uid) codes salts);;;
  _ <- fetch (account c.(c_uid));;
  ret tt.

(** POST /session/verify/recoveryCode: the number of codes left *)
Definition verify_recovery_code (id code : string) (req : Request) : act Z :=
  c <- auth id;;
  customs_check c.(c_email) "verifyRecoveryCode" req;;;
  consumed <- query (consumeRecoveryCode scrypt c.(c_uid) code);;
  match consumed with
  | inr e => throw (RDB e)
  | inl (d, remaining) =>
      put (fun _ => d);;;
      when (unverified c) (update (verifyTokensWithMethod c.(c_id) 3));;;
      _ <- fetch (account c.(c_uid));;
      ret remaining
  end.

(** ** recovery-key.js *)

(** POST /recoveryKey *)
Definition create_recovery_key (id keyId data : string) (enabled : bool) : act unit :=
  c <- auth id;;
  unless (negb (unverified c)) RUnverifiedSession;;;
  created <- query (createRecoveryKey sha256 c.(c_uid) keyId data enabled now);;
  match created with
  | inl d => put (fun _ => d)
  | inr RecoveryKeyExists =>
      exists_ <- query (recoveryKeyExists c.(c_uid));;
      unless (negb exists_) (RDB RecoveryKeyExists);;;
      put (deleteRecoveryKey c.(c_uid));;;
      update (createRecoveryKey sha256 c.(c_uid) keyId data enabled now)
  | inr e => throw (RDB e)
  end;;;
  when enabled (_ <- fetch (account c.(c_uid));; ret tt).

(** POST /recoveryKey/verify *)
Definition verify_recovery_key (id keyId : string) (req : Request) : act unit :=
  c <- auth id;;
  unless (negb (unverified c)) RUnverifiedSession;;;
  checkAuthenticated env c.(c_uid) "getRecoveryKey" req;;;
  k <- fetch (getRecoveryKey sha256 c.(c_uid) keyId);;
  when (negb k.(v_enabled))
    (update (updateRecoveryKey sha256 c.(c_uid) keyId true now);;; _ <- fetch (account c.(c_uid));; ret tt).

(** GET /recoveryKey/{recoveryKeyId}, with an account reset token *)
Definition get_recovery_key (resetLife : Z) (resetId keyId : string) (req : Request) : act string :=
  t <- query (auth_reset resetLife now resetId);;
  match t with
  | inr _ => throw (RDB InvalidToken)
  | inl t =>
      checkAuthenticated env t.(t_uid) "getRecoveryKey" req;;;
      k <- fetch (getRecoveryKey sha256 t.(t_uid) keyId);;
      ret k.(v_data)
  end.

(** POST /recoveryKey/exists: by session, or else by address *)
Definition recovery_key_exists (session email_ : option string) (req : Request) : act bool :=
  uid <- match session with
         | Some id => c <- auth id;; ret c.(c_uid)
         | None =>
             match email_ with
             | Some e =>
                 if str_truthy e then
                   customs_check e "recoveryKeyExists" req;;;
                   fetch (fun d => match accountRecord e d with Some (uid, _) => inl uid | None => inr UnknownAccount end)
                 else throw RMissingEmail
             | None => throw RMissingEmail
             end
         end;;
  query (recoveryKeyExists uid).

(** DELETE /recoveryKey *)
Definition delete_recovery_key (id : string) : act unit :=
  c <- auth id;;
  unless (negb (unverified c)) RUnverifiedSession;;;
  put (deleteRecoveryKey c.(c_uid));;;
  _ <- fetch (account c.(c_uid));;
  ret tt.

(** ** session.js *)

(** POST /session/destroy *)
Definition session_destroy (id : string) (custom : option string) : act unit :=
  c <- auth id;;
  target <- match custom with
            | Some other =>
                if str_truthy other then
                  t <- fetch (sessionToken MAX_AGE now other);;
                  if bool_decide (t.(Tokens.token).(Tokens.uid) = Some c.(c_uid)) then ret other else throw RInvalidSession
                else ret c.(c_id)
            | None => ret c.(c_id)
            end;;
  put (deleteSessionToken target).

(** [checkCustomsAndLoadAccount] and [checkPassword] of signing in. *)
Definition gate (email_ : string) (original : option string) (req : Request) : act (Account * Request) :=
  fun w => let '(s, d, req, r) := checkCustomsAndLoadAccount (H0 := account_db hash_code) env unblockCodeLifetime forced email_ original
                                    req w.(customs) w.(Routes.db) in
           (mkW s d w.(redis), match r with inl (acc, _) => inl (acc, req) | inr e => inr (RErr_ e) end).

Definition check_password (acc : Account) (hash ip : string) : act bool :=
  fun w => let '(s, r) := SignIn.checkPassword (H0 := account_db hash_code) env ONES acc hash ip w.(customs) w.(Routes.db) in
           (mkW s w.(Routes.db) w.(redis), match r with inl b => inl b | inr e => inr (RErr_ e) end).

(** The database's [createKeyFetchToken], for a session. *)
Definition session_keys (fr : Fresh) (uid : string) (a : AccountRow) (p : Password) (vid : option string) : act string :=
  fun w => match login_keys env fr uid a p vid w.(Routes.db) with
           | Some (d, key) => (mkW w.(customs) d w.(redis), inl key)
           | None => (w, inr RThrown)
           end.

(** The token object as [session_reauth] changes it. *)
Definition reauthenticated (mustVerify : bool) (t : Tokens.SessionToken) : Tokens.SessionToken :=
  Tokens.mkSession t.(Tokens.token) t.(Tokens.deviceId) t.(Tokens.emailVerified) now mustVerify t.(Tokens.tokenVerificationId)
    t.(Tokens.tokenVerified) t.(Tokens.verificationMethod) t.(Tokens.verificationMethodValue).

(** POST /session/reauth *)
Definition session_reauth (id : string) (f : ReauthForm) (fr : Fresh) (req : Request) : act ReauthReply :=
  c <- auth id;;
  unless (negb (client_disabled disabledClients_ f.(ra_service))) RDisabledClientId;;;
  loaded <- gate f.(ra_email) f.(ra_originalLoginEmail) req;;
  let '(acc, req) := loaded in
  match checkEmailAddress acc f.(ra_email) f.(ra_originalLoginEmail) with inl _ => ret tt | inr e => throw (RErr_ e) end;;;
  a <- fetch (account acc.(a_uid));;
  match new_Password f.(ra_authPW) (to_hex a.(AccountStore.authSalt)) (Some a.(verifierVersion)) with
  | None => throw RThrown
  | Some p =>
      match_ <- check_password acc (verifyHash p) req.(clientAddress);;
      unless match_ (RIncorrectPassword a.(AccountStore.email));;;
      hasTotp <- query (hasTotpToken acc.(a_uid));;
      method <- (if hasTotp then ret (Some "totp-2fa")
                 else if bool_decide (f.(ra_verificationMethod) = Some "totp-2fa") then throw RTotpRequired
                 else ret f.(ra_verificationMethod));;
      let mustVerify := c.(c_token).(Tokens.mustVerify) || f.(ra_wantsKeys) || ostr_truthy method in
      put (updateSessionToken c.(c_id) (Some now) mustVerify);;;
      key <- (if f.(ra_wantsKeys)
              then k <- session_keys fr acc.(a_uid) a p c.(c_token).(Tokens.tokenVerificationId);; ret (Some k)
              else ret None);;
      let t := reauthenticated mustVerify c.(c_token) in
      ret (mkReauthReply c.(c_uid) (Tokens.lastAuthAt t) key (getSessionVerificationStatus t method))
  end.

(** GET /session/status *)
Definition session_status (id : string) : act (string * string) :=
  c <- auth id;; ret (Tokens.state c.(c_token), c.(c_uid)).

(** [SessionToken.create]: [createNewToken] sets the time of creation; of the
    other fields the database keeps the user, whether the session must be
    verified, and the verification id. *)
Definition create_session (seed : list Z) (det : Tokens.Details) (d : DB) : DB * Tokens.SessionToken :=
  let det := Tokens.mkDetails det.(Tokens.d_uid) det.(Tokens.d_lifetime) (Some now) det.(Tokens.d_deviceId)
               det.(Tokens.d_emailVerified) det.(Tokens.d_authAt) det.(Tokens.d_mustVerify) det.(Tokens.d_tokenVerificationId)
               det.(Tokens.d_verificationMethod) in
  let t := Tokens.new_SessionToken MAX_AGE det in
  (createSessionToken (token_id "sessionToken" seed) (default "" t.(Tokens.token).(Tokens.uid)) now t.(Tokens.mustVerify)
     t.(Tokens.tokenVerificationId) d, t).

(** POST /session/duplicate *)
Definition session_duplicate (id : string) (fr : Fresh) : act DuplicateReply :=
  c <- auth id;;
  made <- query (create_session fr.(seed_session) (Tokens.copyTokenState fr.(verification) c.(c_token)));;
  let '(d, t) := made in
  put (fun _ => d);;;
  ret (mkDuplicate c.(c_uid) (to_hex fr.(seed_session)) (Tokens.lastAuthAt t)
    (if negb t.(Tokens.emailVerified) then mkStatus false (Some "email") (Some "signup")
     else if negb t.(Tokens.tokenVerified) then mkStatus false (Some "email") (Some "login")
     else mkStatus true None None)).

(** [verifyAccount] of utils/signup.js *)
Definition verify_account_by_code (uid : string) (a : AccountRow) : act unit :=
  put (verifyEmail uid a.(emailCode) now);;;
  on_redis (fun r => let '(r, res) := Reminders.Verification.delete_ verificationIntervals uid r in (r, bool_decide (is_Some res))).

(** POST /session/verify_code *)
Definition session_verify_code (id code : string) (req : Request) : act unit :=
  c <- auth id;;
  customs_check c.(c_email) "verifySessionCode" req;;;
  a <- fetch (account c.(c_uid));;
  unless (otp_check a.(emailCode) now code) RInvalidOtpCode;;;
  update (verifyTokensWithMethod c.(c_id) 1);;;
  if negb a.(primaryVerified) then verify_account_by_code c.(c_uid) a
  else on_redis (cleanupReminders cadIntervals (mkStatus true None None) (signin_account c.(c_uid) a)).

(** POST /session/resend_code *)
Definition session_resend_code (id : string) : act (option CodeMail) :=
  c <- auth id;;
  hasTotp <- query (hasTotpToken c.(c_uid));;
  if hasTotp then ret None
  else
    a <- fetch (account c.(c_uid));;
    ret (Some (mkCodeMail a.(primaryEmail) (otp_generate a.(emailCode) now))).

(** POST /session/verify/send_push: the devices that are sent the
    verification id of the session. *)
Definition send_push (id : string) : act (option (list string * option string)) :=
  c <- auth id;;
  hasTotp <- query (hasTotpToken c.(c_uid));;
  if hasTotp then ret None
  else
    query (fun d => Some (fst <$> filter (fun kv : string * (string * option string) => kv.2.1 = c.(c_uid) /\ kv.2.2 <> Some c.(c_id))
                                    (map_to_list d.(devices)),
                          c.(c_token).(Tokens.tokenVerificationId))).
End Routes.
