(* ===== verification/EmailRoutes.v ===== *)
(** * E-mail addresses of an account
      (packages/fxa-auth-server/lib/routes/emails.js and unblock-codes.js)

    Verifying an account or a session by a link, adding, verifying and
    removing secondary addresses, making one the primary address, and unblock
    codes.  Of the mails those that carry a code are results, with the address
    they go to. *)

From Stdlib Require Import QArith.
From S2P Require Import Prelude Store Text Records Server CustomsClient SignIn Redis Reminders.
From S2P Require Import Bytes KeyBundle AccountStore.
From S2P Require Import PasswordFlows Routes SecondFactor.
From S2P Require Tokens.

#[local] Open Scope string_scope.
#[local] Open Scope Z_scope.

Definition MAX_SECONDARY_EMAILS : Z := 3.

Record EmailStatus := mkEmailStatus {
  es_email : string; es_verified : bool; es_sessionVerified : bool; es_emailVerified : bool }.

Section Routes.
Context {M R : Type} `{Memcached M StoredObject} `{Redis R} `{Otp}.
Context (env : Env) (MAX_AGE minUnverifiedAccountTime : Z).
Context (verificationIntervals cadIntervals : jsobj Z) (rolloutRate : Q).
Context (isValidEmailAddress : string -> bool) (hasActiveSubscription : string -> bool).
Context (hash_code : string -> string -> string).

Abbreviation now := (env.(Server.now)).
Abbreviation act := (Act M R).
Abbreviation auth := (auth_session (M := M) (R := R) MAX_AGE now).
Abbreviation customs_check email action req := (check (M := M) (R := R) env email action req).

(** GET /recovery_email/status *)
Definition email_status (id : string) : act EmailStatus :=
  c <- auth id;;
  let t := c.(c_token) in
  (if negb t.(Tokens.emailVerified) && negb (isValidEmailAddress c.(c_email)) && negb (hasActiveSubscription c.(c_uid))
   then put (deleteAccount c.(c_uid));;; throw (RDB InvalidToken) else ret tt);;;
  ret (mkEmailStatus c.(c_email)
         (t.(Tokens.emailVerified) && (negb t.(Tokens.mustVerify) || t.(Tokens.tokenVerified)))
         t.(Tokens.tokenVerified) t.(Tokens.emailVerified)).

(** The address of the account that a request names. *)
Definition find_email (addr : string) (found : list FoundEmail) : option FoundEmail :=
  head (filterb (fun e => emailsMatch e.(fe_normalized) addr) found).

(** POST /recovery_email/resend_code *)
Definition resend_code (sid : string) (addr : option string) (req : Request) : act (option CodeMail) :=
  c <- auth sid;;
  let t := c.(c_token) in
  if t.(Tokens.emailVerified) && t.(Tokens.tokenVerified) && negb (ostr_truthy addr) then ret None
  else
    customs_check c.(c_email) "recoveryEmailResendCode" req;;;
    match when_truthy addr id with
    | Some e =>
        found <- query (fun d => find_email e (accountEmails c.(c_uid) d));;
        match found with
        | None => throw RUnownedEmail
        | Some f => ret (if f.(fe_verified) then None else Some (mkCodeMail f.(fe_address) f.(fe_code)))
        end
    | None =>
        match t.(Tokens.tokenVerificationId) with
        | Some vid =>
            hasTotp <- query (hasTotpToken c.(c_uid));;
            ret (if hasTotp then None else Some (mkCodeMail c.(c_email) vid))
        | None =>
            a <- fetch (account c.(c_uid));;
            ret (Some (mkCodeMail c.(c_email) a.(emailCode)))
        end
    end.

(** POST /recovery_email/verify_code: a link, without a session *)
Definition verify_link (uid code : string) (req : Request) : act unit :=
  a <- fetch (account uid);;
  customs_check a.(AccountStore.email) "recoveryEmailVerifyCode" req;;;
  let isAccountVerification := buffersAreEqual (Hex code) (Hex a.(emailCode)) in
  verified <- query (verifyTokens code uid);;
  match verified with
  | inl d => put (fun _ => d)
  | inr _ => unless isAccountVerification RInvalidVerificationCode
  end;;;
  if a.(AccountStore.emailVerified) then ret tt else verify_account_by_code env verificationIntervals uid a.

(** [deleteAccountIfUnverified]: what stands in the way of adding an address
    is removed, or refused. *)
Definition deleteAccountIfUnverified (uid addr : string) : act unit :=
  found <- query (getSecondaryEmail addr);;
  match found with
  | inr _ => ret tt
  | inl e =>
      if e.(fe_primary) then
        unless (negb e.(fe_verified)) RVerifiedPrimaryExists;;;
        if minUnverifiedAccountTime <=? now - e.(fe_createdAt) then
          unless (negb (hasActiveSubscription e.(fe_uid))) RSubscribedPrimary;;;
          put (deleteAccount e.(fe_uid))
        else throw RNewlyCreatedPrimary
      else if negb e.(fe_verified) && negb (buffersAreEqual (Hex e.(fe_uid)) (Hex uid))
      then update (deleteEmail e.(fe_uid) e.(fe_address) now)
      else ret tt
  end.

(** POST /recovery_email: [hex] is the secret drawn, [sent] whether the mail
    goes out. *)
Definition create_email (id addr hex : string) (sent : bool) (req : Request) : act (option CodeMail) :=
  c <- auth id;;
  customs_check c.(c_email) "createEmail" req;;;
  _ <- fetch (account c.(c_uid));;
  owned <- query (accountEmails c.(c_uid));;
  unless (Z.of_nat (length (filterb (fun e => negb e.(fe_primary)) owned)) <? MAX_SECONDARY_EMAILS) RMaxSecondaryEmails;;;
  unless (negb (emailsMatch c.(c_email) addr)) RYourPrimaryEmail;;;
  unless (negb (existsb (fun e => String.eqb e.(fe_address) addr) owned)) RAlreadyOwnsEmail;;;
  unless c.(c_token).(Tokens.emailVerified) RUnverifiedAccount;;;
  unless (negb (unverified c)) RUnverifiedSession;;;
  deleteAccountIfUnverified c.(c_uid) addr;;;
  update (createEmail c.(c_uid) (toLowerCase addr) addr hex false now);;;
  if sent then ret (Some (mkCodeMail addr (otp_generate hex now)))
  else update (deleteEmail c.(c_uid) (toLowerCase addr) now);;; throw RMailer.

(** POST /recovery_email/destroy *)
Definition destroy_email (id addr : string) (req : Request) : act unit :=
  c <- auth id;;
  customs_check c.(c_email) "deleteEmail" req;;;
  _ <- fetch (account c.(c_uid));;
  unless (negb (unverified c)) RUnverifiedSession;;;
  update (deleteEmail c.(c_uid) (toLowerCase addr) now);;;
  put (resetAccountTokens c.(c_uid)).

(** GET /recovery_emails: address, primary, verified *)
Definition recovery_emails (id : string) : act (list (string * bool * bool)) :=
  c <- auth id;;
  _ <- fetch (account c.(c_uid));;
  owned <- query (accountEmails c.(c_uid));;
  ret ((fun e => (e.(fe_address), e.(fe_primary), e.(fe_verified))) <$> owned).

(** POST /recovery_email/set_primary: [verifierSetAt] is that of the account
    of the session. *)
Definition set_primary (id addr : string) (req : Request) : act unit :=
  c <- auth id;;
  customs_check c.(c_email) "setPrimaryEmail" req;;;
  unless (negb (unverified c)) RUnverifiedSession;;;
  setAt <- query (fun d => from_option verifierSetAt 0 (d.(accounts) !! c.(c_uid)));;
  unless (0 <? setAt) RUnverifiedAccount;;;
  e <- fetch (getSecondaryEmail addr);;
  unless (String.eqb e.(fe_uid) c.(c_uid)) RUnownedNewPrimary;;;
  unless e.(fe_verified) RUnverifiedNewPrimary;;;
  when (negb e.(fe_primary)) (update (setPrimaryEmail c.(c_uid) e.(fe_normalized) now)).

(** POST /recovery_email/secondary/resend_code *)
Definition secondary_resend_code (id addr : string) (req : Request) : act CodeMail :=
  c <- auth id;;
  customs_check c.(c_email) "recoveryEmailSecondaryResendCode" req;;;
  _ <- fetch (account c.(c_uid));;
  found <- query (fun d => find_email addr (accountEmails c.(c_uid) d));;
  match found with
  | None => throw RUnownedEmail
  | Some e => ret (mkCodeMail e.(fe_address) (otp_generate e.(fe_code) now))
  end.

(** POST /recovery_email/secondary/verify_code *)
Definition secondary_verify_code (id addr code : string) (req : Request) : act unit :=
  c <- auth id;;
  customs_check c.(c_email) "recoveryEmailSecondaryVerifyCode" req;;;
  _ <- fetch (account c.(c_uid));;
  found <- query (fun d => find_email addr (accountEmails c.(c_uid) d));;
  match found with
  | None => throw RInvalidVerificationCode
  | Some e =>
      unless (otp_check e.(fe_code) now code) RInvalidVerificationCode;;;
      when (negb e.(fe_verified)) (put (verifyEmail c.(c_uid) e.(fe_code) now))
  end.

(** POST /emails/reminders/cad *)
Definition cad_reminder (id : string) (random : Q) : act unit :=
  c <- auth id;;
  fun w =>
    match Cad.get cadIntervals c.(c_uid) w.(redis) with
    | None => (w, inr RThrown)
    | Some reminders =>
        if existsb (fun kv => bool_decide (is_Some kv.2)) reminders then (w, inl tt)
        else let '(r, res) := Cad.create cadIntervals rolloutRate random c.(c_uid) now w.(redis) in
             (mkW w.(customs) w.(Routes.db) r, if bool_decide (is_Some res) then inl tt else inr RThrown)
    end.

(** ** unblock-codes.js *)

(** POST /account/login/send_unblock_code: [codes] are the codes drawn, one
    after the other until one is new. *)
Fixpoint new_unblock_code (uid : string) (codes : list string) (d : DB) : option (DB * string) :=
  match codes with
  | [] => None
  | code :: codes =>
      match d.(unblockCodes) !! uid ≫= fun m => m !! hash_code uid code with
      | Some _ => new_unblock_code uid codes d
      | None => Some (createUnblockCode hash_code uid code now d, code)
      end
  end.

Definition send_unblock_code (addr : string) (codes : list string) (req : Request) : act CodeMail :=
  customs_check addr "sendUnblockCode" req;;;
  found <- fetch (fun d => match accountRecord addr d with Some x => inl x | None => inr UnknownAccount end);;
  drawn <- query (new_unblock_code found.1 codes);;
  match drawn with
  | None => throw RThrown
  | Some (d, code) => put (fun _ => d);;; ret (mkCodeMail found.2.(primaryEmail) code)
  end.

(** POST /account/login/reject_unblock_code *)
Definition reject_unblock_code (uid code : string) : act unit :=
  update_get (fun d => let '(d, r) := consumeUnblockCode hash_code uid (toUpperCase code) d in (d, (fun _ => tt) <$$> r)).
End Routes.
