(* ===== verification/AccountRoutes.v ===== *)
(** * Creating and destroying accounts
      (packages/fxa-auth-server/lib/routes/account.ts and utils/account.ts)

    Accounts with a password, stub accounts that get one later, the status and
    the profile of an account, and its destruction.  Stripe and PayPal are
    left out but for the question whether an account has a subscription; the
    signature of a token that finishes a set-up is checked outside. *)

From Stdlib Require Import Ascii QArith.
From S2P Require Import Prelude Store Text Records Server CustomsClient SignIn Redis Reminders AuthChecks.
From S2P Require Scopes OAuthStore.
From S2P Require Import Bytes KeyBundle AccountStore.
From S2P Require Import PasswordFlows Login Routes SecondFactor EmailRoutes.
From S2P Require Tokens.

#[local] Open Scope string_scope.
#[local] Open Scope Z_scope.

(** ** Requests and replies *)

Record CreateForm := mkCreateForm {
  cr_email : string; cr_authPW : string; cr_service : option string; cr_preVerified : bool;
  cr_verificationMethod : option string; cr_wantsKeys : bool;
  cr_flowId : option string; cr_flowBeginTime : option string }.

(** The random values of a new account. *)
Record NewAccount := mkNewAccount {
  na_uid : string; na_emailCode : string; na_authSalt : string; na_kA : string; na_wrapWrapKb : string }.

Record CreateReply := mkCreateReply {
  cp_uid : string; cp_sessionToken : string; cp_authAt : Z; cp_keyFetchToken : option string; cp_method : option string }.

(** What the OAuth server knows of a client. *)
Record StubClient := mkStubClient {
  sc_id : string; sc_canGrant : bool; sc_public : bool; sc_allowedScopes : option string }.

Record Profile := mkProfile {
  pf_email : option string; pf_locale : option string; pf_amr : option (list string * Z);
  pf_capabilities : option (list (string * list string));
  pf_changed : option (Z * bool) }.          (* profileChangedAt and metricsEnabled *)

Section Routes.
Context {M R : Type} `{Memcached M StoredObject} `{Redis R} `{Crypto} `{Otp}.
Context (env : Env) (MAX_AGE : Z) (hash_code : string -> string -> string) (version : option Z).
Context (disabledClients_ : list string) (hasActiveSubscription : string -> bool).
Context (verificationIntervals subscriptionIntervals : jsobj Z) (rolloutRate random : Q).

Abbreviation now := (env.(Server.now)).
Abbreviation act := (Act M R).
Abbreviation auth := (auth_session (M := M) (R := R) MAX_AGE now).
Abbreviation customs_check email action req := (check (M := M) (R := R) env email action req).

(** ** utils/account.ts *)

(** [deleteAccountIfUnverified]: an address may be used again unless it is the
    verified or subscribed address of an account or a verified secondary one. *)
Definition clear_unverified (addr : string) : act unit :=
  found <- query (getSecondaryEmail addr);;
  match found with
  | inr _ => ret tt
  | inl e =>
      if e.(fe_primary) then
        unless (negb (e.(fe_verified) || hasActiveSubscription e.(fe_uid))) (RAccountExists e.(fe_address));;;
        put (deleteAccount e.(fe_uid))
      else
        unless (negb e.(fe_verified)) RVerifiedSecondaryExists;;;
        update (deleteEmail e.(fe_uid) e.(fe_address) now)
  end.

(** ** The steps *)

(** [createPassword] *)
Definition create_password (pw salt : string) : act (Password * string) :=
  match new_Password pw salt version with Some p => ret (p, verifyHash p) | None => throw RThrown end.

(** [createAccount] *)
Definition create_account (addr pw : string) (preVerified : bool) (na : NewAccount) : act (Password * AccountRow) :=
  ph <- create_password pw na.(na_authSalt);;
  update (createAccount na.(na_uid) addr na.(na_emailCode) preVerified na.(na_kA) na.(na_wrapWrapKb) na.(na_authSalt) ph.2
            ph.1.(KeyBundle.version) now now);;;
  a <- fetch (account na.(na_uid));;
  ret (ph.1, a).

(** [createSessionToken] *)
Definition new_session (seed : list Z) (uid : string) (wantsKeys : bool) (vid : option string) : act unit :=
  put (createSessionToken (token_id "sessionToken" seed) uid now wantsKeys vid).

(** [sendVerifyCode], unless the account is verified: the mail, and the
    reminders.  [sent]: the mail goes out. *)
Definition send_verify_code (uid addr code : string) (verified : bool) (method : option string) (sent : bool)
    (flowId flowBeginTime : option string) : act (option CodeMail) :=
  if verified then ret None
  else
    unless sent RMailer;;;
    on_redis_or RMailer (fun r =>
      let '(r, res) := Verification.create verificationIntervals rolloutRate random uid [flowId; flowBeginTime] now r in
      (r, bool_decide (is_Some res)));;;
    ret (Some (mkCodeMail addr (if bool_decide (method = Some "email-otp") then otp_generate code now else code))).

(** ** POST /account/create *)

Definition accountCreate (f : CreateForm) (na : NewAccount) (fr : Fresh) (sent : bool) (req : Request)
    : act (CreateReply * option CodeMail) :=
  unless (negb (client_disabled disabledClients_ f.(cr_service))) RDisabledClientId;;;
  customs_check f.(cr_email) "accountCreate" req;;;
  clear_unverified f.(cr_email);;;
  let vid := if f.(cr_preVerified) then None else Some na.(na_emailCode) in
  made <- create_account f.(cr_email) f.(cr_authPW) f.(cr_preVerified) na;;
  let '(p, a) := made in
  new_session fr.(seed_session) na.(na_uid) f.(cr_wantsKeys) vid;;;
  mail <- send_verify_code na.(na_uid) f.(cr_email) na.(na_emailCode) f.(cr_preVerified) f.(cr_verificationMethod) sent
            f.(cr_flowId) f.(cr_flowBeginTime);;
  key <- (if f.(cr_wantsKeys) then k <- session_keys env fr na.(na_uid) a p vid;; ret (Some k) else ret None);;
  ret (mkCreateReply na.(na_uid) (to_hex fr.(seed_session)) (now / 1000) key
         (when_truthy f.(cr_verificationMethod) id), mail).

(** ** Stub accounts *)

(** [checkEmailDomainValidity]: [None] is a failed query. *)
Definition invalid_domain (top : string -> bool) (resolveMx resolveIpv4 : string -> option bool) (addr : string) : bool :=
  let domain := default "undefined" (split_on "@"%char addr !! 1%nat) in
  if top domain then false
  else match resolveMx domain with
       | None => false
       | Some mx => match resolveIpv4 domain with None => false | Some ipv4 => negb mx && negb ipv4 end
       end.

Context (rejected : string -> bool).         (* [invalid_domain] of an address *)
Context (getClientById : string -> option StubClient) (imp : string -> option (list string)).
(** [db.generateAccessToken]: [None] when it fails. *)
Context (generateAccessToken : OAuthStore.Vals -> OAuthStore.DB -> OAuthStore.DB * option OAuthStore.AccessTok).

(** The row of a stub account: no password has been set. *)
Definition stub_account (addr clientId : string) (na : NewAccount) (req : Request) : act StubClient :=
  customs_check addr "accountCreate" req;;;
  unless (negb (client_disabled disabledClients_ (Some clientId))) RDisabledClientId;;;
  unless (negb (rejected addr)) RCreationRejected;;;
  client <- match getClientById clientId with Some c => ret c | None => throw RUnknownClient end;;
  clear_unverified addr;;;
  update (createAccount na.(na_uid) addr na.(na_emailCode) false na.(na_kA) na.(na_wrapWrapKb) na.(na_authSalt)
            (to_hex (replicate 32 0)) (default 1 version) 0 now);;;
  ret client.

Definition stub_scope (allowed : option string) : option Scopes.ScopeSet :=
  Scopes.fromString imp (String.append "profile " (default "null" allowed)).

(** POST /account/stub: the uid and the access token *)
Definition accountStub (addr clientId : string) (na : NewAccount) (req : Request) (w : World M R) (o : OAuthStore.DB)
    : World M R * OAuthStore.DB * ((string * OAuthStore.AccessTok) + RErr) :=
  match stub_account addr clientId na req w with
  | (w, inr e) => (w, o, inr e)
  | (w, inl client) =>
      match stub_scope client.(sc_allowedScopes) with
      | None => (w, o, inr RThrown)
      | Some scope =>
          match generateAccessToken (OAuthStore.mkVals client.(sc_id) client.(sc_canGrant) client.(sc_public) na.(na_uid) scope
                                       None None (Some 1800)) o with
          | (o, Some t) => (w, o, inl (na.(na_uid), t))
          | (o, None) => (w, o, inr RThrown)
          end
      end
  end.

Definition setPasswordOnStubAccount (uid : string) (a : AccountRow) (pw : string) : act unit :=
  unless (a.(verifierSetAt) =? 0) RUnauthorized;;;
  ph <- create_password pw (to_hex a.(AccountStore.authSalt));;
  put (resetAccount uid ph.2 (to_hex a.(AccountStore.authSalt)) (to_hex a.(wrapWrapKb)) ph.1.(KeyBundle.version) now true);;;
  put (resetAccountTokens uid).

Definition delete_reminders (uid : string) : act unit :=
  on_redis (fun r => let '(r, res) := SubscriptionAccount.delete_ subscriptionIntervals uid r in (r, bool_decide (is_Some res))).

(** The body of [finishSetup] for the uid of its token. *)
Definition finish_setup_body (uid pw : string) (wantsKeys : bool) (seed : list Z) : act bool :=
  a <- fetch (account uid);;
  setPasswordOnStubAccount uid a pw;;;
  verify_account_by_code env verificationIntervals uid a;;;
  new_session seed uid wantsKeys None;;;
  delete_reminders uid;;;
  ret a.(AccountStore.emailVerified).

(** The [catch] block: the reminders stop once a password is set. *)
Definition finish_setup_failed {A} (uid : string) (e : RErr) : act A :=
  a <- fetch (account uid);;
  when (a.(verifierSetAt) >? 0) (delete_reminders uid);;;
  throw e.

(** POST /account/finish_setup; [token]: the uid in a valid token.  The reply
    says whether the session counts as verified. *)
Definition finishSetup (token : option string) (pw : string) (wantsKeys : bool) (seed : list Z) : act (string * string * bool) :=
  match token with
  | None => throw RThrown
  | Some uid => fun w =>
      match finish_setup_body uid pw wantsKeys seed w with
      | (w, inl verified) => (w, inl (uid, to_hex seed, verified))
      | (w, inr e) => if str_truthy uid then finish_setup_failed uid e w else (w, inr e)
      end
  end.

(** The product that a new subscriber has subscribed to, with its name. *)
Context (product : string -> option (string * string)).

(** POST /account/set_password, for the user of an access token *)
Definition setPassword (uid pw : string) (wantsKeys sendMail sent : bool) (flow : list (option string)) (seed : list Z) (req : Request)
    : act (string * option CodeMail) :=
  a <- fetch (account uid);;
  customs_check a.(primaryEmail) "setPassword" req;;;
  setPasswordOnStubAccount uid a pw;;;
  new_session seed uid wantsKeys (Some a.(accountCode));;;
  mail <- (if sendMail
           then send_verify_code uid a.(AccountStore.email) a.(accountCode) a.(AccountStore.emailVerified) (Some "email-otp") sent
                  (default None (flow !! 0%nat)) (default None (flow !! 1%nat))
           else ret None);;
  match product uid with
  | None => ret tt
  | Some (productId, name) =>
      if str_truthy productId && str_truthy name then
        on_redis (fun r =>
          let '(r, res) := SubscriptionAccount.create subscriptionIntervals rolloutRate random uid
                             (flow ++ [Some productId; Some name])%list now r in
          (r, bool_decide (is_Some res)))
      else ret tt
  end;;;
  ret (to_hex seed, mail).

(** ** Status and profile *)

(** GET /account/status: by session or by uid *)
Definition account_status (session uid : option string) : act bool :=
  match session with
  | Some id => _ <- auth id;; ret true
  | None =>
      match when_truthy uid id with
      | Some u => query (fun d => bool_decide (is_Some (d.(accounts) !! u)))
      | None => throw RMissingUid
      end
  end.

(** POST /account/status: whether the address exists, and whether its domain
    is invalid when that is asked *)
Definition accountStatusCheck (addr : string) (checkDomain : bool) (req : Request) : act (bool * option bool) :=
  customs_check addr "accountStatusCheck" req;;;
  found <- query (fun d => bool_decide (is_Some (accountRecord addr d)));;
  ret (found, if checkDomain then Some (rejected addr) else None).

(** GET /account/profile, for a user and the scopes granted; a session may
    see everything. *)
Context (locale : string -> option string) (metricsOptOut : string -> bool).
Context (capabilities : option (string -> list (string * list string))).   (* when subscriptions are enabled *)

Definition totp_reply (uid : string) (d : DB) : AuthMethods.TotpReply :=
  match d.(totp) !! uid with Some t => AuthMethods.Found t.(tt_verified) t.(tt_enabled) | None => AuthMethods.NotFound end.

Definition amr_of (uid : string) (d : DB) : option (list string * Z) :=
  (fun amr => (amr, AuthMethods.maximumAssuranceLevel amr)) <$> AuthMethods.availableAuthenticationMethods (totp_reply uid d).

Definition profile (uid : string) (contains : string -> bool) : act Profile :=
  a <- fetch (account uid);;
  amr <- query (amr_of uid);;
  let e := if contains "profile:email" then Some a.(primaryEmail) else None in
  let l := if contains "profile:locale" then when_truthy (locale uid) id else None in
  let m := if contains "profile:amr" then amr else None in
  let c := match capabilities with
           | Some caps => if contains "profile:subscriptions" && negb (bool_decide (caps uid = [])) then Some (caps uid) else None
           | None => None
           end in
  ret (mkProfile e l m c
    (if bool_decide (e = None /\ l = None /\ m = None /\ c = None) then None
     else Some (default a.(verifierSetAt) a.(profileChangedAt), negb (metricsOptOut uid)))).

(** ** POST /account/destroy *)

(** [session] is the session that the request may carry; the result is the
    uid whose OAuth tokens and messages are to be removed. *)
Definition destroy_account (session : option string) (addr pw : string) (req : Request) : act string :=
  c <- match session with Some id => c <- auth id;; ret (Some c) | None => ret None end;;
  customs_check addr "accountDestroy" req;;;
  found <- query (accountRecord addr);;
  match found with
  | None => flag env req.(clientAddress) addr ACCOUNT_UNKNOWN;;; throw (RDB UnknownAccount)
  | Some (uid, a) =>
      hasTotp <- query (hasTotpToken uid);;
      unless (negb (hasTotp && match c with Some c => unverified c || (aal c <=? 1) | None => true end)) RUnverifiedSession;;;
      match new_Password pw (to_hex a.(AccountStore.authSalt)) (Some a.(verifierVersion)) with
      | None => throw RThrown
      | Some p =>
          match_ <- check_password env hash_code (signin_account uid a) (verifyHash p) req.(clientAddress);;
          unless match_ (RIncorrectPassword a.(AccountStore.email));;;
          put (deleteAccount uid);;;
          ret uid
      end
  end.

Definition destroy (session : option string) (addr pw : string) (req : Request) (w : World M R) (o : OAuthStore.DB)
    : World M R * OAuthStore.DB * (unit + RErr) :=
  match destroy_account session addr pw req w with
  | (w, inl uid) => (w, OAuthStore.removeUser now uid o, inl tt)
  | (w, inr e) => (w, o, inr e)
  end.
End Routes.
