(* ===== verification/RouteLaws.v ===== *)
(** * Reasoning about routes

    A request relates the account database before it to the one after it; the
    relation is any preorder, and is shown step by step along the handler. *)

From S2P Require Import Prelude Store Text Records Server CustomsClient SignIn AccountStore Routes.
From S2P Require Tokens.

#[local] Open Scope string_scope.
#[local] Open Scope Z_scope.

(** ** What a request may do to the database *)

Section Keeps.
Context {M R : Type} (S : relation DB) `{!PreOrder S}.

(** The database after the request, whether it throws or not, is related to
    the one before. *)
Definition keeps {A} (m : Act M R A) (w : World M R) : Prop :=
  forall w' r, m w = (w', r) -> S w.(Routes.db) w'.(Routes.db).

Lemma keeps_ret {A} (x : A) w : keeps (ret x) w.
Proof. by intros w' r [= <- <-]. Qed.
Lemma keeps_throw {A} e w : keeps (throw (A := A) e) w.
Proof. by intros w' r [= <- <-]. Qed.
Lemma keeps_bind {A B} (m : Act M R A) (k : A -> Act M R B) w :
  keeps m w -> (forall w1 x, m w = (w1, inl x) -> keeps (k x) w1) -> keeps (bind m k) w.
Proof.
  intros Hm Hk w' r. unfold bind. destruct (m w) as [w1 [x|e]] eqn:E.
  - intros H. transitivity (Routes.db w1); [by eapply Hm|by eapply Hk].
  - intros [= <- <-]. by eapply Hm.
Qed.
Lemma keeps_query {A} (f : DB -> A) w : keeps (query f) w.
Proof. by intros w' r [= <- <-]. Qed.
Lemma keeps_query_bind {A B} (f : DB -> A) (k : A -> Act M R B) w : keeps (k (f w.(Routes.db))) w -> keeps (bind (query f) k) w.
Proof. done. Qed.
Lemma keeps_fetch {A} (f : DB -> A + DBErr) w : keeps (fetch f) w.
Proof. by intros w' r [= <- <-]. Qed.
Lemma keeps_put f w : S w.(Routes.db) (f w.(Routes.db)) -> keeps (put f) w.
Proof. by intros Hf w' r [= <- <-]. Qed.
Lemma keeps_update f w : (forall d, f w.(Routes.db) = inl d -> S w.(Routes.db) d) -> keeps (update f) w.
Proof. intros Hf w' r. unfold update. destruct (f (Routes.db w)) as [d|e]; intros [= <- <-]; [by apply Hf|done]. Qed.
Lemma keeps_update_get {A} (f : DB -> DB * (A + DBErr)) w :
  S w.(Routes.db) (f w.(Routes.db)).1 -> keeps (update_get f) w.
Proof. intros Hf w' r. unfold update_get. destruct (f (Routes.db w)) as [d x]. by intros [= <- <-]. Qed.
Lemma keeps_on_redis_or e f w : keeps (on_redis_or e f) w.
Proof. intros w' r. unfold on_redis_or. destruct (f (redis w)). by intros [= <- <-]. Qed.
Lemma keeps_on_redis f w : keeps (on_redis f) w.
Proof. apply keeps_on_redis_or. Qed.
Lemma keeps_unless b e w : keeps (unless b e) w.
Proof. destruct b; [apply keeps_ret|apply keeps_throw]. Qed.
Lemma keeps_when b m w : (b = true -> keeps m w) -> keeps (when b m) w.
Proof. destruct b; intros Hm; [by apply Hm|apply keeps_ret]. Qed.
Lemma keeps_check `{Memcached M StoredObject} env email action req w : keeps (check env email action req) w.
Proof. intros w' r [Hd _]%check_db. by rewrite Hd. Qed.
Lemma keeps_checkAuthenticated `{Memcached M StoredObject} env uid action req w : keeps (checkAuthenticated env uid action req) w.
Proof. intros w' r [Hd _]%checkAuthenticated_db. by rewrite Hd. Qed.
Lemma keeps_flag `{Memcached M StoredObject} env ip email errno w : keeps (flag env ip email errno) w.
Proof. intros w' r. unfold flag. destruct (client_flag _ _ _ _ _). by intros [= <- <-]. Qed.
End Keeps.

Lemma fetch_inv {M R A} (f : DB -> A + DBErr) (w w1 : World M R) x : fetch f w = (w1, inl x) -> w1 = w /\ f w.(Routes.db) = inl x.
Proof. unfold fetch. destruct (f (Routes.db w)); [|done]. by intros [= <- <-]. Qed.

Lemma auth_inv {M R} MAX_AGE now id (w w1 : World M R) c :
  auth_session MAX_AGE now id w = (w1, inl c) -> w1 = w /\ load_session MAX_AGE now id w.(Routes.db) = inl c /\ c.(c_id) = id.
Proof.
  intros [-> Hl]%fetch_inv. split; [done|]. split; [done|]. by apply load_session_spec in Hl as (? & _ & ? & _).
Qed.

Lemma session_emailVerified MAX_AGE now id d c a :
  load_session MAX_AGE now id d = inl c -> d.(accounts) !! c.(c_uid) = Some a ->
  Tokens.emailVerified c.(c_token) = a.(primaryVerified).
Proof.
  intros (r & Hr & _ & Hu & Ht & _)%load_session_spec Ha. unfold sessionToken in Ht. rewrite Hr, <- Hu, Ha in Ht.
  destruct (_ || _); [|done]. by injection Ht as <-.
Qed.

(** The steps of a handler, one after the other; what is left are the writes
    and the branches. *)
Ltac keeps_by l := apply l; match goal with |- PreOrder _ => apply _ | _ => idtac end.

Ltac route_steps :=
  repeat first
    [ solve [keeps_by keeps_ret] | solve [keeps_by keeps_throw] | solve [keeps_by keeps_query] | solve [keeps_by keeps_fetch]
    | solve [keeps_by keeps_on_redis] | solve [keeps_by keeps_on_redis_or] | solve [keeps_by keeps_unless] | solve [keeps_by keeps_check]
    | solve [keeps_by keeps_checkAuthenticated] | solve [keeps_by keeps_flag]
    | apply keeps_query_bind
    | apply keeps_bind; [apply _| |intros]
    | keeps_by keeps_when; intros
    | apply keeps_put; first [reflexivity|idtac]
    | keeps_by keeps_update; intros
    | apply keeps_update_get
    | match goal with |- keeps _ (match ?x with _ => _ end) _ => destruct x eqn:? end ].

(** ** Invariants of the database *)

Section Wp.
Context {M R : Type} (I : DB -> Prop).

(** From the database [d] on, the request ends with [Q], or throws with the
    invariant [I]. *)
Definition wp {A} (m : Act M R A) (Q : A -> DB -> Prop) (d : DB) : Prop :=
  forall w, w.(Routes.db) = d ->
    match m w with (w', inl x) => Q x w'.(Routes.db) | (w', inr _) => I w'.(Routes.db) end.

Lemma wp_mono {A} (m : Act M R A) (P Q : A -> DB -> Prop) d : wp m P d -> (forall x d', P x d' -> Q x d') -> wp m Q d.
Proof. intros Hm HPQ w Hw. specialize (Hm w Hw). destruct (m w) as [w' [x|e]]; [by apply HPQ|done]. Qed.
Lemma wp_ret {A} (x : A) (Q : A -> DB -> Prop) d : Q x d -> wp (ret x) Q d.
Proof. by intros HQ w <-. Qed.
Lemma wp_throw {A} e (Q : A -> DB -> Prop) d : I d -> wp (throw e) Q d.
Proof. by intros HQ w <-. Qed.
Lemma wp_bind {A B} (m : Act M R A) (k : A -> Act M R B) (Q : B -> DB -> Prop) d :
  wp m (fun x => wp (k x) Q) d -> wp (bind m k) Q d.
Proof.
  intros Hm w Hw. specialize (Hm w Hw). unfold bind. destruct (m w) as [w' [x|e]]; [by apply Hm|done].
Qed.
Lemma wp_query {A} (f : DB -> A) (Q : A -> DB -> Prop) d : Q (f d) d -> wp (query f) Q d.
Proof. by intros HQ w <-. Qed.
Lemma wp_fetch {A} (f : DB -> A + DBErr) (Q : A -> DB -> Prop) d : I d -> (forall x, f d = inl x -> Q x d) -> wp (fetch f) Q d.
Proof. intros HI HQ w <-. unfold fetch. destruct (f (Routes.db w)); [by apply HQ|done]. Qed.
Lemma wp_put f (Q : unit -> DB -> Prop) d : I (f d) -> (I (f d) -> Q tt (f d)) -> wp (put f) Q d.
Proof. intros HI HQ w <-. by apply HQ. Qed.
Lemma wp_update f (Q : unit -> DB -> Prop) d :
  I d -> (forall d', f d = inl d' -> I d' /\ (I d' -> Q tt d')) -> wp (update f) Q d.
Proof. intros HI HQ w <-. unfold update. destruct (f (Routes.db w)) as [d'|]; [|done]. destruct (HQ d' eq_refl) as [H1 H2]. by apply H2. Qed.
Lemma wp_update_get {A} (f : DB -> DB * (A + DBErr)) (Q : A -> DB -> Prop) d :
  I (f d).1 -> (forall x, I (f d).1 -> Q x (f d).1) -> wp (update_get f) Q d.
Proof. intros HI HQ w <-. unfold update_get. destruct (f (Routes.db w)) as [d' [x|e]]; [by apply HQ|done]. Qed.
Lemma wp_on_redis_or e f (Q : unit -> DB -> Prop) d : I d -> Q tt d -> wp (on_redis_or e f) Q d.
Proof. intros HI HQ w <-. unfold on_redis_or. by destruct (f (redis w)) as [r []]. Qed.
Lemma wp_on_redis f (Q : unit -> DB -> Prop) d : I d -> Q tt d -> wp (on_redis f) Q d.
Proof. apply wp_on_redis_or. Qed.
Lemma wp_unless b e (Q : unit -> DB -> Prop) d : I d -> (b = true -> Q tt d) -> wp (unless b e) Q d.
Proof. destruct b; intros HI HQ; [by apply wp_ret, HQ|by apply wp_throw]. Qed.
Lemma wp_when b m (Q : unit -> DB -> Prop) d : (b = true -> wp m Q d) -> (b = false -> Q tt d) -> wp (when b m) Q d.
Proof. destruct b; intros H1 H2; [by apply H1|by apply wp_ret, H2]. Qed.
Lemma wp_check `{Memcached M StoredObject} env email action req (Q : unit -> DB -> Prop) d :
  I d -> Q tt d -> wp (check env email action req) Q d.
Proof.
  intros HI HQ w <-. destruct (check _ _ _ _ w) as [w' r] eqn:E. apply check_db in E as [Hd _]. rewrite Hd. by destruct r as [[]|].
Qed.
Lemma wp_checkAuthenticated `{Memcached M StoredObject} env uid action req (Q : unit -> DB -> Prop) d :
  I d -> Q tt d -> wp (checkAuthenticated env uid action req) Q d.
Proof.
  intros HI HQ w <-. destruct (checkAuthenticated _ _ _ _ w) as [w' r] eqn:E. apply checkAuthenticated_db in E as [Hd _].
  rewrite Hd. by destruct r as [[]|].
Qed.
Lemma wp_flag `{Memcached M StoredObject} env ip email errno (Q : unit -> DB -> Prop) d :
  I d -> Q tt d -> wp (flag env ip email errno) Q d.
Proof. intros HI HQ w <-. unfold flag. by destruct (client_flag _ _ _ _ _) as [s []]. Qed.
End Wp.

(** The steps of a handler from a database that has the invariant; what is
    left are the writes and the facts they need. *)
Ltac wp_step :=
  first
    [ apply wp_bind | apply wp_ret | apply wp_throw; [assumption] | apply wp_query
    | apply wp_fetch; [assumption|intros] | apply wp_on_redis; [assumption|] | apply wp_on_redis_or; [assumption|]
    | apply wp_unless; [assumption|intros] | apply wp_when; intros
    | apply wp_check; [assumption|] | apply wp_checkAuthenticated; [assumption|] | apply wp_flag; [assumption|]
    | match goal with |- wp _ (match ?x with _ => _ end) _ _ => destruct x eqn:? end ].
Ltac wp_steps := repeat (wp_step; cbv beta zeta).
