(* ===== verification/AccountSystem.v ===== *)
(** * The account routes as one system

    Every modelled route of the auth server that writes the account database,
    as the steps of a transition system: a request, what it presents and the
    random values it draws, at a moment and under a configuration. *)

From Stdlib Require Import QArith.
From S2P Require Import Prelude Store Text Records Server CustomsClient SignIn Redis Reminders.
From S2P Require Import Bytes KeyBundle AccountStore.
From S2P Require Import PasswordFlows Login Routes SecondFactor EmailRoutes AccountRoutes.
From S2P Require Tokens Scopes OAuthStore.

#[local] Open Scope string_scope.
#[local] Open Scope Z_scope.

(** The configuration, and the services outside the model. *)
Record SiteConfig := mkSiteConfig {
  MAX_AGE : Z;                               (* sessions without a device *)
  unblockLife : Z; changeLife : Z; forgotLife : Z; resetLife : Z;
  minTime : Z;                               (* [secondaryEmail.minUnverifiedAccountTime] *)
  scrypt : string -> list Z -> list Z;
  sha256 : list Z -> list Z;
  hash_code : string -> string -> string;
  unblockForced : option (string -> bool);
  verifier : option Z;                       (* [verifierVersion] *)
  loginConfig : LoginConfig;
  vIntervals : jsobj Z; cIntervals : jsobj Z; sIntervals : jsobj Z; rolloutRate : Q;
  valid_email : string -> bool;
  subscribed : string -> bool;
  securityEvents : string -> string -> option (list SecurityEvent);
  rejected : string -> bool;                 (* domains without a mail server *)
  oauthClient : string -> option StubClient;
  imp : string -> option (list string);
  newToken : OAuthStore.Vals -> OAuthStore.DB -> OAuthStore.DB * option OAuthStore.AccessTok;
  product : string -> option (string * string) }.

(** A request, with what it presents and the random values it draws. *)
Inductive Call :=
  | CLogin (f : LoginForm) (fr : Fresh) (req : Request)
  | CReauth (id : string) (f : ReauthForm) (fr : Fresh) (req : Request)
  | CDuplicate (id : string) (fr : Fresh)
  | CSessionDestroy (id : string) (custom : option string)
  | CVerifyCode (id code : string) (req : Request)
  | CVerifyTotp (id code : string) (req : Request)
  | CVerifyRecoveryCode (id code : string) (req : Request)
  | CTotpCreate (id secret : string) (codes : list string) (salts : list (list Z)) (req : Request)
  | CTotpDestroy (id : string) (req : Request)
  | CReplaceCodes (id : string) (codes : list string) (salts : list (list Z))
  | CUpdateCodes (id : string) (codes : list string) (salts : list (list Z))
  | CCreateKey (id keyId data : string) (enabled : bool)
  | CVerifyKey (id keyId : string) (req : Request)
  | CDeleteKey (id : string)
  | CEmailStatus (id : string)
  | CVerifyLink (uid code : string) (req : Request)
  | CCreateEmail (id addr hex : string) (sent : bool) (req : Request)
  | CDestroyEmail (id addr : string) (req : Request)
  | CSecondaryVerify (id addr code : string) (req : Request)
  | CSetPrimary (id addr : string) (req : Request)
  | CSendUnblock (addr : string) (codes : list string) (req : Request)
  | CRejectUnblock (uid code : string)
  | CChangeStart (addr authPW : string) (fr : Fresh) (req : Request)
  | CChangeFinish (fr : Fresh) (pcId : string) (y : FinishPayload) (wantsKeys : bool)
  | CForgotSend (addr : string) (fr : Fresh) (code : string) (req : Request)
  | CForgotVerify (id code : string) (fr : Fresh) (req : Request)
  | CPasswordCreate (id authPW : string) (fr : Fresh)
  | CReset (fr : Fresh) (id : string) (y : ResetPayload) (wantsKeys : bool)
  | CKeys (id : string)
  | CAccountCreate (f : CreateForm) (na : NewAccount) (fr : Fresh) (sent : bool) (random : Q) (req : Request)
  | CAccountStub (addr clientId : string) (na : NewAccount) (req : Request)
  | CFinishSetup (token : option string) (authPW : string) (wantsKeys : bool) (fr : Fresh)
  | CSetPassword (uid authPW : string) (wantsKeys sendMail sent : bool) (flow : list (option string)) (fr : Fresh) (random : Q) (req : Request)
  | CAccountDestroy (session : option string) (addr authPW : string) (req : Request).

Section System.
Context {M R : Type} `{Memcached M StoredObject} `{Redis R} `{Crypto} `{Otp}.
Context (k : SiteConfig).

(** The services that a request writes to: customs, the account database and
    redis, and the OAuth store. *)
Record Site := mkSite { site : World M R; site_oauth : OAuthStore.DB }.

Definition site_db (x : Site) : DB := x.(site).(Routes.db).

Definition by_act {A} (m : Act M R A) (x : Site) : Site := mkSite (m x.(site)).1 x.(site_oauth).

Definition by_db {A} (f : State (M := M) -> DB -> State (M := M) * DB * A) (x : Site) : Site :=
  let '(s, d, _) := f x.(site).(customs) (site_db x) in mkSite (mkW s d x.(site).(redis)) x.(site_oauth).

Definition by_both {A} (f : World M R -> OAuthStore.DB -> World M R * OAuthStore.DB * A) (x : Site) : Site :=
  let '(w, o, _) := f x.(site) x.(site_oauth) in mkSite w o.

Definition serve (env : Env) (c : Call) (x : Site) : Site :=
  let w := x.(site) in
  let now := env.(Server.now) in
  match c with
  | CLogin f fr req =>
      let '(s, r, d, _) := login env k.(hash_code) k.(unblockLife) k.(unblockForced) k.(loginConfig) k.(MAX_AGE) k.(cIntervals)
                             k.(securityEvents) f fr req w.(customs) w.(redis) (site_db x) in
      mkSite (mkW s d r) x.(site_oauth)
  | CReauth id f fr req =>
      by_act (session_reauth env k.(MAX_AGE) k.(hash_code) k.(unblockLife) k.(unblockForced) k.(loginConfig).(disabledClients) id f fr req) x
  | CDuplicate id fr => by_act (session_duplicate env k.(MAX_AGE) id fr) x
  | CSessionDestroy id custom => by_act (session_destroy env k.(MAX_AGE) id custom) x
  | CVerifyCode id code req => by_act (session_verify_code env k.(MAX_AGE) k.(vIntervals) k.(cIntervals) id code req) x
  | CVerifyTotp id code req => by_act (verify_totp env k.(MAX_AGE) id code req) x
  | CVerifyRecoveryCode id code req => by_act (verify_recovery_code env k.(MAX_AGE) k.(scrypt) id code req) x
  | CTotpCreate id secret codes salts req => by_act (totp_create env k.(MAX_AGE) k.(scrypt) id secret codes salts req) x
  | CTotpDestroy id req => by_act (totp_destroy env k.(MAX_AGE) id req) x
  | CReplaceCodes id codes salts => by_act (replace_codes env k.(MAX_AGE) k.(scrypt) id codes salts) x
  | CUpdateCodes id codes salts => by_act (update_codes env k.(MAX_AGE) k.(scrypt) id codes salts) x
  | CCreateKey id keyId data b => by_act (create_recovery_key env k.(MAX_AGE) k.(sha256) id keyId data b) x
  | CVerifyKey id keyId req => by_act (verify_recovery_key env k.(MAX_AGE) k.(sha256) id keyId req) x
  | CDeleteKey id => by_act (delete_recovery_key env k.(MAX_AGE) id) x
  | CEmailStatus id => by_act (email_status env k.(MAX_AGE) k.(valid_email) k.(subscribed) id) x
  | CVerifyLink uid code req => by_act (verify_link env k.(vIntervals) uid code req) x
  | CCreateEmail id addr hex sent req => by_act (create_email env k.(MAX_AGE) k.(minTime) k.(subscribed) id addr hex sent req) x
  | CDestroyEmail id addr req => by_act (destroy_email env k.(MAX_AGE) id addr req) x
  | CSecondaryVerify id addr code req => by_act (secondary_verify_code env k.(MAX_AGE) id addr code req) x
  | CSetPrimary id addr req => by_act (set_primary env k.(MAX_AGE) id addr req) x
  | CSendUnblock addr codes req => by_act (send_unblock_code env k.(hash_code) addr codes req) x
  | CRejectUnblock uid code => by_act (reject_unblock_code k.(hash_code) uid code) x
  | CChangeStart addr pw fr req => by_db (changeStart env k.(hash_code) addr pw fr req) x
  | CForgotSend addr fr code req => by_db (forgotSendCode env addr fr code req) x
  | CForgotVerify id code fr req => by_db (forgotVerifyCode env k.(forgotLife) id code fr req) x
  | CPasswordCreate id pw fr =>
      match load_session k.(MAX_AGE) now id (site_db x) with
      | inl c => by_db (fun s d => (s, (passwordCreate env k.(verifier) pw c.(c_token) fr d).1, tt)) x
      | inr _ => x
      end
  | CKeys id => by_db (fun s d => (s, (keys id d).1, tt)) x
  | CChangeFinish fr pcId y wantsKeys =>
      let p := (changeFinish env k.(MAX_AGE) k.(changeLife) k.(verifier) fr pcId y wantsKeys
                  (PasswordFlows.mkWorld (site_db x) x.(site_oauth))).1 in
      mkSite (mkW w.(customs) p.(PasswordFlows.db) w.(redis)) p.(oauth)
  | CReset fr id y wantsKeys =>
      let '(s, p, _) := reset env k.(sha256) k.(resetLife) k.(verifier) fr id y wantsKeys w.(customs)
                          (PasswordFlows.mkWorld (site_db x) x.(site_oauth)) in
      mkSite (mkW s p.(PasswordFlows.db) w.(redis)) p.(oauth)
  | CAccountCreate f na fr sent random req =>
      by_act (accountCreate env k.(verifier) k.(loginConfig).(disabledClients) k.(subscribed) k.(vIntervals) k.(rolloutRate) random
                f na fr sent req) x
  | CAccountStub addr clientId na req =>
      by_both (accountStub env k.(verifier) k.(loginConfig).(disabledClients) k.(subscribed) k.(rejected) k.(oauthClient) k.(imp)
                 k.(newToken) addr clientId na req) x
  | CFinishSetup token pw wantsKeys fr =>
      by_act (finishSetup env k.(verifier) k.(vIntervals) k.(sIntervals) token pw wantsKeys fr.(seed_session)) x
  | CSetPassword uid pw wantsKeys sendMail sent flow fr random req =>
      by_act (setPassword env k.(verifier) k.(vIntervals) k.(sIntervals) k.(rolloutRate) random k.(product) uid pw wantsKeys
                sendMail sent flow fr.(seed_session) req) x
  | CAccountDestroy session addr pw req => by_both (destroy env k.(MAX_AGE) k.(hash_code) session addr pw req) x
  end.

(** The state after a history of requests, the latest first. *)
Fixpoint run (t : list (Env * Call)) (x : Site) : Site :=
  match t with [] => x | (env, c) :: t => serve env c (run t x) end.
End System.
