(* ===== verification/FactorLaws.v ===== *)
(** * Theorems on second factors, sessions and addresses

    About the routes of [SecondFactor] and [EmailRoutes], composed with
    logging in and fetching keys: codes by mail, reauthentication and
    duplicates of sessions, recovery codes as a set, addresses that another
    account has not verified, and the drawing of unblock codes. *)

From Stdlib Require Import QArith.
From S2P Require Import Prelude Store Text Records Server CustomsClient SignIn Redis Reminders.
From S2P Require Import Bytes KeyBundle AccountStore.
From S2P Require Import PasswordFlows Login Routes SecondFactor EmailRoutes AccountSystem.
From S2P Require Tokens.

#[local] Open Scope string_scope.
#[local] Open Scope Z_scope.

(** ** Codes by mail *)

Section ByMail.
Context {M R : Type} `{Memcached M StoredObject} `{Redis R} `{CryptoLaws} `{OtpLaws}.
Context (env : Env) (MAX_AGE : Z) (verificationIntervals cadIntervals : jsobj Z).
Abbreviation now := (env.(Server.now)).

(** The code that /recovery_email/secondary/resend_code sends to the primary
    address. *)
Lemma resend_to_primary id req (w : World M R) c a s q :
  load_session MAX_AGE now id w.(Routes.db) = inl c -> w.(Routes.db).(accounts) !! c.(c_uid) = Some a ->
  client_check env c.(c_email) "recoveryEmailSecondaryResendCode" req w.(customs) = (s, (q, Pass)) ->
  secondary_resend_code env MAX_AGE id a.(primaryNormalized) req w =
    (mkW s w.(Routes.db) w.(redis), inl (mkCodeMail a.(primaryEmail) (otp_generate a.(emailCode) now))).
Proof.
  intros Hc Ha Hs. unfold secondary_resend_code.
  erewrite bind_ok by (by apply auth_ok). erewrite bind_ok by (by eapply check_ok).
  erewrite bind_ok by (unfold fetch, account; cbn; by rewrite Ha).
  unfold bind, query, find_email, accountEmails. cbn [Routes.db]. rewrite Ha. cbn.
  unfold emailsMatch. by rewrite String.eqb_refl.
Qed.

(** A right code verifies the session, whatever the account asks for. *)
Lemma verify_code_db id code req (w w' : World M R) c a s q r :
  load_session MAX_AGE now id w.(Routes.db) = inl c -> w.(Routes.db).(accounts) !! c.(c_uid) = Some a ->
  client_check env c.(c_email) "verifySessionCode" req w.(customs) = (s, (q, Pass)) ->
  otp_check a.(emailCode) now code = true -> a.(primaryVerified) = true ->
  session_verify_code env MAX_AGE verificationIntervals cadIntervals id code req w = (w', r) ->
  exists d, verifyTokensWithMethod id 1 w.(Routes.db) = inl d /\ w'.(Routes.db) = d.
Proof.
  intros Hc Ha Hs Ho Hv. pose proof Hc as (row & Hr & Hid & _)%load_session_spec.
  assert (exists d, verifyTokensWithMethod id 1 w.(Routes.db) = inl d) as [d Hd].
  { unfold verifyTokensWithMethod. rewrite Hr. eauto. }
  unfold session_verify_code.
  erewrite bind_ok by (by apply auth_ok). erewrite bind_ok by (by eapply check_ok).
  erewrite bind_ok by (unfold fetch, account; cbn; by rewrite Ha).
  erewrite bind_ok by (by rewrite Ho). rewrite Hid.
  erewrite bind_ok by (unfold update; cbn [Routes.db]; by rewrite Hd).
  rewrite Hv. cbn [negb]. unfold on_redis, on_redis_or. cbn [redis Routes.db customs].
  destruct (cleanupReminders _ _ _ _) as [r1 ok]. intros [= <- _]. by exists d.
Qed.

(** [C27] The password and the mailbox are enough for an account with a second
    factor: after a login the code that is asked for by the primary address
    as if it were a secondary one, and given to /session/verify_code, verifies
    the session, and the keys held back by the login are handed out. *)
Theorem mail_code_skips_second_factor cfg events f fr susp unbl ip uid a p d d' reply wKb unwrapB kB req req' (w : World M R) s1 q1 s2 q2 :
  hasTotpToken uid d = true -> 0 <= MAX_AGE ->
  open_session env cfg MAX_AGE events f fr susp unbl ip uid a p d = (d', inl reply) -> f.(l_wantsKeys) = true ->
  d.(accounts) !! uid = Some a -> account_ok a -> a.(primaryVerified) = true -> fresh_ok fr ->
  str_truthy fr.(verification) = true -> kf_id fr <> session_id fr ->
  d.(unverifiedTokens) !! kf_id fr = None -> d.(unverifiedTokens) !! session_id fr = None ->
  unwrap p (to_hex a.(wrapWrapKb)) None = Some wKb -> unwrapKB wKb unwrapB = Some kB ->
  w.(Routes.db) = d' ->
  client_check env a.(primaryEmail) "recoveryEmailSecondaryResendCode" req w.(customs) = (s1, (q1, Pass)) ->
  client_check env a.(primaryEmail) "verifySessionCode" req' s1 = (s2, (q2, Pass)) ->
  exists key w1 m, reply.(lr_keyFetchToken) = Some key /\
    keys (kf_id fr) d' = (d', inr PUnverifiedAccount) /\
    secondary_resend_code env MAX_AGE (session_id fr) a.(primaryNormalized) req w = (w1, inl m) /\
    m.(m_to) = a.(primaryEmail) /\
    forall w2 r, session_verify_code env MAX_AGE verificationIntervals cadIntervals (session_id fr) m.(m_code) req' w1 = (w2, r) ->
      exists d3, accountKeys key unwrapB w2.(Routes.db) = (d3, inl (to_hex a.(kA), kB)).
Proof.
  intros Htotp Hage Ho Hk Ha Hok Hver Hfr Hv Hdiff Hnk Hns HwKb HkB Hw Hc1 Hc2.
  destruct (login_keys_spec env cfg MAX_AGE events f fr susp unbl ip uid a p d d' reply wKb unwrapB kB)
    as (key & Hkey & Hun & _ & Hheld); [done..|]. destruct (Hheld (Hun Htotp)) as [Hrefused Hgiven].
  destruct (open_session_spec env cfg MAX_AGE events f fr susp unbl ip uid a p d d' reply Ho Hk)
    as (method & pl & t & wk & _ & _ & _ & Ht & Hd' & _).
  assert (d'.(accounts) = d.(accounts) /\ d'.(sessionTokens) !! session_id fr = Some (mkSessionRow uid now None (mustVerifySession pl) None))
    as [Hacc Hrow].
  { rewrite Hd'. unfold createKeyFetchToken, createSessionToken, add_unverified. cbn zeta.
    split; destruct (kf_tokenVerificationId t), (needsVerificationId pl); cbn; by rewrite ?lookup_insert_eq. }
  destruct (load_new_session MAX_AGE now (session_id fr) d' uid (mustVerifySession pl) None a) as [tok Hload];
    [done|done|by rewrite Hacc|]. rewrite <- Hw in Hload.
  eexists key, _, _. split; [done|]. split; [done|]. split.
  { eapply resend_to_primary; [exact Hload|cbn; by rewrite Hw, Hacc|exact Hc1]. }
  split; [done|]. intros w2 r Hvc.
  destruct (verify_code_db (session_id fr) _ req' (mkW s1 w.(Routes.db) w.(redis)) _ (mkSession (session_id fr) uid (primaryEmail a) tok) a s2 q2 _
    Hload ltac:(cbn; rewrite Hw, Hacc; exact Ha) Hc2 (generated_checks _ _) Hver Hvc) as (d2 & Hd2 & ->). cbn [Routes.db] in Hd2. rewrite Hw in Hd2. by apply Hgiven in Hd2.
Qed.
End ByMail.

(** ** Reauthenticating *)

Section Reauth.
Context {M R : Type} `{Memcached M StoredObject} `{CryptoLaws}.
Context (env : Env) (MAX_AGE : Z) (hash_code : string -> string -> string) (life : Z) (forced : option (string -> bool)) (clients : list string).
Abbreviation now := (env.(Server.now)).

(** The password check of an account that a password opens. *)
Lemma check_password_ok (w : World M R) uid a p ip :
  w.(Routes.db).(accounts) !! uid = Some a -> account_ok a -> to_hex a.(AccountStore.authSalt) <> ONES ->
  matches p (to_hex a.(a_verifyHash)) = true ->
  check_password env hash_code (signin_account uid a) (verifyHash p) ip w = (w, inl true).
Proof.
  intros Ha Hok Hsalt Hm. apply matches_stored in Hm; [|apply Hok]. unfold check_password, SignIn.checkPassword.
  cbn [signin_account SignIn.authSalt]. rewrite (proj2 (String.eqb_neq _ _) Hsalt). cbn. unfold checkPassword.
  rewrite Ha, bool_decide_eq_true_2 by done. by destruct w.
Qed.

(** /session/reauth does not compare the account whose password it checks
    with the account of the session: a verified session of any account gets
    the keys of another one for its password, although that one has a second
    factor. *)
Theorem reauth_foreign_session id f fr req req1 (w : World M R) c uid a addr pw kB s1 unb :
  load_session MAX_AGE now id w.(Routes.db) = inl c -> c.(c_uid) <> uid -> w.(Routes.db).(unverifiedTokens) !! id = None ->
  client_disabled clients f.(ra_service) = false ->
  checkCustomsAndLoadAccount (H0 := account_db hash_code) env life forced f.(ra_email) f.(ra_originalLoginEmail) req w.(customs) w.(Routes.db) =
    (s1, w.(Routes.db), req1, inl (signin_account uid a, unb)) ->
  checkEmailAddress (signin_account uid a) f.(ra_email) f.(ra_originalLoginEmail) = inl true ->
  w.(Routes.db).(accounts) !! uid = Some a -> account_ok a -> a.(primaryVerified) = true ->
  to_hex a.(AccountStore.authSalt) <> ONES -> opens a addr pw kB -> f.(ra_authPW) = (getCredentials addr pw).(cc_authPW) ->
  hasTotpToken uid w.(Routes.db) = true -> f.(ra_wantsKeys) = true -> fresh_ok fr ->
  w.(Routes.db).(unverifiedTokens) !! kf_id fr = None ->
  exists w' rep key d3,
    session_reauth env MAX_AGE hash_code life forced clients id f fr req w = (w', inl rep) /\ rep.(rr_keyFetchToken) = Some key /\
    accountKeys key (getCredentials addr pw).(cc_unwrapBKey) w'.(Routes.db) = (d3, inl (to_hex a.(kA), kB)).
Proof.
  intros Hc _ Hu Hcl Hg He Ha Hok Hv Hsalt (p & wk & Hp & Hm & Hw & HkB) Hpw Ht Hk Hfr Hn.
  pose proof Hc as (row & Hr & _ & _ & _ & _ & Hvid)%load_session_spec. rewrite Hu in Hvid. cbn in Hvid.
  destruct (unwrap_spec p (to_hex (wrapWrapKb a)) None) as (w1 & Hw1 & Hh & _); [apply bytes_hex_of; apply Hok|].
  assert (w1 = wk) as -> by congruence.
  destruct (key_fetch_spec fr.(seed_key) uid (to_hex (kA a)) wk a.(primaryVerified) None) as (t & Htk & Hkeys & Huid & Hv0 & _);
    [apply Hfr|apply Hfr|apply bytes_hex_of; apply Hok|done|].
  unfold session_reauth.
  erewrite bind_ok by (by apply auth_ok). erewrite bind_ok by (by rewrite Hcl). erewrite bind_ok by (unfold gate; by rewrite Hg).
  cbv iota. erewrite bind_ok by (by rewrite He). cbn [signin_account a_uid].
  erewrite bind_ok by (unfold fetch, account; cbn; by rewrite Ha). rewrite Hpw, Hp.
  erewrite bind_ok by (apply check_password_ok; try done). erewrite bind_ok by done.
  erewrite bind_ok by done. cbn [Routes.db]. rewrite Ht. erewrite bind_ok by done. cbv zeta.
  erewrite bind_ok by done. rewrite Hk, Hvid. cbn [Routes.db].
  erewrite bind_ok; [|erewrite bind_ok; [done|]; unfold session_keys, login_keys; cbn [Routes.db]; rewrite Hw; cbn [mbind option_bind];
    unfold give_keys; rewrite Htk; done].
  eexists _, _, _, _. split; [done|]. split; [done|]. cbn [Routes.db]. rewrite Hkeys. cbn [k_data deriveTokenKeys].
  apply (accountKeys_any env fr uid (to_hex (kA a)) wk a.(primaryVerified) None t _
    (updateSessionToken (c_id c) (Some now) (Tokens.mustVerify (c_token c) || true || true) (Routes.db w)) a);
    [done|done|apply bytes_hex_of; apply Hok|done|done|done| | |done];
    unfold createKeyFetchToken; by rewrite Hv0.
Qed.
End Reauth.

(** ** Duplicating a session *)

Section Duplicate.
Context {M R : Type} `{Memcached M StoredObject} `{Crypto} (env : Env) (MAX_AGE : Z).
Abbreviation now := (env.(Server.now)).

Lemma truthy_id_idem x : Tokens.truthy_id (Tokens.truthy_id x) = Tokens.truthy_id x.
Proof. unfold Tokens.truthy_id. destruct (ostr_truthy x) eqn:E; [by rewrite E|done]. Qed.

Lemma session_lastAuthAt id d t r :
  sessionToken MAX_AGE now id d = inl t -> d.(sessionTokens) !! id = Some r -> default r.(s_createdAt) r.(s_authAt) <> 0 ->
  Tokens.lastAuthAt t = default r.(s_createdAt) r.(s_authAt) / 1000.
Proof.
  unfold sessionToken. intros Ht Hr Hne. rewrite Hr in Ht. destruct (_ || _); [|done]. injection Ht as <-.
  set (x := default _ _) in *. unfold Tokens.lastAuthAt, Tokens.new_SessionToken. cbn [Tokens.authAt Tokens.d_authAt Tokens.token].
  assert (or0 (Some x) = x) as -> by (by destruct x). by rewrite (proj2 (Z.eqb_neq _ _) Hne).
Qed.

Lemma create_session_spec seed det d :
  let '(d', t) := create_session env MAX_AGE seed det d in
  d' = createSessionToken (token_id "sessionToken" seed) (default "" det.(Tokens.d_uid)) now det.(Tokens.d_mustVerify)
         (Tokens.truthy_id det.(Tokens.d_tokenVerificationId)) d /\
  t.(Tokens.authAt) = or0 det.(Tokens.d_authAt).
Proof. unfold create_session, Tokens.new_SessionToken. cbn. by destruct (_ && _). Qed.

(** A duplicate of a session keeps its user and whether it is verified, but
    not what it was authenticated with, nor when: the time of creation that
    the route means to copy is replaced by the current one, and neither the
    time of authentication nor the method is stored.  Only the answer of the
    request still shows the old time. *)
Theorem duplicate_forgets_authentication id fr (w w' : World M R) c a rep :
  load_session MAX_AGE now id w.(Routes.db) = inl c -> w.(Routes.db).(accounts) !! c.(c_uid) = Some a ->
  0 <= MAX_AGE -> 0 < now -> str_truthy fr.(verification) = true -> c.(c_token).(Tokens.authAt) <> 0 ->
  w.(Routes.db).(unverifiedTokens) !! session_id fr = None ->
  session_duplicate env MAX_AGE id fr w = (w', inl rep) ->
  rep.(dr_authAt) = Tokens.lastAuthAt c.(c_token) /\
  exists c', load_session MAX_AGE now (session_id fr) w'.(Routes.db) = inl c' /\ c'.(c_uid) = c.(c_uid) /\
    unverified c' = unverified c /\ Tokens.lastAuthAt c'.(c_token) = now / 1000 /\ aal c' = 1.
Proof.
  intros Hc Ha Hage Hnow Hfr Hauth Hnew. pose proof Hc as (r & Hr & _ & Hu & Ht & _ & Hvid)%load_session_spec.
  pose proof (session_token_uid _ _ _ _ _ Hc) as Huid.
  assert (exists v, Tokens.tokenVerificationId (c_token c) = v /\ Tokens.truthy_id v = v) as (v & Hv & Hvv).
  { exists (Tokens.tokenVerificationId (c_token c)). split; [done|]. rewrite Hvid. apply truthy_id_idem. }
  unfold session_duplicate. erewrite bind_ok by (by apply auth_ok). erewrite bind_ok by done.
  pose proof (create_session_spec (seed_session fr) (Tokens.copyTokenState (verification fr) (c_token c)) (Routes.db w)) as Hcs.
  destruct (create_session _ _ _ _ _) as [d t]. destruct Hcs as [Hd Hta]. cbn in Hd.
  replace (or0 _) with (Tokens.authAt (c_token c)) in Hta by (cbn; by destruct (Tokens.authAt (c_token c))).
  erewrite bind_ok by done. intros [= <- <-]. cbn [dr_authAt Routes.db].
  split; [unfold Tokens.lastAuthAt; rewrite Hta, (proj2 (Z.eqb_neq _ _) Hauth); done|].
  assert (Tokens.truthy_id (v ≫= fun _ => Some fr.(verification)) = (v ≫= fun _ => Some fr.(verification))) as Htv
    by (destruct v; cbn; [unfold Tokens.truthy_id; cbn; by rewrite Hfr|done]).
  rewrite Huid, Hv, Htv in Hd. cbn in Hd. fold (session_id fr) in Hd. set (must := Tokens.mustVerify (c_token c)) in *.
  assert (d.(sessionTokens) !! session_id fr = Some (mkSessionRow c.(c_uid) now None must None)) as Hrow
    by (rewrite Hd; unfold createSessionToken, add_unverified; destruct v; cbn; by rewrite lookup_insert_eq).
  destruct (load_new_session MAX_AGE now (session_id fr) d c.(c_uid) must None a) as [t' Hload]; [done|done| |].
  { rewrite Hd. by unfold createSessionToken, add_unverified; destruct v. }
  eexists. split; [exact Hload|]. split; [done|].
  pose proof Hload as (r' & Hr' & _ & _ & Ht' & _ & Hvid')%load_session_spec.
  assert (r' = mkSessionRow (c_uid c) now None must None) as -> by congruence. split_and!.
  - unfold unverified. rewrite Hv. cbn [c_token] in *. rewrite Hvid', Hd. unfold createSessionToken, add_unverified.
    destruct v as [v|]; [|by cbn in *; rewrite Hnew]. cbn [mbind option_bind on_unverified on_sessions unverifiedTokens].
    rewrite lookup_insert_eq. cbn. unfold Tokens.truthy_id in *. cbn in *.
    rewrite Hfr. cbn. destruct (str_truthy v); [by rewrite Hfr|done].
  - by rewrite (session_lastAuthAt _ _ _ _ Ht' Hrow) by (cbn; lia).
  - by rewrite (aal_two _ _ _ _ _ _ Hload Hrow).
Qed.
End Duplicate.

(** ** Recovery codes *)

Section RecoveryCodes.
Context (scrypt : string -> list Z -> list Z).

(** An attempt collides with a code: it is another text with the same hash
    under the code's salt. *)
Definition collision (pairs : list (string * list Z)) (tries : list string) : Prop :=
  Exists (fun p => Exists (fun a => a <> p.1 /\ scrypt a p.2 = scrypt p.1 p.2) tries) pairs.

Lemma collision_spec pairs tries :
  collision pairs tries <->
  exists code salt a, (code, salt) ∈ pairs /\ a ∈ tries /\ a <> code /\ scrypt a salt = scrypt code salt.
Proof.
  unfold collision. rewrite Exists_exists. split.
  - intros ([code salt] & Hp & (a & Ha & Hne & He)%Exists_exists). by exists code, salt, a.
  - intros (code & salt & a & Hp & Ha & Hne & He). exists (code, salt). split; [done|]. apply Exists_exists. by exists a.
Qed.

(** No attempt of [tries] collides with a code of [pairs]. *)
Lemma no_collision pairs tries p a :
  ~ collision pairs tries -> p ∈ pairs -> a ∈ tries -> scrypt p.1 p.2 = scrypt a p.2 -> p.1 = a.
Proof.
  intros Hn Hp Ha He. destruct (decide (p.1 = a)) as [|Hne]; [done|]. destruct Hn. apply collision_spec.
  exists p.1, p.2, a. split_and!; [by destruct p|done..].
Qed.

Lemma collision_mono pairs pairs' tries tries' :
  pairs' ⊆ pairs -> tries' ⊆ tries -> ~ collision pairs tries -> ~ collision pairs' tries'.
Proof. rewrite !collision_spec. intros Hp Ht Hn (c & salt & a & Hc & Ha & Hr). apply Hn. exists c, salt, a. auto. Qed.

(** A series of attempts, with the number of codes left after each success. *)
Fixpoint consume_all (uid : string) (attempts : list string) (d : DB) : list (option Z) :=
  match attempts with
  | [] => []
  | code :: attempts =>
      match consumeRecoveryCode scrypt uid code d with
      | inl (d, remaining) => Some remaining :: consume_all uid attempts d
      | inr _ => None :: consume_all uid attempts d
      end
  end.

(** The same for a set of codes. *)
Fixpoint redeem (left attempts : list string) : list (option Z) :=
  match attempts with
  | [] => []
  | code :: attempts =>
      if bool_decide (code ∈ left)
      then let left := filter (fun c => c <> code) left in Some (Z.of_nat (length left)) :: redeem left attempts
      else None :: redeem left attempts
  end.

Definition row_of (p : string * list Z) : list Z * list Z := (scrypt p.1 p.2, p.2).

Lemma rows_zip codes salts : zip_with (fun code salt => (scrypt code salt, salt)) codes salts = row_of <$> zip codes salts.
Proof. rewrite zip_with_zip. apply list_fmap_ext. by intros ? []. Qed.

Lemma insert_codes_ok rows present present' :
  insert_codes rows present = (present', true) -> NoDup present.*1 -> present' = (present ++ rows)%list /\ NoDup present'.*1.
Proof.
  revert present. induction rows as [|row rows IH]; intros present; cbn.
  - intros [= <-]. by rewrite app_nil_r.
  - case_bool_decide as Hin; [done|]. intros H Hnd. apply IH in H as [-> ?].
    + by rewrite <- app_assoc in *.
    + rewrite fmap_app. apply NoDup_app. split; [done|]. split; [intros x Hx Hy; cbn in Hy; apply list_elem_of_singleton in Hy as ->; done|]. apply NoDup_singleton.
Qed.

Lemma find_code_rows code pairs :
  ~ collision pairs [toLowerCase code] ->
  find_code scrypt code (row_of <$> pairs) =
  (fun p => scrypt p.1 p.2) <$> head (filter (fun p => p.1 = toLowerCase code) pairs).
Proof.
  induction pairs as [|p pairs IH]; intros Hn; [done|]. cbn [fmap list_fmap find_code]. unfold code_matches at 1. cbn [row_of fst snd].
  rewrite filter_cons. destruct (decide (p.1 = toLowerCase code)) as [He|Hne].
  - rewrite bool_decide_eq_true_2 by (by rewrite He). done.
  - rewrite bool_decide_eq_false_2 by (intros He; apply Hne, (no_collision _ _ _ _ Hn); [left|left|done]).
    apply IH. eapply collision_mono; [| |exact Hn]; set_solver.
Qed.

Lemma filter_all {A} (P : A -> Prop) `{!forall x, Decision (P x)} (l : list A) : (forall x, x ∈ l -> P x) -> filter P l = l.
Proof.
  induction l as [|x l IH]; intros HP; [done|]. rewrite filter_cons, decide_True by (apply HP; left).
  f_equal. apply IH. intros y Hy. apply HP. by right.
Qed.

(** Deleting a code by its hash deletes the code. *)
Lemma delete_pair pairs p :
  NoDup ((fun p => scrypt p.1 p.2) <$> pairs) -> NoDup pairs.*1 -> p ∈ pairs ->
  filter (fun row => row.1 <> scrypt p.1 p.2) (row_of <$> pairs) = row_of <$> filter (fun q => q.1 <> p.1) pairs.
Proof.
  induction pairs as [|q pairs IH]; [done|]. cbn [fmap list_fmap]. intros [Hq Hnd]%NoDup_cons [Hq1 Hnd1]%NoDup_cons Hin.
  rewrite !filter_cons. cbn [row_of fst]. destruct (decide (p = q)) as [->|Hne].
  - rewrite decide_False by tauto. rewrite (decide_False (P := q.1 <> q.1)) by tauto.
    rewrite !filter_all; [done|..].
    + intros r Hr He. apply Hq1. rewrite <- He. apply list_elem_of_fmap. eauto.
    + intros r (r' & -> & Hr)%list_elem_of_fmap He. apply Hq. cbn in He. rewrite <- He. apply (list_elem_of_fmap_2 (fun p => scrypt p.1 p.2) _ _ Hr).
  - apply elem_of_cons in Hin as [?|Hin]; [done|].
    rewrite (decide_True (P := scrypt q.1 q.2 <> _)).
    + rewrite (decide_True (P := q.1 <> p.1)); [|intros He; apply Hq1; rewrite He; by apply list_elem_of_fmap_2].
      cbn. by rewrite IH.
    + intros He. apply Hq. rewrite He. by apply (list_elem_of_fmap_2 (fun p => scrypt p.1 p.2)).
Qed.

(** The stored rows stand for the codes [left], and no attempt of [tries]
    collides with one of them. *)
Definition stands_for (rows : list (list Z * list Z)) (left tries : list string) : Prop :=
  exists pairs, rows = row_of <$> pairs /\ left = pairs.*1 /\ NoDup rows.*1 /\ NoDup left /\ ~ collision pairs tries.

Lemma redeem_rows uid attempts rows left d :
  d.(recoveryCodes) !! uid = Some rows -> stands_for rows left (toLowerCase <$> attempts) ->
  consume_all uid attempts d = redeem left (toLowerCase <$> attempts).
Proof.
  revert rows left d. induction attempts as [|code attempts IH]; intros rows left d Hd (pairs & -> & -> & Hh & Hl & Hn); [done|].
  cbn [consume_all redeem fmap list_fmap]. unfold consumeRecoveryCode. rewrite Hd. cbn [default from_option id].
  rewrite find_code_rows by (eapply collision_mono; [| |exact Hn]; set_solver). set (c := toLowerCase code).
  destruct (filter (fun p => p.1 = c) pairs) as [|p ps] eqn:Hf; cbn [head fmap option_fmap option_map].
  - rewrite bool_decide_eq_false_2.
    + f_equal. apply (IH (row_of <$> pairs)); [done|]. exists pairs. split_and!; try done.
      eapply collision_mono; [| |exact Hn]; set_solver.
    + intros (p & He & Hp)%list_elem_of_fmap. assert (p ∈ filter (fun p => p.1 = c) pairs) as Hin by (apply list_elem_of_filter; done).
      rewrite Hf in Hin. by apply elem_of_nil in Hin.
  - assert (p ∈ filter (fun p => p.1 = c) pairs) as [Hp Hin]%list_elem_of_filter by (rewrite Hf; left).
    rewrite bool_decide_eq_true_2 by (rewrite <- Hp; by apply list_elem_of_fmap_2).
    assert ((row_of <$> pairs).*1 = (fun p => scrypt p.1 p.2) <$> pairs) as Hfst by (rewrite <- list_fmap_compose; done).
    rewrite Hfst in Hh. unfold delete_code. rewrite Hd. cbn [default from_option id].
    rewrite delete_pair by done. rewrite Hp. cbv zeta.
    assert (filter (fun x => x <> c) pairs.*1 = (filter (fun q => q.1 <> c) pairs).*1) as ->.
    { clear. induction pairs as [|q pairs IH]; [done|]. cbn [fmap list_fmap]. rewrite !filter_cons. cbn.
      destruct (decide (q.1 <> c)); cbn; by rewrite IH. }
    rewrite !length_fmap. f_equal. apply (IH (row_of <$> filter (fun q => q.1 <> c) pairs)).
    + cbn. by rewrite lookup_insert_eq.
    + eexists. split; [done|]. split; [done|]. rewrite <- list_fmap_compose. split_and!.
      * apply (sublist_NoDup _ ((fun p => scrypt p.1 p.2) <$> pairs)); [done|]. apply fmap_sublist, sublist_filter.
      * apply (sublist_NoDup _ pairs.*1); [done|]. apply fmap_sublist, sublist_filter.
      * eapply collision_mono; [| |exact Hn]; [|set_solver]. intros q. by intros [_ ?]%list_elem_of_filter.
Qed.

#[local] Instance collision_dec pairs tries : Decision (collision pairs tries).
Proof. unfold collision. apply _. Defined.

(** [C40] Recovery codes work as a set: after new codes have been given out, an
    attempt succeeds exactly when it is one of them, in either case, and was
    not used before, and the count of the codes left is right.  Otherwise an
    attempt is another text than one of the codes and scrypt gives it the same
    hash under that code's salt. *)
Theorem recovery_codes_refine_set uid codes salts d d' drawn attempts :
  replaceRecoveryCodes scrypt uid codes salts d = (d', inl drawn) -> length salts = length codes -> NoDup drawn ->
  consume_all uid attempts d' = redeem drawn (toLowerCase <$> attempts) \/
  exists code salt a, (code, salt) ∈ zip drawn salts /\ a ∈ toLowerCase <$> attempts /\ a <> code /\
    scrypt a salt = scrypt code salt.
Proof.
  unfold replaceRecoveryCodes, updateRecoveryCodes. destruct (accounts d !! uid); [|done].
  set (rows := zip_with _ _ _). destruct (insert_codes rows []) as [present ok] eqn:Hi. destruct ok; [|done].
  intros [= <- <-] Hlen Hnd. apply insert_codes_ok in Hi as [-> Hh]; [|constructor].
  rewrite <- collision_spec. destruct (decide (collision (zip (toLowerCase <$> codes) salts) (toLowerCase <$> attempts))) as [|Hn]; [by right|].
  left. apply (redeem_rows uid attempts rows); [cbn; by rewrite lookup_insert_eq|].
  exists (zip (toLowerCase <$> codes) salts). split_and!; try done.
  - apply rows_zip.
  - rewrite fst_zip; [done|]. rewrite length_fmap. lia.
Qed.

(** Codes that a client chooses and that contain a capital letter are stored
    as they are, but attempts are compared in lower case: they never work,
    unless the attempt collides with one of them. *)
Theorem capital_codes_unusable uid codes salts d d' attempt :
  updateRecoveryCodes scrypt uid codes salts d = (d', inl tt) -> (forall c, c ∈ codes -> toLowerCase c <> c) ->
  ~ collision (zip codes salts) [toLowerCase attempt] ->
  consumeRecoveryCode scrypt uid attempt d' = inr RecoveryCodeNotFound.
Proof.
  unfold updateRecoveryCodes. destruct (accounts d !! uid); [|done].
  set (rows := zip_with _ _ _). destruct (insert_codes rows []) as [present ok] eqn:Hi. destruct ok; [|done].
  intros [= <-] Hc Hn. apply insert_codes_ok in Hi as [-> _]; [|constructor]. unfold consumeRecoveryCode. cbn.
  rewrite lookup_insert_eq. cbn.
  assert (rows = row_of <$> zip codes salts) as -> by apply rows_zip.
  rewrite find_code_rows by done. destruct (filter _ (zip codes salts)) as [|p ps] eqn:Hf; [done|]. exfalso.
  assert (p ∈ filter (fun p => p.1 = toLowerCase attempt) (zip codes salts)) as [Hp Hin]%list_elem_of_filter by (rewrite Hf; left).
  destruct p as [c salt]. apply elem_of_zip_l in Hin. cbn in Hp. apply (Hc c); [done|]. by rewrite Hp, lower_idem.
Qed.
End RecoveryCodes.

(** ** Addresses of other accounts *)

Section Addresses.
Context {M R : Type} (env : Env) (minTime : Z) (subscribed : string -> bool).
Abbreviation now := (env.(Server.now)).

(** Adding an address that another account has added but not verified is
    meant to take it away from there.  That works exactly when the other
    account wrote it in lower case: the row is looked for by the address as
    written, although rows are kept under the normalised one; otherwise the
    address counts as taken. *)
Theorem unverified_address_released uid addr hex (w : World M R) r :
  let n := toLowerCase addr in let d := w.(Routes.db) in
  d.(secondaryEmails) !! n = Some r -> d.(emails) !! n = Some r.(e_uid) -> r.(e_verified) = false ->
  buffersAreEqual (Hex r.(e_uid)) (Hex uid) = false -> toLowerCase r.(e_address) = n ->
  (forall m r', d.(secondaryEmails) !! m = Some r' -> toLowerCase m = m) ->
  (forall a, d.(accounts) !! r.(e_uid) = Some a -> a.(primaryNormalized) <> r.(e_address)) ->
  ((deleteAccountIfUnverified env minTime subscribed uid addr;;;
    update (createEmail uid n addr hex false now)) w).2 =
  if String.eqb r.(e_address) n then inl tt else inr (RDB EmailExists).
Proof.
  intros n d Hr He Hv Hb Hn Hnorm Hprim. unfold deleteAccountIfUnverified, bind at 1 2. unfold query at 1. cbv iota beta.
  unfold getSecondaryEmail. fold d n. rewrite Hr. cbn [secondary_email fe_primary fe_verified fe_uid fe_address].
  rewrite Hv, Hb. cbn [negb andb]. unfold update at 1, deleteEmail. fold d.
  assert (match d.(accounts) !! r.(e_uid) with Some a => bool_decide (a.(primaryNormalized) = r.(e_address)) | None => false end = false) as ->.
  { destruct (accounts d !! e_uid r) as [a|] eqn:Ha; [|done]. apply bool_decide_eq_false_2. by apply Hprim. }
  unfold update, createEmail. assert (toLowerCase n = n) as Hnn by apply lower_idem.
  destruct (String.eqb_spec (e_address r) n) as [Heq|Hne].
  - rewrite Heq, Hr, bool_decide_eq_true_2 by done. cbn. rewrite Hnn, lookup_delete_eq. done.
  - assert (d.(secondaryEmails) !! e_address r = None) as ->.
    { destruct (secondaryEmails d !! e_address r) as [r'|] eqn:Ha; [|done]. apply Hnorm in Ha. congruence. }
    cbn. fold d. by rewrite Hnn, He.
Qed.
End Addresses.

(** ** Unblock codes *)

Section Unblock.
Context (env : Env) (hash_code : string -> string -> string).

Lemma unblock_none uid codes d :
  new_unblock_code env hash_code uid codes d = None ->
  forall c, c ∈ codes -> hash_code uid c ∈ dom (default ∅ (d.(unblockCodes) !! uid)).
Proof.
  induction codes as [|c codes IH]; cbn; [by intros _ c ?%elem_of_nil|].
  destruct (_ ≫= _) as [t|] eqn:E; [|done]. intros Hn c' [->|Hc']%elem_of_cons; [|by apply IH].
  destruct (unblockCodes d !! uid) as [m|]; [|done]. cbn in *. by apply elem_of_dom_2 in E.
Qed.

Lemma unblock_some uid codes d d' code :
  new_unblock_code env hash_code uid codes d = Some (d', code) ->
  code ∈ codes /\ d' = createUnblockCode hash_code uid code env.(Server.now) d.
Proof.
  induction codes as [|c codes IH]; cbn; [done|]. destruct (_ ≫= _).
  - intros [? ?]%IH. split; [by right|done].
  - intros [= <- <-]. split; [left|done].
Qed.

(** Drawing a new unblock code ends: as soon as there are more draws with
    different hashes than codes that the account has, one is new; it is
    stored, and the account can be unblocked with it. *)
Theorem unblock_code_drawn uid codes d :
  NoDup (hash_code uid <$> codes) -> (size (default ∅ (d.(unblockCodes) !! uid)) < length codes)%nat -> 0 < env.(Server.now) ->
  exists d' code, new_unblock_code env hash_code uid codes d = Some (d', code) /\ code ∈ codes /\
    (consumeUnblockCode hash_code uid code d').2 = inl env.(Server.now).
Proof.
  intros Hnd Hsize Hnow. destruct (new_unblock_code _ _ _ _ _) as [[d' code]|] eqn:Hn.
  - apply unblock_some in Hn as [Hc ->]. exists (createUnblockCode hash_code uid code (Server.now env) d), code. split; [done|]. split; [done|].
    unfold consumeUnblockCode, createUnblockCode. cbn. rewrite lookup_insert_eq. cbn. rewrite lookup_insert_eq.
    by rewrite (proj2 (Z.gtb_lt _ _) Hnow).
  - exfalso. pose proof (unblock_none _ _ _ Hn) as Hall. set (m := default ∅ _) in *.
    assert (list_to_set (C := gset string) (hash_code uid <$> codes) ⊆ dom m) as Hsub.
    { intros x Hx. apply elem_of_list_to_set, list_elem_of_fmap in Hx as (c & -> & Hc). by apply Hall. }
    apply subseteq_size in Hsub. rewrite size_list_to_set, length_fmap, size_dom in Hsub by done. lia.
Qed.
End Unblock.

(** ** Witnesses *)

#[local] Existing Instance toy_crypto.
#[local] Existing Instance toy_laws.

(** Codes that are their secrets. *)
#[export] Instance toy_otp : Otp := {|
  totp_check secret _ code := String.eqb secret code; otp_check secret _ code := String.eqb secret code;
  otp_generate secret _ := secret |}.

#[export] Instance toy_otp_laws : OtpLaws.
Proof. split. intros secret now. apply String.eqb_refl. Qed.

Definition site_of (d : DB) : World _ Redis.Server := mkW ServerLaws.empty d (Redis.mkServer ∅ ∅).

Definition mail_checked := client_check flow_env alice_addr "recoveryEmailSecondaryResendCode" (request_with None) ServerLaws.empty.
Definition code_checked := client_check flow_env alice_addr "verifySessionCode" (request_with None) mail_checked.1.

Lemma mail_code_skips_second_factor_witness :
  exists w1 m, secondary_resend_code flow_env 0 (session_id (draw 60)) alice_addr (request_with None) (site_of logged_in.1) = (w1, inl m) /\
    m.(m_to) = alice_addr.
Proof.
  destruct (mail_code_skips_second_factor (R := Redis.Server) flow_env 0 [] [] quiet_config (fun _ _ => None) login_form (draw 60) false
    false "1.2.3.4" "u1" alice_row alice_password (flow_db true) logged_in.1 login_reply login_wrapKb
    (getCredentials alice_addr "old").(cc_unwrapBKey) alice_kB (request_with None) (request_with None) (site_of logged_in.1)
    mail_checked.1 mail_checked.2.1 code_checked.1 code_checked.2.1)
    as (key & w1 & m & _ & _ & Hr & Ht & _).
  - reflexivity.
  - lia.
  - vm_compute. reflexivity.
  - reflexivity.
  - reflexivity.
  - exact alice_ok.
  - reflexivity.
  - exact (draw_ok 60).
  - reflexivity.
  - vm_compute. discriminate.
  - reflexivity.
  - reflexivity.
  - vm_compute. reflexivity.
  - vm_compute. reflexivity.
  - reflexivity.
  - vm_compute. reflexivity.
  - vm_compute. reflexivity.
  - exists w1, m. split; [exact Hr|exact Ht].
Defined.

(** [mallory]'s session asks for the keys of [alice]. *)
Definition reauth_form : ReauthForm := mkReauth alice_addr (getCredentials alice_addr "old").(cc_authPW) None None None true.

Definition mallory_session : Session :=
  match load_session 0 1600000000000 "m1" (flow_db true) with inl c => c | inr _ => mkSession "" "" "" (Tokens.new_SessionToken 0 Tokens.sample_details) end.

Definition reauth_gate := checkCustomsAndLoadAccount (H0 := account_db String.append) flow_env 3600000 None alice_addr None
  (request_with None) ServerLaws.empty (flow_db true).

Lemma reauth_foreign_session_witness :
  exists w' rep key, session_reauth flow_env 0 String.append 3600000 None [] "m1" reauth_form (draw 60) (request_with None)
      (site_of (flow_db true)) = (w', inl rep) /\ rep.(rr_keyFetchToken) = Some key.
Proof.
  destruct (reauth_foreign_session (R := Redis.Server) flow_env 0 String.append 3600000 None [] "m1" reauth_form (draw 60) (request_with None)
    reauth_gate.1.2 (site_of (flow_db true)) mallory_session "u1" alice_row alice_addr "old" alice_kB reauth_gate.1.1.1 false)
    as (w' & rep & key & d3 & Hr & Hk & _).
  - vm_compute. reflexivity.
  - vm_compute. discriminate.
  - reflexivity.
  - reflexivity.
  - vm_compute. reflexivity.
  - vm_compute. reflexivity.
  - reflexivity.
  - exact alice_ok.
  - reflexivity.
  - vm_compute. discriminate.
  - exact alice_opens.
  - reflexivity.
  - reflexivity.
  - reflexivity.
  - exact (draw_ok 60).
  - reflexivity.
  - exists w', rep, key. split; [exact Hr|exact Hk].
Defined.

(** [alice]'s verified session, duplicated. *)
Definition alice_session : Session :=
  match load_session 0 1600000000000 "s1" (flow_db true) with inl c => c | inr _ => mallory_session end.

Definition duplicated := session_duplicate flow_env 0 "s1" (draw 70) (site_of (flow_db true)).

Lemma duplicate_forgets_authentication_witness :
  exists c', load_session 0 1600000000000 (session_id (draw 70)) duplicated.1.(Routes.db) = inl c' /\
    Tokens.lastAuthAt alice_session.(c_token) = 1599999999 /\ Tokens.lastAuthAt c'.(c_token) = 1600000000.
Proof.
  destruct (duplicate_forgets_authentication (R := Redis.Server) flow_env 0 "s1" (draw 70) (site_of (flow_db true)) duplicated.1
    alice_session alice_row (mkDuplicate "u1" (to_hex (seed_session (draw 70))) 1599999999 (mkStatus true None None)))
    as (_ & c' & Hc & _ & _ & Ha & _).
  - vm_compute. reflexivity.
  - reflexivity.
  - lia.
  - vm_compute. reflexivity.
  - reflexivity.
  - vm_compute. discriminate.
  - reflexivity.
  - vm_compute. reflexivity.
  - exists c'. split; [exact Hc|]. split; [vm_compute; reflexivity|exact Ha].
Defined.

(** A stretching that keeps the code readable. *)
Definition toy_scrypt (code : string) (salt : list Z) : list Z :=
  (((fun a => Z.of_N (Ascii.N_of_ascii a)) <$> String.list_ascii_of_string code) ++ salt)%list.

Lemma toy_scrypt_inj c c' salt : toy_scrypt c salt = toy_scrypt c' salt -> c = c'.
Proof.
  intros He%app_inv_tail. apply list_fmap_eq_inj in He.
  2: { intros a b Hab%N2Z.inj. by rewrite <- (Ascii.ascii_N_embedding a), Hab, Ascii.ascii_N_embedding. }
  by rewrite <- (String.string_of_list_ascii_of_string c), He, String.string_of_list_ascii_of_string.
Qed.

Definition given_codes := replaceRecoveryCodes toy_scrypt "u1" ["AB"; "cd"] [[1]; [2]] (flow_db true).

Lemma recovery_codes_refine_set_witness :
  consume_all toy_scrypt "u1" ["aB"; "xx"; "ab"; "CD"] given_codes.1 = [Some 1; None; None; Some 0].
Proof.
  destruct (recovery_codes_refine_set toy_scrypt "u1" ["AB"; "cd"] [[1]; [2]] (flow_db true) given_codes.1 ["ab"; "cd"]
    ["aB"; "xx"; "ab"; "CD"] eq_refl eq_refl ltac:(apply (bool_decide_unpack _); reflexivity))
    as [Hs|(code & salt & a & _ & _ & Hne & He)].
  - exact Hs.
  - destruct (Hne (toy_scrypt_inj _ _ _ He)).
Defined.

Definition chosen_codes := updateRecoveryCodes toy_scrypt "u1" ["ABCDEFGH"] [[1]] (flow_db true).

Lemma capital_codes_unusable_witness :
  consumeRecoveryCode toy_scrypt "u1" "ABCDEFGH" chosen_codes.1 = inr RecoveryCodeNotFound.
Proof.
  apply (capital_codes_unusable toy_scrypt "u1" ["ABCDEFGH"] [[1]] (flow_db true) chosen_codes.1).
  - vm_compute. reflexivity.
  - intros c Hc. apply list_elem_of_singleton in Hc. rewrite Hc. vm_compute. discriminate.
  - intros (c & salt & a & _ & _ & Hne & He)%collision_spec. by apply Hne, (toy_scrypt_inj _ _ salt).
Defined.

Lemma unblock_code_drawn_witness :
  exists d' code, new_unblock_code flow_env String.append "u1" ["a"] (flow_db true) = Some (d', code) /\
    (consumeUnblockCode String.append "u1" code d').2 = inl 1600000000000.
Proof.
  destruct (unblock_code_drawn flow_env String.append "u1" ["a"] (flow_db true)) as (d' & code & Hn & _ & Hc).
  - apply NoDup_singleton.
  - vm_compute. lia.
  - vm_compute. reflexivity.
  - exists d', code. split; [exact Hn|exact Hc].
Defined.

(** [bob] has added an address with a capital letter and never verified it. *)
Definition taken_db : DB :=
  on_secondary <["new@x.org" := mkEmailRow "0b" "New@x.org" "c1" false 1]> (on_emails <["new@x.org" := "0b"]> (flow_db true)).

Lemma unverified_address_released_witness :
  ((deleteAccountIfUnverified (M := unit) (R := unit) flow_env 0 (fun _ => false) "0a" "new@x.org";;;
    update (createEmail "0a" (toLowerCase "new@x.org") "new@x.org" "c2" false flow_env.(Server.now)))
     (mkW (Server.mkState tt []) taken_db tt)).2 = inr (RDB EmailExists).
Proof.
  refine (unverified_address_released (M := unit) (R := unit) flow_env 0 (fun _ => false) "0a" "new@x.org" "c2"
    (mkW (Server.mkState tt []) taken_db tt) (mkEmailRow "0b" "New@x.org" "c1" false 1) _ _ _ _ _ _ _).
  - vm_compute. reflexivity.
  - vm_compute. reflexivity.
  - reflexivity.
  - vm_compute. reflexivity.
  - vm_compute. reflexivity.
  - intros m r'. cbn. intros [[<- _]|[_ Hm]]%lookup_insert_Some; [vm_compute; reflexivity|]. by rewrite lookup_empty in Hm.
  - vm_compute. intros a Ha. discriminate Ha.
Defined.

(** A configuration of the site, for the theorems on all its routes. *)
Definition toy_config : SiteConfig :=
  mkSiteConfig 0 3600000 900000 900000 900000 0 toy_scrypt id String.append None None quiet_config [] [] [] 1%Q
    (fun _ => true) (fun _ => false) (fun _ _ => None) (fun _ => false) (fun _ => None) (fun _ => None) (fun _ o => (o, None)) (fun _ => None).
