(* ===== verification/AccountTypes.v ===== *)
(** * The account database stays well formed

    The type invariant of the account database under every route of
    AccountSystem: the binary columns of the accounts have their lengths, the
    addresses and their index agree, and every row of the other tables belongs
    to an account that exists. *)

From Stdlib Require Import QArith.
From S2P Require Import Prelude Store Text Records Server CustomsClient SignIn Redis Reminders.
From S2P Require Import Bytes KeyBundle AccountStore.
From S2P Require Import PasswordFlows Login Routes SecondFactor EmailRoutes AccountRoutes RouteLaws AccountSystem FactorLaws.
From S2P Require Tokens Scopes OAuthStore.

#[local] Open Scope string_scope.
#[local] Open Scope Z_scope.

(** ** The invariant *)

Definition known (d : DB) (uid : string) : Prop := is_Some (d.(accounts) !! uid).

(** The database holds a row of the user, beside the account. *)
Inductive owns (d : DB) : string -> Prop :=
  | own_email n uid : d.(emails) !! n = Some uid -> owns d uid
  | own_secondary n r : d.(secondaryEmails) !! n = Some r -> owns d r.(e_uid)
  | own_session id r : d.(sessionTokens) !! id = Some r -> owns d r.(s_uid)
  | own_keys id r : d.(keyFetchTokens) !! id = Some r -> owns d r.(f_uid)
  | own_unverified id r : d.(unverifiedTokens) !! id = Some r -> owns d r.2
  | own_change id r : d.(passwordChangeTokens) !! id = Some r -> owns d r.(t_uid)
  | own_forgot id r : d.(passwordForgotTokens) !! id = Some r -> owns d r.(o_uid)
  | own_reset id r : d.(accountResetTokens) !! id = Some r -> owns d r.(t_uid)
  | own_recovery uid r : d.(recoveryKeys) !! uid = Some r -> owns d uid
  | own_totp uid r : d.(totp) !! uid = Some r -> owns d uid
  | own_device id r : d.(devices) !! id = Some r -> owns d r.1
  | own_unblock uid r : d.(unblockCodes) !! uid = Some r -> owns d uid
  | own_codes uid r : d.(recoveryCodes) !! uid = Some r -> owns d uid.

(** The secondary addresses of a user. *)
Definition secondaries (uid : string) (d : DB) : gmap string EmailRow := filter (fun kv => kv.2.(e_uid) = uid) d.(secondaryEmails).

Record wf (d : DB) : Prop := {
  (* the columns of an account *)
  wf_rows uid a : d.(accounts) !! uid = Some a -> account_ok a;
  (* no two accounts were created with the same address *)
  wf_names u1 u2 a1 a2 : d.(accounts) !! u1 = Some a1 -> d.(accounts) !! u2 = Some a2 ->
    toLowerCase a1.(AccountStore.email) = toLowerCase a2.(AccountStore.email) -> u1 = u2;
  (* the primary address is indexed, and is not a secondary one too *)
  wf_primary uid a : d.(accounts) !! uid = Some a ->
    d.(emails) !! a.(primaryNormalized) = Some uid /\ d.(secondaryEmails) !! a.(primaryNormalized) = None;
  wf_secondary n r : d.(secondaryEmails) !! n = Some r -> d.(emails) !! n = Some r.(e_uid);
  (* the index holds nothing else *)
  wf_index n uid : d.(emails) !! n = Some uid ->
    is_Some (d.(secondaryEmails) !! n) \/ exists a, d.(accounts) !! uid = Some a /\ a.(primaryNormalized) = n;
  wf_count uid : Z.of_nat (size (secondaries uid d)) <= MAX_SECONDARY_EMAILS;
  wf_owned uid : owns d uid -> known d uid }.

(** ** Writes that change no address *)

(** What a write may do to an account: its addresses stay, and its columns
    keep their lengths. *)
Record row_step (a a' : AccountRow) : Prop := {
  rs_ok : account_ok a -> account_ok a';
  rs_name : a'.(AccountStore.email) = a.(AccountStore.email);
  rs_primary : a'.(primaryNormalized) = a.(primaryNormalized) }.

Record tame (d d' : DB) : Prop := {
  tm_rows uid : option_Forall2 row_step (d.(accounts) !! uid) (d'.(accounts) !! uid);
  tm_emails : d'.(emails) = d.(emails);
  tm_secondary : e_uid <$> d'.(secondaryEmails) = e_uid <$> d.(secondaryEmails);
  tm_owned uid : owns d' uid -> owns d uid \/ known d uid }.

#[export] Instance row_step_pre : PreOrder row_step.
Proof.
  split; [by split|]. intros a b c [H1 H2 H3] [H4 H5 H6]. split; [tauto|congruence|congruence].
Qed.

Lemma tame_known d d' uid : tame d d' -> known d' uid <-> known d uid.
Proof.
  intros Ht. unfold known. destruct (tm_rows _ _ Ht uid); [|done]. split; intros; by eexists.
Qed.

#[export] Instance tame_pre : PreOrder tame.
Proof.
  split.
  - intros d. split; [reflexivity|done|done|tauto].
  - intros d1 d2 d3 H12 H23. split.
    + intros uid. etransitivity; [apply H12|apply H23].
    + by rewrite (tm_emails _ _ H23), (tm_emails _ _ H12).
    + by rewrite (tm_secondary _ _ H23), (tm_secondary _ _ H12).
    + intros uid [Ho|Hk]%(tm_owned _ _ H23); [by apply (tm_owned _ _ H12)|right; by apply (tame_known d1 d2)].
Qed.

(** A tame write moves neither accounts nor addresses. *)
Lemma tame_account d d' uid a' :
  tame d d' -> d'.(accounts) !! uid = Some a' -> exists a, d.(accounts) !! uid = Some a /\ row_step a a'.
Proof. intros Ht Ha. pose proof (tm_rows _ _ Ht uid) as Hr. rewrite Ha in Hr. inversion Hr; subst. eauto. Qed.

Lemma tame_address d d' n r' :
  tame d d' -> d'.(secondaryEmails) !! n = Some r' -> exists r, d.(secondaryEmails) !! n = Some r /\ r.(e_uid) = r'.(e_uid).
Proof.
  intros Ht Hn. pose proof (tm_secondary _ _ Ht) as He. apply (f_equal (.!! n)) in He.
  rewrite !lookup_fmap, Hn in He. destruct (secondaryEmails d !! n) as [r|]; [|done]. injection He as He. eauto.
Qed.

Lemma secondaries_size uid d : size (secondaries uid d) = size (filter (fun kv : string * string => kv.2 = uid) (e_uid <$> d.(secondaryEmails))).
Proof. by rewrite map_filter_fmap, map_size_fmap. Qed.

Lemma tame_wf d d' : tame d d' -> wf d -> wf d'.
Proof.
  intros Ht [Hrows Hnames Hprim Hsec Hidx Hcount Hown]. split.
  - intros uid a' (a & Ha & Hs)%(tame_account _ _ _ _ Ht). eapply rs_ok; eauto.
  - intros u1 u2 a1' a2' (a1 & H1 & S1)%(tame_account _ _ _ _ Ht) (a2 & H2 & S2)%(tame_account _ _ _ _ Ht).
    rewrite (rs_name _ _ S1), (rs_name _ _ S2). eauto.
  - intros uid a' (a & Ha & Hs)%(tame_account _ _ _ _ Ht). destruct (Hprim uid a Ha) as [He Hn].
    rewrite (rs_primary _ _ Hs), (tm_emails _ _ Ht). split; [done|].
    destruct (secondaryEmails d' !! _) eqn:E; [|done]. apply (tame_address _ _ _ _ Ht) in E as (? & ? & _). congruence.
  - intros n r' (r & Hr & <-)%(tame_address _ _ _ _ Ht). rewrite (tm_emails _ _ Ht). by apply Hsec.
  - intros n uid. rewrite (tm_emails _ _ Ht). intros [[r Hr]|(a & Ha & <-)]%Hidx.
    + left. pose proof (tm_secondary _ _ Ht) as He. apply (f_equal (.!! n)) in He. rewrite !lookup_fmap, Hr in He.
      by destruct (secondaryEmails d' !! n).
    + right. pose proof (tm_rows _ _ Ht uid) as Hr. rewrite Ha in Hr. inversion Hr as [? a' Hs|]; subst. exists a'. split; [done|apply Hs].
  - intros uid. rewrite secondaries_size, (tm_secondary _ _ Ht), <- secondaries_size. apply Hcount.
  - intros uid [Ho|Hk]%(tm_owned _ _ Ht); apply (tame_known d d'); eauto.
Qed.

Lemma alter_rows f u (m : gmap string AccountRow) uid :
  (forall a, row_step a (f a)) -> option_Forall2 row_step (m !! uid) (alter f u m !! uid).
Proof.
  intros Hf. destruct (decide (u = uid)) as [<-|Hne].
  - rewrite lookup_alter_eq. destruct (m !! u); constructor. apply Hf.
  - by rewrite lookup_alter_ne.
Qed.

(** A row of a table after a write, traced back to the table before. *)
Ltac trace_row :=
  repeat match goal with
  | H : <[_ := _]> _ !! _ = Some _ |- _ => apply lookup_insert_Some in H as [[<- <-]|[_ H]]
  | H : but_of _ _ _ !! _ = Some _ |- _ => apply but_of_lookup in H as [H _]
  | H : replace _ _ _ _ !! _ = Some _ |- _ => unfold replace in H
  | H : delete _ _ !! _ = Some _ |- _ => apply lookup_delete_Some in H as [_ H]
  | H : filter _ _ !! _ = Some _ |- _ => apply map_lookup_filter_Some in H as [H _]
  | H : alter _ _ _ !! _ = Some _ |- _ => apply lookup_alter_Some in H as [(<- & ? & H & ->)|[_ H]]
  end.

Ltac row_of_old :=
  let Ho := fresh in intros ? Ho; destruct Ho; cbn in *; trace_row; cbn;
  first [by left; econstructor; eassumption|by right; assumption|idtac].

(** A write to other tables than those of accounts and addresses. *)
Ltac tame_write :=
  split;
  [ intros ?; cbn; first [reflexivity|apply alter_rows; split; [intros Hok; first [by destruct Hok; split|by apply reset_row_ok]|done|done]]
  | done | done | row_of_old ].

Section Writes.
Implicit Types d : DB.

Lemma tame_touch uid now d : tame d (touch_profile uid now d).
Proof. tame_write. Qed.

Lemma tame_unverified id uid vid d : known d uid -> tame d (add_unverified id uid vid d).
Proof. intros Hk. destruct vid; [|reflexivity]. tame_write. Qed.

Lemma tame_createSession id uid now must vid d : known d uid -> tame d (createSessionToken id uid now must vid d).
Proof. intros Hk. etransitivity; [|by apply tame_unverified]. tame_write. Qed.

Lemma tame_createKeys now t d : known d t.(kf_uid) -> tame d (createKeyFetchToken now t d).
Proof. intros Hk. etransitivity; [|by apply tame_unverified]. tame_write. Qed.

Lemma tame_deleteKeys id d : tame d (deleteKeyFetchToken id d).
Proof. tame_write. Qed.

Lemma tame_createChange id uid now d : known d uid -> tame d (createPasswordChangeToken id uid now d).
Proof. intros Hk. tame_write. Qed.

Lemma tame_deleteChange id d : tame d (deletePasswordChangeToken id d).
Proof. tame_write. Qed.

Lemma tame_createForgot id uid code now d : known d uid -> tame d (createPasswordForgotToken id uid code now d).
Proof. intros Hk. tame_write. Qed.

Lemma tame_deleteForgot id d : tame d (deletePasswordForgotToken id d).
Proof. tame_write. Qed.

Lemma tame_updateForgot id tries d : tame d (updatePasswordForgotToken id tries d).
Proof. tame_write. Qed.

Lemma tame_forgotVerified id rid uid now d : known d uid -> tame d (forgotPasswordVerified id rid uid now d).
Proof. intros Hk. tame_write. Qed.

Lemma tame_reset uid hash salt wrapped v now b d :
  hex_of 32 hash -> hex_of 32 salt -> hex_of 32 wrapped -> tame d (resetAccount uid hash salt wrapped v now b d).
Proof. intros Hh Hs Hw. tame_write. Qed.

Lemma tame_resetTokens uid d : tame d (resetAccountTokens uid d).
Proof. tame_write. Qed.

Lemma tame_deleteRecovery uid d : tame d (deleteRecoveryKey uid d).
Proof. tame_write. Qed.

Lemma tame_verifyTokens vid uid d d' : verifyTokens vid uid d = inl d' -> tame d d'.
Proof. unfold verifyTokens. case_match; intros [= <-]. tame_write. Qed.

Lemma tame_verifyMethod id m d d' : verifyTokensWithMethod id m d = inl d' -> tame d d'.
Proof.
  unfold verifyTokensWithMethod. destruct (sessionTokens d !! id) as [r|] eqn:Hr; [|done]. cbv zeta. intros [= <-].
  transitivity (on_sessions <[id := mkSessionRow (s_uid r) (s_createdAt r) (s_authAt r) (s_mustVerify r) (Some m)]> d).
  - tame_write.
  - match goal with |- tame ?x _ => generalize x end. intros d1.
    destruct (unverifiedTokens d !! id) as [[vid ?]|]; [|reflexivity]. tame_write.
Qed.

Lemma tame_createPassword uid salt hash wrapped v now d :
  hex_of 32 hash -> hex_of 32 salt -> hex_of 32 wrapped -> tame d (createPassword uid salt hash wrapped v now d).
Proof.
  intros Hh Hs Hw. split; [intros u|done|done|row_of_old]. apply alter_rows. intros a. split; [|done|done].
  intros Hok. by destruct (reset_row_ok hash salt wrapped v now false a Hok Hh Hs Hw); split.
Qed.

Lemma tame_createUnblock h uid code now d : known d uid -> tame d (createUnblockCode h uid code now d).
Proof. intros Hk. tame_write. Qed.

Lemma tame_consumeUnblock h uid code d d' r : consumeUnblockCode h uid code d = (d', r) -> tame d d'.
Proof. unfold consumeUnblockCode. intros. repeat (case_match; simplify_eq/=; try reflexivity). tame_write. Qed.

Lemma tame_createTotp uid secret d d' : known d uid -> createTotpToken uid secret d = inl d' -> tame d d'.
Proof. intros Hk. unfold createTotpToken. case_match; intros [= <-]. tame_write. Qed.

Lemma tame_deleteTotp uid now d : tame d (deleteTotpToken uid now d).
Proof. etransitivity; [|apply tame_touch]. tame_write. Qed.

Lemma tame_updateTotp uid v e now d d' : updateTotpToken uid v e now d = inl d' -> tame d d'.
Proof. unfold updateTotpToken. case_match; intros [= <-]. etransitivity; [|apply tame_touch]. tame_write. Qed.
End Writes.
Section MoreWrites.
Implicit Types d : DB.

Lemma tame_updateCodes scrypt uid codes salts d : tame d (updateRecoveryCodes scrypt uid codes salts d).1.
Proof.
  unfold updateRecoveryCodes. destruct (accounts d !! uid) as [a|] eqn:Ha; [|reflexivity].
  destruct (insert_codes _ _). cbn. tame_write. right. unfold known. by rewrite Ha.
Qed.

Lemma tame_replaceCodes scrypt uid codes salts d : tame d (replaceRecoveryCodes scrypt uid codes salts d).1.
Proof.
  unfold replaceRecoveryCodes. pose proof (tame_updateCodes scrypt uid (toLowerCase <$> codes) salts d) as Ht.
  by destruct (updateRecoveryCodes _ _ _ _ _).
Qed.

Lemma tame_consumeCode scrypt uid code d d' n : known d uid -> consumeRecoveryCode scrypt uid code d = inl (d', n) -> tame d d'.
Proof. intros Hk. unfold consumeRecoveryCode, delete_code. case_match; intros [= <- _]. tame_write. Qed.

Lemma tame_createKey h uid k data b now d d' : createRecoveryKey h uid k data b now d = inl d' -> tame d d'.
Proof.
  unfold createRecoveryKey. destruct (accounts d !! uid) eqn:Ha; [|done]. case_match; intros [= <-].
  etransitivity; [|apply tame_touch]. tame_write. right. unfold known. by rewrite Ha.
Qed.

Lemma tame_updateKey h uid k b now d d' : updateRecoveryKey h uid k b now d = inl d' -> tame d d'.
Proof.
  unfold updateRecoveryKey. destruct (recoveryKeys d !! uid) eqn:Hk; [|done]. case_match; intros [= <-].
  etransitivity; [|apply tame_touch]. tame_write.
Qed.

Lemma tame_deleteSession id d : tame d (deleteSessionToken id d).
Proof. unfold deleteSessionToken. case_match; [|reflexivity]. tame_write. Qed.

Lemma tame_updateSession id at_ must d : tame d (updateSessionToken id at_ must d).
Proof. tame_write. Qed.

Lemma tame_verifyEmail uid code now d : tame d (verifyEmail uid code now d).
Proof.
  unfold verifyEmail. etransitivity; [|apply tame_touch]. split.
  - intros u. apply alter_rows. split; [intros Hok; by destruct Hok; split|done|done].
  - done.
  - cbn. rewrite <- map_fmap_compose. apply map_fmap_ext. intros n r _. cbn. by case_bool_decide.
  - row_of_old. rewrite lookup_fmap in *. destruct (secondaryEmails d !! n) eqn:E; [|done]. simplify_eq/=. left.
    case_bool_decide; cbn; by eapply own_secondary.
Qed.
End MoreWrites.

(** ** Writes to the addresses *)

Lemma secondaries_lookup uid d n r : secondaries uid d !! n = Some r <-> d.(secondaryEmails) !! n = Some r /\ r.(e_uid) = uid.
Proof. apply map_lookup_filter_Some. Qed.

Lemma record_by_name_none n d uid a :
  record_by_name n d = None -> d.(accounts) !! uid = Some a -> toLowerCase a.(AccountStore.email) <> n.
Proof.
  unfold record_by_name. intros Hh Ha Hn. set (l := filter _ _) in Hh.
  assert ((uid, a) ∈ l) as Hin by (apply list_elem_of_filter; split; [done|by apply elem_of_map_to_list]).
  destruct l; [by apply not_elem_of_nil in Hin|done].
Qed.

Section Addresses.
Implicit Types d : DB.

(** The rows of a user after a write to the addresses. *)
Lemma owns_listed n uid r d u :
  owns (on_secondary <[n := r]> (on_emails <[n := uid]> d)) u -> owns d u \/ u = uid \/ u = r.(e_uid).
Proof. intros Ho; destruct Ho; cbn in *; trace_row; cbn; auto; left; solve [econstructor; eassumption]. Qed.

Lemma owns_unlisted n d u : owns (on_secondary (delete n) (on_emails (delete n) d)) u -> owns d u.
Proof. intros Ho; destruct Ho; cbn in *; trace_row; cbn; solve [econstructor; eassumption]. Qed.

Lemma owns_swapped n p r f d u :
  owns (on_secondary (fun m => <[p := r]> (delete n m)) (on_accounts f d)) u -> owns d u \/ r.(e_uid) = u.
Proof. intros Ho; destruct Ho; cbn in *; trace_row; cbn; auto; left; solve [econstructor; eassumption]. Qed.

Lemma owns_created n uid f d u : owns (on_emails <[n := uid]> (on_accounts f d)) u -> owns d u \/ uid = u.
Proof. intros Ho; destruct Ho; cbn in *; trace_row; cbn; auto; left; solve [econstructor; eassumption]. Qed.

Lemma owns_deleted uid d u : owns (deleteAccount uid d) u -> owns d u /\ u <> uid.
Proof.
  intros Ho; destruct Ho; cbn in *;
    repeat match goal with
    | H : but_of _ _ _ !! _ = Some _ |- _ => apply but_of_lookup in H as [H ?]
    | H : delete _ _ !! _ = Some _ |- _ => apply lookup_delete_Some in H as [? H]
    | H : filter _ _ !! _ = Some _ |- _ => apply map_lookup_filter_Some in H as [H ?]
    end; (split; [solve [econstructor; eassumption]|cbn in *; congruence]).
Qed.

Lemma wf_createEmail uid n addr code v now d d' :
  wf d -> known d uid -> Z.of_nat (size (secondaries uid d)) < MAX_SECONDARY_EMAILS ->
  createEmail uid n addr code v now d = inl d' -> wf d'.
Proof.
  intros [Hrows Hnames Hprim Hsec Hidx Hcount Hown] Hk Hroom. unfold createEmail. set (m := toLowerCase n).
  destruct (emails d !! m) eqn:Hn; [done|]. intros [= <-].
  assert (d.(secondaryEmails) !! m = None) as Hs by (destruct (secondaryEmails d !! m) eqn:E; [apply Hsec in E; congruence|done]).
  split; cbn.
  - done.
  - done.
  - intros u a Ha. destruct (Hprim u a Ha) as [He Hno]. rewrite !lookup_insert_ne by congruence. done.
  - intros k r. rewrite !lookup_insert_Some. intros [[-> <-]|[Hne Hr]]; [by left|right]. split; [done|by apply Hsec].
  - intros k u. rewrite lookup_insert_Some. intros [[-> _]|[Hne Hu]]; [left; by rewrite lookup_insert_eq|].
    rewrite lookup_insert_ne by done. by apply Hidx.
  - intros u. unfold secondaries. cbn. destruct (decide (uid = u)) as [<-|Hne].
    + rewrite map_filter_insert_True by done. rewrite map_size_insert_None by (apply map_lookup_filter_None; auto).
      fold (secondaries uid d). lia.
    + rewrite map_filter_insert_False by done. rewrite delete_id by done. apply Hcount.
  - intros u [?|[->| ->]]%owns_listed; [by apply Hown|done..].
Qed.

Lemma wf_deleteEmail uid n now d d' : wf d -> deleteEmail uid n now d = inl d' -> wf d'.
Proof.
  intros Hwf. unfold deleteEmail. case_match; [done|]. intros [= <-]. eapply tame_wf; [apply tame_touch|].
  destruct (secondaryEmails d !! n) as [r|] eqn:Hr; [|done]. case_bool_decide as Hu; [|done].
  destruct Hwf as [Hrows Hnames Hprim Hsec Hidx Hcount Hown]. split; cbn.
  - done.
  - done.
  - intros u a Ha. destruct (Hprim u a Ha) as [He Hno]. assert (n <> primaryNormalized a) by congruence.
    by rewrite !lookup_delete_ne.
  - intros k r'. rewrite !lookup_delete_Some. intros [Hne Hr']. split; [done|by apply Hsec].
  - intros k u. rewrite lookup_delete_Some. intros [Hne Hu']. rewrite lookup_delete_ne by done. by apply Hidx.
  - intros u. etransitivity; [|apply (Hcount u)]. apply inj_le, map_subseteq_size. unfold secondaries. cbn.
    apply map_filter_subseteq_mono, delete_subseteq.
  - intros u Ho%owns_unlisted. by apply Hown.
Qed.

Lemma wf_setPrimary uid n now d d' : wf d -> setPrimaryEmail uid n now d = inl d' -> wf d'.
Proof.
  intros Hwf. unfold setPrimaryEmail. destruct (accounts d !! uid) as [a|] eqn:Ha; [|done].
  destruct (bool_decide (primaryNormalized a = n) && primaryVerified a) eqn:Hp; [intros [= <-]; eapply tame_wf; [apply tame_touch|done]|].
  destruct (secondaryEmails d !! n) as [r|] eqn:Hr; [|done]. destruct (bool_decide (e_uid r = uid) && e_verified r) eqn:Hc; [|done]. intros [= <-].
  apply andb_true_iff in Hc as [Hu%bool_decide_eq_true _]. eapply tame_wf; [apply tame_touch|].
  destruct Hwf as [Hrows Hnames Hprim Hsec Hidx Hcount Hown]. destruct (Hprim uid a Ha) as [Hi Hno].
  assert (n <> primaryNormalized a) as Hne by congruence. pose proof (Hsec n r Hr) as Hn. rewrite Hu in Hn.
  assert (forall u, known d u -> is_Some (<[uid := with_primary n r a]> (accounts d) !! u)) as Hkn.
  { intros u Hk. by apply lookup_insert_is_Some'; right. }
  split; cbn.
  - intros u b. rewrite lookup_insert_Some. intros [[_ <-]|[_ Hb]]; [|by eapply Hrows].
    by destruct (Hrows uid a Ha); split.
  - intros u1 u2 a1 a2 H1 H2.
    assert (forall u b, <[uid := with_primary n r a]> (accounts d) !! u = Some b -> exists b', accounts d !! u = Some b' /\ b'.(AccountStore.email) = b.(AccountStore.email))
      as Hold by (intros u b [[<- <-]|[_ Hb]]%lookup_insert_Some; eauto).
    apply Hold in H1 as (b1 & H1 & <-), H2 as (b2 & H2 & <-). by eapply Hnames.
  - intros u b. rewrite lookup_insert_Some. intros [[<- <-]|[Hneu Hb]]; cbn.
    + split; [done|]. rewrite lookup_insert_ne by done. apply lookup_delete_eq.
    + destruct (Hprim u b Hb) as [He Hnob]. split; [done|]. rewrite lookup_insert_ne by congruence.
      rewrite lookup_delete_ne by congruence. done.
  - intros k r'. rewrite lookup_insert_Some, lookup_delete_Some. intros [[<- <-]|[_ [_ Hr']]]; [done|by apply Hsec].
  - intros k u Hk. destruct (decide (n = k)) as [<-|Hnk].
    { right. exists (with_primary n r a). assert (u = uid) as -> by congruence. by rewrite lookup_insert_eq. }
    destruct (Hidx k u Hk) as [[r' Hr']|(b & Hb & <-)].
    + left. apply lookup_insert_is_Some'. right. rewrite lookup_delete_ne by done. eauto.
    + destruct (decide (uid = u)) as [<-|Hneu].
      * left. simplify_eq. by rewrite lookup_insert_eq.
      * right. exists b. by rewrite lookup_insert_ne.
  - intros u. specialize (Hcount u). unfold secondaries in *. cbn. destruct (decide (uid = u)) as [<-|Hneu].
    + rewrite map_filter_insert_True by done. rewrite map_filter_delete.
      rewrite map_size_insert_None, map_size_delete_Some; [unfold MAX_SECONDARY_EMAILS in *; lia| |].
      * exists r. by apply map_lookup_filter_Some.
      * apply lookup_delete_None. right. apply map_lookup_filter_None. by left.
    + rewrite map_filter_insert_False by done. etransitivity; [|exact Hcount]. apply inj_le, map_subseteq_size.
      apply map_filter_subseteq_mono. etransitivity; apply delete_subseteq.
  - intros u [?|<-]%owns_swapped; apply Hkn; [by apply Hown|by eexists].
Qed.

Lemma wf_createAccount uid addr code v ka wrapped salt hash ver at_ now d d' :
  wf d -> hex_of 32 ka -> hex_of 32 wrapped -> hex_of 32 salt -> hex_of 32 hash ->
  createAccount uid addr code v ka wrapped salt hash ver at_ now d = inl d' -> wf d'.
Proof.
  intros [Hrows Hnames Hprim Hsec Hidx Hcount Hown] HkA Hw Hs Hh. unfold createAccount. set (n := toLowerCase addr).
  destruct (_ || _) eqn:Hc; [done|]. apply orb_false_iff in Hc as [[Hn%bool_decide_eq_false Hname%bool_decide_eq_false]%orb_false_iff
    Hu%bool_decide_eq_false]. apply eq_None_not_Some in Hn, Hname, Hu.
  set (row := mkAccountRow _ _ _ _ _ _ _ _ _ _ _ _ _ _ _ _ _ _ _). intros [= <-].
  assert (forall u, known d u -> is_Some (<[uid := row]> (accounts d) !! u)) as Hkn.
  { intros u Hk. by apply lookup_insert_is_Some'; right. }
  split; cbn.
  - intros u b. rewrite lookup_insert_Some. intros [[_ <-]|[_ Hb]]; [|by eapply Hrows].
    apply hex_of_from in HkA as (? & ? & _), Hw as (? & ? & _), Hs as (? & ? & _), Hh as (? & ? & _). by split.
  - intros u1 u2 a1 a2. rewrite !lookup_insert_Some. intros [[<- <-]|[_ H1]] [[<- <-]|[_ H2]] He; [done|..].
    + symmetry in He. by apply (record_by_name_none n d u2 a2) in He.
    + by apply (record_by_name_none n d u1 a1) in He.
    + by eapply Hnames.
  - intros u b. rewrite !lookup_insert_Some. intros [[<- <-]|[Hneu Hb]]; cbn.
    + split; [by left|]. destruct (secondaryEmails d !! n) eqn:E; [apply Hsec in E; congruence|done].
    + destruct (Hprim u b Hb) as [He Hnob]. split; [right; split; congruence|done].
  - intros k r Hr. rewrite lookup_insert_ne; [by apply Hsec|]. intros <-. apply Hsec in Hr. congruence.
  - intros k u. rewrite lookup_insert_Some. intros [[<- <-]|[Hne Hk]].
    + right. exists row. by rewrite lookup_insert_eq.
    + destruct (Hidx k u Hk) as [?|(b & Hb & <-)]; [by left|right]. exists b. rewrite lookup_insert_ne by congruence. done.
  - apply Hcount.
  - intros u [?|<-]%owns_created; [by apply Hkn, Hown|]. unfold known. cbn. by rewrite lookup_insert_eq.
Qed.

Lemma wf_deleteAccount uid d : wf d -> wf (deleteAccount uid d).
Proof.
  intros [Hrows Hnames Hprim Hsec Hidx Hcount Hown].
  assert (forall u, known d u -> u <> uid -> is_Some (delete uid (accounts d) !! u)) as Hkn.
  { intros u [a Ha] Hne. exists a. by rewrite lookup_delete_ne. }
  split; cbn.
  - intros u a [_ Ha]%lookup_delete_Some. by eapply Hrows.
  - intros u1 u2 a1 a2 [_ H1]%lookup_delete_Some [_ H2]%lookup_delete_Some. by eapply Hnames.
  - intros u a [Hne Ha]%lookup_delete_Some. destruct (Hprim u a Ha) as [He Hno].
    rewrite map_lookup_filter_Some. split; [by split|]. apply map_lookup_filter_None. by left.
  - intros n r [Hr Hne]%but_of_lookup. apply map_lookup_filter_Some. split; [by apply Hsec|done].
  - intros n u [Hu Hne]%map_lookup_filter_Some. cbn in Hne. destruct (Hidx n u Hu) as [[r Hr]|(a & Ha & <-)].
    + left. exists r. apply but_of_lookup. split; [done|]. apply Hsec in Hr. congruence.
    + right. exists a. by rewrite lookup_delete_ne.
  - intros u. etransitivity; [|apply (Hcount u)]. apply inj_le, map_subseteq_size. unfold secondaries. cbn.
    apply map_filter_subseteq_mono, map_filter_subseteq.
  - intros u [Ho Hne]%owns_deleted. apply Hkn; [by apply Hown|done].
Qed.
End Addresses.

(** ** Handlers *)

Create HintDb tame.
#[local] Hint Resolve tame_touch tame_unverified tame_createSession tame_createKeys tame_deleteKeys tame_createChange tame_deleteChange
  tame_createForgot tame_deleteForgot tame_updateForgot tame_forgotVerified tame_reset tame_resetTokens tame_deleteRecovery
  tame_verifyTokens tame_verifyMethod tame_createPassword tame_createUnblock tame_consumeUnblock tame_createTotp tame_deleteTotp
  tame_updateTotp tame_updateCodes tame_replaceCodes tame_consumeCode tame_createKey tame_updateKey tame_deleteSession
  tame_updateSession tame_verifyEmail verifyHash_hex : tame.

Lemma known_tame d d' uid : tame d d' -> known d uid -> known d' uid.
Proof. intros Ht. by apply tame_known. Qed.

Lemma known_session MAX_AGE now id d c : wf d -> load_session MAX_AGE now id d = inl c -> known d c.(c_uid).
Proof. intros Hwf (r & Hr & _ & -> & _)%load_session_spec. by eapply wf_owned, own_session. Qed.

Lemma known_account uid d a : account uid d = inl a -> d.(accounts) !! uid = Some a.
Proof. unfold account. case_match; congruence. Qed.

Section Rules.
Context {M R : Type}.
Implicit Types (Q : unit -> DB -> Prop) (d : DB).

Lemma wp_auth MAX_AGE now id (Q : Session -> DB -> Prop) d :
  wf d -> (forall c, load_session MAX_AGE now id d = inl c -> known d c.(c_uid) -> Q c d) ->
  wp (M := M) (R := R) wf (auth_session MAX_AGE now id) Q d.
Proof. intros Hwf HQ. apply wp_fetch; [done|]. intros c Hc. apply HQ; [done|]. by eapply known_session. Qed.

Lemma wp_account uid (Q : AccountRow -> DB -> Prop) d :
  wf d -> (forall a, d.(accounts) !! uid = Some a -> known d uid -> Q a d) -> wp (M := M) (R := R) wf (fetch (account uid)) Q d.
Proof. intros Hwf HQ. apply wp_fetch; [done|]. intros a Ha%known_account. apply HQ; [done|by eexists]. Qed.

Lemma wp_put_tame f Q d :
  wf d -> tame d (f d) -> (forall d', tame d d' -> wf d' -> Q tt d') -> wp (M := M) (R := R) wf (put f) Q d.
Proof. intros Hwf Ht HQ. assert (wf (f d)) by by eapply tame_wf. apply wp_put; [done|]. intros _. by apply HQ. Qed.

Lemma wp_update_tame f Q d :
  wf d -> (forall d', f d = inl d' -> tame d d') -> (forall d', tame d d' -> wf d' -> Q tt d') -> wp (M := M) (R := R) wf (update f) Q d.
Proof.
  intros Hwf Ht HQ. apply wp_update; [done|]. intros d' Hd. assert (wf d') by by eapply tame_wf; [apply Ht|].
  split; [done|]. intros _. by apply HQ; [apply Ht|].
Qed.

Lemma wp_update_wf f Q d :
  wf d -> (forall d', f d = inl d' -> wf d') -> (forall d', f d = inl d' -> wf d' -> Q tt d') -> wp (M := M) (R := R) wf (update f) Q d.
Proof. intros Hwf Ht HQ. apply wp_update; [done|]. intros d' Hd. split; [by apply Ht|]. by apply HQ. Qed.

Lemma wp_update_get_tame {A} (f : DB -> DB * (A + DBErr)) (Q : A -> DB -> Prop) d :
  wf d -> tame d (f d).1 -> (forall x d', tame d d' -> wf d' -> Q x d') -> wp (M := M) (R := R) wf (update_get f) Q d.
Proof.
  intros Hwf Ht HQ. assert (wf (f d).1) by by eapply tame_wf. apply wp_update_get; [done|]. intros x _. by apply HQ.
Qed.
End Rules.

Section SignInRules.
Context {M R : Type} `{Memcached M StoredObject} `{Crypto}.
Context (env : Env) (hash_code : string -> string -> string) (life : Z) (forced : option (string -> bool)).

Lemma gate_tame email original req (s s' : State (M := M)) d d' req' r :
  checkCustomsAndLoadAccount (H0 := account_db hash_code) env life forced email original req s d = (s', d', req', r) -> tame d d'.
Proof.
  unfold checkCustomsAndLoadAccount. destruct (customs_check _ _ _ _ _) as [s0 [req0 e0]].
  destruct (after_customs _ _ _ _ _ _) as [[d0 req1] r0] eqn:Ha.
  assert (tame d d0) as Ht.
  { revert Ha. unfold after_customs, use_unblock_code. cbn [SignIn.consumeUnblockCode account_db]. intros.
    repeat (case_match; simplify_eq/=; try reflexivity); eauto with tame. }
  destruct (match r0 with inl acc => _ | inr e => _ end); by intros [= _ <- _ _].
Qed.

Lemma wp_gate email original req (Q : Account * Request -> DB -> Prop) d :
  wf d -> (forall x d', tame d d' -> wf d' -> Q x d') -> wp (M := M) (R := R) wf (gate env hash_code life forced email original req) Q d.
Proof.
  intros Hwf HQ w <-. unfold gate. destruct (checkCustomsAndLoadAccount _ _ _ _ _ _ _ _) as [[[s d] req'] r'] eqn:Hg.
  apply gate_tame in Hg. assert (wf d) by by eapply tame_wf. destruct r' as [[]|]; [by apply HQ|done].
Qed.

Lemma wp_check_password acc hash ip (Q : bool -> DB -> Prop) d :
  wf d -> (forall b, Q b d) -> wp (M := M) (R := R) wf (check_password env hash_code acc hash ip) Q d.
Proof. intros Hwf HQ w <-. unfold check_password. destruct (SignIn.checkPassword _ _ _ _ _ _ _) as [s []]; [apply HQ|done]. Qed.

Lemma give_keys_tame seed uid a wrapKb v vid d d' key :
  known d uid -> give_keys env seed uid a wrapKb v vid d = Some (d', key) -> tame d d'.
Proof.
  intros Hk. unfold give_keys. destruct (create_key_fetch_token _ _ _ _ _ _) as [t|] eqn:Ht; [|done]. cbn. intros [= <- _].
  apply tame_createKeys. by apply create_key_fetch_seed in Ht as (_ & -> & _).
Qed.

Lemma login_keys_tame fr uid a p vid d d' key : known d uid -> login_keys env fr uid a p vid d = Some (d', key) -> tame d d'.
Proof. intros Hk. unfold login_keys. destruct (unwrap p _ None); [|done]. cbn. by apply give_keys_tame. Qed.

Lemma wp_session_keys fr uid a p vid (Q : string -> DB -> Prop) d :
  wf d -> known d uid -> (forall k d', tame d d' -> wf d' -> Q k d') -> wp (M := M) (R := R) wf (session_keys env fr uid a p vid) Q d.
Proof.
  intros Hwf Hk HQ w <-. unfold session_keys. destruct (login_keys _ _ _ _ _ _ _) as [[d key]|] eqn:Hl; [|done].
  apply login_keys_tame in Hl; [|done]. apply HQ; [done|by eapply tame_wf].
Qed.

End SignInRules.

(** One step, from a well formed database; what is known of accounts is kept
    across tame writes. *)
Ltac carry_known :=
  repeat match goal with
  | Ht : tame ?d ?d', Hk : known ?d _ |- _ => apply (known_tame _ _ _ Ht) in Hk
  end.

Ltac db_step :=
  first
    [ apply wp_auth; [assumption|intros] | apply wp_account; [assumption|intros]
    | apply wp_gate; [assumption|intros; carry_known] | apply wp_check_password; [assumption|intros]
    | apply wp_session_keys; [assumption|assumption|intros; carry_known]
    | apply wp_put; [solve [by apply wf_deleteAccount]|intros]
    | apply wp_put_tame; [assumption|solve [eauto with tame]|intros; carry_known]
    | apply wp_update_wf; [assumption|solve [intros; by eapply wf_deleteEmail]|intros]
    | apply wp_update_wf; [assumption|solve [intros; by eapply wf_setPrimary]|intros]
    | apply wp_update_tame; [assumption|solve [eauto with tame]|intros; carry_known]
    | apply wp_update_get_tame; [assumption|solve [eauto with tame]|intros; carry_known]
    | wp_step ].
Ltac db_steps := repeat (db_step; cbv beta zeta); try assumption.

(** The request leaves a well formed database well formed. *)
Definition preserves {M R A} (m : Act M R A) : Prop := forall d, wf d -> wp wf m (fun _ => wf) d.

Section Handlers.
Context {M R : Type} `{Memcached M StoredObject} `{Redis R} `{CryptoLaws} `{Otp}.
Context (env : Env) (MAX_AGE : Z) (scrypt : string -> list Z -> list Z) (sha256 : list Z -> list Z).
Context (hash_code : string -> string -> string) (life minTime : Z) (forced : option (string -> bool)).
Context (vIntervals cIntervals : jsobj Z) (rate : Q) (valid_email subscribed : string -> bool).
Abbreviation act := (Act M R).

Lemma totp_create_wf id secret codes salts req : preserves (M := M) (R := R) (totp_create env MAX_AGE scrypt id secret codes salts req).
Proof. intros d Hwf. unfold totp_create. db_steps. Qed.

Lemma totp_destroy_wf id req : preserves (M := M) (R := R) (totp_destroy env MAX_AGE id req).
Proof. intros d Hwf. unfold totp_destroy. db_steps. Qed.

Lemma verify_totp_wf id code req : preserves (M := M) (R := R) (verify_totp env MAX_AGE id code req).
Proof. intros d Hwf. unfold verify_totp. db_steps. Qed.

Lemma verify_recovery_wf id code req : preserves (M := M) (R := R) (verify_recovery_code env MAX_AGE scrypt id code req).
Proof. intros d Hwf. unfold verify_recovery_code. db_steps. Qed.

Lemma replace_codes_wf id codes salts : preserves (M := M) (R := R) (replace_codes env MAX_AGE scrypt id codes salts).
Proof. intros d Hwf. unfold replace_codes. db_steps. Qed.

Lemma update_codes_wf id codes salts : preserves (M := M) (R := R) (update_codes env MAX_AGE scrypt id codes salts).
Proof. intros d Hwf. unfold update_codes. db_steps. Qed.

Lemma create_key_wf id k data b : preserves (M := M) (R := R) (create_recovery_key env MAX_AGE sha256 id k data b).
Proof. intros d Hwf. unfold create_recovery_key. db_steps. Qed.

Lemma verify_key_wf id k req : preserves (M := M) (R := R) (verify_recovery_key env MAX_AGE sha256 id k req).
Proof. intros d Hwf. unfold verify_recovery_key. db_steps. Qed.

Lemma delete_key_wf id : preserves (M := M) (R := R) (delete_recovery_key env MAX_AGE id).
Proof. intros d Hwf. unfold delete_recovery_key. db_steps. Qed.

Lemma session_destroy_wf id custom : preserves (M := M) (R := R) (session_destroy env MAX_AGE id custom).
Proof. intros d Hwf. unfold session_destroy. db_steps. Qed.

Lemma session_verify_code_wf id code req : preserves (M := M) (R := R) (session_verify_code env MAX_AGE vIntervals cIntervals id code req).
Proof. intros d Hwf. unfold session_verify_code, verify_account_by_code. db_steps. Qed.

Lemma session_duplicate_wf id fr : preserves (M := M) (R := R) (session_duplicate env MAX_AGE id fr).
Proof.
  intros d Hwf. unfold session_duplicate. do 4 db_step. cbv beta.
  pose proof (create_session_spec env MAX_AGE (seed_session fr) (Tokens.copyTokenState (verification fr) (c_token c)) d) as Hs.
  match goal with Hl : load_session _ _ _ _ = inl c |- _ => apply session_token_uid in Hl as Hu end.
  destruct (create_session _ _ _ _ _) as [d' t]. destruct Hs as [-> _]. cbn. rewrite Hu. db_steps.
Qed.

Lemma reauth_wf disabled id f fr req : preserves (M := M) (R := R) (session_reauth env MAX_AGE hash_code life forced disabled id f fr req).
Proof. intros d Hwf. unfold session_reauth. db_steps. Qed.

(** Addresses. *)
Lemma status_wf id : preserves (M := M) (R := R) (email_status env MAX_AGE valid_email subscribed id).
Proof. intros d Hwf. unfold email_status. db_steps. Qed.

Lemma link_wf uid code req : preserves (M := M) (R := R) (verify_link env vIntervals uid code req).
Proof. intros d Hwf. unfold verify_link, verify_account_by_code. db_steps. Qed.

Lemma destroy_email_wf id addr req : preserves (M := M) (R := R) (destroy_email env MAX_AGE id addr req).
Proof. intros d Hwf. unfold destroy_email. db_steps. Qed.

Lemma secondary_verify_wf id addr code req : preserves (M := M) (R := R) (secondary_verify_code env MAX_AGE id addr code req).
Proof. intros d Hwf. unfold secondary_verify_code. db_steps. Qed.

Lemma set_primary_wf id addr req : preserves (M := M) (R := R) (set_primary env MAX_AGE id addr req).
Proof. intros d Hwf. unfold set_primary. db_steps. Qed.

Lemma reject_unblock_wf uid code : preserves (M := M) (R := R) (reject_unblock_code hash_code uid code).
Proof.
  intros d Hwf. unfold reject_unblock_code. apply wp_update_get_tame; [done| |done]. 
  destruct (consumeUnblockCode _ _ _ d) eqn:E. by eapply tame_consumeUnblock.
Qed.

Lemma new_unblock_tame uid codes d d' code : known d uid -> new_unblock_code env hash_code uid codes d = Some (d', code) -> tame d d'.
Proof.
  intros Hk. induction codes as [|c codes IH]; cbn; [done|]. case_match; [done|]. intros [= <- _]. by apply tame_createUnblock.
Qed.

Lemma send_unblock_wf addr codes req : preserves (M := M) (R := R) (send_unblock_code env hash_code addr codes req).
Proof.
  intros d Hwf. unfold send_unblock_code. db_steps.
  destruct (accountRecord addr d) as [[uid a]|] eqn:Ha; simplify_eq. apply accountRecord_account in Ha.
  apply wp_put_tame; [done|eapply new_unblock_tame; [by eexists|done]|intros]. db_steps.
Qed.

(** Adding an address: what stands in its way is removed, but not an account
    with a verified address. *)
Lemma found_primary addr d e :
  getSecondaryEmail addr d = inl e -> e.(fe_primary) = true ->
  exists a, d.(accounts) !! e.(fe_uid) = Some a /\ a.(primaryVerified) = e.(fe_verified).
Proof.
  unfold getSecondaryEmail. destruct (secondaryEmails d !! _); [by intros [= <-]|].
  destruct (emails d !! _) as [u|]; [|done]. cbn. destruct (accounts d !! u) as [a|] eqn:Ha; [|done]. intros [= <-] _. by exists a.
Qed.

Lemma secondaries_delete uid u d : (size (secondaries u (deleteAccount uid d)) <= size (secondaries u d))%nat.
Proof. apply map_subseteq_size. unfold secondaries. cbn. apply map_filter_subseteq_mono, map_filter_subseteq. Qed.

Lemma secondaries_deleteEmail uid n now u d d' :
  deleteEmail uid n now d = inl d' -> (size (secondaries u d') <= size (secondaries u d))%nat.
Proof.
  unfold deleteEmail. destruct (match accounts d !! uid with Some _ => _ | None => _ end); [done|]. intros [= <-].
  apply map_subseteq_size. unfold secondaries. cbn. apply map_filter_subseteq_mono.
  repeat case_match; cbn; first [done|apply delete_subseteq].
Qed.

Lemma known_deleteEmail uid n now d d' u : deleteEmail uid n now d = inl d' -> known d u -> known d' u.
Proof.
  unfold deleteEmail. destruct (match accounts d !! uid with Some _ => _ | None => _ end); [done|]. intros [= <-] Hk.
  eapply known_tame; [apply tame_touch|]. repeat case_match; done.
Qed.

Lemma clear_spec uid addr u a d :
  wf d -> d.(accounts) !! u = Some a -> a.(primaryVerified) = true ->
  wp (M := M) (R := R) wf (deleteAccountIfUnverified env minTime subscribed uid addr)
    (fun _ d' => wf d' /\ known d' u /\ (size (secondaries u d') <= size (secondaries u d))%nat) d.
Proof.
  intros Hwf Ha Hv. assert (known d u) as Hk by by eexists. unfold deleteAccountIfUnverified. db_steps; [| |done..].
  - split_and!; [done| |apply secondaries_delete]. exists a. cbn. rewrite lookup_delete_ne; [done|]. intros Hu.
    destruct (found_primary addr d f) as (a' & Ha' & Hv'); [done..|]. rewrite Hu in Ha'. simplify_eq.
    match goal with Hn : negb (fe_verified f) = true |- _ => apply negb_true_iff in Hn end. congruence.
  - split_and!; [done|by eapply known_deleteEmail|by eapply secondaries_deleteEmail].
Qed.

Lemma count_owned uid d : length (filterb (fun e => negb e.(fe_primary)) (accountEmails uid d)) = size (secondaries uid d).
Proof.
  unfold accountEmails. rewrite filterb_app. assert (filterb (fun e => negb e.(fe_primary))
    (match accounts d !! uid with Some a => [primary_email uid a] | None => [] end) = []) as -> by by case_match.
  rewrite filterb_all by (intros e (x & -> & _)%list_elem_of_fmap; done).
  rewrite app_nil_l, length_fmap. unfold secondaries. rewrite map_filter_alt, <- length_map_to_list, map_to_list_to_map; [done|].
  eapply sublist_NoDup; [apply (NoDup_fst_map_to_list (secondaryEmails d))|]. apply fmap_sublist, sublist_filter.
Qed.

Lemma create_email_wf id addr hex sent req :
  preserves (M := M) (R := R) (create_email env MAX_AGE minTime subscribed id addr hex sent req).
Proof.
  intros d Hwf. unfold create_email. do 18 (db_step; cbv beta).
  rename select (load_session _ _ _ _ = _) into Hl. rename select (accounts d !! _ = _) into Ha.
  rename select ((_ <? MAX_SECONDARY_EMAILS) = true) into Hroom. rewrite count_owned in Hroom. apply Z.ltb_lt in Hroom.
  apply wp_bind. eapply wp_mono; [eapply clear_spec; [done|exact Ha|by rewrite <- (session_emailVerified _ _ _ _ _ _ Hl Ha)]|].
  cbv beta. intros _ d' (Hwf' & Hk' & Hsize). apply wp_bind, wp_update_wf; [done| |].
  - intros d2 Hd2. eapply wf_createEmail; [done|exact Hk'|lia|exact Hd2].
  - intros d2 _ Hwf2. db_steps.
Qed.

(** Accounts. *)
Context (version : option Z) (disabled : list string) (sIntervals : jsobj Z) (random : Q).

Lemma clear_unverified_wf addr : preserves (M := M) (R := R) (clear_unverified env subscribed addr).
Proof. intros d Hwf. unfold clear_unverified. db_steps. Qed.

Lemma wp_clear_unverified addr (Q : unit -> DB -> Prop) d :
  wf d -> (forall d', wf d' -> Q tt d') -> wp (M := M) (R := R) wf (clear_unverified env subscribed addr) Q d.
Proof. intros Hwf HQ. eapply wp_mono; [by apply clear_unverified_wf|]. intros []. apply HQ. Qed.

(** The random values of a new account, as they are drawn. *)
Record new_ok (na : NewAccount) : Prop := {
  no_salt : hex_of 32 na.(na_authSalt); no_kA : hex_of 32 na.(na_kA); no_wrap : hex_of 32 na.(na_wrapWrapKb) }.

Lemma wp_create_account addr pw v na (Q : Password * AccountRow -> DB -> Prop) d :
  wf d -> new_ok na -> (forall x d', wf d' -> known d' na.(na_uid) -> Q x d') ->
  wp (M := M) (R := R) wf (create_account env version addr pw v na) Q d.
Proof.
  intros Hwf [Hs Hk Hw] HQ. unfold create_account, create_password. apply wp_bind.
  destruct (new_Password _ _ _) as [p|]; [|by apply wp_throw]. apply wp_ret. cbv beta. apply wp_bind, wp_update_wf; [done|intros d' Hd; exact (wf_createAccount _ _ _ _ _ _ _ _ _ _ _ _ _ Hwf Hk Hw Hs (verifyHash_hex p) Hd)|].
  intros d' _ Hwf'. 
  do 3 (db_step; cbv beta). by apply HQ.
Qed.

Lemma account_create_wf f na fr sent req :
  new_ok na -> preserves (M := M) (R := R) (accountCreate env version disabled subscribed vIntervals rate random f na fr sent req).
Proof.
  intros Hna d Hwf. unfold accountCreate, new_session, send_verify_code. do 5 (db_step; cbv beta).
  apply wp_clear_unverified; [done|]. intros d1 Hwf1. cbv beta zeta. apply wp_bind.
  apply wp_create_account; [done|done|]. intros [p a] d2 Hwf2 Hk. db_steps.
Qed.

Lemma wp_set_stub uid a pw (Q : unit -> DB -> Prop) d :
  wf d -> d.(accounts) !! uid = Some a -> (forall d', wf d' -> known d' uid -> Q tt d') ->
  wp (M := M) (R := R) wf (setPasswordOnStubAccount env version uid a pw) Q d.
Proof.
  intros Hwf Ha HQ. assert (known d uid) as Hk by by eexists. destruct (wf_rows _ Hwf uid a Ha) as [_ [Hw Hwl] [Hs Hsl] _].
  assert (hex_of 32 (to_hex a.(AccountStore.authSalt))) by by apply bytes_hex_of.
  assert (hex_of 32 (to_hex a.(wrapWrapKb))) by by apply bytes_hex_of.
  unfold setPasswordOnStubAccount, create_password. db_steps. by apply HQ.
Qed.

Lemma finish_setup_wf token pw wantsKeys seed :
  preserves (M := M) (R := R) (finishSetup env version vIntervals sIntervals token pw wantsKeys seed).
Proof.
  intros d Hwf w <-. unfold finishSetup. destruct token as [uid|]; [|done].
  assert (wp wf (finish_setup_body (M := M) (R := R) env version vIntervals sIntervals uid pw wantsKeys seed) (fun _ => wf) (Routes.db w)) as Hb.
  { unfold finish_setup_body, verify_account_by_code, new_session, delete_reminders. do 3 (db_step; cbv beta).
    apply wp_set_stub; [done..|]. intros d' Hwf' Hk. db_steps. }
  specialize (Hb w eq_refl). destruct (finish_setup_body _ _ _ _ _ _ _ _ w) as [w1 [v|e]]; [done|].
  destruct (str_truthy uid); [|done].
  assert (wp wf (finish_setup_failed (A := string * string * bool) (M := M) (R := R) sIntervals uid e) (fun _ => wf) (Routes.db w1)) as Hf
    by (unfold finish_setup_failed, delete_reminders; db_steps).
  by specialize (Hf w1 eq_refl).
Qed.

Lemma set_password_wf product uid pw wantsKeys sendMail sent flow seed req :
  preserves (M := M) (R := R) (setPassword env version vIntervals sIntervals rate random product uid pw wantsKeys sendMail sent flow seed req).
Proof.
  intros d Hwf. unfold setPassword, new_session, send_verify_code. do 5 (db_step; cbv beta).
  apply wp_set_stub; [done..|]. intros d' Hwf' Hk. db_steps.
Qed.

(** The column of an account without a password. *)
Lemma no_password_hex : hex_of 32 (to_hex (replicate 32 0)).
Proof. apply bytes_hex_of; [|done]. apply Forall_replicate. unfold is_byte. lia. Qed.

Lemma stub_wf rejected client addr clientId na req :
  new_ok na -> preserves (M := M) (R := R) (stub_account env version disabled subscribed rejected client addr clientId na req).
Proof.
  intros [Hs Hk Hw] d Hwf. unfold stub_account. db_steps;
    (apply wp_update_wf; [done|intros ? Hd; eapply wf_createAccount, Hd; try done; apply no_password_hex|intros; by apply wp_ret]).
Qed.

Lemma destroy_account_wf session addr pw req :
  preserves (M := M) (R := R) (destroy_account env MAX_AGE hash_code session addr pw req).
Proof. intros d Hwf. unfold destroy_account. db_steps. Qed.
End Handlers.

(** ** Flows *)

Section Flows.
Context {M R : Type} `{Memcached M StoredObject} `{Redis R} `{CryptoLaws}.
Context (env : Env) (MAX_AGE changeLife forgotLife resetLife life : Z) (sha256 : list Z -> list Z).
Context (hash_code : string -> string -> string) (forced : option (string -> bool)) (cfg : LoginConfig) (cIntervals : jsobj Z).
Context (events : string -> string -> option (list SecurityEvent)) (version : option Z).
Abbreviation state := (State (M := M)).

(** Wrapping fails unless the key has 32 bytes. *)
Lemma unwrap_length p w ctx w' : unwrap p w ctx = Some w' -> hex_of 32 w'.
Proof.
  unfold unwrap, xorBuffers. set (k := hkdf _ _ _). cbn [from]. destruct (Nat.eqb_spec (length k) (length (from_hex w))) as [Hl|]; [|done].
  intros [= <-]. eexists. split; [|split; [|reflexivity]].
  - apply zip_xor_bytes; [apply hkdf_bytes|apply from_hex_bytes].
  - rewrite zip_xor_length by done. rewrite <- Hl. apply hkdf_length.
Qed.

Lemma open_session_tame f fr susp unb ip uid a p d d' r :
  known d uid -> open_session env cfg MAX_AGE events f fr susp unb ip uid a p d = (d', r) -> tame d d'.
Proof.
  intros Hk. unfold open_session. destruct (checkTotpToken _ _ _) as [m|]; [|by intros [= <- _]]. cbv zeta.
  set (pl := plan _ _ _ _ _ _ _ _). set (d1 := createSessionToken _ _ _ _ _ _).
  assert (tame d d1) as Ht by by apply tame_createSession.
  destruct (l_wantsKeys f); [|by intros [= <- _]]. destruct (login_keys _ _ _ _ _ _ _) as [[d2 key]|] eqn:Hl; intros [= <- _]; [|done].
  apply login_keys_tame in Hl; [by etransitivity|by eapply known_tame].
Qed.

Lemma login_tame f fr req (s s' : state) (r r' : R) d d' res :
  login env hash_code life forced cfg MAX_AGE cIntervals events f fr req s r d = (s', r', d', res) -> tame d d'.
Proof.
  unfold login. destruct (client_disabled _ _); [by intros [= _ _ <- _]|].
  destruct (checkCustomsAndLoadAccount _ _ _ _ _ _ _ _) as [[[s1 d1] req1] [[acc unb]|e]] eqn:Hg; apply gate_tame in Hg;
    [|by intros [= _ _ <- _]].
  destruct (accounts d1 !! a_uid acc) as [a|] eqn:Ha; [|by intros [= _ _ <- _]].
  intros Hl. transitivity d1; [done|]. revert Hl. repeat (case_match; simplify_eq/=; try (by intros [= _ _ <- _])).
  all: intros [= _ _ <- _]; eapply open_session_tame; [by eexists|done].
Qed.

Lemma changeStart_tame addr pw fr req (s s' : state) d d' r :
  changeStart env hash_code addr pw fr req s d = (s', d', r) -> tame d d'.
Proof.
  unfold changeStart, change_tokens. intros Hc. repeat (case_match; simplify_eq/=; try done).
  match goal with Ha : accountRecord _ _ = Some (?u, _) |- _ =>
    apply accountRecord_account in Ha; assert (known d u) as Hk by by eexists end.
  match goal with Hg : give_keys _ _ _ _ _ _ _ _ = _ |- _ => apply give_keys_tame in Hg as Ht; [|done] end.
  etransitivity; [exact Ht|]. apply tame_createChange. by eapply known_tame.
Qed.

Lemma forgotSend_tame addr fr code req (s s' : state) d d' r : forgotSendCode env addr fr code req s d = (s', d', r) -> tame d d'.
Proof.
  unfold forgotSendCode. intros. repeat (case_match; simplify_eq/=; try done).
  match goal with Ha : accountRecord _ _ = Some _ |- _ => apply accountRecord_account in Ha as Hk end.
  apply tame_createForgot. by eexists.
Qed.

Lemma forgotVerify_tame id code fr req (s s' : state) d d' r :
  forgotVerifyCode env forgotLife id code fr req s d = (s', d', r) -> tame d d'.
Proof.
  unfold forgotVerifyCode, failVerifyAttempt, auth_forgot. intros.
  repeat (case_match; simplify_eq/=; try done); eauto with tame. apply tame_forgotVerified. by eexists.
Qed.

Lemma passwordCreate_tame pw t fr d d' r :
  hex_of 32 fr.(salt) -> hex_of 32 fr.(new_key) -> passwordCreate env version pw t fr d = (d', r) -> tame d d'.
Proof. intros Hs Hn. unfold passwordCreate. intros. repeat (case_match; simplify_eq/=; try done); eauto with tame. Qed.

Lemma keys_tame id d d' r : keys id d = (d', r) -> tame d d'.
Proof. unfold keys. intros. repeat (case_match; simplify_eq/=; try done); eauto with tame. Qed.

Lemma changePassword_tame fr pcId uid y d d' b :
  hex_of 32 fr.(salt) -> changePassword env version fr pcId uid y d = (d', b) -> tame d d'.
Proof.
  intros Hs. unfold changePassword. destruct (new_Password _ _ _) as [p|]; [|by intros [= <- _]].
  destruct (wrap p _ None) as [w|] eqn:Hw; intros [= <- _]; [|apply tame_deleteChange].
  etransitivity; [apply tame_deleteChange|]. apply tame_reset; [apply verifyHash_hex|done|by eapply unwrap_length].
Qed.

Lemma changeFinish_tame fr pcId y wantsKeys w w' r :
  hex_of 32 fr.(salt) -> changeFinish env MAX_AGE changeLife version fr pcId y wantsKeys w = (w', r) ->
  tame w.(PasswordFlows.db) w'.(PasswordFlows.db).
Proof.
  intros Hs. unfold changeFinish. destruct (auth_change _ _ _ _) as [t|]; [|by intros [= <- _]]. cbv zeta.
  destruct (previous_session _ _ _ _ _) as [[v m]|]; [|by intros [= <- _]].
  destruct (changePassword _ _ _ _ _ _ _) as [d b] eqn:Hc. apply changePassword_tame in Hc; [|done].
  destruct b; [|by intros [= <- _]]. destruct (account _ _) as [a|] eqn:Ha; [|by intros [= <- _]]. apply known_account in Ha.
  assert (known d (t_uid t)) as Hk by by eexists.
  destruct (change_session _ _ _ _ _ _ _) as [d2|] eqn:Hcs; [|by intros [= <- _]].
  assert (tame d d2) as H2'.
  { unfold change_session in Hcs. set (d1 := createSessionToken _ _ _ _ _ _) in Hcs.
    assert (tame d d1) as Ht by by apply tame_createSession. destruct (m ≫= VERIFICATION_METHOD); [|by injection Hcs as <-].
    destruct (verifyTokensWithMethod _ _ _) eqn:Hv; [|done]. injection Hcs as <-. etransitivity; [exact Ht|eauto with tame]. }
  destruct wantsKeys; [|intros [= <- _]; by etransitivity].
  destruct (give_keys _ _ _ _ _ _ _ _) as [[d4 key]|] eqn:Hg; intros [= <- _]; [|by etransitivity].
  apply give_keys_tame in Hg; [|by eapply known_tame]. cbn. by do 2 (etransitivity; [done|]).
Qed.

Lemma resetAccountData_tame fr uid y d d' k :
  hex_of 32 fr.(salt) -> hex_of 32 fr.(new_key) -> resetAccountData env version fr uid y d = Some (d', k) -> tame d d'.
Proof.
  intros Hs Hn. unfold resetAccountData. destruct (new_Password _ _ _) as [p|]; [|done]. cbn [mbind option_bind].
  destruct (ostr_truthy _); [destruct (wrap p _ None) as [w|] eqn:Hw|destruct (unwrap p _ None)]; try done; cbn [mbind option_bind];
    intros [= <- _]; (etransitivity; [|apply tame_resetTokens]); apply tame_reset; try done; try apply verifyHash_hex. by eapply unwrap_length.
Qed.

Lemma reset_tame fr id y wantsKeys (s s' : state) w w' r :
  hex_of 32 fr.(salt) -> hex_of 32 fr.(new_key) -> reset env sha256 resetLife version fr id y wantsKeys s w = (s', w', r) ->
  tame w.(PasswordFlows.db) w'.(PasswordFlows.db).
Proof.
  intros Hs Hn. unfold reset. destruct (auth_reset _ _ _ _) as [t|]; [|by intros [= _ <- _]]. cbv zeta.
  destruct (if ostr_truthy _ then _ else _); [|by intros [= _ <- _]].
  destruct (resetAccountData _ _ _ _ _ _) as [[d1 k]|] eqn:Hd; [|by intros [= _ <- _]]. apply resetAccountData_tame in Hd; [|done..].
  destruct (account _ _) as [a|] eqn:Ha; [|by intros [= _ <- _]]. apply known_account in Ha. assert (known d1 (t_uid t)) as Hk by by eexists.
  destruct (client_reset _ _ _) as [s1 []]; [|by intros [= _ <- _]]. cbn [negb].
  set (d2 := if ostr_truthy _ then _ else _). assert (tame d1 d2) as H12 by (unfold d2; destruct (ostr_truthy _); [apply tame_deleteRecovery|done]).
  destruct (if q_sessionToken y then _ else _) as [d3 vid] eqn:H3. apply (known_tame _ _ _ H12) in Hk.
  assert (tame d2 d3) as H23.
  { destruct (q_sessionToken y); [|by injection H3 as <- _]. unfold reset_session in H3. injection H3 as <- _. by apply tame_createSession. }
  apply (known_tame _ _ _ H23) in Hk. assert (tame (PasswordFlows.db w) d3) as Hall by by do 2 (etransitivity; [done|]).
  destruct wantsKeys; [|by intros [= _ <- _]]. destruct (q_sessionToken y); cbn [negb]; [|by intros [= _ <- _]].
  destruct (give_keys _ _ _ _ _ _ _ _) as [[d4 key]|] eqn:Hg; intros [= _ <- _]; [|done].
  apply give_keys_tame in Hg; [|done]. by etransitivity.
Qed.
End Flows.

(** ** The system *)

(** The salts and keys that a request draws have 32 bytes. *)
Definition drawn_ok (c : Call) : Prop :=
  match c with
  | CChangeFinish fr _ _ _ => hex_of 32 fr.(salt)
  | CPasswordCreate _ _ fr | CReset fr _ _ _ => hex_of 32 fr.(salt) /\ hex_of 32 fr.(new_key)
  | CAccountCreate _ na _ _ _ _ | CAccountStub _ _ na _ => new_ok na
  | _ => True
  end.

Section System.
Context {M R : Type} `{Memcached M StoredObject} `{Redis R} `{CryptoLaws} `{Otp}.
Context (k : SiteConfig).

Lemma by_act_wf {A} (m : Act M R A) x : preserves m -> wf (site_db x) -> wf (site_db (by_act m x)).
Proof.
  intros Hm Hx. specialize (Hm _ Hx x.(site) eq_refl). unfold by_act, site_db. by destruct (m (site x)) as [w [|]].
Qed.

Lemma serve_wf env c (x : Site (M := M) (R := R)) : drawn_ok c -> wf (site_db x) -> wf (site_db (serve k env c x)).
Proof.
  intros Hc Hx. destruct c; cbn [serve drawn_ok] in *; try (apply by_act_wf; [|done]).
  - destruct (login _ _ _ _ _ _ _ _ _ _ _ _ _ _) as [[[s r] d] res] eqn:Hl. apply login_tame in Hl. by eapply tame_wf.
  - apply reauth_wf.
  - apply session_duplicate_wf.
  - apply session_destroy_wf.
  - apply session_verify_code_wf.
  - apply verify_totp_wf.
  - apply verify_recovery_wf.
  - apply totp_create_wf.
  - apply totp_destroy_wf.
  - apply replace_codes_wf.
  - apply update_codes_wf.
  - apply create_key_wf.
  - apply verify_key_wf.
  - apply delete_key_wf.
  - apply status_wf.
  - apply link_wf.
  - apply create_email_wf.
  - apply destroy_email_wf.
  - apply secondary_verify_wf.
  - apply set_primary_wf.
  - apply send_unblock_wf.
  - apply reject_unblock_wf.
  - unfold by_db. destruct (changeStart _ _ _ _ _ _ _ _) as [[s d] r] eqn:E. apply changeStart_tame in E. by eapply tame_wf.
  - destruct (changeFinish _ _ _ _ _ _ _ _ _) as [p r] eqn:E. apply changeFinish_tame in E; [|done]. by eapply tame_wf.
  - unfold by_db. destruct (forgotSendCode _ _ _ _ _ _ _) as [[s d] r] eqn:E. apply forgotSend_tame in E. by eapply tame_wf.
  - unfold by_db. destruct (forgotVerifyCode _ _ _ _ _ _ _ _) as [[s d] r] eqn:E. apply forgotVerify_tame in E. by eapply tame_wf.
  - destruct (load_session _ _ _ _) as [c|]; [|done]. unfold by_db. destruct Hc as [Hs Hn].
    destruct (passwordCreate _ _ _ _ _ _) as [d r] eqn:E. apply passwordCreate_tame in E; [|done..]. by eapply tame_wf.
  - destruct Hc as [Hs Hn]. destruct (reset _ _ _ _ _ _ _ _ _ _) as [[s p] r] eqn:E. apply reset_tame in E; [|done..]. by eapply tame_wf.
  - unfold by_db. destruct (keys _ _) as [d r] eqn:E. apply keys_tame in E. by eapply tame_wf.
  - by apply account_create_wf.
  - unfold by_both, accountStub, site_db. pose proof (stub_wf env (subscribed k) (verifier k) (disabledClients (loginConfig k)) (rejected k) (oauthClient k) addr clientId na req Hc _ Hx (site x) eq_refl) as Hw.
    destruct (stub_account _ _ _ _ _ _ _ _ _ _ _) as [w' [client|e]]; [|done].
    destruct (stub_scope _ _); [|done]. destruct (newToken _ _ _) as [o [t|]]; done.
  - apply finish_setup_wf.
  - apply set_password_wf.
  - unfold by_both, destroy, site_db. pose proof (destroy_account_wf env (MAX_AGE k) (hash_code k) session addr authPW req _ Hx (site x) eq_refl) as Hw.
    destruct (destroy_account _ _ _ _ _ _ _ _) as [w' [uid|e]]; done.
Qed.

(** [C4] The account database keeps its types under all requests: the binary
    columns of every account hold 32 bytes, no two accounts were created with
    one address, the index of addresses holds exactly the primary and the
    secondary addresses, no user has more than three secondary ones, and no
    row of any table belongs to an account that does not exist.  So what is
    left of a deleted account cannot turn up in one that is created later. *)
Theorem account_database_typed (t : list (Env * Call)) (x0 : Site (M := M) (R := R)) :
  wf (site_db x0) -> Forall (fun q => drawn_ok q.2) t -> wf (site_db (run k t x0)).
Proof.
  intros Hx Ht. induction Ht as [|[env c] t Hc _ IH]; [done|]. cbn [run]. by apply serve_wf.
Qed.
End System.

(** ** A witness *)

#[local] Existing Instance toy_crypto.
#[local] Existing Instance toy_laws.

Definition empty_db : DB := mkDB ∅ ∅ ∅ ∅ ∅ ∅ ∅ ∅ ∅ ∅ ∅ ∅ ∅ ∅.

Lemma wf_empty : wf empty_db.
Proof.
  split; cbn; try (by intros; simplify_map_eq).
  intros uid Ho. destruct Ho; simplify_map_eq.
Qed.

Definition empty_site : Site := mkSite (site_of empty_db) (flow_world true).(oauth).

Definition bob_draw : NewAccount := mkNewAccount "bob" "f00d" (key_of 21) (key_of 22) (key_of 23).

Definition bob_form : CreateForm := mkCreateForm "B@x.org" (key_of 24) None false None true None None.

(** [bob] creates an account. *)
Definition bob_comes : list (Env * Call) := [(flow_env, CAccountCreate bob_form bob_draw (draw 30) true 0%Q (request_with None))].

Lemma account_database_typed_witness :
  wf (site_db (run toy_config bob_comes empty_site)) /\
  (site_db (run toy_config bob_comes empty_site)).(emails) !! "b@x.org" = Some "bob".
Proof.
  split; [|vm_compute; reflexivity]. apply account_database_typed; [apply wf_empty|].
  constructor; [|constructor]. split; apply key_of_hex.
Defined.
