(* ===== verification/AccountLaws.v ===== *)
(** * Theorems on creating and destroying accounts

    A created account opens with its password and starts empty; a stub account
    gets a password once; what a session of another user may destroy; and the
    address that an account has given up. *)

From Stdlib Require Import QArith.
From S2P Require Import Prelude Store Text Records Server CustomsClient SignIn Redis Reminders.
From S2P Require Import Bytes KeyBundle AccountStore.
From S2P Require Import PasswordFlows Login Routes SecondFactor EmailRoutes AccountRoutes RouteLaws AccountSystem FactorLaws AccountTypes.
From S2P Require Tokens.

#[local] Open Scope string_scope.
#[local] Open Scope Z_scope.

(** ** Spellings of an address *)





(** ** Creation *)

Section Creation.
Context {M R : Type} `{Memcached M StoredObject} `{Redis R} `{CryptoLaws} `{Otp}.
Context (env : Env) (version : option Z) (disabled : list string) (subscribed : string -> bool) (vIntervals : jsobj Z) (rate random : Q).
Abbreviation now := (env.(Server.now)).









End Creation.

(** ** Destruction *)

Section Destruction.
Context {M R : Type} `{Memcached M StoredObject} `{CryptoLaws}.
Context (env : Env) (MAX_AGE : Z) (hash_code : string -> string -> string).
Abbreviation now := (env.(Server.now)).

(** The account of a user that is gone: neither by its address nor by its id. *)
Definition gone (uid : string) (d : DB) : Prop := ~ known d uid /\ forall n, d.(emails) !! n <> Some uid.

Lemma deleteAccount_gone uid d : gone uid (deleteAccount uid d).
Proof.
  split.
  - unfold known. cbn. rewrite lookup_delete_eq. by intros [].
  - intros n. cbn. intros [_ Hn]%map_lookup_filter_Some. by apply Hn.
Qed.

(** The second factor of an account does not protect it from being destroyed:
    the session that the request carries may be one of another user.  With the
    password of the account, any verified session that passed a second factor
    will do. *)
Theorem destroy_foreign_session id addr pw kB req (w : World M R) c uid a s1 q :
  load_session MAX_AGE now id w.(Routes.db) = inl c -> unverified c = false -> aal c = 2 -> c.(c_uid) <> uid ->
  client_check env addr "accountDestroy" req w.(customs) = (s1, (q, Pass)) ->
  accountRecord addr w.(Routes.db) = Some (uid, a) -> account_ok a -> to_hex a.(AccountStore.authSalt) <> ONES -> opens a addr pw kB -> hasTotpToken uid w.(Routes.db) = true ->
  exists w', destroy_account env MAX_AGE hash_code (Some id) addr (getCredentials addr pw).(cc_authPW) req w = (w', inl uid) /\
    gone uid w'.(Routes.db).
Proof.
  intros Hc Hv Ha2 _ Hcheck Hrec Hok Hsalt Hopen Htotp. unfold destroy_account.
  erewrite bind_ok by (erewrite bind_ok by (by apply auth_ok); reflexivity). erewrite bind_ok by (by eapply check_ok).
  erewrite bind_ok by done. cbn [Routes.db]. rewrite Hrec. erewrite bind_ok by done. cbn [Routes.db]. rewrite Htotp, Hv, Ha2.
  erewrite bind_ok by done. destruct Hopen as (p & wKb & Hp & Hm & _). rewrite Hp.
  erewrite bind_ok by (by apply check_password_ok; [eapply accountRecord_account|..]). erewrite bind_ok by done.
  eexists. split; [reflexivity|apply deleteAccount_gone].
Qed.
End Destruction.

(** ** Addresses that were given up *)

Section GivenUp.
Context {M R : Type} `{Memcached M StoredObject} `{Redis R} `{CryptoLaws} `{Otp}.
Context (env : Env) (version : option Z) (disabled : list string) (subscribed : string -> bool) (vIntervals : jsobj Z) (rate random : Q).

(** The address with which an account was created stays taken when its owner
    has made another one primary and removed it: it is listed with nobody, so
    nothing is cleared, and still no account can be created with it. *)
Theorem released_address_stuck f na fr sent req (w : World M R) uid a s1 q :
  wf w.(Routes.db) -> w.(Routes.db).(accounts) !! uid = Some a -> a.(AccountStore.email) = f.(cr_email) ->
  w.(Routes.db).(emails) !! toLowerCase f.(cr_email) = None ->
  client_disabled disabled f.(cr_service) = false ->
  client_check env f.(cr_email) "accountCreate" req w.(customs) = (s1, (q, Pass)) ->
  hex_of 32 f.(cr_authPW) -> hex_of 32 na.(na_authSalt) -> version_ok (default 1 version) ->
  accountCreate env version disabled subscribed vIntervals rate random f na fr sent req w =
    (mkW s1 w.(Routes.db) w.(redis), inr (RDB AccountExists)).
Proof.
  intros Hwf Ha Hname Hgone Hcl Hcheck Hpw Hs Hv. unfold accountCreate, clear_unverified, create_account, create_password.
  erewrite bind_ok by (by rewrite Hcl). erewrite bind_ok by (by eapply check_ok).
  assert (getSecondaryEmail f.(cr_email) (Routes.db w) = inr UnknownSecondaryEmail) as Hsec.
  { unfold getSecondaryEmail. rewrite Hgone. destruct (secondaryEmails _ !! _) eqn:E; [|done]. apply (wf_secondary _ Hwf) in E. congruence. }
  erewrite bind_ok by (erewrite bind_ok by done; cbn [Routes.db]; by rewrite Hsec). cbv zeta.
  destruct (new_Password_ok f.(cr_authPW) na.(na_authSalt) version) as (p & Hp & _); [done..|]. rewrite Hp.
  unfold bind at 1. erewrite bind_ok by done. unfold bind at 1, update. cbn [Routes.db].
  unfold createAccount. rewrite (bool_decide_eq_true_2 (is_Some (record_by_name _ _))); [by rewrite orb_true_r|].
  destruct (record_by_name _ _) as [x|] eqn:E; [by eexists|]. exfalso.
  apply (record_by_name_none _ _ uid a E Ha). by rewrite Hname.
Qed.
End GivenUp.

(** ** Witnesses *)

#[local] Existing Instance toy_crypto.
#[local] Existing Instance toy_laws.






Definition destroy_checked := client_check flow_env alice_addr "accountDestroy" (request_with None) ServerLaws.empty.
Definition mallory_credentials : Session :=
  match load_session 0 flow_env.(Server.now) "m1" (flow_db true) with inl c => c | inr _ => alice_session end.

(** [mallory] knows the password of [alice], and destroys her account with a
    session of his own. *)
Lemma destroy_foreign_session_witness :
  hasTotpToken "u1" (flow_db true) = true /\
  exists w', destroy_account flow_env 0 String.append (Some "m1") alice_addr (getCredentials alice_addr "old").(cc_authPW) (request_with None)
               (site_of (flow_db true)) = (w', inl "u1") /\ gone "u1" w'.(Routes.db).
Proof.
  split; [reflexivity|].
  refine (destroy_foreign_session flow_env 0 String.append "m1" alice_addr "old" alice_kB (request_with None) (site_of (flow_db true))
    mallory_credentials "u1" alice_row destroy_checked.1 destroy_checked.2.1 _ _ _ _ _ _ _ _ _ _).
  - vm_compute. reflexivity.
  - vm_compute. reflexivity.
  - vm_compute. reflexivity.
  - vm_compute. discriminate.
  - vm_compute. reflexivity.
  - vm_compute. reflexivity.
  - apply alice_ok.
  - vm_compute. discriminate.
  - apply alice_opens.
  - reflexivity.
Defined.

(** [carol] adds an address, makes it primary and removes the one she started
    with. *)
Definition carol_form : CreateForm := mkCreateForm "c@x.org" (key_of 24) None true None false None None.
Definition carol_draw : NewAccount := mkNewAccount "carol" "cafe" (key_of 61) (key_of 62) (key_of 63).

Definition carol_moves : list (Env * Call) :=
  let id := session_id (draw 70) in let req := request_with None in
  [(flow_env, CDestroyEmail id "c@x.org" req); (flow_env, CSetPrimary id "new@x.org" req);
   (flow_env, CSecondaryVerify id "new@x.org" "aa" req); (flow_env, CCreateEmail id "new@x.org" "aa" true req);
   (flow_env, CAccountCreate carol_form carol_draw (draw 70) true 0%Q req)].

Definition carol_site : Site := run toy_config carol_moves empty_site.

Lemma carol_wf : wf (site_db carol_site).
Proof. unfold carol_site, carol_moves. cbn [run]. do 4 (apply serve_wf; [exact I|]). apply serve_wf; [split; apply key_of_hex|apply wf_empty]. Qed.

Definition carol_row : AccountRow := default alice_row ((site_db carol_site).(accounts) !! "carol").
Definition taken_form : CreateForm := mkCreateForm "c@x.org" (key_of 25) None false None false None None.
Definition taken_checked := client_check flow_env "c@x.org" "accountCreate" (request_with None) carol_site.(site).(customs).

Lemma released_address_stuck_witness :
  (site_db carol_site).(emails) !! "new@x.org" = Some "carol" /\
  (accountCreate flow_env None [] (fun _ => false) [] 1%Q 0%Q taken_form bob_draw (draw 80) true (request_with None) carol_site.(site)).2
    = inr (RDB AccountExists).
Proof.
  split; [vm_compute; reflexivity|].
  erewrite (released_address_stuck flow_env None [] (fun _ => false) [] 1%Q 0%Q taken_form bob_draw (draw 80) true (request_with None)
    carol_site.(site) "carol" carol_row taken_checked.1 taken_checked.2.1); [reflexivity|apply carol_wf|..].
  - vm_compute. reflexivity.
  - vm_compute. reflexivity.
  - vm_compute. reflexivity.
  - reflexivity.
  - vm_compute. reflexivity.
  - apply key_of_hex.
  - apply key_of_hex.
  - by right.
Defined.
