(* ===== verification/Lineage.v ===== *)
(** * Where second factors come from

    The invariant of the system of account routes for sessions that count as
    having passed a second factor: each descends from a session to which a
    right TOTP or recovery code was given. *)

From Stdlib Require Import QArith.
From S2P Require Import Prelude Store Text Records Server CustomsClient SignIn Redis Reminders.
From S2P Require Import Bytes KeyBundle AccountStore.
From S2P Require Import PasswordFlows Login Routes SecondFactor EmailRoutes AccountRoutes FactorLaws RouteLaws AccountSystem.
From S2P Require Tokens Scopes OAuthStore.

#[local] Open Scope string_scope.
#[local] Open Scope Z_scope.

(** ** Sessions that passed a second factor *)

(** Methods 2 and 3: a TOTP code, a recovery code; the assurance level is 2. *)
Definition elevated (r : SessionRow) : Prop := r.(s_method) ∈ [Some 2; Some 3].

#[export] Instance elevated_dec r : Decision (elevated r).
Proof. unfold elevated. apply _. Defined.

Definition elevated_in (d : DB) (id : string) : Prop := exists r, d.(sessionTokens) !! id = Some r /\ elevated r.

(** Nothing is elevated but what was before, and the sessions [X]. *)
Definition raises (X : string -> Prop) (d d' : DB) : Prop := forall id, elevated_in d' id -> elevated_in d id \/ X id.

Definition none : string -> Prop := fun _ => False.

#[export] Instance raises_pre X : PreOrder (raises X).
Proof. split; [intros d id; tauto|]. intros d1 d2 d3 H1 H2 id Hid. destruct (H2 id Hid); [by apply H1|by right]. Qed.

Lemma raises_weaken X Y d d' : (forall id, X id -> Y id) -> raises X d d' -> raises Y d d'.
Proof. intros HXY Hr id Hid. destruct (Hr id Hid); [by left|right; by apply HXY]. Qed.

Lemma raises_same X d d' : d'.(sessionTokens) = d.(sessionTokens) -> raises X d d'.
Proof. intros He id (r & Hr & ?). left. exists r. by rewrite <- He. Qed.

Lemma raises_sub X d d' :
  (forall id r, d'.(sessionTokens) !! id = Some r -> elevated r -> d.(sessionTokens) !! id = Some r) -> raises X d d'.
Proof. intros Hs id (r & Hr & He). left. exists r. split; [by apply Hs|done]. Qed.

Lemma raises_createSession X id uid now must vid d : raises X d (createSessionToken id uid now must vid d).
Proof.
  apply raises_sub. intros i r. unfold createSessionToken, add_unverified. destruct vid; cbn;
    (destruct (decide (id = i)) as [<-|]; [rewrite lookup_insert_eq; intros [= <-] He|by rewrite lookup_insert_ne by done]);
    unfold elevated in He; cbn in He; set_solver.
Qed.

Lemma raises_createKeyFetch X now t d : raises X d (createKeyFetchToken now t d).
Proof. apply raises_same. unfold createKeyFetchToken, add_unverified. by destruct (kf_tokenVerificationId t). Qed.

Lemma raises_verify X id m d d' :
  verifyTokensWithMethod id m d = inl d' -> (Some m ∈ [Some 2; Some 3] -> X id) -> raises X d d'.
Proof.
  unfold verifyTokensWithMethod. destruct (sessionTokens d !! id) as [r|]; [|done]. cbv zeta. intros [= <-] HX i (r' & Hr & He).
  assert (<[id := mkSessionRow (s_uid r) (s_createdAt r) (s_authAt r) (s_mustVerify r) (Some m)]> (sessionTokens d) !! i = Some r') as Hi.
  { revert Hr. cbn. by destruct (unverifiedTokens d !! id) as [[]|]. }
  destruct (decide (id = i)) as [<-|Hne].
  - rewrite lookup_insert_eq in Hi. injection Hi as <-. right. by apply HX.
  - rewrite lookup_insert_ne in Hi by done. left. by exists r'.
Qed.

Lemma email_no_factor : Some 1 ∉ [Some 2; Some 3].
Proof. set_solver. Qed.

Lemma raises_deleteSession X id d : raises X d (deleteSessionToken id d).
Proof.
  unfold deleteSessionToken. destruct (sessionTokens d !! id); [|reflexivity]. apply raises_sub. cbn. intros i r Hi _.
  by apply lookup_delete_Some in Hi as [_ ?].
Qed.

Lemma raises_updateSession X id at_ must d : raises X d (updateSessionToken id at_ must d).
Proof.
  intros i (r & Hr & He). left. unfold updateSessionToken in Hr. cbn in Hr. destruct (decide (id = i)) as [<-|Hne].
  - rewrite lookup_alter_eq in Hr. destruct (sessionTokens d !! id) as [r0|] eqn:E; [|done]. injection Hr as <-. by exists r0.
  - rewrite lookup_alter_ne in Hr by done. by exists r.
Qed.

Lemma raises_but_of X d d' u : d'.(sessionTokens) = but_of s_uid u d.(sessionTokens) -> raises X d d'.
Proof. intros He. apply raises_sub. intros id r Hr _. rewrite He in Hr. by apply but_of_lookup in Hr as [? _]. Qed.

(** The steps of a handler, up to the writes that change sessions. *)
Ltac run_steps := route_steps; try (by apply raises_same).

(** A write that leaves the sessions alone. *)
Ltac same_sessions :=
  apply raises_same; repeat (case_match; simplify_eq/=); try done.

Section Handlers.
Context {M R : Type} `{Memcached M StoredObject} `{Redis R} `{Crypto} `{Otp}.
Context (env : Env) (MAX_AGE : Z) (scrypt : string -> list Z -> list Z) (sha256 : list Z -> list Z).
Context (hash_code : string -> string -> string) (life minTime : Z) (forced : option (string -> bool)).
Context (vIntervals cIntervals : jsobj Z) (rate : Q) (valid_email subscribed : string -> bool).
Implicit Types w : World M R.

Lemma createTotp_same X uid secret d d' : createTotpToken uid secret d = inl d' -> raises X d d'.
Proof. unfold createTotpToken. intros. same_sessions. Qed.

Lemma replaceCodes_same X uid codes salts d : raises X d (replaceRecoveryCodes scrypt uid codes salts d).1.
Proof. unfold replaceRecoveryCodes, updateRecoveryCodes. same_sessions. Qed.

Lemma updateCodes_same X uid codes salts d : raises X d (updateRecoveryCodes scrypt uid codes salts d).1.
Proof. unfold updateRecoveryCodes. same_sessions. Qed.

Lemma createKey_same X uid k data b t d d' : createRecoveryKey sha256 uid k data b t d = inl d' -> raises X d d'.
Proof. unfold createRecoveryKey. intros. same_sessions. Qed.

Lemma totp_create_keeps X id secret codes salts req w : keeps (raises X) (totp_create env MAX_AGE scrypt id secret codes salts req) w.
Proof.
  unfold totp_create. run_steps; try apply replaceCodes_same; by eapply createTotp_same.
Qed.

Lemma totp_destroy_keeps X id req w : keeps (raises X) (totp_destroy env MAX_AGE id req) w.
Proof. unfold totp_destroy. run_steps. eapply raises_verify; [done|]. by intros ?%email_no_factor. Qed.

Lemma verify_totp_keeps X id code req w :
  (forall c t, load_session MAX_AGE env.(Server.now) id w.(Routes.db) = inl c -> totpToken c.(c_uid) w.(Routes.db) = inl t ->
     totp_check t.(tt_secret) env.(Server.now) code = true -> X id) ->
  keeps (raises X) (verify_totp env MAX_AGE id code req) w.
Proof.
  intros HX. unfold verify_totp. apply keeps_bind; [apply _|run_steps|]. intros w1 c (-> & Hc & Hid)%auth_inv.
  apply keeps_bind; [apply _|run_steps|]. intros w2 [] [Hdb _]%check_db.
  apply keeps_bind; [apply _|run_steps|]. intros w3 t (-> & Ht)%fetch_inv. rewrite Hdb in Ht. cbv zeta.
  run_steps; [unfold updateTotpToken in *; same_sessions|].
  eapply raises_verify; [done|]. intros _. rewrite Hid. eapply HX; [done..|].
  by match goal with Hb : _ && (aal _ <=? 1) = true |- _ => apply andb_true_iff in Hb as [? _] end.
Qed.

Lemma verify_recovery_keeps X id code req w :
  (forall c, load_session MAX_AGE env.(Server.now) id w.(Routes.db) = inl c ->
     is_Some (find_code scrypt code (default [] (w.(Routes.db).(recoveryCodes) !! c.(c_uid)))) -> X id) ->
  keeps (raises X) (verify_recovery_code env MAX_AGE scrypt id code req) w.
Proof.
  intros HX. unfold verify_recovery_code. apply keeps_bind; [apply _|run_steps|]. intros w1 c (-> & Hc & Hid)%auth_inv.
  apply keeps_bind; [apply _|run_steps|]. intros w2 [] [Hdb _]%check_db. apply keeps_query_bind. rewrite Hdb.
  unfold consumeRecoveryCode. destruct (find_code _ _ _) as [h|] eqn:Hf; [|run_steps].
  unfold delete_code. cbv zeta iota. run_steps; [apply raises_same; cbn; by rewrite Hdb|].
  eapply raises_verify; [done|]. intros _. rewrite Hid. eapply HX; [done|]. by rewrite Hf.
Qed.

Lemma replace_codes_keeps X id codes salts w : keeps (raises X) (replace_codes env MAX_AGE scrypt id codes salts) w.
Proof. unfold replace_codes. run_steps. apply replaceCodes_same. Qed.

Lemma update_codes_keeps X id codes salts w : keeps (raises X) (update_codes env MAX_AGE scrypt id codes salts) w.
Proof. unfold update_codes. run_steps. apply updateCodes_same. Qed.

Lemma create_key_keeps X id k data b w : keeps (raises X) (create_recovery_key env MAX_AGE sha256 id k data b) w.
Proof.
  unfold create_recovery_key. run_steps; by eapply createKey_same.
Qed.

Lemma verify_key_keeps X id k req w : keeps (raises X) (verify_recovery_key env MAX_AGE sha256 id k req) w.
Proof. unfold verify_recovery_key. run_steps. unfold updateRecoveryKey in *. same_sessions. Qed.

Lemma delete_key_keeps X id w : keeps (raises X) (delete_recovery_key env MAX_AGE id) w.
Proof. unfold delete_recovery_key. run_steps. Qed.

Lemma session_destroy_keeps X id custom w : keeps (raises X) (session_destroy env MAX_AGE id custom) w.
Proof.
  unfold session_destroy. run_steps; apply raises_deleteSession. Qed.

Lemma login_keys_same X fr uid a p vid d d' key : login_keys env fr uid a p vid d = Some (d', key) -> raises X d d'.
Proof.
  unfold login_keys, give_keys. destruct (unwrap p _ None); [|done]. cbn. destruct (create_key_fetch_token _ _ _ _ _ _); [|done]. cbn.
  intros [= <- _]. apply raises_createKeyFetch.
Qed.

Lemma consume_sessions uid code d d' r : consumeUnblockCode hash_code uid code d = (d', r) -> d'.(sessionTokens) = d.(sessionTokens).
Proof. unfold consumeUnblockCode. intros. by repeat (case_match; simplify_eq/=). Qed.

(** Signing in uses up unblock codes, nothing else. *)
Lemma after_customs_sessions email e req d d' req' r :
  after_customs (H0 := account_db hash_code) env life email e req d = (d', req', r) -> d'.(sessionTokens) = d.(sessionTokens).
Proof.
  unfold after_customs, use_unblock_code. cbn [SignIn.consumeUnblockCode account_db]. intros.
  repeat (case_match; simplify_eq/=); try done; by eapply consume_sessions.
Qed.

Lemma gate_sessions email original req (s s' : State (M := M)) d d' req' r :
  checkCustomsAndLoadAccount (H0 := account_db hash_code) env life forced email original req s d = (s', d', req', r) ->
  d'.(sessionTokens) = d.(sessionTokens).
Proof.
  unfold checkCustomsAndLoadAccount. destruct (customs_check _ _ _ _ _) as [s0 [req0 e0]].
  destruct (after_customs _ _ _ _ _ _) as [[d0 req1] r0] eqn:Ha. apply after_customs_sessions in Ha. rewrite <- Ha.
  destruct (match r0 with inl acc => _ | inr e => _ end); by intros [= _ <- _ _].
Qed.

Lemma gate_keeps X email original req w : keeps (raises X) (gate env hash_code life forced email original req) w.
Proof.
  intros w' r. unfold gate. destruct (checkCustomsAndLoadAccount _ _ _ _ _ _ _ _) as [[[s d] req'] r'] eqn:Hg.
  apply gate_sessions in Hg. intros [= <- _]. by apply raises_same.
Qed.

Lemma check_password_keeps X acc hash ip w : keeps (raises X) (check_password env hash_code acc hash ip) w.
Proof. intros w' r. unfold check_password. destruct (SignIn.checkPassword _ _ _ _ _ _ _). by intros [= <- _]. Qed.

Lemma session_keys_keeps X fr uid a p vid w : keeps (raises X) (session_keys env fr uid a p vid) w.
Proof.
  intros w' r. unfold session_keys. destruct (login_keys _ _ _ _ _ _ _) as [[d key]|] eqn:Hk; intros [= <- _]; [|done].
  by eapply login_keys_same.
Qed.

Lemma reauth_keeps X clients id f fr req w : keeps (raises X) (session_reauth env MAX_AGE hash_code life forced clients id f fr req) w.
Proof.
  unfold session_reauth. run_steps;
    [apply gate_keeps|apply check_password_keeps|apply raises_updateSession|apply session_keys_keeps].
Qed.

Lemma duplicate_keeps X id fr w : keeps (raises X) (session_duplicate env MAX_AGE id fr) w.
Proof. unfold session_duplicate, create_session. run_steps. simplify_eq. apply raises_createSession. Qed.

Lemma verify_code_keeps X id code req w : keeps (raises X) (session_verify_code env MAX_AGE vIntervals cIntervals id code req) w.
Proof.
  unfold session_verify_code. run_steps. eapply raises_verify; [done|]. by intros ?%email_no_factor.
Qed.

Lemma status_keeps X id w : keeps (raises X) (email_status env MAX_AGE valid_email subscribed id) w.
Proof. unfold email_status. run_steps. by eapply raises_but_of. Qed.

Lemma link_keeps X uid code req w : keeps (raises X) (verify_link env vIntervals uid code req) w.
Proof.
  unfold verify_link. run_steps; unfold verifyTokens in *; same_sessions.
Qed.

Lemma deleteEmail_same X uid n t d d' : deleteEmail uid n t d = inl d' -> raises X d d'.
Proof. unfold deleteEmail. intros. same_sessions. Qed.

Lemma create_email_keeps X id addr hex sent req w : keeps (raises X) (create_email env MAX_AGE minTime subscribed id addr hex sent req) w.
Proof.
  unfold create_email, deleteAccountIfUnverified.
  run_steps; try (by eapply deleteEmail_same); [by eapply raises_but_of|unfold createEmail in *; same_sessions..].
Qed.

Lemma destroy_email_keeps X id addr req w : keeps (raises X) (destroy_email env MAX_AGE id addr req) w.
Proof. unfold destroy_email. run_steps. by eapply deleteEmail_same. Qed.

Lemma secondary_verify_keeps X id addr code req w : keeps (raises X) (secondary_verify_code env MAX_AGE id addr code req) w.
Proof. unfold secondary_verify_code. run_steps. Qed.

Lemma new_unblock_same X uid codes d d' code : new_unblock_code env hash_code uid codes d = Some (d', code) -> raises X d d'.
Proof.
  induction codes as [|c codes IH]; cbn; [done|]. destruct (_ ≫= _); [done|]. intros [= <- _]. by apply raises_same.
Qed.

Lemma send_unblock_keeps X addr codes req w : keeps (raises X) (send_unblock_code env hash_code addr codes req) w.
Proof. unfold send_unblock_code. run_steps. by eapply new_unblock_same. Qed.

Lemma reject_unblock_keeps X uid code w : keeps (raises X) (reject_unblock_code hash_code uid code) w.
Proof.
  unfold reject_unblock_code. run_steps. destruct (consumeUnblockCode _ _ _ _) as [d r] eqn:Hc.
  apply raises_same. by eapply consume_sessions.
Qed.
End Handlers.

(** ** The routes that log in and change passwords *)

Section Flows.
Context {M R : Type} `{Memcached M StoredObject} `{Redis R} `{Crypto}.
Context (env : Env) (MAX_AGE : Z) (sha256 : list Z -> list Z) (hash_code : string -> string -> string).
Context (life changeLife forgotLife resetLife : Z) (forced : option (string -> bool)) (version : option Z).
Context (cfg : LoginConfig) (cIntervals : jsobj Z) (events : string -> string -> option (list SecurityEvent)).
Abbreviation state := (State (M := M)).

Lemma give_keys_raises X seed uid a wKb v vid d d' key : give_keys env seed uid a wKb v vid d = Some (d', key) -> raises X d d'.
Proof.
  unfold give_keys. destruct (create_key_fetch_token _ _ _ _ _ _); [|done]. cbn. intros [= <- _]. apply raises_createKeyFetch.
Qed.

Lemma open_session_raises X f fr susp unbl ip uid a p d d' r :
  open_session env cfg MAX_AGE events f fr susp unbl ip uid a p d = (d', r) -> raises X d d'.
Proof.
  unfold open_session. destruct (checkTotpToken _ _ _); [|by intros [= <- _]]. cbv zeta.
  destruct (l_wantsKeys f); [|intros [= <- _]; apply raises_createSession].
  destruct (login_keys _ _ _ _ _ _ _) as [[d2 key]|] eqn:Hk; intros [= <- _]; [|apply raises_createSession].
  etransitivity; [apply raises_createSession|by eapply login_keys_same].
Qed.

Lemma login_raises X f fr req (s s' : state) (r r' : R) d d' res :
  login env hash_code life forced cfg MAX_AGE cIntervals events f fr req s r d = (s', r', d', res) -> raises X d d'.
Proof.
  unfold login. destruct (client_disabled _ _); [by intros [= _ _ <- _]|]. destruct (checkCustomsAndLoadAccount _ _ _ _ _ _ _ _) as [[[s1 d1] req1] [[acc unb]|e]] eqn:Hg; apply gate_sessions in Hg;
    [|intros [= _ _ <- _]; by apply raises_same].
  intros Hl. transitivity d1; [by apply raises_same|]. revert Hl. repeat (case_match; simplify_eq/=; try (by intros [= _ _ <- _])).
  all: intros [= _ _ <- _]; by eapply open_session_raises.
Qed.

Lemma changeStart_raises X addr pw fr req (s s' : state) d d' r :
  changeStart env hash_code addr pw fr req s d = (s', d', r) -> raises X d d'.
Proof.
  unfold changeStart, change_tokens. intros Hc. repeat (case_match; simplify_eq/=; try done).
  transitivity d0; [by eapply give_keys_raises|by apply raises_same].
Qed.

Lemma forgotSend_raises X addr fr code req (s s' : state) d d' r : forgotSendCode env addr fr code req s d = (s', d', r) -> raises X d d'.
Proof. unfold forgotSendCode. intros. same_sessions. Qed.

Lemma forgotVerify_raises X id code fr req (s s' : state) d d' r :
  forgotVerifyCode env forgotLife id code fr req s d = (s', d', r) -> raises X d d'.
Proof. unfold forgotVerifyCode, failVerifyAttempt. intros. same_sessions. Qed.

Lemma passwordCreate_raises X pw t fr d d' r : passwordCreate env version pw t fr d = (d', r) -> raises X d d'.
Proof. unfold passwordCreate. intros. same_sessions. Qed.

Lemma keys_raises X id d d' r : keys id d = (d', r) -> raises X d d'.
Proof. unfold keys. intros. same_sessions. Qed.

Lemma resetAccountData_raises X fr uid y d d' k : resetAccountData env version fr uid y d = Some (d', k) -> raises X d d'.
Proof.
  unfold resetAccountData. destruct (new_Password _ _ _); [|done]. cbn [mbind option_bind].
  destruct (ostr_truthy _); [destruct (wrap _ _ _)|destruct (unwrap _ _ _)]; try done; cbn [mbind option_bind];
    intros [= <- _]; by eapply raises_but_of.
Qed.

Lemma reset_raises X fr id y wantsKeys (s s' : state) w w' r :
  reset env sha256 resetLife version fr id y wantsKeys s w = (s', w', r) -> raises X w.(PasswordFlows.db) w'.(PasswordFlows.db).
Proof.
  unfold reset. destruct (auth_reset _ _ _ _) as [t|]; [|by intros [= _ <- _]]. cbv zeta.
  destruct (if ostr_truthy _ then _ else _); [|by intros [= _ <- _]].
  destruct (resetAccountData _ _ _ _ _ _) as [[d1 k]|] eqn:Hd; [|by intros [= _ <- _]]. apply (resetAccountData_raises X) in Hd.
  destruct (account _ _) as [a|]; [|by intros [= _ <- _]]. destruct (client_reset _ _ _) as [s1 []]; [|by intros [= _ <- _]]. cbn [negb].
  set (d2 := if ostr_truthy _ then _ else _). assert (raises X d1 d2) as H2 by (unfold d2; destruct (ostr_truthy _); by apply raises_same).
  destruct (if q_sessionToken y then _ else _) as [d3 vid] eqn:H3.
  assert (raises X (PasswordFlows.db w) d3) as Hall.
  { transitivity d1; [done|]. transitivity d2; [done|]. destruct (q_sessionToken y); [|by injection H3 as <- _].
    unfold reset_session in H3. injection H3 as <- _. apply raises_createSession. }
  destruct wantsKeys; [|by intros [= _ <- _]]. destruct (q_sessionToken y); cbn [negb]; [|by intros [= _ <- _]].
  destruct (give_keys _ _ _ _ _ _ _ _) as [[d4 key]|] eqn:Hk; intros [= _ <- _]; [|done].
  transitivity d3; [done|]. by eapply give_keys_raises.
Qed.

Lemma method_roundtrip k n : Tokens.VERIFICATION_METHODS k ≫= VERIFICATION_METHOD = Some n -> k = n.
Proof. unfold Tokens.VERIFICATION_METHODS. repeat case_match; simplify_eq; cbn; by intros [= <-]. Qed.

(** The session that a password change opens is elevated only if the session
    it was done with is. *)
Lemma changeFinish_raises fr pcId y wantsKeys w w' r :
  changeFinish env MAX_AGE changeLife version fr pcId y wantsKeys w = (w', r) ->
  raises (fun id => id = session_id fr /\ exists prev, y.(p_sessionToken) = Some prev /\ elevated_in w.(PasswordFlows.db) prev)
    w.(PasswordFlows.db) w'.(PasswordFlows.db).
Proof.
  unfold changeFinish. set (X := fun id => _). destruct (auth_change _ _ _ _) as [t|]; [|by intros [= <- _]]. cbv zeta.
  destruct (previous_session _ _ _ _ _) as [[v m]|] eqn:Hp; [|by intros [= <- _]].
  assert (forall n, m ≫= VERIFICATION_METHOD = Some n -> Some n ∈ [Some 2; Some 3] -> X (session_id fr)) as HX.
  { intros n Hn Hin. split; [done|]. unfold previous_session in Hp. destruct (p_sessionToken y) as [prev|]; [|by case_match; simplify_eq].
    exists prev. split; [done|]. unfold sessionToken in Hp. destruct (sessionTokens _ !! prev) as [row|] eqn:Hrow; [|done].
    exists row. split; [done|]. destruct (_ || _); [|done]. destruct (_ && _); [done|]. injection Hp as _ <-.
    unfold Tokens.new_SessionToken in Hn. cbn in Hn. unfold elevated. unfold Tokens.truthy_z in Hn.
    case_bool_decide; [done|]. destruct (s_method row) as [k|]; [|done]. cbn in Hn. by apply method_roundtrip in Hn as ->. }
  destruct (changePassword _ _ _ _ _ _ _) as [d []] eqn:Hc.
  2: { unfold changePassword in Hc. intros [= <- _]. same_sessions. }
  assert (raises X (PasswordFlows.db w) d) as H0'.
  { unfold changePassword in Hc. repeat (case_match; simplify_eq/=; try done). by eapply raises_but_of. }
  destruct (account _ _) as [a|]; [|by intros [= <- _]].
  destruct (change_session _ _ _ _ _ _ _) as [d2|] eqn:Hs; [|by intros [= <- _]].
  assert (raises X (PasswordFlows.db w) d2) as Hall.
  { transitivity d; [done|]. unfold change_session in Hs. destruct (m ≫= VERIFICATION_METHOD) as [n|] eqn:Hm.
    - destruct (verifyTokensWithMethod _ _ _) as [d3|] eqn:Hv; [|done]. injection Hs as <-.
      etransitivity; [apply raises_createSession|]. eapply raises_verify; [exact Hv|]. by apply HX.
    - injection Hs as <-. apply raises_createSession. }
  destruct wantsKeys; [|by intros [= <- _]].
  destruct (give_keys _ _ _ _ _ _ _ _) as [[d4 key]|] eqn:Hk; intros [= <- _]; [|done].
  transitivity d2; [done|]. by eapply give_keys_raises.
Qed.
End Flows.

(** ** Accounts *)

Section Accounts.
Context {M R : Type} `{Memcached M StoredObject} `{Redis R} `{Crypto} `{Otp} (env : Env) (k : SiteConfig).
Implicit Types w : World M R.

Lemma set_primary_keeps X id addr req w : keeps (raises X) (set_primary env k.(MAX_AGE) id addr req) w.
Proof. unfold set_primary. run_steps. unfold setPrimaryEmail in *. same_sessions. Qed.

Lemma createAccount_same X uid addr code v ka wr salt hash ver at_ t d d' :
  createAccount uid addr code v ka wr salt hash ver at_ t d = inl d' -> raises X d d'.
Proof. unfold createAccount. intros. same_sessions. Qed.

Ltac account_writes :=
  first [by eapply raises_but_of|by eapply deleteEmail_same|by eapply createAccount_same|apply raises_createSession
        |apply session_keys_keeps|apply check_password_keeps].

Lemma account_create_keeps X f na fr sent random req w :
  keeps (raises X) (accountCreate env k.(verifier) k.(loginConfig).(disabledClients) k.(subscribed) k.(vIntervals) k.(rolloutRate)
                      random f na fr sent req) w.
Proof.
  unfold accountCreate, create_account, create_password, new_session, send_verify_code. run_steps; account_writes.
Qed.

Lemma stub_keeps X addr clientId na req w :
  keeps (raises X) (stub_account env k.(verifier) k.(loginConfig).(disabledClients) k.(subscribed) k.(rejected) k.(oauthClient) addr
                      clientId na req) w.
Proof. unfold stub_account. run_steps; account_writes. Qed.

Lemma finish_setup_keeps X token pw wantsKeys seed w :
  keeps (raises X) (finishSetup env k.(verifier) k.(vIntervals) k.(sIntervals) token pw wantsKeys seed) w.
Proof.
  unfold finishSetup. destruct token as [uid|]; [|run_steps]. intros w' r.
  assert (keeps (raises X) (finish_setup_body env (verifier k) (vIntervals k) (sIntervals k) uid pw wantsKeys seed) w) as Hb.
  { unfold finish_setup_body, new_session, verify_account_by_code, delete_reminders, setPasswordOnStubAccount, create_password.
    run_steps; account_writes. }
  destruct (finish_setup_body _ _ _ _ _ _ _ _ _) as [w1 [v|e]] eqn:Eb; apply Hb in Eb; [by intros [= <- _]|].
  destruct (str_truthy uid); [|by intros [= <- _]].
  assert (keeps (raises X) (finish_setup_failed (A := string * string * bool) (sIntervals k) uid e) w1) as Hf
    by (unfold finish_setup_failed, delete_reminders; run_steps).
  intros Hw. transitivity (Routes.db w1); [done|by eapply Hf].
Qed.

Lemma set_password_keeps X uid pw wantsKeys sendMail sent flow seed random req w :
  keeps (raises X) (setPassword env k.(verifier) k.(vIntervals) k.(sIntervals) k.(rolloutRate) random k.(product) uid pw wantsKeys
                      sendMail sent flow seed req) w.
Proof.
  unfold setPassword, new_session, send_verify_code, setPasswordOnStubAccount, create_password. run_steps; account_writes.
Qed.

Lemma destroy_account_keeps X session addr pw req w :
  keeps (raises X) (destroy_account env k.(MAX_AGE) k.(hash_code) session addr pw req) w.
Proof. unfold destroy_account. run_steps; account_writes. Qed.
End Accounts.

(** ** The system *)

Section System.
Context {M R : Type} `{Memcached M StoredObject} `{Redis R} `{Crypto} `{Otp}.
Context (k : SiteConfig).

(** The request gives the session [id] a right code of its account. *)
Inductive gives_factor (env : Env) (d : DB) : Call -> string -> Prop :=
  | by_totp id code req c t :
      load_session k.(MAX_AGE) env.(Server.now) id d = inl c -> totpToken c.(c_uid) d = inl t ->
      totp_check t.(tt_secret) env.(Server.now) code = true -> gives_factor env d (CVerifyTotp id code req) id
  | by_recovery_code id code req c :
      load_session k.(MAX_AGE) env.(Server.now) id d = inl c ->
      is_Some (find_code k.(scrypt) code (default [] (d.(recoveryCodes) !! c.(c_uid)))) ->
      gives_factor env d (CVerifyRecoveryCode id code req) id.

(** A session that passed a second factor: one that had at the start, one
    that was given a right code, or one that a password change opened for
    such a session. *)
Inductive lineage (x0 : Site (M := M) (R := R)) : list (Env * Call) -> string -> Prop :=
  | l_initial id : elevated_in (site_db x0) id -> lineage x0 [] id
  | l_stays q t id : lineage x0 t id -> lineage x0 (q :: t) id
  | l_factor env c t id : gives_factor env (site_db (run k t x0)) c id -> lineage x0 ((env, c) :: t) id
  | l_change env fr pcId y keys t prev :
      y.(p_sessionToken) = Some prev -> lineage x0 t prev ->
      lineage x0 ((env, CChangeFinish fr pcId y keys) :: t) (session_id fr).

(** What one request can elevate. *)
Definition may_raise (env : Env) (c : Call) (d : DB) (id : string) : Prop :=
  gives_factor env d c id \/
  exists fr pcId y keys prev, c = CChangeFinish fr pcId y keys /\ id = session_id fr /\ y.(p_sessionToken) = Some prev /\ elevated_in d prev.

Lemma by_act_raises {A} X (m : Act M R A) x : keeps (raises X) m x.(site) -> raises X (site_db x) (site_db (by_act m x)).
Proof. intros Hk. unfold by_act, site_db. destruct (m (site x)) as [w' r] eqn:E. by eapply Hk. Qed.

Lemma serve_raises env c (x : Site (M := M) (R := R)) : raises (may_raise env c (site_db x)) (site_db x) (site_db (serve k env c x)).
Proof.
  set (X := may_raise env c (site_db x)). destruct c; cbn [serve]; try (apply by_act_raises).
  - destruct (login _ _ _ _ _ _ _ _ _ _ _ _ _ _) as [[[s r] d] res] eqn:Hl. by eapply login_raises.
  - apply reauth_keeps.
  - apply duplicate_keeps.
  - apply session_destroy_keeps.
  - apply verify_code_keeps.
  - apply verify_totp_keeps. intros c t Hc Ht Ho. left. by eapply by_totp.
  - apply verify_recovery_keeps. intros c Hc Hf. left. by eapply by_recovery_code.
  - apply totp_create_keeps.
  - apply totp_destroy_keeps.
  - apply replace_codes_keeps.
  - apply update_codes_keeps.
  - apply create_key_keeps.
  - apply verify_key_keeps.
  - apply delete_key_keeps.
  - apply status_keeps.
  - apply link_keeps.
  - apply create_email_keeps.
  - apply destroy_email_keeps.
  - apply secondary_verify_keeps.
  - apply set_primary_keeps.
  - apply send_unblock_keeps.
  - apply reject_unblock_keeps.
  - unfold by_db. destruct (changeStart _ _ _ _ _ _ _ _) as [[s d] r] eqn:E. by eapply changeStart_raises.
  - destruct (changeFinish _ _ _ _ _ _ _ _ _) as [p r] eqn:E. apply changeFinish_raises in E. cbn in *.
    eapply raises_weaken; [|exact E]. intros id (-> & prev & Hp & He). right. eauto 10.
  - unfold by_db. destruct (forgotSendCode _ _ _ _ _ _ _) as [[s d] r] eqn:E. by eapply forgotSend_raises.
  - unfold by_db. destruct (forgotVerifyCode _ _ _ _ _ _ _ _) as [[s d] r] eqn:E. by eapply forgotVerify_raises.
  - destruct (load_session _ _ _ _) as [c|]; [|done]. unfold by_db.
    destruct (passwordCreate _ _ _ _ _ _) as [d r] eqn:E. by eapply passwordCreate_raises.
  - destruct (reset _ _ _ _ _ _ _ _ _ _) as [[s p] r] eqn:E. by eapply reset_raises in E.
  - unfold by_db. destruct (keys _ _) as [d r] eqn:E. by eapply keys_raises.
  - apply account_create_keeps.
  - unfold by_both, accountStub, site_db. pose proof (stub_keeps env k X addr clientId na req (site x)) as Hk.
    destruct (stub_account _ _ _ _ _ _ _ _ _ _ _) as [w' [client|e]] eqn:Es; apply Hk in Es; [|done].
    destruct (stub_scope _ _); [|done]. destruct (newToken _ _ _) as [o [t|]]; done.
  - apply finish_setup_keeps.
  - apply set_password_keeps.
  - unfold by_both, destroy, site_db. pose proof (destroy_account_keeps env k X session addr authPW req (site x)) as Hk.
    destruct (destroy_account _ _ _ _ _ _ _ _) as [w' [uid|e]] eqn:Es; by apply Hk in Es.
Qed.

(** [C3] The second factor cannot be forged: whatever requests are made, in any
    order and at any time, a session that counts as having passed a second
    factor was given a right TOTP or recovery code of its account, or was
    opened by a password change that named such a session. *)
Theorem second_factor_lineage (x0 : Site (M := M) (R := R)) t id :
  elevated_in (site_db (run k t x0)) id -> lineage x0 t id.
Proof.
  revert id. induction t as [|[env c] t IH]; intros id Hid; [by apply l_initial|]. cbn [run] in Hid.
  apply (serve_raises env c (run k t x0)) in Hid as [Hid|[Hg|(fr & pcId & y & ks & prev & -> & -> & Hp & He)]].
  - by apply l_stays, IH.
  - by apply l_factor.
  - eapply l_change; [done|by apply IH].
Qed.
End System.

(** ** A witness *)

#[local] Existing Instance toy_crypto.

Definition start_site : Site := mkSite (site_of (flow_db true)) (flow_world true).(oauth).

Definition given_totp : list (Env * Call) := [(flow_env, CVerifyTotp "s1" "secret" (request_with None))].

(** [alice] gives a TOTP code on her session. *)
Lemma second_factor_lineage_witness : lineage toy_config start_site given_totp "s1".
Proof.
  apply second_factor_lineage. eexists. split; [vm_compute; reflexivity|].
  apply (bool_decide_unpack _). vm_compute. exact I.
Defined.
