(* ===== verification/ForgotGuesses.v ===== *)
(** * Guessing the code of a forgotten password

    A password forgot token over any history of the account routes: no request
    but verifying a code with the token itself touches it, except to remove
    it, so the attempts of the token bound the codes that are compared. *)

From Stdlib Require Import QArith.
From S2P Require Import Prelude Window Store Text Records Server CustomsClient SignIn Redis Reminders.
From S2P Require Import Bytes KeyBundle AccountStore.
From S2P Require Import PasswordFlows Login Routes SecondFactor EmailRoutes AccountRoutes FactorLaws RouteLaws AccountSystem Lineage.
From S2P Require Tokens Scopes OAuthStore.

#[local] Open Scope string_scope.
#[local] Open Scope Z_scope.

(** ** A token that is left alone, or removed *)

Definition spends (i : string) (d d' : DB) : Prop :=
  d'.(passwordForgotTokens) !! i = d.(passwordForgotTokens) !! i \/ d'.(passwordForgotTokens) !! i = None.

#[export] Instance spends_pre i : PreOrder (spends i).
Proof.
  split; [by left|]. intros d1 d2 d3 [H1|H1] [H2|H2]; [left; congruence|by right|right; congruence|by right].
Qed.

Lemma spends_same i d d' : d'.(passwordForgotTokens) = d.(passwordForgotTokens) -> spends i d d'.
Proof. intros He. left. by rewrite He. Qed.

Lemma but_of_spends {A} (owner : A -> string) u (m : gmap string A) i :
  but_of owner u m !! i = m !! i \/ but_of owner u m !! i = None.
Proof.
  destruct (but_of owner u m !! i) as [v|] eqn:E; [|by right]. left. symmetry. by apply but_of_lookup in E as [? _].
Qed.

Lemma spends_but_of i u d d' : d'.(passwordForgotTokens) = but_of o_uid u d.(passwordForgotTokens) -> spends i d d'.
Proof. unfold spends. intros ->. apply but_of_spends. Qed.

Lemma spends_delete i j d d' : d'.(passwordForgotTokens) = delete j d.(passwordForgotTokens) -> spends i d d'.
Proof.
  unfold spends. intros ->. destruct (decide (j = i)) as [->|]; [right; apply lookup_delete_eq|left; by apply lookup_delete_ne].
Qed.

Lemma spends_alter i j f d d' : j <> i -> d'.(passwordForgotTokens) = alter f j d.(passwordForgotTokens) -> spends i d d'.
Proof. unfold spends. intros Hne ->. left. by apply lookup_alter_ne. Qed.

Lemma spends_replace i j r d d' : j <> i -> d'.(passwordForgotTokens) = replace o_uid j r d.(passwordForgotTokens) -> spends i d d'.
Proof. unfold spends, replace. intros Hne ->. rewrite lookup_insert_ne by done. apply but_of_spends. Qed.

(** A write of the database. *)
Ltac spends_write :=
  first [reflexivity|by apply spends_same|by eapply spends_but_of|by eapply spends_delete].

Ltac spends_unfold :=
  unfold createTotpToken, deleteTotpToken, updateTotpToken, replaceRecoveryCodes, updateRecoveryCodes, createRecoveryKey, updateRecoveryKey,
    deleteRecoveryKey, verifyTokens, verifyTokensWithMethod, deleteSessionToken, updateSessionToken, createSessionToken, createKeyFetchToken,
    add_unverified, createEmail, deleteEmail, setPrimaryEmail, createAccount, createPassword, consumeUnblockCode, consumeRecoveryCode,
    delete_code in *;
  cbv zeta in *; repeat (case_match; simplify_eq/=); spends_write.

Ltac spends_steps := route_steps; try spends_write.

Section Routes.
Context {M R : Type} `{Memcached M StoredObject} `{Redis R} `{Crypto} `{Otp} (env : Env) (k : SiteConfig) (i : string).
Implicit Types w : World M R.

Lemma spends_keys fr uid a p vid d d' key : login_keys env fr uid a p vid d = Some (d', key) -> spends i d d'.
Proof.
  unfold login_keys, give_keys. destruct (unwrap p _ None); [|done]. cbn. destruct (create_key_fetch_token _ _ _ _ _ _); [|done]. cbn.
  intros [= <- _]. spends_unfold.
Qed.

Lemma spends_gate email original req (s s' : State (M := M)) d d' req' r :
  checkCustomsAndLoadAccount (H0 := account_db k.(hash_code)) env k.(unblockLife) k.(unblockForced) email original req s d = (s', d', req', r) ->
  d'.(passwordForgotTokens) = d.(passwordForgotTokens).
Proof.
  unfold checkCustomsAndLoadAccount. destruct (customs_check _ _ _ _ _) as [s0 [req0 e0]].
  destruct (after_customs _ _ _ _ _ _) as [[d0 req1] r0] eqn:Ha.
  assert (d0.(passwordForgotTokens) = d.(passwordForgotTokens)) as <-.
  { unfold after_customs, use_unblock_code in Ha. cbn [SignIn.consumeUnblockCode account_db] in Ha. unfold consumeUnblockCode in Ha.
    repeat (case_match; simplify_eq/=); done. }
  destruct (match r0 with inl acc => _ | inr e => _ end); by intros [= _ <- _ _].
Qed.

Lemma gate_spends email original req w : keeps (spends i) (gate env k.(hash_code) k.(unblockLife) k.(unblockForced) email original req) w.
Proof.
  intros w' r. unfold gate. destruct (checkCustomsAndLoadAccount _ _ _ _ _ _ _ _) as [[[s d] req'] r'] eqn:Hg.
  apply spends_gate in Hg. intros [= <- _]. by apply spends_same.
Qed.

Lemma check_password_spends acc hash ip w : keeps (spends i) (check_password env k.(hash_code) acc hash ip) w.
Proof. intros w' r. unfold check_password. destruct (SignIn.checkPassword _ _ _ _ _ _ _). by intros [= <- _]. Qed.

Lemma session_keys_spends fr uid a p vid w : keeps (spends i) (session_keys env fr uid a p vid) w.
Proof.
  intros w' r. unfold session_keys. destruct (login_keys _ _ _ _ _ _ _) as [[d key]|] eqn:Hk; intros [= <- _]; [|done].
  by eapply spends_keys.
Qed.

Lemma new_unblock_spends uid codes d d' code : new_unblock_code env k.(hash_code) uid codes d = Some (d', code) -> spends i d d'.
Proof. induction codes as [|c codes IH]; cbn; [done|]. destruct (_ ≫= _); [done|]. intros [= <- _]. by apply spends_same. Qed.

Lemma by_act_spends {A} (m : Act M R A) x : keeps (spends i) m x.(site) -> spends i (site_db x) (site_db (by_act m x)).
Proof. intros Hk. unfold by_act, site_db. destruct (m (site x)) as [w' r] eqn:E. by eapply Hk. Qed.

(** The routes written as sequences of steps. *)
Definition is_act (c : Call) : bool :=
  match c with
  | CLogin _ _ _ | CChangeStart _ _ _ _ | CChangeFinish _ _ _ _ | CForgotSend _ _ _ _ | CForgotVerify _ _ _ _ | CPasswordCreate _ _ _
  | CReset _ _ _ _ | CKeys _ | CAccountStub _ _ _ _ | CAccountDestroy _ _ _ _ => false
  | _ => true
  end.

Lemma finish_setup_spends token pw wantsKeys seed w :
  keeps (spends i) (finishSetup env k.(verifier) k.(vIntervals) k.(sIntervals) token pw wantsKeys seed) w.
Proof.
  unfold finishSetup. destruct token as [uid|]; [|spends_steps]. intros w' r.
  assert (keeps (spends i) (finish_setup_body env (verifier k) (vIntervals k) (sIntervals k) uid pw wantsKeys seed) w) as Hb.
  { unfold finish_setup_body, new_session, verify_account_by_code, delete_reminders, setPasswordOnStubAccount, create_password.
    spends_steps; spends_unfold. }
  destruct (finish_setup_body _ _ _ _ _ _ _ _ _) as [w1 [v|e]] eqn:Eb; apply Hb in Eb; [by intros [= <- _]|].
  destruct (str_truthy uid); [|by intros [= <- _]].
  assert (keeps (spends i) (finish_setup_failed (A := string * string * bool) (sIntervals k) uid e) w1) as Hf
    by (unfold finish_setup_failed, delete_reminders; spends_steps).
  intros Hw. transitivity (Routes.db w1); [done|by eapply Hf].
Qed.

Lemma act_spends c (x : Site (M := M) (R := R)) : is_act c = true -> spends i (site_db x) (site_db (serve k env c x)).
Proof.
  intros Hc. destruct c; try done; cbn [serve]; apply by_act_spends; try apply finish_setup_spends;
    unfold session_reauth, session_duplicate, session_destroy, session_verify_code, verify_totp, verify_recovery_code, totp_create,
      totp_destroy, replace_codes, update_codes, create_recovery_key, verify_recovery_key, delete_recovery_key, email_status, verify_link,
      create_email, destroy_email, secondary_verify_code, set_primary, send_unblock_code, reject_unblock_code, accountCreate, setPassword,
      create_session, deleteAccountIfUnverified, create_account, setPasswordOnStubAccount, create_password, new_session, send_verify_code;
    spends_steps;
    try first [apply gate_spends|apply check_password_spends|apply session_keys_spends|by eapply new_unblock_spends|spends_unfold].
Qed.

(** The other routes. *)
Lemma open_session_spends cfg MAX_AGE events f fr susp unbl ip uid a p d d' r :
  open_session env cfg MAX_AGE events f fr susp unbl ip uid a p d = (d', r) -> spends i d d'.
Proof.
  unfold open_session. destruct (checkTotpToken _ _ _); [|by intros [= <- _]]. cbv zeta.
  set (d1 := createSessionToken _ _ _ _ _ _). assert (spends i d d1) as H1' by (unfold d1; spends_unfold).
  destruct (l_wantsKeys f); [|by intros [= <- _]].
  destruct (login_keys _ _ _ _ _ _ _) as [[d2 key]|] eqn:Hk; intros [= <- _]; [|done].
  etransitivity; [exact H1'|by eapply spends_keys].
Qed.

Lemma login_spends f fr req (s s' : State (M := M)) (r r' : R) d d' res :
  login env k.(hash_code) k.(unblockLife) k.(unblockForced) k.(loginConfig) k.(MAX_AGE) k.(cIntervals) k.(securityEvents) f fr req s r d =
    (s', r', d', res) -> spends i d d'.
Proof.
  unfold login. destruct (client_disabled _ _); [by intros [= _ _ <- _]|].
  destruct (checkCustomsAndLoadAccount _ _ _ _ _ _ _ _) as [[[s1 d1] req1] [[acc unb]|e]] eqn:Hg; apply spends_gate in Hg;
    [|intros [= _ _ <- _]; by apply spends_same].
  intros Hl. transitivity d1; [by apply spends_same|]. revert Hl. repeat (case_match; simplify_eq/=; try (by intros [= _ _ <- _])).
  all: intros [= _ _ <- _]; by eapply open_session_spends.
Qed.

Lemma give_keys_spends seed uid a wKb v vid d d' key : give_keys env seed uid a wKb v vid d = Some (d', key) -> spends i d d'.
Proof.
  unfold give_keys. destruct (create_key_fetch_token _ _ _ _ _ _); [|done]. cbn. intros [= <- _]. spends_unfold.
Qed.

Lemma changeStart_spends addr pw fr req (s s' : State (M := M)) d d' r :
  changeStart env k.(hash_code) addr pw fr req s d = (s', d', r) -> spends i d d'.
Proof.
  unfold changeStart, change_tokens. intros Hc. repeat (case_match; simplify_eq/=; try done).
  transitivity d0; [by eapply give_keys_spends|by apply spends_same].
Qed.

Lemma changeFinish_spends fr pcId y wantsKeys (w w' : PasswordFlows.World) r :
  changeFinish env k.(MAX_AGE) k.(changeLife) k.(verifier) fr pcId y wantsKeys w = (w', r) ->
  spends i w.(PasswordFlows.db) w'.(PasswordFlows.db).
Proof.
  unfold changeFinish. destruct (auth_change _ _ _ _) as [t|]; [|by intros [= <- _]]. cbv zeta.
  destruct (previous_session _ _ _ _ _) as [[v m]|]; [|by intros [= <- _]].
  destruct (changePassword _ _ _ _ _ _ _) as [d b] eqn:Hc.
  assert (spends i (PasswordFlows.db w) d) as H0'.
  { unfold changePassword in Hc. repeat (case_match; simplify_eq/=; try spends_write). }
  destruct b; [|by intros [= <- _]]. destruct (account _ _) as [a|]; [|by intros [= <- _]].
  destruct (change_session _ _ _ _ _ _ _) as [d2|] eqn:Hs; [|by intros [= <- _]].
  assert (spends i (PasswordFlows.db w) d2) as Hall.
  { transitivity d; [done|]. unfold change_session in Hs. spends_unfold. }
  destruct wantsKeys; [|by intros [= <- _]].
  destruct (give_keys _ _ _ _ _ _ _ _) as [[d4 key]|] eqn:Hk; intros [= <- _]; [|done].
  transitivity d2; [done|]. by eapply give_keys_spends.
Qed.

Lemma reset_spends fr id y wantsKeys (s s' : State (M := M)) (w w' : PasswordFlows.World) r :
  reset env k.(sha256) k.(resetLife) k.(verifier) fr id y wantsKeys s w = (s', w', r) ->
  spends i w.(PasswordFlows.db) w'.(PasswordFlows.db).
Proof.
  unfold reset. destruct (auth_reset _ _ _ _) as [t|]; [|by intros [= _ <- _]]. cbv zeta.
  destruct (if ostr_truthy _ then _ else _); [|by intros [= _ <- _]].
  destruct (resetAccountData _ _ _ _ _ _) as [[d1 key]|] eqn:Hd; [|by intros [= _ <- _]].
  assert (spends i (PasswordFlows.db w) d1) as Hd1.
  { unfold resetAccountData in Hd. destruct (new_Password _ _ _); [|done]. cbn [mbind option_bind] in Hd.
    destruct (ostr_truthy _); [destruct (wrap _ _ _)|destruct (unwrap _ _ _)]; try done; cbn [mbind option_bind] in Hd; injection Hd as <- _;
      (etransitivity; [|eapply spends_but_of; reflexivity]); spends_write. }
  destruct (account _ _) as [a|]; [|by intros [= _ <- _]]. destruct (client_reset _ _ _) as [s1 []]; [|by intros [= _ <- _]]. cbn [negb].
  set (d2 := if ostr_truthy _ then _ else _). assert (spends i d1 d2) as Hd2 by (unfold d2; destruct (ostr_truthy _); by apply spends_same).
  destruct (if q_sessionToken y then _ else _) as [d3 vid] eqn:H3.
  assert (spends i (PasswordFlows.db w) d3) as Hall.
  { transitivity d1; [done|]. transitivity d2; [done|]. destruct (q_sessionToken y); [|by injection H3 as <- _].
    unfold reset_session in H3. injection H3 as <- _. spends_unfold. }
  destruct wantsKeys; [|by intros [= _ <- _]]. destruct (q_sessionToken y); cbn [negb]; [|by intros [= _ <- _]].
  destruct (give_keys _ _ _ _ _ _ _ _) as [[d4 k4]|] eqn:Hk; intros [= _ <- _]; [|done].
  transitivity d3; [done|]. by eapply give_keys_spends.
Qed.

Lemma stub_spends addr clientId na req w :
  keeps (spends i) (stub_account env k.(verifier) k.(loginConfig).(disabledClients) k.(subscribed) k.(rejected) k.(oauthClient) addr
                      clientId na req) w.
Proof. unfold stub_account. spends_steps; spends_unfold. Qed.

Lemma destroy_account_spends session addr pw req w :
  keeps (spends i) (destroy_account env k.(MAX_AGE) k.(hash_code) session addr pw req) w.
Proof. unfold destroy_account. spends_steps; apply check_password_spends. Qed.

(** Sending another code makes another token; verifying with another token
    leaves this one alone. *)
Definition leaves (c : Call) : Prop :=
  match c with
  | CForgotSend _ fr _ _ => token_id "passwordForgotToken" fr.(seed_token) <> i
  | CForgotVerify id _ _ _ => id <> i
  | _ => True
  end.

Lemma serve_spends c (x : Site (M := M) (R := R)) : leaves c -> spends i (site_db x) (site_db (serve k env c x)).
Proof.
  intros Hc. destruct (is_act c) eqn:Ha; [by apply act_spends|]. destruct c; try done; cbn [serve leaves] in *.
  - destruct (login _ _ _ _ _ _ _ _ _ _ _ _ _ _) as [[[s r] d] res] eqn:Hl. by eapply login_spends.
  - unfold by_db. destruct (changeStart _ _ _ _ _ _ _ _) as [[s d] r] eqn:E. by eapply changeStart_spends.
  - destruct (changeFinish _ _ _ _ _ _ _ _ _) as [p r] eqn:E. by apply changeFinish_spends in E.
  - unfold by_db. destruct (forgotSendCode _ _ _ _ _ _ _) as [[s d] r] eqn:E. cbn. unfold forgotSendCode in E.
    repeat (case_match; simplify_eq/=; try reflexivity). by eapply spends_replace.
  - unfold by_db. destruct (forgotVerifyCode _ _ _ _ _ _ _ _) as [[s d] r] eqn:E. cbn. unfold forgotVerifyCode, failVerifyAttempt in E.
    repeat (case_match; simplify_eq/=; try reflexivity); first [by eapply spends_delete|by eapply spends_alter].
  - destruct (load_session _ _ _ _) as [c|]; [|done]. unfold by_db.
    destruct (passwordCreate _ _ _ _ _ _) as [d r] eqn:E. cbn. unfold passwordCreate in E. spends_unfold.
  - destruct (reset _ _ _ _ _ _ _ _ _ _) as [[s p] r] eqn:E. by apply reset_spends in E.
  - unfold by_db. destruct (keys _ _) as [d r] eqn:E. cbn. unfold keys in E. spends_unfold.
  - unfold by_both, accountStub, site_db. pose proof (stub_spends addr clientId na req (site x)) as Hk.
    destruct (stub_account _ _ _ _ _ _ _ _ _ _ _) as [w' [client|e]] eqn:Es; apply Hk in Es; [|done].
    destruct (stub_scope _ _); [|done]. destruct (newToken _ _ _) as [o [t|]]; done.
  - unfold by_both, destroy, site_db. pose proof (destroy_account_spends session addr authPW req (site x)) as Hk.
    destruct (destroy_account _ _ _ _ _ _ _ _) as [w' [uid|e]] eqn:Es; by apply Hk in Es.
Qed.
End Routes.

(** ** Histories *)

Section Guesses.
Context {M R : Type} `{Memcached M StoredObject} `{Redis R} `{Crypto} `{Otp} (k : SiteConfig) (id : string).
Implicit Types x : Site (M := M) (R := R).

(** How the request answers a code for the token, if it is such a request. *)
Definition code_answer (env : Env) (c : Call) x : option (string + PwErr) :=
  match c with
  | CForgotVerify id' code fr req =>
      if bool_decide (id' = id)
      then Some (forgotVerifyCode env k.(forgotLife) id code fr req x.(site).(customs) (site_db x)).2 else None
  | _ => None
  end.

(** How many answers of a history, the latest request first, are such. *)
Fixpoint answers (p : string + PwErr -> bool) (t : list (Env * Call)) x : Z :=
  match t with
  | [] => 0
  | (env, c) :: t => answers p t x + match code_answer env c (run k t x) with Some r => if p r then 1 else 0 | None => 0 end
  end.

(** The token was drawn once: no later request draws it again. *)
Definition drawn_once (t : list (Env * Call)) : Prop :=
  Forall (fun ec => match ec.2 with CForgotSend _ fr _ _ => token_id "passwordForgotToken" fr.(seed_token) <> id | _ => True end) t.

Lemma spends_tries d d' : spends id d d' -> tries_ok id d -> tries_ok id d' /\ tries_left id d' <= tries_left id d /\ there id d' <= there id d.
Proof.
  unfold tries_ok, tries_left, there. intros [Hs|Hs] Hok; rewrite Hs; [done|]. split; [done|].
  destruct (passwordForgotTokens d !! id) as [t|]; repeat case_bool_decide; try lia; by destruct (is_Some_None (A := ForgotRow)).
Qed.

Lemma answers_bound t x :
  drawn_once t -> tries_ok id (site_db x) ->
  tries_ok id (site_db (run k t x)) /\
  answers wrong t x + tries_left id (site_db (run k t x)) <= tries_left id (site_db x) /\
  answers right t x + there id (site_db (run k t x)) <= there id (site_db x).
Proof.
  intros Hd Hok. induction t as [|[env c] t IH]; cbn [answers run]; [split; [done|lia]|].
  apply Forall_cons in Hd as [Hc Hd]. destruct (IH Hd) as (Hok1 & Hw & Hr). set (y := run k t x) in *.
  destruct (code_answer env c y) as [r|] eqn:Ha.
  - unfold code_answer in Ha. destruct c; try done. case_bool_decide as He; [|done]. subst. injection Ha as <-. cbn [serve]. unfold by_db.
    destruct (forgotVerifyCode env (forgotLife k) id _ _ _ (customs (site y)) (site_db y)) as [[s d] r] eqn:E.
    destruct (guess_step _ _ _ _ _ _ _ _ _ _ _ E Hok1) as (Hok2 & Hw2 & Hr2). cbn [snd]. split; [exact Hok2|]. unfold site_db in *. cbn in *. lia.
  - assert (spends id (site_db y) (site_db (serve k env c y))) as Hs.
    { apply serve_spends. destruct c; try done. cbn in Ha. by case_bool_decide. }
    destruct (spends_tries _ _ Hs Hok1) as (? & ? & ?). split; [done|]. lia.
Qed.
End Guesses.

(** [C39] A forgotten password's code can be guessed three times.  Once
    /password/forgot/send_code has drawn a token, whatever requests to the
    account routes follow, one after the other and in any order (verifying
    codes with this or with other tokens, sending other codes, resets,
    logins, changes of passwords and addresses, deletions), at most three
    wrong codes are compared with the code of the token and at most one
    right one is accepted, as long as the same token is not drawn again. *)
Theorem forgot_code_guesses {M R} `{Memcached M StoredObject} `{Redis R} `{Crypto} `{Otp} (k : SiteConfig)
    env addr fr code req (x : Site (M := M) (R := R)) s1 d1 tok t :
  forgotSendCode env addr fr code req x.(site).(customs) (site_db x) = (s1, d1, inl tok) ->
  let id := token_id "passwordForgotToken" fr.(seed_token) in
  let x1 := serve k env (CForgotSend addr fr code req) x in
  drawn_once id t -> answers k id wrong t x1 <= 3 /\ answers k id right t x1 <= 1.
Proof.
  intros Hs id x1 Hd.
  assert (exists r, (site_db x1).(passwordForgotTokens) !! id = Some r /\ o_tries r = 3) as (r & Hr & H3).
  { unfold x1, site_db. cbn [serve]. unfold by_db. rewrite Hs. cbn. unfold forgotSendCode in Hs.
    destruct (client_check _ _ _ _ _) as [s0 [req0 v]]. destruct v; try done.
    destruct (accountRecord addr _) as [[uid a]|]; [|done]. destruct (emailsMatch _ _); [|done].
    injection Hs as <- <- _. cbn. unfold replace. rewrite lookup_insert_eq. by eexists. }
  assert (tries_ok id (site_db x1)) as Hok by (intros r' Hr'; assert (r' = r) as -> by congruence; lia).
  destruct (answers_bound k id t x1 Hd Hok) as (Hok' & Hw & Hr'). unfold tries_left, there in *. rewrite Hr in Hw, Hr'.
  rewrite (bool_decide_eq_true_2 (is_Some (Some r))) in Hr' by eauto.
  destruct (passwordForgotTokens (site_db (run k t x1)) !! id); repeat case_bool_decide; lia.
Qed.

(** ** A witness *)

#[local] Existing Instance toy_crypto.

Definition forgot_req : Call := CForgotSend alice_addr (draw 30) "c0de" (request_with None).
Definition forgot_id : string := token_id "passwordForgotToken" (seed_token (draw 30)).

(** Four wrong codes and the right one, with a deletion of a session between. *)
Definition code_guesses : list (Env * Call) :=
  (fun c => (flow_env, c)) <$>
    [CForgotVerify forgot_id "c0de" (draw 40) (request_with None); CForgotVerify forgot_id "0004" (draw 40) (request_with None);
     CForgotVerify forgot_id "0003" (draw 40) (request_with None); CSessionDestroy "s1" None;
     CForgotVerify forgot_id "0002" (draw 40) (request_with None); CForgotVerify forgot_id "0001" (draw 40) (request_with None)].

Lemma forgot_code_guesses_witness :
  answers toy_config forgot_id wrong code_guesses (serve toy_config flow_env forgot_req start_site) = 3 /\
  answers toy_config forgot_id wrong code_guesses (serve toy_config flow_env forgot_req start_site) <= 3 /\
  answers toy_config forgot_id right code_guesses (serve toy_config flow_env forgot_req start_site) <= 1.
Proof.
  split; [vm_compute; reflexivity|].
  eapply (forgot_code_guesses toy_config flow_env alice_addr (draw 30) "c0de" (request_with None) start_site);
    [vm_compute; reflexivity|]. repeat constructor.
Defined.
