(* ===== verification/ConnectedServices.v ===== *)
(** * Connected services
      (packages/fxa-shared/connected-services: factories.ts, util.ts and formatters.ts;
       packages/fxa-auth-server/lib/oauth/authorized_clients.js)

    The list of everything that is connected to an account: devices, OAuth
    clients and sessions, merged where they belong together.  A client object
    is shared between the list and the two maps; a reference is its position
    in the list, from which nothing is removed.  The lists of devices, tokens
    and sessions come from the databases. *)

From Stdlib Require Import Ascii.
From S2P Require Import Prelude Text Records.
From S2P Require Scopes.

#[local] Open Scope string_scope.
#[local] Open Scope Z_scope.

(** ** Data *)

(** What the user agent said. *)
Record UA := mkUA {
  uaBrowser : option string; uaBrowserVersion : option string; uaOS : option string; uaOSVersion : option string;
  uaDeviceType : option string; uaFormFactor : option string }.

Record Location := mkLocation {
  city : option string; country : option string; state : option string; stateCode : option string; countryCode : option string }.

Definition no_location : Location := mkLocation None None None None None.

(** A row of the devices of an account, with its session. *)
Record Device := mkDeviceRow {
  v_id : string; v_sessionTokenId : option string; v_refreshTokenId : option string; v_name : option string; v_type : option string;
  v_createdAt : option Z; v_callbackURL : option string; v_callbackPublicKey : option string; v_callbackAuthKey : option string;
  v_callbackIsExpired : bool; v_lastAccessTime : option Z; v_ua : UA; v_availableCommands : gmap string string }.

Record AttachedDevice := mkDevice {
  d_id : string; d_sessionTokenId : option string; d_refreshTokenId : option string; d_name : option string; d_type : option string;
  d_createdAt : option Z; d_lastAccessTime : option Z; d_location : option Location; d_ua : UA;
  d_pushCallback : option string; d_pushPublicKey : option string; d_pushAuthKey : option string; d_pushEndpointExpired : bool;
  d_availableCommands : gmap string string }.

Record AttachedOAuthClient := mkOAuthClient {
  o_client_id : string; o_refresh_token_id : option string; o_client_name : string; o_created_time : Z; o_last_access_time : Z;
  o_scope : list string }.

(** [lastAccessTime] is null when access times are not kept. *)
Record AttachedSession := mkAttachedSession {
  s_id : string; s_createdAt : Z; s_lastAccessTime : option Z; s_location : option Location; s_ua : UA }.

Record AttachedClient := mkClient {
  clientId : option string; deviceId : option string; sessionTokenId : option string; refreshTokenId : option string;
  isCurrentSession : bool; deviceType : option string; name : option string; scope : option (list string);
  location : option Location; userAgent : string; os : option string;
  createdTime : option Z; createdTimeFormatted : string; lastAccessTime : option Z; lastAccessTimeFormatted : string;
  approximateLastAccessTime : option (Z * string) }.

(** [attachedClientsDefaults]: a creation time of infinity is falsy wherever
    it is used. *)
Definition attachedClientsDefaults : AttachedClient :=
  mkClient None None None None false None None None None "" None None "" (Some 0) "" None.

(** ** util.ts *)

(** [version.substr(0, version.indexOf('.'))], or all of it. *)
Definition major (version : string) : string := default "" (head (split_on "."%char version)).

Definition synthesizeClientName (ua : UA) : string :=
  let browser :=
    match when_truthy ua.(uaBrowser) id with
    | Some b =>
        (match when_truthy ua.(uaBrowserVersion) id with Some v => b ++ " " ++ major v | None => b end) ++
        (if ostr_truthy ua.(uaOS) || ostr_truthy ua.(uaFormFactor) then ", " else "")
    | None => ""
    end in
  match when_truthy ua.(uaFormFactor) id with
  | Some f => browser ++ f
  | None =>
      match when_truthy ua.(uaOS) id with
      | Some o => browser ++ o ++ match when_truthy ua.(uaOSVersion) id with Some v => " " ++ v | None => "" end
      | None => browser
      end
  end.

(** The user agent of a session as it is shown. *)
Definition user_agent (ua : UA) : string :=
  match when_truthy ua.(uaBrowser) id with
  | None => ""
  | Some b => match when_truthy ua.(uaBrowserVersion) id with None => b | Some v => b ++ " " ++ major v end
  end.

(** A row of MySQL that knows its device. *)
Record SessionRecord := mkSessionRecord {
  r_tokenId : string; r_createdAt : Z; r_deviceId : option string; r_lastAccessTime : Z; r_ua : UA }.

(** What redis keeps of a session. *)
Record CachedSession := mkCached { c_lastAccessTime : option Z; c_location : option Location; c_ua : option UA }.

(** [filterExpiredTokens]: the sessions that are kept, and those to be pruned. *)
Definition filterExpiredTokens (MAX_AGE now : Z) (l : list SessionRecord) : list SessionRecord * list SessionRecord :=
  if MAX_AGE =? 0 then (l, [])
  else let keep r := ostr_truthy r.(r_deviceId) || (r.(r_createdAt) >? now - MAX_AGE) in
       (filterb keep l, filterb (fun r => negb (keep r)) l).

Definition mergeCachedSessionTokens (rows : list SessionRecord) (cached : gmap string CachedSession) (enabled : bool)
    : list AttachedSession :=
  (fun r =>
     let c := cached !! r.(r_tokenId) in
     mkAttachedSession r.(r_tokenId) r.(r_createdAt)
       (if enabled then Some (default r.(r_lastAccessTime) (c ≫= c_lastAccessTime)) else None)
       (c ≫= c_location) (default r.(r_ua) (c ≫= c_ua))) <$> rows.

(** [mergeDeviceAndSessionToken]: what redis has is more recent. *)
Definition mergeDeviceAndSessionToken (v : Device) (token : option CachedSession) (enabled : bool) : AttachedDevice :=
  mkDevice v.(v_id) v.(v_sessionTokenId) v.(v_refreshTokenId) v.(v_name) v.(v_type) v.(v_createdAt)
    (if enabled then match token ≫= c_lastAccessTime with Some t => Some t | None => v.(v_lastAccessTime) end else None)
    (token ≫= c_location) (default v.(v_ua) (token ≫= c_ua))
    v.(v_callbackURL) v.(v_callbackPublicKey) v.(v_callbackAuthKey) v.(v_callbackIsExpired) v.(v_availableCommands).

Definition mergeDevicesAndSessionTokens (vs : list Device) (cached : gmap string CachedSession) (enabled : bool)
    : list AttachedDevice :=
  (fun v => mergeDeviceAndSessionToken v (v.(v_sessionTokenId) ≫= fun s => cached !! s) enabled) <$> vs.

(** ** factories.ts: ConnectedServicesFactory *)

(** [Math.min(old || Infinity, t)] and [Math.max(old || 0, t)] *)
Definition min_time (old : option Z) (t : Z) : Z := match old with Some o => if o =? 0 then t else Z.min o t | None => t end.
Definition max_time (old : option Z) (t : Z) : Z := Z.max (or0 old) t.

Definition client_of_device (d : AttachedDevice) : AttachedClient :=
  mkClient None (Some d.(d_id)) (when_truthy d.(d_sessionTokenId) id) None false d.(d_type) d.(d_name) None None "" None
    d.(d_createdAt) "" d.(d_lastAccessTime) "" None.

Definition set_oauth (o : AttachedOAuthClient) (c : AttachedClient) : AttachedClient :=
  mkClient (Some o.(o_client_id)) c.(deviceId) c.(sessionTokenId) o.(o_refresh_token_id) c.(isCurrentSession)
    (if ostr_truthy c.(deviceId) && negb (ostr_truthy c.(deviceType)) then Some "mobile" else c.(deviceType))
    (if ostr_truthy c.(name) then c.(name) else Some o.(o_client_name)) (Some o.(o_scope)) c.(location) c.(userAgent) c.(os)
    (Some (min_time c.(createdTime) o.(o_created_time))) c.(createdTimeFormatted)
    (Some (max_time c.(lastAccessTime) o.(o_last_access_time))) c.(lastAccessTimeFormatted) c.(approximateLastAccessTime).

(** A client object of its own. *)
Definition client_of_oauth (o : AttachedOAuthClient) : AttachedClient :=
  let d := attachedClientsDefaults in
  let c := set_oauth o (mkClient d.(clientId) d.(deviceId) d.(sessionTokenId) (when_truthy o.(o_refresh_token_id) id)
    d.(isCurrentSession) d.(deviceType) d.(name) d.(scope) d.(location) d.(userAgent) d.(os) (Some o.(o_created_time))
    d.(createdTimeFormatted) (Some o.(o_last_access_time)) d.(lastAccessTimeFormatted) None) in
  mkClient c.(clientId) c.(deviceId) c.(sessionTokenId) (when_truthy o.(o_refresh_token_id) id) c.(isCurrentSession) c.(deviceType)
    c.(name) c.(scope) c.(location) c.(userAgent) c.(os) c.(createdTime) c.(createdTimeFormatted) c.(lastAccessTime)
    c.(lastAccessTimeFormatted) c.(approximateLastAccessTime).

Definition set_session (current : string) (s : AttachedSession) (c : AttachedClient) : AttachedClient :=
  mkClient c.(clientId) c.(deviceId) c.(sessionTokenId) c.(refreshTokenId)
    (bool_decide (c.(sessionTokenId) = Some current)) c.(deviceType)
    (if ostr_truthy c.(name) then c.(name) else Some (synthesizeClientName s.(s_ua))) None s.(s_location) (user_agent s.(s_ua))
    (when_truthy s.(s_ua).(uaOS) id) (Some (min_time c.(createdTime) s.(s_createdAt))) c.(createdTimeFormatted)
    (Some (max_time c.(lastAccessTime) (or0 s.(s_lastAccessTime)))) c.(lastAccessTimeFormatted) c.(approximateLastAccessTime).

Definition client_of_session (current : string) (s : AttachedSession) : AttachedClient :=
  let d := attachedClientsDefaults in
  set_session current s (mkClient d.(clientId) d.(deviceId) (Some s.(s_id)) d.(refreshTokenId) d.(isCurrentSession) d.(deviceType)
    d.(name) d.(scope) d.(location) d.(userAgent) d.(os) (Some s.(s_createdAt)) d.(createdTimeFormatted) d.(lastAccessTime)
    d.(lastAccessTimeFormatted) None).

(** The fields of the factory. *)
Record Factory := mkFactory {
  clientsBySessionTokenId : gmap string nat; clientsByRefreshTokenId : gmap string nat; attachedClients : list AttachedClient }.

Definition init : Factory := mkFactory ∅ ∅ [].

Definition set_ref (key : option string) (i : nat) (m : gmap string nat) : gmap string nat :=
  match when_truthy key id with Some k => <[k := i]> m | None => m end.

Definition mergeDevice (f : Factory) (d : AttachedDevice) : Factory :=
  let i := length f.(attachedClients) in
  mkFactory (set_ref d.(d_sessionTokenId) i f.(clientsBySessionTokenId)) (set_ref d.(d_refreshTokenId) i f.(clientsByRefreshTokenId))
    (f.(attachedClients) ++ [client_of_device d])%list.

Definition mergeDevices (ds : list AttachedDevice) (f : Factory) : Factory := fold_left mergeDevice ds f.

(** The client of a map, updated in place, or a new one at the end. *)
Definition place {X} (found : option nat) (set : X -> AttachedClient -> AttachedClient) (new : X -> AttachedClient) (x : X)
    (l : list AttachedClient) : list AttachedClient :=
  match found with Some i => alter (set x) i l | None => (l ++ [new x])%list end.

Definition mergeOauthClient (f : Factory) (o : AttachedOAuthClient) : Factory :=
  mkFactory f.(clientsBySessionTokenId) f.(clientsByRefreshTokenId)
    (place (o.(o_refresh_token_id) ≫= fun r => f.(clientsByRefreshTokenId) !! r) set_oauth client_of_oauth o f.(attachedClients)).

Definition mergeOauthClients (os : list AttachedOAuthClient) (f : Factory) : Factory := fold_left mergeOauthClient os f.

Definition mergeSession (current : string) (f : Factory) (s : AttachedSession) : Factory :=
  mkFactory f.(clientsBySessionTokenId) f.(clientsByRefreshTokenId)
    (place (f.(clientsBySessionTokenId) !! s.(s_id)) (set_session current) (client_of_session current) s f.(attachedClients)).

Definition mergeSessions (current : string) (ss : list AttachedSession) (f : Factory) : Factory := fold_left (mergeSession current) ss f.

(** ** formatters.ts *)

Section Formatters.
(** [localizeTimestamp.format], [determineLocale] for the languages that the
    request accepts ([None]: it throws), and the names of territories in a
    language ([None]: there is no such file or language in it). *)
Context (format : Z -> string) (earliestSaneAccessTime : Z).
Context (language : option string) (territories : string -> option (string -> option string)).

Definition formatTimestamps (c : AttachedClient) : AttachedClient :=
  let created := match c.(createdTime) with Some t => if t =? 0 then c.(createdTimeFormatted) else format t | None => c.(createdTimeFormatted) end in
  match c.(lastAccessTime) with
  | Some t =>
      if t =? 0 then
        mkClient c.(clientId) c.(deviceId) c.(sessionTokenId) c.(refreshTokenId) c.(isCurrentSession) c.(deviceType) c.(name) c.(scope)
          c.(location) c.(userAgent) c.(os) c.(createdTime) created c.(lastAccessTime) c.(lastAccessTimeFormatted) c.(approximateLastAccessTime)
      else
        mkClient c.(clientId) c.(deviceId) c.(sessionTokenId) c.(refreshTokenId) c.(isCurrentSession) c.(deviceType) c.(name) c.(scope)
          c.(location) c.(userAgent) c.(os) c.(createdTime) created c.(lastAccessTime) (format t)
          (if t <? earliestSaneAccessTime then Some (earliestSaneAccessTime, format earliestSaneAccessTime) else c.(approximateLastAccessTime))
  | None =>
      mkClient c.(clientId) c.(deviceId) c.(sessionTokenId) c.(refreshTokenId) c.(isCurrentSession) c.(deviceType) c.(name) c.(scope)
        c.(location) c.(userAgent) c.(os) c.(createdTime) created c.(lastAccessTime) c.(lastAccessTimeFormatted) c.(approximateLastAccessTime)
  end.

(** [language[0] === 'e' || language[1] === 'n'] *)
Definition keeps_english (l : string) : bool :=
  bool_decide (String.get 0 l = Some "e"%char) || bool_decide (String.get 1 l = Some "n"%char).

Definition format_location (l : option Location) : Location :=
  match l with
  | None => no_location
  | Some l =>
      match language with
      | None => no_location
      | Some lang =>
          if keeps_english lang then mkLocation l.(city) l.(country) l.(state) l.(stateCode) None
          else match when_truthy l.(countryCode) id with
               | None => l
               | Some code =>
                   match territories lang with
                   | None => no_location
                   | Some names => mkLocation None (names code) None None None
                   end
               end
      end
  end.

Definition formatLocation (c : AttachedClient) : AttachedClient :=
  mkClient c.(clientId) c.(deviceId) c.(sessionTokenId) c.(refreshTokenId) c.(isCurrentSession) c.(deviceType) c.(name) c.(scope)
    (Some (format_location c.(location))) c.(userAgent) c.(os) c.(createdTime) c.(createdTimeFormatted) c.(lastAccessTime)
    c.(lastAccessTimeFormatted) c.(approximateLastAccessTime).

(** [s.replace('Mac OS X', 'macOS')]: the first occurrence. *)
Fixpoint replace_first (old new s : string) : string :=
  if String.prefix old s then new ++ String.substring (String.length old) (String.length s - String.length old) s
  else match s with "" => "" | String a s' => String a (replace_first old new s') end.

(** The last tweaks of [build]. *)
Definition present (c : AttachedClient) : AttachedClient :=
  let c := formatLocation (formatTimestamps c) in
  mkClient c.(clientId) c.(deviceId) c.(sessionTokenId) c.(refreshTokenId) c.(isCurrentSession)
    (if ostr_truthy c.(deviceId) && negb (ostr_truthy c.(deviceType)) then Some "desktop" else c.(deviceType))
    (match when_truthy c.(name) (replace_first "Mac OS X" "macOS") with Some n => Some n | None => c.(name) end)
    c.(scope) c.(location) c.(userAgent) c.(os) c.(createdTime) c.(createdTimeFormatted) c.(lastAccessTime) c.(lastAccessTimeFormatted)
    c.(approximateLastAccessTime).

Definition build (current : string) (ds : list AttachedDevice) (os : list AttachedOAuthClient) (ss : list AttachedSession)
    : list AttachedClient :=
  present <$> (mergeSessions current ss (mergeOauthClients os (mergeDevices ds init))).(attachedClients).
End Formatters.
