(* ===== verification/ConnectedLaws.v ===== *)
(** * Theorems on connected services

    The list that the factory builds in place is the join of the devices, the
    OAuth clients and the sessions. *)

From S2P Require Import Prelude Text Records ConnectedServices.

#[local] Open Scope string_scope.
#[local] Open Scope Z_scope.

(** ** Merging into a list by reference *)

Section Join.
Context {X : Type} (key : X -> option string) (set : X -> AttachedClient -> AttachedClient) (new : X -> AttachedClient).
Context (index : gmap string nat) (owner : nat -> option string).

Definition ref_of (x : X) : option nat := key x ≫= fun k => index !! k.

Definition joined (l : list AttachedClient) (xs : list X) : list AttachedClient :=
  fold_left (fun l x => place (ref_of x) set new x l) xs l.

(** The item that belongs to the client at a position. *)
Definition item_at (i : nat) (xs : list X) : option X := head (filter (fun x => is_Some (owner i) /\ key x = owner i) xs).

Definition update_at (xs : list X) (i : nat) (c : AttachedClient) : AttachedClient :=
  match item_at i xs with Some x => set x c | None => c end.

Lemma item_at_none i xs : item_at i xs = None <-> forall x, x ∈ xs -> is_Some (owner i) -> key x <> owner i.
Proof.
  unfold item_at. split.
  - intros Hh x Hx Ho Hk. destruct (filter _ xs) as [|y l] eqn:E; [|done].
    assert (x ∈ filter (fun x => is_Some (owner i) /\ key x = owner i) xs) as Hin by (by apply list_elem_of_filter).
    rewrite E in Hin. by apply not_elem_of_nil in Hin.
  - intros Hno. destruct (filter _ xs) as [|y l] eqn:E; [done|].
    assert (y ∈ filter (fun x => is_Some (owner i) /\ key x = owner i) xs) as [[Ho Hk] Hin]%list_elem_of_filter by (rewrite E; left).
    exfalso. by eapply Hno.
Qed.

Lemma item_at_app i xs x : item_at i xs = None -> item_at i (xs ++ [x]) = item_at i [x].
Proof.
  unfold item_at. rewrite filter_app. by destruct (filter _ xs).
Qed.

Lemma item_at_app_some i xs ys y : item_at i xs = Some y -> item_at i (xs ++ ys) = Some y.
Proof. unfold item_at. rewrite filter_app. by destruct (filter _ xs). Qed.

Definition free (x : X) : Prop := ref_of x = None.
#[local] Instance free_dec x : Decision (free x).
Proof. unfold free. apply _. Defined.

Lemma item_at_other i xs x : (is_Some (owner i) -> key x <> owner i) -> item_at i (xs ++ [x]) = item_at i xs.
Proof.
  intros Hx. destruct (item_at i xs) as [y|] eqn:E; [by apply item_at_app_some|]. rewrite item_at_app by done.
  apply item_at_none. intros y ->%list_elem_of_singleton. done.
Qed.

Lemma item_at_this i xs x k : owner i = Some k -> key x = Some k -> k ∉ omap key xs -> item_at i (xs ++ [x]) = Some x.
Proof.
  intros Ho Hk Hno. rewrite item_at_app.
  - unfold item_at. rewrite filter_cons_True by (rewrite Ho; by split). done.
  - apply item_at_none. intros y Hy _ Hky. apply Hno, list_elem_of_omap. exists y. by rewrite Hky.
Qed.

Lemma alter_update (l : list AttachedClient) xs x i k :
  owner i = Some k -> key x = Some k -> k ∉ omap key xs -> (forall j, owner j = Some k -> j = i) ->
  alter (set x) i (imap (update_at xs) l) = imap (update_at (xs ++ [x])) l.
Proof.
  intros Ho Hk Hno Hinj. apply list_eq. intros j. rewrite list_lookup_imap. destruct (decide (i = j)) as [<-|Hne].
  - rewrite list_lookup_alter_eq, list_lookup_imap, <- option_fmap_compose. destruct (l !! i) as [c|]; [|done]. cbn. f_equal.
    unfold update_at. rewrite (item_at_this i xs x k) by done. assert (item_at i xs = None) as ->; [|done].
    apply item_at_none. intros y Hy _ Hky. apply Hno, list_elem_of_omap. exists y. by rewrite Hky.
  - rewrite list_lookup_alter_ne, list_lookup_imap by done. destruct (l !! j) as [c|]; [|done]. cbn. f_equal.
    unfold update_at. rewrite item_at_other; [done|]. intros _ Hkj. rewrite Hk in Hkj. symmetry in Hkj. by apply Hinj in Hkj.
Qed.

(** The references are those of the clients in the list, and no two items have
    one key: then merging updates each client with its item, and appends the
    items that have none. *)
Lemma joined_spec (l : list AttachedClient) xs :
  (forall k i, index !! k = Some i <-> owner i = Some k) -> (forall i k, owner i = Some k -> (i < length l)%nat) ->
  NoDup (omap key xs) -> joined l xs = (imap (update_at xs) l ++ (new <$> filter free xs))%list.
Proof.
  intros Hidx Hown. induction xs as [|x xs IH] using rev_ind.
  { intros _. cbn. rewrite app_nil_r. apply list_eq. intros i. rewrite list_lookup_imap. by destruct (l !! i). }
  rewrite omap_app. intros (Hnd & Hdisj & _)%NoDup_app. unfold joined. rewrite fold_left_app. fold (joined l xs).
  rewrite (IH Hnd), filter_app, fmap_app. cbn [fold_left]. unfold place. destruct (ref_of x) as [i|] eqn:Hr.
  - unfold ref_of in Hr. destruct (key x) as [k|] eqn:Hk; [|done]. cbn in Hr.
    assert (k ∉ omap key xs) as Hno. { intros Hin%Hdisj. apply Hin, list_elem_of_omap. exists x. split; [left|done]. }
    pose proof (proj1 (Hidx k i) Hr) as Ho.
    rewrite filter_cons_False by (unfold free, ref_of; rewrite Hk; cbn; by rewrite Hr).
    cbn [fmap list_fmap]. rewrite app_nil_r, alter_app_l by (rewrite length_imap; by eapply Hown).
    f_equal. eapply alter_update; [done..|]. intros j Hj%Hidx. congruence.
  - rewrite filter_cons_True by done. rewrite app_assoc. cbn. f_equal. f_equal. apply list_eq. intros i. rewrite !list_lookup_imap.
    destruct (l !! i) as [c|]; [|done]. cbn. f_equal. unfold update_at. rewrite item_at_other; [done|]. intros [k Ho] Hk.
    unfold ref_of in Hr. rewrite Hk, Ho in Hr. cbn in Hr. apply Hidx in Ho. congruence.
Qed.
End Join.

(** ** The maps of the devices *)

Definition session_key (d : AttachedDevice) : option string := when_truthy d.(d_sessionTokenId) id.
Definition refresh_key (d : AttachedDevice) : option string := when_truthy d.(d_refreshTokenId) id.

(** The references of a list of devices under a key. *)
Definition refs (key : AttachedDevice -> option string) (ds : list AttachedDevice) (n : nat) (m : gmap string nat) : gmap string nat :=
  (fold_left (fun '(m, i) d => (match key d with Some k => <[k := i]> m | None => m end, S i)) ds (m, n)).1.

Lemma mergeDevices_spec ds f :
  let n := length f.(attachedClients) in
  mergeDevices ds f = mkFactory (refs session_key ds n f.(clientsBySessionTokenId)) (refs refresh_key ds n f.(clientsByRefreshTokenId))
    (f.(attachedClients) ++ (client_of_device <$> ds))%list.
Proof.
  revert f. unfold mergeDevices, refs. induction ds as [|d ds IH]; intros f; cbn [fold_left].
  - cbn. rewrite app_nil_r. by destruct f.
  - rewrite IH. cbn [attachedClients clientsBySessionTokenId clientsByRefreshTokenId mergeDevice].
    rewrite length_app, Nat.add_1_r, <- app_assoc. done.
Qed.

Lemma refs_app key ds d n m :
  refs key (ds ++ [d]) n m = match key d with Some k => <[k := (n + length ds)%nat]> (refs key ds n m) | None => refs key ds n m end.
Proof.
  unfold refs. rewrite fold_left_app. cbn [fold_left].
  assert (forall l (m0 : gmap string nat) (i : nat), (fold_left (fun '(m, i) d => (match key d with Some k => <[k := i]> m | None => m end, S i)) l (m0, i)).2 = (i + length l)%nat) as Hi.
  { induction l as [|x l IHl]; intros m0 i; cbn; [lia|]. rewrite IHl. lia. }
  specialize (Hi ds m n). destruct (fold_left _ ds _) as [m1 i]. cbn in Hi. subst. by destruct (key d).
Qed.

Lemma refs_spec key ds :
  NoDup (omap key ds) -> forall k i, refs key ds 0 ∅ !! k = Some i <-> (ds !! i ≫= key) = Some k.
Proof.
  induction ds as [|d ds IH] using rev_ind.
  { intros _ k i. cbn. by rewrite lookup_empty. }
  rewrite omap_app. intros (Hnd & Hdisj & _)%NoDup_app k i. rewrite refs_app. specialize (IH Hnd). cbn [Nat.add].
  assert (forall k', key d = Some k' -> forall j, (ds !! j ≫= key) <> Some k') as Hnew.
  { intros k' Hk' j Hj. destruct (ds !! j) as [e|] eqn:He; [|done]. cbn in Hj.
    apply (Hdisj k'); apply list_elem_of_omap; [exists e; split; [by eapply list_elem_of_lookup_2|done]|exists d; split; [left|done]]. }
  destruct (decide (i < length ds)%nat) as [Hlt|Hge].
  - rewrite lookup_app_l by done. destruct (key d) as [k'|] eqn:Hk'; [|apply IH]. rewrite lookup_insert_Some, IH. split.
    + intros [[_ Hi]|[_ ?]]; [lia|done].
    + intros Hi. right. split; [|done]. intros ->. by eapply Hnew.
  - rewrite lookup_app_r by lia. destruct (decide (i = length ds)) as [->|Hne].
    + rewrite Nat.sub_diag. cbn. destruct (key d) as [k'|] eqn:Hk'.
      * rewrite lookup_insert_Some. split; [|intros [= ->]; by left]. intros [[-> _]|[_ Hr]]; [done|]. apply IH in Hr.
        by rewrite lookup_ge_None_2 in Hr by done.
      * split; [|done]. intros Hr%IH. by rewrite lookup_ge_None_2 in Hr by done.
    + rewrite (lookup_ge_None_2 [d]) by (cbn; lia). cbn. split; [|done]. destruct (key d) as [k'|].
      * intros [[_ ?]|[_ Hr]]%lookup_insert_Some; [lia|]. apply IH in Hr. by rewrite lookup_ge_None_2 in Hr by lia.
      * intros Hr%IH. by rewrite lookup_ge_None_2 in Hr by lia.
Qed.

(** ** The join *)

Definition oauth_of (os : list AttachedOAuthClient) (d : AttachedDevice) : option AttachedOAuthClient :=
  head (filter (fun o => is_Some (refresh_key d) /\ o.(o_refresh_token_id) = refresh_key d) os).

Definition session_of (ss : list AttachedSession) (d : AttachedDevice) : option AttachedSession :=
  head (filter (fun s => is_Some (session_key d) /\ Some s.(s_id) = session_key d) ss).

(** A device with its OAuth client and its session. *)
Definition of_device (current : string) (os : list AttachedOAuthClient) (ss : list AttachedSession) (d : AttachedDevice) : AttachedClient :=
  let c := client_of_device d in
  let c := match oauth_of os d with Some o => set_oauth o c | None => c end in
  match session_of ss d with Some s => set_session current s c | None => c end.

Definition without_device_o (ds : list AttachedDevice) (o : AttachedOAuthClient) : Prop :=
  ~ exists r, o.(o_refresh_token_id) = Some r /\ Some r ∈ refresh_key <$> ds.
Definition without_device_s (ds : list AttachedDevice) (s : AttachedSession) : Prop := Some s.(s_id) ∉ session_key <$> ds.

#[export] Instance without_device_o_dec ds o : Decision (without_device_o ds o).
Proof.
  unfold without_device_o. destruct (o_refresh_token_id o) as [r|] eqn:E.
  - destruct (decide (Some r ∈ refresh_key <$> ds)); [right|left]; [intros Hn; apply Hn; eauto|intros (r' & [= <-] & ?); done].
  - left. by intros (? & ? & _).
Defined.
#[export] Instance without_device_s_dec ds s : Decision (without_device_s ds s).
Proof. unfold without_device_s. apply _. Defined.

Lemma refs_none key ds k : NoDup (omap key ds) -> refs key ds 0 ∅ !! k = None <-> Some k ∉ key <$> ds.
Proof.
  intros Hnd. pose proof (refs_spec key ds Hnd k) as Hr. rewrite eq_None_not_Some. split.
  - intros Hn (d & Hd & Hin)%list_elem_of_fmap. apply Hn. apply list_elem_of_lookup in Hin as [i Hi]. exists i. apply Hr.
    by rewrite Hi.
  - intros Hn [i Hi%Hr]. apply Hn, list_elem_of_fmap. destruct (ds !! i) as [d|] eqn:E; [|done]. exists d.
    split; [done|by eapply list_elem_of_lookup_2].
Qed.

Section Build.
Context (current : string) (ds : list AttachedDevice) (os : list AttachedOAuthClient) (ss : list AttachedSession).
Hypothesis one_session : NoDup (omap session_key ds).
Hypothesis one_token : NoDup (omap refresh_key ds).
Hypothesis tokens_differ : NoDup (omap o_refresh_token_id os).
Hypothesis sessions_differ : NoDup (s_id <$> ss).

Lemma merge_oauth_join f l :
  f = mkFactory (refs session_key ds 0 ∅) (refs refresh_key ds 0 ∅) l -> 
  mergeOauthClients os f = mkFactory (refs session_key ds 0 ∅) (refs refresh_key ds 0 ∅)
    (joined o_refresh_token_id set_oauth client_of_oauth (refs refresh_key ds 0 ∅) l os).
Proof.
  unfold mergeOauthClients, joined. clear tokens_differ. revert f l. induction os as [|o os' IH]; intros f l ->; [done|].
  cbn [fold_left]. by apply IH.
Qed.

Lemma merge_sessions_join f l :
  f = mkFactory (refs session_key ds 0 ∅) (refs refresh_key ds 0 ∅) l -> 
  (mergeSessions current ss f).(attachedClients) =
    joined (fun s => Some s.(s_id)) (set_session current) (client_of_session current) (refs session_key ds 0 ∅) l ss.
Proof.
  unfold mergeSessions, joined. clear sessions_differ. revert f l. induction ss as [|s ss' IH]; intros f l ->; [done|].
  cbn [fold_left]. by apply IH.
Qed.

Lemma item_of_device {X} (key : X -> option string) (k : AttachedDevice -> option string) xs i d :
  ds !! i = Some d ->
  item_at key (fun i => ds !! i ≫= k) i xs = head (filter (fun x => is_Some (k d) /\ key x = k d) xs).
Proof. intros Hd. unfold item_at. f_equal. apply list_filter_iff. intros x. by rewrite Hd. Qed.

Lemma item_beyond {X} (key : X -> option string) (k : AttachedDevice -> option string) xs i :
  ds !! i = None -> item_at key (fun i => ds !! i ≫= k) i xs = None.
Proof. intros Hd. apply item_at_none. rewrite Hd. by intros x _ []. Qed.

Lemma join_lists :
  (mergeSessions current ss (mergeOauthClients os (mergeDevices ds init))).(attachedClients) =
  ((of_device current os ss <$> ds) ++ (client_of_oauth <$> filter (without_device_o ds) os) ++
   (client_of_session current <$> filter (without_device_s ds) ss))%list.
Proof.
  erewrite merge_sessions_join; [|apply merge_oauth_join; rewrite mergeDevices_spec; reflexivity].
  cbn [init attachedClients clientsByRefreshTokenId clientsBySessionTokenId app].
  pose proof (refs_spec session_key ds one_session) as Hs. pose proof (refs_spec refresh_key ds one_token) as Hr.
  rewrite (joined_spec _ _ _ (refs refresh_key ds 0 ∅) (fun i => ds !! i ≫= refresh_key)); [|done| |done].
  2: { intros i k Hi. rewrite length_fmap. destruct (ds !! i) eqn:E; [|done]. by eapply lookup_lt_Some. }
  rewrite (joined_spec _ _ _ (refs session_key ds 0 ∅) (fun i => ds !! i ≫= session_key)); [|done| |].
  2: { intros i k Hi. rewrite length_app, length_imap, length_fmap. destruct (ds !! i) eqn:E; [|done]. apply lookup_lt_Some in E. lia. }
  2: { by rewrite <- list_fmap_alt. }
  rewrite imap_app, <- app_assoc. f_equal; [|f_equal].
  - apply list_eq. intros i. rewrite !list_lookup_imap, !list_lookup_fmap. destruct (ds !! i) as [d|] eqn:Hd; [|done]. cbn. f_equal.
    unfold update_at, of_device, oauth_of, session_of. by rewrite !(item_of_device _ _ _ i d).
  - rewrite length_imap, length_fmap. transitivity (client_of_oauth <$> filter (free o_refresh_token_id (refs refresh_key ds 0 ∅)) os).
    + apply list_eq. intros i. rewrite list_lookup_imap. destruct (_ !! i) as [c|]; [|done]. cbn. unfold update_at.
      rewrite item_beyond; [done|]. apply lookup_ge_None_2. lia.
    + f_equal. apply list_filter_iff. intros o. unfold free, ref_of, without_device_o. destruct (o_refresh_token_id o) as [r|]; cbn.
      * rewrite refs_none by done. naive_solver.
      * naive_solver.
  - f_equal. apply list_filter_iff. intros s. unfold free, ref_of, without_device_s. cbn. by rewrite refs_none.
Qed.

(** The sessions that the list shows. *)
Lemma of_device_session d : (of_device current os ss d).(sessionTokenId) = session_key d.
Proof. unfold of_device. by destruct (oauth_of os d), (session_of ss d). Qed.

Lemma omap_map {A B C} (f : A -> B) (g : B -> option C) (l : list A) : omap g (f <$> l) = omap (fun x => g (f x)) l.
Proof. induction l as [|x l IH]; cbn; [done|]. destruct (g (f x)); cbn; by rewrite IH. Qed.

Lemma omap_equal {A B} (f g : A -> option B) (l : list A) : (forall x, f x = g x) -> omap f l = omap g l.
Proof. intros Hfg. induction l as [|x l IH]; cbn; [done|]. by rewrite Hfg, IH. Qed.

Lemma omap_nothing {A B} (f : A -> option B) (l : list A) : (forall x, f x = None) -> omap f l = [].
Proof. intros Hf. induction l as [|x l IH]; cbn; [done|]. by rewrite Hf. Qed.

Lemma shown_sessions :
  omap sessionTokenId (mergeSessions current ss (mergeOauthClients os (mergeDevices ds init))).(attachedClients) =
  (omap session_key ds ++ (s_id <$> filter (without_device_s ds) ss))%list.
Proof.
  rewrite join_lists, !omap_app, !omap_map, (omap_equal _ session_key ds) by apply of_device_session.
  rewrite (omap_nothing _ (filter _ os)) by done. cbn [app]. f_equal.
Qed.

Lemma session_key_in k : k ∈ omap session_key ds <-> Some k ∈ session_key <$> ds.
Proof. rewrite list_elem_of_omap, list_elem_of_fmap. naive_solver. Qed.

Lemma shown_once : NoDup (omap session_key ds ++ (s_id <$> filter (without_device_s ds) ss))%list.
Proof.
  apply NoDup_app. split; [done|]. split.
  - intros k Hk%session_key_in (s & -> & [Hs _]%list_elem_of_filter)%list_elem_of_fmap. by apply Hs.
  - eapply sublist_NoDup; [done|]. apply fmap_sublist, sublist_filter.
Qed.

Lemma shown_all s : s ∈ ss -> s.(s_id) ∈ (omap session_key ds ++ (s_id <$> filter (without_device_s ds) ss))%list.
Proof.
  intros Hs. apply elem_of_app. destruct (decide (without_device_s ds s)) as [Hd|Hd].
  - right. apply list_elem_of_fmap. exists s. split; [done|]. by apply list_elem_of_filter.
  - left. apply session_key_in. unfold without_device_s in Hd. by apply dec_stable.
Qed.

(** The current session is the one that asked. *)
Lemma current_marked c :
  c ∈ (mergeSessions current ss (mergeOauthClients os (mergeDevices ds init))).(attachedClients) -> c.(isCurrentSession) = true ->
  c.(sessionTokenId) = Some current.
Proof.
  rewrite join_lists, !elem_of_app, !list_elem_of_fmap. intros [(d & -> & _)|[(o & -> & _)|(s & -> & _)]]; [|done|].
  - unfold of_device. destruct (oauth_of os d), (session_of ss d); cbn; try done; intros Hc; by apply bool_decide_eq_true in Hc.
  - cbn. intros Hc. by apply bool_decide_eq_true in Hc.
Qed.
End Build.

Section Present.
Context (format : Z -> string) (earliestSaneAccessTime : Z) (language : option string)
  (territories : string -> option (string -> option string)).

Lemma present_session c : (present format earliestSaneAccessTime language territories c).(sessionTokenId) = c.(sessionTokenId).
Proof. cbn. unfold formatTimestamps. destruct (lastAccessTime c) as [t|]; [|done]. by destruct (t =? 0). Qed.

Lemma present_current c : (present format earliestSaneAccessTime language territories c).(isCurrentSession) = c.(isCurrentSession).
Proof. cbn. unfold formatTimestamps. destruct (lastAccessTime c) as [t|]; [|done]. by destruct (t =? 0). Qed.
End Present.

(** [C32] The list of attached clients, which is built in place through two maps
    of references to its entries, is the join of the three sources: each
    device with the OAuth client of its refresh token and its session, then the
    OAuth clients and then the sessions that belong to no device.  Every
    session is shown, none twice, and only the one that asked is current. *)
Theorem attached_clients_join format sane language territories current ds os ss :
  NoDup (omap session_key ds) -> NoDup (omap refresh_key ds) -> NoDup (omap o_refresh_token_id os) -> NoDup (s_id <$> ss) ->
  let l := build format sane language territories current ds os ss in
  l = present format sane language territories <$>
        ((of_device current os ss <$> ds) ++ (client_of_oauth <$> filter (without_device_o ds) os) ++
         (client_of_session current <$> filter (without_device_s ds) ss))%list /\
  NoDup (omap sessionTokenId l) /\
  (forall s, s ∈ ss -> s.(s_id) ∈ omap sessionTokenId l) /\
  (forall c, c ∈ l -> c.(isCurrentSession) = true -> c.(sessionTokenId) = Some current).
Proof.
  intros H1 H2 H3 H4. cbv zeta. unfold build.
  rewrite omap_map, (omap_equal _ sessionTokenId) by apply present_session. rewrite shown_sessions by done.
  repeat split.
  - by rewrite join_lists.
  - by apply shown_once.
  - intros s Hs. by apply shown_all.
  - intros c (c' & -> & Hc')%list_elem_of_fmap. rewrite present_session, present_current. intros Hcur. by eapply current_marked.
Qed.

(** A phone with a session and a token, a web service and an old browser. *)
Definition plain_ua (b o : string) : UA := mkUA (Some b) (Some "118.0") (Some o) None None None.
Definition phone : AttachedDevice :=
  mkDevice "d1" (Some "s1") (Some "r1") None None (Some 50) None None (plain_ua "Firefox" "Android") None None None false ∅.
Definition fenix : AttachedOAuthClient := mkOAuthClient "fenix" (Some "r1") "Fenix" 40 70 ["profile"].
Definition pocket : AttachedOAuthClient := mkOAuthClient "pocket" None "Pocket" 30 60 ["profile:email"].
Definition phone_session : AttachedSession := mkAttachedSession "s1" 45 (Some 90) None (plain_ua "Firefox" "Android").
Definition old_session : AttachedSession := mkAttachedSession "s2" 10 None None (plain_ua "Firefox" "Mac OS X").

Definition plain_build : list AttachedClient :=
  build (fun _ => "then") 20 (Some "fr") (fun _ => None) "s2" [phone] [fenix; pocket] [phone_session; old_session].

Lemma attached_clients_join_witness :
  (name <$> plain_build) = [Some "Fenix"; Some "Pocket"; Some "Firefox 118, macOS"] /\ NoDup (omap sessionTokenId plain_build) /\
  (deviceType <$> plain_build) = [Some "mobile"; None; None] /\ (createdTime <$> plain_build) = [Some 40; Some 30; Some 10].
Proof.
  split; [by vm_compute|]. split; [|by vm_compute].
  refine (proj1 (proj2 (attached_clients_join (fun _ => "then") 20 (Some "fr") (fun _ => None) "s2" [phone] [fenix; pocket]
    [phone_session; old_session] _ _ _ _))); apply (bool_decide_eq_true_1 _); by vm_compute.
Defined.
