(* ===== verification/AuthorizedClients.v ===== *)
(** * Authorized clients
      (packages/fxa-auth-server/lib/oauth/authorized_clients.js, and its copy
       AuthorizedClientsFactory of packages/fxa-shared/connected-services/factories.ts)

    The OAuth clients that hold tokens of an account: one entry for every
    refresh token, one for all the access tokens of a client that has none,
    in a fixed order.  The tokens are what the database returns for the
    account, dates as milliseconds. *)

From S2P Require Import Prelude Sorting Text ScopeValues Scopes.

#[local] Open Scope string_scope.
#[local] Open Scope Z_scope.

(** ** Data *)

Record RefreshTokenRow := mkRefreshTokenRow {
  rr_tokenId : string; rr_clientId : string; rr_clientName : string; rr_createdAt : Z; rr_lastUsedAt : Z; rr_scope : ScopeSet }.

Record AccessTokenRow := mkAccessTokenRow {
  ar_clientId : string; ar_clientName : string; ar_clientCanGrant : bool; ar_createdAt : Z; ar_scope : ScopeSet }.

(** An entry of [accessTokenRecordsByClientId]. *)
Record ClientRecord := mkClientRecord {
  cr_clientName : string; cr_createdAt : Z; cr_lastUsedAt : Z; cr_scope : ScopeSet }.

Record AuthorizedClient := mkAuthorizedClient {
  client_id : string; refresh_token_id : option string; client_name : string; created_time : Z; last_access_time : Z;
  scope : list string }.

(** ** authorized_clients.js *)

Definition serialize (clientIdHex : string) (tokenId : option string) (name : string) (createdAt lastUsedAt : Z) (sc : ScopeSet)
    : AuthorizedClient :=
  mkAuthorizedClient clientIdHex tokenId name createdAt lastUsedAt (js_sort compare_strings (getScopeValues sc)).

Definition serialize_refresh (t : RefreshTokenRow) : AuthorizedClient :=
  serialize t.(rr_clientId) (Some t.(rr_tokenId)) t.(rr_clientName) t.(rr_createdAt) t.(rr_lastUsedAt) t.(rr_scope).

Definition serialize_record (e : string * ClientRecord) : AuthorizedClient :=
  serialize e.1 None e.2.(cr_clientName) e.2.(cr_createdAt) e.2.(cr_lastUsedAt) e.2.(cr_scope).

(** One access token: [None] when [ScopeSet.add] throws. *)
Definition merge_access (seen : list string) (m : jsobj ClientRecord) (t : AccessTokenRow) : option (jsobj ClientRecord) :=
  if negb (bool_decide (t.(ar_clientId) ∈ seen)) && negb t.(ar_clientCanGrant) then
    let record := default (mkClientRecord t.(ar_clientName) t.(ar_createdAt) t.(ar_createdAt) empty_set) (obj_get m t.(ar_clientId)) in
    sc ← add record.(cr_scope) t.(ar_scope);
    Some (obj_set m t.(ar_clientId)
      (mkClientRecord record.(cr_clientName)
         (if t.(ar_createdAt) <? record.(cr_createdAt) then t.(ar_createdAt) else record.(cr_createdAt))
         (if record.(cr_lastUsedAt) <? t.(ar_createdAt) then t.(ar_createdAt) else record.(cr_lastUsedAt)) sc))
  else Some m.

Fixpoint merge_all (seen : list string) (m : jsobj ClientRecord) (ts : list AccessTokenRow) : option (jsobj ClientRecord) :=
  match ts with
  | [] => Some m
  | t :: ts' => m' ← merge_access seen m t; merge_all seen m' ts'
  end.

(** The comparison of the final list; two lists of scopes are compared as
    strings, their elements joined with commas. *)
Definition compare_clients (a b : AuthorizedClient) : Z :=
  if b.(last_access_time) >? a.(last_access_time) then 1
  else if b.(last_access_time) <? a.(last_access_time) then -1
  else if str_lt b.(client_name) a.(client_name) then 1
  else if str_lt a.(client_name) b.(client_name) then -1
  else if a.(created_time) >? b.(created_time) then 1
  else if a.(created_time) <? b.(created_time) then -1
  else if str_lt (join "," b.(scope)) (join "," a.(scope)) then 1
  else if str_lt (join "," a.(scope)) (join "," b.(scope)) then -1
  else 0.

Definition list_clients (refreshTokens : list RefreshTokenRow) (accessTokens : list AccessTokenRow) : option (list AuthorizedClient) :=
  records ← merge_all (rr_clientId <$> refreshTokens) [] accessTokens;
  Some (js_sort compare_clients ((serialize_refresh <$> refreshTokens) ++ (serialize_record <$> records))%list).

(** ** The order of the list *)

(** The comparison of the list is by four keys, one after the other. *)
Lemma compare_clients_keys a b :
  compare_clients a b =
  then_by (fun a b => compare_numbers b.(last_access_time) a.(last_access_time))
    (then_by (fun a b => compare_strings a.(client_name) b.(client_name))
      (then_by (fun a b => compare_numbers a.(created_time) b.(created_time))
        (fun a b => compare_strings (join "," a.(scope)) (join "," b.(scope))))) a b.
Proof.
  unfold compare_clients, then_by, compare_numbers, compare_strings. repeat case_match; done.
Qed.

Lemma compare_clients_consistent : consistent compare_clients.
Proof.
  eapply consistent_ext; [apply compare_clients_keys|]. repeat apply consistent_then.
  - apply (consistent_on last_access_time (fun x y => compare_numbers y x)), consistent_flip, compare_numbers_consistent.
  - apply (consistent_on client_name), compare_strings_consistent.
  - apply (consistent_on created_time), compare_numbers_consistent.
  - apply (consistent_on (fun a => join "," a.(scope))), compare_strings_consistent.
Qed.

(** ** The records of the access tokens *)

Section Laws.
Context (imp : string -> option (list string)) (good : string -> Prop) `{ScopeOrder imp good}.

(** The tokens that a record stands for. *)
Definition group (ts : list AccessTokenRow) (c : string) : list AccessTokenRow :=
  filterb (fun t => String.eqb t.(ar_clientId) c && negb t.(ar_clientCanGrant)) ts.

Record merged (g : list AccessTokenRow) (r : ClientRecord) : Prop := {
  m_created : r.(cr_createdAt) ∈ ar_createdAt <$> g /\ forall t, t ∈ g -> r.(cr_createdAt) <= t.(ar_createdAt);
  m_used : r.(cr_lastUsedAt) ∈ ar_createdAt <$> g /\ forall t, t ∈ g -> t.(ar_createdAt) <= r.(cr_lastUsedAt);
  m_name : head (ar_clientName <$> g) = Some r.(cr_clientName);
  m_inv : inv imp good r.(cr_scope);
  m_scope v : good v -> grants imp r.(cr_scope) v <-> exists t, t ∈ g /\ grants imp t.(ar_scope) v }.

Definition records_of (seen : list string) (ts : list AccessTokenRow) (m : jsobj ClientRecord) : Prop :=
  NoDup m.*1 /\ forall c, match obj_get m c with
                          | None => (c ∈ seen) \/ group ts c = []
                          | Some r => (c ∉ seen) /\ merged (group ts c) r
                          end.

Lemma group_app ts t c :
  group (ts ++ [t]) c = (group ts c ++ if String.eqb t.(ar_clientId) c && negb t.(ar_clientCanGrant) then [t] else [])%list.
Proof. unfold group. rewrite filterb_app. cbn. by destruct (_ && _). Qed.

Lemma add_spec A B :
  inv imp good A -> inv imp good B ->
  exists C, add A B = Some C /\ inv imp good C /\ forall v, good v -> grants imp C v <-> grants imp A v \/ grants imp B v.
Proof.
  intros HA HB. destruct (addScopes_spec imp good A (_scopesToImplicants B) HA (entries_ok imp good B HB)) as (C & HC & Hi & Hg).
  exists C. split; [done|]. split; [done|]. intros v Hv. rewrite Hg by done. by rewrite (grants_keys imp B).
Qed.

(** A first token, and one more token of a client. *)
Lemma merged_first t sc :
  inv imp good sc -> (forall v, good v -> grants imp sc v <-> grants imp empty_set v \/ grants imp t.(ar_scope) v) ->
  merged [t] (mkClientRecord t.(ar_clientName) t.(ar_createdAt) t.(ar_createdAt) sc).
Proof.
  intros Hi Hg. split; cbn; try (split; [by left|]; intros u ->%list_elem_of_singleton; lia); [done|done|].
  intros v Hv. rewrite Hg by done. setoid_rewrite list_elem_of_singleton. pose proof (empty_grants imp v). naive_solver.
Qed.

Lemma merged_more g t r sc :
  merged g r -> inv imp good sc -> (forall v, good v -> grants imp sc v <-> grants imp r.(cr_scope) v \/ grants imp t.(ar_scope) v) ->
  merged (g ++ [t]) (mkClientRecord r.(cr_clientName)
    (if t.(ar_createdAt) <? r.(cr_createdAt) then t.(ar_createdAt) else r.(cr_createdAt))
    (if r.(cr_lastUsedAt) <? t.(ar_createdAt) then t.(ar_createdAt) else r.(cr_lastUsedAt)) sc).
Proof.
  intros [[C1 C2] [U1 U2] N _ S] Hi Hg. split; cbn; rewrite ?fmap_app.
  - split; [destruct (Z.ltb_spec (ar_createdAt t) (cr_createdAt r)); set_solver|].
    intros u [Hu| ->%list_elem_of_singleton]%elem_of_app; [apply C2 in Hu|]; destruct (Z.ltb_spec (ar_createdAt t) (cr_createdAt r)); lia.
  - split; [destruct (Z.ltb_spec (cr_lastUsedAt r) (ar_createdAt t)); set_solver|].
    intros u [Hu| ->%list_elem_of_singleton]%elem_of_app; [apply U2 in Hu|]; destruct (Z.ltb_spec (cr_lastUsedAt r) (ar_createdAt t)); lia.
  - by destruct g.
  - done.
  - intros v Hv. rewrite Hg, S by done. set_solver.
Qed.

Lemma merge_access_spec seen ts m t :
  records_of seen ts m -> inv imp good t.(ar_scope) ->
  exists m', merge_access seen m t = Some m' /\ records_of seen (ts ++ [t]) m'.
Proof.
  intros [Hn Hm] Ht. unfold merge_access.
  destruct (negb (bool_decide _) && negb (ar_clientCanGrant t)) eqn:Eg.
  - apply andb_true_iff in Eg as [Es%negb_true_iff Ec]. apply bool_decide_eq_false in Es.
    set (r := default _ _).
    assert (inv imp good r.(cr_scope)) as Hr.
    { subst r. specialize (Hm t.(ar_clientId)). destruct (obj_get m _) as [r|]; [apply Hm|apply empty_inv]. }
    destruct (add_spec r.(cr_scope) t.(ar_scope) Hr Ht) as (sc & -> & Hsc & Hg). cbn [mbind option_bind]. eexists. split; [done|].
    split; [by apply obj_set_keys_nodup|]. intros c. rewrite obj_get_set, group_app, Ec. specialize (Hm c).
    destruct (String.eqb_spec (ar_clientId t) c) as [<-|_]; cbn [andb]; [|by rewrite app_nil_r].
    split; [done|]. subst r. destruct (obj_get m _) as [r|]; cbn [from_option id] in *.
    + apply merged_more; [apply Hm|done..].
    + destruct Hm as [?| ->]; [done|]. cbn [cr_createdAt cr_lastUsedAt cr_clientName app]. rewrite Z.ltb_irrefl. by apply merged_first.
  - exists m. split; [done|]. split; [done|]. intros c. specialize (Hm c). rewrite group_app.
    destruct (String.eqb_spec (ar_clientId t) c) as [<-|_]; cbn [andb]; [|by rewrite app_nil_r].
    destruct (negb (ar_clientCanGrant t)); [|by rewrite app_nil_r]. rewrite andb_true_r in Eg. apply negb_false_iff, bool_decide_eq_true in Eg.
    destruct (obj_get m _) as [r|]; [by destruct Hm|by left].
Qed.

Lemma merge_all_spec seen ts done_ m :
  records_of seen done_ m -> Forall (fun t => inv imp good t.(ar_scope)) ts ->
  exists m', merge_all seen m ts = Some m' /\ records_of seen (done_ ++ ts) m'.
Proof.
  intros Hm Hts. revert done_ m Hm. induction Hts as [|t ts Ht _ IH]; intros done_ m Hm; cbn [merge_all].
  - exists m. by rewrite app_nil_r.
  - destruct (merge_access_spec seen done_ m t Hm Ht) as (m1 & -> & H1). cbn [mbind option_bind].
    destruct (IH _ _ H1) as (m' & -> & H2). exists m'. split; [done|]. by rewrite <- app_assoc in H2.
Qed.

(** An entry of the list for the tokens of a client. *)
Record shows (g : list AccessTokenRow) (c : AuthorizedClient) : Prop := {
  sh_token : c.(refresh_token_id) = None;
  sh_name : head (ar_clientName <$> g) = Some c.(client_name);
  sh_created : c.(created_time) ∈ ar_createdAt <$> g /\ forall t, t ∈ g -> c.(created_time) <= t.(ar_createdAt);
  sh_used : c.(last_access_time) ∈ ar_createdAt <$> g /\ forall t, t ∈ g -> t.(ar_createdAt) <= c.(last_access_time);
  sh_scope v : good v -> (exists s, s ∈ c.(scope) /\ implies imp s v) <-> exists t, t ∈ g /\ grants imp t.(ar_scope) v }.

Lemma merged_shows g id r : merged g r -> shows g (serialize_record (id, r)).
Proof.
  intros [C U N I S]. split; cbn; try done. intros v Hv. rewrite <- S, <- grants_keys by done. unfold getScopeValues.
  by setoid_rewrite (js_sort_perm compare_strings).
Qed.

(** The list of authorized clients: it is sorted by the four keys of its
    comparison, and has exactly one entry for each refresh token and one for
    each client that has access tokens, no refresh token and no right to grant
    itself any.  The times of such an entry are those of the first and the last
    of its tokens, and its scopes grant exactly what theirs do. *)
Theorem authorized_clients_exact rts ats :
  Forall (fun t => inv imp good t.(ar_scope)) ats ->
  exists l records, list_clients rts ats = Some l /\ StronglySorted (cmp_le compare_clients) l /\
    l ≡ₚ ((serialize_refresh <$> rts) ++ records)%list /\
    NoDup (client_id <$> records) /\
    (forall c, c ∈ client_id <$> records <-> (c ∉ rr_clientId <$> rts) /\ group ats c <> []) /\
    (forall r, r ∈ records -> shows (group ats r.(client_id)) r).
Proof.
  intros Hats. destruct (merge_all_spec (rr_clientId <$> rts) ats [] []) as (m & Hm & Hn & Hr).
  { split; [constructor|]. intros c. cbn. by right. }
  { done. }
  change ([] ++ ats)%list with ats in Hr. destruct (consistent_le _ compare_clients_consistent) as [Ht Htr].
  unfold list_clients. rewrite Hm. cbn [mbind option_bind]. eexists _, (serialize_record <$> m). split; [done|].
  split; [by apply js_sort_sorted|]. split; [apply js_sort_perm|].
  assert (client_id <$> (serialize_record <$> m) = m.*1) as ->; [by rewrite <- list_fmap_compose|].
  split; [done|]. split.
  - intros c. specialize (Hr c). destruct (obj_get m c) as [r|] eqn:E.
    + split; [intros _|intros _; apply list_elem_of_fmap; exists (c, r); split; [done|by apply obj_get_elem]]. destruct Hr as [Hs Hg]. split; [done|]. intros Hnil.
      destruct Hg as [[Hc _] _ _ _ _]. rewrite Hnil in Hc. by apply not_elem_of_nil in Hc.
    + apply obj_get_none_keys in E. cbn in Hr. naive_solver.
  - intros r ([id r'] & -> & Hin)%list_elem_of_fmap. cbn [serialize_record serialize client_id fst]. apply merged_shows.
    specialize (Hr id). erewrite obj_get_unique in Hr by done. apply Hr.
Qed.
End Laws.

(** One client with a refresh token, one with two access tokens. *)
Definition some_refresh : list RefreshTokenRow := [mkRefreshTokenRow "t1" "c1" "Notes" 10 50 profile_set].
Definition some_access : list AccessTokenRow :=
  [mkAccessTokenRow "c1" "Notes" false 40 profile_set; mkAccessTokenRow "c2" "Pocket" false 30 profile_set;
   mkAccessTokenRow "c3" "Sync" true 99 profile_set; mkAccessTokenRow "c2" "Pocket" false 70 profile_set].

Lemma authorized_clients_exact_witness :
  (exists l, list_clients some_refresh some_access = Some l /\ StronglySorted (cmp_le compare_clients) l) /\
  option_map (fmap (fun c => (c.(client_id), c.(created_time), c.(last_access_time)))) (list_clients some_refresh some_access) =
    Some [("c2", 30, 70); ("c1", 10, 50)].
Proof.
  split; [|by vm_compute].
  destruct (authorized_clients_exact url_imp url_good some_refresh some_access) as (l & _ & Hl & Hs & _).
  { repeat (apply Forall_cons; split; [exact profile_inv|]). apply Forall_nil_2. }
  by exists l.
Defined.
