(* ===== verification/PushBox.v ===== *)
(** * The command queue of the devices
      (packages/fxa-auth-server/lib/pushbox: db.ts, index.ts and record.ts)

    Commands wait in a table until their device fetches them or they expire.
    Rows are in the order of their index, which the database counts up.  Times
    are milliseconds; a row expires at a time in seconds. *)

From S2P Require Import Prelude Sorting.

#[local] Open Scope string_scope.
#[local] Open Scope Z_scope.

(** ** record.ts *)

Record Row := mkRow { idx : Z; user_id : string; device_id : string; data : string; ttl : Z }.

(** The table, and the next value of its counter. *)
Record Box := mkBox { rows : list Row; next_idx : Z }.

Definition empty_box : Box := mkBox [] 1.

(** ** db.ts *)

Definition of_device (uid deviceId : string) (r : Row) : bool := String.eqb r.(user_id) uid && String.eqb r.(device_id) deviceId.

Definition db_store (uid deviceId dat : string) (t : Z) (b : Box) : Box * Row :=
  let r := mkRow b.(next_idx) uid deviceId dat t in (mkBox (b.(rows) ++ [r])%list (b.(next_idx) + 1), r).

Record Page := mkPage { p_last : bool; p_index : Z; p_messages : list Row }.

Definition last_idx (l : list Row) : Z := match last l with Some r => r.(idx) | None => 0 end.

Definition db_retrieve (now : Z) (uid deviceId : string) (limit : nat) (index : option Z) (b : Box) : Page :=
  let mine := filterb (of_device uid deviceId) b.(rows) in
  let maxIndex := last_idx mine in
  let from := match index with Some i => if i =? 0 then None else Some i | None => None end in
  let messages :=
    take limit
      (filterb (fun r => (now / 1000 <=? r.(ttl)) && match from with Some i => i <=? r.(idx) | None => true end) mine) in
  let lastIndex := last_idx messages in
  mkPage ((lastIndex =? maxIndex) || (maxIndex =? 0) || bool_decide (messages = [])) lastIndex messages.

Definition db_deleteDevice (uid deviceId : string) (b : Box) : Box :=
  mkBox (filterb (fun r => negb (of_device uid deviceId r)) b.(rows)) b.(next_idx).

Definition db_deleteAccount (uid : string) (b : Box) : Box :=
  mkBox (filterb (fun r => negb (String.eqb r.(user_id) uid)) b.(rows)) b.(next_idx).

(** ** index.ts *)

Inductive BoxError := BFeatureNotEnabled | BUnexpected | BBackendFailure | BThrown.

(** [Math.ceil(ms / 1000)] *)
Definition seconds_up (ms : Z) : Z := - (- ms / 1000).

Section Api.
(** What is stored is an object; [encodeForStorage] and [decodeFromStorage]
    write it as a string, the second may throw. *)
Context {D : Type} (encodeForStorage : D -> string) (decodeFromStorage : string -> option D).
(** [config.pushbox]: whether it is enabled, and its longest time in
    milliseconds. *)
Context (enabled : bool) (maxTTL_ms : Z).

(** [Math.round(ms / 1000)] *)
Definition maxTTL : Z := (maxTTL_ms + 500) / 1000.

(** The time of an item: none given is the longest. *)
Definition clamp_ttl (t : option Z) : Z := match t with None => maxTTL | Some t => if t >? maxTTL then maxTTL else t end.

Record Message := mkMessage { m_index : Z; m_data : D }.
Record Retrieved := mkRetrieved { r_last : option bool; r_index : option Z; r_messages : option (list Message) }.

(** What the pushbox service answers: an error, or a body. *)
Inductive ServiceReply (A : Type) := SError | SBody (a : A).
Arguments SError {A}.
Arguments SBody {A}.

Fixpoint decode_all (l : list (Z * string)) : option (list Message) :=
  match l with
  | [] => Some []
  | (i, s) :: l' => d ← decodeFromStorage s; ms ← decode_all l'; Some (mkMessage i d :: ms)
  end.

(** [useDb] is the outcome of [shouldUseDb]; the reply of the service is used
    only when it is false.  A stored string that cannot be read fails the call
    to the database, and throws with the service. *)
Definition retrieve (useDb : bool) (service : ServiceReply (option bool * option Z * option (list (Z * string))))
    (now : Z) (uid deviceId : string) (limit : nat) (index : option Z) (b : Box) : Retrieved + BoxError :=
  if negb enabled then inr BFeatureNotEnabled
  else if useDb then
    let p := db_retrieve now uid deviceId limit index b in
    match decode_all ((fun r => (r.(idx), r.(data))) <$> p.(p_messages)) with
    | Some ms => inl (mkRetrieved (Some p.(p_last)) (Some p.(p_index)) (Some ms))
    | None => inr BUnexpected
    end
  else
    match service with
    | SError => inr BBackendFailure
    | SBody (l, i, None) => inl (mkRetrieved l i None)
    | SBody (l, i, Some raw) =>
        match decode_all raw with Some ms => inl (mkRetrieved l i (Some ms)) | None => inr BThrown end
    end.

Definition store (useDb : bool) (service : ServiceReply Z) (now : Z) (uid deviceId : string) (d : D) (t : option Z) (b : Box)
    : Box * (Z + BoxError) :=
  if negb enabled then (b, inr BFeatureNotEnabled)
  else
    let t := clamp_ttl t in
    if useDb then let '(b', r) := db_store uid deviceId (encodeForStorage d) (seconds_up now + t) b in (b', inl r.(idx))
    else match service with SError => (b, inr BBackendFailure) | SBody i => (b, inl i) end.

(** Nothing is deleted at the service. *)
Definition deleteDevice (useDb : bool) (uid deviceId : string) (b : Box) : Box * option BoxError :=
  if negb enabled then (b, Some BFeatureNotEnabled) else (if useDb then db_deleteDevice uid deviceId b else b, None).

Definition deleteAccount (useDb : bool) (uid : string) (b : Box) : Box * option BoxError :=
  if negb enabled then (b, Some BFeatureNotEnabled) else (if useDb then db_deleteAccount uid b else b, None).
End Api.

Arguments SError {A}.
Arguments SBody {A}.
Arguments mkMessage {D}.
Arguments mkRetrieved {D}.

(** ** The invariant of the table *)

(** Indices count up from one, below the counter. *)
Record box_ok (b : Box) : Prop := {
  bo_sorted : StronglySorted Z.lt (idx <$> b.(rows));
  bo_range r : r ∈ b.(rows) -> 0 < r.(idx) < b.(next_idx);
  bo_next : 0 < b.(next_idx) }.

Lemma empty_box_ok : box_ok empty_box.
Proof. split; cbn; [constructor|by intros r ?%elem_of_nil|lia]. Qed.

Lemma filterb_rows_ok p b : box_ok b -> box_ok (mkBox (filterb p b.(rows)) b.(next_idx)).
Proof.
  intros [S R N]. split; cbn; [|intros r [Hr _]%elem_of_filterb; auto|done].
  apply StronglySorted_fmap, StronglySorted_filterb. exact (proj1 (StronglySorted_fmap _ _ _) S).
Qed.

Lemma db_store_ok uid dev d t b : box_ok b -> box_ok (db_store uid dev d t b).1.
Proof.
  intros [S R N]. split; cbn; [|intros r [Hr| ->%list_elem_of_singleton]%elem_of_app; [apply R in Hr; lia|cbn; lia]|lia].
  rewrite fmap_app. apply StronglySorted_app_one; [done|]. intros y (r & -> & Hr)%list_elem_of_fmap. cbn. apply R in Hr. lia.
Qed.

(** ** Reading a queue *)

(** What waits for a device, from an index on. *)
Definition waits (now : Z) (uid deviceId : string) (from : Z) (r : Row) : bool :=
  of_device uid deviceId r && ((now / 1000 <=? r.(ttl)) && (from <=? r.(idx))).

Definition pending (now : Z) (uid deviceId : string) (from : Z) (b : Box) : list Row :=
  filterb (waits now uid deviceId from) b.(rows).

Definition before (r s : Row) : Prop := r.(idx) < s.(idx).

Lemma rows_sorted p b : box_ok b -> StronglySorted before (filterb p b.(rows)).
Proof. intros [S _ _]. apply StronglySorted_filterb. exact (proj1 (StronglySorted_fmap _ _ _) S). Qed.

Lemma retrieve_pending now uid dev limit from b :
  box_ok b -> 0 <= from -> (db_retrieve now uid dev limit (Some from) b).(p_messages) = take limit (pending now uid dev from b).
Proof.
  intros Hb Hf. unfold db_retrieve, pending. cbn [p_messages]. f_equal. rewrite filterb_filterb. apply filterb_ext. intros r Hr.
  apply (bo_range b Hb) in Hr. unfold waits. destruct (Z.eqb_spec from 0) as [->|_]; [|by rewrite andb_comm].
  destruct (Z.leb_spec 0 r.(idx)); [|lia]. by rewrite andb_comm.
Qed.

Lemma last_idx_elem l : l <> [] -> exists r, r ∈ l /\ last_idx l = r.(idx).
Proof.
  intros Hl. unfold last_idx. destruct (last l) as [r|] eqn:E; [|by apply last_None in E]. exists r. split; [|done].
  apply last_Some in E as [l' ->]. apply elem_of_app. right. by left.
Qed.

(** In a sorted list, what comes after a prefix has a greater index. *)
Lemma after_prefix n l :
  StronglySorted before l -> take n l <> [] -> filterb (fun r => last_idx (take n l) + 1 <=? r.(idx)) l = drop n l.
Proof.
  intros Hs Hn. set (k := last_idx _ + 1). rewrite <- (take_drop n l) at 1. rewrite filterb_app.
  rewrite <- (take_drop n l) in Hs. apply StronglySorted_app_inv in Hs as (Hlt & Ht & _).
  rewrite (filterb_none _ (take n l)), filterb_all; [done| |].
  - intros r Hr. apply Z.leb_le. destruct (last_idx_elem (take n l) Hn) as (x & Hx & E). subst k. rewrite E.
    specialize (Hlt x r Hx Hr). unfold before in Hlt. lia.
  - intros r Hr. apply Z.leb_gt. subst k. unfold last_idx. destruct (last (take n l)) as [x|] eqn:E; [|by apply last_None in E].
    apply last_Some in E as [l' E]. rewrite E in Hr, Ht. apply StronglySorted_app_inv in Ht as (Hx & _ & _).
    apply elem_of_app in Hr as [Hr| ->%list_elem_of_singleton]; [|lia]. specialize (Hx r x Hr (list_elem_of_here x [])). unfold before in Hx. lia.
Qed.

Lemma pending_after now uid dev from k b :
  from <= k -> filterb (fun r => k <=? r.(idx)) (pending now uid dev from b) = pending now uid dev k b.
Proof.
  intros Hk. unfold pending. rewrite filterb_filterb. apply filterb_ext. intros r _. unfold waits.
  destruct (of_device uid dev r), (now / 1000 <=? ttl r), (Z.leb_spec from (idx r)), (Z.leb_spec k (idx r)); try done; lia.
Qed.

(** A page that says it is the last one holds all that is left. *)
Lemma last_page now uid dev limit from b :
  box_ok b -> 0 <= from -> (0 < limit)%nat -> (db_retrieve now uid dev limit (Some from) b).(p_last) = true ->
  take limit (pending now uid dev from b) = pending now uid dev from b.
Proof.
  intros Hb Hf Hl Hlast. pose proof (retrieve_pending now uid dev limit from b Hb Hf) as Hm.
  unfold db_retrieve in Hlast, Hm. cbn [p_last p_messages] in *. rewrite Hm in Hlast. clear Hm.
  set (mine := filterb (of_device uid dev) (rows b)) in *. set (P := pending now uid dev from b) in *.
  assert (forall r, r ∈ P -> r ∈ mine) as Hsub.
  { intros r [Hr Hw]%elem_of_filterb. apply elem_of_filterb. split; [done|]. by apply andb_true_iff in Hw as [? _]. }
  destruct (decide (take limit P = [])) as [E|E].
  { destruct P as [|r P']; [done|]. by destruct limit; [lia|]. }
  apply orb_true_iff in Hlast as [Hlast|?%bool_decide_eq_true]; [|done].
  destruct (last_idx_elem (take limit P) E) as (x & Hx & Ex). assert (x ∈ P) as HxP by (eapply elem_of_take in Hx as (? & ? & _); by eapply list_elem_of_lookup_2).
  pose proof (bo_range b Hb x (proj1 (proj1 (elem_of_filterb _ _ _) HxP))) as Hpos.
  apply orb_true_iff in Hlast as [Hlast%Z.eqb_eq|Hlast%Z.eqb_eq].
  2: { exfalso. assert (mine <> []) as Hne. { intros En. apply Hsub in HxP. rewrite En in HxP. by apply not_elem_of_nil in HxP. }
       destruct (last_idx_elem mine Hne) as (y & Hy & Ey). apply elem_of_filterb in Hy as [Hy _]. apply (bo_range b Hb) in Hy. lia. }
  rewrite <- (take_drop limit P) at 2. rewrite <- (after_prefix limit P) by (by apply rows_sorted || done).
  rewrite filterb_none; [by rewrite app_nil_r|]. intros r Hr%Hsub. apply Z.leb_gt. rewrite Hlast.
  pose proof (rows_sorted (of_device uid dev) b Hb) as Hs. fold mine in Hs. clear -Hs Hr. unfold last_idx.
  destruct (last mine) as [y|] eqn:E; [|apply last_None in E; rewrite E in Hr; by apply not_elem_of_nil in Hr].
  apply last_Some in E as [l' E]. rewrite E in Hs, Hr. apply StronglySorted_app_inv in Hs as (Hlt & _ & _).
  apply elem_of_app in Hr as [Hr| ->%list_elem_of_singleton]; [|lia]. specialize (Hlt r y Hr (list_elem_of_here y [])). unfold before in Hlt. lia.
Qed.

(** A device that asks for one page after the other, each from behind the
    last index of the page before, until it is told that it was the last. *)
Fixpoint drain (fuel : nat) (now : Z) (uid deviceId : string) (limit : nat) (from : Z) (b : Box) : option (list Row) :=
  match fuel with
  | O => None
  | S fuel' =>
      let p := db_retrieve now uid deviceId limit (Some from) b in
      if p.(p_last) then Some p.(p_messages)
      else rest ← drain fuel' now uid deviceId limit (p.(p_index) + 1) b; Some (p.(p_messages) ++ rest)%list
  end.

(** [C31] A device that fetches its commands page by page, whatever the size of a
    page, is told after finitely many requests that it has seen the last one,
    and has then received every command that waits for it from its first
    index on, once and in order, and none of another device. *)
Theorem queue_drained fuel now uid dev limit from b :
  box_ok b -> 0 <= from -> (0 < limit)%nat -> (length (pending now uid dev from b) < fuel)%nat ->
  drain fuel now uid dev limit from b = Some (pending now uid dev from b).
Proof.
  intros Hb Hf Hl. revert from Hf. induction fuel as [|fuel IH]; intros from Hf Hfuel; [lia|]. cbn [drain].
  rewrite (retrieve_pending now uid dev limit from b Hb Hf).
  destruct (p_last _) eqn:E; [by rewrite last_page|].
  assert (take limit (pending now uid dev from b) <> []) as Hne.
  { intros En. unfold db_retrieve in E. cbn [p_last] in E. apply orb_false_iff in E as [_ E%bool_decide_eq_false].
    pose proof (retrieve_pending now uid dev limit from b Hb Hf) as Hm. unfold db_retrieve in Hm. cbn [p_messages] in Hm. by rewrite Hm in E. }
  assert ((db_retrieve now uid dev limit (Some from) b).(p_index) = last_idx (take limit (pending now uid dev from b))) as ->.
  { by rewrite <- (retrieve_pending now uid dev limit from b Hb Hf). }
  destruct (last_idx_elem _ Hne) as (x & Hx & Ex). assert (x ∈ pending now uid dev from b) as [_ Hw]%elem_of_filterb.
  { apply elem_of_take in Hx as (? & ? & _). by eapply list_elem_of_lookup_2. }
  apply andb_true_iff in Hw as [_ [_ Hw%Z.leb_le]%andb_true_iff].
  assert (pending now uid dev (last_idx (take limit (pending now uid dev from b)) + 1) b = drop limit (pending now uid dev from b)) as Hd.
  { rewrite <- (pending_after now uid dev from) by lia. by apply after_prefix; [apply rows_sorted|]. }
  rewrite IH; [|lia|].
  - cbn [mbind option_bind]. by rewrite Hd, take_drop.
  - rewrite Hd, length_drop. assert (pending now uid dev from b <> []) as Hp by (intros En; apply Hne; by rewrite En, take_nil).
    destruct (pending now uid dev from b); [done|]. cbn in *. lia.
Qed.

(** ** A stored command *)

(** What happens to the table meanwhile. *)
Inductive BoxEvent := BStore (uid dev d : string) (t : Z) | BDeleteDevice (uid dev : string) | BDeleteAccount (uid : string).

Definition box_step (b : Box) (e : BoxEvent) : Box :=
  match e with
  | BStore uid dev d t => (db_store uid dev d t b).1
  | BDeleteDevice uid dev => db_deleteDevice uid dev b
  | BDeleteAccount uid => db_deleteAccount uid b
  end.

Definition box_run (evs : list BoxEvent) (b : Box) : Box := fold_left box_step evs b.

(** The event leaves the queue of a device alone. *)
Definition spares (uid dev : string) (e : BoxEvent) : Prop :=
  match e with BStore _ _ _ _ => True | BDeleteDevice u d => (u, d) <> (uid, dev) | BDeleteAccount u => u <> uid end.

Lemma box_step_ok b e : box_ok b -> box_ok (box_step b e).
Proof. destruct e; intros; cbn [box_step]; [by apply db_store_ok|by apply filterb_rows_ok..]. Qed.

Lemma box_step_keeps b e r : spares r.(user_id) r.(device_id) e -> r ∈ b.(rows) -> r ∈ (box_step b e).(rows).
Proof.
  destruct e as [u d x t|u d|u]; cbn; intros Hs Hr; [apply elem_of_app; by left| |]; apply elem_of_filterb; (split; [done|]);
    apply negb_true_iff; unfold of_device.
  - destruct (String.eqb_spec (user_id r) u), (String.eqb_spec (device_id r) d); try done. exfalso. apply Hs. congruence.
  - destruct (String.eqb_spec (user_id r) u); [congruence|done].
Qed.

Lemma box_run_keeps evs b r :
  box_ok b -> Forall (spares r.(user_id) r.(device_id)) evs -> r ∈ b.(rows) -> box_ok (box_run evs b) /\ r ∈ (box_run evs b).(rows).
Proof.
  intros Hb Hs. revert b Hb. unfold box_run. induction Hs as [|e evs He Hs IH]; intros b Hb Hr; [done|]. cbn [fold_left].
  apply IH; [by apply box_step_ok|by apply box_step_keeps].
Qed.

(** A row is what a page from its index starts with. *)
Lemma first_of_page now r b :
  box_ok b -> r ∈ b.(rows) -> now / 1000 <= r.(ttl) -> take 1 (pending now r.(user_id) r.(device_id) r.(idx) b) = [r].
Proof.
  intros Hb Hr Ht. pose proof (rows_sorted (waits now (user_id r) (device_id r) (idx r)) b Hb) as Hs. fold (pending now (user_id r) (device_id r) (idx r) b) in Hs.
  assert (r ∈ pending now (user_id r) (device_id r) (idx r) b) as Hin.
  { apply elem_of_filterb. split; [done|]. unfold waits, of_device. rewrite !String.eqb_refl. cbn.
    apply andb_true_iff. split; apply Z.leb_le; lia. }
  destruct (pending now (user_id r) (device_id r) (idx r) b) as [|x l] eqn:E; [by apply not_elem_of_nil in Hin|]. cbn.
  assert (idx r <= idx x) as Hx.
  { assert (x ∈ pending now (user_id r) (device_id r) (idx r) b) as [_ Hw]%elem_of_filterb by (rewrite E; left).
    apply andb_true_iff in Hw as [_ [_ Hw%Z.leb_le]%andb_true_iff]. done. }
  apply elem_of_cons in Hin as [->|Hin]; [done|]. apply StronglySorted_inv in Hs as [_ Hs]. rewrite Forall_forall in Hs.
  specialize (Hs r Hin). unfold before in Hs. lia.
Qed.

Lemma seconds_up_spec ms : ms <= 1000 * seconds_up ms.
Proof. unfold seconds_up. pose proof (Z.mul_div_le (- ms) 1000). lia. Qed.

(** [C16] A command that was stored for a device is what the device gets when it
    asks for one command from the index that was announced to it, at any time
    until the time of the command is over, whatever is stored meanwhile and
    whichever other devices are removed. *)
Theorem command_retrieved {D} (enc : D -> string) (dec : string -> option D) maxTTL_ms svc svc' now now' uid dev d t b b' i evs :
  (forall x, dec (enc x) = Some x) -> box_ok b ->
  store enc true maxTTL_ms true svc now uid dev d t b = (b', inl i) ->
  Forall (spares uid dev) evs -> now' <= now + 1000 * clamp_ttl maxTTL_ms t ->
  exists l, retrieve dec true true svc' now' uid dev 1 (Some i) (box_run evs b') =
    inl (mkRetrieved (Some l) (Some i) (Some [mkMessage i d])).
Proof.
  intros Hdec Hb Hst Hs Ht. unfold store in Hst. cbn in Hst. injection Hst as <- <-.
  set (r := mkRow (next_idx b) uid dev (enc d) (seconds_up now + clamp_ttl maxTTL_ms t)).
  pose proof (db_store_ok uid dev (enc d) (seconds_up now + clamp_ttl maxTTL_ms t) b Hb) as Hb1. cbn [db_store fst] in Hb1. fold r in Hb1.
  destruct (box_run_keeps evs (mkBox (rows b ++ [r])%list (next_idx b + 1)) r Hb1) as [Hb2 Hr]; [done|apply elem_of_app; right; by left|].
  assert (take 1 (pending now' uid dev (next_idx b) (box_run evs (mkBox (rows b ++ [r])%list (next_idx b + 1)))) = [r]) as Hp.
  { apply (first_of_page now' r); [done..|]. cbn. pose proof (seconds_up_spec now).
    apply Z.le_trans with ((1000 * (seconds_up now + clamp_ttl maxTTL_ms t)) / 1000); [apply Z.div_le_mono; lia|].
    rewrite Z.mul_comm, Z.div_mul; lia. }
  pose proof (bo_next b Hb) as Hn.
  rewrite <- (retrieve_pending now' uid dev 1 (next_idx b)) in Hp by (done || lia).
  unfold retrieve. cbn [negb]. rewrite Hp. cbn. rewrite Hdec. cbn.
  exists ((db_retrieve now' uid dev 1 (Some (next_idx b)) (box_run evs (mkBox (rows b ++ [r])%list (next_idx b + 1)))).(p_last)).
  f_equal. f_equal. f_equal. unfold db_retrieve in Hp |- *. cbn [p_index p_messages] in *. by rewrite Hp.
Qed.

(** Three commands for two devices, the first one expired by now. *)
Definition some_box : Box :=
  box_run [BStore "u" "d1" "a" 5; BStore "u" "d1" "b" 90; BStore "u" "d2" "c" 90; BStore "u" "d1" "d" 90; BStore "u" "d1" "e" 90] empty_box.

Lemma some_box_ok : box_ok some_box.
Proof. unfold some_box, box_run. cbn [fold_left]. repeat apply box_step_ok. apply empty_box_ok. Qed.

Lemma queue_drained_witness :
  drain 9 10000 "u" "d1" 2 0 some_box = Some (pending 10000 "u" "d1" 0 some_box) /\
  (data <$> pending 10000 "u" "d1" 0 some_box) = ["b"; "d"; "e"].
Proof.
  split; [|by vm_compute]. apply queue_drained; [apply some_box_ok|lia|lia|]. apply Nat.ltb_lt. by vm_compute.
Defined.

Lemma command_retrieved_witness :
  exists l, retrieve (D := string) Some true true SError 60000 "u" "d1" 1 (Some 6)
    (box_run [BStore "u" "d1" "x" 99; BDeleteDevice "u" "d2"] (store (D := string) id true 2592000000 true SError 1500 "u" "d1" "tab" (Some 60) some_box).1) =
    inl (mkRetrieved (Some l) (Some 6) (Some [mkMessage 6 "tab"])).
Proof.
  eapply (command_retrieved (D := string) id Some 2592000000 SError SError 1500 60000 "u" "d1" "tab" (Some 60) some_box).
  - done.
  - apply some_box_ok.
  - by vm_compute.
  - repeat constructor. cbn. congruence.
  - by vm_compute.
Defined.
