(* ===== verification/Devices.v ===== *)
(** * The devices of an account
      (packages/fxa-shared/db/models/auth/device.ts and db/transformers.ts with their
       stored procedures, the device functions of packages/fxa-auth-server/lib/db/index.js,
       lib/routes/auth-schemes/refresh-token.js and lib/tokens/session_token.js)

    The tables that hold devices, the commands they offer and the sessions they
    belong to, and what the server reads from them. *)

From Stdlib Require Import Ascii.
From S2P Require Import Prelude Text Records Sorting ConnectedServices.

#[local] Open Scope string_scope.
#[local] Open Scope Z_scope.

(** ** The tables *)

(** A row of [devices]. *)
Record DevRow := mkDevRow {
  w_session : option string; w_refresh : option string; w_name : option string; w_type : option string; w_createdAt : Z;
  w_callback : option string; w_publicKey : option string; w_authKey : option string; w_expired : bool }.

(** A row of [sessionTokens], and whether [unverifiedTokens] has one for it. *)
Record SessRow := mkSess { x_uid : string; x_createdAt : Z; x_lastAccess : Z; x_ua : UA; x_unverified : bool }.

(** Devices and their commands by account and id; redis by account. *)
Record Store := mkStore {
  devices : gmap (string * string) DevRow;
  deviceCommands : gmap (string * string) (gmap string string);
  sessionTokens : gmap string SessRow;
  redis : gmap string (gmap string CachedSession) }.

Definition on_devices f (st : Store) : Store := mkStore (f st.(devices)) st.(deviceCommands) st.(sessionTokens) st.(redis).
Definition on_commands f (st : Store) : Store := mkStore st.(devices) (f st.(deviceCommands)) st.(sessionTokens) st.(redis).

(** What a caller says of a device. *)
Record DeviceInfo := mkInfo {
  i_id : option string; i_session : option string; i_refresh : option string; i_name : option string; i_type : option string;
  i_callback : option string; i_publicKey : option string; i_authKey : option string; i_expired : option bool;
  i_commands : option (gmap string string); i_createdAt : option Z; i_ua : UA }.

Inductive DbError := UnknownDevice | UnknownAccount | DeviceSessionConflict (deviceId : option string) | InvalidToken.

(** What MySQL reports. *)
Inductive SqlError := DupEntry | NotFound.

(** ** The stored procedures *)

Definition shares (a b : option string) : bool := match a, b with Some x, Some y => String.eqb x y | _, _ => false end.

(** Another device of the account has the session or the refresh token. *)
Definition clashes (uid id : string) (session refresh : option string) (st : Store) : bool :=
  existsb (fun kv : string * string * DevRow =>
             String.eqb kv.1.1 uid && negb (String.eqb kv.1.2 id) && (shares kv.2.(w_session) session || shares kv.2.(w_refresh) refresh))
    (map_to_list st.(devices)).

(** createDevice_5 *)
Definition createDevice_5 (uid id : string) (r : DevRow) (st : Store) : Store + SqlError :=
  if bool_decide (is_Some (st.(devices) !! (uid, id))) || clashes uid id r.(w_session) r.(w_refresh) st then inr DupEntry
  else inl (on_devices <[(uid, id) := r]> st).

Definition coalesce {A} (new old : option A) : option A := match new with Some x => Some x | None => old end.

(** updateDevice_6 *)
Definition updateDevice_6 (uid id : string) (session refresh name type callback publicKey authKey : option string) (expired : option bool)
    (st : Store) : Store + SqlError :=
  match st.(devices) !! (uid, id) with
  | None => inr NotFound
  | Some r =>
      let r' := mkDevRow (coalesce session r.(w_session)) (coalesce refresh r.(w_refresh)) (coalesce name r.(w_name))
        (coalesce type r.(w_type)) r.(w_createdAt) (coalesce callback r.(w_callback)) (coalesce publicKey r.(w_publicKey))
        (coalesce authKey r.(w_authKey)) (default r.(w_expired) expired) in
      if clashes uid id r'.(w_session) r'.(w_refresh) st then inr DupEntry else inl (on_devices <[(uid, id) := r']> st)
  end.

(** upsertAvailableCommand_1 for each entry of an object, and
    purgeAvailableCommands_1. *)
Definition upsertAvailableCommands (uid id : string) (m : gmap string string) (st : Store) : Store :=
  on_commands (fun c => if bool_decide (m = ∅) then c else <[(uid, id) := m ∪ default ∅ (c !! (uid, id))]> c) st.

Definition purgeAvailableCommands (uid id : string) (st : Store) : Store := on_commands (delete (uid, id)) st.

(** deleteDevice_4: the tokens of the device that was deleted. *)
Definition deleteDevice_4 (uid id : string) (st : Store) : Store * option (option string * option string) :=
  match st.(devices) !! (uid, id) with
  | None => (st, None)
  | Some r =>
      (mkStore (delete (uid, id) st.(devices)) (delete (uid, id) st.(deviceCommands))
         (match r.(w_session) with Some s => delete s st.(sessionTokens) | None => st.(sessionTokens) end) st.(redis),
       Some (r.(w_session), r.(w_refresh)))
  end.

(** A device with the columns of its session, if that exists. *)
Definition session_of (r : DevRow) (st : Store) : option (string * SessRow) :=
  s ← r.(w_session); x ← st.(sessionTokens) !! s; Some (s, x).

Definition no_ua : UA := mkUA None None None None None None.

Definition joined (id : string) (r : DevRow) (st : Store) : Device :=
  mkDeviceRow id (fst <$> session_of r st) r.(w_refresh) r.(w_name) r.(w_type) (Some r.(w_createdAt)) r.(w_callback) r.(w_publicKey)
    r.(w_authKey) r.(w_expired) ((fun sx => sx.2.(x_lastAccess)) <$> session_of r st)
    (match session_of r st with Some (_, x) => x.(x_ua) | None => no_ua end) ∅.

(** Not a 'zombie': the session exists, or there is a refresh token. *)
Definition visible (r : DevRow) (st : Store) : bool := bool_decide (is_Some (session_of r st)) || bool_decide (is_Some r.(w_refresh)).

Definition commands_of (uid id : string) (st : Store) : gmap string string := default ∅ (st.(deviceCommands) !! (uid, id)).

(** The rows of one device: one for each command, or one without. *)
Definition command_rows (v : Device) (m : gmap string string) : list (Device * option (string * string)) :=
  match map_to_list m with [] => [(v, None)] | l => (fun c => (v, Some c)) <$> l end.

(** The visible devices of an account, in the order of their ids. *)
Definition account_rows (uid : string) (st : Store) : list (string * DevRow) :=
  js_sort (fun a b => compare_strings a.1 b.1)
    (omap (fun kv : string * string * DevRow => if String.eqb kv.1.1 uid && visible kv.2 st then Some (kv.1.2, kv.2) else None)
       (map_to_list st.(devices))).

(** accountDevices_17 and device_3 *)
Definition accountDevices_17 (uid : string) (limit : nat) (st : Store) : list (Device * option (string * string)) :=
  take limit (account_rows uid st ≫= fun ir => command_rows (joined ir.1 ir.2 st) (commands_of uid ir.1 st)).

Definition device_3 (uid id : string) (st : Store) : list (Device * option (string * string)) :=
  match st.(devices) !! (uid, id) with
  | Some r => if visible r st then command_rows (joined id r st) (commands_of uid id st) else []
  | None => []
  end.

(** ** transformers.ts and device.ts *)

Definition with_commands (f : gmap string string -> gmap string string) (v : Device) : Device :=
  mkDeviceRow v.(v_id) v.(v_sessionTokenId) v.(v_refreshTokenId) v.(v_name) v.(v_type) v.(v_createdAt) v.(v_callbackURL)
    v.(v_callbackPublicKey) v.(v_callbackAuthKey) v.(v_callbackIsExpired) v.(v_lastAccessTime) v.(v_ua) (f v.(v_availableCommands)).

(** [aggregateNameValuePairs] over the rows of devices, the last item first:
    an id is never null there. *)
Fixpoint aggregate (items : list Device) (rs : list (Device * option (string * string))) : list Device :=
  match rs with
  | [] => items
  | (v, cmd) :: rs' =>
      let items := match items with
                   | cur :: _ => if String.eqb v.(v_id) cur.(v_id) then items else with_commands (fun _ => ∅) v :: items
                   | [] => [with_commands (fun _ => ∅) v]
                   end in
      let put := match cmd with Some (n, d) => if str_truthy n then <[n := d]> else id | None => id end in
      aggregate (match items with cur :: l => with_commands put cur :: l | [] => [] end) rs'
  end.

Definition fromRows (rs : list (Device * option (string * string))) : list Device := reverse (aggregate [] rs).

Definition findByUid (uid : string) (st : Store) : list Device := fromRows (accountDevices_17 uid 500 st).
Definition findByPrimaryKey (uid id : string) (st : Store) : option Device := head (fromRows (device_3 uid id st)).

(** [intBoolTransformer.to] of a value that may be undefined *)
Definition int_bool (b : option bool) : bool := default false b.

(** A string that is not empty, or null. *)
Definition truthy (s : option string) : option string := when_truthy s (fun x => x).

(** [Device.create] and [Device.update]: one transaction each. *)
Definition Device_create (uid id : string) (createdAt : Z) (i : DeviceInfo) (st : Store) : Store + SqlError :=
  match createDevice_5 uid id (mkDevRow (truthy i.(i_session)) (truthy i.(i_refresh)) i.(i_name) i.(i_type) createdAt
                                 i.(i_callback) i.(i_publicKey) i.(i_authKey) false) st with
  | inl st' => inl (match i.(i_commands) with Some m => upsertAvailableCommands uid id m st' | None => st' end)
  | inr e => inr e
  end.

Definition Device_update (uid : string) (i : DeviceInfo) (st : Store) : Store + SqlError :=
  match i.(i_id) with
  | None => inr NotFound
  | Some id =>
      match updateDevice_6 uid id (truthy i.(i_session)) (truthy i.(i_refresh)) i.(i_name) i.(i_type) i.(i_callback)
              i.(i_publicKey) i.(i_authKey) (Some (int_bool i.(i_expired))) st with
      | inl st' =>
          inl (match i.(i_commands) with Some m => upsertAvailableCommands uid id m (purgeAvailableCommands uid id st') | None => st' end)
      | inr e => inr e
      end
  end.

(** ** lib/db/index.js *)

Section Db.
(** [features.isLastAccessTimeEnabledForUser] *)
Context (lastAccessTimeEnabled : string -> bool).

Definition db_devices (uid : string) (st : Store) : list AttachedDevice + DbError :=
  if str_truthy uid then
    inl (mergeDevicesAndSessionTokens (findByUid uid st) (default ∅ (st.(redis) !! uid)) (lastAccessTimeEnabled uid))
  else inr UnknownAccount.

Definition db_device (uid deviceId : string) (st : Store) : AttachedDevice + DbError :=
  match findByPrimaryKey uid deviceId st with
  | None => inr UnknownDevice
  | Some v =>
      inl (mergeDeviceAndSessionToken v (v.(v_sessionTokenId) ≫= fun s => default ∅ (st.(redis) !! uid) !! s) (lastAccessTimeEnabled uid))
  end.

(** The loop over the devices when a row exists already: is the id taken, and
    which device has one of the tokens. *)
Definition find_conflict (id : string) (session refresh : option string) (ds : list AttachedDevice) : bool * option string :=
  fold_left
    (fun '(taken, c) d =>
       if taken || String.eqb d.(d_id) id then (true, c)
       else if (ostr_truthy session && shares d.(d_sessionTokenId) session) || (ostr_truthy refresh && shares d.(d_refreshTokenId) refresh)
            then (false, Some d.(d_id)) else (false, c))
    ds (false, None).

(** [createDevice]: [ids] are the ids that [random.hex(16)] draws; [None] when
    they do not suffice. *)
Fixpoint createDevice (ids : list string) (now : Z) (uid : string) (i : DeviceInfo) (st : Store) : option (Store * (DeviceInfo + DbError)) :=
  match ids with
  | [] => None
  | id :: ids' =>
      match Device_create uid id now i st with
      | inl st' =>
          Some (st', inl (mkInfo (Some id) i.(i_session) i.(i_refresh) i.(i_name) i.(i_type) i.(i_callback) i.(i_publicKey) i.(i_authKey)
                           (Some false) i.(i_commands) (Some now) i.(i_ua)))
      | inr _ =>
          match db_devices uid st with
          | inr e => Some (st, inr e)
          | inl ds =>
              let '(dup, c) := find_conflict id i.(i_session) i.(i_refresh) ds in
              if dup then createDevice ids' now uid i st else Some (st, inr (DeviceSessionConflict c))
          end
      end
  end.

Definition updateDevice (uid : string) (i : DeviceInfo) (st : Store) : Store * (DeviceInfo + DbError) :=
  match Device_update uid i st with
  | inl st' => (st', inl i)
  | inr NotFound => (st, inr UnknownDevice)
  | inr DupEntry =>
      match db_devices uid st with
      | inr e => (st, inr e)
      | inl ds => (st, inr (DeviceSessionConflict (d_id <$> head (filterb (fun d => shares d.(d_sessionTokenId) i.(i_session)) ds))))
      end
  end.

(** [deleteSessionTokenFromRedis] *)
Definition deleteSessionTokenFromRedis (uid : string) (s : option string) (st : Store) : Store :=
  match s with
  | Some s => mkStore st.(devices) st.(deviceCommands) st.(sessionTokens) (alter (delete s) uid st.(redis))
  | None => st
  end.

Definition deleteDevice (uid id : string) (st : Store) : Store * ((option string * option string) + DbError) :=
  match deleteDevice_4 uid id st with
  | (st', Some (s, r)) => (deleteSessionTokenFromRedis uid s st', inl (s, r))
  | (st', None) => (st', inr UnknownDevice)
  end.

(** deleteSessionToken_4: with the device of the session and its commands. *)
Definition deleteSessionToken (uid id : string) (st : Store) : Store :=
  let st := deleteSessionTokenFromRedis uid (Some id) st in
  match st.(sessionTokens) !! id with
  | None => st
  | Some x =>
      let doomed (k : string * string) (r : DevRow) := String.eqb k.1 x.(x_uid) && shares r.(w_session) (Some id) in
      mkStore (filter (fun kv : string * string * DevRow => doomed kv.1 kv.2 = false) st.(devices))
        (filter (fun kv : string * string * gmap string string =>
                   match st.(devices) !! kv.1 with Some r => doomed kv.1 r | None => false end = false) st.(deviceCommands))
        (delete id st.(sessionTokens)) st.(redis)
  end.

(** [sessionToken]: a session of 28 days is gone unless it has a device. *)
Definition device_of_session (uid id : string) (st : Store) : option (string * DevRow) :=
  (fun kv : string * string * DevRow => (kv.1.2, kv.2)) <$>
    head (filterb (fun kv : string * string * DevRow => String.eqb kv.1.1 uid && shares kv.2.(w_session) (Some id)) (map_to_list st.(devices))).

Definition notExpired (now : Z) (x : SessRow) (device : option (string * DevRow)) : bool :=
  bool_decide (is_Some device) || (x.(x_createdAt) >? now - 2419200000).

(** sessions_12, with the device of each session: in the order of the ids, one
    row for each command of the device. *)
Definition sessions_12 (uid : string) (limit : nat) (st : Store) : list SessionRecord :=
  let rows := js_sort (fun a b => compare_strings a.1 b.1)
                (filterb (fun kv : string * SessRow => String.eqb kv.2.(x_uid) uid) (map_to_list st.(sessionTokens))) in
  take limit (rows ≫= fun kv =>
    let device := device_of_session uid kv.1 st in
    let r := mkSessionRecord kv.1 kv.2.(x_createdAt) (fst <$> device) kv.2.(x_lastAccess) kv.2.(x_ua) in
    match device with
    | Some (id, _) => match map_to_list (commands_of uid id st) with [] => [r] | l => (fun _ => r) <$> l end
    | None => [r]
    end).

(** [aggregateNameValuePairs] by the id of the device: a session without one
    is an item of its own. *)
Fixpoint aggregate_sessions (items : list SessionRecord) (rs : list SessionRecord) : list SessionRecord :=
  match rs with
  | [] => items
  | r :: rs' =>
      aggregate_sessions
        (match items with
         | cur :: _ => if shares r.(r_deviceId) cur.(r_deviceId) then items else r :: items
         | [] => [r]
         end) rs'
  end.

(** [SessionToken.findByUid] *)
Definition sessions_findByUid (now : Z) (uid : string) (st : Store) : list SessionRecord :=
  filterb (fun r => ostr_truthy r.(r_deviceId) || (r.(r_createdAt) >? now - 2419200000)) (reverse (aggregate_sessions [] (sessions_12 uid 500 st))).

(** [pruneSessionTokens] *)
Definition pruneSessionTokens (pruning : bool) (maxAge now : Z) (uid : string) (expired : list SessionRecord) (st : Store) : Store :=
  if pruning && lastAccessTimeEnabled uid then
    fold_left (fun st r => deleteSessionTokenFromRedis uid (Some r.(r_tokenId)) st)
      (filterb (fun r => r.(r_createdAt) <=? now - maxAge) expired) st
  else st.

(** [sessions]: redis is read while the expired tokens may be pruned from it,
    which concerns none of the sessions that are kept. *)
Definition db_sessions (MAX_AGE_WITHOUT_DEVICE : Z) (pruning : bool) (maxAge now : Z) (uid : string) (st : Store)
    : Store * list AttachedSession :=
  let '(kept, expired) := filterExpiredTokens MAX_AGE_WITHOUT_DEVICE now (sessions_findByUid now uid st) in
  (pruneSessionTokens pruning maxAge now uid expired st,
   mergeCachedSessionTokens kept (default ∅ (st.(redis) !! uid)) (lastAccessTimeEnabled uid)).

(** ** The credentials of a request *)

(** The names of the properties are those that the routes read. *)
Record Cred := mkCred {
  k_uid : string; k_id : option string; k_refreshTokenId : option string; k_client : option string; k_tokenVerified : bool;
  k_deviceId : option string; k_deviceName : option string; k_deviceType : option string;
  k_deviceCallbackURL : option string; k_deviceCallbackPublicKey : option string; k_deviceCallbackAuthKey : option string;
  k_deviceCallbackIsExpired : bool; k_deviceAvailableCommands : option (gmap string string); k_ua : UA }.

(** [DB.sessionToken] and the constructor of [SessionToken]: [setDeviceInfo]
    takes id, name, type and time of the device, and stores what it calls
    [callbackURL] and so on, which the query returns as [deviceCallbackURL];
    the commands are not copied. *)
Definition session_credentials (now : Z) (id : string) (st : Store) : Cred + DbError :=
  match st.(sessionTokens) !! id with
  | None => inr InvalidToken
  | Some x =>
      let device := device_of_session x.(x_uid) id st in
      if notExpired now x device then
        inl (mkCred x.(x_uid) (Some id) None None (negb x.(x_unverified)) (fst <$> device) (device ≫= fun d => d.2.(w_name))
               (device ≫= fun d => d.2.(w_type)) None None None false None x.(x_ua))
      else inr InvalidToken
  end.

(** The refresh token scheme, for a token of a public client with the scope of
    sync: the devices of the list have [pushCallback] and so on, and no
    [callbackURL]. *)
Definition refresh_credentials (uid refreshTokenId client : string) (st : Store) : Cred + DbError :=
  match db_devices uid st with
  | inr e => inr e
  | inl ds =>
      let device := head (filterb (fun d => shares d.(d_refreshTokenId) (Some refreshTokenId)) ds) in
      inl (mkCred uid None (Some refreshTokenId) (Some client) true (d_id <$> device) (device ≫= d_name) (device ≫= d_type)
             None None None false (d_availableCommands <$> device) no_ua)
  end.
End Db.
