(* ===== verification/Push.v ===== *)
(** * Push notifications (packages/fxa-auth-server/lib/push.js)

    Sending a notification to devices, and what a failure does to the record
    of the device. *)

From Stdlib Require Import Ascii.
From S2P Require Import Prelude Text Records ConnectedServices Devices.

#[local] Open Scope string_scope.
#[local] Open Scope Z_scope.

(** ** Messages *)

(** What a notification carries; [PClient] is what a client of the API sends,
    its command first. *)
Inductive Payload :=
  | PCommandReceived (command : string) (index : Z) (sender : option string) (url : string)
  | PDeviceConnected (deviceName : string)
  | PDeviceDisconnected (id : string)
  | PProfileUpdated
  | PPasswordChanged
  | PPasswordReset
  | PAccountDestroyed (uid : string)
  | PLoginRequest (data : string)
  | PClient (command : option string) (data : string).

(** [PUSH_COMMANDS] *)
Definition command_of (p : Payload) : option string :=
  match p with
  | PCommandReceived _ _ _ _ => Some "fxaccounts:command_received"
  | PDeviceConnected _ => Some "fxaccounts:device_connected"
  | PDeviceDisconnected _ => Some "fxaccounts:device_disconnected"
  | PProfileUpdated => Some "fxaccounts:profile_updated"
  | PPasswordChanged => Some "fxaccounts:password_changed"
  | PPasswordReset => Some "fxaccounts:password_reset"
  | PAccountDestroyed _ => Some "fxaccounts:account_destroyed"
  | PLoginRequest _ => Some "fxaccounts:verify_login"
  | PClient c _ => c
  end.

Definition PUSH_REASONS : list string :=
  ["accountVerify"; "accountConfirm"; "passwordReset"; "passwordChange"; "deviceConnected"; "deviceDisconnected"; "profileUpdated";
   "devicesNotify"; "accountDestroyed"; "commandReceived"; "verifyLogin"].

Definition TTL_DEVICE_DISCONNECTED : Z := 5 * 3600.
Definition TTL_PASSWORD_CHANGED : Z := 6 * 3600.
Definition TTL_PASSWORD_RESET : Z := TTL_PASSWORD_CHANGED.
Definition TTL_ACCOUNT_DESTROYED : Z := TTL_DEVICE_DISCONNECTED.
Definition TTL_COMMAND_RECEIVED : Z := TTL_PASSWORD_CHANGED.

Inductive PushError := NoCallback | NoKeys | ExpiredCallback | ResetCallback | UnknownPush.

#[export] Instance PushError_eq : EqDecision PushError.
Proof. solve_decision. Defined.

(** [errCode] *)
Definition errCode (e : PushError) : string :=
  match e with
  | NoCallback => "noCallback" | NoKeys => "noKeys" | ExpiredCallback => "expiredCallback" | ResetCallback => "resetCallback"
  | UnknownPush => "unknown"
  end.

(** A notification as it is handed to the push service. *)
Record Sent := mkSent { n_endpoint : string; n_keys : option (string * string); n_payload : option Payload; n_TTL : Z }.

(** What the push service says: an error may have a status. *)
Inductive Outcome := Delivered | Failed (statusCode : option Z).

(** ** Which devices *)

Definition canSendToIOS (command : option string) : bool :=
  match command with
  | Some c => String.eqb c "fxaccounts:command_received" || String.eqb c "fxaccounts:device_connected" || String.eqb c "fxaccounts:device_disconnected"
  | None => false
  end.

Definition supported (payload : option Payload) (d : AttachedDevice) : bool :=
  let command := truthy (payload ≫= command_of) in
  negb (bool_decide (toLowerCase <$> d.(d_ua).(uaOS) = Some "ios") && negb (canSendToIOS command)).

Definition filterSupportedDevices (payload : option Payload) (ds : list AttachedDevice) : list AttachedDevice :=
  filterb (supported payload) ds.

(** ** Sending *)

Section Push.
Context (lastAccessTimeEnabled : string -> bool).
(** What [webpush.sendNotification] answers to the notification sent for a
    device during this request, and the test of a key. *)
Context (sendNotification : string -> Sent -> Outcome) (isValidPublicKey : string -> bool).

(** What the record of a device says to [updateDevice]. *)
Definition info_of (d : AttachedDevice) : DeviceInfo :=
  mkInfo (Some d.(d_id)) d.(d_sessionTokenId) d.(d_refreshTokenId) d.(d_name) d.(d_type) d.(d_pushCallback) d.(d_pushPublicKey)
    d.(d_pushAuthKey) (Some d.(d_pushEndpointExpired)) (Some d.(d_availableCommands)) d.(d_createdAt) d.(d_ua).

Definition expire (d : AttachedDevice) : AttachedDevice :=
  mkDevice d.(d_id) d.(d_sessionTokenId) d.(d_refreshTokenId) d.(d_name) d.(d_type) d.(d_createdAt) d.(d_lastAccessTime) d.(d_location)
    d.(d_ua) d.(d_pushCallback) d.(d_pushPublicKey) d.(d_pushAuthKey) true d.(d_availableCommands).

(** What is sent to a device, or why nothing can be. *)
Definition prepare (payload : option Payload) (TTL : option Z) (d : AttachedDevice) : Sent + PushError :=
  match truthy d.(d_pushCallback) with
  | None => inr NoCallback
  | Some endpoint =>
      if d.(d_pushEndpointExpired) then inr ExpiredCallback
      else match payload with
           | None => inl (mkSent endpoint None None (or0 TTL))
           | Some p =>
               match truthy d.(d_pushPublicKey), truthy d.(d_pushAuthKey) with
               | Some k, Some a => inl (mkSent endpoint (Some (k, a)) (Some p) (or0 TTL))
               | _, _ => inr NoKeys
               end
           end
  end.

(** The endpoint has to be reset: the service says so, or the key is bad. *)
Definition needs_reset (d : AttachedDevice) (statusCode : option Z) : bool :=
  match statusCode with
  | Some s => (s =? 404) || (s =? 410) || ((s =? 0) && match truthy d.(d_pushPublicKey) with Some k => negb (isValidPublicKey k) | None => false end)
  | None => match truthy d.(d_pushPublicKey) with Some k => negb (isValidPublicKey k) | None => false end
  end.

(** One device: the store, what was sent and the error. *)
Definition send_one (uid : string) (payload : option Payload) (TTL : option Z) (d : AttachedDevice) (st : Store)
    : Store * option Sent * option PushError :=
  match prepare payload TTL d with
  | inr e => (st, None, Some e)
  | inl n =>
      match sendNotification d.(d_id) n with
      | Delivered => (st, Some n, None)
      | Failed s =>
          if needs_reset d s then ((updateDevice lastAccessTimeEnabled uid (info_of (expire d)) st).1, Some n, Some ResetCallback)
          else (st, Some n, Some UnknownPush)
      end
  end.

(** The loop: the store, what was sent, and [sendErrors]. *)
Definition send_next (uid : string) (payload : option Payload) (TTL : option Z) (acc : Store * list Sent * jsobj PushError) (d : AttachedDevice)
    : Store * list Sent * jsobj PushError :=
  let '(st, ns, es) := acc in
  let '(st', n, e) := send_one uid payload TTL d st in
  (st', match n with Some n => (ns ++ [n])%list | None => ns end, match e with Some e => obj_set es d.(d_id) e | None => es end).

Definition send_all (uid : string) (payload : option Payload) (TTL : option Z) (ds : list AttachedDevice) (st : Store)
    : Store * list Sent * jsobj PushError :=
  fold_left (send_next uid payload TTL) ds (st, [], []).

(** [sendPush]: [None] is the throw for a reason that is not known. *)
Definition sendPush (uid : string) (ds : list AttachedDevice) (reason : string) (payload : option Payload) (TTL : option Z) (st : Store)
    : Store * list Sent * option (jsobj PushError) :=
  let ds := filterSupportedDevices payload ds in
  if bool_decide (reason ∈ PUSH_REASONS) then
    let '(st', ns, es) := send_all uid payload TTL ds st in (st', ns, Some es)
  else (st, [], None).

(** ** The notifications *)

Definition notifyCommandReceived (uid : string) (d : AttachedDevice) (command : string) (sender : option string) (index : Z) (url : string)
    (ttl : option Z) (st : Store) : Store * list Sent * option PushError :=
  let '(st', ns, es) := sendPush uid [d] "commandReceived" (Some (PCommandReceived command index sender url))
                          (Some (default TTL_COMMAND_RECEIVED ttl)) st in
  (st', ns, es ≫= fun es => obj_get es d.(d_id)).

Definition notifyDeviceConnected uid ds deviceName := sendPush uid ds "deviceConnected" (Some (PDeviceConnected deviceName)) None.
Definition notifyDeviceDisconnected uid ds id :=
  sendPush uid ds "deviceDisconnected" (Some (PDeviceDisconnected id)) (Some TTL_DEVICE_DISCONNECTED).
Definition notifyProfileUpdated uid ds := sendPush uid ds "profileUpdated" (Some PProfileUpdated) None.
Definition notifyPasswordChanged uid ds := sendPush uid ds "passwordChange" (Some PPasswordChanged) (Some TTL_PASSWORD_CHANGED).
Definition notifyPasswordReset uid ds := sendPush uid ds "passwordReset" (Some PPasswordReset) (Some TTL_PASSWORD_RESET).
Definition notifyAccountUpdated uid ds reason := sendPush uid ds reason None None.
Definition notifyAccountDestroyed uid ds := sendPush uid ds "accountDestroyed" (Some (PAccountDestroyed uid)) (Some TTL_ACCOUNT_DESTROYED).
Definition notifyVerifyLoginRequest uid ds data := sendPush uid ds "verifyLogin" (Some (PLoginRequest data)) None.
End Push.
