(* ===== verification/DeviceRoutes.v ===== *)
(** * Devices and attached clients
      (packages/fxa-auth-server/lib/devices.js, lib/routes/devices-and-sessions.js and
       lib/routes/attached-clients.js)

    The handlers that register, update, notify and remove devices, and the one
    that disconnects anything from an account.  What a handler starts without
    waiting for it is a task of the world, which is run at some later time. *)

From Stdlib Require Import Ascii.
From S2P Require Import Prelude Text Records Store Server CustomsClient Sorting ConnectedServices AuthorizedClients Devices Push.
From S2P Require OAuthStore PushBox.

#[local] Open Scope string_scope.
#[local] Open Scope Z_scope.

(** ** The world *)

Inductive Task :=
  | TNotifyConnected (uid deviceId deviceName : string)
  | TClearQueue (uid deviceId : string).

(** Metrics events, and what the attached services are told. *)
Inductive DevEvent :=
  | EUpdated (uid : string) (id : option string) (placeholder : bool)
  | ECreated (uid : string) (id : option string) (placeholder : bool)
  | EServiceCreate (uid : string) (id type : option string) (createdAt : option Z) (placeholder : bool)
  | EDeleted (uid id : string)
  | EServiceDelete (uid id : string) (timestamp : Z).

Record DWorld (M : Type) := mkDW {
  dw_customs : State (M := M); dw_store : Devices.Store; dw_oauth : OAuthStore.DB; dw_box : PushBox.Box;
  dw_tasks : list Task; dw_sent : list Sent; dw_events : list DevEvent }.
Arguments mkDW {M}.
Arguments dw_customs {M}.
Arguments dw_store {M}.
Arguments dw_oauth {M}.
Arguments dw_box {M}.
Arguments dw_tasks {M}.
Arguments dw_sent {M}.
Arguments dw_events {M}.

Inductive DevErr :=
  | DDb (e : DbError)
  | DFeatureNotEnabled
  | DInvalidParameter (what : string)
  | DUnavailableCommand
  | DCustoms (v : Verdict)
  | DBox (e : PushBox.BoxError)
  | DOAuth (errno : Z)
  | DThrown.

Definition Do (M A : Type) : Type := DWorld M -> DWorld M * (A + DevErr).

Section Monad.
Context {M : Type}.

Definition dret {A} (x : A) : Do M A := fun w => (w, inl x).
Definition dthrow {A} (e : DevErr) : Do M A := fun w => (w, inr e).
Definition dbind {A B} (m : Do M A) (k : A -> Do M B) : Do M B :=
  fun w => match m w with (w, inl x) => k x w | (w, inr e) => (w, inr e) end.

Definition with_store (st : Devices.Store) (w : DWorld M) : DWorld M :=
  mkDW w.(dw_customs) st w.(dw_oauth) w.(dw_box) w.(dw_tasks) w.(dw_sent) w.(dw_events).
Definition with_oauth (d : OAuthStore.DB) (w : DWorld M) : DWorld M :=
  mkDW w.(dw_customs) w.(dw_store) d w.(dw_box) w.(dw_tasks) w.(dw_sent) w.(dw_events).
Definition with_box (b : PushBox.Box) (w : DWorld M) : DWorld M :=
  mkDW w.(dw_customs) w.(dw_store) w.(dw_oauth) b w.(dw_tasks) w.(dw_sent) w.(dw_events).

(** Reading the store, and writing it. *)
Definition dget {A} (f : Devices.Store -> A + DbError) : Do M A :=
  fun w => (w, match f w.(dw_store) with inl x => inl x | inr e => inr (DDb e) end).
Definition dput {A} (f : Devices.Store -> Devices.Store * (A + DbError)) : Do M A :=
  fun w => let '(st, r) := f w.(dw_store) in (with_store st w, match r with inl x => inl x | inr e => inr (DDb e) end).
Definition dmodify (f : Devices.Store -> Devices.Store) : Do M unit := fun w => (with_store (f w.(dw_store)) w, inl tt).
Definition demit (e : DevEvent) : Do M unit :=
  fun w => (mkDW w.(dw_customs) w.(dw_store) w.(dw_oauth) w.(dw_box) w.(dw_tasks) w.(dw_sent) (w.(dw_events) ++ [e])%list, inl tt).
Definition dspawn (t : Task) : Do M unit :=
  fun w => (mkDW w.(dw_customs) w.(dw_store) w.(dw_oauth) w.(dw_box) (w.(dw_tasks) ++ [t])%list w.(dw_sent) w.(dw_events), inl tt).

(** A push: what it does to the store, and what was sent. *)
Definition dpush {A} (f : Devices.Store -> Devices.Store * list Sent * A) : Do M A :=
  fun w => let '(st, ns, r) := f w.(dw_store) in
           (mkDW w.(dw_customs) st w.(dw_oauth) w.(dw_box) w.(dw_tasks) (w.(dw_sent) ++ ns)%list w.(dw_events), inl r).
End Monad.

Notation "x <~ m ;; k" := (dbind m (fun x => k)) (at level 100, m at next level, right associativity).
Notation "m ;;~ k" := (dbind m (fun _ => k)) (at level 100, right associativity).

(** ** devices.js *)

Definition isLike (object archetype : gmap string string) : bool :=
  bool_decide (map_Forall (fun k v => object !! k = Some v) archetype).

Definition differs (payload token : option string) : bool := match truthy payload with Some x => negb (bool_decide (token = Some x)) | None => false end.

Definition isSpuriousUpdate (payload : DeviceInfo) (token : Cred) : bool :=
  if negb (ostr_truthy token.(k_deviceId)) || negb (bool_decide (payload.(i_id) = token.(k_deviceId))) then false
  else if differs payload.(i_name) token.(k_deviceName) then false
  else if differs payload.(i_type) token.(k_deviceType) then false
  else if differs payload.(i_callback) token.(k_deviceCallbackURL) then false
  else if differs payload.(i_publicKey) token.(k_deviceCallbackPublicKey) then false
  else match payload.(i_commands) with
       | None => true
       | Some m =>
           match token.(k_deviceAvailableCommands) with
           | None => false
           | Some m' => isLike m' m && isLike m m'
           end
       end.

Section Routes.
Context {M : Type} `{Memcached M StoredObject} (env : Env).
Context (lastAccessTimeEnabled : string -> bool).
Context (sendNotification : string -> Sent -> Outcome) (isValidPublicKey : string -> bool).
(** The settings of the OAuth database. *)
Context (href_of : string -> option string) (limit_r maxttl_r updateAfter : Z).

(** [ids] are the ids that would be drawn for a new device. *)
Definition upsert (ids : list string) (now : Z) (c : Cred) (i : DeviceInfo) : Do M DeviceInfo :=
  let create := negb (ostr_truthy i.(i_id)) in
  let name := if create && negb (ostr_truthy i.(i_name)) then Some (default "" (truthy c.(k_client))) else i.(i_name) in
  let info := mkInfo i.(i_id) c.(k_id) c.(k_refreshTokenId) name i.(i_type) i.(i_callback) i.(i_publicKey) i.(i_authKey) i.(i_expired)
                i.(i_commands) i.(i_createdAt) i.(i_ua) in
  let placeholder := create && negb (ostr_truthy name) && negb (ostr_truthy i.(i_type)) in
  result <~ (if create then
               fun w => match createDevice lastAccessTimeEnabled ids now c.(k_uid) info w.(dw_store) with
                        | Some (st, inl r) => (with_store st w, inl r)
                        | Some (st, inr e) => (with_store st w, inr (DDb e))
                        | None => (w, inr DThrown)
                        end
             else dput (updateDevice lastAccessTimeEnabled c.(k_uid) info)) ;;
  demit (if create then ECreated c.(k_uid) result.(i_id) placeholder else EUpdated c.(k_uid) result.(i_id) placeholder) ;;~
  (if create then
     let deviceName := match truthy result.(i_name) with
                       | Some n => n
                       | None => match truthy c.(k_client) with Some n => n | None => synthesizeClientName i.(i_ua) end
                       end in
     (if c.(k_tokenVerified) then dspawn (TNotifyConnected c.(k_uid) (default "" result.(i_id)) deviceName) else dret tt) ;;~
     demit (EServiceCreate c.(k_uid) result.(i_id) result.(i_type) result.(i_createdAt) placeholder)
   else dret tt) ;;~
  dret (mkInfo result.(i_id) None None result.(i_name) result.(i_type) result.(i_callback) result.(i_publicKey) result.(i_authKey)
          result.(i_expired) result.(i_commands) result.(i_createdAt) result.(i_ua)).

(** [oauthDB.getRefreshToken] and [removeRefreshToken]: an error, or a token
    that is gone, does not fail the request. *)
Definition revoke_refresh (now : Z) (id : string) (w : DWorld M) : DWorld M :=
  match OAuthStore.getRefreshToken href_of limit_r maxttl_r updateAfter now id w.(dw_oauth) with
  | (d, Some (Some t)) => with_oauth (OAuthStore.removeRefreshToken t.(OAuthStore.rt_user) t.(OAuthStore.rt_id) d) w
  | (d, _) => with_oauth d w
  end.

(** The tokens of the device that was removed. *)
Definition destroy (now : Z) (uid deviceId : string) : Do M (option string * option string) :=
  peers <~ dget (db_devices lastAccessTimeEnabled uid) ;;
  deleted <~ dput (deleteDevice uid deviceId) ;;
  (fun w => (match truthy deleted.2 with Some r => revoke_refresh now r w | None => w end, inl tt)) ;;~
  dspawn (TClearQueue uid deviceId) ;;~
  dpush (notifyDeviceDisconnected lastAccessTimeEnabled sendNotification isValidPublicKey uid peers deviceId) ;;~
  demit (EDeleted uid deviceId) ;;~
  demit (EServiceDelete uid deviceId now) ;;~
  dret deleted.

(** ** Tasks *)

Section Tasks.
Context (boxEnabled : bool).

(** [useDb] as in [shouldUseDb]. *)
Definition run_task (useDb : bool) (t : Task) : Do M unit :=
  match t with
  | TNotifyConnected uid id name =>
      ds <~ dget (db_devices lastAccessTimeEnabled uid) ;;
      dpush (notifyDeviceConnected lastAccessTimeEnabled sendNotification isValidPublicKey uid
               (filterb (fun d => negb (String.eqb d.(d_id) id)) ds) name) ;;~
      dret tt
  | TClearQueue uid id => fun w => (with_box (PushBox.deleteDevice boxEnabled useDb uid id w.(dw_box)).1 w, inl tt)
  end.
End Tasks.

(** ** devices-and-sessions.js *)

(** The settings of these routes. *)
Record DevConfig := mkDevConfig {
  deviceUpdatesEnabled : bool; pushboxEnabled : bool; pushboxMaxTTL : Z; deviceCommandsEnabled : bool; deviceNotificationsEnabled : bool;
  publicUrl : string }.
Context (config : DevConfig).

Record DeviceResponse := mkResponse {
  rs_id : option string; rs_name : string; rs_type : string; rs_pushCallback : option string; rs_pushPublicKey : option string;
  rs_pushAuthKey : option string; rs_pushEndpointExpired : bool; rs_availableCommands : gmap string string }.

Definition first_truthy (l : list (option string)) (d : string) : string := default d (head (omap truthy l)).

Definition buildDeviceResponse (c : Cred) (d : DeviceInfo) : DeviceResponse :=
  mkResponse (match truthy d.(i_id) with Some i => Some i | None => c.(k_deviceId) end)
    (first_truthy [d.(i_name); c.(k_deviceName)] (synthesizeClientName c.(k_ua)))
    (first_truthy [d.(i_type); c.(k_deviceType)] (if bool_decide (is_Some c.(k_client)) then "mobile" else "desktop"))
    (coalesce d.(i_callback) c.(k_deviceCallbackURL)) (coalesce d.(i_publicKey) c.(k_deviceCallbackPublicKey))
    (coalesce d.(i_authKey) c.(k_deviceCallbackAuthKey)) (default c.(k_deviceCallbackIsExpired) d.(i_expired))
    (match d.(i_commands) with Some m => m | None => default ∅ c.(k_deviceAvailableCommands) end).

Definition no_info : DeviceInfo := mkInfo None None None None None None None None None None None no_ua.

(** POST /account/device *)
Definition account_device (ids : list string) (now : Z) (c : Cred) (p : DeviceInfo) : Do M DeviceResponse :=
  match truthy p.(i_publicKey) with
  | Some k => if isValidPublicKey k then dret tt else dthrow (DInvalidParameter "invalid pushPublicKey")
  | None => dret tt
  end ;;~
  if ostr_truthy p.(i_id) && isSpuriousUpdate p c then dret (buildDeviceResponse c no_info)
  else
    (if ostr_truthy p.(i_id) && negb config.(deviceUpdatesEnabled) then dthrow DFeatureNotEnabled else dret tt) ;;~
    let id := if ostr_truthy p.(i_id) then p.(i_id) else if ostr_truthy c.(k_deviceId) then c.(k_deviceId) else p.(i_id) in
    let pushEndpointOk := negb (ostr_truthy id) || differs p.(i_callback) c.(k_deviceCallbackURL) in
    let commands := match p.(i_commands) with Some m => Some (if config.(pushboxEnabled) then m else ∅) | None => None end in
    device <~ upsert ids now c (mkInfo id p.(i_session) p.(i_refresh) p.(i_name) p.(i_type) p.(i_callback) p.(i_publicKey) p.(i_authKey)
                                 (if pushEndpointOk then Some false else p.(i_expired)) commands p.(i_createdAt) p.(i_ua)) ;;
    dret (buildDeviceResponse c device).

(** A command, as it is stored. *)
Record Command := mkCommand { cm_command : string; cm_payload : string; cm_sender : option string }.
Context (encodeForStorage : Command -> string) (decodeFromStorage : string -> option Command).

(** GET /account/device/commands: a token without a device, or a reply without
    messages, throws. *)
Definition device_commands (useDb : bool) (service : PushBox.ServiceReply (option bool * option Z * option (list (Z * string))))
    (now : Z) (c : Cred) (limit : nat) (index : option Z) : Do M (PushBox.Retrieved (D := Command)) :=
  (if negb config.(deviceCommandsEnabled) && ostr_truthy c.(k_refreshTokenId) then dthrow DFeatureNotEnabled else dret tt) ;;~
  fun w =>
    match c.(k_deviceId) with
    | None => (w, inr (DBox (if config.(pushboxEnabled) then PushBox.BUnexpected else PushBox.BFeatureNotEnabled)))
    | Some deviceId =>
        match PushBox.retrieve decodeFromStorage config.(pushboxEnabled) useDb service now c.(k_uid) deviceId limit index w.(dw_box) with
        | inr e => (w, inr (DBox e))
        | inl r => (w, match r.(PushBox.r_messages) with Some _ => inl r | None => inr DThrown end)
        end
    end.

Definition checkAuthenticated (uid action : string) (req : Request) : Do M unit :=
  fun w => let '(s, (_, v)) := client_checkAuthenticated env uid action req w.(dw_customs) in
           (mkDW s w.(dw_store) w.(dw_oauth) w.(dw_box) w.(dw_tasks) w.(dw_sent) w.(dw_events),
            match v with Pass => inl tt | v => inr (DCustoms v) end).

(** [hasOwnProperty] is looked up on the object itself: a command of this name
    hides it, and the call throws. *)
Definition has_command (m : gmap string string) (command : string) : option bool :=
  match m !! "hasOwnProperty" with Some _ => None | None => Some (bool_decide (is_Some (m !! command))) end.

Definition DEFAULT_COMMAND_TTL (command : string) : option Z :=
  if String.eqb command "https://identity.mozilla.com/cmd/open-uri" then Some (30 * 24 * 3600) else None.

(** [new URL('v1/account/device/commands', config.publicUrl)] with its query *)
Context (command_url : string -> Z -> string).

Record Invoked := mkInvoked { iv_notified : bool; iv_notifyError : option string }.

(** POST /account/devices/invoke_command *)
Definition invoke_command (useDb : bool) (service : PushBox.ServiceReply Z) (now : Z) (c : Cred) (req : Request)
    (target command payload : string) (ttl : option Z) : Do M Invoked :=
  (if negb config.(deviceCommandsEnabled) && ostr_truthy c.(k_refreshTokenId) then dthrow DFeatureNotEnabled else dret tt) ;;~
  checkAuthenticated c.(k_uid) "invokeDeviceCommand" req ;;~
  targetDevice <~ dget (db_device lastAccessTimeEnabled c.(k_uid) target) ;;
  match has_command targetDevice.(d_availableCommands) command with
  | None => dthrow DThrown
  | Some false => dthrow DUnavailableCommand
  | Some true =>
      let ttl := match ttl with Some t => Some t | None => DEFAULT_COMMAND_TTL command end in
      index <~ (fun w =>
        let '(b, r) := PushBox.store encodeForStorage config.(pushboxEnabled) config.(pushboxMaxTTL) useDb service now c.(k_uid)
                         targetDevice.(d_id) (mkCommand command payload c.(k_deviceId)) ttl w.(dw_box) in
        (with_box b w, match r with inl i => inl i | inr e => inr (DBox e) end)) ;;
      notifyError <~ dpush (notifyCommandReceived lastAccessTimeEnabled sendNotification isValidPublicKey c.(k_uid) targetDevice command
                              c.(k_deviceId) index (command_url config.(publicUrl) index) ttl) ;;
      dret (mkInvoked (negb (bool_decide (is_Some notifyError))) (errCode <$> notifyError))
  end.

(** Whom POST /account/devices/notify is for. *)
Inductive Recipients := ToAll (excluded : option (list string)) | ToSome (ids : list string).

Definition recipients (r : Recipients) (ds : list AttachedDevice) : list AttachedDevice :=
  match r with
  | ToSome ids => filterb (fun d => bool_decide (d.(d_id) ∈ ids)) ds
  | ToAll (Some excluded) => filterb (fun d => negb (bool_decide (d.(d_id) ∈ excluded))) ds
  | ToAll None => ds
  end.

(** The schema of payloads; the payload of a client is the text of an object. *)
Context (validatePushPayloadAjv : option string * string -> bool).

Definition validatePushPayload (payload : option string * string) (endpoint : string) : bool :=
  if String.eqb endpoint "accountVerify" then String.eqb payload.2 "{}" else validatePushPayloadAjv payload.

(** POST /account/devices/notify: a failure to send is not one of the request. *)
Definition devices_notify (c : Cred) (req : Request) (to : Recipients) (accountVerify : bool) (payload : option string * string)
    (TTL : option Z) : Do M unit :=
  (if config.(deviceNotificationsEnabled) then dret tt else dthrow DFeatureNotEnabled) ;;~
  let endpointAction := if accountVerify then "accountVerify" else "devicesNotify" in
  (if validatePushPayload payload endpointAction then dret tt else dthrow (DInvalidParameter "invalid payload")) ;;~
  checkAuthenticated c.(k_uid) endpointAction req ;;~
  ds <~ dget (db_devices lastAccessTimeEnabled c.(k_uid)) ;;
  let ds := recipients to ds in
  match ds with
  | [] => dret tt
  | _ => dpush (sendPush lastAccessTimeEnabled sendNotification isValidPublicKey c.(k_uid) ds endpointAction
                  (Some (PClient payload.1 payload.2)) TTL) ;;~ dret tt
  end.

(** POST /account/device/destroy *)
Definition device_destroy (now : Z) (c : Cred) (id : string) : Do M unit := destroy now c.(k_uid) id ;;~ dret tt.

(** GET /account/devices: an entry before its times and place are formatted. *)
Record ListedDevice := mkListed {
  l_id : string; l_isCurrentDevice : bool; l_lastAccessTime : option Z; l_location : option Location; l_name : string; l_type : string;
  l_pushCallback : option string; l_pushPublicKey : option string; l_pushAuthKey : option string; l_pushEndpointExpired : bool;
  l_availableCommands : gmap string string }.

Definition listed (c : Cred) (lastUsedAt : gmap string Z) (d : AttachedDevice) : ListedDevice :=
  mkListed d.(d_id)
    ((ostr_truthy c.(k_id) && shares c.(k_id) d.(d_sessionTokenId)) ||
     (ostr_truthy c.(k_refreshTokenId) && shares c.(k_refreshTokenId) d.(d_refreshTokenId)))
    (match d.(d_refreshTokenId) ≫= fun r => lastUsedAt !! r with
     | Some t => Some (Z.max (or0 d.(d_lastAccessTime)) t)
     | None => d.(d_lastAccessTime)
     end)
    d.(d_location) (first_truthy [d.(d_name)] (synthesizeClientName d.(d_ua)))
    (first_truthy [d.(d_type); d.(d_ua).(uaDeviceType)] (if ostr_truthy d.(d_refreshTokenId) then "mobile" else "desktop"))
    d.(d_pushCallback) d.(d_pushPublicKey) d.(d_pushAuthKey) d.(d_pushEndpointExpired) d.(d_availableCommands).

(** The refresh tokens are asked for only when a device has one. *)
Definition account_devices (now : Z) (c : Cred) (filterIdle : option Z) : Do M (list ListedDevice) :=
  (if negb config.(deviceCommandsEnabled) && ostr_truthy c.(k_refreshTokenId) then dthrow DFeatureNotEnabled else dret tt) ;;~
  ds <~ dget (db_devices lastAccessTimeEnabled c.(k_uid)) ;;
  tokens <~ (fun w =>
    if existsb (fun d => ostr_truthy d.(d_refreshTokenId)) ds then
      match OAuthStore.getRefreshTokensByUid href_of now c.(k_uid) w.(dw_oauth) with
      | (o, Some ts) => (with_oauth o w, inl (list_to_map ((fun t => (t.(OAuthStore.rt_id), t.(OAuthStore.rt_lastUsedAt))) <$> ts) : gmap string Z))
      | (o, None) => (with_oauth o w, inr DThrown)
      end
    else (w, inl ∅)) ;;
  let l := listed c tokens <$> ds in
  dret (match filterIdle with
        | Some t => if t =? 0 then l else filterb (fun d => or0 d.(l_lastAccessTime) >? t) l
        | None => l
        end).

(** ** attached-clients.js *)

(** [OauthError.unknownToken().errno] and [error.ERRNO.REFRESH_TOKEN_UNKNOWN] *)
Definition errno_unknownToken : Z := 122.
Definition REFRESH_TOKEN_UNKNOWN : Z := 182.

(** POST /account/attached_client/destroy: an OAuth client is its id. *)
Definition attached_client_destroy (now : Z) (c : Cred) (clientId sessionTokenId refreshTokenId deviceId : option string) : Do M unit :=
  match truthy deviceId with
  | Some dev =>
      gone <~ destroy now c.(k_uid) dev ;;
      (if ostr_truthy sessionTokenId && negb (bool_decide (gone.1 = sessionTokenId))
       then dthrow (DInvalidParameter "sessionTokenId did not match device record") else dret tt) ;;~
      (if ostr_truthy refreshTokenId && negb (bool_decide (gone.2 = refreshTokenId))
       then dthrow (DInvalidParameter "refreshTokenId did not match device record") else dret tt)
  | None =>
      match truthy refreshTokenId with
      | Some r =>
          if ostr_truthy sessionTokenId then dthrow (DInvalidParameter "sessionTokenId cannot be present for non-device OAuth client")
          else fun w =>
            let '(o, ok) := OAuthStore.deleteClientRefreshToken now r (default "" clientId) c.(k_uid) w.(dw_oauth) in
            (with_oauth o w, if ok then inl tt else if errno_unknownToken =? REFRESH_TOKEN_UNKNOWN then inl tt else inr (DOAuth errno_unknownToken))
      | None =>
          match truthy clientId with
          | Some cl =>
              if ostr_truthy sessionTokenId then dthrow (DInvalidParameter "sessionTokenId cannot be present for non-device OAuth client")
              else fun w => (with_oauth (OAuthStore.deleteClientAuthorization now cl c.(k_uid) w.(dw_oauth)) w, inl tt)
          | None =>
              match truthy sessionTokenId with
              | None => dret tt
              | Some s =>
                  if bool_decide (c.(k_id) = Some s) then dmodify (deleteSessionToken c.(k_uid) s)
                  else
                    t <~ dget (session_credentials now s) ;;
                    if String.eqb t.(k_uid) c.(k_uid) then dmodify (deleteSessionToken c.(k_uid) s)
                    else dthrow (DInvalidParameter "sessionTokenId")
              end
          end
      end
  end.
End Routes.
