(* ===== verification/DeviceLaws.v ===== *)
(** * Theorems on the tables of devices

    What a list of devices shows, the constraints of the tables and that every
    operation keeps them, and what an update does. *)

From S2P Require Import Prelude Text Records Sorting ConnectedServices Devices Push.

#[local] Open Scope string_scope.
#[local] Open Scope Z_scope.

(** ** The constraints of the tables *)

(** No two devices of an account have one value. *)
Definition unique (f : DevRow -> option string) (m : gmap (string * string) DevRow) : Prop :=
  forall uid i j r q x, m !! (uid, i) = Some r -> m !! (uid, j) = Some q -> f r = Some x -> f q = Some x -> i = j.

(** A session and a refresh token belong to one device of an account, and only
    devices that exist have commands. *)
Record store_ok (st : Store) : Prop := {
  so_session : unique w_session st.(devices);
  so_refresh : unique w_refresh st.(devices);
  so_commands k m : st.(deviceCommands) !! k = Some m -> is_Some (st.(devices) !! k) }.

Lemma shares_true a b : shares a b = true <-> exists x, a = Some x /\ b = Some x.
Proof.
  unfold shares. destruct a as [x|], b as [y|]; [rewrite String.eqb_eq|..]; naive_solver.
Qed.

Lemma clashes_spec uid id s t st :
  clashes uid id s t st = false <->
  forall j q, st.(devices) !! (uid, j) = Some q -> j <> id ->
    (forall x, q.(w_session) = Some x -> s <> Some x) /\ (forall x, q.(w_refresh) = Some x -> t <> Some x).
Proof.
  unfold clashes. split.
  - intros Hc j q Hj Hne. apply not_true_iff_false in Hc.
    assert (shares (w_session q) s || shares (w_refresh q) t = false) as [H1 H2]%orb_false_iff.
    { apply not_true_iff_false. intros Hs. apply Hc, existsb_exists. exists ((uid, j), q).
      split; [by apply list_elem_of_In, elem_of_map_to_list|]. cbn. rewrite String.eqb_refl, Hs.
      destruct (String.eqb_spec j id); [done|done]. }
    apply not_true_iff_false in H1, H2. split; intros x Hx ->; [apply H1|apply H2]; apply shares_true; eauto.
  - intros Hn. apply not_true_iff_false. intros ([[u j] q] & Hin & Hb)%existsb_exists. cbn in Hb.
    apply list_elem_of_In, elem_of_map_to_list in Hin.
    apply andb_true_iff in Hb as [[Hu%String.eqb_eq Hj%negb_true_iff]%andb_true_iff Hs]. apply String.eqb_neq in Hj. subst u.
    destruct (Hn j q Hin Hj) as [H1 H2].
    apply orb_true_iff in Hs as [(x & ? & ?)%shares_true|(x & ? & ?)%shares_true]; [by eapply H1|by eapply H2].
Qed.

Lemma unique_insert f m uid id r :
  unique f m -> (forall j q, m !! (uid, j) = Some q -> j <> id -> forall x, f q = Some x -> f r <> Some x) ->
  unique f (<[(uid, id) := r]> m).
Proof.
  intros Hu Hc u i j p q x Hi Hj Hp Hq. destruct (decide ((u, j) = (uid, id))) as [Ej|Hj'], (decide ((u, i) = (uid, id))) as [Ei|Hi'].
  - congruence.
  - injection Ej as -> ->. rewrite lookup_insert_eq in Hj. rewrite lookup_insert_ne in Hi by done. injection Hj as <-.
    destruct (Hc i p Hi) with x; [congruence|done..].
  - injection Ei as -> ->. rewrite lookup_insert_eq in Hi. rewrite lookup_insert_ne in Hj by done. injection Hi as <-.
    destruct (Hc j q Hj) with x; [congruence|done..].
  - rewrite lookup_insert_ne in Hi, Hj by done. by eapply (Hu u).
Qed.

Lemma unique_weaken f m m' : unique f m -> m' ⊆ m -> unique f m'.
Proof. intros Hu Hs u i j p q x Hi Hj. eapply (Hu u); by eapply lookup_weaken. Qed.

(** Writing a row that clashes with no other. *)
Lemma write_ok uid id r st :
  store_ok st -> clashes uid id r.(w_session) r.(w_refresh) st = false -> store_ok (on_devices <[(uid, id) := r]> st).
Proof.
  intros [S R C] Hc. rewrite clashes_spec in Hc. split; cbn [on_devices devices deviceCommands].
  - apply unique_insert; [done|]. intros j q Hj Hne. exact (proj1 (Hc j q Hj Hne)).
  - apply unique_insert; [done|]. intros j q Hj Hne. exact (proj2 (Hc j q Hj Hne)).
  - intros k m Hk%C. destruct (decide (k = (uid, id))) as [->|Hne]; [by rewrite lookup_insert_eq|]. by rewrite lookup_insert_ne.
Qed.

Lemma commands_ok uid id m st : store_ok st -> is_Some (st.(devices) !! (uid, id)) -> store_ok (upsertAvailableCommands uid id m st).
Proof.
  intros [S R C] Hd. split; cbn; [done..|]. intros k m' Hk. case_bool_decide; [by eapply C|].
  apply lookup_insert_Some in Hk as [[<- _]|[_ Hk]]; [done|by eapply C].
Qed.

Lemma purge_ok uid id st : store_ok st -> store_ok (purgeAvailableCommands uid id st).
Proof. intros [S R C]. split; cbn; [done..|]. intros k m [_ Hk]%lookup_delete_Some. by eapply C. Qed.

(** Keeping a part of the rows, with the commands of those that stay. *)
Lemma shrink_ok st st' :
  store_ok st -> st'.(devices) ⊆ st.(devices) ->
  (forall k m, st'.(deviceCommands) !! k = Some m -> is_Some (st'.(devices) !! k)) -> store_ok st'.
Proof.
  intros [S R C] Hsub Hc. split; [by eapply unique_weaken..|done].
Qed.

Lemma redis_ok uid s st : store_ok st -> store_ok (deleteSessionTokenFromRedis uid s st).
Proof. intros [S R C]. by destruct s. Qed.

Section Keep.
Context (enabled : string -> bool).

Lemma Device_create_ok uid id now i st st' : store_ok st -> Device_create uid id now i st = inl st' -> store_ok st'.
Proof.
  intros Hok. unfold Device_create, createDevice_5. destruct (_ || _) eqn:E; [done|]. apply orb_false_iff in E as [_ E].
  intros [= <-]. pose proof (write_ok uid id _ st Hok E) as H1. destruct (i_commands i); [|done].
  apply commands_ok; [done|]. cbn. by rewrite lookup_insert_eq.
Qed.

Lemma Device_update_ok uid i st st' : store_ok st -> Device_update uid i st = inl st' -> store_ok st'.
Proof.
  intros Hok. unfold Device_update, updateDevice_6. destruct (i_id i) as [id|]; [|done].
  destruct (devices st !! (uid, id)) as [r|] eqn:Er; [|done]. cbn zeta. destruct (clashes _ _ _ _ _) eqn:E; [done|]. intros [= <-].
  pose proof (write_ok uid id _ st Hok E) as H1. destruct (i_commands i); [|done]. apply commands_ok; [by apply purge_ok|].
  cbn. by rewrite lookup_insert_eq.
Qed.

Lemma updateDevice_ok uid i st : store_ok st -> store_ok (updateDevice enabled uid i st).1.
Proof.
  intros Hok. unfold updateDevice. destruct (Device_update uid i st) as [st'|[]] eqn:E; [by eapply Device_update_ok| |done].
  by destruct (db_devices enabled uid st).
Qed.

Lemma createDevice_ok ids now uid i st st' r : store_ok st -> createDevice enabled ids now uid i st = Some (st', r) -> store_ok st'.
Proof.
  intros Hok. induction ids as [|id ids IH]; [done|]. cbn [createDevice]. destruct (Device_create uid id now i st) as [st1|e] eqn:E.
  - intros [= <- <-]. by eapply Device_create_ok.
  - destruct (db_devices enabled uid st) as [ds|]; [|by intros [= <- <-]]. destruct (find_conflict _ _ _ _) as [[] c]; [done|by intros [= <- <-]].
Qed.

Lemma deleteDevice_ok uid id st : store_ok st -> store_ok (deleteDevice uid id st).1.
Proof.
  intros Hok. unfold deleteDevice, deleteDevice_4. destruct (devices st !! (uid, id)) as [r|] eqn:E; [|done]. cbn [fst].
  apply redis_ok, (shrink_ok st); [done|apply delete_subseteq|]. cbn. intros k m [Hne Hk]%lookup_delete_Some.
  rewrite lookup_delete_ne by done. by eapply so_commands.
Qed.

Lemma deleteSessionToken_ok uid id st : store_ok st -> store_ok (deleteSessionToken uid id st).
Proof.
  intros Hok. unfold deleteSessionToken. pose proof (redis_ok uid (Some id) st Hok) as H1.
  destruct (sessionTokens _ !! id) as [x|]; [|done]. apply (shrink_ok (deleteSessionTokenFromRedis uid (Some id) st)); [done|apply map_filter_subseteq|].
  cbn. intros k m [Hk Hf]%map_lookup_filter_Some. cbn in Hf. destruct (so_commands _ Hok k m Hk) as [r Hr]. rewrite Hr in Hf.
  exists r. by apply map_lookup_filter_Some.
Qed.
End Keep.

(** ** What a list of devices shows *)

(** A device with its session and all its commands. *)
Definition full_view (uid : string) (st : Store) (ir : string * DevRow) : Device :=
  with_commands (fun _ => commands_of uid ir.1 st) (joined ir.1 ir.2 st).

Lemma fold_insert_map (m : gmap string string) : fold_left (fun acc (c : string * string) => <[c.1 := c.2]> acc) (map_to_list m) ∅ = m.
Proof.
  rewrite <- (fold_left_rev_right (fun (c : string * string) acc => <[c.1 := c.2]> acc)).
  rewrite <- (list_to_map_to_list m) at 2. rewrite (list_to_map_proper (map_to_list m) (rev (map_to_list m))).
  - induction (rev (map_to_list m)) as [|[n d] l IH]; [done|]. cbn. by rewrite <- IH.
  - apply NoDup_fst_map_to_list.
  - apply Permutation_rev.
Qed.

(** The commands of one device are gathered in its item. *)
Lemma aggregate_more items v m0 l rs :
  (forall c, c ∈ l -> str_truthy c.1 = true) ->
  aggregate (with_commands (fun _ => m0) v :: items) (((fun c => (v, Some c)) <$> l) ++ rs) =
  aggregate (with_commands (fun _ => fold_left (fun acc (c : string * string) => <[c.1 := c.2]> acc) l m0) v :: items) rs.
Proof.
  revert m0. induction l as [|[n d] l IH]; intros m0 Hl; [done|]. cbn [fmap list_fmap app aggregate with_commands v_id].
  rewrite String.eqb_refl. assert (str_truthy n = true) as -> by (apply (Hl (n, d)); left). cbn [fold_left]. rewrite <- IH; [done|]. intros c Hc. apply Hl. by right.
Qed.

Lemma aggregate_device items v m rs :
  (forall cur l, items = cur :: l -> cur.(v_id) <> v.(v_id)) -> (forall n, is_Some (m !! n) -> str_truthy n = true) ->
  aggregate items (command_rows v m ++ rs) = aggregate (with_commands (fun _ => m) v :: items) rs.
Proof.
  intros Hne Hm.
  assert (match items with
          | cur :: _ => if String.eqb v.(v_id) cur.(v_id) then items else with_commands (fun _ => ∅) v :: items
          | [] => [with_commands (fun _ => ∅) v]
          end = with_commands (fun _ => ∅) v :: items) as Hnew.
  { destruct items as [|cur l]; [done|]. destruct (String.eqb_spec (v_id v) (v_id cur)) as [E|]; [|done]. by destruct (Hne cur l). }
  assert (forall c, c ∈ map_to_list m -> str_truthy c.1 = true) as Hl.
  { intros [n d] Hc%elem_of_map_to_list. apply Hm. by exists d. }
  unfold command_rows. pose proof (fold_insert_map m) as Hf. destruct (map_to_list m) as [|[n d] l].
  - cbn in Hf. cbn [app aggregate]. rewrite Hnew. by rewrite <- Hf.
  - cbn [fmap list_fmap app aggregate]. rewrite Hnew. assert (str_truthy n = true) as -> by (apply (Hl (n, d)); left).
    change (with_commands <[n:=d]> (with_commands (fun _ => ∅) v)) with (with_commands (fun _ => <[n := d]> (∅ : gmap string string)) v).
    rewrite aggregate_more; [by rewrite <- Hf|]. intros c Hc. apply Hl. by right.
Qed.

Lemma aggregate_devices uid st l items :
  NoDup l.*1 -> (forall cur k, items = cur :: k -> cur.(v_id) ∉ l.*1) ->
  (forall i n, i ∈ l.*1 -> is_Some (commands_of uid i st !! n) -> str_truthy n = true) ->
  aggregate items (l ≫= fun ir => command_rows (joined ir.1 ir.2 st) (commands_of uid ir.1 st)) = (reverse (full_view uid st <$> l) ++ items)%list.
Proof.
  revert items. induction l as [|[i r] l IH]; intros items Hn Hit Hm; [done|]. apply NoDup_cons in Hn as [Hi Hn].
  cbn [mbind list_bind]. rewrite aggregate_device.
  - rewrite IH; [|done| |].
    + rewrite fmap_cons, reverse_cons, <- app_assoc. done.
    + intros cur k [= <- _]. done.
    + intros j n Hj. apply Hm. by right.
  - intros cur k Hc E. apply (Hit cur k Hc). cbn in E. rewrite E. by left.
  - intros n. apply Hm. by left.
Qed.

Lemma account_rows_elem uid st i r : (i, r) ∈ account_rows uid st <-> st.(devices) !! (uid, i) = Some r /\ visible r st = true.
Proof.
  unfold account_rows. rewrite js_sort_perm, list_elem_of_omap. split.
  - intros ([[u j] q] & Hin%elem_of_map_to_list & Hc). cbn in Hc. destruct (String.eqb_spec u uid) as [->|]; [|done]. cbn in Hc.
    destruct (visible q st) eqn:Hv; [|done]. by injection Hc as -> ->.
  - intros [Hd Hv]. exists ((uid, i), r). split; [by apply elem_of_map_to_list|]. cbn. by rewrite String.eqb_refl, Hv.
Qed.

Lemma account_rows_nodup uid st : NoDup (account_rows uid st).*1.
Proof.
  unfold account_rows. rewrite js_sort_perm. pose proof (NoDup_fst_map_to_list st.(devices)) as Hn.
  induction (map_to_list st.(devices)) as [|[[u j] q] l IH]; [constructor|]. rewrite fmap_cons in Hn. apply NoDup_cons in Hn as [Hk Hn].
  cbn [omap list_omap]. cbn [fst snd]. destruct (String.eqb_spec u uid) as [->|]; cbn [andb]; [|by apply IH].
  destruct (visible q st); [|by apply IH]. rewrite fmap_cons. apply NoDup_cons. split; [|by apply IH].
  intros ([j' q'] & E & Hin)%list_elem_of_fmap. cbn in E. subst j'. apply list_elem_of_omap in Hin as ([[u' j'] p] & Hin & Hc).
  cbn in Hc. destruct (String.eqb_spec u' uid) as [->|]; [|done]. cbn in Hc. destruct (visible p st); [|done]. injection Hc as -> ->.
  apply Hk, list_elem_of_fmap. by exists ((uid, j), q').
Qed.

(** The names of commands are not empty. *)
Definition named (st : Store) : Prop := forall k m n, st.(deviceCommands) !! k = Some m -> is_Some (m !! n) -> str_truthy n = true.

Lemma named_commands uid i n st : named st -> is_Some (commands_of uid i st !! n) -> str_truthy n = true.
Proof.
  intros Hn. unfold commands_of. destruct (deviceCommands st !! (uid, i)) as [m|] eqn:E; cbn; [by eapply Hn|]. rewrite lookup_empty. by intros [].
Qed.

Definition row_count (uid : string) (st : Store) : nat :=
  length (account_rows uid st ≫= fun ir => command_rows (joined ir.1 ir.2 st) (commands_of uid ir.1 st)).

Lemma findByUid_views uid st : named st -> (row_count uid st <= 500)%nat -> findByUid uid st = full_view uid st <$> account_rows uid st.
Proof.
  intros Hn Hc. unfold findByUid, fromRows, accountDevices_17. rewrite take_ge by done. rewrite aggregate_devices.
  - by rewrite app_nil_r, reverse_involutive.
  - apply account_rows_nodup.
  - done.
  - intros i n _. by apply named_commands.
Qed.

(** Listing the devices of an account puts together again what was stored
    apart: when the joined rows stay within the limit of the query, the list
    has every device whose session exists or that has a refresh token, once
    and in the order of the ids, with the columns of its session and exactly
    its commands. *)
Theorem device_list_exact uid st :
  named st -> (row_count uid st <= 500)%nat ->
  findByUid uid st = full_view uid st <$> account_rows uid st /\
  StronglySorted (cmp_le compare_strings) (account_rows uid st).*1 /\ NoDup (account_rows uid st).*1 /\
  forall i r, (i, r) ∈ account_rows uid st <-> st.(devices) !! (uid, i) = Some r /\ visible r st = true.
Proof.
  intros Hn Hc. split; [|split; [|split; [apply account_rows_nodup|apply account_rows_elem]]].
  - by apply findByUid_views.
  - destruct (consistent_le (fun a b : string * DevRow => compare_strings a.1 b.1)) as [Ht Htr].
    { apply (consistent_on fst), compare_strings_consistent. }
    by apply StronglySorted_fmap, (js_sort_sorted (fun a b : string * DevRow => compare_strings a.1 b.1)).
Qed.

(** ** Endpoints that are gone *)

Definition with_expired (r : DevRow) : DevRow :=
  mkDevRow r.(w_session) r.(w_refresh) r.(w_name) r.(w_type) r.(w_createdAt) r.(w_callback) r.(w_publicKey) r.(w_authKey) true.

(** The rows, those of some devices of an account marked. *)
Definition marks (uid : string) (ids : list string) (m : gmap (string * string) DevRow) : gmap (string * string) DevRow :=
  map_imap (fun k r => Some (if String.eqb k.1 uid && bool_decide (k.2 ∈ ids) then with_expired r else r)) m.

(** The entry of a list shows a row. *)
Record shows (d : AttachedDevice) (r : DevRow) : Prop := {
  sw_session : d.(d_sessionTokenId) = None \/ d.(d_sessionTokenId) = r.(w_session);
  sw_refresh : d.(d_refreshTokenId) = r.(w_refresh);
  sw_name : d.(d_name) = r.(w_name);
  sw_type : d.(d_type) = r.(w_type);
  sw_callback : d.(d_pushCallback) = r.(w_callback);
  sw_publicKey : d.(d_pushPublicKey) = r.(w_publicKey);
  sw_authKey : d.(d_pushAuthKey) = r.(w_authKey);
  sw_expired : d.(d_pushEndpointExpired) = r.(w_expired) }.

Lemma joined_session r st : fst <$> session_of r st = None \/ fst <$> session_of r st = r.(w_session).
Proof. unfold session_of. destruct (w_session r) as [s|]; [|by left]. cbn. destruct (sessionTokens st !! s); [by right|by left]. Qed.

Lemma listed_shows uid st i r token enabled : shows (mergeDeviceAndSessionToken (full_view uid st (i, r)) token enabled) r.
Proof. split; try done. apply joined_session. Qed.

Lemma coalesce_truthy s old : s = None \/ s = old -> coalesce (truthy s) old = old.
Proof. intros [->| ->]; [done|]. destruct old as [x|]; [|done]. unfold truthy, when_truthy. by destruct (str_truthy x). Qed.

Lemma coalesce_same {A} (x : option A) : coalesce x x = x.
Proof. by destruct x. Qed.

Lemma own_no_clash uid id r st : store_ok st -> st.(devices) !! (uid, id) = Some r -> clashes uid id r.(w_session) r.(w_refresh) st = false.
Proof.
  intros [S R _] Hr. apply clashes_spec. intros j q Hj Hne. split; intros x Hq Hx; apply Hne; [by eapply S|by eapply R].
Qed.

(** The same rows but for marks, and the same commands. *)
Record marked (uid : string) (ids : list string) (st st' : Store) : Prop := {
  mk_ok : store_ok st';
  mk_devices : st'.(devices) = marks uid ids st.(devices);
  mk_commands u i : commands_of u i st' = commands_of u i st;
  mk_sessions : st'.(sessionTokens) = st.(sessionTokens);
  mk_redis : st'.(redis) = st.(redis) }.

Lemma marks_nil uid m : marks uid [] m = m.
Proof.
  apply map_eq. intros k. unfold marks. rewrite map_lookup_imap. destruct (m !! k) as [r|]; cbn; [|done].
  by rewrite bool_decide_false, andb_false_r by (by intros ?%elem_of_nil).
Qed.

Lemma marks_snoc uid ids id r m :
  m !! (uid, id) = Some r -> marks uid (ids ++ [id])%list m = <[(uid, id) := with_expired r]> (marks uid ids m).
Proof.
  intros Hr. apply map_eq. intros [u i]. unfold marks. destruct (decide ((uid, id) = (u, i))) as [[= <- <-]|Hne].
  - rewrite lookup_insert_eq, map_lookup_imap, Hr. cbn. rewrite String.eqb_refl, bool_decide_true; [done|]. apply elem_of_app. right. by left.
  - rewrite lookup_insert_ne, !map_lookup_imap by done. destruct (m !! (u, i)) as [q|]; cbn; [|done].
    destruct (String.eqb_spec u uid) as [->|]; [|done]. cbn. rewrite (bool_decide_ext (i ∈ (ids ++ [id])%list) (i ∈ ids)); [done|].
    rewrite elem_of_app, list_elem_of_singleton. naive_solver.
Qed.

Lemma marked_refl uid st : store_ok st -> marked uid [] st st.
Proof. intros. split; try done. by rewrite marks_nil. Qed.

Section PushLaws.
Context (enabled : string -> bool) (sendNotification : string -> Sent -> Outcome) (isValidPublicKey : string -> bool).

(** What becomes of a device, whatever is stored. *)
Definition sent_to (payload : option Payload) (TTL : option Z) (d : AttachedDevice) : option Sent :=
  match prepare payload TTL d with inl n => Some n | inr _ => None end.

Definition push_error (payload : option Payload) (TTL : option Z) (d : AttachedDevice) : option PushError :=
  match prepare payload TTL d with
  | inr e => Some e
  | inl n =>
      match sendNotification d.(d_id) n with
      | Delivered => None
      | Failed s => Some (if needs_reset isValidPublicKey d s then ResetCallback else UnknownPush)
      end
  end.

Definition is_dead (payload : option Payload) (TTL : option Z) (d : AttachedDevice) : bool :=
  bool_decide (push_error payload TTL d = Some ResetCallback).

Lemma prepare_not_reset payload TTL d : prepare payload TTL d <> inr ResetCallback.
Proof. unfold prepare. repeat case_match; congruence. Qed.

Lemma send_one_spec uid payload TTL d st :
  send_one enabled sendNotification isValidPublicKey uid payload TTL d st =
  ((if is_dead payload TTL d then (updateDevice enabled uid (info_of (expire d)) st).1 else st), sent_to payload TTL d, push_error payload TTL d).
Proof.
  unfold send_one, is_dead, push_error, sent_to. pose proof (prepare_not_reset payload TTL d) as Hp.
  destruct (prepare payload TTL d) as [n|e]; [|rewrite bool_decide_false; [done|congruence]].
  destruct (sendNotification _ n) as [|s]; [done|]. destruct (needs_reset _ d s); [by rewrite bool_decide_true|by rewrite bool_decide_false].
Qed.

Lemma marks_absent uid ids id m : m !! (uid, id) = None -> marks uid (ids ++ [id])%list m = marks uid ids m.
Proof.
  intros Hn. apply map_eq. intros [u i]. unfold marks. rewrite !map_lookup_imap. destruct (m !! (u, i)) as [q|] eqn:E; cbn; [|done].
  destruct (String.eqb_spec u uid) as [->|]; [|done]. cbn. rewrite (bool_decide_ext (i ∈ (ids ++ [id])%list) (i ∈ ids)); [done|].
  rewrite elem_of_app, list_elem_of_singleton. naive_solver.
Qed.

Lemma expire_absent uid ids d st st1 :
  marked uid ids st st1 -> st.(devices) !! (uid, d.(d_id)) = None ->
  marked uid (ids ++ [d.(d_id)])%list st (updateDevice enabled uid (info_of (expire d)) st1).1.
Proof.
  intros [Hok Hd Hc Hs Hr] Hrow. assert (devices st1 !! (uid, d.(d_id)) = None) as Hrow1.
  { rewrite Hd. unfold marks. by rewrite map_lookup_imap, Hrow. }
  unfold updateDevice, Device_update, updateDevice_6. cbn -[coalesce truthy]. rewrite Hrow1. cbn [fst]. split; try done. by rewrite marks_absent.
Qed.

(** Marking a device writes back what the list shows of it. *)
Lemma expire_device uid ids d r st st1 :
  marked uid ids st st1 -> d.(d_id) ∉ ids -> st.(devices) !! (uid, d.(d_id)) = Some r -> shows d r ->
  d.(d_availableCommands) = commands_of uid d.(d_id) st ->
  marked uid (ids ++ [d.(d_id)])%list st (updateDevice enabled uid (info_of (expire d)) st1).1.
Proof.
  intros [Hok Hd Hc Hs Hr] Hni Hrow [W1 W2 W3 W4 W5 W6 W7 W8] Hcmd.
  assert (devices st1 !! (uid, d.(d_id)) = Some r) as Hrow1.
  { rewrite Hd. unfold marks. rewrite map_lookup_imap, Hrow. cbn. by rewrite bool_decide_false, andb_false_r. }
  assert (Device_update uid (info_of (expire d)) st1 =
    inl (upsertAvailableCommands uid d.(d_id) d.(d_availableCommands) (purgeAvailableCommands uid d.(d_id)
           (on_devices <[(uid, d.(d_id)) := with_expired r]> st1)))) as Hu.
  { unfold Device_update, updateDevice_6, info_of, expire. cbn -[clashes coalesce truthy]. rewrite Hrow1. cbn -[clashes coalesce truthy].
    rewrite W2, W3, W4, W5, W6, W7, !coalesce_same, (coalesce_truthy (d_sessionTokenId d)), (coalesce_truthy (w_refresh r)) by auto.
    by rewrite own_no_clash. }
  unfold updateDevice. pose proof (updateDevice_ok enabled uid (info_of (expire d)) st1 Hok) as Hok'. unfold updateDevice in Hok'.
  rewrite Hu in Hok' |- *. cbn [fst] in *. split; [done| | |done|done].
  - cbn. rewrite Hd. symmetry. by apply marks_snoc.
  - intros u i. unfold commands_of at 1. cbn. destruct (decide ((uid, d.(d_id)) = (u, i))) as [[= <- <-]|Hne].
    + case_bool_decide as E; [rewrite lookup_delete_eq; cbn; by rewrite <- Hcmd, E|]. rewrite lookup_insert_eq, lookup_delete_eq. cbn.
      by rewrite map_union_empty.
    + rewrite <- Hc. unfold commands_of. case_bool_decide; [by rewrite lookup_delete_ne|]. by rewrite lookup_insert_ne, lookup_delete_ne.
Qed.

Definition dead_ids (payload : option Payload) (TTL : option Z) (ds : list AttachedDevice) : list string :=
  d_id <$> filterb (is_dead payload TTL) ds.

(** The entries of a list show the rows that are there; some may be gone. *)
Definition listing (uid : string) (st : Store) (ds : list AttachedDevice) : Prop :=
  NoDup (d_id <$> ds) /\
  forall d r, d ∈ ds -> st.(devices) !! (uid, d.(d_id)) = Some r -> shows d r /\ d.(d_availableCommands) = commands_of uid d.(d_id) st.

Lemma send_all_spec uid payload TTL ds st done_ st1 ns es :
  listing uid st (done_ ++ ds) -> marked uid (dead_ids payload TTL done_) st st1 ->
  exists st' es', fold_left (send_next enabled sendNotification isValidPublicKey uid payload TTL) ds (st1, ns, es) =
      (st', (ns ++ omap (sent_to payload TTL) ds)%list, es') /\
    marked uid (dead_ids payload TTL (done_ ++ ds)) st st' /\
    (forall d, d ∈ ds -> obj_get es' d.(d_id) = coalesce (push_error payload TTL d) (obj_get es d.(d_id))) /\
    (forall i, i ∉ d_id <$> ds -> obj_get es' i = obj_get es i).
Proof.
  revert done_ st1 ns es. induction ds as [|d ds IH]; intros done_ st1 ns es [Hnd Hl] Hm; cbn [fold_left].
  - exists st1, es. rewrite !app_nil_r. split; [done|]. split; [done|]. split; [by intros d ?%elem_of_nil|done].
  - unfold send_next at 2. rewrite send_one_spec.
    assert (marked uid (dead_ids payload TTL (done_ ++ [d])) st
      (if is_dead payload TTL d then (updateDevice enabled uid (info_of (expire d)) st1).1 else st1)) as Hm1.
    { unfold dead_ids. rewrite filterb_app, fmap_app. cbn [filterb]. destruct (is_dead payload TTL d); [|by rewrite app_nil_r].
      destruct (devices st !! (uid, d.(d_id))) as [r|] eqn:H1; [|by apply expire_absent].
      destruct (Hl d r) as (H2 & H3); [apply elem_of_app; right; left|done|]. apply (expire_device uid _ d r); try done.
      rewrite fmap_app in Hnd. apply NoDup_app in Hnd as (_ & Hdis & _). intros (x & E & [Hx _]%elem_of_filterb)%list_elem_of_fmap.
      apply (Hdis x.(d_id)); [apply list_elem_of_fmap; eauto|]. rewrite <- E. left. }
    edestruct (IH (done_ ++ [d])%list) as (st' & es' & -> & Hm' & He & Ho); [by rewrite <- app_assoc|exact Hm1|].
    exists st', es'. rewrite <- app_assoc in Hm'. split; [|split; [done|split]].
    + cbn [omap list_omap]. destruct (sent_to payload TTL d); [by rewrite <- app_assoc|done].
    + rewrite fmap_app in Hnd. apply NoDup_app in Hnd as (_ & _ & Hnd). rewrite fmap_cons in Hnd. apply NoDup_cons in Hnd as [Hd _].
      intros x [->|Hx]%elem_of_cons.
      * rewrite Ho by done. destruct (push_error payload TTL d); [by rewrite obj_get_set_eq|done].
      * rewrite He by done. f_equal. destruct (push_error payload TTL d); [|done]. apply obj_get_set_ne.
        intros E. apply Hd. rewrite E. apply list_elem_of_fmap. eauto.
    + intros i Hi. rewrite fmap_cons, not_elem_of_cons in Hi. destruct Hi as [Hne Hi]. rewrite Ho by done.
      destruct (push_error payload TTL d); [|done]. by apply obj_get_set_ne.
Qed.

Lemma db_devices_listing uid st ds :
  named st -> (row_count uid st <= 500)%nat -> db_devices enabled uid st = inl ds -> listing uid st ds.
Proof.
  intros Hn Hc. unfold db_devices. destruct (str_truthy uid); [|done]. rewrite findByUid_views by done. intros [= <-].
  unfold mergeDevicesAndSessionTokens. split.
  - rewrite <- !list_fmap_compose. apply account_rows_nodup.
  - intros d q (v & -> & ([i r] & -> & Hir)%list_elem_of_fmap)%list_elem_of_fmap Hq. apply account_rows_elem in Hir as [Hr _].
    cbn in Hq. assert (q = r) as -> by congruence. split; [apply listed_shows|done].
Qed.

Lemma listing_filter uid st p ds : listing uid st ds -> listing uid st (filterb p ds).
Proof.
  intros [Hn Hl]. split.
  - clear Hl. induction ds as [|d ds IH]; cbn [filterb]; [done|]. rewrite fmap_cons in Hn. apply NoDup_cons in Hn as [Hd Hn].
    destruct (p d); [|by apply IH]. rewrite fmap_cons. apply NoDup_cons. split; [|by apply IH].
    intros (x & E & [Hx _]%elem_of_filterb)%list_elem_of_fmap. apply Hd, list_elem_of_fmap. eauto.
  - intros d r [Hd _]%elem_of_filterb. by apply Hl.
Qed.

Lemma sendPush_listing uid ds reason payload TTL st :
  store_ok st -> listing uid st ds -> reason ∈ PUSH_REASONS ->
  let to := filterSupportedDevices payload ds in
  exists st' es, sendPush enabled sendNotification isValidPublicKey uid ds reason payload TTL st = (st', omap (sent_to payload TTL) to, Some es) /\
    marked uid (dead_ids payload TTL to) st st' /\
    forall d, d ∈ ds -> obj_get es d.(d_id) = if supported payload d then push_error payload TTL d else None.
Proof.
  intros Hok Hl Hr. unfold sendPush, send_all. cbv zeta. rewrite bool_decide_true by done.
  pose proof (listing_filter uid st (supported payload) ds Hl) as Hf. fold (filterSupportedDevices payload ds) in Hf.
  destruct (send_all_spec uid payload TTL (filterSupportedDevices payload ds) st [] st [] []) as (st' & es & E & Hm & He & Ho);
    [done|by apply marked_refl|].
  exists st', es. split; [exact (f_equal (fun '(a, b, c) => (a, b, Some c)) E)|]. split; [done|]. intros d Hd. destruct (supported payload d) eqn:Es.
  - rewrite He by (by apply elem_of_filterb). cbn. by destruct (push_error payload TTL d).
  - rewrite Ho; [done|]. destruct Hl as [Hn _]. intros (x & Ex & [Hx Hs]%elem_of_filterb)%list_elem_of_fmap.
    assert (d = x) as ->; [|congruence]. clear -Hn Hd Hx Ex. apply list_elem_of_lookup in Hd as [a Ha], Hx as [b Hb].
    assert (a = b) as ->; [|congruence]. eapply NoDup_lookup; [exact Hn| |]; rewrite list_lookup_fmap; [by rewrite Ha|by rewrite Hb, Ex].
Qed.
End PushLaws.

(** ** Who is notified *)

Definition text (o : option string) : Prop := exists s, o = Some s /\ s <> "".

Lemma text_cases o : (exists s, o = Some s /\ text o /\ truthy o = Some s) \/ ~ text o /\ truthy o = None.
Proof.
  unfold text, truthy, when_truthy, str_truthy. destruct o as [s|]; [|naive_solver].
  destruct (String.eqb_spec s ""); naive_solver.
Qed.

(** A device on iOS is notified of three commands only. *)
Definition wanted (payload : option Payload) (d : AttachedDevice) : Prop :=
  (exists os, d.(d_ua).(uaOS) = Some os /\ toLowerCase os = "ios") ->
  exists p c, payload = Some p /\ command_of p = Some c /\
    c ∈ ["fxaccounts:command_received"; "fxaccounts:device_connected"; "fxaccounts:device_disconnected"].

(** The endpoint can be used, and the keys that a payload needs are there. *)
Definition live_endpoint (d : AttachedDevice) : Prop := text d.(d_pushCallback) /\ d.(d_pushEndpointExpired) = false.

Definition addressed (payload : option Payload) (d : AttachedDevice) : Prop :=
  wanted payload d /\ live_endpoint d /\ (is_Some payload -> text d.(d_pushPublicKey) /\ text d.(d_pushAuthKey)).

(** What is sent to a device that is addressed. *)
Definition message (payload : option Payload) (TTL : option Z) (d : AttachedDevice) : Sent :=
  mkSent (default "" d.(d_pushCallback))
    (match payload with Some _ => Some (default "" d.(d_pushPublicKey), default "" d.(d_pushAuthKey)) | None => None end)
    payload (default 0 TTL).

(** The service says that the endpoint is gone; or it gives no status and the
    key of the device is not one. *)
Definition endpoint_gone (isValidPublicKey : string -> bool) (d : AttachedDevice) (statusCode : option Z) : Prop :=
  statusCode = Some 404 \/ statusCode = Some 410 \/
  (statusCode = None \/ statusCode = Some 0) /\ exists k, d.(d_pushPublicKey) = Some k /\ k <> "" /\ isValidPublicKey k = false.

(** Each error, by what causes it. *)
Definition fails_with (sendNotification : string -> Sent -> Outcome) (isValidPublicKey : string -> bool) (payload : option Payload)
    (TTL : option Z) (d : AttachedDevice) (e : PushError) : Prop :=
  let answer := sendNotification d.(d_id) (message payload TTL d) in
  match e with
  | NoCallback => wanted payload d /\ ~ text d.(d_pushCallback)
  | ExpiredCallback => wanted payload d /\ text d.(d_pushCallback) /\ d.(d_pushEndpointExpired) = true
  | NoKeys => wanted payload d /\ live_endpoint d /\ is_Some payload /\ ~ (text d.(d_pushPublicKey) /\ text d.(d_pushAuthKey))
  | ResetCallback => addressed payload d /\ exists s, answer = Failed s /\ endpoint_gone isValidPublicKey d s
  | UnknownPush => addressed payload d /\ exists s, answer = Failed s /\ ~ endpoint_gone isValidPublicKey d s
  end.

Lemma supported_wanted payload d : supported payload d = true <-> wanted payload d.
Proof.
  unfold supported, wanted. destruct (uaOS (d_ua d)) as [os|]; cbn -[toLowerCase truthy]; [|naive_solver].
  case_bool_decide as Ho; cbn -[toLowerCase truthy]; [|split; [|done]; intros _ (os' & [= <-] & E); congruence].
  rewrite negb_involutive. injection Ho as Ho. split.
  - intros Hc _. destruct payload as [p|]; [|done]. cbn in Hc. destruct (command_of p) as [c|] eqn:Ep; [|done].
    exists p, c. split_and!; [done..|]. unfold truthy, when_truthy in Hc. destruct (str_truthy c); [|done].
    cbn in Hc. repeat (apply orb_true_iff in Hc as [Hc|Hc]); apply String.eqb_eq in Hc as ->; set_solver.
  - intros Hw. destruct Hw as (p & c & -> & Hc & Hin); [eauto|]. cbn. rewrite Hc.
    repeat (apply elem_of_cons in Hin as [->|Hin]); [done..|by apply elem_of_nil in Hin].
Qed.

Lemma or0_default a : or0 a = default 0 a.
Proof. unfold or0, num_or. by destruct a as [[]|]. Qed.

Lemma sent_spec payload TTL d :
  sent_to payload TTL d = Some (message payload TTL d) /\ live_endpoint d /\
    (is_Some payload -> text d.(d_pushPublicKey) /\ text d.(d_pushAuthKey)) \/
  sent_to payload TTL d = None /\ ~ (live_endpoint d /\ (is_Some payload -> text d.(d_pushPublicKey) /\ text d.(d_pushAuthKey))).
Proof.
  unfold sent_to, prepare, message, live_endpoint. rewrite or0_default.
  destruct (text_cases (d_pushCallback d)) as [(url & Eu & Hu & ->)|[Hu ->]]; [|tauto].
  destruct (d_pushEndpointExpired d); [right; split; [done|]; intros [[_ ?] _]; done|]. rewrite Eu in *. destruct payload as [p|].
  - destruct (text_cases (d_pushPublicKey d)) as [(k & Ek & Hk & ->)|[Hk ->]]; [|right; split; [done|]; intros [_ Hp]; by destruct Hp].
    destruct (text_cases (d_pushAuthKey d)) as [(a & Ea & Ha & ->)|[Ha ->]]; [|right; split; [done|]; intros [_ Hp]; by destruct Hp].
    rewrite Ek, Ea in *. by left.
  - left. split; [done|]. split; [done|]. by intros [? ?].
Qed.

Lemma needs_reset_spec valid d s : needs_reset valid d s = true <-> endpoint_gone valid d s.
Proof.
  unfold needs_reset, endpoint_gone.
  assert (match truthy (d_pushPublicKey d) with Some k => negb (valid k) | None => false end = true <->
          exists k, d_pushPublicKey d = Some k /\ k <> "" /\ valid k = false) as Hk.
  { destruct (text_cases (d_pushPublicKey d)) as [(k & Ek & (k' & Ek' & Hne) & ->)|[Hn ->]].
    - rewrite negb_true_iff. rewrite Ek in *. naive_solver.
    - split; [done|]. intros (k & Ek & Hne & _). destruct Hn. by exists k. }
  destruct s as [s|]; [|rewrite Hk; naive_solver].
  rewrite !orb_true_iff, andb_true_iff, !Z.eqb_eq, Hk. naive_solver.
Qed.

Lemma error_spec send valid payload TTL d e : wanted payload d ->
  push_error send valid payload TTL d = Some e <-> fails_with send valid payload TTL d e.
Proof.
  intros Hw. pose proof (sent_spec payload TTL d) as Hs. unfold sent_to, push_error, fails_with, addressed, live_endpoint in *.
  destruct (prepare payload TTL d) as [n|e'] eqn:Hp; destruct Hs as [([= ->] & Hl & Hk)|[[=] Hno]].
    destruct Hl as [Hl Hx]. destruct (send (d_id d) _) as [|s].
    { split; [done|]. destruct e; cbn; naive_solver congruence. }
    pose proof (needs_reset_spec valid d s) as Hr. destruct (needs_reset valid d s); destruct e; naive_solver congruence.
  - transitivity (e' = e); [naive_solver|]. revert Hp. unfold prepare.
    destruct (text_cases (d_pushCallback d)) as [(url & Eu & Hu & ->)|[Hu ->]].
    2: { intros [= <-]. destruct e; naive_solver. }
    destruct (d_pushEndpointExpired d); [intros [= <-]; destruct e; naive_solver|]. destruct payload as [p|]; [|done].
    assert (~ (text (d_pushPublicKey d) /\ text (d_pushAuthKey d))) as Hn by tauto. intros Hp.
    assert (e' = NoKeys) as -> by (repeat case_match; congruence). destruct e; naive_solver.
Qed.

#[local] Instance text_dec o : Decision (text o).
Proof. destruct o as [s|]; [destruct (decide (s = "")); [right|left]|right]; unfold text; naive_solver. Defined.

#[local] Instance addressed_dec payload d : Decision (addressed payload d).
Proof.
  unfold addressed, live_endpoint. refine (and_dec _ _).
  - destruct (supported payload d) eqn:E; [left|right]; rewrite <- supported_wanted; congruence.
Defined.

Lemma sent_list payload TTL ds :
  omap (sent_to payload TTL) (filterSupportedDevices payload ds) = message payload TTL <$> filter (addressed payload) ds.
Proof.
  induction ds as [|d ds IH]; [done|]. unfold filterSupportedDevices in *. cbn [filterb]. rewrite filter_cons.
  pose proof (supported_wanted payload d) as Hw. destruct (supported payload d).
  - cbn [omap list_omap]. rewrite IH. destruct (sent_spec payload TTL d) as [(-> & Hl)|(-> & Hl)].
    + by rewrite decide_True by (split; tauto).
    + rewrite decide_False; [done|]. unfold addressed. tauto.
  - rewrite IH, decide_False; [done|]. intros [Hd _]. by apply Hw in Hd.
Qed.

Lemma fails_wanted send valid payload TTL d e : fails_with send valid payload TTL d e -> wanted payload d.
Proof. unfold fails_with, addressed. destruct e; tauto. Qed.

Lemma dead_spec send valid payload TTL ds i :
  i ∈ dead_ids send valid payload TTL (filterSupportedDevices payload ds) <->
  exists d, d ∈ ds /\ fails_with send valid payload TTL d ResetCallback /\ i = d.(d_id).
Proof.
  unfold dead_ids, filterSupportedDevices, is_dead. rewrite list_elem_of_fmap. split.
  - intros (d & -> & [[Hd Hs]%elem_of_filterb Hb%bool_decide_eq_true]%elem_of_filterb). exists d.
    split; [done|]. split; [|done]. apply supported_wanted in Hs. by apply error_spec.
  - intros (d & Hd & Hf & ->). exists d. split; [done|]. apply elem_of_filterb. pose proof (fails_wanted _ _ _ _ _ _ Hf) as Hw. split.
    + apply elem_of_filterb. split; [done|]. by apply supported_wanted.
    + apply bool_decide_eq_true. by apply error_spec.
Qed.

Lemma no_error_spec send valid payload TTL d : wanted payload d ->
  push_error send valid payload TTL d = None <-> addressed payload d /\ send d.(d_id) (message payload TTL d) = Delivered.
Proof.
  intros Hw. pose proof (sent_spec payload TTL d) as Hs. unfold sent_to, push_error, addressed in *.
  destruct (prepare payload TTL d) as [n|e]; destruct Hs as [([= ->] & Hl)|[[=] Hl]]; [|split; [done|tauto]].
  destruct (send _ _); naive_solver.
Qed.

(** [C15] A notification to the devices of an account.  The push service is
    asked once for each device that is addressed - it can show the command, has
    an endpoint that is not expired and, for a payload, both keys - in the
    order of the list and with the endpoint, the keys and the payload.  The
    errors are exactly those of [fails_with], whose last two are of devices
    that were asked for and where the service failed; a device without an
    error is one that does not support the command or that was notified.  In
    the database the endpoints that are gone are marked as expired, and
    nothing else of any device, of any account, is changed. *)
Theorem push_exact enabled sendNotification isValidPublicKey uid ds reason payload TTL st :
  store_ok st -> named st -> (row_count uid st <= 500)%nat -> db_devices enabled uid st = inl ds -> reason ∈ PUSH_REASONS ->
  let failed := fails_with sendNotification isValidPublicKey payload TTL in
  exists st' es,
    sendPush enabled sendNotification isValidPublicKey uid ds reason payload TTL st =
      (st', message payload TTL <$> filter (addressed payload) ds, Some es) /\
    (forall d, d ∈ ds -> forall e, obj_get es d.(d_id) = Some e <-> failed d e) /\
    (forall d, d ∈ ds -> obj_get es d.(d_id) = None <->
       ~ wanted payload d \/ addressed payload d /\ sendNotification d.(d_id) (message payload TTL d) = Delivered) /\
    (forall d r, d ∈ ds -> failed d ResetCallback -> st.(devices) !! (uid, d.(d_id)) = Some r ->
       st'.(devices) !! (uid, d.(d_id)) = Some (with_expired r)) /\
    (forall k, (forall d, d ∈ ds -> failed d ResetCallback -> k <> (uid, d.(d_id))) -> st'.(devices) !! k = st.(devices) !! k) /\
    (forall u i, commands_of u i st' = commands_of u i st) /\ st'.(sessionTokens) = st.(sessionTokens) /\ st'.(redis) = st.(redis).
Proof.
  intros Hok Hn Hc Hds Hr failed. apply db_devices_listing in Hds; [|done..].
  destruct (sendPush_listing enabled sendNotification isValidPublicKey uid ds reason payload TTL st Hok Hds Hr)
    as (st' & es & E & [_ Hdev Hcmd Hses Hred] & He). rewrite sent_list in E.
  assert (forall d, d ∈ ds -> forall e, obj_get es d.(d_id) = Some e <-> failed d e) as Herr.
  { intros d Hd e. rewrite He by done. pose proof (supported_wanted payload d) as Hw. destruct (supported payload d).
    - apply error_spec. by apply Hw.
    - split; [done|]. intros Hf%fails_wanted%Hw. done. }
  exists st', es. split_and!; try done.
  - intros d Hd. rewrite He by done. pose proof (supported_wanted payload d) as Hw. destruct (supported payload d).
    + assert (wanted payload d) as Hwd by (by apply Hw). rewrite no_error_spec by done. tauto.
    + split; [|done]. intros _. left. by intros ?%Hw.
  - intros d r Hd Hf Hrow. rewrite Hdev. unfold marks. rewrite map_lookup_imap, Hrow. cbn.
    rewrite String.eqb_refl, bool_decide_true; [done|]. apply dead_spec. eauto.
  - intros [u i] Hk. rewrite Hdev. unfold marks. rewrite map_lookup_imap. destruct (devices st !! (u, i)) as [r|]; [|done]. cbn.
    destruct (String.eqb_spec u uid) as [->|]; [|done]. rewrite bool_decide_false; [done|].
    intros (d & Hd & Hf & ->)%dead_spec. by apply (Hk d).
Qed.

(** Two devices: the endpoint of the first is gone. *)
Definition tablet_row : DevRow := mkDevRow (Some "s1") None (Some "Tablet") (Some "mobile") 10 (Some "https://push/1") (Some "k1") (Some "a1") false.
Definition laptop_row : DevRow := mkDevRow None (Some "r1") (Some "Laptop") None 20 (Some "https://push/2") (Some "k2") (Some "a2") false.
Definition two_devices : Store :=
  mkStore {[ ("u", "d1") := tablet_row; ("u", "d2") := laptop_row ]} {[ ("u", "d1") := {[ "open" := "x"; "close" := "y" ]} ]}
    {[ "s1" := mkSess "u" 5 7 no_ua false ]} ∅.
Definition gone_1 (id : string) (n : Sent) : Outcome := if String.eqb n.(n_endpoint) "https://push/1" then Failed (Some 410) else Delivered.

Lemma two_devices_ok : store_ok two_devices.
Proof.
  assert (forall f, bool_decide (f tablet_row = f laptop_row) = false -> unique f (devices two_devices)) as Hu.
  { intros f Hf u i j r q x Hi Hj Hr Hq. apply bool_decide_eq_false in Hf. cbn in Hi, Hj.
    apply lookup_insert_Some in Hi as [[Ei <-]|[_ Hi]]; [|apply lookup_singleton_Some in Hi as [Ei <-]];
      (apply lookup_insert_Some in Hj as [[Ej <-]|[_ Hj]]; [|apply lookup_singleton_Some in Hj as [Ej <-]]); congruence. }
  split; [by apply Hu|by apply Hu|]. intros k m Hk. cbn in Hk. apply lookup_singleton_Some in Hk as [<- _]. exists tablet_row. by vm_compute.
Qed.

Lemma two_devices_named : named two_devices.
Proof.
  intros k m n Hk [d Hd]. cbn in Hk. apply lookup_singleton_Some in Hk as [_ <-]. apply lookup_insert_Some in Hd as [[<- _]|[_ Hd]]; [done|].
  by apply lookup_singleton_Some in Hd as [<- _].
Qed.

Definition two_listed : list AttachedDevice := match db_devices (fun _ => true) "u" two_devices with inl ds => ds | inr _ => [] end.

Lemma device_list_exact_witness :
  findByUid "u" two_devices = full_view "u" two_devices <$> account_rows "u" two_devices /\ (account_rows "u" two_devices).*1 = ["d1"; "d2"].
Proof.
  split; [|by vm_compute]. refine (proj1 (device_list_exact "u" two_devices two_devices_named _)). apply Nat.leb_le. by vm_compute.
Defined.

Lemma push_exact_witness :
  exists st' es, sendPush (fun _ => true) gone_1 (fun _ => true) "u" two_listed "passwordChange" (Some PPasswordChanged) (Some 60) two_devices =
      (st', message (Some PPasswordChanged) (Some 60) <$> two_listed, Some es) /\
    obj_get es "d1" = Some ResetCallback /\ obj_get es "d2" = None /\
    st'.(devices) !! ("u", "d1") = Some (with_expired tablet_row) /\ st'.(devices) !! ("u", "d2") = Some laptop_row.
Proof.
  destruct (push_exact (fun _ => true) gone_1 (fun _ => true) "u" two_listed "passwordChange" (Some PPasswordChanged) (Some 60) two_devices)
    as (st' & es & H1 & He & Hn & Hd & Hk & _); [exact two_devices_ok|exact two_devices_named|apply Nat.leb_le; by vm_compute|by vm_compute|
    apply (bool_decide_eq_true_1 _); by vm_compute|].
  exists st', es. clear He Hn Hd Hk. split; [rewrite H1; f_equal; f_equal; by vm_compute|].
  vm_compute in H1. injection H1 as <- <-. by vm_compute.
Defined.
