(* ===== verification/DeviceSystem.v ===== *)
(** * Theorems on the device routes

    The constraints of the tables hold after any sequence of requests and
    tasks; what a request to register, update or remove a device does. *)

From S2P Require Import Prelude Text Records Store Server CustomsClient Sorting ConnectedServices Devices Push DeviceRoutes DeviceLaws.
From S2P Require OAuthStore PushBox ServerLaws.

#[local] Open Scope string_scope.
#[local] Open Scope Z_scope.

(** ** The invariant *)

Definition world_ok {M} (w : DWorld M) : Prop := store_ok w.(dw_store) /\ PushBox.box_ok w.(dw_box).

(** A handler that keeps it, on every path. *)
Definition keeps {M A} (m : Do M A) : Prop := forall w, world_ok w -> world_ok (m w).1.

Section Rules.
Context {M : Type}.

Lemma dkeeps_ret {A} (x : A) : keeps (M := M) (dret x).
Proof. by intros w. Qed.
Lemma dkeeps_throw {A} e : keeps (M := M) (A := A) (dthrow e).
Proof. by intros w. Qed.
Lemma dkeeps_bind {A B} (m : Do M A) (k : A -> Do M B) : keeps m -> (forall x, keeps (k x)) -> keeps (dbind m k).
Proof. intros Hm Hk w Hw. unfold dbind. specialize (Hm w Hw). destruct (m w) as [w' [x|e]]; [by apply Hk|done]. Qed.
Lemma dkeeps_get {A} (f : Devices.Store -> A + DbError) : keeps (M := M) (dget f).
Proof. by intros w. Qed.
Lemma dkeeps_put {A} (f : Devices.Store -> Devices.Store * (A + DbError)) :
  (forall st, store_ok st -> store_ok (f st).1) -> keeps (M := M) (dput f).
Proof. intros Hf w [Hs Hb]. unfold dput. specialize (Hf _ Hs). destruct (f (dw_store w)). by split. Qed.
Lemma dkeeps_modify f : (forall st, store_ok st -> store_ok (f st)) -> keeps (M := M) (dmodify f).
Proof. intros Hf w [Hs Hb]. split; [by apply Hf|done]. Qed.
Lemma dkeeps_emit e : keeps (M := M) (demit e).
Proof. by intros w. Qed.
Lemma dkeeps_spawn t : keeps (M := M) (dspawn t).
Proof. by intros w. Qed.
Lemma dkeeps_push {A} (f : Devices.Store -> Devices.Store * list Sent * A) :
  (forall st, store_ok st -> store_ok (f st).1.1) -> keeps (M := M) (dpush f).
Proof. intros Hf w [Hs Hb]. unfold dpush. specialize (Hf _ Hs). destruct (f (dw_store w)) as [[st ns] r]. by split. Qed.
Lemma dkeeps_if {A} (b : bool) (m k : Do M A) : keeps m -> keeps k -> keeps (if b then m else k).
Proof. by destruct b. Qed.
Lemma dkeeps_world {A} (f : DWorld M -> A + DevErr) g :
  (forall w, (g w).(dw_store) = w.(dw_store)) -> (forall w, (g w).(dw_box) = w.(dw_box)) -> keeps (M := M) (fun w => (g w, f w)).
Proof. intros H1 H2 w [Hs Hb]. unfold world_ok. cbn. by rewrite H1, H2. Qed.
End Rules.

Create HintDb keeping.
#[export] Hint Resolve dkeeps_ret dkeeps_throw dkeeps_get dkeeps_emit dkeeps_spawn : keeping.

(** One step through a handler. *)
Ltac keep_step :=
  lazymatch goal with
  | |- keeps (dbind _ _) => apply dkeeps_bind; [|intros ?]
  | |- keeps (if _ then _ else _) => apply dkeeps_if
  | |- keeps (match ?x with _ => _ end) => destruct x
  | |- keeps _ => solve [auto with keeping]
  end.
Ltac keep_steps := repeat keep_step.

Section Handlers.
Context {M : Type} `{Memcached M StoredObject} (env : Env).
Context (enabled : string -> bool) (sendNotification : string -> Sent -> Outcome) (isValidPublicKey : string -> bool).
Context (href_of : string -> option string) (limit_r maxttl_r updateAfter : Z) (config : DevConfig).
Context (encode : Command -> string) (decode : string -> option Command) (command_url : string -> Z -> string)
  (validPayload : option string * string -> bool).

Lemma send_next_ok uid payload TTL acc d :
  store_ok acc.1.1 -> store_ok (send_next enabled sendNotification isValidPublicKey uid payload TTL acc d).1.1.
Proof.
  destruct acc as [[st ns] es]. cbn [fst]. intros Hs. unfold send_next. rewrite send_one_spec.
  destruct (is_dead _ _ _ _ _); [by apply updateDevice_ok|done].
Qed.

Lemma sendPush_ok uid ds reason payload TTL st :
  store_ok st -> store_ok (sendPush enabled sendNotification isValidPublicKey uid ds reason payload TTL st).1.1.
Proof.
  intros Hs. unfold sendPush. case_bool_decide; [|done]. unfold send_all.
  assert (forall l acc, store_ok acc.1.1 -> store_ok (fold_left (send_next enabled sendNotification isValidPublicKey uid payload TTL) l acc).1.1) as Hf.
  { induction l as [|d l IH]; intros acc Ha; [done|]. cbn [fold_left]. by apply IH, send_next_ok. }
  specialize (Hf (filterSupportedDevices payload ds) (st, [], []) Hs). by destruct (fold_left _ _ _) as [[st' ns] es].
Qed.

Lemma push_keeps uid ds reason payload TTL :
  keeps (M := M) (dpush (sendPush enabled sendNotification isValidPublicKey uid ds reason payload TTL)).
Proof. apply dkeeps_push. intros. by apply sendPush_ok. Qed.

Lemma command_keeps uid d command sender index url ttl :
  keeps (M := M) (dpush (notifyCommandReceived enabled sendNotification isValidPublicKey uid d command sender index url ttl)).
Proof.
  apply dkeeps_push. intros st Hs. unfold notifyCommandReceived.
  pose proof (sendPush_ok uid [d] "commandReceived" (Some (PCommandReceived command index sender url)) (Some (default TTL_COMMAND_RECEIVED ttl)) st Hs) as Hp.
  by destruct (sendPush _ _ _ _ _ _ _ _ _) as [[st' ns] es].
Qed.

Lemma upsert_keeps ids now c i : keeps (M := M) (upsert enabled ids now c i).
Proof.
  unfold upsert. cbv zeta. apply dkeeps_bind.
  - apply dkeeps_if; [|apply dkeeps_put; intros; by apply updateDevice_ok]. intros w [Hs Hb].
    destruct (createDevice _ _ _ _ _ _) as [[st [r|e]]|] eqn:E; [..|done]; (split; [|done]); by eapply createDevice_ok.
  - intros r. keep_steps.
Qed.

Lemma destroy_keeps now uid id : keeps (M := M) (destroy enabled sendNotification isValidPublicKey href_of limit_r maxttl_r updateAfter now uid id).
Proof.
  unfold destroy. apply dkeeps_bind; [auto with keeping|]. intros peers. apply dkeeps_bind.
  { apply dkeeps_put. intros. by apply deleteDevice_ok. }
  intros [s r]. apply dkeeps_bind.
  { apply dkeeps_world; intros w; cbn; destruct (truthy r) as [x|]; try done; unfold revoke_refresh;
      by destruct (OAuthStore.getRefreshToken _ _ _ _ _ _ _) as [d [[t|]|]]. }
  intros _. apply dkeeps_bind; [auto with keeping|]. intros _. apply dkeeps_bind; [apply push_keeps|]. intros _. keep_steps.
Qed.

Lemma check_keeps uid action req : keeps (M := M) (checkAuthenticated env uid action req).
Proof.
  intros w Hw. unfold checkAuthenticated. by destruct (client_checkAuthenticated env uid action req (dw_customs w)) as [s [q v]].
Qed.

Lemma account_device_keeps ids now c p : keeps (M := M) (account_device enabled isValidPublicKey config ids now c p).
Proof.
  unfold account_device. apply dkeeps_bind; [keep_steps|]. intros _. apply dkeeps_if; [auto with keeping|].
  apply dkeeps_bind; [keep_steps|]. intros _. apply dkeeps_bind; [apply upsert_keeps|]. intros. auto with keeping.
Qed.

Lemma device_commands_keeps useDb svc now c limit index : keeps (M := M) (device_commands config decode useDb svc now c limit index).
Proof.
  unfold device_commands. apply dkeeps_bind; [keep_steps|]. intros _ w Hw. destruct (k_deviceId c); [|done].
  by destruct (PushBox.retrieve _ _ _ _ _ _ _ _ _ _).
Qed.

Lemma invoke_keeps useDb svc now c req target command payload ttl :
  keeps (M := M) (invoke_command env enabled sendNotification isValidPublicKey config encode command_url useDb svc now c req target command payload ttl).
Proof.
  unfold invoke_command. apply dkeeps_bind; [keep_steps|]. intros _. apply dkeeps_bind; [apply check_keeps|]. intros _.
  apply dkeeps_bind; [auto with keeping|]. intros d. destruct (has_command _ _) as [[]|]; [|auto with keeping..].
  apply dkeeps_bind.
  - intros w [Hs Hb]. unfold PushBox.store. destruct (negb _); [done|]. destruct useDb; [|by destruct svc].
    split; [done|]. cbn. by apply (PushBox.db_store_ok _ _ _ _ (dw_box w)).
  - intros i. apply dkeeps_bind; [apply command_keeps|]. intros. auto with keeping.
Qed.

Lemma notify_keeps c req to av payload TTL :
  keeps (M := M) (devices_notify env enabled sendNotification isValidPublicKey config validPayload c req to av payload TTL).
Proof.
  unfold devices_notify. apply dkeeps_bind; [keep_steps|]. intros _. apply dkeeps_bind; [keep_steps|]. intros _.
  apply dkeeps_bind; [apply check_keeps|]. intros _. apply dkeeps_bind; [auto with keeping|]. intros ds. cbv zeta.
  destruct (recipients to ds); [auto with keeping|]. apply dkeeps_bind; [apply push_keeps|]. auto with keeping.
Qed.

Lemma account_devices_keeps now c idle : keeps (M := M) (account_devices enabled href_of config now c idle).
Proof.
  unfold account_devices. apply dkeeps_bind; [keep_steps|]. intros _. apply dkeeps_bind; [auto with keeping|]. intros ds.
  apply dkeeps_bind; [|auto with keeping]. intros w Hw. destruct (existsb _ ds); [|done].
  by destruct (OAuthStore.getRefreshTokensByUid _ _ _ _) as [o [ts|]].
Qed.

Lemma attached_destroy_keeps now c cl s r d :
  keeps (M := M) (attached_client_destroy enabled sendNotification isValidPublicKey href_of limit_r maxttl_r updateAfter now c cl s r d).
Proof.
  unfold attached_client_destroy. destruct (truthy d) as [dev|].
  { apply dkeeps_bind; [apply destroy_keeps|]. intros. keep_steps. }
  destruct (truthy r) as [x|].
  { apply dkeeps_if; [auto with keeping|]. intros w Hw. by destruct (OAuthStore.deleteClientRefreshToken _ _ _ _ _) as [o ok]. }
  destruct (truthy cl) as [x|]; [apply dkeeps_if; [auto with keeping|]; by intros w Hw|].
  destruct (truthy s) as [x|]; [|auto with keeping]. apply dkeeps_if.
  - apply dkeeps_modify. intros. by apply deleteSessionToken_ok.
  - apply dkeeps_bind; [auto with keeping|]. intros t. apply dkeeps_if; [|auto with keeping]. apply dkeeps_modify. intros. by apply deleteSessionToken_ok.
Qed.

Lemma run_task_keeps useDb t : keeps (M := M) (run_task enabled sendNotification isValidPublicKey (pushboxEnabled config) useDb t).
Proof.
  destruct t as [uid id name|uid id]; cbn [run_task].
  - apply dkeeps_bind; [auto with keeping|]. intros ds. apply dkeeps_bind; [apply push_keeps|]. auto with keeping.
  - intros w [Hs Hb]. split; [done|]. cbn. unfold PushBox.deleteDevice. destruct (negb _); [done|]. destruct useDb; [|done].
    by apply PushBox.filterb_rows_ok.
Qed.

(** ** Any sequence of requests *)

Inductive DevCall :=
  | CDevice (ids : list string) (now : Z) (c : Cred) (p : DeviceInfo)
  | CCommands (useDb : bool) (svc : PushBox.ServiceReply (option bool * option Z * option (list (Z * string)))) (now : Z) (c : Cred)
      (limit : nat) (index : option Z)
  | CInvoke (useDb : bool) (svc : PushBox.ServiceReply Z) (now : Z) (c : Cred) (req : Request) (target command payload : string) (ttl : option Z)
  | CNotify (c : Cred) (req : Request) (to : Recipients) (accountVerify : bool) (payload : option string * string) (TTL : option Z)
  | CDevices (now : Z) (c : Cred) (idle : option Z)
  | CDeviceDestroy (now : Z) (c : Cred) (id : string)
  | CAttachedDestroy (now : Z) (c : Cred) (clientId sessionTokenId refreshTokenId deviceId : option string)
  (** the task at a position of the list *)
  | CTask (useDb : bool) (n : nat).

Definition without_task (n : nat) (w : DWorld M) : DWorld M :=
  mkDW w.(dw_customs) w.(dw_store) w.(dw_oauth) w.(dw_box) (delete n w.(dw_tasks)) w.(dw_sent) w.(dw_events).

Definition serve (w : DWorld M) (call : DevCall) : DWorld M :=
  match call with
  | CDevice ids now c p => (account_device enabled isValidPublicKey config ids now c p w).1
  | CCommands useDb svc now c limit index => (device_commands config decode useDb svc now c limit index w).1
  | CInvoke useDb svc now c req target command payload ttl =>
      (invoke_command env enabled sendNotification isValidPublicKey config encode command_url useDb svc now c req target command payload ttl w).1
  | CNotify c req to av payload TTL =>
      (devices_notify env enabled sendNotification isValidPublicKey config validPayload c req to av payload TTL w).1
  | CDevices now c idle => (account_devices enabled href_of config now c idle w).1
  | CDeviceDestroy now c id => (device_destroy enabled sendNotification isValidPublicKey href_of limit_r maxttl_r updateAfter now c id w).1
  | CAttachedDestroy now c cl s r d =>
      (attached_client_destroy enabled sendNotification isValidPublicKey href_of limit_r maxttl_r updateAfter now c cl s r d w).1
  | CTask useDb n =>
      match w.(dw_tasks) !! n with
      | Some t => (run_task enabled sendNotification isValidPublicKey (pushboxEnabled config) useDb t (without_task n w)).1
      | None => w
      end
  end.

Lemma serve_ok w call : world_ok w -> world_ok (serve w call).
Proof.
  intros Hw. destruct call; cbn [serve]; try solve [by apply account_device_keeps|by apply device_commands_keeps|by apply invoke_keeps
    |by apply notify_keeps|by apply account_devices_keeps|by apply attached_destroy_keeps].
  - unfold device_destroy. apply dkeeps_bind; [apply destroy_keeps|auto with keeping|done].
  - destruct (dw_tasks w !! n); [|done]. by apply run_task_keeps.
Qed.
End Handlers.

(** A request with the state of the surroundings while it is served: the time
    and the settings of the customs server, and what the push service answers. *)
Record Moment := mkMoment { mo_env : Env; mo_push : string -> Sent -> Outcome; mo_call : DevCall }.

(** [C10] The constraints of the tables hold whatever is requested: after any
    sequence of requests to the device routes and of the tasks that they leave
    behind, at any times and in any order, whatever the push service and the
    databases answer, no two devices of an account have one session or one
    refresh token, only devices that exist offer commands, and the commands
    that wait are numbered in the order in which they came. *)
Theorem device_tables_kept {M} `{Memcached M StoredObject} enabled isValidPublicKey href_of limit_r maxttl_r updateAfter config
    encode decode command_url validPayload (calls : list Moment) (w : DWorld M) :
  world_ok w ->
  world_ok (fold_left (fun w m => serve m.(mo_env) enabled m.(mo_push) isValidPublicKey href_of limit_r maxttl_r updateAfter config encode decode
                                    command_url validPayload w m.(mo_call)) calls w).
Proof. revert w. induction calls as [|call calls IH]; intros w Hw; [done|]. cbn [fold_left]. by apply IH, serve_ok. Qed.

(** ** Updates *)

Lemma isLike_both m m' : isLike m' m && isLike m m' = true <-> m = m'.
Proof.
  unfold isLike. rewrite andb_true_iff, !bool_decide_eq_true. split.
  - intros [H1 H2]. apply map_eq. intros k. destruct (m !! k) as [v|] eqn:E; [symmetry; by apply H1|].
    destruct (m' !! k) as [v'|] eqn:E'; [|done]. apply H2 in E'. congruence.
  - intros ->. by split; intros k v.
Qed.

Lemma differs_false p t : differs p t = false <-> truthy p = None \/ truthy p = t.
Proof.
  unfold differs. destruct (truthy p) as [x|]; [|naive_solver]. rewrite negb_false_iff, bool_decide_eq_true. naive_solver.
Qed.

(** Whichever way a request is authenticated, the credentials do not know the
    push endpoint of the device. *)
Lemma credentials_without_push enabled now id uid rt client st c :
  session_credentials now id st = inl c \/ refresh_credentials enabled uid rt client st = inl c ->
  c.(k_deviceCallbackURL) = None /\ c.(k_deviceCallbackPublicKey) = None.
Proof.
  intros [E|E].
  - unfold session_credentials in E. destruct (sessionTokens st !! id) as [x|]; [|done]. destruct (notExpired _ _ _); [|done]. by injection E as <-.
  - unfold refresh_credentials in E. destruct (db_devices enabled uid st); [|done]. by injection E as <-.
Qed.

(** Which update of a device is skipped as spurious: one for the device of
    the credentials that gives no push endpoint and no key, the name and the
    type that are stored or none, and the stored commands or none.  So an
    update that repeats the push endpoint of the device is never skipped, as
    the credentials do not carry it; and one that clears the endpoint with
    empty strings is. *)
Theorem spurious_update_exact enabled now id uid rt client st c p :
  session_credentials now id st = inl c \/ refresh_credentials enabled uid rt client st = inl c ->
  isSpuriousUpdate p c = true <->
  ostr_truthy c.(k_deviceId) = true /\ p.(i_id) = c.(k_deviceId) /\
  truthy p.(i_callback) = None /\ truthy p.(i_publicKey) = None /\
  (truthy p.(i_name) = None \/ truthy p.(i_name) = c.(k_deviceName)) /\ (truthy p.(i_type) = None \/ truthy p.(i_type) = c.(k_deviceType)) /\
  (p.(i_commands) = None \/ p.(i_commands) = c.(k_deviceAvailableCommands)).
Proof.
  intros Hc. apply credentials_without_push in Hc as [HU HP]. unfold isSpuriousUpdate. rewrite HU, HP.
  destruct (ostr_truthy (k_deviceId c)) eqn:Ed; cbn [negb orb]; [|naive_solver].
  case_bool_decide as Ei; cbn [negb]; [|naive_solver].
  rewrite <- !(differs_false (i_name p)), <- !(differs_false (i_type p)).
  pose proof (differs_false (i_callback p) None) as H1. pose proof (differs_false (i_publicKey p) None) as H2.
  destruct (differs (i_name p) _); [naive_solver|]. destruct (differs (i_type p) _); [naive_solver|].
  destruct (differs (i_callback p) None); [naive_solver|]. destruct (differs (i_publicKey p) None); [naive_solver|].
  destruct (i_commands p) as [m|]; [|naive_solver]. destruct (k_deviceAvailableCommands c) as [m'|]; [|naive_solver].
  rewrite isLike_both. naive_solver.
Qed.

(** The row of a device after an update by its session. *)
Definition updated_row (id : string) (p : DeviceInfo) (r : DevRow) : DevRow :=
  mkDevRow (Some id) r.(w_refresh) (coalesce p.(i_name) r.(w_name)) (coalesce p.(i_type) r.(w_type)) r.(w_createdAt)
    (coalesce p.(i_callback) r.(w_callback)) (coalesce p.(i_publicKey) r.(w_publicKey)) (coalesce p.(i_authKey) r.(w_authKey)) false.

Lemma device_of_session_row uid id st dev r :
  device_of_session uid id st = Some (dev, r) -> st.(devices) !! (uid, dev) = Some r /\ r.(w_session) = Some id.
Proof.
  unfold device_of_session. destruct (filterb _ _) as [|[[u i] q] l] eqn:E; [done|]. cbn. intros [= -> ->].
  assert (((u, dev), r) ∈ filterb (fun kv : string * string * DevRow => String.eqb kv.1.1 uid && shares kv.2.(w_session) (Some id)) (map_to_list st.(devices)))
    as [Hin Hp]%elem_of_filterb by (rewrite E; left).
  apply elem_of_map_to_list in Hin. cbn in Hp. apply andb_true_iff in Hp as [->%String.eqb_eq (x & -> & [= <-])%shares_true]. done.
Qed.

Lemma commands_upsert uid id m st :
  commands_of uid id (upsertAvailableCommands uid id m (purgeAvailableCommands uid id st)) = m.
Proof.
  unfold commands_of. cbn. case_bool_decide as E; [by rewrite lookup_delete_eq|]. rewrite lookup_insert_eq, lookup_delete_eq. cbn. apply map_union_empty.
Qed.

Lemma commands_upsert_ne u i uid id m st :
  (u, i) <> (uid, id) -> commands_of u i (upsertAvailableCommands uid id m (purgeAvailableCommands uid id st)) = commands_of u i st.
Proof.
  intros Hne. unfold commands_of. cbn. case_bool_decide; [by rewrite lookup_delete_ne|]. by rewrite lookup_insert_ne, lookup_delete_ne.
Qed.

(** What is written for the device of the session. *)
Lemma own_update enabled uid id dev r i st :
  store_ok st -> st.(devices) !! (uid, dev) = Some r -> r.(w_session) = Some id -> i.(i_id) = Some dev -> i.(i_session) = Some id -> i.(i_refresh) = None ->
  let st1 := on_devices <[(uid, dev) := mkDevRow (Some id) r.(w_refresh) (coalesce i.(i_name) r.(w_name)) (coalesce i.(i_type) r.(w_type))
               r.(w_createdAt) (coalesce i.(i_callback) r.(w_callback)) (coalesce i.(i_publicKey) r.(w_publicKey))
               (coalesce i.(i_authKey) r.(w_authKey)) (int_bool i.(i_expired))]> st in
  updateDevice enabled uid i st =
    (match i.(i_commands) with Some m => upsertAvailableCommands uid dev m (purgeAvailableCommands uid dev st1) | None => st1 end, inl i).
Proof.
  intros Hok Hr Hs Hi Hsess Href. unfold updateDevice, Device_update, updateDevice_6. rewrite Hi, Hr, Hsess, Href. cbv zeta.
  assert (coalesce (truthy (Some id)) (w_session r) = Some id) as ->.
  { rewrite Hs. apply coalesce_truthy. by right. }
  cbn [w_session w_refresh truthy when_truthy coalesce default from_option].
  pose proof (own_no_clash uid dev r st Hok Hr) as Hn. rewrite Hs in Hn. by rewrite Hn.
Qed.

(** An update of the device of a session: when it is not skipped, it
    succeeds; each field that the request gives replaces the stored one, the
    other fields stay, the commands are replaced as a whole, and no other
    device is touched.  The mark of an expired push endpoint is always
    cleared, whether or not the request gives another endpoint. *)
Theorem device_update_exact {M} enabled isValidPublicKey config ids now id c p (w : DWorld M) dev r :
  world_ok w -> session_credentials now id w.(dw_store) = inl c -> device_of_session c.(k_uid) id w.(dw_store) = Some (dev, r) ->
  str_truthy dev = true -> p.(i_id) = Some dev -> p.(i_expired) = None -> isSpuriousUpdate p c = false ->
  match truthy p.(i_publicKey) with Some k => isValidPublicKey k | None => true end = true -> config.(deviceUpdatesEnabled) = true ->
  exists w' resp, account_device enabled isValidPublicKey config ids now c p w = (w', inl resp) /\
    w'.(dw_store).(devices) = <[(c.(k_uid), dev) := updated_row id p r]> w.(dw_store).(devices) /\
    commands_of c.(k_uid) dev w'.(dw_store) =
      match p.(i_commands) with Some m => if config.(pushboxEnabled) then m else ∅ | None => commands_of c.(k_uid) dev w.(dw_store) end /\
    (forall u i, (u, i) <> (c.(k_uid), dev) -> commands_of u i w'.(dw_store) = commands_of u i w.(dw_store)) /\
    w'.(dw_store).(sessionTokens) = w.(dw_store).(sessionTokens) /\ w'.(dw_tasks) = w.(dw_tasks).
Proof.
  intros [Hok _] Hcred Hdev Hd Hid Hexp Hsp Hkey Hen. apply device_of_session_row in Hdev as [Hr Hs].
  assert (c.(k_id) = Some id /\ c.(k_refreshTokenId) = None) as [Hk Href].
  { unfold session_credentials in Hcred. destruct (sessionTokens _ !! id) as [x|]; [|done]. destruct (notExpired _ _ _); [|done]. by injection Hcred as <-. }
  unfold account_device. rewrite Hid. cbn [ostr_truthy]. rewrite Hd, Hsp, Hen. cbn [andb negb].
  assert (forall A (k : unit -> Do M A), dbind (match truthy p.(i_publicKey) with
            | Some k => if isValidPublicKey k then dret tt else dthrow (DInvalidParameter "invalid pushPublicKey") | None => dret tt end) k w = k tt w) as Hb.
  { intros A k. destruct (truthy (i_publicKey p)) as [x|]; [|done]. by rewrite Hkey. }
  rewrite Hb. clear Hb. unfold upsert. cbv zeta. cbn [i_id i_name i_type i_callback i_publicKey i_authKey i_expired i_commands i_createdAt i_ua ostr_truthy].
  rewrite Hd. cbn [negb andb orb].
  unfold dbind at 1 2 3. cbn [dret]. unfold dput.
  rewrite (own_update enabled (k_uid c) id dev r) by (cbn; done). cbn -[int_bool differs updated_row commands_of upsertAvailableCommands purgeAvailableCommands].
  rewrite Hexp. assert (int_bool (if differs (i_callback p) (k_deviceCallbackURL c) then Some false else None) = false) as -> by (by destruct (differs _ _)).
  destruct (i_commands p) as [m|] eqn:Em.
  - eexists _, _. split; [reflexivity|]. cbn -[updated_row commands_of upsertAvailableCommands purgeAvailableCommands].
    split; [done|]. split; [by rewrite commands_upsert; destruct (pushboxEnabled config)|].
    split; [|done]. intros u i Hne. by rewrite commands_upsert_ne.
  - eexists _, _. split; [reflexivity|]. done.
Qed.

(** ** Removal *)

(** The tables without a device and its session. *)
Definition removed (uid dev : string) (r : DevRow) (st : Devices.Store) : Devices.Store :=
  deleteSessionTokenFromRedis uid r.(w_session)
    (mkStore (delete (uid, dev) st.(devices)) (delete (uid, dev) st.(deviceCommands))
       (match r.(w_session) with Some s => delete s st.(sessionTokens) | None => st.(sessionTokens) end) st.(Devices.redis)).

Lemma deleteDevice_removed uid dev r st :
  st.(devices) !! (uid, dev) = Some r -> deleteDevice uid dev st = (removed uid dev r st, inl (r.(w_session), r.(w_refresh))).
Proof. intros Hr. unfold deleteDevice, deleteDevice_4, removed. by rewrite Hr. Qed.

Lemma removed_devices uid dev r st : (removed uid dev r st).(devices) = delete (uid, dev) st.(devices).
Proof. unfold removed. by destruct (w_session r). Qed.
Lemma removed_commands uid dev r st u i : (u, i) <> (uid, dev) -> commands_of u i (removed uid dev r st) = commands_of u i st.
Proof. intros Hne. unfold commands_of, removed. destruct (w_session r); cbn; by rewrite lookup_delete_ne. Qed.
Lemma removed_own_commands uid dev r st : commands_of uid dev (removed uid dev r st) = ∅.
Proof. unfold commands_of, removed. destruct (w_session r); cbn; by rewrite lookup_delete_eq. Qed.
Lemma removed_sessions uid dev r st :
  (removed uid dev r st).(sessionTokens) = match r.(w_session) with Some s => delete s st.(sessionTokens) | None => st.(sessionTokens) end.
Proof. unfold removed. by destruct (w_session r). Qed.

(** The list of before the removal shows the devices that remain. *)
Lemma listing_removed uid dev r st ds : listing uid st ds -> listing uid (removed uid dev r st) ds.
Proof.
  intros [Hn Hl]. split; [done|]. intros d q Hd Hq. rewrite removed_devices in Hq. apply lookup_delete_Some in Hq as [Hne Hq].
  rewrite removed_commands by congruence. by apply Hl.
Qed.

Definition refresh_row (w : OAuthStore.DB) (t : string) : option OAuthStore.RefreshRow := w.(OAuthStore.mysql).(OAuthStore.m_refresh) !! t.

Lemma revoke_exact {M} href_of limit_r maxttl_r updateAfter now t (w : DWorld M) :
  (forall row, refresh_row w.(dw_oauth) t = Some row -> Scopes.fromString (ScopeValues.getImplicantValues href_of) row.(OAuthStore.r_scope) <> None) ->
  let w' := revoke_refresh href_of limit_r maxttl_r updateAfter now t w in
  refresh_row w'.(dw_oauth) t = None /\ (forall t', t' <> t -> refresh_row w'.(dw_oauth) t' = refresh_row w.(dw_oauth) t') /\
  w'.(dw_store) = w.(dw_store) /\ w'.(dw_box) = w.(dw_box) /\ w'.(dw_tasks) = w.(dw_tasks).
Proof.
  intros Hs. cbv zeta. unfold revoke_refresh, OAuthStore.getRefreshToken. unfold refresh_row in *.
  destruct (OAuthStore.m_refresh (OAuthStore.mysql (dw_oauth w)) !! t) as [row|] eqn:E; [|by destruct w].
  specialize (Hs row eq_refl). destruct (Scopes.fromString _ _) as [sc|]; [|done]. cbn -[OAuthStore.touch].
  split; [by rewrite lookup_delete_eq|]. split; [|done]. intros t' Hne. rewrite lookup_delete_ne by done.
  destruct (_ >? _); [|done]. cbn. by rewrite lookup_alter_ne.
Qed.

(** What the removal of a device leaves. *)
Lemma destroy_spec {M} `{Memcached M StoredObject} enabled sendNotification isValidPublicKey href_of limit_r maxttl_r updateAfter now uid dev
    (w : DWorld M) r :
  world_ok w -> named w.(dw_store) -> (row_count uid w.(dw_store) <= 500)%nat -> str_truthy uid = true ->
  w.(dw_store).(devices) !! (uid, dev) = Some r ->
  (forall t row, refresh_row w.(dw_oauth) t = Some row ->
     Scopes.fromString (ScopeValues.getImplicantValues href_of) row.(OAuthStore.r_scope) <> None) ->
  exists w' ids, destroy enabled sendNotification isValidPublicKey href_of limit_r maxttl_r updateAfter now uid dev w =
      (w', inl (r.(w_session), r.(w_refresh))) /\
    w'.(dw_store).(devices) = marks uid ids (delete (uid, dev) w.(dw_store).(devices)) /\
    commands_of uid dev w'.(dw_store) = ∅ /\
    (forall u i, (u, i) <> (uid, dev) -> commands_of u i w'.(dw_store) = commands_of u i w.(dw_store)) /\
    w'.(dw_store).(sessionTokens) =
      match r.(w_session) with Some s => delete s w.(dw_store).(sessionTokens) | None => w.(dw_store).(sessionTokens) end /\
    (forall t, refresh_row w'.(dw_oauth) t = if bool_decide (truthy r.(w_refresh) = Some t) then None else refresh_row w.(dw_oauth) t) /\
    w'.(dw_tasks) = (w.(dw_tasks) ++ [TClearQueue uid dev])%list /\
    forall t from, PushBox.pending t uid dev from
      (run_task enabled sendNotification isValidPublicKey true true (TClearQueue uid dev) w').1.(dw_box) = [].
Proof.
  intros [Hok Hbox] Hn Hc Hu Hr Hsc. unfold destroy.
  destruct (db_devices enabled uid (dw_store w)) as [peers|e] eqn:Ep; [|by unfold db_devices in Ep; rewrite Hu in Ep].
  pose proof (listing_removed uid dev r _ _ (db_devices_listing enabled uid _ peers Hn Hc Ep)) as Hl.
  unfold dbind at 1, dget. rewrite Ep. unfold dbind at 1, dput. rewrite (deleteDevice_removed uid dev r) by done. cbn [snd].
  set (w1 := with_store (removed uid dev r (dw_store w)) w).
  set (w2 := match truthy (w_refresh r) with Some t => revoke_refresh href_of limit_r maxttl_r updateAfter now t w1 | None => w1 end).
  assert (w2.(dw_store) = removed uid dev r (dw_store w) /\ w2.(dw_tasks) = w.(dw_tasks) /\
    forall t, refresh_row w2.(dw_oauth) t = if bool_decide (truthy (w_refresh r) = Some t) then None else refresh_row w.(dw_oauth) t) as (Hs2 & Ht2 & Ho2).
  { subst w2. destruct (truthy (w_refresh r)) as [t|]; [|done].
    destruct (revoke_exact href_of limit_r maxttl_r updateAfter now t w1) as (H1 & H2 & H3 & H4 & H5); [intros row; apply Hsc|].
    split; [by rewrite H3|]. split; [by rewrite H5|]. intros t'. case_bool_decide as E; [by injection E as <-|]. apply H2. congruence. }
  unfold dbind at 1. fold w2. unfold dbind at 1, dspawn. unfold dbind at 1, dpush. cbn [dw_store]. rewrite Hs2.
  pose proof (deleteDevice_ok uid dev _ Hok) as Hok2. rewrite (deleteDevice_removed uid dev r) in Hok2 by done. cbn [fst] in Hok2.
  destruct (sendPush_listing enabled sendNotification isValidPublicKey uid peers "deviceDisconnected" (Some (PDeviceDisconnected dev))
    (Some TTL_DEVICE_DISCONNECTED) _ Hok2 Hl) as (st' & es & E & [_ M1 M2 M3 _] & _); [apply (bool_decide_eq_true_1 _); by vm_compute|].
  unfold notifyDeviceDisconnected. rewrite E. cbn.
  eexists _, _. split; [reflexivity|]. cbn. rewrite removed_devices in M1.
  split; [exact M1|]. split; [by rewrite M2, removed_own_commands|]. split; [intros u i Hne; by rewrite M2, removed_commands|].
  split; [by rewrite M3, removed_sessions|]. split; [done|]. split; [by rewrite Ht2|].
  intros t from. apply filterb_none. intros x [_ Hx%negb_true_iff]%elem_of_filterb. unfold PushBox.waits. by rewrite Hx.
Qed.

(** [C14] Removing a device takes with it the session and the refresh token that
    belong to it, and the commands it offers; nothing else of the account is
    removed, and nothing changes of the devices that stay, except that their
    push endpoints may be marked as expired when the removal is announced to
    them.  The commands that wait for the device are cleared by the task that
    is left behind. *)
Theorem device_destroyed {M} `{Memcached M StoredObject} enabled sendNotification isValidPublicKey href_of limit_r maxttl_r updateAfter now uid dev
    (w : DWorld M) r :
  world_ok w -> named w.(dw_store) -> (row_count uid w.(dw_store) <= 500)%nat -> str_truthy uid = true ->
  w.(dw_store).(devices) !! (uid, dev) = Some r ->
  (forall t row, refresh_row w.(dw_oauth) t = Some row ->
     Scopes.fromString (ScopeValues.getImplicantValues href_of) row.(OAuthStore.r_scope) <> None) ->
  exists w' ids, destroy enabled sendNotification isValidPublicKey href_of limit_r maxttl_r updateAfter now uid dev w =
      (w', inl (r.(w_session), r.(w_refresh))) /\
    w'.(dw_store).(devices) = marks uid ids (delete (uid, dev) w.(dw_store).(devices)) /\
    commands_of uid dev w'.(dw_store) = ∅ /\
    (forall u i, (u, i) <> (uid, dev) -> commands_of u i w'.(dw_store) = commands_of u i w.(dw_store)) /\
    w'.(dw_store).(sessionTokens) =
      match r.(w_session) with Some s => delete s w.(dw_store).(sessionTokens) | None => w.(dw_store).(sessionTokens) end /\
    (forall t, refresh_row w'.(dw_oauth) t = if bool_decide (truthy r.(w_refresh) = Some t) then None else refresh_row w.(dw_oauth) t) /\
    w'.(dw_tasks) = (w.(dw_tasks) ++ [TClearQueue uid dev])%list /\
    forall t from, PushBox.pending t uid dev from
      (run_task enabled sendNotification isValidPublicKey true true (TClearQueue uid dev) w').1.(dw_box) = [].
Proof. apply destroy_spec. Qed.

(** The request names a token that is not the one of the device. *)
Definition misnamed (named_token own : option string) : Prop := text named_token /\ own <> named_token.

Lemma misnamed_dec named_token own :
  misnamed named_token own /\ ostr_truthy named_token && negb (bool_decide (own = named_token)) = true \/
  ~ misnamed named_token own /\ ostr_truthy named_token && negb (bool_decide (own = named_token)) = false.
Proof.
  unfold misnamed, text, ostr_truthy, str_truthy. destruct named_token as [x|]; [|right; naive_solver].
  destruct (String.eqb_spec x ""); [right; naive_solver|]. case_bool_decide; [right|left]; naive_solver.
Qed.

(** [C33] A client that disconnects a device loses it whatever else it names: when
    it names a session that is not the one of the device it gets an error for
    the session, else when it names a refresh token that is not the one of the
    device it gets an error for that, else it succeeds; the device is gone in
    all cases.  And a client that disconnects a refresh token that is gone
    already gets an error too, although it was meant to be ignored: the number
    of the error that is thrown is not the one that is looked for. *)
Theorem attached_destroy_errors {M} `{Memcached M StoredObject} enabled sendNotification isValidPublicKey href_of limit_r maxttl_r updateAfter now c
    (w : DWorld M) dev r :
  world_ok w -> named w.(dw_store) -> (row_count c.(k_uid) w.(dw_store) <= 500)%nat -> str_truthy c.(k_uid) = true -> str_truthy dev = true ->
  w.(dw_store).(devices) !! (c.(k_uid), dev) = Some r ->
  (forall t row, refresh_row w.(dw_oauth) t = Some row ->
     Scopes.fromString (ScopeValues.getImplicantValues href_of) row.(OAuthStore.r_scope) <> None) ->
  let serve := attached_client_destroy enabled sendNotification isValidPublicKey href_of limit_r maxttl_r updateAfter now c in
  (forall clientId session refresh, exists w' reply, serve clientId session refresh (Some dev) w = (w', reply) /\
     w'.(dw_store).(devices) !! (c.(k_uid), dev) = None /\
     (misnamed session r.(w_session) -> reply = inr (DInvalidParameter "sessionTokenId did not match device record")) /\
     (~ misnamed session r.(w_session) -> misnamed refresh r.(w_refresh) ->
        reply = inr (DInvalidParameter "refreshTokenId did not match device record")) /\
     (~ misnamed session r.(w_session) -> ~ misnamed refresh r.(w_refresh) -> reply = inl tt)) /\
  (forall clientId t, str_truthy t = true -> refresh_row w.(dw_oauth) t = None ->
     exists w', serve (Some clientId) None (Some t) None w = (w', inr (DOAuth 122)) /\ w'.(dw_store) = w.(dw_store)).
Proof.
  intros Hw Hn Hc Hu Hd Hr Hsc serve. unfold serve, attached_client_destroy. split.
  - intros clientId session refresh.
    destruct (destroy_spec enabled sendNotification isValidPublicKey href_of limit_r maxttl_r updateAfter now c.(k_uid) dev w r Hw Hn Hc Hu Hr Hsc)
      as (w' & ids & E & Hdev & _). unfold truthy at 1. cbn [when_truthy]. rewrite Hd. unfold dbind at 1. rewrite E. cbn [fst snd].
    assert (w'.(dw_store).(devices) !! (c.(k_uid), dev) = None) as Hgone
      by (rewrite Hdev; unfold marks; by rewrite map_lookup_imap, lookup_delete_eq).
    destruct (misnamed_dec session (w_session r)) as [[Hm ->]|[Hm ->]]; [exists w'; eexists; split; [done|tauto]|].
    destruct (misnamed_dec refresh (w_refresh r)) as [[Hm' ->]|[Hm' ->]]; exists w'; eexists; (split; [done|tauto]).
  - intros clientId t Ht Hrow. cbn [truthy when_truthy ostr_truthy]. unfold truthy. cbn [when_truthy]. rewrite Ht.
    unfold OAuthStore.deleteClientRefreshToken, OAuthStore._deleteClientRefreshToken.
    unfold refresh_row in Hrow. rewrite Hrow. cbn. eauto.
Qed.

(** ** An example *)

Definition plain_config : DevConfig := mkDevConfig true true 2592000000 true true "https://api/".
Definition no_oauth : OAuthStore.DB := OAuthStore.mkDB OAuthStore.empty_cache (OAuthStore.mkMysql ∅ ∅ ∅ ∅).
Definition plain_world : DWorld _ := mkDW ServerLaws.empty two_devices no_oauth PushBox.some_box [] [] [].

Lemma plain_world_ok : world_ok plain_world.
Proof. split; [exact two_devices_ok|exact PushBox.some_box_ok]. Qed.

Definition tablet_cred : Cred := match session_credentials 100 "s1" two_devices with inl c => c | inr _ => mkCred "" None None None false None None None None None None false None no_ua end.

Definition some_calls : list Moment :=
  [mkMoment (ServerLaws.sample_env 0) gone_1 (CDevices 100 tablet_cred None);
   mkMoment (ServerLaws.sample_env 100) gone_1 (CDeviceDestroy 100 tablet_cred "d2");
   mkMoment (ServerLaws.sample_env 150) (fun _ _ => Delivered) (CTask true 0);
   mkMoment (ServerLaws.sample_env 200) (fun _ _ => Failed None)
     (CDevice ["d3"] 200 (mkCred "u" (Some "s9") None None true None None None None None None false None no_ua) no_info)].

Lemma device_tables_kept_witness :
  world_ok (fold_left (fun w m => serve m.(mo_env) (fun _ => true) m.(mo_push) (fun _ => true) (fun _ => None) 100 100 100 plain_config
    (fun c => c.(cm_command)) (fun _ => None) (fun u _ => u) (fun _ => true) w m.(mo_call)) some_calls plain_world).
Proof. apply device_tables_kept. exact plain_world_ok. Defined.

(** The tablet gets another name; an expired endpoint is no longer marked. *)
Definition rename : DeviceInfo := mkInfo (Some "d1") None None (Some "Slate") None None None None None None None no_ua.

Lemma device_update_exact_witness :
  exists w' resp, account_device (fun _ => true) (fun _ => true) plain_config [] 100 tablet_cred rename plain_world = (w', inl resp) /\
    w'.(dw_store).(devices) = <[("u", "d1") := updated_row "s1" rename tablet_row]> two_devices.(devices).
Proof.
  destruct (device_update_exact (fun _ => true) (fun _ => true) plain_config [] 100 "s1" tablet_cred rename plain_world "d1" tablet_row)
    as (w' & resp & H1 & H2 & _); [exact plain_world_ok|by vm_compute..|]. eauto.
Defined.

Lemma spurious_update_exact_witness :
  (isSpuriousUpdate (mkInfo (Some "d1") None None None None (Some "") (Some "") (Some "") None None None no_ua) tablet_cred = true) /\
  isSpuriousUpdate (mkInfo (Some "d1") None None None None tablet_row.(w_callback) tablet_row.(w_publicKey) tablet_row.(w_authKey) None None None no_ua) tablet_cred
    = false.
Proof.
  split; [|by vm_compute].
  apply (proj2 (spurious_update_exact (fun _ => true) 100 "s1" "" "" "" two_devices tablet_cred _ (or_introl eq_refl))). split_and!; try done; by left.
Defined.

Lemma device_destroyed_witness :
  exists w', destroy (fun _ => true) gone_1 (fun _ => true) (fun _ => None) 100 100 100 500 "u" "d2" plain_world = (w', inl (None, Some "r1")) /\
    w'.(dw_tasks) = [TClearQueue "u" "d2"].
Proof.
  destruct (device_destroyed (fun _ => true) gone_1 (fun _ => true) (fun _ => None) 100 100 100 500 "u" "d2" plain_world laptop_row)
    as (w' & ids & H1 & _ & _ & _ & _ & _ & H2 & _);
    [exact plain_world_ok|exact two_devices_named|apply Nat.leb_le; by vm_compute|done|by vm_compute|by intros t row|]. eauto.
Defined.

Lemma attached_destroy_errors_witness :
  let serve := attached_client_destroy (fun _ => true) gone_1 (fun _ => true) (fun _ => None) 100 100 100 500 tablet_cred in
  (exists w', serve None (Some "s7") None (Some "d2") plain_world = (w', inr (DInvalidParameter "sessionTokenId did not match device record")) /\
     w'.(dw_store).(devices) !! ("u", "d2") = None) /\
  (exists w', serve None None (Some "r7") (Some "d2") plain_world = (w', inr (DInvalidParameter "refreshTokenId did not match device record")) /\
     w'.(dw_store).(devices) !! ("u", "d2") = None) /\
  (exists w', serve None None (Some "r1") (Some "d2") plain_world = (w', inl tt) /\ w'.(dw_store).(devices) !! ("u", "d2") = None) /\
  (exists w', serve (Some "c1") None (Some "rX") None plain_world = (w', inr (DOAuth 122))).
Proof.
  destruct (attached_destroy_errors (fun _ => true) gone_1 (fun _ => true) (fun _ => None) 100 100 100 500 tablet_cred plain_world "d2" laptop_row
    plain_world_ok two_devices_named) as [Hdev Htok]; [apply Nat.leb_le; by vm_compute|by vm_compute..|done|].
  cbv zeta. split_and!.
  - destruct (Hdev None (Some "s7") None) as (w' & reply & E & Hg & H1 & _). exists w'. split; [|exact Hg]. rewrite E, H1; [reflexivity|].
    split; [exists "s7"; split; [reflexivity|discriminate]|discriminate].
  - destruct (Hdev None None (Some "r7")) as (w' & reply & E & Hg & _ & H1 & _). exists w'. split; [|exact Hg]. rewrite E, H1; [reflexivity| |].
    + intros [(x & Hx & _) _]. discriminate Hx.
    + split; [exists "r7"; split; [reflexivity|discriminate]|discriminate].
  - destruct (Hdev None None (Some "r1")) as (w' & reply & E & Hg & _ & _ & H1). exists w'. split; [|exact Hg]. rewrite E, H1; [reflexivity| |].
    + intros [(x & Hx & _) _]. discriminate Hx.
    + intros [_ Hx]. apply Hx. reflexivity.
  - destruct (Htok "c1" "rX" eq_refl eq_refl) as (w' & E & _). exists w'. exact E.
Defined.
