(* ===== verification/Firestore.v ===== *)
(** * Firestore, as the in-app purchase managers use it

    A collection of documents, each an object of scalar fields: reading a
    document by its id, [set], [update], and queries that are conjunctions of
    equalities, with their documented effect, as an interface; the clients of
    the interface never look inside a collection.  Every command may be
    rejected, and a rejected write may or may not have reached the
    collection. *)

From Stdlib Require Import Ascii.
From S2P Require Import Prelude Text.
From S2P Require Settings.

#[local] Open Scope string_scope.
#[local] Open Scope Z_scope.

(** ** Fields *)

(** A field of a document; [undefined] is the absence of the field.  An object
    or an array is only carried along, as its JSON text. *)
Inductive fval := FNull | FBool (b : bool) | FNum (n : num) | FStr (s : string) | FObj (json : string).

#[export] Instance fval_eq_dec : EqDecision fval.
Proof. solve_decision. Defined.

Definition doc := jsobj fval.

(** [!!v] *)
Definition fv_truthy (v : option fval) : bool :=
  match v with
  | None | Some FNull => false
  | Some (FBool b) => b
  | Some (FNum n) => match n with Some z => negb (z =? 0) | None => false end
  | Some (FStr s) => str_truthy s
  | Some (FObj _) => true
  end.

(** [Number(s)] on a string: blanks around it are dropped, an empty string is
    0, a string of decimal digits with an optional sign is that integer.  The
    services write the 64-bit integers of their documentation in this form;
    anything else is [NaN] here. *)
Definition number_of_string (s : string) : num :=
  match trim s with
  | EmptyString => Some 0
  | String a t as s' =>
      if (Ascii.eqb a "-"%char || Ascii.eqb a "+"%char) && str_truthy t
      then (if Ascii.eqb a "-"%char then Z.opp else id) <$> Settings.decimal 0 t
      else Settings.decimal 0 s'
  end.

(** [Number(v)], the conversion of [<] and [<=] too *)
Definition to_number (v : option fval) : num :=
  match v with
  | None => None
  | Some FNull => Some 0
  | Some (FBool b) => Some (if b then 1 else 0)
  | Some (FNum n) => n
  | Some (FStr s) => number_of_string s
  | Some (FObj _) => None
  end.

(** [a <= b] on numbers *)
Definition num_leb (a b : num) : bool :=
  match a, b with Some x, Some y => x <=? y | _, _ => false end.

(** [v === s] and the like *)
Definition fv_is (v : option fval) (w : fval) : bool := bool_decide (v = Some w).

(** [Object.assign(a, b)], [{...a, ...b}] *)
Definition assign {V} (a b : jsobj V) : jsobj V := fold_left (fun o kv => obj_set o kv.1 kv.2) b a.

(** The copy of a stored record into a purchase object: every field the object
    does not have (an inherited method counts as one it has), the store's own
    bookkeeping apart. *)
Definition merge_key (internal inherited : list string) (firestoreObject p : doc) (key : string) : doc :=
  if bool_decide (key ∈ inherited) || obj_has p key || bool_decide (key ∈ internal) then p
  else match obj_get firestoreObject key with Some v => obj_set p key v | None => p end.

Definition merge_record (internal inherited : list string) (purchase firestoreObject : doc) : doc :=
  fold_left (merge_key internal inherited firestoreObject) firestoreObject.*1 purchase.

(** ** The interface *)

(** [where(k1, '==', v1).where(k2, '==', v2)...] *)
Definition matches (ws : list (string * fval)) (d : doc) : bool :=
  forallb (fun w => fv_is (obj_get d w.1) w.2) ws.

Class Firestore (F : Type) := {
  doc_get : F -> string -> F * option (option doc);
  doc_set : F -> string -> doc -> F * bool;
  doc_update : F -> string -> doc -> F * bool;
  query : F -> list (string * fval) -> F * option (list doc);
  (** What the collection holds. *)
  docs : F -> gmap string doc }.

Class FirestoreLaws (F : Type) `{Firestore F} : Prop := {
  doc_get_ok f id f' r : doc_get f id = (f', r) ->
    docs f' = docs f /\ forall d, r = Some d -> docs f !! id = d;
  doc_set_ok f id d f' ok : doc_set f id d = (f', ok) ->
    docs f' = <[id := d]> (docs f) \/ ok = false /\ docs f' = docs f;
  doc_update_ok f id d f' ok : doc_update f id d = (f', ok) ->
    (exists old, docs f !! id = Some old /\ docs f' = <[id := assign old d]> (docs f)) \/
    ok = false /\ docs f' = docs f;
  query_ok f ws f' r : query f ws = (f', r) ->
    docs f' = docs f /\
    forall l, r = Some l -> l ≡ₚ (map_to_list (filter (fun e => matches ws e.2 = true) (docs f))).*2 }.

(** A collection that answers: only an [update] of a document that is not
    there is rejected. *)
Class FirestoreUp (F : Type) `{Firestore F} : Prop := {
  doc_get_up f id f' r : doc_get f id = (f', r) -> is_Some r;
  doc_set_up f id d f' ok : doc_set f id d = (f', ok) -> ok = true;
  doc_update_up f id d f' ok : doc_update f id d = (f', ok) -> is_Some (docs f !! id) -> ok = true;
  query_up f ws f' r : query f ws = (f', r) -> is_Some r }.

(** ** A collection on which no command fails *)

Record Collection := mkCollection { held : gmap string doc }.

#[export] Instance collection_firestore : Firestore Collection := {
  doc_get f id := (f, Some (f.(held) !! id));
  doc_set f id d := (mkCollection (<[id := d]> f.(held)), true);
  doc_update f id d :=
    match f.(held) !! id with
    | Some old => (mkCollection (<[id := assign old d]> f.(held)), true)
    | None => (f, false)
    end;
  query f ws := (f, Some (map_to_list (filter (fun e => matches ws e.2 = true) f.(held))).*2);
  docs := held }.

#[export] Instance collection_laws : FirestoreLaws Collection.
Proof.
  constructor; cbn.
  - intros f id f' r [= <- <-]. split; [done|]. by intros d [= <-].
  - intros f id d f' ok [= <- <-]. by left.
  - intros f id d f' ok. destruct (held f !! id) as [old|] eqn:E; intros [= <- <-]; [left; eauto|by right].
  - intros f ws f' r [= <- <-]. split; [done|]. by intros l [= <-].
Qed.

#[export] Instance collection_up : FirestoreUp Collection.
Proof.
  constructor; cbn; [by intros ? ? ? ? [= _ <-]|by intros ? ? ? ? ? [= _ <-]| |by intros ? ? ? ? [= _ <-]].
  intros f id d f' ok. destruct (held f !! id); [by intros [= _ <-]|by intros _ [? ?]].
Qed.

(** ** Objects *)

Lemma obj_get_assign_none {V} (a b : jsobj V) k : obj_get b k = None -> obj_get (assign a b) k = obj_get a k.
Proof.
  unfold assign. revert a. induction b as [|[k' v] b IH]; intros a; cbn; [done|].
  destruct (String.eqb_spec k' k) as [->|Hne]; [done|]. intros E. rewrite (IH _ E). by rewrite obj_get_set_ne.
Qed.

Lemma obj_get_assign {V} (a b : jsobj V) k : NoDup b.*1 ->
  obj_get (assign a b) k = match obj_get b k with Some v => Some v | None => obj_get a k end.
Proof.
  unfold assign. revert a. induction b as [|[k' v] b IH]; intros a; cbn; [done|]. intros [Hk Hb]%NoDup_cons.
  rewrite (IH _ Hb). destruct (String.eqb_spec k' k) as [->|Hne].
  - by rewrite (proj2 (obj_get_none_keys b k) Hk), obj_get_set_eq.
  - by rewrite obj_get_set_ne.
Qed.

Lemma assign_nil_nodup {V} (b : jsobj V) : NoDup (assign [] b).*1.
Proof.
  unfold assign. assert (forall a : jsobj V, NoDup a.*1 -> NoDup (fold_left (fun o kv => obj_set o kv.1 kv.2) b a).*1) as Hb;
    [|apply Hb; constructor].
  induction b as [|[k v] b IH]; intros a Ha; cbn; [done|]. apply IH. by apply obj_set_keys_nodup.
Qed.

Lemma merge_key_get internal inherited fo p key k :
  obj_get (merge_key internal inherited fo p key) k =
  match obj_get p k with
  | Some v => Some v
  | None => if bool_decide (k = key /\ ~ (k ∈ inherited) /\ ~ (k ∈ internal)) then obj_get fo k else None
  end.
Proof.
  unfold merge_key, obj_has. destruct (decide (k = key)) as [<-|Hne].
  - destruct (obj_get p k) as [v|] eqn:Hp; [by rewrite orb_true_r|]. rewrite orb_false_r.
    repeat case_bool_decide; cbn; try tauto. destruct (obj_get fo k) as [v|]; [by rewrite obj_get_set_eq|done].
  - rewrite (bool_decide_eq_false_2 (k = key /\ _)) by tauto.
    assert (forall o : option fval, match o with Some v => Some v | None => None end = o) as -> by (by intros []).
    destruct (_ || _ || _); [done|]. destruct (obj_get fo key); [by rewrite obj_get_set_ne|done].
Qed.

(** What an object has after a stored record was copied into it. *)
Lemma merge_record_get internal inherited p fo k :
  obj_get (merge_record internal inherited p fo) k =
  match obj_get p k with
  | Some v => Some v
  | None => if bool_decide (~ (k ∈ inherited) /\ ~ (k ∈ internal)) then obj_get fo k else None
  end.
Proof.
  unfold merge_record. set (g := merge_key internal inherited fo).
  assert (forall ks q, obj_get (fold_left g ks q) k = match obj_get q k with Some v => Some v | None =>
      if bool_decide (k ∈ ks /\ ~ (k ∈ inherited) /\ ~ (k ∈ internal)) then obj_get fo k else None end) as ->.
  { induction ks as [|key ks IH]; intros q; cbn [fold_left].
    - destruct (obj_get q k); [done|]. by rewrite bool_decide_eq_false_2 by set_solver.
    - rewrite IH. unfold g. rewrite merge_key_get. destruct (obj_get q k); [done|].
      repeat case_bool_decide; try done; try set_solver; by destruct (obj_get fo k). }
  destruct (obj_get p k); [done|]. destruct (obj_get fo k) as [v|] eqn:E; [|by repeat case_bool_decide].
  assert (k ∈ fo.*1) as Hk. { destruct (decide (k ∈ fo.*1)); [done|]. by rewrite (proj2 (obj_get_none_keys fo k)) in E. }
  repeat case_bool_decide; tauto.
Qed.

(** ** Collections of owned documents

    The field [userId] of a document names its owner.  [gone] are the names
    that stand for an owner that was removed. *)

Section Owners.
Context (gone : string -> Prop).
Implicit Types (m : gmap string doc) (d : doc).

Definition owned_by (u : string) d : Prop := obj_get d "userId" = Some (FStr u).

(** The owner is kept, or removed for good. *)
Definition owner_next (u : string) d : Prop :=
  owned_by u d \/ exists s, gone s /\ str_truthy s = true /\ owned_by s d.

Definition step_at (id : string) m m' : Prop :=
  forall d, m !! id = Some d -> exists d', m' !! id = Some d' /\
    forall u, str_truthy u = true -> owned_by u d -> owner_next u d'.

Definition owners_kept m m' : Prop := forall id, step_at id m m'.

#[export] Instance step_at_preorder id : PreOrder (step_at id).
Proof.
  split; [intros m d Hd; exists d; split; [done|by left]|]. intros m1 m2 m3 H12 H23 d Hd.
  destruct (H12 d Hd) as (d2 & Hd2 & H2). destruct (H23 d2 Hd2) as (d3 & Hd3 & H3). exists d3. split; [done|].
  intros u Hu Hd'. destruct (H2 u Hu Hd') as [E|(s & Hs & Ht & E)]; [by apply H3|].
  destruct (H3 s Ht E) as [?|?]; right; eauto.
Qed.

#[export] Instance owners_kept_preorder : PreOrder owners_kept.
Proof. split; [by intros m id|]. intros m1 m2 m3 H12 H23 id. etrans; [apply H12|apply H23]. Qed.

Lemma step_at_insert_ne id id' m d : id <> id' -> step_at id m (<[id' := d]> m).
Proof. intros Hne d0 Hd. exists d0. rewrite lookup_insert_ne by done. split; [done|]. by left. Qed.

Lemma step_insert_new m id d : m !! id = None -> owners_kept m (<[id := d]> m).
Proof.
  intros Hm id'. destruct (decide (id' = id)) as [->|]; [|by apply step_at_insert_ne]. intros d0 Hd. congruence.
Qed.

Lemma step_insert_some m id d d' : m !! id = Some d ->
  (forall u, str_truthy u = true -> owned_by u d -> owner_next u d') -> owners_kept m (<[id := d']> m).
Proof.
  intros Hm Hd id'. destruct (decide (id' = id)) as [->|]; [|by apply step_at_insert_ne].
  intros d0 Hd0. exists d'. rewrite lookup_insert_eq. split; [done|]. rewrite Hm in Hd0. by injection Hd0 as <-.
Qed.

(** An [update] that does not name the owner. *)
Lemma step_update m id d fields : m !! id = Some d -> obj_get fields "userId" = None -> owners_kept m (<[id := assign d fields]> m).
Proof.
  intros Hm Hf. eapply step_insert_some; [done|]. intros u _ Hu. left. unfold owned_by. by rewrite obj_get_assign_none.
Qed.

(** An [update] that names the owner of a document that had none. *)
Lemma step_claim m id d u : m !! id = Some d -> fv_truthy (obj_get d "userId") = false ->
  owners_kept m (<[id := assign d [("userId", FStr u)]]> m).
Proof.
  intros Hm Hd. eapply step_insert_some; [done|]. intros u' Hu' Ho. unfold owned_by in Ho. rewrite Ho in Hd. cbn in Hd. congruence.
Qed.
End Owners.

Lemma assign_owner d u : owned_by u (assign d [("userId", FStr u)]).
Proof. unfold owned_by. by rewrite obj_get_assign by (repeat constructor; set_solver). Qed.
