(* ===== verification/PlayPurchases.v ===== *)
(** * Google Play purchases

    The purchase objects of
    packages/fxa-shared/payments/iap/google-play/subscription-purchase.ts, the
    purchase managers of packages/fxa-shared and packages/fxa-auth-server
    (payments/iap/google-play/purchase-manager.ts) and the user manager
    (user-manager.ts), over a Firestore collection and the answers of the Play
    Developer API. *)

From S2P Require Import Prelude Firestore.

#[local] Open Scope string_scope.
#[local] Open Scope Z_scope.

(** The names of the errors of the two purchase managers; [Raw] is an error of
    the store itself, which carries none of these names. *)
Inductive IapError := InvalidToken | OtherError | Conflict | InvalidOriginalTransactionId | NotFound | Raw.

#[export] Instance IapError_eq_dec : EqDecision IapError.
Proof. solve_decision. Defined.

(** ** Purchase objects *)

Definition INTERNAL_KEYS : list string := ["skuType"; "formOfPayment"].

Definition GOOGLE_PLAY_FORM_OF_PAYMENT : string := "GOOGLE_PLAY".

Definition SUBS : string := "subs".

(** The methods of [PlayStoreSubscriptionPurchase]. *)
Definition play_methods : list string :=
  (["toFirestoreObject"; "mergeWithFirestorePurchaseRecord"; "isRegisterable"; "isEntitlementActive"; "willRenew";
    "isTestPurchase"; "isFreeTrial"; "isGracePeriod"; "isAccountHold"; "isPaused"; "activeUntilDate"]
   ++ object_prototype)%list.

(** [purchaseToFirestoreObject(purchase, skuType)] *)
Definition purchaseToFirestoreObject (purchase : doc) (skuType : string) : doc :=
  obj_set (obj_set (assign [] purchase) "formOfPayment" (FStr GOOGLE_PLAY_FORM_OF_PAYMENT)) "skuType" (FStr skuType).

Definition mergePurchaseWithFirestorePurchaseRecord : doc -> doc -> doc := merge_record INTERNAL_KEYS play_methods.

(** [if (purchase[k]) purchase[k] = Number(purchase[k]);] *)
Definition number_field (purchase : doc) (k : string) : doc :=
  let v := obj_get purchase k in if fv_truthy v then obj_set purchase k (FNum (to_number v)) else purchase.

(** [PlayStoreSubscriptionPurchase.fromApiResponse] *)
Definition fromApiResponse (apiResponse : doc) (packageName purchaseToken sku : string) (verifiedAt : Z) : doc :=
  let purchase := assign [] (obj_set apiResponse "developerPayload" FNull) in
  let purchase := obj_set purchase "purchaseToken" (FStr purchaseToken) in
  let purchase := obj_set purchase "sku" (FStr sku) in
  let purchase := obj_set purchase "verifiedAt" (FNum (Some verifiedAt)) in
  let purchase := obj_set purchase "replacedByAnotherPurchase" (FBool false) in
  let purchase := obj_set purchase "packageName" (FStr packageName) in
  let isMutable :=
    match obj_get purchase "autoRenewing" with
    | Some v => if fv_truthy (Some v) then v
                else FBool (num_ltb (Some verifiedAt) (to_number (obj_get purchase "expiryTimeMillis")))
    | None => FBool (num_ltb (Some verifiedAt) (to_number (obj_get purchase "expiryTimeMillis")))
    end in
  let purchase := obj_set purchase "isMutable" isMutable in
  fold_left number_field
    ["startTimeMillis"; "expiryTimeMillis"; "autoResumeTimeMillis"; "priceAmountMicros"; "userCancellationTimeMillis"]
    purchase.

(** [PlayStoreSubscriptionPurchase.fromFirestoreObject] *)
Definition fromFirestoreObject (firestoreObject : doc) : doc := mergePurchaseWithFirestorePurchaseRecord [] firestoreObject.

Definition toFirestoreObject (purchase : doc) : doc := purchaseToFirestoreObject purchase SUBS.

Definition expiry (p : doc) : num := to_number (obj_get p "expiryTimeMillis").

Definition isRegisterable (now : Z) (p : doc) : bool := num_leb (Some now) (expiry p).

Definition isEntitlementActive (now : Z) (p : doc) : bool :=
  num_leb (Some now) (expiry p) && negb (fv_truthy (obj_get p "replacedByAnotherPurchase")).

(** [PaymentState.PENDING], [PaymentState.RECEIVED], [PaymentState.FREE_TRIAL] *)
Definition PENDING : fval := FNum (Some 0).
Definition RECEIVED : fval := FNum (Some 1).
Definition FREE_TRIAL : fval := FNum (Some 2).

Definition willRenew (p : doc) : bool := fv_truthy (obj_get p "autoRenewing").

Definition isTestPurchase (p : doc) : bool := fv_is (obj_get p "purchaseType") (FNum (Some 0)).

Definition isFreeTrial (p : doc) : bool := fv_is (obj_get p "paymentState") FREE_TRIAL.

Definition isGracePeriod (now : Z) (p : doc) : bool :=
  fv_is (obj_get p "paymentState") PENDING && num_leb (Some now) (expiry p) && fv_is (obj_get p "autoRenewing") (FBool true).

Definition isAccountHold (now : Z) (p : doc) : bool :=
  num_gtb (Some now) (expiry p) && fv_is (obj_get p "autoRenewing") (FBool true) &&
  fv_is (obj_get p "paymentState") PENDING && num_gtb (to_number (obj_get p "verifiedAt")) (expiry p).

Definition isPaused (now : Z) (p : doc) : bool :=
  num_gtb (Some now) (expiry p) && fv_is (obj_get p "autoRenewing") (FBool true) &&
  fv_is (obj_get p "paymentState") RECEIVED && num_gtb (to_number (obj_get p "verifiedAt")) (expiry p).

(** ** The purchase manager *)

Definition REPLACED_PURCHASE_USERID_PLACEHOLDER : string := "invalid".

(** What [purchases.subscriptions.get] answers during a request: the data of
    the purchases it knows, by package name, product id and token, and the
    code of the error for the others. *)
Record PlayApi := mkPlayApi {
  answers : gmap (string * string * string) doc;
  failure_code : string * string * string -> Z }.

Definition api_get (api : PlayApi) (k : string * string * string) : doc + Z :=
  match api.(answers) !! k with Some d => inl d | None => inr (api.(failure_code) k) end.

(** How [disableReplacedSubscription] ends. *)
Inductive outcome := Finished | Rejected | OutOfFuel.

Record SubscriptionNotification := mkNotification {
  sn_type : Z; sn_purchaseToken : string; sn_subscriptionId : string }.

(** [NotificationType.SUBSCRIPTION_PURCHASED] *)
Definition SUBSCRIPTION_PURCHASED : Z := 4.

Section PurchaseManager.
Context {F : Type} `{Firestore F} (api : PlayApi) (now : Z).

Definition convertPlayAPIErrorToLibraryError (code : Z) : IapError := if code =? 404 then InvalidToken else OtherError.

(** The next token of a chain of replaced purchases; the store rejects a
    document id that is not a string. *)
Definition linked_token (purchase : doc) : option (option string) :=
  let v := obj_get purchase "linkedPurchaseToken" in
  if fv_truthy v then Some (match v with Some (FStr t) => Some t | _ => None end) else None.

Definition disabled_fields : doc :=
  [("replacedByAnotherPurchase", FBool true); ("userId", FStr REPLACED_PURCHASE_USERID_PLACEHOLDER)].

Fixpoint disableReplacedSubscription (fuel : nat) (f : F) (packageName sku purchaseToken : string) : F * outcome :=
  match fuel with
  | O => (f, OutOfFuel)
  | S fuel =>
      let '(f, got) := doc_get f purchaseToken in
      match got with
      | None => (f, Rejected)
      | Some (Some data) =>
          if fv_truthy (obj_get data "replacedByAnotherPurchase") then (f, Finished)
          else let '(f, ok) := doc_update f purchaseToken disabled_fields in (f, if ok : bool then Finished else Rejected)
      | Some None =>
          match api_get api (packageName, sku, purchaseToken) with
          | inr _ => (f, Finished)
          | inl apiResponse =>
              let purchase := fromApiResponse apiResponse packageName purchaseToken sku now in
              let purchase := obj_set purchase "replacedByAnotherPurchase" (FBool true) in
              let purchase := obj_set purchase "userId" (FStr REPLACED_PURCHASE_USERID_PLACEHOLDER) in
              let '(f, ok) := doc_set f purchaseToken (toFirestoreObject purchase) in
              if ok : bool then
                match linked_token purchase with
                | None => (f, Finished)
                | Some None => (f, Rejected)
                | Some (Some linked) => disableReplacedSubscription fuel f packageName sku linked
                end
              else (f, Rejected)
          end
      end
  end.

(** Every step of a chain stores a purchase the API knows; with one more unit
    of fuel than the API has purchases a chain ends. *)
Definition chain_fuel : nat := S (size api.(answers)).

Definition querySubscriptionPurchase (f : F) (packageName sku purchaseToken : string)
    (triggerNotificationType : option Z) : F * (doc + IapError) :=
  match api_get api (packageName, sku, purchaseToken) with
  | inr code => (f, inr (convertPlayAPIErrorToLibraryError code))
  | inl apiResponse =>
      let '(f, got) := doc_get f purchaseToken in
      match got with
      | None => (f, inr OtherError)
      | Some purchaseRecordDoc =>
          let purchase := fromApiResponse apiResponse packageName purchaseToken sku now in
          let purchase := match triggerNotificationType with
                          | Some t => obj_set purchase "latestNotificationType" (FNum (Some t))
                          | None => purchase
                          end in
          let firestoreObject := toFirestoreObject purchase in
          match purchaseRecordDoc with
          | Some data =>
              let '(f, ok) := doc_update f purchaseToken firestoreObject in
              if ok : bool then (f, inl (mergePurchaseWithFirestorePurchaseRecord purchase data)) else (f, inr OtherError)
          | None =>
              let '(f, ok) := doc_set f purchaseToken firestoreObject in
              if ok : bool then
                match linked_token purchase with
                | None => (f, inl purchase)
                | Some None => (f, inr OtherError)
                | Some (Some linked) =>
                    let '(f, r) := disableReplacedSubscription chain_fuel f packageName sku linked in
                    (f, match r with Finished => inl purchase | _ => inr OtherError end)
                end
              else (f, inr OtherError)
          end
      end
  end.

Definition getPurchase (f : F) (purchaseToken : string) : F * (option doc + IapError) :=
  let '(f, got) := doc_get f purchaseToken in
  (f, match got with None => inr Raw | Some r => inl (fromFirestoreObject <$> r) end).

Definition forceRegisterToUserAccount (f : F) (purchaseToken userId : string) : F * (unit + IapError) :=
  let '(f, ok) := doc_update f purchaseToken [("userId", FStr userId)] in
  (f, if ok : bool then inl tt else inr OtherError).

(** The purchase to register: the stored one, or one the API vouches for. *)
Definition purchase_to_register (f : F) (packageName sku purchaseToken : string) : F * (doc + IapError) :=
  let '(f, stored) := getPurchase f purchaseToken in
  match stored with
  | inr e => (f, inr e)
  | inl (Some purchase) => (f, inl purchase)
  | inl None =>
      let '(f, r) := querySubscriptionPurchase f packageName sku purchaseToken None in
      (f, match r with inl purchase => inl purchase | inr _ => inr InvalidToken end)
  end.

Definition registerToUserAccount (f : F) (packageName sku purchaseToken userId : string) : F * (doc + IapError) :=
  let '(f, r) := purchase_to_register f packageName sku purchaseToken in
  match r with
  | inr e => (f, inr e)
  | inl purchase =>
      if negb (isRegisterable now purchase) then (f, inr InvalidToken)
      else if fv_is (obj_get purchase "userId") (FStr userId) then (f, inl purchase)
      else if fv_truthy (obj_get purchase "userId") then (f, inr Conflict)
      else let '(f, r) := forceRegisterToUserAccount f purchaseToken userId in
           (f, match r with inl _ => inl purchase | inr e => inr e end)
  end.

Definition processDeveloperNotification (f : F) (packageName : string)
    (notification : option SubscriptionNotification) : F * (option doc + IapError) :=
  match notification with
  | None => (f, inl None)
  | Some n =>
      if n.(sn_type) =? SUBSCRIPTION_PURCHASED then (f, inl None)
      else let '(f, r) := querySubscriptionPurchase f packageName n.(sn_subscriptionId) n.(sn_purchaseToken) (Some n.(sn_type)) in
           (f, match r with inl p => inl (Some p) | inr e => inr e end)
  end.

(** ** The user manager *)

Definition play_query (userId : string) (sku packageName : option string) : list (string * fval) :=
  ([("formOfPayment", FStr GOOGLE_PLAY_FORM_OF_PAYMENT); ("skuType", FStr SUBS); ("userId", FStr userId); ("isMutable", FBool true)]
   ++ match sku with Some s => if str_truthy s then [("sku", FStr s)] else [] | None => [] end
   ++ match packageName with Some s => if str_truthy s then [("packageName", FStr s)] else [] | None => [] end)%list.

Definition is_current (p : doc) : bool := isEntitlementActive now p || isAccountHold now p || isPaused now p.

(** A field passed on as a string; the API rejects a request without it. *)
Definition string_field (p : doc) (k : string) : option string :=
  match obj_get p k with Some (FStr s) => Some s | _ => None end.

(** A record that is no longer current is looked up once more. *)
Definition refreshed (f : F) (purchase : doc) : F * (doc + IapError) :=
  if is_current purchase then (f, inl purchase)
  else match string_field purchase "packageName", string_field purchase "sku", string_field purchase "purchaseToken" with
       | Some packageName, Some sku, Some token => querySubscriptionPurchase f packageName sku token None
       | _, _, _ => (f, inr OtherError)
       end.

Fixpoint current_purchases (f : F) (records : list doc) : F * (list doc + IapError) :=
  match records with
  | [] => (f, inl [])
  | data :: records =>
      let '(f, r) := refreshed f (fromFirestoreObject data) in
      match r with
      | inr e => (f, inr e)
      | inl purchase =>
          let '(f, rest) := current_purchases f records in
          (f, match rest with
              | inr e => inr e
              | inl l => inl (if is_current purchase then purchase :: l else l)
              end)
      end
  end.

(** [queryCurrentSubscriptions(userId, sku, packageName)]: any failure is an
    [OtherError]. *)
Definition queryCurrentSubscriptions (f : F) (userId : string) (sku packageName : option string) : F * (list doc + IapError) :=
  let '(f, got) := query f (play_query userId sku packageName) in
  match got with
  | None => (f, inr OtherError)
  | Some records =>
      let '(f, r) := current_purchases f records in
      (f, match r with inl l => inl l | inr _ => inr OtherError end)
  end.
End PurchaseManager.
