(* ===== verification/PlayLaws.v ===== *)
(** * Google Play purchases have one owner

    What the managers of PlayPurchases write to the collection of purchases:
    the owner of a purchase is kept, and the purchases another one replaces are
    disabled along the links of the API, up to the first one that is stored. *)

From S2P Require Import Prelude Firestore PlayPurchases.

#[local] Open Scope string_scope.
#[local] Open Scope Z_scope.

(** ** Fields of purchase objects *)

Lemma number_field_nodup p k : NoDup p.*1 -> NoDup (number_field p k).*1.
Proof. intros Hp. unfold number_field. destruct (fv_truthy _); [by apply obj_set_keys_nodup|done]. Qed.

Lemma number_field_ne p k k' : k <> k' -> obj_get (number_field p k) k' = obj_get p k'.
Proof. intros Hk. unfold number_field. destruct (fv_truthy _); [by rewrite obj_get_set_ne|done]. Qed.

Lemma fromApiResponse_nodup r pkg t sku now : NoDup (fromApiResponse r pkg t sku now).*1.
Proof. unfold fromApiResponse. cbn [fold_left]. repeat apply number_field_nodup. repeat apply obj_set_keys_nodup. apply assign_nil_nodup. Qed.

#[local] Ltac field := rewrite ?number_field_ne by done; repeat first [rewrite obj_get_set_eq | rewrite obj_get_set_ne by done].

Lemma fromApiResponse_owner r pkg t sku now :
  obj_get r "userId" = None -> obj_get (fromApiResponse r pkg t sku now) "userId" = None.
Proof.
  intros Hr. unfold fromApiResponse. cbn [fold_left]. field. rewrite obj_get_assign_none; [done|]. by field.
Qed.

Lemma fromApiResponse_replaced r pkg t sku now :
  obj_get (fromApiResponse r pkg t sku now) "replacedByAnotherPurchase" = Some (FBool false).
Proof. unfold fromApiResponse. cbn [fold_left]. by field. Qed.

Lemma fromApiResponse_linked r pkg t sku now : NoDup r.*1 ->
  obj_get (fromApiResponse r pkg t sku now) "linkedPurchaseToken" = obj_get r "linkedPurchaseToken".
Proof.
  intros Hr. unfold fromApiResponse. cbn [fold_left]. field. rewrite obj_get_assign by (by apply obj_set_keys_nodup).
  field. by destruct (obj_get r "linkedPurchaseToken").
Qed.

Lemma toFirestoreObject_get p k : NoDup p.*1 -> k <> "formOfPayment" -> k <> "skuType" ->
  obj_get (toFirestoreObject p) k = obj_get p k.
Proof.
  intros Hp H1 H2. unfold toFirestoreObject, purchaseToFirestoreObject. rewrite !obj_get_set_ne by done.
  rewrite obj_get_assign by done. by destruct (obj_get p k).
Qed.

Lemma fromFirestoreObject_owner d : obj_get (fromFirestoreObject d) "userId" = obj_get d "userId".
Proof.
  unfold fromFirestoreObject, mergePurchaseWithFirestorePurchaseRecord. rewrite merge_record_get. cbn [obj_get].
  by rewrite bool_decide_eq_true_2 by (split; vm_compute; set_solver).
Qed.

(** ** What becomes of a stored purchase *)

(** A replaced purchase loses its owner for good. *)
Definition play_gone (s : string) : Prop := s = REPLACED_PURCHASE_USERID_PLACEHOLDER.

Abbreviation play_step := (owners_kept play_gone).

Section Steps.
Context {F : Type} `{FirestoreLaws F} (api : PlayApi) (now : Z).

(** The answers of the Play Developer API say nothing of the accounts of this
    server. *)
Definition api_unowned : Prop := forall k r, api.(answers) !! k = Some r -> obj_get r "userId" = None.

Lemma disabled_owner d u : owner_next play_gone u (assign d disabled_fields).
Proof.
  right. exists REPLACED_PURCHASE_USERID_PLACEHOLDER. split; [done|]. split; [done|]. unfold owned_by.
  by rewrite obj_get_assign by (vm_compute; repeat constructor; set_solver).
Qed.

Lemma disable_step fuel f pkg sku t f' r :
  disableReplacedSubscription api now fuel f pkg sku t = (f', r) -> play_step (docs f) (docs f').
Proof.
  revert f t. induction fuel as [|fuel IH]; intros f t; cbn [disableReplacedSubscription]; [by intros [= <- _]|].
  destruct (doc_get f t) as [f1 got] eqn:Hg. apply doc_get_ok in Hg as [<- Hgot].
  destruct got as [[data|]|]; [| |by intros [= <- _]].
  - destruct (fv_truthy _); [by intros [= <- _]|]. destruct (doc_update f1 t disabled_fields) as [f2 ok] eqn:Hu.
    intros [= <- _]. apply doc_update_ok in Hu as [(old & Hold & ->)|[_ ->]]; [|done].
    eapply step_insert_some; [done|]. intros u _ _. apply disabled_owner.
  - destruct (api_get api _) as [resp|code]; [|by intros [= <- _]].
    match goal with |- context [doc_set f1 t ?d] => destruct (doc_set f1 t d) as [f2 ok] eqn:Hs end.
    assert (play_step (docs f1) (docs f2)) as H12.
    { apply doc_set_ok in Hs as [->|[_ ->]]; [|done]. apply step_insert_new. by apply Hgot. }
    destruct ok; [|by intros [= <- _]]. destruct (linked_token _) as [[t1|]|]; try by intros [= <- _].
    intros Hd. apply IH in Hd. by etrans.
Qed.

Lemma query_step f pkg sku t trigger f' r : api_unowned ->
  querySubscriptionPurchase api now f pkg sku t trigger = (f', r) -> play_step (docs f) (docs f').
Proof.
  intros Hapi. unfold querySubscriptionPurchase, api_get. destruct (answers api !! _) as [resp|] eqn:Hr; [|by intros [= <- _]].
  apply Hapi in Hr. destruct (doc_get f t) as [f1 got] eqn:Hg. apply doc_get_ok in Hg as [<- Hgot].
  destruct got as [[data|]|]; [| |by intros [= <- _]].
  - match goal with |- context [doc_update f1 t ?d] => destruct (doc_update f1 t d) as [f2 ok] eqn:Hu end.
    assert (play_step (docs f1) (docs f2)) as H12.
    { apply doc_update_ok in Hu as [(old & Hold & ->)|[_ ->]]; [|done]. apply step_update; [done|].
      rewrite toFirestoreObject_get by (first [done | destruct trigger; [apply obj_set_keys_nodup|]; apply fromApiResponse_nodup]).
      destruct trigger; [rewrite obj_get_set_ne by done|]; by apply fromApiResponse_owner. }
    by destruct ok; intros [= <- _].
  - match goal with |- context [doc_set f1 t ?d] => destruct (doc_set f1 t d) as [f2 ok] eqn:Hs end.
    assert (play_step (docs f1) (docs f2)) as H12.
    { apply doc_set_ok in Hs as [->|[_ ->]]; [|done]. apply step_insert_new. by apply Hgot. }
    destruct ok; [|by intros [= <- _]]. destruct (linked_token _) as [[t1|]|]; try by intros [= <- _].
    destruct (disableReplacedSubscription _ _ _ _ _ _ _) as [f3 o] eqn:Hd. intros [= <- _]. apply disable_step in Hd. by etrans.
Qed.

Lemma notify_step f pkg n f' r : api_unowned ->
  processDeveloperNotification api now f pkg n = (f', r) -> play_step (docs f) (docs f').
Proof.
  intros Hapi. unfold processDeveloperNotification. destruct n as [n|]; [|by intros [= <- _]].
  destruct (_ =? _); [by intros [= <- _]|]. destruct (querySubscriptionPurchase _ _ _ _ _ _ _) as [f1 q] eqn:Hq.
  intros [= <- _]. by eapply query_step.
Qed.

Lemma current_step f records f' r : api_unowned ->
  current_purchases api now f records = (f', r) -> play_step (docs f) (docs f').
Proof.
  intros Hapi. revert f r. induction records as [|data records IH]; intros f r; cbn; [by intros [= <- _]|].
  destruct (refreshed api now f _) as [f1 q] eqn:Hq. assert (play_step (docs f) (docs f1)) as H1.
  { unfold refreshed in Hq. destruct (is_current _ _); [by injection Hq as <- <-|].
    repeat case_match; try (by injection Hq as <- <-). by eapply query_step. }
  destruct q as [p|e]; [|by intros [= <- _]]. destruct (current_purchases _ _ _ _) as [f2 rest] eqn:Hc.
  intros [= <- _]. apply IH in Hc. by etrans.
Qed.

Lemma subscriptions_step f user sku pkg f' r : api_unowned ->
  queryCurrentSubscriptions api now f user sku pkg = (f', r) -> play_step (docs f) (docs f').
Proof.
  intros Hapi. unfold queryCurrentSubscriptions. destruct (query _ _) as [f1 got] eqn:Hq. apply query_ok in Hq as [<- _].
  destruct got as [records|]; [|by intros [= <- _]]. destruct (current_purchases _ _ _ _) as [f2 rest] eqn:Hc.
  intros [= <- _]. by eapply current_step.
Qed.

(** The purchase a registration looks at: one stored before the request, with
    its owner, or one that was not stored. *)
Lemma to_register_spec f pkg sku t f' r : api_unowned ->
  purchase_to_register api now f pkg sku t = (f', r) ->
  play_step (docs f) (docs f') /\
  forall p, r = inl p ->
    (exists d, docs f' = docs f /\ docs f !! t = Some d /\ p = fromFirestoreObject d) \/
    docs f !! t = None /\ obj_get p "userId" = None.
Proof.
  intros Hapi. unfold purchase_to_register, getPurchase. destruct (doc_get f t) as [f1 got] eqn:Hg.
  apply doc_get_ok in Hg as [E Hgot]. destruct got as [[data|]|]; cbn.
  - intros [= <- <-]. rewrite E. split; [done|]. intros p [= <-]. left. exists data. auto.
  - destruct (querySubscriptionPurchase _ _ _ _ _ _ _) as [f2 q] eqn:Hq. intros [= <- <-].
    pose proof Hq as Hs. apply query_step in Hs; [|done]. rewrite E in Hs. split; [done|].
    intros p Hp. right. specialize (Hgot _ eq_refl). split; [done|]. destruct q as [q|]; [|done]. injection Hp as <-.
    revert Hq. unfold querySubscriptionPurchase, api_get. destruct (answers api !! _) as [resp|] eqn:Hr; [|done].
    apply Hapi in Hr. destruct (doc_get f1 t) as [f3 got'] eqn:Hg. apply doc_get_ok in Hg as [E3 Hgot'].
    destruct got' as [got'|]; [|done]. specialize (Hgot' _ eq_refl). rewrite E, Hgot in Hgot'. subst got'.
    destruct (doc_set _ _ _) as [f4 []]; [|done]. destruct (linked_token _) as [[t1|]|]; [|done|].
    + destruct (disableReplacedSubscription _ _ _ _ _ _ _) as [f5 []]; try done. intros [= _ <-]. by apply fromApiResponse_owner.
    + intros [= _ <-]. by apply fromApiResponse_owner.
  - intros [= <- <-]. rewrite E. done.
Qed.

Lemma force_spec f t u f' r :
  forceRegisterToUserAccount f t u = (f', r) ->
  (exists old, docs f !! t = Some old /\ docs f' = <[t := assign old [("userId", FStr u)]]> (docs f)) \/
  (exists e, r = inr e) /\ docs f' = docs f.
Proof.
  unfold forceRegisterToUserAccount. destruct (doc_update _ _ _) as [f1 ok] eqn:Hu. intros [= <- <-].
  apply doc_update_ok in Hu as [?|[-> ->]]; [by left|right]. eauto.
Qed.

(** A registration keeps the owners there were, and when it succeeds the
    purchase is the user's. *)
Lemma register_spec f pkg sku t u f' r : api_unowned ->
  registerToUserAccount api now f pkg sku t u = (f', r) ->
  play_step (docs f) (docs f') /\
  forall p, r = inl p -> exists d, docs f' !! t = Some d /\ owned_by u d.
Proof.
  intros Hapi. unfold registerToUserAccount. destruct (purchase_to_register _ _ _ _ _ _) as [f1 q] eqn:Hq.
  apply to_register_spec in Hq as [H1 Hp]; [|done]. destruct q as [p|e]; [|by intros [= <- <-]].
  specialize (Hp p eq_refl). destruct (negb _); [by intros [= <- <-]|]. unfold fv_is. case_bool_decide as Hown.
  { intros [= <- <-]. split; [done|]. intros _ _. destruct Hp as [(d & E & Hd & ->)|[_ Hno]]; [|congruence].
    exists d. rewrite E. by rewrite fromFirestoreObject_owner in Hown. }
  destruct (fv_truthy _) eqn:Ht; [by intros [= <- <-]|]. destruct (forceRegisterToUserAccount f1 t u) as [f2 w] eqn:Hw.
  intros [= <- <-]. apply force_spec in Hw as [(old & Hold & E2)|[[e ->] ->]]; [|done]. split.
  - intros id. destruct (decide (id = t)) as [->|]; [|etrans; [apply H1|]; rewrite E2; by apply step_at_insert_ne].
    intros d0 Hd0. destruct Hp as [(d & E & Hd & ->)|[Hno _]]; [|congruence].
    rewrite fromFirestoreObject_owner in Ht. rewrite E2, lookup_insert_eq. eexists. split; [done|].
    intros u' Hu' Ho. simplify_eq. unfold owned_by in Ho. rewrite Ho in Ht. cbn in Ht. congruence.
  - intros _ _. eexists. rewrite E2, lookup_insert_eq. split; [done|apply assign_owner].
Qed.
End Steps.

(** ** Sequences of requests *)

(** A call of a manager, with the API's answers and the time during it. *)
Inductive PlayOp :=
  | Register (packageName sku purchaseToken userId : string)
  | Notify (packageName : string) (n : option SubscriptionNotification)
  | Current (userId : string) (sku packageName : option string).

Record PlayCall := mkCall { pc_api : PlayApi; pc_now : Z; pc_op : PlayOp }.

Definition run_call {F} `{Firestore F} (f : F) (c : PlayCall) : F :=
  match c.(pc_op) with
  | Register pkg sku t u => (registerToUserAccount c.(pc_api) c.(pc_now) f pkg sku t u).1
  | Notify pkg n => (processDeveloperNotification c.(pc_api) c.(pc_now) f pkg n).1
  | Current u sku pkg => (queryCurrentSubscriptions c.(pc_api) c.(pc_now) f u sku pkg).1
  end.

Definition calls_unowned (cs : list PlayCall) : Prop := Forall (fun c => api_unowned c.(pc_api)) cs.

Lemma calls_step {F} `{FirestoreLaws F} cs (f : F) : calls_unowned cs -> play_step (docs f) (docs (fold_left run_call cs f)).
Proof.
  intros Hcs. revert f. induction Hcs as [|c cs Hc _ IH]; intros f; cbn [fold_left]; [done|].
  etrans; [|apply IH]. unfold run_call. destruct (pc_op c) as [pkg sku t u|pkg n|u sku pkg].
  - destruct (registerToUserAccount _ _ _ _ _ _ _) as [f1 r] eqn:E. by eapply register_spec in E as [? _].
  - destruct (processDeveloperNotification _ _ _ _ _) as [f1 r] eqn:E. by eapply notify_step in E.
  - destruct (queryCurrentSubscriptions _ _ _ _ _ _) as [f1 r] eqn:E. by eapply subscriptions_step in E.
Qed.

(** A registration of a purchase whose stored owner is another one changes
    nothing. *)
Lemma register_owned {F} `{FirestoreLaws F} api now (f : F) pkg sku t u (d : doc) u' f' r :
  docs f !! t = Some d -> owned_by u d -> str_truthy u = true -> u' <> u ->
  registerToUserAccount api now f pkg sku t u' = (f', r) ->
  docs f' = docs f /\ (r = inr Raw \/ r = inr InvalidToken \/ r = inr Conflict).
Proof.
  intros Hd Ho Hu Hne. unfold registerToUserAccount, purchase_to_register, getPurchase.
  destruct (doc_get f t) as [f1 got] eqn:Hg. apply doc_get_ok in Hg as [E Hgot].
  destruct got as [got|]; [|intros [= <- <-]; auto]. specialize (Hgot _ eq_refl). rewrite Hd in Hgot. subst got. cbn.
  destruct (negb _); [intros [= <- <-]; auto|]. rewrite fromFirestoreObject_owner. unfold owned_by in Ho. rewrite Ho. unfold fv_is.
  rewrite bool_decide_eq_false_2 by congruence. cbn. rewrite Hu. intros [= <- <-]. auto.
Qed.

(** [C11] A Google Play purchase is registered to one account: once a
    registration for [u] succeeded, then whatever the managers are asked to do
    - other registrations, notifications, lookups, with a Firestore that may
    reject any command - a registration of the same purchase token for another
    account fails, without changing the collection, and the stored owner is
    still [u] or, when another purchase replaced this one, the placeholder of a
    replaced purchase. *)
Theorem play_purchase_single_owner {F} `{FirestoreLaws F} api now (f : F) pkg sku t u f1 p cs api' now' pkg' sku' u' :
  api_unowned api -> calls_unowned cs -> str_truthy u = true -> u' <> u -> u' <> REPLACED_PURCHASE_USERID_PLACEHOLDER ->
  registerToUserAccount api now f pkg sku t u = (f1, inl p) ->
  let f2 := fold_left run_call cs f1 in
  exists d : doc, docs f2 !! t = Some d /\ owner_next play_gone u d /\
    let '(f3, r) := registerToUserAccount api' now' f2 pkg' sku' t u' in
    docs f3 = docs f2 /\ (r = inr Raw \/ r = inr InvalidToken \/ r = inr Conflict).
Proof.
  intros Hapi Hcs Hu Hne Hni Hreg f2. eapply register_spec in Hreg as [_ Hd]; [|done].
  destruct (Hd p eq_refl) as (d1 & Hd1 & Ho1). destruct (calls_step cs f1 Hcs t d1 Hd1) as (d & Hd2 & Ho2).
  specialize (Ho2 u Hu Ho1). exists d. split; [done|]. split; [done|].
  destruct (registerToUserAccount _ _ _ _ _ _ _) as [f3 r] eqn:E.
  destruct Ho2 as [Ho|(s & -> & _ & Ho)]; eapply (register_owned api' now' f2 pkg' sku' t _ d u'); eauto.
Qed.

(** ** Chains of replaced purchases *)

Section Chain.
Context {F : Type} `{FirestoreLaws F} (api : PlayApi) (now : Z) (pkg sku : string).
Implicit Types (m : gmap string doc) (d : doc).

Definition knows (t : string) : Prop := is_Some (api.(answers) !! (pkg, sku, t)).

(** The answers of the API are objects: a key occurs once. *)
Definition api_objects : Prop := forall k r, api.(answers) !! k = Some r -> NoDup r.*1.

Definition replaced d : Prop := fv_truthy (obj_get d "replacedByAnotherPurchase") = true.

Definition invalidated d : Prop := obj_get d "userId" = Some (FStr REPLACED_PURCHASE_USERID_PLACEHOLDER).

(** A purchase that is disabled in [m'], because it was in [m] already or with
    its owner erased. *)
Definition disabled_in m m' (t : string) : Prop :=
  exists d, m' !! t = Some d /\ replaced d /\ (invalidated d \/ m !! t = Some d).

(** The part of the chain behind a purchase [t] that the code walks: from a
    purchase that is not in the collection to the one that the API says it
    replaced, up to and including the first purchase that is in the
    collection, whose own link is not followed, or that the API does not know. *)
Inductive replaces m : string -> string -> Prop :=
  | replaces_here t : replaces m t t
  | replaces_next t r t1 t' :
      m !! t = None -> api.(answers) !! (pkg, sku, t) = Some r -> linked_token r = Some (Some t1) ->
      replaces m t1 t' -> replaces m t t'.

Definition settled m m' (t : string) : Prop := disabled_in m m' t \/ m' !! t = None /\ ~ knows t.

(** The tokens of the API that are not in the collection. *)
Definition unseen m : nat := size (filter (fun k : string * string * string => m !! k.2 = None) (dom api.(answers) : gset (string * string * string))).

(** The record of a purchase stored as replaced already. *)
Definition backfilled (r : doc) (t : string) : doc :=
  obj_set (obj_set (fromApiResponse r pkg t sku now) "replacedByAnotherPurchase" (FBool true))
    "userId" (FStr REPLACED_PURCHASE_USERID_PLACEHOLDER).

Lemma backfilled_nodup r t : NoDup (backfilled r t).*1.
Proof. do 2 apply obj_set_keys_nodup. apply fromApiResponse_nodup. Qed.

Lemma backfilled_disabled r t : replaced (toFirestoreObject (backfilled r t)) /\ invalidated (toFirestoreObject (backfilled r t)).
Proof.
  unfold replaced, invalidated. rewrite !toFirestoreObject_get by (done || apply backfilled_nodup). unfold backfilled.
  by rewrite obj_get_set_ne, !obj_get_set_eq by done.
Qed.

Lemma backfilled_linked r t : NoDup r.*1 -> linked_token (backfilled r t) = linked_token r.
Proof. intros Hr. unfold linked_token, backfilled. by rewrite !obj_get_set_ne, fromApiResponse_linked by done. Qed.

Lemma disable_keeps fuel f t f' o x d :
  disableReplacedSubscription api now fuel f pkg sku t = (f', o) ->
  docs f !! x = Some d -> replaced d -> docs f' !! x = Some d.
Proof.
  revert f t. induction fuel as [|fuel IH]; intros f t; cbn [disableReplacedSubscription]; [by intros [= <- _]|].
  destruct (doc_get f t) as [f1 got] eqn:Hg. apply doc_get_ok in Hg as [<- Hgot].
  destruct got as [[data|]|]; [| |by intros [= <- _]]; specialize (Hgot _ eq_refl).
  - destruct (fv_truthy _) eqn:Hr; [by intros [= <- _]|]. destruct (doc_update f1 t disabled_fields) as [f2 ok] eqn:Hu.
    intros [= <- _] Hx Hd. apply doc_update_ok in Hu as [(old & Hold & ->)|[_ ->]]; [|done].
    destruct (decide (t = x)) as [->|]; [|by rewrite lookup_insert_ne]. unfold replaced in Hd. congruence.
  - destruct (api_get api _) as [resp|code]; [|by intros [= <- _]].
    match goal with |- context [doc_set f1 t ?d] => destruct (doc_set f1 t d) as [f2 ok] eqn:Hs end.
    intros Hrun Hx Hd. assert (docs f2 !! x = Some d) as Hx2.
    { apply doc_set_ok in Hs as [->|[_ ->]]; [|done]. rewrite lookup_insert_ne; congruence. }
    destruct ok; [|by injection Hrun as <- _]. destruct (linked_token _) as [[t1|]|]; try by injection Hrun as <- _.
    by eapply IH.
Qed.

Lemma unseen_insert m t d : m !! t = None -> knows t -> (unseen (<[t := d]> m) < unseen m)%nat.
Proof.
  intros Hm [r Hr]. unfold unseen. apply subset_size. split.
  - intros k. rewrite !elem_of_filter. intros [Hk Hd]. split; [|done]. apply lookup_insert_None in Hk. tauto.
  - intros Hsub. specialize (Hsub (pkg, sku, t)). rewrite !elem_of_filter, lookup_insert_eq in Hsub.
    destruct Hsub as [? _]; [|done]. split; [done|]. by apply elem_of_dom_2 in Hr.
Qed.

Lemma disable_fuel fuel f t f' o : (unseen (docs f) < fuel)%nat ->
  disableReplacedSubscription api now fuel f pkg sku t = (f', o) -> o <> OutOfFuel.
Proof.
  revert f t. induction fuel as [|fuel IH]; intros f t Hfuel; [lia|]. cbn [disableReplacedSubscription].
  destruct (doc_get f t) as [f1 got] eqn:Hg. apply doc_get_ok in Hg as [E Hgot].
  destruct got as [[data|]|]; [| |by intros [= _ <-]]; specialize (Hgot _ eq_refl).
  - destruct (fv_truthy _); [by intros [= _ <-]|]. destruct (doc_update f1 t disabled_fields) as [f2 []]; by intros [= _ <-].
  - unfold api_get. destruct (answers api !! _) as [resp|] eqn:Hr; [|by intros [= _ <-]].
    match goal with |- context [doc_set f1 t ?d] => destruct (doc_set f1 t d) as [f2 ok] eqn:Hs end.
    destruct ok; [|by intros [= _ <-]]. apply doc_set_ok in Hs as [Hs|[? _]]; [|done].
    destruct (linked_token _) as [[t1|]|]; try by intros [= _ <-]. apply IH. rewrite Hs, E.
    match goal with |- (unseen (<[_ := ?d]> _) < _)%nat => pose proof (unseen_insert (docs f) t d Hgot ltac:(by exists resp)) end. lia.
Qed.

Lemma disabled_weaken m D t m' x : replaced D -> invalidated D -> disabled_in (<[t := D]> m) m' x -> disabled_in m m' x.
Proof.
  intros HD HI (d & Hd & Hr & Ho). exists d. split; [done|]. split; [done|].
  destruct Ho as [Ho|Ho]; [by left|]. destruct (decide (t = x)) as [->|]; [|rewrite lookup_insert_ne in Ho by done; by right].
  rewrite lookup_insert_eq in Ho. left. congruence.
Qed.

(** What a chain leaves behind: the purchase it was asked to disable, and the
    purchases behind every purchase it stored. *)
Lemma disable_settles fuel f t f' : api_objects ->
  disableReplacedSubscription api now fuel f pkg sku t = (f', Finished) ->
  settled (docs f) (docs f') t /\
  forall x d, docs f !! x = None -> docs f' !! x = Some d ->
    disabled_in (docs f) (docs f') x /\
    forall r t1, api.(answers) !! (pkg, sku, x) = Some r -> linked_token r = Some (Some t1) -> settled (docs f) (docs f') t1.
Proof.
  intros Hobj. revert f t. induction fuel as [|fuel IH]; intros f t; cbn [disableReplacedSubscription]; [done|].
  destruct (doc_get f t) as [f1 got] eqn:Hg. apply doc_get_ok in Hg as [<- Hgot].
  destruct got as [[data|]|]; [| |done]; specialize (Hgot _ eq_refl).
  - destruct (fv_truthy _) eqn:Hr.
    { intros [= <-]. split; [|congruence]. left. exists data. auto. }
    destruct (doc_update f1 t disabled_fields) as [f2 ok] eqn:Hu. intros [= <- Hok]. destruct ok; [|done].
    apply doc_update_ok in Hu as [(old & Hold & ->)|[? _]]; [|done]. split.
    + left. eexists. rewrite lookup_insert_eq. split; [done|].
      assert (NoDup disabled_fields.*1) as Hn by (vm_compute; repeat constructor; set_solver).
      split; [|left]; [unfold replaced|unfold invalidated]; by rewrite obj_get_assign.
    + intros x d Hx. destruct (decide (t = x)) as [->|]; [congruence|rewrite lookup_insert_ne by done; congruence].
  - unfold api_get. destruct (answers api !! _) as [resp|] eqn:Hr.
    2: { intros [= <-]. split; [right; split; [done|]; intros [? ?]; congruence|congruence]. }
    change (obj_set (obj_set (fromApiResponse resp pkg t sku now) _ _) _ _) with (backfilled resp t).
    destruct (doc_set f1 t _) as [f2 ok] eqn:Hs. destruct ok; [|done]. apply doc_set_ok in Hs as [Hs|[? _]]; [|done].
    rewrite backfilled_linked by (by eapply Hobj). destruct (backfilled_disabled resp t) as [HD HI].
    set (D := toFirestoreObject (backfilled resp t)) in *. intros Hrun.
    assert (docs f' !! t = Some D) as Ht.
    { destruct (linked_token resp) as [[t1|]|]; [|done|injection Hrun as <-; by rewrite Hs, lookup_insert_eq].
      eapply disable_keeps; [exact Hrun| |done]. by rewrite Hs, lookup_insert_eq. }
    assert (disabled_in (docs f1) (docs f') t) as Hdis by (exists D; auto). split; [by left|].
    intros x d Hx Hxd. destruct (decide (t = x)) as [<-|Hne].
    + split; [done|]. intros r t1 Hr' Hl. rewrite Hr in Hr'. injection Hr' as <-. rewrite Hl in Hrun.
      apply IH in Hrun as [[Hset|Hset] _]; [left|by right]. rewrite Hs in Hset. by eapply disabled_weaken.
    + destruct (linked_token resp) as [[t1|]|]; [|done|injection Hrun as <-; rewrite Hs, lookup_insert_ne in Hxd by done; congruence].
      apply IH in Hrun as [_ Hall]. rewrite Hs in Hall. destruct (Hall x d) as [Hdx Hlx];
        [by rewrite lookup_insert_ne|done|]. split; [by eapply disabled_weaken|].
      intros r t2 Hr2 Hl2. destruct (Hlx r t2 Hr2 Hl2) as [Hset|Hset]; [left|by right]. by eapply disabled_weaken.
Qed.

Lemma replaces_insert m t D x y : replaces (<[t := D]> m) x y -> replaces m x y.
Proof.
  induction 1 as [x|x r x1 y Hm Hr Hl _ IH]; [constructor|].
  apply lookup_insert_None in Hm as [? _]. by eapply replaces_next.
Qed.

(** A document that is not on the walked part of the chain stays as it is. *)
Lemma disable_frame fuel f t f' o x : api_objects ->
  disableReplacedSubscription api now fuel f pkg sku t = (f', o) -> ~ replaces (docs f) t x -> docs f' !! x = docs f !! x.
Proof.
  intros Hobj. revert f t. induction fuel as [|fuel IH]; intros f t; cbn [disableReplacedSubscription]; [by intros [= <- _]|].
  destruct (doc_get f t) as [f1 got] eqn:Hg. apply doc_get_ok in Hg as [<- Hgot].
  intros Hrun Hx. assert (t <> x) as Hne by (intros ->; apply Hx; constructor).
  destruct got as [[data|]|]; [| |by injection Hrun as <- _]; specialize (Hgot _ eq_refl).
  - destruct (fv_truthy _); [by injection Hrun as <- _|]. destruct (doc_update f1 t disabled_fields) as [f2 ok] eqn:Hu.
    injection Hrun as <- _. apply doc_update_ok in Hu as [(old & Hold & ->)|[_ ->]]; [|done]. by rewrite lookup_insert_ne.
  - unfold api_get in Hrun. destruct (answers api !! _) as [resp|] eqn:Hr; [|by injection Hrun as <- _].
    change (obj_set (obj_set (fromApiResponse resp pkg t sku now) _ _) _ _) with (backfilled resp t) in Hrun.
    destruct (doc_set f1 t _) as [f2 ok] eqn:Hs. rewrite backfilled_linked in Hrun by (by eapply Hobj).
    apply doc_set_ok in Hs as [Hs|[-> Hs]]; [|by injection Hrun as <- _; rewrite Hs].
    assert (docs f2 !! x = docs f1 !! x) as H2 by (by rewrite Hs, lookup_insert_ne).
    destruct ok; [|by injection Hrun as <- _]. destruct (linked_token resp) as [[t1|]|] eqn:Hl; try by injection Hrun as <- _.
    rewrite <- H2. apply (IH _ _ Hrun). rewrite Hs. intros Hc%replaces_insert. apply Hx. by eapply replaces_next.
Qed.

Lemma disable_up fuel f t f' o : FirestoreUp F ->
  (forall k r, api.(answers) !! k = Some r -> NoDup r.*1 /\ linked_token r <> Some None) ->
  disableReplacedSubscription api now fuel f pkg sku t = (f', o) -> o <> Rejected.
Proof.
  intros Hup Hlink. revert f t. induction fuel as [|fuel IH]; intros f t; cbn [disableReplacedSubscription]; [by intros [= _ <-]|].
  destruct (doc_get f t) as [f1 got] eqn:Hg. pose proof Hg as [g ->]%doc_get_up. apply doc_get_ok in Hg as [E Hgot].
  specialize (Hgot _ eq_refl). destruct g as [data|].
  - destruct (fv_truthy _); [by intros [= _ <-]|]. destruct (doc_update f1 t disabled_fields) as [f2 ok] eqn:Hu.
    apply doc_update_up in Hu as ->; [by intros [= _ <-]|]. rewrite E. eauto.
  - unfold api_get. destruct (answers api !! _) as [resp|] eqn:Hr; [|by intros [= _ <-]].
    change (obj_set (obj_set (fromApiResponse resp pkg t sku now) _ _) _ _) with (backfilled resp t).
    destruct (doc_set f1 t _) as [f2 ok] eqn:Hs. apply doc_set_up in Hs as ->. destruct (Hlink _ _ Hr) as [Hn Hl].
    rewrite backfilled_linked by done. destruct (linked_token resp) as [[t1|]|]; [apply IH|done|by intros [= _ <-]].
Qed.

(** [C13] [disableReplacedSubscription] always ends - its fuel, one more than
    the purchases the API knows, is never used up, whatever circle the links
    make.  It walks from the purchase it is asked to disable along the links
    that the API tells, up to and including the first purchase that is in the
    collection already.  When no command is rejected on the way, every
    purchase it passes that Firestore or the API knows is stored as replaced,
    and its owner erased unless it was stored as replaced before; whatever
    happens, every other document stays as it is.  With a Firestore that
    answers and links that are strings no command is rejected. *)
Theorem replaced_chain_disabled f t f' o : api_objects ->
  disableReplacedSubscription api now (chain_fuel api) f pkg sku t = (f', o) ->
  o <> OutOfFuel /\
  (o = Finished -> forall t', replaces (docs f) t t' -> is_Some (docs f !! t') \/ knows t' -> disabled_in (docs f) (docs f') t') /\
  (forall t', ~ replaces (docs f) t t' -> docs f' !! t' = docs f !! t') /\
  (FirestoreUp F -> (forall k r, api.(answers) !! k = Some r -> linked_token r <> Some None) -> o = Finished).
Proof.
  intros Hobj Hrun. assert (o <> OutOfFuel) as Hfuel.
  { eapply disable_fuel; [|done]. unfold chain_fuel, unseen. apply Nat.lt_succ_r. rewrite <- size_dom. apply subseteq_size.
    intros k. rewrite elem_of_filter. tauto. }
  split; [done|]. split.
  - intros -> t' Hrep Hknown. pose proof (disable_step _ _ _ _ _ _ _ _ _ Hrun) as Hstep.
    pose proof (disable_settles _ _ _ _ Hobj Hrun) as [Ht Hall].
    assert (settled (docs f) (docs f') t') as [?|[Hno Hk]]; [|done|].
    { clear Hknown Hrun. induction Hrep as [t|t r t1 t' Hm Hr Hl _ IH]; [done|]. apply IH.
      destruct Ht as [(d & Hd & _)|[_ Hk]]; [|destruct Hk; by exists r]. eapply Hall; eauto. }
    destruct Hknown as [[d Hd]|?]; [|done]. destruct (Hstep t' d Hd) as (d' & Hd' & _). congruence.
  - split; [intros t' Ht'; by eapply disable_frame|]. intros Hup Hlink. destruct o; [done| |done]. eapply disable_up in Hrun; [done|done|]. eauto.
Qed.
End Chain.

(** ** Examples *)

(** A purchase that replaced another one, which replaced a third. *)
Definition chain_api : PlayApi := mkPlayApi
  {[ ("app", "plan", "tokenC") := [("expiryTimeMillis", FStr "2000"); ("autoRenewing", FBool true); ("linkedPurchaseToken", FStr "tokenB")];
     ("app", "plan", "tokenB") := [("expiryTimeMillis", FStr "900"); ("linkedPurchaseToken", FStr "tokenA")];
     ("app", "plan", "tokenA") := [("expiryTimeMillis", FStr "800")] ]} (fun _ => 404).

Definition no_purchases : Collection := mkCollection ∅.

Definition registered : Collection * (doc + IapError) :=
  registerToUserAccount chain_api 1000 no_purchases "app" "plan" "tokenC" "alice".

Lemma chain_api_unowned : api_unowned chain_api.
Proof.
  refine (bool_decide_unpack (map_Forall (fun _ r => obj_get r "userId" = None) (answers chain_api)) _). by vm_compute.
Qed.

Lemma chain_api_objects : api_objects chain_api.
Proof. refine (bool_decide_unpack (map_Forall (fun _ r => NoDup r.*1) (answers chain_api)) _). by vm_compute. Qed.

Definition later_calls : list PlayCall :=
  [mkCall chain_api 1500 (Notify "app" (Some (mkNotification 2 "tokenC" "plan")));
   mkCall chain_api 1600 (Current "alice" None None);
   mkCall chain_api 1700 (Register "app" "plan" "tokenC" "carol")].

Lemma play_purchase_single_owner_witness :
  let f2 := fold_left run_call later_calls registered.1 in
  exists d : doc, docs f2 !! "tokenC" = Some d /\ owner_next play_gone "alice" d /\
    let '(f3, r) := registerToUserAccount chain_api 1800 f2 "app" "plan" "tokenC" "bob" in
    docs f3 = docs f2 /\ (r = inr Raw \/ r = inr InvalidToken \/ r = inr Conflict).
Proof.
  apply (play_purchase_single_owner chain_api 1000 no_purchases "app" "plan" "tokenC" "alice" registered.1
           (match registered.2 with inl p => p | inr _ => [] end) later_calls chain_api 1800 "app" "plan" "bob");
    [apply chain_api_unowned|repeat constructor; apply chain_api_unowned|done|done|done|by vm_compute].
Defined.

Lemma replaced_chain_disabled_witness :
  let r := disableReplacedSubscription chain_api 1000 (chain_fuel chain_api) no_purchases "app" "plan" "tokenB" in
  r.2 <> OutOfFuel /\
  (r.2 = Finished -> forall t', replaces chain_api "app" "plan" (docs no_purchases) "tokenB" t' ->
     is_Some (docs no_purchases !! t') \/ knows chain_api "app" "plan" t' -> disabled_in (docs no_purchases) (docs r.1) t') /\
  (forall t', ~ replaces chain_api "app" "plan" (docs no_purchases) "tokenB" t' -> docs r.1 !! t' = docs no_purchases !! t') /\
  (FirestoreUp Collection -> (forall k d, chain_api.(answers) !! k = Some d -> linked_token d <> Some None) -> r.2 = Finished).
Proof.
  cbv zeta. apply (replaced_chain_disabled chain_api 1000 "app" "plan" no_purchases "tokenB"); [apply chain_api_objects|].
  by destruct (disableReplacedSubscription _ _ _ _ _ _ _).
Defined.

(** The link of a stored purchase is not followed.  [tokenB] was stored with a
    link to [tokenA] when the command that was to disable [tokenA] was
    rejected: disabling [tokenB] later leaves [tokenA] with its owner, and a
    new query of [tokenB], which is stored by then, does not disable it
    either. *)
Definition interrupted : Collection := mkCollection
  {[ "tokenB" := toFirestoreObject (fromApiResponse [("expiryTimeMillis", FStr "2000"); ("linkedPurchaseToken", FStr "tokenA")] "app" "tokenB" "plan" 1);
     "tokenA" := obj_set (toFirestoreObject (fromApiResponse [("expiryTimeMillis", FStr "2000")] "app" "tokenA" "plan" 1)) "userId" (FStr "alice") ]}.

Theorem stored_link_ignored :
  let f1 := (disableReplacedSubscription chain_api 1000 (chain_fuel chain_api) interrupted "app" "plan" "tokenB") in
  let f2 := (querySubscriptionPurchase chain_api 1000 interrupted "app" "plan" "tokenB" None) in
  f1.2 = Finished /\ docs f1.1 !! "tokenA" = docs interrupted !! "tokenA" /\
  (exists p, f2.2 = inl p) /\ docs f2.1 !! "tokenA" = docs interrupted !! "tokenA" /\
  exists d, docs interrupted !! "tokenA" = Some d /\ owned_by "alice" d /\ ~ replaced d.
Proof.
  cbv zeta. split; [by vm_compute|]. split; [by vm_compute|]. split; [eexists; by vm_compute|]. split; [by vm_compute|].
  eexists. split; [by vm_compute|]. split; [by vm_compute|]. vm_compute. discriminate.
Qed.
