(* ===== verification/AppStorePurchases.v ===== *)
(** * App Store purchases

    The purchase objects of
    packages/fxa-shared/payments/iap/apple-app-store/subscription-purchase.ts
    and the purchase managers of packages/fxa-shared and
    packages/fxa-auth-server (payments/iap/apple-app-store/purchase-manager.ts),
    over a Firestore collection and the answers of the App Store Server API. *)

From S2P Require Import Prelude Firestore.
From S2P Require Import PlayPurchases.

#[local] Open Scope string_scope.
#[local] Open Scope Z_scope.

Module AppStore.

(** ** Purchase objects *)

Definition INTERNAL_KEYS : list string := ["formOfPayment"].

Definition APPLE_APP_STORE_FORM_OF_PAYMENT : string := "APPLE_APP_STORE".

(** The methods of [AppStoreSubscriptionPurchase]. *)
Definition app_store_methods : list string :=
  (["toFirestoreObject"; "mergeWithFirestorePurchaseRecord"; "isEntitlementActive"; "willRenew"; "isInBillingRetryPeriod";
    "isInGracePeriod"; "isTestPurchase"; "isFreeTrial"; "isExpired"] ++ object_prototype)%list.

Definition purchaseToFirestoreObject (purchase : doc) : doc :=
  obj_set (assign [] purchase) "formOfPayment" (FStr APPLE_APP_STORE_FORM_OF_PAYMENT).

Definition mergePurchaseWithFirestorePurchaseRecord : doc -> doc -> doc := merge_record INTERNAL_KEYS app_store_methods.

(** [purchase[k] = v], where [undefined] leaves no field. *)
Definition put (k : string) (v : option fval) (purchase : doc) : doc :=
  match v with Some v => obj_set purchase k v | None => purchase end.

(** [if (v) purchase[k] = v;] *)
Definition put_truthy (k : string) (v : option fval) (purchase : doc) : doc :=
  if fv_truthy v then put k v purchase else purchase.

(** An entry of [lastTransactions], with what its signed parts decode to;
    [None] when the decoding throws. *)
Record TransactionsItem := mkItem {
  it_originalTransactionId : string; it_status : Z; it_transaction : option doc; it_renewal : option doc }.

Record StatusResponse := mkStatus { sr_bundleId : string; sr_environment : string; sr_data : list (list TransactionsItem) }.

(** [AppStoreSubscriptionPurchase.fromApiResponse] *)
Definition fromApiResponse (apiResponse : StatusResponse) (subscriptionStatus : Z) (transactionInfo renewalInfo : doc)
    (originalTransactionId : string) (verifiedAt : Z) : doc :=
  let get_t := obj_get transactionInfo in
  let get_r := obj_get renewalInfo in
  fold_left (fun p (set : doc -> doc) => set p)
    [put "autoRenewStatus" (get_r "autoRenewStatus");
     put "autoRenewProductId" (get_r "autoRenewProductId");
     put "bundleId" (Some (FStr apiResponse.(sr_bundleId)));
     put "environment" (Some (FStr apiResponse.(sr_environment)));
     put "inAppOwnershipType" (get_t "inAppOwnershipType");
     put "originalPurchaseDate" (get_t "originalPurchaseDate");
     put "originalTransactionId" (Some (FStr originalTransactionId));
     put "productId" (get_t "productId");
     put "status" (Some (FNum (Some subscriptionStatus)));
     put "type" (get_t "type");
     put "verifiedAt" (Some (FNum (Some verifiedAt)));
     put_truthy "expirationIntent" (get_r "expirationIntent");
     put_truthy "expiresDate" (get_t "expiresDate");
     put_truthy "gracePeriodExpiresDate" (get_r "gracePeriodExpiresDate");
     put "isInBillingRetry" (get_r "isInBillingRetryPeriod");
     put "isUpgraded" (get_t "isUpgraded");
     put_truthy "offerIdentifier" (get_r "offerIdentifier");
     put_truthy "offerType" (get_r "offerType");
     put_truthy "purchaseDate" (get_t "purchaseDate");
     put_truthy "revocationDate" (get_t "revocationDate");
     put "revocationReason" (get_t "revocationReason")] [].

Definition fromFirestoreObject (firestoreObject : doc) : doc := mergePurchaseWithFirestorePurchaseRecord [] firestoreObject.

Definition toFirestoreObject (purchase : doc) : doc := purchaseToFirestoreObject purchase.

(** The statuses of a subscription in the App Store Server API. *)
Definition Active : Z := 1.
Definition Expired : Z := 2.
Definition InBillingGracePeriod : Z := 4.

Definition has_status (p : doc) (s : Z) : bool := fv_is (obj_get p "status") (FNum (Some s)).

Definition isEntitlementActive (p : doc) : bool := has_status p Active || has_status p InBillingGracePeriod.

Definition willRenew (p : doc) : bool := fv_is (obj_get p "autoRenewStatus") (FNum (Some 1)).

Definition isInGracePeriod (p : doc) : bool := has_status p InBillingGracePeriod.

Definition isTestPurchase (p : doc) : bool := fv_is (obj_get p "environment") (FStr "Sandbox").

Definition isFreeTrial (p : doc) : bool := fv_is (obj_get p "offerType") (FNum (Some 1)).

Definition isExpired (p : doc) : bool := has_status p Expired.

(** ** The purchase manager *)

(** What the App Store Server API answers during a request; an error carries a
    code or none.  [credentials] are the bundles this server has a key for. *)
Record AppStoreApi := mkApi {
  credentials : list string;
  statuses : string -> string -> StatusResponse + option Z }.

(** [AppStoreHelper.getSubscriptionStatuses] *)
Definition getSubscriptionStatuses (api : AppStoreApi) (bundleId originalTransactionId : string) : StatusResponse + option Z :=
  if bool_decide (bundleId ∈ api.(credentials)) then api.(statuses) bundleId originalTransactionId else inr None.

Definition convertAppStoreAPIErrorToLibraryError (code : option Z) : IapError :=
  match code with Some c => if c =? 404 then NotFound else OtherError | None => OtherError end.

(** [apiResponse.data[0].lastTransactions.find(...)] and its two decoded parts:
    any error there has no code. *)
Definition latest_transaction (apiResponse : StatusResponse) (originalTransactionId : string) : option (Z * doc * doc) :=
  lastTransactions ← head apiResponse.(sr_data);
  item ← List.find (fun i => String.eqb i.(it_originalTransactionId) originalTransactionId) lastTransactions;
  transactionInfo ← item.(it_transaction);
  renewalInfo ← item.(it_renewal);
  Some (item.(it_status), transactionInfo, renewalInfo).

(** [NotificationType.ConsumptionRequest], [.Subscribed] and
    [NotificationSubtype.InitialBuy] *)
Definition ConsumptionRequest : string := "CONSUMPTION_REQUEST".
Definition Subscribed : string := "SUBSCRIBED".
Definition InitialBuy : string := "INITIAL_BUY".

Record Notification := mkNotification { nt_type : string; nt_subtype : option string }.

Section PurchaseManager.
Context {F : Type} `{Firestore F} (api : AppStoreApi) (now : Z).

(** The notification a purchase was last looked up for. *)
Definition with_trigger (trigger : option string) (subtype : option string) (purchase : doc) : doc :=
  match trigger with
  | None => purchase
  | Some t => put "latestNotificationSubtype" (FStr <$> subtype) (obj_set purchase "latestNotificationType" (FStr t))
  end.

Definition querySubscriptionPurchase (f : F) (bundleId originalTransactionId : string)
    (triggerNotificationType triggerNotificationSubtype : option string) : F * (doc + IapError) :=
  match getSubscriptionStatuses api bundleId originalTransactionId with
  | inr code => (f, inr (convertAppStoreAPIErrorToLibraryError code))
  | inl apiResponse =>
      match latest_transaction apiResponse originalTransactionId with
      | None => (f, inr (convertAppStoreAPIErrorToLibraryError None))
      | Some (subscriptionStatus, transactionInfo, renewalInfo) =>
          let '(f, got) := doc_get f originalTransactionId in
          match got with
          | None => (f, inr OtherError)
          | Some purchaseRecordDoc =>
              let purchase := with_trigger triggerNotificationType triggerNotificationSubtype
                (fromApiResponse apiResponse subscriptionStatus transactionInfo renewalInfo originalTransactionId now) in
              let firestoreObject := toFirestoreObject purchase in
              match purchaseRecordDoc with
              | Some data =>
                  let '(f, ok) := doc_update f originalTransactionId firestoreObject in
                  if ok : bool then (f, inl (mergePurchaseWithFirestorePurchaseRecord purchase data)) else (f, inr OtherError)
              | None =>
                  let '(f, ok) := doc_set f originalTransactionId firestoreObject in
                  if ok : bool then (f, inl purchase) else (f, inr OtherError)
              end
          end
      end
  end.

Definition getSubscriptionPurchase (f : F) (originalTransactionId : string) : F * (option doc + IapError) :=
  let '(f, got) := doc_get f originalTransactionId in
  (f, match got with None => inr Raw | Some r => inl (fromFirestoreObject <$> r) end).

Definition app_store_query (userId : string) (bundleId productId : option string) : list (string * fval) :=
  ([("formOfPayment", FStr APPLE_APP_STORE_FORM_OF_PAYMENT); ("type", FStr "Auto-Renewable Subscription"); ("userId", FStr userId)]
   ++ match productId with Some s => if str_truthy s then [("productId", FStr s)] else [] | None => [] end
   ++ match bundleId with Some s => if str_truthy s then [("bundleId", FStr s)] else [] | None => [] end)%list.

(** A record that is not active is looked up once more. *)
Definition refreshed (f : F) (purchase : doc) : F * (doc + IapError) :=
  if isEntitlementActive purchase then (f, inl purchase)
  else match string_field purchase "bundleId", string_field purchase "originalTransactionId" with
       | Some bundleId, Some id => querySubscriptionPurchase f bundleId id None None
       | _, _ => (f, inr OtherError)
       end.

Fixpoint current_purchases (f : F) (records : list doc) : F * (list doc + IapError) :=
  match records with
  | [] => (f, inl [])
  | data :: records =>
      let '(f, r) := refreshed f (fromFirestoreObject data) in
      match r with
      | inr e => (f, inr e)
      | inl purchase =>
          let '(f, rest) := current_purchases f records in
          (f, match rest with
              | inr e => inr e
              | inl l => inl (if isEntitlementActive purchase then purchase :: l else l)
              end)
      end
  end.

Definition queryCurrentSubscriptionPurchases (f : F) (userId : string) (bundleId productId : option string)
    : F * (list doc + IapError) :=
  let '(f, got) := query f (app_store_query userId bundleId productId) in
  match got with
  | None => (f, inr OtherError)
  | Some records =>
      let '(f, r) := current_purchases f records in
      (f, match r with inl l => inl l | inr _ => inr OtherError end)
  end.

Definition forceRegisterToUserAccount (f : F) (originalTransactionId userId : string) : F * (unit + IapError) :=
  let '(f, ok) := doc_update f originalTransactionId [("userId", FStr userId)] in
  (f, if ok : bool then inl tt else inr OtherError).

(** The purchase to register: the stored one, or one the API vouches for. *)
Definition purchase_to_register (f : F) (bundleId originalTransactionId : string) : F * (doc + IapError) :=
  let '(f, stored) := getSubscriptionPurchase f originalTransactionId in
  match stored with
  | inr e => (f, inr e)
  | inl (Some purchase) => (f, inl purchase)
  | inl None =>
      let '(f, r) := querySubscriptionPurchase f bundleId originalTransactionId None None in
      (f, match r with inl purchase => inl purchase | inr _ => inr InvalidOriginalTransactionId end)
  end.

Definition registerToUserAccount (f : F) (bundleId originalTransactionId userId : string) : F * (doc + IapError) :=
  let '(f, r) := purchase_to_register f bundleId originalTransactionId in
  match r with
  | inr e => (f, inr e)
  | inl purchase =>
      if fv_is (obj_get purchase "userId") (FStr userId) then (f, inl purchase)
      else if fv_truthy (obj_get purchase "userId") then (f, inr Conflict)
      else let '(f, r) := forceRegisterToUserAccount f originalTransactionId userId in
           (f, match r with inl _ => inl purchase | inr e => inr e end)
  end.

Definition processNotification (f : F) (bundleId originalTransactionId : string) (notification : Notification)
    : F * (option doc + IapError) :=
  if String.eqb notification.(nt_type) ConsumptionRequest then (f, inl None)
  else if String.eqb notification.(nt_type) Subscribed && bool_decide (notification.(nt_subtype) = Some InitialBuy) then (f, inl None)
  else let '(f, r) := querySubscriptionPurchase f bundleId originalTransactionId (Some notification.(nt_type)) notification.(nt_subtype) in
       (f, match r with inl p => inl (Some p) | inr e => inr e end).
End PurchaseManager.

(** ** What is kept of a stored purchase *)

Definition not_gone (s : string) : Prop := False.

Abbreviation app_store_step := (owners_kept not_gone).

Lemma put_nodup k v p : NoDup p.*1 -> NoDup (put k v p).*1.
Proof. intros Hp. destruct v; [by apply obj_set_keys_nodup|done]. Qed.

Lemma put_truthy_nodup k v p : NoDup p.*1 -> NoDup (put_truthy k v p).*1.
Proof. intros Hp. unfold put_truthy. destruct (fv_truthy v); [by apply put_nodup|done]. Qed.

Lemma put_ne k v p k' : k <> k' -> obj_get (put k v p) k' = obj_get p k'.
Proof. intros Hk. destruct v; [by apply obj_get_set_ne|done]. Qed.

Lemma put_truthy_ne k v p k' : k <> k' -> obj_get (put_truthy k v p) k' = obj_get p k'.
Proof. intros Hk. unfold put_truthy. destruct (fv_truthy v); [by apply put_ne|done]. Qed.

Lemma app_fromApiResponse_nodup r s ti ri id now : NoDup (fromApiResponse r s ti ri id now).*1.
Proof. unfold fromApiResponse. cbn [fold_left]. repeat first [apply put_nodup | apply put_truthy_nodup]. constructor. Qed.

(** Nothing the API says is taken for the owner of a purchase. *)
Lemma app_fromApiResponse_owner r s ti ri id now : obj_get (fromApiResponse r s ti ri id now) "userId" = None.
Proof. unfold fromApiResponse. cbn [fold_left]. repeat first [rewrite put_ne by done | rewrite put_truthy_ne by done]. done. Qed.

Lemma with_trigger_owner t st p : obj_get (with_trigger t st p) "userId" = obj_get p "userId".
Proof. destruct t; cbn; [|done]. by rewrite put_ne, obj_get_set_ne by done. Qed.

Lemma toFirestoreObject_owner p : obj_get p "userId" = None -> obj_get (toFirestoreObject p) "userId" = None.
Proof. intros Hp. unfold toFirestoreObject, purchaseToFirestoreObject. by rewrite obj_get_set_ne, obj_get_assign_none by done. Qed.

Lemma app_fromFirestoreObject_owner d : obj_get (fromFirestoreObject d) "userId" = obj_get d "userId".
Proof.
  unfold fromFirestoreObject, mergePurchaseWithFirestorePurchaseRecord. rewrite merge_record_get. cbn [obj_get].
  by rewrite bool_decide_eq_true_2 by (split; vm_compute; set_solver).
Qed.

Section Steps.
Context {F : Type} `{FirestoreLaws F} (api : AppStoreApi) (now : Z).

(** A lookup keeps the owners, and a purchase that was not stored has none. *)
Lemma app_query_spec f b id t st f' r :
  querySubscriptionPurchase api now f b id t st = (f', r) ->
  app_store_step (docs f) (docs f') /\
  (docs f !! id = None -> forall p, r = inl p -> obj_get p "userId" = None).
Proof.
  unfold querySubscriptionPurchase. destruct (getSubscriptionStatuses api b id) as [resp|code]; [|by intros [= <- <-]].
  destruct (latest_transaction resp id) as [[[s ti] ri]|]; [|by intros [= <- <-]].
  destruct (doc_get f id) as [f1 got] eqn:Hg. apply doc_get_ok in Hg as [<- Hgot].
  destruct got as [got|]; [|by intros [= <- <-]]. specialize (Hgot _ eq_refl).
  set (p := with_trigger t st (fromApiResponse resp s ti ri id now)).
  assert (obj_get p "userId" = None) as Hp by (unfold p; rewrite with_trigger_owner; apply app_fromApiResponse_owner).
  destruct got as [data|].
  - destruct (doc_update f1 id _) as [f2 ok] eqn:Hu. intros Hrun. split; [|congruence].
    assert (f' = f2) as -> by (by destruct ok; injection Hrun as <- _).
    apply doc_update_ok in Hu as [(old & Hold & ->)|[_ ->]]; [|done]. apply step_update; [done|by apply toFirestoreObject_owner].
  - destruct (doc_set f1 id _) as [f2 ok] eqn:Hs. intros Hrun. assert (f' = f2) as -> by (by destruct ok; injection Hrun as <- _).
    split.
    + apply doc_set_ok in Hs as [->|[_ ->]]; [|done]. by apply step_insert_new.
    + intros _ q ->. destruct ok; [|done]. by injection Hrun as <-.
Qed.

Lemma app_notification_step f b id n f' r :
  processNotification api now f b id n = (f', r) -> app_store_step (docs f) (docs f').
Proof.
  unfold processNotification. destruct (String.eqb _ _); [by intros [= <- _]|]. destruct (_ && _); [by intros [= <- _]|].
  destruct (querySubscriptionPurchase _ _ _ _ _ _ _) as [f1 q] eqn:Hq. intros [= <- _]. by apply app_query_spec in Hq as [? _].
Qed.

Lemma app_current_step f records f' r :
  current_purchases api now f records = (f', r) -> app_store_step (docs f) (docs f').
Proof.
  revert f r. induction records as [|data records IH]; intros f r; cbn [current_purchases]; [by intros [= <- _]|].
  destruct (refreshed api now f _) as [f1 q] eqn:Hq. assert (app_store_step (docs f) (docs f1)) as H1.
  { unfold refreshed in Hq. destruct (isEntitlementActive _); [by injection Hq as <- <-|].
    repeat case_match; try (by injection Hq as <- <-). by apply app_query_spec in Hq as [? _]. }
  destruct q as [p|e]; [|by intros [= <- _]]. destruct (current_purchases _ _ _ _) as [f2 rest] eqn:Hc.
  intros [= <- _]. apply IH in Hc. by etrans.
Qed.

Lemma app_subscriptions_step f user b pid f' r :
  queryCurrentSubscriptionPurchases api now f user b pid = (f', r) -> app_store_step (docs f) (docs f').
Proof.
  unfold queryCurrentSubscriptionPurchases. destruct (query _ _) as [f1 got] eqn:Hq. apply query_ok in Hq as [<- _].
  destruct got as [records|]; [|by intros [= <- _]]. destruct (current_purchases _ _ _ _) as [f2 rest] eqn:Hc.
  intros [= <- _]. by eapply app_current_step.
Qed.

(** The purchase a registration looks at: one stored before the request, with
    its owner, or one that was not stored. *)
Lemma app_to_register_spec f b id f' r :
  purchase_to_register api now f b id = (f', r) ->
  app_store_step (docs f) (docs f') /\
  forall p, r = inl p ->
    (exists d, docs f' = docs f /\ docs f !! id = Some d /\ p = fromFirestoreObject d) \/
    docs f !! id = None /\ obj_get p "userId" = None.
Proof.
  unfold purchase_to_register, getSubscriptionPurchase. destruct (doc_get f id) as [f1 got] eqn:Hg.
  apply doc_get_ok in Hg as [E Hgot]. destruct got as [[data|]|]; cbn.
  - intros [= <- <-]. rewrite E. split; [done|]. intros p [= <-]. left. exists data. auto.
  - destruct (querySubscriptionPurchase _ _ _ _ _ _ _) as [f2 q] eqn:Hq. intros [= <- <-].
    apply app_query_spec in Hq as [Hs Hq]. rewrite E in Hs, Hq. specialize (Hgot _ eq_refl). split; [done|].
    intros p Hp. right. split; [done|]. destruct q as [q|]; [|done]. injection Hp as <-. by apply Hq.
  - intros [= <- <-]. by rewrite E.
Qed.

(** A registration keeps the owners there were, and when it succeeds the
    purchase is the user's. *)
Lemma app_register_spec f b id u f' r :
  registerToUserAccount api now f b id u = (f', r) ->
  app_store_step (docs f) (docs f') /\
  forall p, r = inl p -> exists d, docs f' !! id = Some d /\ owned_by u d.
Proof.
  unfold registerToUserAccount. destruct (purchase_to_register _ _ _ _ _) as [f1 q] eqn:Hq.
  apply app_to_register_spec in Hq as [H1 Hp]. destruct q as [p|e]; [|by intros [= <- <-]].
  specialize (Hp p eq_refl). unfold fv_is. case_bool_decide as Hown.
  { intros [= <- <-]. split; [done|]. intros _ _. destruct Hp as [(d & E & Hd & ->)|[_ Hno]]; [|congruence].
    exists d. rewrite E. by rewrite app_fromFirestoreObject_owner in Hown. }
  destruct (fv_truthy _) eqn:Ht; [by intros [= <- <-]|]. unfold forceRegisterToUserAccount.
  destruct (doc_update f1 id _) as [f2 ok] eqn:Hw. intros [= <- <-].
  apply doc_update_ok in Hw as [(old & Hold & E2)|[-> ->]]; [|done]. split.
  - intros x. destruct (decide (x = id)) as [->|]; [|etrans; [apply H1|]; rewrite E2; by apply step_at_insert_ne].
    intros d0 Hd0. destruct Hp as [(d & E & Hd & ->)|[Hno _]]; [|congruence].
    rewrite app_fromFirestoreObject_owner in Ht. rewrite E2, lookup_insert_eq. eexists. split; [done|].
    intros u' Hu' Ho. simplify_eq. unfold owned_by in Ho. rewrite Ho in Ht. cbn in Ht. congruence.
  - intros _ _. eexists. rewrite E2, lookup_insert_eq. split; [done|apply assign_owner].
Qed.

(** A registration of a purchase whose stored owner is another one changes
    nothing. *)
Lemma app_register_owned f b id u d u' f' r :
  docs f !! id = Some d -> owned_by u d -> str_truthy u = true -> u' <> u ->
  registerToUserAccount api now f b id u' = (f', r) ->
  docs f' = docs f /\ (r = inr Raw \/ r = inr Conflict).
Proof.
  intros Hd Ho Hu Hne. unfold registerToUserAccount, purchase_to_register, getSubscriptionPurchase.
  destruct (doc_get f id) as [f1 got] eqn:Hg. apply doc_get_ok in Hg as [E Hgot].
  destruct got as [got|]; [|intros [= <- <-]; auto]. specialize (Hgot _ eq_refl). rewrite Hd in Hgot. subst got. cbn.
  rewrite app_fromFirestoreObject_owner. unfold owned_by in Ho. rewrite Ho. unfold fv_is.
  rewrite bool_decide_eq_false_2 by congruence. cbn. rewrite Hu. intros [= <- <-]. auto.
Qed.
End Steps.

(** ** Sequences of calls *)

Inductive AppStoreOp :=
  | Register (bundleId originalTransactionId userId : string)
  | Notify (bundleId originalTransactionId : string) (n : Notification)
  | Current (userId : string) (bundleId productId : option string).

Record AppStoreCall := mkAppCall { ac_api : AppStoreApi; ac_now : Z; ac_op : AppStoreOp }.

Definition run_call {F} `{Firestore F} (f : F) (c : AppStoreCall) : F :=
  match c.(ac_op) with
  | Register b id u => (registerToUserAccount c.(ac_api) c.(ac_now) f b id u).1
  | Notify b id n => (processNotification c.(ac_api) c.(ac_now) f b id n).1
  | Current u b p => (queryCurrentSubscriptionPurchases c.(ac_api) c.(ac_now) f u b p).1
  end.

Lemma app_store_calls_step {F} `{FirestoreLaws F} cs (f : F) : app_store_step (docs f) (docs (fold_left run_call cs f)).
Proof.
  revert f. induction cs as [|c cs IH]; intros f; cbn [fold_left]; [done|].
  etrans; [|apply IH]. unfold run_call. destruct (ac_op c) as [b id u|b id n|u b p].
  - destruct (registerToUserAccount _ _ _ _ _ _) as [f1 r] eqn:E. by apply app_register_spec in E as [? _].
  - destruct (processNotification _ _ _ _ _ _) as [f1 r] eqn:E. by apply app_notification_step in E.
  - destruct (queryCurrentSubscriptionPurchases _ _ _ _ _ _) as [f1 r] eqn:E. by apply app_subscriptions_step in E.
Qed.

(** An App Store purchase is registered to one account for good: after a
    registration for [u] succeeded, its owner is [u] whatever the manager is
    asked to do, with a Firestore that may reject any command, and a
    registration for another account fails and changes nothing. *)
Theorem app_store_purchase_single_owner {F} `{FirestoreLaws F} api now (f : F) b id u f1 p cs api' now' b' u' :
  str_truthy u = true -> u' <> u -> registerToUserAccount api now f b id u = (f1, inl p) ->
  let f2 := fold_left run_call cs f1 in
  exists d : doc, docs f2 !! id = Some d /\ owned_by u d /\
    let '(f3, r) := registerToUserAccount api' now' f2 b' id u' in docs f3 = docs f2 /\ (r = inr Raw \/ r = inr Conflict).
Proof.
  intros Hu Hne Hreg f2. apply app_register_spec in Hreg as [_ Hd]. destruct (Hd p eq_refl) as (d1 & Hd1 & Ho1).
  destruct (app_store_calls_step cs f1 id d1 Hd1) as (d & Hd2 & Ho2). destruct (Ho2 u Hu Ho1) as [Ho|(? & [] & _)].
  exists d. split; [done|]. split; [done|]. destruct (registerToUserAccount api' _ _ _ _ _) as [f3 r] eqn:E.
  by eapply (app_register_owned api' now' f2 b' id u d u').
Qed.

(** An application with one subscription, and its owner. *)
Definition one_api : AppStoreApi := mkApi ["org.app"]
  (fun b id => inl (mkStatus b "Production" [[mkItem id 1 (Some [("productId", FStr "monthly"); ("type", FStr "Auto-Renewable Subscription")]) (Some [])]])).

Definition one_owner : Collection * (doc + IapError) := registerToUserAccount one_api 1000 (mkCollection ∅) "org.app" "1234" "alice".

Lemma app_store_purchase_single_owner_witness :
  let f2 := fold_left run_call [mkAppCall one_api 2000 (Register "org.app" "1234" "carol"); mkAppCall one_api 3000 (Current "alice" None None)] one_owner.1 in
  exists d : doc, docs f2 !! "1234" = Some d /\ owned_by "alice" d /\
    let '(f3, r) := registerToUserAccount one_api 4000 f2 "org.app" "1234" "bob" in docs f3 = docs f2 /\ (r = inr Raw \/ r = inr Conflict).
Proof.
  apply (app_store_purchase_single_owner one_api 1000 (mkCollection ∅) "org.app" "1234" "alice" one_owner.1
           (match one_owner.2 with inl p => p | inr _ => [] end)); [done|done|by vm_compute].
Defined.
End AppStore.
