(* ===== verification/Plans.v ===== *)
(** * Subscription plans

    The plans of Stripe and their configuration: the shared Stripe helper
    (packages/fxa-shared/payments/stripe.ts: fetchAllPlans, allConfiguredPlans,
    allMergedPlanConfigs, allAbbrevPlans, determineIapIdentifiers), the
    configuration manager (packages/fxa-shared/payments/configuration/manager.ts
    and packages/fxa-auth-server/lib/payments/configuration/manager.ts), the
    merging of configurations and the order of plans
    (packages/fxa-shared/subscriptions/configuration/utils.ts, metadata.ts,
    stripe.ts), and the plans of in-app purchases
    (packages/fxa-auth-server/lib/payments/stripe.ts, iap/iap-config.ts).

    Of a plan and of a configuration, the fields that decide on capabilities,
    on eligibility and on in-app purchases; texts, links, styles and amounts
    are carried along by the code and left out. *)

From Stdlib Require Import Ascii.
From stdpp Require Import pretty.
From S2P Require Import Prelude Text Firestore.
From S2P Require ScopeValues Blocklist Bytes.

#[local] Open Scope string_scope.
#[local] Open Scope Z_scope.

(** ** JavaScript helpers *)

(** [s.startsWith(pre)] *)
Definition startsWith (pre s : string) : bool := bool_decide (is_Some (ScopeValues.strip_prefix pre s)).

(** [o[k]] on a plain object: an inherited name reads a value without any of
    the fields the code looks at. *)
Definition proto_get {V} (blank : V) (o : jsobj V) (k : string) : option V :=
  match obj_get o k with Some v => Some v | None => if is_proto_name k then Some blank else None end.

(** [Object.values(o)] *)
Definition values {V} (o : jsobj V) : list V := o.*2.

(** The hexadecimal digits in front of a string. *)
Fixpoint hex_prefix (acc : num) (s : string) : num :=
  match s with
  | EmptyString => acc
  | String a s' => match Bytes.hex_value a with Some d => hex_prefix (Some (16 * or0 acc + d)) s' | None => acc end
  end.

(** [parseInt(s)]: hexadecimal after [0x], decimal otherwise. *)
Definition parseInt (s : string) : num :=
  let unsigned t := match ScopeValues.strip_prefix "0x" t, ScopeValues.strip_prefix "0X" t with
                    | Some h, _ | None, Some h => Some (hex_prefix None h)
                    | None, None => None
                    end in
  let t := trim_start s in
  match ScopeValues.strip_prefix "-" t, ScopeValues.strip_prefix "+" t with
  | Some u, _ => match unsigned u with Some n => Z.opp <$> n | None => Blocklist.parseInt s end
  | None, Some u => match unsigned u with Some n => n | None => Blocklist.parseInt s end
  | None, None => match unsigned t with Some n => n | None => Blocklist.parseInt s end
  end.

(** [commaSeparatedListToArray(s)] (packages/fxa-shared/lib/utils.ts) *)
Definition commaSeparatedListToArray (s : string) : list string :=
  filterb str_truthy (trim <$> split_on ","%char (trim s)).

(** ** Configurations *)

Abbreviation metadata := (jsobj string).

(** A configuration of capabilities: for each client, what it may use. *)
Abbreviation CapabilityConfig := (jsobj (list string)).

Record ProductConfig := mkProductConfig {
  pd_id : string;
  pd_capabilities : option CapabilityConfig;
  pd_stripeProductId : option string;
  pd_productSet : option (list string);
  pd_promotionCodes : option (list string) }.

Definition blank_product : ProductConfig := mkProductConfig "" None None None None.

Record PlanConfig := mkPlanConfig {
  pl_id : string;
  pl_productConfigId : string;
  pl_capabilities : option CapabilityConfig;
  pl_stripePriceId : option string;
  pl_productSet : option (list string);
  pl_productOrder : option Z;
  pl_playSkuIds : option (list string);
  pl_appStoreProductIds : option (list string);
  pl_promotionCodes : option (list string) }.

Definition blank_config : PlanConfig := mkPlanConfig "" "" None None None None None None None.

(** [mergeConfigs(planConfig, productConfig)] *)
Definition mergeConfigs (planConfig : PlanConfig) (productConfig : ProductConfig) : PlanConfig :=
  mkPlanConfig planConfig.(pl_id) planConfig.(pl_productConfigId)
    (Some (assign (assign [] (default [] productConfig.(pd_capabilities))) (default [] planConfig.(pl_capabilities))))
    planConfig.(pl_stripePriceId)
    (match planConfig.(pl_productSet) with Some s => Some s | None => productConfig.(pd_productSet) end)
    planConfig.(pl_productOrder) planConfig.(pl_playSkuIds) planConfig.(pl_appStoreProductIds)
    (Some (set_of (default [] productConfig.(pd_promotionCodes) ++ default [] planConfig.(pl_promotionCodes))%list)).

(** The manager's copy of the two collections, by document id. *)
Record Manager := mkManager { products : jsobj ProductConfig; plans : jsobj PlanConfig }.

(** A change of a listened-to collection. *)
Inductive Change (A : Type) := Changed (id : string) (data : A) | Removed (id : string).
Arguments Changed {A}. Arguments Removed {A}.

Definition apply_change {A} (o : jsobj A) (c : Change A) : jsobj A :=
  match c with
  | Changed id data => obj_set o id data
  | Removed id => if js_in id o then obj_delete o id else o
  end.

(** [load()] and the listeners of [startListeners()] *)
Definition load (productDocs : list (string * ProductConfig)) (planDocs : list (string * PlanConfig)) (m : Manager) : Manager :=
  mkManager (assign m.(products) productDocs) (assign m.(plans) planDocs).

Definition product_snapshot (changes : list (Change ProductConfig)) (m : Manager) : Manager :=
  mkManager (fold_left apply_change changes m.(products)) m.(plans).

Definition plan_snapshot (changes : list (Change PlanConfig)) (m : Manager) : Manager :=
  mkManager m.(products) (fold_left apply_change changes m.(plans)).

Definition allPlanConfigs (m : Manager) : list PlanConfig := values m.(plans).

(** [getMergedConfig(planConfig)]; [None] is the error of a plan whose product
    has no configuration. *)
Definition getMergedConfig (m : Manager) (planConfig : PlanConfig) : option PlanConfig :=
  mergeConfigs planConfig <$> proto_get blank_product m.(products) planConfig.(pl_productConfigId).

(** [getDocumentIdByStripeId(stripeId)] *)
Definition getDocumentIdByStripeId (m : Manager) (stripeId : string) : option string :=
  match List.find (fun p => bool_decide (p.(pd_stripeProductId) = Some stripeId)) (values m.(products)) with
  | Some p => Some p.(pd_id)
  | None => pl_id <$> List.find (fun p => bool_decide (p.(pl_stripePriceId) = Some stripeId)) (allPlanConfigs m)
  end.

(** [getMergedPlanConfiguration(planId)]: an error, no plan, or the merged
    configuration. *)
Definition getMergedPlanConfiguration (m : Manager) (planId : string) : option (option PlanConfig) :=
  match List.find (fun p => bool_decide (p.(pl_stripePriceId) = Some planId)) (allPlanConfigs m) with
  | Some planConfig => Some <$> getMergedConfig m planConfig
  | None => Some None
  end.

(** [mapPlanConfigsByPriceId(configs)] *)
Definition mapPlanConfigsByPriceId (configs : list PlanConfig) : jsobj PlanConfig :=
  fold_left (fun acc planConfig =>
    match planConfig.(pl_stripePriceId) with
    | Some id => if str_truthy id then obj_set acc id planConfig else acc
    | None => acc
    end) configs [].

(** [allMergedPlanConfigs()]: without a manager there are none; one plan
    without a product fails the whole. *)
Definition allMergedPlanConfigs (manager : option Manager) : option (jsobj PlanConfig) :=
  match manager with
  | None => Some []
  | Some m => mapM (fun kv : string * PlanConfig => pair kv.1 <$> getMergedConfig m kv.2)
                   (mapPlanConfigsByPriceId (allPlanConfigs m))
  end.

(** ** Plans *)

(** The product of a plan of Stripe's list. *)
Inductive PlanProduct :=
  | NoProduct
  | Unexpanded (id : string)
  | DeletedProduct (id : string)
  | Product (id : string) (md : metadata).

Record StripePlan := mkStripePlan { sp_id : string; sp_metadata : metadata; sp_product : PlanProduct }.

Definition trim_values (md : metadata) : metadata := prod_map id trim <$> md.

(** The metadata of the plan's product. *)
Definition product_of (p : StripePlan) : string * metadata :=
  match p.(sp_product) with Product id md => (id, md) | Unexpanded id | DeletedProduct id => (id, []) | NoProduct => ("", []) end.

Record AbbrevPlan := mkAbbrev {
  plan_id : string;
  plan_metadata : option metadata;
  product_id : string;
  product_metadata : option metadata;
  configuration : option PlanConfig }.

Definition blank_plan : AbbrevPlan := mkAbbrev "" None "" None None.

Section StripePlans.
(** The schema of product metadata. *)
Context (schema_ok : metadata -> bool).

(** [validatePlan(plan)]: the metadata has a capability and satisfies the
    schema. *)
Definition validatePlan (p : StripePlan) : bool :=
  let md := assign (assign [] p.(sp_metadata)) (product_of p).2 in
  existsb (startsWith "capabilities") md.*1 && schema_ok md.

(** [fetchAllPlans()], with the flag
    [config.subscriptions.productConfigsFirestore.enabled] *)
Definition fetchAllPlans (firestoreEnabled : bool) (items : list StripePlan) : list StripePlan :=
  omap (fun item =>
    match item.(sp_product) with
    | Product pid md =>
        let item := mkStripePlan item.(sp_id) (trim_values item.(sp_metadata)) (Product pid (trim_values md)) in
        if firestoreEnabled || validatePlan item then Some item else None
    | _ => None
    end) items.

(** [formatPlanConfigDto(planConfig)]: the configuration without what clients
    are not shown. *)
Definition formatPlanConfigDto (c : PlanConfig) : PlanConfig :=
  mkPlanConfig "" "" None c.(pl_stripePriceId) c.(pl_productSet) c.(pl_productOrder) c.(pl_playSkuIds) c.(pl_appStoreProductIds) None.

(** [allConfiguredPlans()] *)
Definition allConfiguredPlans (manager : option Manager) (allPlans : list StripePlan) : option (list (StripePlan * option PlanConfig)) :=
  (fun planConfigs => (fun p => (p, formatPlanConfigDto <$> proto_get blank_config planConfigs p.(sp_id))) <$> allPlans)
    <$> allMergedPlanConfigs manager.

(** [allAbbrevPlans()]: the plans with a configuration, and the others that
    are valid. *)
Definition allAbbrevPlans (manager : option Manager) (allPlans : list StripePlan) : option (list AbbrevPlan) :=
  (fun configured =>
    (fun pc : StripePlan * option PlanConfig =>
       mkAbbrev pc.1.(sp_id) (Some pc.1.(sp_metadata)) (product_of pc.1).1 (Some (product_of pc.1).2) pc.2)
    <$> filterb (fun pc => bool_decide (is_Some pc.2) || validatePlan pc.1) configured) <$> allConfiguredPlans manager allPlans.
End StripePlans.

(** ** The order of plans *)

Record ProductUpgrade := mkUpgrade { productOrder : option string; productSet : option (list string) }.

(** [metadataFromPlan(plan)], its product set and order *)
Definition metadataFromPlan (p : AbbrevPlan) : ProductUpgrade :=
  let md := assign (assign [] (default [] p.(product_metadata))) (default [] p.(plan_metadata)) in
  mkUpgrade (obj_get md "productOrder") (commaSeparatedListToArray <$> obj_get md "productSet").

(** [productUpgradeFromProductConfig(plan, useFirestoreProductConfigs)];
    [None] is the error of a plan without a configuration. *)
Definition productUpgradeFromProductConfig (p : AbbrevPlan) (useFirestoreProductConfigs : bool) : option ProductUpgrade :=
  if useFirestoreProductConfigs then
    (fun c => mkUpgrade (pretty <$> c.(pl_productOrder)) c.(pl_productSet)) <$> p.(configuration)
  else Some (metadataFromPlan p).

Inductive UpdateEligibility := Upgrade | Downgrade | Invalid.

(** [!!order && parseInt(order)]; [None] and [Some 0] are falsy. *)
Definition order_of (u : ProductUpgrade) : num :=
  match u.(productOrder) with Some s => if str_truthy s then parseInt s else None | None => None end.

(** [a.some((name) => b.includes(name))] *)
Definition shares_name (a b : list string) : bool := existsb (fun name => bool_decide (name ∈ b)) a.

(** [getSubscriptionUpdateEligibility(currentPlan, newPlan, useFirestoreProductConfigs)] *)
Definition getSubscriptionUpdateEligibility (currentPlan newPlan : AbbrevPlan) (useFirestoreProductConfigs : bool)
    : option UpdateEligibility :=
  current ← productUpgradeFromProductConfig currentPlan useFirestoreProductConfigs;
  new ← productUpgradeFromProductConfig newPlan useFirestoreProductConfigs;
  Some (match current.(productSet), new.(productSet), order_of current, order_of new with
        | Some currentSet, Some newSet, Some currentOrder, Some newOrder =>
            if String.eqb currentPlan.(plan_id) newPlan.(plan_id) || bool_decide (currentSet = []) || bool_decide (newSet = [])
               || negb (shares_name newSet currentSet) || (currentOrder =? 0) || (newOrder =? 0) || (newOrder =? currentOrder)
            then Invalid
            else if newOrder <? currentOrder then Downgrade else Upgrade
        | _, _, _, _ => Invalid
        end).

(** [verifyPlanUpdateForSubscription]: the order and the set of a configuration
    take the place of those of the metadata. *)
Definition with_configured_order (p : AbbrevPlan) : AbbrevPlan :=
  match p.(configuration) with
  | Some c =>
      match c.(pl_productSet), c.(pl_productOrder) with
      | Some set, Some order =>
          if order =? 0 then p
          else let md := obj_set (obj_set (default [] p.(plan_metadata)) "productSet" (ScopeValues.join "," set)) "productOrder" (pretty order) in
               mkAbbrev p.(plan_id) (Some md) p.(product_id) p.(product_metadata) p.(configuration)
      | _, _ => p
      end
  | None => p
  end.

Inductive PlanError := SubscriptionAlreadyChanged | UnknownSubscriptionPlan | InvalidPlanUpdate.

Definition find_plan (allPlans : list AbbrevPlan) (id : string) : option AbbrevPlan :=
  List.find (fun p => String.eqb p.(plan_id) id) allPlans.

Definition findAbbrevPlanById (allPlans : list AbbrevPlan) (planId : string) : AbbrevPlan + PlanError :=
  match find_plan allPlans planId with Some p => inl p | None => inr UnknownSubscriptionPlan end.

Definition verifyPlanUpdateForSubscription (allPlans : list AbbrevPlan) (currentPlanId newPlanId : string) : unit + PlanError :=
  if String.eqb currentPlanId newPlanId then inr SubscriptionAlreadyChanged
  else match find_plan allPlans currentPlanId, find_plan allPlans newPlanId with
       | Some currentPlan, Some newPlan =>
           match getSubscriptionUpdateEligibility (with_configured_order currentPlan) (with_configured_order newPlan) false with
           | Some Upgrade => inl tt
           | _ => inr InvalidPlanUpdate
           end
       | _, _ => inr UnknownSubscriptionPlan
       end.

(** ** In-app purchases *)

Inductive IapType := IapGoogle | IapApple.

(** [determineIapIdentifiers(iapType, plan)] *)
Definition determineIapIdentifiers (iapType : IapType) (p : AbbrevPlan) : list string :=
  let configured := c ← p.(configuration); match iapType with IapGoogle => c.(pl_playSkuIds) | IapApple => c.(pl_appStoreProductIds) end in
  let key := match iapType with IapGoogle => "playSkuIds" | IapApple => "appStoreProductIds" end in
  let fromMetadata := default "" (md ← p.(plan_metadata); obj_get md key) in
  set_of (default [] configured ++ filterb str_truthy ((fun c => toLowerCase (trim c)) <$> split_on ","%char (trim fromMetadata)))%list.

(** [getIapPurchaseType(purchase)] *)
Definition getIapPurchaseType (purchase : doc) : option IapType :=
  if js_in "purchaseToken" purchase then Some IapGoogle
  else if js_in "originalTransactionId" purchase then Some IapApple else None.

(** [iapPurchasesToPriceIds(purchases)]; [None] is a rejected promise: plans
    that cannot be listed, a purchase that is not one. *)
Definition iapPurchasesToPriceIds (prices : option (list AbbrevPlan)) (purchases : list doc) : option (list string) :=
  prices ← prices;
  first ← head purchases;
  iapType ← getIapPurchaseType first;
  let key := match iapType with IapGoogle => "sku" | IapApple => "productId" end in
  purchasedIds ← mapM (fun purchase => match obj_get purchase key with Some (FStr s) => Some (toLowerCase s) | _ => None end) purchases;
  Some (plan_id <$> filterb (fun price => shares_name (determineIapIdentifiers iapType price) purchasedIds) prices).
