(* ===== verification/Capabilities.v ===== *)
(** * Subscription capabilities (packages/fxa-auth-server/lib/payments/capability.ts)

    Which prices a user subscribes to, what each client may use because of
    them, the announcement of changes, and whether a user may take a plan. *)

From Stdlib Require Import Ascii.
From S2P Require Import Prelude Text Sorting Firestore PlayPurchases AppStorePurchases Plans.
From S2P Require Scopes.

#[local] Open Scope string_scope.
#[local] Open Scope Z_scope.

Definition ALL_RPS_CAPABILITIES_KEY : string := "*".

(** For each client, its capabilities. *)
Abbreviation ClientIdCapabilityMap := (jsobj (list string)).

(** ** Capabilities of prices *)

(** [allCapabilities(capabilityMap)] *)
Definition allCapabilities (capabilityMap : ClientIdCapabilityMap) : list string := set_of (mjoin (values capabilityMap)).

(** [(allCapabilities[clientId] ?? [])] with the capabilities added; an
    inherited name is no set and throws. *)
Definition add_capabilities (m : ClientIdCapabilityMap) (clientId : string) (caps : list string) : option ClientIdCapabilityMap :=
  match obj_get m clientId with
  | Some l => Some (obj_set m clientId (fold_left add_key caps l))
  | None => if is_proto_name clientId then None else Some (obj_set m clientId (set_of caps))
  end.

(** The client a metadata key is about; [None] is the error of a key without a
    colon. *)
Definition capability_client (key : string) : option string :=
  if String.eqb key "capabilities" then Some ALL_RPS_CAPABILITIES_KEY
  else trim <$> split_on ":"%char key !! 1%nat.

Fixpoint foldM {A B} (step : B -> A -> option B) (l : list A) (b : B) : option B :=
  match l with [] => Some b | x :: l' => b' ← step b x; foldM step l' b' end.

(** The loop over the keys of one metadata object. *)
Definition add_metadata_key (md : metadata) (m : ClientIdCapabilityMap) (key : string) : option ClientIdCapabilityMap :=
  clientId ← capability_client key;
  match commaSeparatedListToArray (default "" (obj_get md key)) with
  | [] => Some m
  | caps => add_capabilities m clientId caps
  end.

Definition add_metadata (m : ClientIdCapabilityMap) (md : option metadata) : option ClientIdCapabilityMap :=
  match md with
  | None => Some m
  | Some md => foldM (add_metadata_key md) (filterb (startsWith "capabilities") md.*1) m
  end.

Definition add_price (subscribedPrices : list string) (m : ClientIdCapabilityMap) (price : AbbrevPlan) : option ClientIdCapabilityMap :=
  if bool_decide (price.(plan_id) ∈ subscribedPrices)
  then foldM add_metadata [price.(plan_metadata); price.(product_metadata)] m else Some m.

Definition add_config (manager : Manager) (subscribedPrices : list string) (m : ClientIdCapabilityMap) (plan : PlanConfig)
    : option ClientIdCapabilityMap :=
  if bool_decide (default "" plan.(pl_stripePriceId) ∈ subscribedPrices)
  then mergedConfig ← getMergedConfig manager plan;
       foldM (fun m (e : string * list string) => add_capabilities m e.1 e.2) (default [] mergedConfig.(pl_capabilities)) m
  else Some m.

(** [priceIdsToClientCapabilities(subscribedPrices)]; [None] is a rejected
    promise. *)
Definition priceIdsToClientCapabilities (prices : option (list AbbrevPlan)) (manager : option Manager)
    (subscribedPrices : list string) : option ClientIdCapabilityMap :=
  prices ← prices;
  m ← foldM (add_price subscribedPrices) prices [];
  match manager with
  | Some mg => foldM (add_config mg subscribedPrices) (allPlanConfigs mg) m
  | None => Some m
  end.

(** [createPriceIdChangeset({ currentPriceIds, affectedPriceIds })] *)
Definition createPriceIdChangeset (currentPriceIds affectedPriceIds : list string) : list string :=
  fold_left (fun prior affected => if bool_decide (affected ∈ currentPriceIds) then Scopes.set_delete prior affected else prior)
    affectedPriceIds (set_of (currentPriceIds ++ affectedPriceIds)%list).

(** [determineClientVisibleSubscriptionCapabilities(clientIdRaw, allCapabilities)]
    on a client id in hexadecimal; the outer [None] is the error of an
    inherited name, the inner one [undefined]. *)
Definition revealed (allCapabilities : ClientIdCapabilityMap) (key : string) : option (list string) :=
  match obj_get allCapabilities key with Some l => Some l | None => if is_proto_name key then None else Some [] end.

Definition determineClientVisibleSubscriptionCapabilities (clientIdRaw : option string)
    (allCapabilities : option ClientIdCapabilityMap) : option (option (list string)) :=
  match allCapabilities with
  | None => Some None
  | Some all =>
      toReveal ← match clientIdRaw with
                 | None => Some (set_of (fold_left (fun acc curr => curr ++ acc)%list (values all) []))
                 | Some raw =>
                     everyone ← revealed all ALL_RPS_CAPABILITIES_KEY;
                     own ← revealed all (toLowerCase raw);
                     Some (set_of (everyone ++ own)%list)
                 end;
      Some (match toReveal with [] => None | _ => Some (js_sort compare_strings toReveal) end)
  end.

(** ** The service *)

Record Subscription := mkSubscription { sub_status : string; sub_prices : list string }.

Definition ACTIVE_SUBSCRIPTION_STATUSES : list string := ["active"; "past_due"; "trialing"].

(** What the service is given: the stores' interfaces when they are configured,
    the list of plans and the customers of Stripe ([None] when the request
    fails, [Some None] when there is no customer), the configurations, whether
    the profile server answers, and the time. *)
Record PayEnv := mkPayEnv {
  pe_play : option PlayApi;
  pe_apple : option AppStore.AppStoreApi;
  pe_plans : option (list AbbrevPlan);
  pe_manager : option Manager;
  pe_customer : string -> option (option (list Subscription));
  pe_profile_ok : bool;
  pe_now : Z }.

Inductive PayEvent :=
  | ProfileCacheDeleted (uid : string)
  | SubscriptionUpdate (uid : string) (eventCreatedAt : Z) (isActive : bool) (productCapabilities : list string).

(** The two collections of purchases, and what was announced. *)
Record PayState (F : Type) := mkPay { ps_play : F; ps_apple : F; ps_events : list PayEvent }.
Arguments mkPay {F}. Arguments ps_play {F}. Arguments ps_apple {F}. Arguments ps_events {F}.

Inductive PayErr := InternalValidationError | UnknownPlan (id : string) | ServiceError.

Section Service.
Context {F : Type} `{Firestore F} (env : PayEnv).

Definition on_play (s : PayState F) (f : F) : PayState F := mkPay f s.(ps_apple) s.(ps_events).
Definition on_apple (s : PayState F) (f : F) : PayState F := mkPay s.(ps_play) f s.(ps_events).
Definition announce (s : PayState F) (e : list PayEvent) : PayState F := mkPay s.(ps_play) s.(ps_apple) (s.(ps_events) ++ e)%list.

(** A failed lookup of purchases counts as none; a failure to find their prices
    is passed on. *)
Definition fetchSubscribedPricesFromPlay (s : PayState F) (uid : string) : PayState F * option (list string) :=
  match env.(pe_play) with
  | None => (s, Some [])
  | Some api =>
      let '(f, r) := queryCurrentSubscriptions api env.(pe_now) s.(ps_play) uid None None in
      (on_play s f,
       match r with
       | inr _ => Some []
       | inl allPurchases =>
           match filterb (isEntitlementActive env.(pe_now)) allPurchases with
           | [] => Some []
           | purchases => iapPurchasesToPriceIds env.(pe_plans) purchases
           end
       end)
  end.

Definition fetchSubscribedPricesFromAppStore (s : PayState F) (uid : string) : PayState F * option (list string) :=
  match env.(pe_apple) with
  | None => (s, Some [])
  | Some api =>
      let '(f, r) := AppStore.queryCurrentSubscriptionPurchases api env.(pe_now) s.(ps_apple) uid None None in
      (on_apple s f,
       match r with
       | inr _ => Some []
       | inl allPurchases =>
           match filterb AppStore.isEntitlementActive allPurchases with
           | [] => Some []
           | purchases => iapPurchasesToPriceIds env.(pe_plans) purchases
           end
       end)
  end.

Definition fetchSubscribedPricesFromStripe (uid : string) : option (list string) :=
  customer ← env.(pe_customer) uid;
  Some (match customer with
        | None => []
        | Some subs => mjoin (sub_prices <$> filterb (fun sub => bool_decide (sub.(sub_status) ∈ ACTIVE_SUBSCRIPTION_STATUSES)) subs)
        end).

(** The prices from Stripe, from Google Play and from the App Store. *)
Definition fetch_all (s : PayState F) (uid : string) : PayState F * option (list string * list string * list string) :=
  let stripe := fetchSubscribedPricesFromStripe uid in
  let '(s, play) := fetchSubscribedPricesFromPlay s uid in
  let '(s, apple) := fetchSubscribedPricesFromAppStore s uid in
  (s, stripe ← stripe; play ← play; apple ← apple; Some (stripe, play, apple)).

Definition subscribedPriceIds (s : PayState F) (uid : string) : PayState F * option (list string) :=
  let '(s, r) := fetch_all s uid in
  (s, (fun '(stripe, play, apple) => set_of (stripe ++ play ++ apple)%list) <$> r).

Definition subscriptionCapabilities (s : PayState F) (uid : string) : PayState F * option ClientIdCapabilityMap :=
  let '(s, prices) := subscribedPriceIds s uid in
  (s, prices ← prices; priceIdsToClientCapabilities env.(pe_plans) env.(pe_manager) prices).

(** [broadcastCapabilitiesAdded] and [broadcastCapabilitiesRemoved] *)
Definition broadcast (uid : string) (isActive : bool) (capabilities : list string) : list PayEvent :=
  match capabilities with
  | [] => []
  | _ => [SubscriptionUpdate uid (env.(pe_now) / 1000) isActive capabilities]
  end.

(** [l.filter((c) => !k.includes(c))] *)
Definition without (l k : list string) : list string := filterb (fun c => negb (bool_decide (c ∈ k))) l.

Definition processPriceIdDiff (s : PayState F) (uid : string) (priorPriceIds currentPriceIds : list string)
    : PayState F * option (list string * list string) :=
  match priceIdsToClientCapabilities env.(pe_plans) env.(pe_manager) priorPriceIds,
        priceIdsToClientCapabilities env.(pe_plans) env.(pe_manager) currentPriceIds with
  | Some prior, Some current =>
      let newCapabilities := without (allCapabilities current) (allCapabilities prior) in
      let removedCapabilities := without (allCapabilities prior) (allCapabilities current) in
      (announce s (broadcast uid true newCapabilities ++ broadcast uid false removedCapabilities)%list,
       Some (newCapabilities, removedCapabilities))
  | _, _ => (s, None)
  end.

(** The common end of [stripeUpdate] and [iapUpdate]. *)
Definition refresh (s : PayState F) (uid : string) (affectedPriceIds : list string) : PayState F * (unit + PayErr) :=
  let '(s, current) := subscribedPriceIds s uid in
  match current with
  | None => (s, inr ServiceError)
  | Some currentPriceIds =>
      let priorPriceIds := createPriceIdChangeset currentPriceIds affectedPriceIds in
      let s := if env.(pe_profile_ok) then announce s [ProfileCacheDeleted uid] else s in
      let '(s, r) := processPriceIdDiff s uid priorPriceIds currentPriceIds in
      (s, if env.(pe_profile_ok) then match r with Some _ => inl tt | None => inr ServiceError end else inr ServiceError)
  end.

(** [stripeUpdate({ sub, uid })]: [uid] is the argument, [found] the account
    of the customer. *)
Definition stripeUpdate (s : PayState F) (customerIsString : bool) (affectedPriceIds : list string)
    (uid found : option string) : PayState F * (unit + PayErr) :=
  if negb customerIsString then (s, inr InternalValidationError)
  else let uid := if ostr_truthy uid then uid else found in
       match uid with
       | Some uid =>
           if str_truthy uid then
             match affectedPriceIds with [] => (s, inl tt) | _ => refresh s uid affectedPriceIds end
           else (s, inl tt)
       | None => (s, inl tt)
       end.

Definition iapUpdate (s : PayState F) (uid : string) (purchase : doc) : PayState F * (unit + PayErr) :=
  match iapPurchasesToPriceIds env.(pe_plans) [purchase] with
  | None => (s, inr ServiceError)
  | Some ids =>
      match head ids with
      | Some affectedPriceId => if str_truthy affectedPriceId then refresh s uid [affectedPriceId] else (s, inl tt)
      | None => (s, inl tt)
      end
  end.

(** ** Eligibility *)

Inductive Eligibility := Create | UpgradeTo | DowngradeTo | BlockedIap | NotEligible.

(** The last of two plans with the same id is kept. *)
Definition allPlansByPlanId (allPlans : list AbbrevPlan) : jsobj AbbrevPlan :=
  fold_left (fun acc p => obj_set acc p.(plan_id) p) allPlans [].

Definition mapSubscriptions (byId : jsobj AbbrevPlan) (planIds : list string) : list AbbrevPlan :=
  omap (proto_get blank_plan byId) planIds.

(** [plans.some(...)] of plans that share a product with the target; [None]
    when a plan before the first match has no configuration. *)
Fixpoint someSharing (useFirestoreProductConfigs : bool) (targetProductSet : list string) (ps : list AbbrevPlan) : option bool :=
  match ps with
  | [] => Some false
  | p :: ps =>
      u ← productUpgradeFromProductConfig p useFirestoreProductConfigs;
      if match u.(productSet) with Some set => shares_name set targetProductSet | None => false end then Some true
      else someSharing useFirestoreProductConfigs targetProductSet ps
  end.

(** The first subscribed plan that can be changed for the target. *)
Fixpoint firstChange (useFirestoreProductConfigs : bool) (targetPlan : AbbrevPlan) (ps : list AbbrevPlan) : option Eligibility :=
  match ps with
  | [] => Some NotEligible
  | p :: ps =>
      eligibility ← getSubscriptionUpdateEligibility p targetPlan useFirestoreProductConfigs;
      match eligibility with
      | Upgrade => Some UpgradeTo
      | Downgrade => Some DowngradeTo
      | Invalid => firstChange useFirestoreProductConfigs targetPlan ps
      end
  end.

Definition decide_eligibility (useFirestoreProductConfigs : bool) (targetPlan : AbbrevPlan) (targetProductSet : list string)
    (stripePlans iapPlans : list AbbrevPlan) : option Eligibility :=
  iapRoadblock ← someSharing useFirestoreProductConfigs targetProductSet iapPlans;
  if iapRoadblock : bool then Some BlockedIap
  else isSubscribedToProductSet ← someSharing useFirestoreProductConfigs targetProductSet stripePlans;
       if negb isSubscribedToProductSet then Some Create
       else firstChange useFirestoreProductConfigs targetPlan stripePlans.

Definition getPlanEligibility (s : PayState F) (uid targetPlanId : string) (useFirestoreProductConfigs : bool)
    : PayState F * (Eligibility + PayErr) :=
  match env.(pe_plans) with
  | None => (s, inr ServiceError)
  | Some allPlans =>
      let byId := allPlansByPlanId allPlans in
      match proto_get blank_plan byId targetPlanId with
      | None => (s, inr (UnknownPlan targetPlanId))
      | Some targetPlan =>
          match productUpgradeFromProductConfig targetPlan useFirestoreProductConfigs with
          | None => (s, inr ServiceError)
          | Some u =>
              match u.(productSet) with
              | None => (s, inl NotEligible)
              | Some targetProductSet =>
                  let '(s, r) := fetch_all s uid in
                  (s, match r with
                      | None => inr ServiceError
                      | Some (stripe, play, apple) =>
                          match decide_eligibility useFirestoreProductConfigs targetPlan targetProductSet (mapSubscriptions byId stripe)
                                  (mapSubscriptions byId apple ++ mapSubscriptions byId play)%list with
                          | Some e => inl e
                          | None => inr ServiceError
                          end
                      end)
              end
          end
      end
  end.
End Service.
