(* ===== verification/CapabilityLaws.v ===== *)
(** * What capabilities a subscription gives

    The capability service of Capabilities against its declarative reading:
    who is granted what, which changes are announced, what a client is shown,
    and who may take a plan. *)

From S2P Require Import Prelude Text Sorting Firestore PlayPurchases AppStorePurchases Plans Capabilities.
From S2P Require Scopes.

#[local] Open Scope string_scope.
#[local] Open Scope Z_scope.

(** ** Capability maps *)

(** Client [k] has capability [c]. *)
Definition has (m : ClientIdCapabilityMap) (k c : string) : Prop := exists l, obj_get m k = Some l /\ c ∈ l.

(** A loop that may throw, and a property of its result built up element by
    element. *)
Lemma foldM_rel {A B} (P : B -> Prop) (R : A -> Prop) (step : B -> A -> option B) l b b' :
  (forall x b b', x ∈ l -> step b x = Some b' -> (P b' <-> P b \/ R x)) ->
  foldM step l b = Some b' -> P b' <-> P b \/ exists x, x ∈ l /\ R x.
Proof.
  revert b. induction l as [|x l IH]; intros b Hstep; cbn.
  - intros [= <-]. set_solver.
  - destruct (step b x) as [b1|] eqn:E; cbn; [|done]. intros Hl. rewrite (IH b1); [|set_solver|done].
    rewrite (Hstep x b b1); [|set_solver|done]. set_solver.
Qed.

Lemma foldM_inv {A B} (P : B -> Prop) (step : B -> A -> option B) l b b' :
  (forall x b b', step b x = Some b' -> P b -> P b') -> foldM step l b = Some b' -> P b -> P b'.
Proof.
  intros Hstep. revert b. induction l as [|x l IH]; intros b; cbn; [by intros [= <-]|].
  destruct (step b x) as [b1|] eqn:E; cbn; [|done]. eauto.
Qed.

Lemma add_capabilities_has m k caps m' k' c :
  add_capabilities m k caps = Some m' -> has m' k' c <-> has m k' c \/ k' = k /\ c ∈ caps.
Proof.
  unfold add_capabilities, has. destruct (obj_get m k) as [l|] eqn:E.
  - intros [= <-]. rewrite obj_get_set. destruct (String.eqb_spec k k') as [<-|Hne].
    + rewrite E. split; [intros (? & [= <-] & Hc)|intros [(? & [= <-] & Hc)|[_ Hc]]].
      * apply elem_of_set_fold in Hc. naive_solver.
      * eexists. split; [done|]. apply elem_of_set_fold. by left.
      * eexists. split; [done|]. apply elem_of_set_fold. by right.
    + naive_solver.
  - destruct (is_proto_name k); [done|]. intros [= <-]. rewrite obj_get_set. destruct (String.eqb_spec k k') as [<-|Hne].
    + rewrite E. pose proof (elem_of_set_of caps c). naive_solver.
    + naive_solver.
Qed.

(** The capabilities of a map that come from its keys. *)
Lemma allCapabilities_has m c : NoDup m.*1 -> c ∈ allCapabilities m <-> exists k, has m k c.
Proof.
  intros Hm. unfold allCapabilities, values, has. rewrite elem_of_set_of, list_elem_of_join. split.
  - intros (l & Hc & Hl). apply list_elem_of_fmap in Hl as ([k l'] & -> & Hl). exists k, l'. split; [|done]. by apply obj_get_unique.
  - intros (k & l & Hl & Hc). exists l. split; [done|]. apply list_elem_of_fmap. exists (k, l). split; [done|]. by apply obj_get_elem.
Qed.

Lemma add_capabilities_nodup m k caps m' : add_capabilities m k caps = Some m' -> NoDup m.*1 -> NoDup m'.*1.
Proof.
  unfold add_capabilities. destruct (obj_get m k); [|destruct (is_proto_name k); [done|]]; intros [= <-]; by apply obj_set_keys_nodup.
Qed.

(** ** Who is granted what *)

(** A metadata object grants client [k] the capability [c]: it names it in the
    comma separated list under [capabilities:k], or under [capabilities], which
    is for every client. *)
Definition metadata_grants (md : metadata) (k c : string) : Prop :=
  exists key, key ∈ md.*1 /\ startsWith "capabilities" key = true /\ capability_client key = Some k /\
    c ∈ commaSeparatedListToArray (default "" (obj_get md key)).

Definition price_grants (p : AbbrevPlan) (k c : string) : Prop :=
  exists md, (p.(plan_metadata) = Some md \/ p.(product_metadata) = Some md) /\ metadata_grants md k c.

(** A configured plan grants what it lists for the client; only when it has no
    list for the client, what its product lists. *)
Definition config_grants (mg : Manager) (plan : PlanConfig) (k c : string) : Prop :=
  exists product, proto_get blank_product mg.(products) plan.(pl_productConfigId) = Some product /\
    exists l, match obj_get (default [] plan.(pl_capabilities)) k with
              | Some l => Some l
              | None => obj_get (default [] product.(pd_capabilities)) k
              end = Some l /\ c ∈ l.

(** The prices grant client [k] the capability [c]. *)
Definition granted (plans : list AbbrevPlan) (manager : option Manager) (prices : list string) (k c : string) : Prop :=
  (exists p, p ∈ plans /\ p.(plan_id) ∈ prices /\ price_grants p k c) \/
  (exists mg plan, manager = Some mg /\ plan ∈ allPlanConfigs mg /\ default "" plan.(pl_stripePriceId) ∈ prices /\ config_grants mg plan k c).

(** The lists of the configurations are objects: a client occurs once. *)
Definition config_objects (mg : Manager) : Prop :=
  (forall p, p ∈ values mg.(products) -> NoDup (default [] p.(pd_capabilities)).*1) /\
  (forall p, p ∈ allPlanConfigs mg -> NoDup (default [] p.(pl_capabilities)).*1).

Lemma add_metadata_key_has md m key m' k c :
  add_metadata_key md m key = Some m' ->
  has m' k c <-> has m k c \/ capability_client key = Some k /\ c ∈ commaSeparatedListToArray (default "" (obj_get md key)).
Proof.
  unfold add_metadata_key. destruct (capability_client key) as [k0|]; cbn; [|done].
  destruct (commaSeparatedListToArray _) as [|c0 caps] eqn:E; [intros [= <-]; set_solver|].
  intros Hm. rewrite (add_capabilities_has _ _ _ _ k c Hm). naive_solver.
Qed.

Lemma add_metadata_has m md m' k c :
  add_metadata m md = Some m' -> has m' k c <-> has m k c \/ exists md', md = Some md' /\ metadata_grants md' k c.
Proof.
  unfold add_metadata. destruct md as [md|]; [|intros [= <-]; naive_solver]. intros Hm.
  rewrite (foldM_rel (fun m => has m k c) (fun key => capability_client key = Some k /\
    c ∈ commaSeparatedListToArray (default "" (obj_get md key))) _ _ _ _ (fun x b b' _ => add_metadata_key_has md b x b' k c) Hm).
  unfold metadata_grants. setoid_rewrite elem_of_filterb. naive_solver.
Qed.

Lemma add_price_has sub m p m' k c :
  add_price sub m p = Some m' -> has m' k c <-> has m k c \/ p.(plan_id) ∈ sub /\ price_grants p k c.
Proof.
  unfold add_price. case_bool_decide as Hp; [|intros [= <-]; tauto]. intros Hm.
  rewrite (foldM_rel (fun m => has m k c) (fun md => exists md', md = Some md' /\ metadata_grants md' k c) _ _ _ _
    (fun x b b' _ => add_metadata_has b x b' k c) Hm).
  unfold price_grants. split.
  - intros [?|(md & Hin & md' & -> & Hg)]; [by left|]. right. split; [done|]. exists md'. split; [|done].
    apply elem_of_cons in Hin as [?|Hin]; [by left|]. apply list_elem_of_singleton in Hin. by right.
  - intros [?|(_ & md & Hin & Hg)]; [by left|]. right. exists (Some md). split; [|eauto].
    rewrite elem_of_cons, list_elem_of_singleton. destruct Hin; auto.
Qed.

Lemma merged_capabilities (plan : PlanConfig) (product : ProductConfig) k :
  NoDup (default [] plan.(pl_capabilities)).*1 -> NoDup (default [] product.(pd_capabilities)).*1 ->
  obj_get (default [] (mergeConfigs plan product).(pl_capabilities)) k =
  match obj_get (default [] plan.(pl_capabilities)) k with
  | Some l => Some l
  | None => obj_get (default [] product.(pd_capabilities)) k
  end.
Proof.
  intros H1 H2. cbn. rewrite obj_get_assign by done. destruct (obj_get _ k); [done|]. rewrite obj_get_assign by done.
  by destruct (obj_get _ k).
Qed.

Lemma assign_nodup {V} (a b : jsobj V) : NoDup a.*1 -> NoDup (assign a b).*1.
Proof.
  unfold assign. revert a. induction b as [|[k v] b IH]; intros a Ha; cbn; [done|]. apply IH. by apply obj_set_keys_nodup.
Qed.

Lemma proto_get_values {V} (blank : V) o k v : proto_get blank o k = Some v -> v ∈ values o \/ v = blank.
Proof.
  unfold proto_get, values. destruct (obj_get o k) as [w|] eqn:E.
  - intros [= <-]. left. apply list_elem_of_fmap. exists (k, w). split; [done|]. by apply obj_get_elem.
  - destruct (is_proto_name k); [|done]. intros [= <-]. by right.
Qed.

Lemma add_config_has mg sub m plan m' k c :
  config_objects mg -> plan ∈ allPlanConfigs mg -> add_config mg sub m plan = Some m' ->
  has m' k c <-> has m k c \/ default "" plan.(pl_stripePriceId) ∈ sub /\ config_grants mg plan k c.
Proof.
  intros [Hprod Hplan] Hin. unfold add_config. case_bool_decide as Hp; [|intros [= <-]; tauto].
  unfold getMergedConfig, config_grants. destruct (proto_get _ _ _) as [product|] eqn:E; cbn -[mergeConfigs]; [|done]. intros Hm.
  assert (NoDup (default [] (pd_capabilities product)).*1) as Hp1.
  { apply proto_get_values in E as [E| ->]; [auto|constructor]. }
  set (caps := default [] (mergeConfigs plan product).(pl_capabilities)) in *.
  assert (NoDup caps.*1) as Hn by (apply assign_nodup, assign_nodup; constructor).
  rewrite (foldM_rel (fun m => has m k c) (fun e => k = e.1 /\ c ∈ e.2) _ _ _ _
    (fun x b b' _ => add_capabilities_has b x.1 x.2 b' k c) Hm).
  apply or_iff_compat_l. split.
  - intros ([k' l] & Hl & -> & Hc). split; [done|]. exists product. split; [done|]. exists l. split; [|done]. cbn.
    rewrite <- merged_capabilities by auto. by apply obj_get_unique.
  - intros (_ & product' & [= <-] & l & Hl & Hc). exists (k, l). split; [|done]. apply obj_get_elem. by rewrite <- Hl, <- merged_capabilities by auto.
Qed.

(** What [priceIdsToClientCapabilities] computes is what the prices grant. *)
Lemma capabilities_granted plans manager sub m k c :
  (forall mg, manager = Some mg -> config_objects mg) ->
  priceIdsToClientCapabilities (Some plans) manager sub = Some m -> has m k c <-> granted plans manager sub k c.
Proof.
  intros Hmg. unfold priceIdsToClientCapabilities. cbn. destruct (foldM (add_price sub) plans []) as [m1|] eqn:E1; cbn; [|done].
  pose proof (foldM_rel (fun m => has m k c) (fun p => p.(plan_id) ∈ sub /\ price_grants p k c) _ _ _ _
    (fun x b b' _ => add_price_has sub b x b' k c) E1) as H1.
  assert (~ has [] k c) as Hnil by (by intros (? & ? & _)).
  unfold granted. destruct manager as [mg|].
  - intros E2. rewrite (foldM_rel (fun m => has m k c) (fun plan => default "" plan.(pl_stripePriceId) ∈ sub /\ config_grants mg plan k c)
      _ _ _ _ (fun x b b' Hx => add_config_has mg sub b x b' k c (Hmg mg eq_refl) Hx) E2), H1. naive_solver.
  - intros [= <-]. rewrite H1. naive_solver.
Qed.

Lemma foldM_total {A B} (step : B -> A -> option B) l b :
  (forall x b, x ∈ l -> is_Some (step b x)) -> is_Some (foldM step l b).
Proof.
  revert b. induction l as [|x l IH]; intros b Hstep; cbn; [eauto|].
  destruct (Hstep x b) as [b1 ->]; [set_solver|]. cbn. apply IH. set_solver.
Qed.

(** Metadata and configurations on which the computation does not throw. *)
Definition keys_ok (md : metadata) : Prop :=
  forall key, key ∈ md.*1 -> startsWith "capabilities" key = true ->
    exists k, capability_client key = Some k /\ is_proto_name k = false.

Definition plans_ok (plans : list AbbrevPlan) : Prop :=
  forall p md, p ∈ plans -> p.(plan_metadata) = Some md \/ p.(product_metadata) = Some md -> keys_ok md.

Definition manager_ok (mg : Manager) : Prop :=
  forall plan, plan ∈ allPlanConfigs mg -> exists merged, getMergedConfig mg plan = Some merged /\
    Forall (fun k => is_proto_name k = false) (default [] merged.(pl_capabilities)).*1.

Lemma add_capabilities_total m k caps : is_proto_name k = false -> is_Some (add_capabilities m k caps).
Proof. intros Hk. unfold add_capabilities. destruct (obj_get m k); [eauto|]. rewrite Hk. eauto. Qed.

Lemma capabilities_total plans manager sub :
  plans_ok plans -> (forall mg, manager = Some mg -> manager_ok mg) ->
  is_Some (priceIdsToClientCapabilities (Some plans) manager sub).
Proof.
  intros Hplans Hmg. unfold priceIdsToClientCapabilities. cbn. destruct (foldM_total (add_price sub) plans []) as [m ->].
  { intros p b Hp. unfold add_price. case_bool_decide; [|eauto]. apply foldM_total. intros md b' Hmd. unfold add_metadata.
    destruct md as [md|]; [|eauto]. apply foldM_total. intros key b'' [Hk Hs]%elem_of_filterb.
    destruct (Hplans p md Hp) with key as (k & E & Hproto); [|done|done|].
    { apply elem_of_cons in Hmd as [?|Hmd]; [by left|]. apply list_elem_of_singleton in Hmd. by right. }
    unfold add_metadata_key. rewrite E. cbn. destruct (commaSeparatedListToArray _); [eauto|]. by apply add_capabilities_total. }
  cbn. destruct manager as [mg|]; [|eauto]. apply foldM_total. intros plan b Hp. unfold add_config. case_bool_decide; [|eauto].
  destruct (Hmg mg eq_refl plan Hp) as (merged & -> & Hk). cbn. apply foldM_total. intros [k l] b' Hin.
  apply add_capabilities_total. rewrite Forall_forall in Hk. apply Hk. apply list_elem_of_fmap. by exists (k, l).
Qed.

Lemma capabilities_nodup prices manager sub m : priceIdsToClientCapabilities prices manager sub = Some m -> NoDup m.*1.
Proof.
  unfold priceIdsToClientCapabilities. destruct prices as [plans|]; cbn; [|done].
  assert (forall md b key b', add_metadata_key md b key = Some b' -> NoDup b.*1 -> NoDup b'.*1) as Hkey.
  { intros md b key b'. unfold add_metadata_key. destruct (capability_client key); cbn; [|done].
    destruct (commaSeparatedListToArray _); [by intros [= <-]|apply add_capabilities_nodup]. }
  destruct (foldM (add_price sub) plans []) as [m1|] eqn:E; cbn; [|done].
  eapply (foldM_inv (fun m => NoDup m.*1)) in E; [| |constructor].
  2: { intros p b b'. unfold add_price. case_bool_decide; [|by intros [= <-]]. apply (foldM_inv (fun m => NoDup m.*1)).
       intros md b1 b2. unfold add_metadata. destruct md as [md|]; [|by intros [= <-]]. apply (foldM_inv (fun m => NoDup m.*1)). eauto. }
  destruct manager as [mg|]; [|by intros [= <-]]. intros Hf. revert E. revert Hf. apply (foldM_inv (fun m => NoDup m.*1)).
  intros plan b b'. unfold add_config. case_bool_decide; [|by intros [= <-]]. destruct (getMergedConfig mg plan); cbn; [|done].
  apply (foldM_inv (fun m => NoDup m.*1)). intros [k l] b1 b2. apply add_capabilities_nodup.
Qed.

(** [C17] What each client is given for a list of prices is what the plans and
    their configurations grant: on plans whose metadata keys are well formed
    and configurations whose products exist the computation succeeds, and a
    client has a capability if and only if the metadata of one of the prices or
    of its product lists it for that client, or a configured plan for one of
    the prices does - there the plan's list for a client takes the place of the
    product's.  No client occurs twice. *)
Theorem client_capabilities_exact (plans : list AbbrevPlan) (manager : option Manager) (prices : list string) :
  plans_ok plans -> (forall mg, manager = Some mg -> manager_ok mg /\ config_objects mg) ->
  exists m, priceIdsToClientCapabilities (Some plans) manager prices = Some m /\ NoDup m.*1 /\
    (forall k c, has m k c <-> granted plans manager prices k c).
Proof.
  intros Hplans Hmg. destruct (capabilities_total plans manager prices Hplans (fun mg E => proj1 (Hmg mg E))) as [m Hm].
  exists m. split; [done|]. split; [by eapply capabilities_nodup|]. intros k c. eapply capabilities_granted; [|done]. intros mg E. by apply Hmg.
Qed.

(** ** Changes *)

(** The prices assumed before a change: the subscribed ones that are not
    affected, and the affected ones that are not subscribed. *)
Lemma changeset_spec current affected p :
  p ∈ createPriceIdChangeset current affected <-> p ∈ current /\ p ∉ affected \/ p ∈ affected /\ p ∉ current.
Proof.
  unfold createPriceIdChangeset.
  set (step := fun prior affected => if bool_decide (affected ∈ current) then Scopes.set_delete prior affected else prior).
  assert (forall l prior, p ∈ fold_left step l prior <-> p ∈ prior /\ ~ (p ∈ l /\ p ∈ current)) as ->.
  { induction l as [|a l IH]; intros prior; cbn [fold_left]; [set_solver|]. rewrite IH. unfold step.
    case_bool_decide; [rewrite Scopes.elem_of_set_delete|]; rewrite elem_of_cons; naive_solver. }
  rewrite elem_of_set_of, elem_of_app. destruct (decide (p ∈ current)), (decide (p ∈ affected)); tauto.
Qed.

Lemma elem_of_without l k c : c ∈ without l k <-> c ∈ l /\ c ∉ k.
Proof. unfold without. rewrite elem_of_filterb, negb_true_iff, bool_decide_eq_false. done. Qed.

(** The capabilities a list of prices gives to some client. *)
Definition gives (env : PayEnv) (plans : list AbbrevPlan) (prices : list string) (c : string) : Prop :=
  exists k, granted plans env.(pe_manager) prices k c.

Lemma NoDup_filterb {A} (p : A -> bool) l : NoDup l -> NoDup (filterb p l).
Proof.
  induction 1 as [|x l Hx _ IH]; cbn; [constructor|]. destruct (p x); [|done]. constructor; [|done].
  intros [? _]%elem_of_filterb. done.
Qed.

(** What [processPriceIdDiff] announces. *)
Lemma diff_spec {F} (env : PayEnv) (s : PayState F) uid prior current s' new removed plans :
  env.(pe_plans) = Some plans -> (forall mg, env.(pe_manager) = Some mg -> config_objects mg) ->
  processPriceIdDiff env s uid prior current = (s', Some (new, removed)) ->
  s' = announce s (broadcast env uid true new ++ broadcast env uid false removed)%list /\
  NoDup new /\ NoDup removed /\
  (forall c, c ∈ new <-> gives env plans current c /\ ~ gives env plans prior c) /\
  (forall c, c ∈ removed <-> gives env plans prior c /\ ~ gives env plans current c).
Proof.
  intros Hplans Hmg. unfold processPriceIdDiff, gives. rewrite Hplans.
  destruct (priceIdsToClientCapabilities _ _ prior) as [m1|] eqn:E1; [|done].
  destruct (priceIdsToClientCapabilities _ _ current) as [m2|] eqn:E2; [|done]. intros [= <- <- <-].
  assert (forall sub m, priceIdsToClientCapabilities (Some plans) (pe_manager env) sub = Some m ->
    forall c, c ∈ allCapabilities m <-> exists k, granted plans (pe_manager env) sub k c) as Hall.
  { intros sub m E c. rewrite allCapabilities_has by (by eapply capabilities_nodup). by setoid_rewrite capabilities_granted. }
  split; [done|]. split_and!.
  1,2: apply NoDup_filterb, NoDup_set_of.
  all: intros c; rewrite elem_of_without, (Hall _ _ E1), (Hall _ _ E2); done.
Qed.

(** The configurations and plans of an environment on which capabilities can
    be computed. *)
Definition env_ok (env : PayEnv) (plans : list AbbrevPlan) : Prop :=
  env.(pe_plans) = Some plans /\ plans_ok plans /\
  forall mg, env.(pe_manager) = Some mg -> manager_ok mg /\ config_objects mg.

Lemma refresh_spec {F} `{Firestore F} (env : PayEnv) (s : PayState F) uid affected plans s1 current :
  env_ok env plans -> env.(pe_profile_ok) = true -> subscribedPriceIds env s uid = (s1, Some current) ->
  exists prior new removed,
    refresh env s uid affected =
      (announce (announce s1 [ProfileCacheDeleted uid]) (broadcast env uid true new ++ broadcast env uid false removed)%list, inl tt) /\
    (forall p, p ∈ prior <-> p ∈ current /\ p ∉ affected \/ p ∈ affected /\ p ∉ current) /\
    NoDup new /\ NoDup removed /\
    (forall c, c ∈ new <-> gives env plans current c /\ ~ gives env plans prior c) /\
    (forall c, c ∈ removed <-> gives env plans prior c /\ ~ gives env plans current c).
Proof.
  intros (Hplans & Hok & Hmg) Hprofile Hsub. unfold refresh. rewrite Hsub, Hprofile.
  set (prior := createPriceIdChangeset current affected).
  destruct (processPriceIdDiff env (announce s1 [ProfileCacheDeleted uid]) uid prior current) as [s2 r] eqn:E.
  assert (is_Some r) as [[new removed] ->].
  { revert E. unfold processPriceIdDiff. rewrite Hplans.
    destruct (capabilities_total plans (pe_manager env) prior) as [m1 ->]; [done|by apply Hmg|].
    destruct (capabilities_total plans (pe_manager env) current) as [m2 ->]; [done|by apply Hmg|]. intros [= _ <-]. eauto. }
  destruct (diff_spec _ _ _ _ _ _ _ _ plans Hplans (fun mg E => proj2 (Hmg mg E)) E) as (-> & Hrest).
  exists prior, new, removed. split; [done|]. split; [intros p; apply changeset_spec|done].
Qed.

Lemma gives_mono env plans l k c : l ⊆ k -> gives env plans l c -> gives env plans k c.
Proof.
  intros Hl [key [(p & Hp & Hin & Hg)|(mg & plan & Hm & Hplan & Hin & Hg)]]; exists key; [left|right].
  - exists p. auto.
  - exists mg, plan. auto.
Qed.

(** The prices a user had before an event that concerns the prices [affected]
    alone. *)
Definition only_affected (affected before current : list string) : Prop := forall p, p ∉ affected -> p ∈ before <-> p ∈ current.

(** The prices of the event are all subscribed now, or none of them is. *)
Definition one_sided (affected current : list string) : Prop :=
  (forall p, p ∈ affected -> p ∈ current) \/ (forall p, p ∈ affected -> p ∉ current).

Lemma changes_covered env plans affected prior before current c :
  (forall p, p ∈ prior <-> p ∈ current /\ p ∉ affected \/ p ∈ affected /\ p ∉ current) ->
  one_sided affected current -> only_affected affected before current ->
  (gives env plans current c -> ~ gives env plans before c -> ~ gives env plans prior c) /\
  (gives env plans before c -> ~ gives env plans current c -> gives env plans prior c).
Proof.
  intros Hp Hside Hb. assert (forall p, p ∈ affected \/ p ∉ affected) as Hd by (intros p; destruct (decide (p ∈ affected)); auto).
  split; intros H1 H2.
  - destruct Hside as [Hs|Hs].
    + intros H3. apply H2. revert H3. apply gives_mono. intros p [[Hc Hn]|[Ha Hn]]%Hp; [by apply Hb|by apply Hs in Ha].
    + destruct H2. revert H1. apply gives_mono. intros p Hc. apply Hb; [|done]. intros Ha. by apply (Hs p).
  - destruct Hside as [Hs|Hs].
    + destruct H2. revert H1. apply gives_mono. intros p Hc. destruct (Hd p) as [Ha|Hn]; [by apply Hs|by apply Hb].
    + revert H1. apply gives_mono. intros p Hc. apply Hp. destruct (Hd p) as [Ha|Hn]; [right; auto|left]. split; [by apply Hb|done].
Qed.

(** [C18] What is announced when Stripe reports a change of the prices
    [affected] of a user's subscription: the profile cache of the user is
    dropped, the capabilities that the user's prices give now and that the
    prior prices do not give are announced as active, those that the prior
    prices give and that are not given now as inactive, each list without
    repetition and not at all when empty.  The prior prices are a guess, not
    what the user really had: the subscribed prices that are not affected and
    the affected ones that are no longer subscribed; a capability may so be
    announced that the user had all along.  No change is missed: whatever the
    prices were before, as far as the others than the affected ones are as
    they were and the affected ones are all subscribed now or all not, every
    capability that the user won is announced as active, and every one that
    the user lost as inactive. *)
Theorem capability_changes_announced {F} `{Firestore F} (env : PayEnv) (s : PayState F) uid affected found plans s1 current :
  env_ok env plans -> env.(pe_profile_ok) = true -> str_truthy uid = true -> affected <> [] ->
  subscribedPriceIds env s uid = (s1, Some current) ->
  exists prior new removed,
    stripeUpdate env s true affected (Some uid) found =
      (announce (announce s1 [ProfileCacheDeleted uid]) (broadcast env uid true new ++ broadcast env uid false removed)%list, inl tt) /\
    (forall p, p ∈ prior <-> p ∈ current /\ p ∉ affected \/ p ∈ affected /\ p ∉ current) /\
    NoDup new /\ NoDup removed /\
    (forall c, c ∈ new <-> gives env plans current c /\ ~ gives env plans prior c) /\
    (forall c, c ∈ removed <-> gives env plans prior c /\ ~ gives env plans current c) /\
    (one_sided affected current -> forall before c, only_affected affected before current ->
       (gives env plans current c -> ~ gives env plans before c -> c ∈ new) /\
       (gives env plans before c -> ~ gives env plans current c -> c ∈ removed)).
Proof.
  intros Henv Hprofile Huid Hne Hsub. unfold stripeUpdate. cbn -[refresh]. rewrite Huid. cbn -[refresh]. rewrite Huid. destruct affected as [|a affected]; [done|].
  destruct (refresh_spec env s uid (a :: affected) plans s1 current Henv Hprofile Hsub) as (prior & new & removed & E & Hp & H1 & H2 & Hnew & Hrem).
  exists prior, new, removed. split_and!; try done. intros Hside before c Hb. rewrite Hnew, Hrem.
  destruct (changes_covered env plans (a :: affected) prior before current c Hp Hside Hb). auto.
Qed.

(** ** What a client is shown *)

Lemma revealed_has m key l : revealed m key = Some l -> forall c, c ∈ l <-> has m key c.
Proof.
  unfold revealed, has. destruct (obj_get m key) as [l'|]; [intros [= <-]; naive_solver|].
  destruct (is_proto_name key); [done|]. intros [= <-]. set_solver.
Qed.

Lemma sorted_strings l : StronglySorted (cmp_le compare_strings) (js_sort compare_strings l).
Proof. destruct (consistent_le _ compare_strings_consistent). by apply js_sort_sorted. Qed.

(** The client of a request, in the map or for every client; without a client
    everything is shown. *)
Definition shown_to (clientIdRaw : option string) (m : ClientIdCapabilityMap) (c : string) : Prop :=
  match clientIdRaw with
  | None => exists k, has m k c
  | Some raw => has m ALL_RPS_CAPABILITIES_KEY c \/ has m (toLowerCase raw) c
  end.

(** What a relying party sees of a user's capabilities: those of every
    client and those of its own client id (all of them for a request without a
    client), each once, in the order of strings; [undefined] exactly when there
    are none.  The computation does not throw as long as the client id is not
    the name of an inherited property, which no hexadecimal id is. *)
Theorem visible_capabilities_exact (clientIdRaw : option string) (m : ClientIdCapabilityMap) :
  NoDup m.*1 -> (forall raw, clientIdRaw = Some raw -> is_proto_name (toLowerCase raw) = false) ->
  exists shown, determineClientVisibleSubscriptionCapabilities clientIdRaw (Some m) = Some shown /\
    match shown with
    | Some l => l <> [] /\ NoDup l /\ StronglySorted (cmp_le compare_strings) l /\ forall c, c ∈ l <-> shown_to clientIdRaw m c
    | None => forall c, ~ shown_to clientIdRaw m c
    end.
Proof.
  intros Hm Hraw. unfold determineClientVisibleSubscriptionCapabilities.
  assert (exists toReveal, (match clientIdRaw with
      | None => Some (set_of (fold_left (fun acc curr => curr ++ acc)%list (values m) []))
      | Some raw => everyone ← revealed m ALL_RPS_CAPABILITIES_KEY; own ← revealed m (toLowerCase raw); Some (set_of (everyone ++ own)%list)
      end) = Some toReveal /\ NoDup toReveal /\ forall c, c ∈ toReveal <-> shown_to clientIdRaw m c) as (l & -> & Hn & Hl).
  { destruct clientIdRaw as [raw|].
    - assert (forall key, is_proto_name key = false -> exists l, revealed m key = Some l) as Hrev.
      { intros key Hk. unfold revealed. destruct (obj_get m key); [eauto|]. rewrite Hk. eauto. }
      destruct (Hrev ALL_RPS_CAPABILITIES_KEY eq_refl) as [l1 E1], (Hrev (toLowerCase raw) (Hraw raw eq_refl)) as [l2 E2].
      exists (set_of (l1 ++ l2)%list). rewrite E1, E2. split; [done|]. split; [apply NoDup_set_of|].
      intros c. rewrite elem_of_set_of, elem_of_app, (revealed_has _ _ _ E1), (revealed_has _ _ _ E2). done.
    - eexists. split; [done|]. split; [apply NoDup_set_of|]. intros c. cbn. rewrite <- allCapabilities_has by done.
      unfold allCapabilities. rewrite !elem_of_set_of.
      assert (forall vs acc, c ∈ fold_left (fun acc curr => curr ++ acc)%list vs acc <-> c ∈ acc \/ c ∈ mjoin vs) as ->; [|set_solver].
      induction vs as [|v vs IH]; intros acc; cbn [fold_left mjoin]; [set_solver|]. rewrite IH. cbn. rewrite !elem_of_app. tauto. }
  eexists. split; [done|]. destruct l as [|c0 l0] eqn:E; [intros c; rewrite <- Hl; set_solver|]. rewrite <- E in *. split_and!.
  - intros Hnil. pose proof (js_sort_perm compare_strings l) as Hp. rewrite Hnil in Hp. apply Permutation_nil_l in Hp. congruence.
  - rewrite js_sort_perm. by subst.
  - apply sorted_strings.
  - intros c. rewrite js_sort_perm. subst. apply Hl.
Qed.

(** ** Eligibility *)

(** The plan is for one of the products, by its metadata. *)
Definition for_product (target : list string) (p : AbbrevPlan) : Prop :=
  exists set, (metadataFromPlan p).(productSet) = Some set /\ exists name, name ∈ set /\ name ∈ target.

Lemma shares_name_spec a b : shares_name a b = true <-> exists name, name ∈ a /\ name ∈ b.
Proof.
  unfold shares_name. rewrite existsb_exists. split; intros (x & Hx & Hb).
  - exists x. rewrite list_elem_of_In. by rewrite bool_decide_eq_true in Hb.
  - exists x. rewrite <- list_elem_of_In. by rewrite bool_decide_eq_true.
Qed.

Lemma someSharing_spec target ps :
  exists b, someSharing false target ps = Some b /\ (b = true <-> exists p, p ∈ ps /\ for_product target p).
Proof.
  induction ps as [|p ps (b & IH & Hb)]; cbn [someSharing productUpgradeFromProductConfig mbind option_bind];
    [exists false; split; [done|]; set_solver|].
  assert (match (metadataFromPlan p).(productSet) with Some set => shares_name set target | None => false end = true <-> for_product target p) as Hp.
  { unfold for_product. destruct (productSet _) as [set|]; [rewrite shares_name_spec; naive_solver|naive_solver]. }
  destruct (match productSet (metadataFromPlan p) with Some set => shares_name set target | None => false end).
  - exists true. split; [done|]. split; [|done]. intros _. exists p. split; [by left|]. by apply Hp.
  - exists b. split; [done|]. rewrite Hb. split; intros (q & Hq & Hs); exists q; split; [set_solver|done| |done].
    apply elem_of_cons in Hq as [->|?]; [|done]. apply Hp in Hs. done.
Qed.

(** The order of a plan is a number other than 0. *)
Definition ordered (p : AbbrevPlan) (o : Z) : Prop := order_of (metadataFromPlan p) = Some o /\ o <> 0.

(** A subscribed plan may be changed for the target: they are different plans
    for a common product, and both have an order, not the same one. *)
Definition changeable (p target : AbbrevPlan) (o o' : Z) : Prop :=
  p.(plan_id) <> target.(plan_id) /\
  (exists set, (metadataFromPlan target).(productSet) = Some set /\ for_product set p) /\
  ordered p o /\ ordered target o' /\ o <> o'.

Lemma update_eligibility_spec p target :
  exists e, getSubscriptionUpdateEligibility p target false = Some e /\
    match e with
    | Upgrade => exists o o', changeable p target o o' /\ o < o'
    | Downgrade => exists o o', changeable p target o o' /\ o' < o
    | Invalid => forall o o', ~ changeable p target o o'
    end.
Proof.
  unfold getSubscriptionUpdateEligibility, changeable, for_product, ordered. cbn -[metadataFromPlan order_of]. eexists. split; [done|].
  destruct (productSet (metadataFromPlan p)) as [s1|] eqn:E1; [|naive_solver].
  destruct (productSet (metadataFromPlan target)) as [s2|] eqn:E2; [|naive_solver].
  destruct (order_of (metadataFromPlan p)) as [o|] eqn:E3; [|naive_solver].
  destruct (order_of (metadataFromPlan target)) as [o'|] eqn:E4; [|naive_solver].
  destruct (String.eqb_spec (plan_id p) (plan_id target)); cbn [orb]; [naive_solver|].
  case_bool_decide as Hs1; cbn [orb].
  { intros ? ? (_ & (set & _ & set' & [= <-] & name & H1 & _) & _). subst. by apply elem_of_nil in H1. }
  case_bool_decide as Hs2; cbn [orb].
  { intros ? ? (_ & (set & [= <-] & set' & _ & name & _ & H2) & _). subst. by apply elem_of_nil in H2. }
  destruct (shares_name s2 s1) eqn:E5; cbn [negb orb].
  2: { intros ? ? (_ & (set & [= <-] & set' & [= <-] & name & H1 & H2) & _).
       assert (shares_name s2 s1 = true) by (apply shares_name_spec; eauto). congruence. }
  apply shares_name_spec in E5 as (name & Hn2 & Hn1).
  destruct (Z.eqb_spec o 0); cbn [orb]; [naive_solver|]. destruct (Z.eqb_spec o' 0); cbn [orb]; [naive_solver|].
  destruct (Z.eqb_spec o' o); cbn [orb]; [naive_solver|].
  assert (plan_id p <> plan_id target /\ (exists set, Some s2 = Some set /\ exists set0, Some s1 = Some set0 /\ exists name, name ∈ set0 /\ name ∈ set) /\
    (Some o = Some o /\ o <> 0) /\ (Some o' = Some o' /\ o' <> 0) /\ o <> o') as Hch by (split_and!; eauto 10).
  destruct (Z.ltb_spec o' o); exists o, o'; (split; [done|lia]).
Qed.

(** [C19] Whether a user may take a plan, from the metadata of plans: a plan for
    a product the user has an in-app subscription for is blocked; otherwise a
    plan for a product without a Stripe subscription may be created; otherwise
    the first of the user's Stripe plans that may be changed for it decides -
    an upgrade when the order grows, a downgrade when it shrinks - and without
    one the plan may not be taken.  The decision is always reached. *)
Theorem plan_eligibility_exact (target : AbbrevPlan) (targetSet : list string) (stripePlans iapPlans : list AbbrevPlan) :
  exists e, decide_eligibility false target targetSet stripePlans iapPlans = Some e /\
    match e with
    | BlockedIap => exists p, p ∈ iapPlans /\ for_product targetSet p
    | Create => (forall p, p ∈ iapPlans -> ~ for_product targetSet p) /\ (forall p, p ∈ stripePlans -> ~ for_product targetSet p)
    | _ =>
        (forall p, p ∈ iapPlans -> ~ for_product targetSet p) /\ (exists p, p ∈ stripePlans /\ for_product targetSet p) /\
        match e with
        | UpgradeTo => exists before p after o o', stripePlans = (before ++ p :: after)%list /\
            (forall q o o', q ∈ before -> ~ changeable q target o o') /\ changeable p target o o' /\ o < o'
        | DowngradeTo => exists before p after o o', stripePlans = (before ++ p :: after)%list /\
            (forall q o o', q ∈ before -> ~ changeable q target o o') /\ changeable p target o o' /\ o' < o
        | _ => forall p o o', p ∈ stripePlans -> ~ changeable p target o o'
        end
    end.
Proof.
  unfold decide_eligibility. destruct (someSharing_spec targetSet iapPlans) as (b1 & -> & H1). cbn [mbind option_bind].
  destruct b1; [exists BlockedIap; split; [done|]; by apply H1|].
  assert (forall p, p ∈ iapPlans -> ~ for_product targetSet p) as Hiap.
  { intros p Hp Hf. assert (false = true) by (apply H1; eauto). done. }
  destruct (someSharing_spec targetSet stripePlans) as (b2 & -> & H2). cbn [mbind option_bind].
  destruct b2; cbn [negb].
  2: { exists Create. split; [done|]. split; [done|]. intros p Hp Hf. assert (false = true) by (apply H2; eauto). done. }
  assert (exists p, p ∈ stripePlans /\ for_product targetSet p) as Hstripe by (by apply H2). clear H1 H2.
  assert (exists e, firstChange false target stripePlans = Some e /\ match e with
    | UpgradeTo => exists before p after o o', stripePlans = (before ++ p :: after)%list /\
        (forall q o o', q ∈ before -> ~ changeable q target o o') /\ changeable p target o o' /\ o < o'
    | DowngradeTo => exists before p after o o', stripePlans = (before ++ p :: after)%list /\
        (forall q o o', q ∈ before -> ~ changeable q target o o') /\ changeable p target o o' /\ o' < o
    | NotEligible => forall p o o', p ∈ stripePlans -> ~ changeable p target o o'
    | _ => False end) as (e & -> & He).
  2: { exists e. split; [done|]. by destruct e. }
  clear. induction stripePlans as [|p ps IH]; cbn [firstChange]; [exists NotEligible; split; [done|]; set_solver|].
  destruct (update_eligibility_spec p target) as (u & -> & Hu). cbn [mbind option_bind]. destruct u.
  - destruct Hu as (o & o' & Hc & Ho). exists UpgradeTo. split; [done|]. exists [], p, ps, o, o'. split_and!; [done|set_solver|done|done].
  - destruct Hu as (o & o' & Hc & Ho). exists DowngradeTo. split; [done|]. exists [], p, ps, o, o'. split_and!; [done|set_solver|done|done].
  - destruct IH as (e & -> & He). exists e. split; [done|]. destruct e; [done| | |done|].
    + destruct He as (before & q & after & o & o' & -> & Hb & Hq & Ho). exists (p :: before), q, after, o, o'. split; [done|].
      split; [|done]. intros r x y [->|Hr]%elem_of_cons; [apply Hu|by apply Hb].
    + destruct He as (before & q & after & o & o' & -> & Hb & Hq & Ho). exists (p :: before), q, after, o, o'. split; [done|].
      split; [|done]. intros r x y [->|Hr]%elem_of_cons; [apply Hu|by apply Hb].
    + intros r x y [->|Hr]%elem_of_cons; [apply Hu|by apply He].
Qed.

(** ** Identifiers of in-app purchases *)

Lemma mapM_lowered (key : string) purchases ids :
  mapM (fun purchase => match obj_get purchase key with Some (FStr s) => Some (toLowerCase s) | _ => None end) purchases = Some ids ->
  Forall (fun i => toLowerCase i = i) ids.
Proof.
  intros Hm. apply mapM_Some_1 in Hm. induction Hm as [|p i ps l Hp _ IH]; [constructor|]. constructor; [|done].
  destruct (obj_get p key) as [[]|]; try done. injection Hp as <-. apply lower_idem.
Qed.

(** The identifiers of a purchase are compared in lower case, those of a plan's
    configuration as they are written: a configured identifier with a capital
    letter stands for no purchase. *)
Theorem configured_capitals_unmatched (p : AbbrevPlan) (c : PlanConfig) (purchases : list doc) :
  p.(configuration) = Some c -> p.(plan_metadata) = None ->
  Forall (fun i => toLowerCase i <> i) (default [] c.(pl_playSkuIds)) ->
  Forall (fun i => toLowerCase i <> i) (default [] c.(pl_appStoreProductIds)) ->
  forall ids, iapPurchasesToPriceIds (Some [p]) purchases = Some ids -> ids = [].
Proof.
  intros Hc Hmd Hplay Happle ids. unfold iapPurchasesToPriceIds. cbn [mbind option_bind].
  destruct (head purchases) as [first|]; [|done]. cbn [mbind option_bind]. destruct (getIapPurchaseType first) as [t|]; [|done].
  cbn [mbind option_bind]. destruct (mapM _ purchases) as [purchased|] eqn:Hm; [|done]. cbn [mbind option_bind].
  apply mapM_lowered in Hm. intros [= <-]. cbn [filterb].
  destruct (shares_name (determineIapIdentifiers t p) purchased) eqn:E; [|done]. exfalso.
  apply shares_name_spec in E as (name & Hn & Hp). rewrite Forall_forall in Hm. apply Hm in Hp.
  unfold determineIapIdentifiers in Hn. rewrite Hc, Hmd in Hn. apply elem_of_set_of, elem_of_app in Hn as [Hn|Hn].
  - rewrite Forall_forall in Hplay, Happle. destruct t; cbn in Hn; [by apply (Hplay name)|by apply (Happle name)].
  - destruct t; by apply elem_of_nil in Hn.
Qed.

(** ** Examples *)

Definition some_plans : list AbbrevPlan :=
  [mkAbbrev "price_1" (Some [("capabilities:abc", " sync, vpn ")]) "prod_1" (Some [("capabilities", "relay"); ("productSet", "vpn"); ("productOrder", "1")]) None;
   mkAbbrev "price_2" (Some [("capabilities:abc", "sync")]) "prod_1" (Some [("productSet", "vpn"); ("productOrder", "2")]) None].

Definition some_manager : Manager := mkManager
  [("doc_1", mkProductConfig "doc_1" (Some [("abc", ["mail"]); ("def", ["mail"])]) None None None)]
  [("doc_2", mkPlanConfig "doc_2" "doc_1" (Some [("abc", ["files"])]) (Some "price_2") None None None None None)].

Definition some_env : PayEnv :=
  mkPayEnv None None (Some some_plans) (Some some_manager)
    (fun uid => Some (if String.eqb uid "alice" then Some [mkSubscription "active" ["price_2"]; mkSubscription "canceled" ["price_1"]] else None))
    true 5000.

Definition some_pay : PayState Collection := mkPay (mkCollection ∅) (mkCollection ∅) [].

Lemma some_plans_ok : plans_ok some_plans.
Proof.
  intros p md Hp Hmd key Hk Hs.
  assert (Forall (fun p => Forall (fun md => Forall (fun key => startsWith "capabilities" key = true ->
      exists k, capability_client key = Some k /\ is_proto_name k = false) md.*1)
    (omap id [p.(plan_metadata); p.(product_metadata)])) some_plans) as Hall.
  { repeat constructor; intros ?; first [done | eexists; split; [vm_compute; reflexivity|vm_compute; reflexivity]]. }
  rewrite Forall_forall in Hall. specialize (Hall p Hp). rewrite Forall_forall in Hall.
  assert (md ∈ omap id [p.(plan_metadata); p.(product_metadata)]) as Hin.
  { apply list_elem_of_omap. exists (Some md). split; [|done]. rewrite elem_of_cons, list_elem_of_singleton. destruct Hmd; auto. }
  specialize (Hall md Hin). rewrite Forall_forall in Hall. by apply Hall.
Qed.

Lemma some_manager_ok : manager_ok some_manager /\ config_objects some_manager.
Proof.
  split; [|split].
  - intros plan ->%list_elem_of_singleton. eexists. split; [vm_compute; reflexivity|]. repeat constructor.
  - intros p ->%list_elem_of_singleton. apply (bool_decide_unpack _). by vm_compute.
  - intros p ->%list_elem_of_singleton. apply (bool_decide_unpack _). by vm_compute.
Qed.

Lemma client_capabilities_exact_witness :
  exists m, priceIdsToClientCapabilities (Some some_plans) (Some some_manager) ["price_2"] = Some m /\ NoDup m.*1 /\
    (forall k c, has m k c <-> granted some_plans (Some some_manager) ["price_2"] k c).
Proof.
  apply (client_capabilities_exact some_plans (Some some_manager) ["price_2"]); [apply some_plans_ok|].
  intros mg [= <-]. apply some_manager_ok.
Defined.

Lemma capability_changes_announced_witness :
  exists prior new removed,
    stripeUpdate some_env some_pay true ["price_1"] (Some "alice") None =
      (announce (announce some_pay [ProfileCacheDeleted "alice"])
         (broadcast some_env "alice" true new ++ broadcast some_env "alice" false removed)%list, inl tt) /\
    (forall p, p ∈ prior <-> p ∈ ["price_2"] /\ p ∉ ["price_1"] \/ p ∈ ["price_1"] /\ p ∉ ["price_2"]) /\
    (forall c, c ∈ new <-> gives some_env some_plans ["price_2"] c /\ ~ gives some_env some_plans prior c) /\
    (forall c, gives some_env some_plans ["price_1"; "price_2"] c -> ~ gives some_env some_plans ["price_2"] c -> c ∈ removed).
Proof.
  destruct (capability_changes_announced some_env some_pay "alice" ["price_1"] None some_plans some_pay ["price_2"])
    as (prior & new & removed & E & Hp & _ & _ & Hnew & _ & Hreal); [|done|done|done|by vm_compute|].
  - split; [done|]. split; [apply some_plans_ok|]. intros mg [= <-]. apply some_manager_ok.
  - exists prior, new, removed. split_and!; [exact E|exact Hp|exact Hnew|]. intros c. apply Hreal.
    + right. intros p ->%list_elem_of_singleton. rewrite list_elem_of_singleton. discriminate.
    + intros p Hn. rewrite elem_of_cons. rewrite list_elem_of_singleton in Hn. tauto.
Defined.

Lemma visible_capabilities_exact_witness :
  exists shown, determineClientVisibleSubscriptionCapabilities (Some "ABC") (Some [("abc", ["vpn"; "sync"]); ("*", ["relay"])]) = Some shown /\
    match shown with
    | Some l => l <> [] /\ NoDup l /\ StronglySorted (cmp_le compare_strings) l /\
        forall c, c ∈ l <-> shown_to (Some "ABC") [("abc", ["vpn"; "sync"]); ("*", ["relay"])] c
    | None => forall c, ~ shown_to (Some "ABC") [("abc", ["vpn"; "sync"]); ("*", ["relay"])] c
    end.
Proof.
  apply (visible_capabilities_exact (Some "ABC") [("abc", ["vpn"; "sync"]); ("*", ["relay"])]).
  - apply (bool_decide_unpack _). by vm_compute.
  - by intros raw [= <-].
Defined.

(** The relay of every client and the two capabilities of the client, sorted. *)
Example shown_to_client :
  determineClientVisibleSubscriptionCapabilities (Some "ABC") (Some [("abc", ["vpn"; "sync"]); ("*", ["relay"])]) =
  Some (Some ["relay"; "sync"; "vpn"]).
Proof. reflexivity. Qed.

Lemma configured_capitals_unmatched_witness :
  iapPurchasesToPriceIds
    (Some [mkAbbrev "price_1" None "prod_1" None (Some (mkPlanConfig "" "" None (Some "price_1") None None (Some ["VpnMonthly"]) None None))])
    [[("purchaseToken", FStr "token"); ("sku", FStr "VpnMonthly")]] = Some [].
Proof.
  assert (forall ids, iapPurchasesToPriceIds
    (Some [mkAbbrev "price_1" None "prod_1" None (Some (mkPlanConfig "" "" None (Some "price_1") None None (Some ["VpnMonthly"]) None None))])
    [[("purchaseToken", FStr "token"); ("sku", FStr "VpnMonthly")]] = Some ids -> ids = []) as Hnone.
  { eapply configured_capitals_unmatched; [done|done| |by constructor]. by repeat constructor. }
  destruct (iapPurchasesToPriceIds _ _) as [ids|] eqn:E; [by rewrite (Hnone ids eq_refl)|by vm_compute in E].
Defined.
