(* ===== verification/PaymentRoutes.v ===== *)
(** * In-app purchase routes

    The routes of packages/fxa-auth-server/lib/routes/subscriptions: google.ts,
    play-pubsub.ts, apple.ts and the authorization helpers of utils.ts, with the
    application settings of lib/payments/iap/iap-config.ts and the lists of
    purchases of lib/payments/iap/{google-play,apple-app-store}/subscriptions.ts
    and iap-formatter.ts. *)

From S2P Require Import Prelude Text Firestore PlayPurchases AppStorePurchases Plans Capabilities.
From S2P Require Scopes ScopeValues.

#[local] Open Scope string_scope.
#[local] Open Scope Z_scope.

Definition OAUTH_SCOPE_SUBSCRIPTIONS : string := "https://identity.mozilla.com/account/subscriptions".
Definition OAUTH_SCOPE_SUBSCRIPTIONS_IAP : string := "https://identity.mozilla.com/account/subscriptions/iap".

(** The credentials of an OAuth token. *)
Record Credentials := mkCredentials { cr_scope : list string; cr_user : string }.

Inductive RouteErr :=
  | InvalidScopes | BadScope | UnknownAppName | IapInvalidToken | IapPurchaseConflict | IapInternalError
  | BackendServiceFailure | InvalidMessage | Unauthorized | Failed (e : PayErr) | IapFailed (e : IapError).

(** ** Authorization (utils.ts) *)

Section Auth.
Context (href_of : string -> option string).
Abbreviation imp := (ScopeValues.getImplicantValues href_of).

(** [scope.contains(requiredScope)]; [None] is the error of a scope that is not
    one. *)
Definition scope_contains (scope : Scopes.ScopeSet) (requiredScope : string) : option bool :=
  Scopes.contains scope <$> Scopes.fromArray imp [requiredScope].

Fixpoint all_scopes (scope : Scopes.ScopeSet) (scopes : list string) : option bool :=
  match scopes with
  | [] => Some true
  | requiredScope :: scopes =>
      b ← scope_contains scope requiredScope;
      if b : bool then all_scopes scope scopes else Some false
  end.

(** [scopes.some((requiredScope) => scope.contains(requiredScope))] *)
Fixpoint some_scope (scope : Scopes.ScopeSet) (scopes : list string) : option bool :=
  match scopes with
  | [] => Some false
  | requiredScope :: scopes =>
      b ← scope_contains scope requiredScope;
      if b : bool then Some true else some_scope scope scopes
  end.

(** The user of credentials whose scopes pass the test. *)
Definition authorized (auth : Credentials) (test : Scopes.ScopeSet -> option bool) : string + RouteErr :=
  match set ← Scopes.fromArray imp auth.(cr_scope); test set with
  | None => inr BadScope
  | Some false => inr InvalidScopes
  | Some true => inl auth.(cr_user)
  end.

Definition handleUidAuth (auth : Credentials) : string + RouteErr :=
  authorized auth (fun scope => scope_contains scope OAUTH_SCOPE_SUBSCRIPTIONS).

Definition handleAuthScoped (auth : Credentials) (scopes : list string) : string + RouteErr :=
  authorized auth (fun scope => all_scopes scope scopes).
End Auth.

(** ** Application settings (iap-config.ts) *)

Record IapConfig := mkIapConfig { ic_plans : option string; ic_packageName : option string; ic_bundleId : option string }.

(** The settings of an application: the read fails, there are none, or they
    are these. *)
Definition AppConfigs := string -> option (option IapConfig).

Definition app_field {A} (configs : AppConfigs) (field : IapConfig -> option A) (appName : string) : option A + RouteErr :=
  match configs appName with
  | None => inr (IapFailed Raw)
  | Some None => inr UnknownAppName
  | Some (Some c) => inl (field c)
  end.

Definition iapPlans (configs : AppConfigs) : string -> option string + RouteErr := app_field configs ic_plans.
Definition packageName (configs : AppConfigs) : string -> option string + RouteErr := app_field configs ic_packageName.
Definition getBundleId (configs : AppConfigs) : string -> option string + RouteErr := app_field configs ic_bundleId.

(** The name of an application that must have one. *)
Definition required_name (r : option string + RouteErr) : string + RouteErr :=
  match r with
  | inr e => inr e
  | inl (Some n) => if str_truthy n then inl n else inr UnknownAppName
  | inl None => inr UnknownAppName
  end.

(** ** Routes *)

Section Routes.
Context (href_of : string -> option string) (configs : AppConfigs).
Context {F : Type} `{Firestore F} (env : PayEnv).

Definition map_err {A} (r : A + PayErr) : A + RouteErr := match r with inl a => inl a | inr e => inr (Failed e) end.

(** [GoogleIapHandler.registerToken], with the Play Developer API of the
    request. *)
Definition play_error (e : IapError) : RouteErr :=
  match e with InvalidToken => IapInvalidToken | Conflict | OtherError => IapInternalError | _ => BackendServiceFailure end.

Definition registerToken (api : PlayApi) (s : PayState F) (auth : Credentials) (appName sku token : string) : PayState F * (unit + RouteErr) :=
  match handleAuthScoped href_of auth [OAUTH_SCOPE_SUBSCRIPTIONS_IAP] with
  | inr e => (s, inr e)
  | inl uid =>
      match required_name (packageName configs appName) with
      | inr e => (s, inr e)
      | inl pkg =>
          let '(f, r) := registerToUserAccount api env.(pe_now) s.(ps_play) pkg sku token uid in
          let s := on_play s f in
          match r with
          | inr e => (s, inr (play_error e))
          | inl purchase => let '(s, r) := iapUpdate env s uid purchase in (s, map_err r)
          end
      end
  end.

(** A developer notification after decoding; [None] is a message that does not
    parse. *)
Record DeveloperNotification := mkDevNotification {
  dn_test : bool; dn_packageName : string; dn_subscription : option SubscriptionNotification }.

(** A field of a purchase as an account id. *)
Definition account_of (purchase : doc) : string :=
  match obj_get purchase "userId" with Some (FStr u) => u | _ => "" end.

Definition iap_err {A} (e : IapError) : A + RouteErr := inr (IapFailed e).

(** [PlayPubsubHandler.rtdn] *)
Definition rtdn (api : PlayApi) (s : PayState F) (message : option DeveloperNotification) : PayState F * (unit + RouteErr) :=
  match message with
  | None => (s, inr InvalidMessage)
  | Some n =>
      if n.(dn_test) then (s, inl tt)
      else match n.(dn_subscription) with
           | None => (s, inl tt)
           | Some sub =>
               let '(f, got) := getPurchase s.(ps_play) sub.(sn_purchaseToken) in
               let s := on_play s f in
               match got with
               | inr e => (s, iap_err e)
               | inl None =>
                   let '(f, r) := processDeveloperNotification api env.(pe_now) s.(ps_play) n.(dn_packageName) (Some sub) in
                   (on_play s f, match r with inl _ => inl tt | inr e => iap_err e end)
               | inl (Some purchase) =>
                   if negb (fv_truthy (obj_get purchase "userId")) || fv_truthy (obj_get purchase "replacedByAnotherPurchase") then (s, inl tt)
                   else let uid := account_of purchase in
                        let '(f, r) := processDeveloperNotification api env.(pe_now) s.(ps_play) n.(dn_packageName) (Some sub) in
                        let s := on_play s f in
                        match r with
                        | inr e => (s, iap_err e)
                        | inl None => (s, inl tt)
                        | inl (Some updatedPurchase) => let '(s, r) := iapUpdate env s uid updatedPurchase in (s, map_err r)
                        end
               end
           end
  end.

(** [AppleIapHandler.registerOriginalTransactionId] *)
Definition app_store_error (e : IapError) : RouteErr :=
  match e with
  | InvalidOriginalTransactionId => IapInvalidToken
  | Conflict => IapPurchaseConflict
  | OtherError => IapInternalError
  | _ => BackendServiceFailure
  end.

Definition registerOriginalTransactionId (api : AppStore.AppStoreApi) (s : PayState F) (auth : Credentials)
    (appName originalTransactionId : string) : PayState F * (unit + RouteErr) :=
  match authorized href_of auth (fun scope => some_scope href_of scope [OAUTH_SCOPE_SUBSCRIPTIONS_IAP; "profile:subscriptions"]) with
  | inr e => (s, inr e)
  | inl uid =>
      match required_name (getBundleId configs appName) with
      | inr e => (s, inr e)
      | inl bundleId =>
          let '(f, r) := AppStore.registerToUserAccount api env.(pe_now) s.(ps_apple) bundleId originalTransactionId uid in
          let s := on_apple s f in
          match r with
          | inr e => (s, inr (app_store_error e))
          | inl purchase => let '(s, r) := iapUpdate env s uid purchase in (s, map_err r)
          end
      end
  end.

(** A decoded App Store notification, or the way its decoding failed. *)
Inductive SignedPayload :=
  | Decoded (bundleId originalTransactionId : string) (n : AppStore.Notification)
  | BadCertificate
  | Undecodable.

(** [AppleIapHandler.processNotification] *)
Definition appleNotification (api : AppStore.AppStoreApi) (s : PayState F) (payload : SignedPayload) : PayState F * (unit + RouteErr) :=
  match payload with
  | BadCertificate => (s, inr Unauthorized)
  | Undecodable => (s, inr InvalidMessage)
  | Decoded bundleId id n =>
      let '(f, got) := AppStore.getSubscriptionPurchase s.(ps_apple) id in
      let s := on_apple s f in
      match got with
      | inr e => (s, iap_err e)
      | inl None =>
          let '(f, r) := AppStore.processNotification api env.(pe_now) s.(ps_apple) bundleId id n in
          (on_apple s f, match r with inl _ => inl tt | inr e => iap_err e end)
      | inl (Some purchase) =>
          let '(f, r) := AppStore.processNotification api env.(pe_now) s.(ps_apple) bundleId id n in
          let s := on_apple s f in
          match r with
          | inr e => (s, iap_err e)
          | inl None => (s, inl tt)
          | inl (Some updatedPurchase) =>
              if fv_truthy (obj_get purchase "userId")
              then let '(s, r) := iapUpdate env s (account_of purchase) updatedPurchase in (s, map_err r)
              else (s, inl tt)
          end
      end
  end.

(** ** Lists of purchases *)

(** A purchase with its price. *)
Record Appended := mkAppended { ap_purchase : doc; ap_product_id : string; ap_price_id : string }.

(** [addPriceInfoToIapPurchases(purchases, iapType)]; [None] is a rejected
    promise. *)
Definition addPriceInfoToIapPurchases (purchases : list doc) (iapType : IapType) : option (list Appended) :=
  plans ← env.(pe_plans);
  let key := match iapType with IapGoogle => "sku" | IapApple => "productId" end in
  let id_of purchase := match obj_get purchase key with Some (FStr s) => Some (toLowerCase s) | _ => None end in
  if forallb (fun purchase => bool_decide (is_Some (id_of purchase))) purchases || bool_decide (plans = []) then
    Some (mjoin ((fun plan =>
      (fun purchase => mkAppended purchase plan.(product_id) plan.(plan_id))
        <$> filterb (fun purchase => match id_of purchase with
                                     | Some i => bool_decide (i ∈ determineIapIdentifiers iapType plan)
                                     | None => false end) purchases) <$> plans))
  else None.

(** [PlaySubscriptions.getSubscriptions(uid)] and
    [AppStoreSubscriptions.getSubscriptions(uid)] *)
Definition playSubscriptions (s : PayState F) (uid : string) : PayState F * (list Appended + RouteErr) :=
  match env.(pe_play) with
  | None => (s, inl [])
  | Some api =>
      let '(f, r) := queryCurrentSubscriptions api env.(pe_now) s.(ps_play) uid None None in
      (on_play s f,
       match r with
       | inr e => iap_err e
       | inl allPurchases =>
           match addPriceInfoToIapPurchases (filterb (isEntitlementActive env.(pe_now)) allPurchases) IapGoogle with
           | Some l => inl l
           | None => inr (Failed ServiceError)
           end
       end)
  end.

Definition appStoreSubscriptions (s : PayState F) (uid : string) : PayState F * (list Appended + RouteErr) :=
  match env.(pe_apple) with
  | None => (s, inl [])
  | Some api =>
      let '(f, r) := AppStore.queryCurrentSubscriptionPurchases api env.(pe_now) s.(ps_apple) uid None None in
      (on_apple s f,
       match r with
       | inr e => iap_err e
       | inl allPurchases =>
           match addPriceInfoToIapPurchases (filterb AppStore.isEntitlementActive allPurchases) IapApple with
           | Some l => inl l
           | None => inr (Failed ServiceError)
           end
       end)
  end.
End Routes.
