(* ===== verification/PaymentLaws.v ===== *)
(** * Replaced purchases grant nothing

    Along any sequence of requests to the in-app purchase routes of
    PaymentRoutes a replaced Google Play purchase stays replaced, belongs to no
    account and is never listed for one. *)

From S2P Require Import Prelude Text Firestore PlayPurchases PlayLaws AppStorePurchases Plans Capabilities PaymentRoutes.

#[local] Open Scope string_scope.
#[local] Open Scope Z_scope.

(** ** The collection of Play purchases *)

(** A document is kept under the token of its purchase, and an erased owner
    goes with the mark of a replaced purchase. *)
Definition store_ok (m : gmap string doc) : Prop :=
  forall id (d : doc), m !! id = Some d -> obj_get d "purchaseToken" = Some (FStr id) /\ (invalidated d -> replaced d).

(** The replaced purchases stay as they are. *)
Definition frozen (m m' : gmap string doc) : Prop :=
  forall x (d : doc), m !! x = Some d -> replaced d -> invalidated d -> m' !! x = Some d.

Definition safe_step (m m' : gmap string doc) : Prop := store_ok m -> store_ok m' /\ frozen m m'.

#[export] Instance safe_step_preorder : PreOrder safe_step.
Proof.
  split; [by intros m Hm; split; [|intros x d]|]. intros m1 m2 m3 H12 H23 H1.
  destruct (H12 H1) as [H2 F12], (H23 H2) as [H3 F23]. split; [done|]. intros x d Hx Hr Hi. auto.
Qed.

(** Writing one document that was not a replaced one. *)
Lemma safe_insert m t (d : doc) :
  (forall old, m !! t = Some old -> ~ (replaced old /\ invalidated old)) ->
  obj_get d "purchaseToken" = Some (FStr t) -> (invalidated d -> replaced d) -> safe_step m (<[t := d]> m).
Proof.
  intros Hold Ht Hd Hm. split.
  - intros id d' [[<- <-]|[_ Hd']]%lookup_insert_Some; [done|by apply Hm].
  - intros x d' Hx Hr Hi. rewrite lookup_insert_ne; [done|]. intros <-. by apply (Hold d').
Qed.

#[local] Ltac field := rewrite ?number_field_ne by done; repeat first [rewrite obj_get_set_eq | rewrite obj_get_set_ne by done].

Lemma fromApiResponse_token r pkg t sku now : obj_get (fromApiResponse r pkg t sku now) "purchaseToken" = Some (FStr t).
Proof. unfold fromApiResponse. cbn [fold_left]. by field. Qed.

Lemma fromFirestoreObject_get d k : bool_decide (k ∈ (play_methods ++ INTERNAL_KEYS)%list) = false ->
  obj_get (fromFirestoreObject d) k = obj_get d k.
Proof.
  intros Hk%bool_decide_eq_false. rewrite elem_of_app in Hk. unfold fromFirestoreObject, mergePurchaseWithFirestorePurchaseRecord.
  rewrite merge_record_get. cbn [obj_get]. rewrite bool_decide_eq_true_2; [done|]. tauto.
Qed.

Section Safe.
Context {F : Type} `{FirestoreLaws F} (api : PlayApi) (now : Z).

Lemma disable_safe fuel f pkg sku t f' o :
  disableReplacedSubscription api now fuel f pkg sku t = (f', o) -> safe_step (docs f) (docs f').
Proof.
  revert f t. induction fuel as [|fuel IH]; intros f t; cbn [disableReplacedSubscription]; [by intros [= <- _]|].
  destruct (doc_get f t) as [f1 got] eqn:Hg. apply doc_get_ok in Hg as [<- Hgot].
  destruct got as [[data|]|]; [| |by intros [= <- _]]; specialize (Hgot _ eq_refl).
  - destruct (fv_truthy _) eqn:Hr; [by intros [= <- _]|]. destruct (doc_update f1 t disabled_fields) as [f2 ok] eqn:Hu.
    intros [= <- _]. apply doc_update_ok in Hu as [(old & Hold & ->)|[_ ->]]; [|done].
    assert (old = data) as -> by (apply (inj Some); etrans; [symmetry; exact Hold|exact Hgot]). intros Hm.
    assert (NoDup disabled_fields.*1) as Hn by (vm_compute; repeat constructor; set_solver).
    refine (safe_insert _ _ _ _ _ _ Hm).
    + intros old Ho [Hrep _]. unfold replaced in Hrep. congruence.
    + rewrite obj_get_assign by done. by apply Hm in Hold as [? _].
    + intros _. unfold replaced. by rewrite obj_get_assign.
  - destruct (api_get api _) as [resp|code]; [|by intros [= <- _]].
    change (obj_set (obj_set (fromApiResponse resp pkg t sku now) _ _) _ _) with (backfilled now pkg sku resp t).
    destruct (doc_set f1 t _) as [f2 ok] eqn:Hs. assert (safe_step (docs f1) (docs f2)) as H12.
    { apply doc_set_ok in Hs as [->|[_ ->]]; [|done]. apply safe_insert; [congruence| |].
      - rewrite toFirestoreObject_get by (done || apply backfilled_nodup). unfold backfilled.
        rewrite !obj_get_set_ne by done. apply fromApiResponse_token.
      - intros _. apply backfilled_disabled. }
    destruct ok; [|by intros [= <- _]]. destruct (linked_token _) as [[t1|]|]; try by intros [= <- _].
    intros Hd. apply IH in Hd. by etrans.
Qed.

(** A lookup of a purchase that is not stored as a replaced one. *)
Lemma query_safe f pkg sku t trigger f' r : api_unowned api ->
  (forall d, docs f !! t = Some d -> ~ (replaced d /\ invalidated d)) ->
  querySubscriptionPurchase api now f pkg sku t trigger = (f', r) -> safe_step (docs f) (docs f').
Proof.
  intros Hapi Hfree. unfold querySubscriptionPurchase, api_get. destruct (answers api !! _) as [resp|] eqn:Hr; [|by intros [= <- _]].
  apply Hapi in Hr. destruct (doc_get f t) as [f1 got] eqn:Hg. apply doc_get_ok in Hg as [E Hgot]. rewrite <- E in Hfree, Hgot |- *. clear E.
  set (p := match trigger with Some n => obj_set _ _ _ | None => _ end).
  assert (NoDup p.*1) as Hn by (unfold p; destruct trigger; [apply obj_set_keys_nodup|]; apply fromApiResponse_nodup).
  assert (obj_get p "userId" = None) as Hu by (unfold p; destruct trigger; [rewrite obj_get_set_ne by done|]; by apply fromApiResponse_owner).
  assert (obj_get p "purchaseToken" = Some (FStr t)) as Ht by (unfold p; destruct trigger; [rewrite obj_get_set_ne by done|]; apply fromApiResponse_token).
  assert (NoDup (toFirestoreObject p).*1) as Hno.
  { unfold toFirestoreObject, purchaseToFirestoreObject. do 2 apply obj_set_keys_nodup. apply assign_nil_nodup. }
  destruct got as [[data|]|]; [| |by intros [= <- _]]; specialize (Hgot _ eq_refl).
  - destruct (doc_update f1 t _) as [f2 ok] eqn:Hup. assert (safe_step (docs f1) (docs f2)) as H12.
    { apply doc_update_ok in Hup as [(old & Hold & ->)|[_ ->]]; [|done]. intros Hm. refine (safe_insert _ _ _ Hfree _ _ Hm).
      - rewrite obj_get_assign, toFirestoreObject_get, Ht by done. done.
      - unfold invalidated. rewrite obj_get_assign, toFirestoreObject_get, Hu by done. intros Hi.
        destruct (Hfree old Hold). split; [|done]. by apply (Hm t old Hold). }
    by destruct ok; intros [= <- _].
  - destruct (doc_set f1 t _) as [f2 ok] eqn:Hs. assert (safe_step (docs f1) (docs f2)) as H12.
    { apply doc_set_ok in Hs as [->|[_ ->]]; [|done]. apply safe_insert; [done| |].
      - by rewrite toFirestoreObject_get, Ht.
      - unfold invalidated. by rewrite toFirestoreObject_get, Hu. }
    destruct ok; [|by intros [= <- _]]. destruct (linked_token _) as [[t1|]|]; try by intros [= <- _].
    destruct (disableReplacedSubscription _ _ _ _ _ _ _) as [f3 o] eqn:Hd. intros [= <- _]. apply disable_safe in Hd. by etrans.
Qed.

(** A lookup of a stored purchase writes to its document only, and leaves its
    owner; it yields the purchase of the same token. *)
Definition same_owners (m m' : gmap string doc) : Prop :=
  forall x (d : doc), m !! x = Some d -> exists d' : doc, m' !! x = Some d' /\ obj_get d' "userId" = obj_get d "userId".

#[local] Instance same_owners_preorder : PreOrder same_owners.
Proof.
  split; [intros m x d Hd; eauto|]. intros m1 m2 m3 H12 H23 x d Hd. destruct (H12 x d Hd) as (d2 & Hd2 & E2).
  destruct (H23 x d2 Hd2) as (d3 & Hd3 & E3). exists d3. split; [done|]. congruence.
Qed.

Lemma query_stored f pkg sku t trigger d f' r : api_unowned api -> docs f !! t = Some d ->
  querySubscriptionPurchase api now f pkg sku t trigger = (f', r) ->
  same_owners (docs f) (docs f') /\ forall p, r = inl p -> obj_get p "purchaseToken" = Some (FStr t).
Proof.
  intros Hapi Hd. unfold querySubscriptionPurchase, api_get. destruct (answers api !! _) as [resp|] eqn:Hr; [|by intros [= <- <-]].
  apply Hapi in Hr. destruct (doc_get f t) as [f1 got] eqn:Hg. apply doc_get_ok in Hg as [E Hgot].
  destruct got as [got|]; [|intros [= <- <-]; by rewrite E]. specialize (Hgot _ eq_refl). rewrite Hd in Hgot. subst got.
  set (p := match trigger with Some n => obj_set _ _ _ | None => _ end).
  assert (obj_get p "userId" = None) as Hu by (unfold p; destruct trigger; [rewrite obj_get_set_ne by done|]; by apply fromApiResponse_owner).
  assert (obj_get p "purchaseToken" = Some (FStr t)) as Ht by (unfold p; destruct trigger; [rewrite obj_get_set_ne by done|]; apply fromApiResponse_token).
  assert (NoDup p.*1) as Hn by (unfold p; destruct trigger; [apply obj_set_keys_nodup|]; apply fromApiResponse_nodup).
  destruct (doc_update f1 t _) as [f2 ok] eqn:Hup. intros Hrun. assert (f' = f2) as -> by (by destruct ok; injection Hrun as <- _).
  split.
  - apply doc_update_ok in Hup as [(old & Hold & ->)|[_ ->]]; rewrite E; [|done]. intros x d' Hx.
    destruct (decide (t = x)) as [<-|]; [|exists d'; by rewrite lookup_insert_ne].
    eexists. rewrite lookup_insert_eq. split; [done|]. rewrite obj_get_assign_none by (by rewrite toFirestoreObject_get).
    rewrite E in Hold. by assert (old = d') as -> by (apply (inj Some); etrans; [symmetry; exact Hold|exact Hx]).
  - intros q ->. destruct ok; [|done]. injection Hrun as <-. unfold mergePurchaseWithFirestorePurchaseRecord.
    by rewrite merge_record_get, Ht.
Qed.

(** The records of an account, as they are in the collection. *)
Definition records_of (uid : string) (records : list doc) (m : gmap string doc) : Prop :=
  forall data, data ∈ records -> exists id (d : doc),
    obj_get data "purchaseToken" = Some (FStr id) /\ m !! id = Some d /\ owned_by uid d.

Lemma current_safe f uid records f' r : api_unowned api -> uid <> REPLACED_PURCHASE_USERID_PLACEHOLDER ->
  records_of uid records (docs f) -> current_purchases api now f records = (f', r) ->
  safe_step (docs f) (docs f') /\
  forall l, r = inl l -> forall p, p ∈ l -> exists data, data ∈ records /\ obj_get p "purchaseToken" = obj_get data "purchaseToken".
Proof.
  intros Hapi Hne. revert f f' r. induction records as [|data records IH]; intros f f' r Hrec; cbn [current_purchases].
  { intros [= <- <-]. split; [done|]. intros l [= <-]. set_solver. }
  destruct (Hrec data) as (id & d & Htok & Hd & Hown); [by left|].
  destruct (refreshed api now f _) as [f1 q] eqn:Hq.
  assert (safe_step (docs f) (docs f1) /\ same_owners (docs f) (docs f1) /\
    forall p, q = inl p -> obj_get p "purchaseToken" = Some (FStr id)) as (H1 & Hsame & Htok1).
  { unfold refreshed in Hq. destruct (is_current _ _).
    { injection Hq as <- <-. split; [done|]. split; [done|]. intros p [= <-]. by rewrite fromFirestoreObject_get. }
    unfold string_field in Hq. rewrite (fromFirestoreObject_get data "purchaseToken"), Htok in Hq by done.
    repeat case_match; simplify_eq; try (split; [done|]; split; [done|by intros]). split.
    - eapply query_safe; [done| |exact Hq]. intros d' Hd' [_ Hi]. unfold owned_by in Hown. unfold invalidated in Hi.
      assert (d' = d) as -> by (apply (inj Some); etrans; [symmetry; exact Hd'|exact Hd]). congruence.
    - by eapply query_stored. }
  destruct q as [p|e]; [|intros [= <- <-]; split; [done|by intros]]. destruct (current_purchases _ _ f1 _) as [f2 rest] eqn:Hc.
  apply IH in Hc as [H2 Hl].
  2: { intros data' Hin. destruct (Hrec data') as (id' & d1 & Ht' & Hd1 & Ho1); [by right|].
       destruct (Hsame id' d1 Hd1) as (d2 & Hd2 & E2). exists id', d2. split; [done|]. split; [done|]. unfold owned_by in *. congruence. }
  intros [= <- <-]. split; [by etrans|]. intros l Hl'. destruct rest as [l0|]; [|done]. injection Hl' as <-. intros x Hx.
  assert (x = p \/ x ∈ l0) as [->|Hx'] by (destruct (is_current now p); set_solver).
  - exists data. split; [by left|]. rewrite Htok. by apply Htok1.
  - destruct (Hl l0 eq_refl x Hx') as (data' & Hin & ->). exists data'. split; [by right|done].
Qed.

(** The purchases listed for an account: none of them is a replaced one. *)
Lemma subscriptions_safe f uid sku pkg f' r : api_unowned api -> uid <> REPLACED_PURCHASE_USERID_PLACEHOLDER ->
  store_ok (docs f) -> queryCurrentSubscriptions api now f uid sku pkg = (f', r) ->
  safe_step (docs f) (docs f') /\
  forall l x (d : doc), r = inl l -> docs f !! x = Some d -> invalidated d -> forall p, p ∈ l -> obj_get p "purchaseToken" <> Some (FStr x).
Proof.
  intros Hapi Hne Hok. unfold queryCurrentSubscriptions. destruct (query _ _) as [f1 got] eqn:Hq. apply query_ok in Hq as [E Hgot].
  destruct got as [records|]; [|intros [= <- <-]; rewrite E; by split]. specialize (Hgot _ eq_refl).
  assert (forall data, data ∈ records -> exists id, docs f !! id = Some data /\ owned_by uid data) as Hrec.
  { intros data Hin. rewrite Hgot in Hin. apply list_elem_of_fmap in Hin as ([id data'] & -> & Hin).
    apply elem_of_map_to_list, map_lookup_filter_Some in Hin as [Hin Hm]. exists id. split; [done|].
    unfold matches in Hm. cbn -[play_query] in Hm. rewrite forallb_forall in Hm. specialize (Hm ("userId", FStr uid)).
    unfold fv_is in Hm. apply bool_decide_eq_true in Hm; [done|]. unfold play_query. cbn. tauto. }
  destruct (current_purchases _ _ f1 _) as [f2 rest] eqn:Hc. eapply current_safe in Hc as [Hs Hl]; [|done|done|].
  2: { intros data Hin. destruct (Hrec data Hin) as (id & Hd & Ho). exists id, data. rewrite E. split; [by apply (Hok id data)|done]. }
  rewrite E in Hs. intros [= <- <-]. split; [done|]. intros l x d Hr Hd Hi p Hp. destruct rest as [l0|]; [|done]. injection Hr as <-.
  destruct (Hl l0 eq_refl p Hp) as (data & Hin & ->). destruct (Hrec data Hin) as (id & Hdata & Ho).
  destruct (Hok id data Hdata) as [-> _]. intros [= ->]. unfold owned_by in Ho. unfold invalidated in Hi. congruence.
Qed.

Lemma register_safe f pkg sku t u f' r : api_unowned api -> u <> REPLACED_PURCHASE_USERID_PLACEHOLDER ->
  registerToUserAccount api now f pkg sku t u = (f', r) -> safe_step (docs f) (docs f').
Proof.
  intros Hapi Hne. unfold registerToUserAccount, purchase_to_register, getPurchase.
  destruct (doc_get f t) as [f1 got] eqn:Hg. apply doc_get_ok in Hg as [E Hgot].
  destruct got as [got|]; [|intros [= <- <-]; by rewrite E]. specialize (Hgot _ eq_refl). cbn -[querySubscriptionPurchase].
  assert (forall f2 f3 w, (forall d, docs f2 !! t = Some d -> docs f !! t = None \/ ~ (replaced d /\ invalidated d)) ->
    safe_step (docs f) (docs f2) -> forceRegisterToUserAccount f2 t u = (f3, w) -> safe_step (docs f) (docs f3)) as Hforce.
  { intros f2 f3 w Hfree H2 [(old & Hold & E3)|[_ ->]]%force_spec; [|done]. intros Hm. destruct (H2 Hm) as [Hm2 Hf2]. split.
    - rewrite E3. intros id d [[<- <-]|[_ Hd']]%lookup_insert_Some; [|by apply Hm2]. split.
      + rewrite obj_get_assign_none by done. by apply Hm2 in Hold as [? _].
      + unfold invalidated. rewrite assign_owner. congruence.
    - intros x d Hx Hr Hi. rewrite E3. specialize (Hf2 x d Hx Hr Hi). rewrite lookup_insert_ne; [done|]. intros <-.
      destruct (Hfree d Hf2) as [?|?]; [congruence|tauto]. }
  destruct got as [data|]; cbn -[querySubscriptionPurchase].
  - destruct (negb _); [intros [= <- <-]; by rewrite E|]. destruct (fv_is _ _); [intros [= <- <-]; by rewrite E|].
    rewrite fromFirestoreObject_owner. destruct (fv_truthy _) eqn:Ht; [intros [= <- <-]; by rewrite E|].
    destruct (forceRegisterToUserAccount f1 t u) as [f2 w] eqn:Hw. intros [= <- <-]. eapply Hforce; [|by rewrite E|exact Hw].
    intros d Hd. right. intros [_ Hi]. rewrite E in Hd. unfold invalidated in Hi.
    assert (data = d) as -> by (apply (inj Some); etrans; [symmetry; exact Hgot|exact Hd]). by rewrite Hi in Ht.
  - destruct (querySubscriptionPurchase _ _ _ _ _ _ _) as [f2 q] eqn:Hq. apply query_safe in Hq; [|done|].
    2: { intros d Hd. rewrite E in Hd. congruence. }
    rewrite E in Hq. destruct q as [p|e]; [|by intros [= <- <-]]. destruct (negb _); [by intros [= <- <-]|].
    destruct (fv_is _ _); [by intros [= <- <-]|]. destruct (fv_truthy _); [by intros [= <- <-]|].
    destruct (forceRegisterToUserAccount f2 t u) as [f3 w] eqn:Hw. intros [= <- <-]. eapply Hforce; [|exact Hq|exact Hw]. eauto.
Qed.
End Safe.

(** ** The routes *)

Section RouteSteps.
Context {F : Type} `{FirestoreLaws F} (href_of : string -> option string) (configs : AppConfigs) (env : PayEnv) (api : PlayApi).
Implicit Types (s : PayState F).

Definition play_docs s : gmap string doc := docs s.(ps_play).

Definition apis_unowned : Prop := api_unowned api /\ forall a, env.(pe_play) = Some a -> api_unowned a.

(** The account is one: not the placeholder of a replaced purchase. *)
Definition account (uid : string) : Prop := uid <> REPLACED_PURCHASE_USERID_PLACEHOLDER.

Lemma fetch_play_safe s uid s' r : apis_unowned -> account uid ->
  fetchSubscribedPricesFromPlay env s uid = (s', r) -> safe_step (play_docs s) (play_docs s').
Proof.
  intros [_ Hapi] Huid. unfold fetchSubscribedPricesFromPlay. destruct (pe_play env) as [a|]; [|by intros [= <- _]].
  destruct (queryCurrentSubscriptions _ _ _ _ _ _) as [f q] eqn:Hq. intros [= <- _] Hm.
  eapply subscriptions_safe in Hq as [Hs _]; [by apply Hs|by apply Hapi|done|done].
Qed.

Lemma fetch_app_store_play s uid s' r : fetchSubscribedPricesFromAppStore env s uid = (s', r) -> ps_play s' = ps_play s.
Proof.
  unfold fetchSubscribedPricesFromAppStore. destruct (pe_apple env); [|by intros [= <- _]].
  destruct (AppStore.queryCurrentSubscriptionPurchases _ _ _ _ _ _). by intros [= <- _].
Qed.

Lemma refresh_safe s uid affected s' r : apis_unowned -> account uid ->
  refresh env s uid affected = (s', r) -> safe_step (play_docs s) (play_docs s').
Proof.
  intros Hapi Huid. unfold refresh, subscribedPriceIds, fetch_all.
  destruct (fetchSubscribedPricesFromPlay env s uid) as [s1 play] eqn:H1. apply fetch_play_safe in H1; [|done|done].
  destruct (fetchSubscribedPricesFromAppStore env s1 uid) as [s2 apple] eqn:H2. apply fetch_app_store_play in H2.
  assert (play_docs s2 = play_docs s1) as E by (unfold play_docs; by rewrite H2). rewrite <- E in H1.
  destruct (_ <$> _) as [current|]; [|by intros [= <- _]].
  assert (forall s3 s4 q, play_docs s3 = play_docs s2 ->
    processPriceIdDiff env s3 uid (createPriceIdChangeset current affected) current = (s4, q) -> play_docs s4 = play_docs s2) as Hdiff.
  { intros s3 s4 q E3. unfold processPriceIdDiff. repeat case_match; by intros [= <- _]. }
  destruct (processPriceIdDiff _ _ _ _ _) as [s4 q] eqn:Hd. intros [= <- _]. erewrite (Hdiff _ s4 q); [done| |exact Hd].
  by destruct (pe_profile_ok env).
Qed.

Lemma iapUpdate_safe s uid p s' r : apis_unowned -> account uid ->
  iapUpdate env s uid p = (s', r) -> safe_step (play_docs s) (play_docs s').
Proof.
  intros Hapi Huid. unfold iapUpdate. destruct (iapPurchasesToPriceIds _ _) as [ids|]; [|by intros [= <- _]].
  destruct (head ids) as [id|]; [|by intros [= <- _]]. destruct (str_truthy id); [|by intros [= <- _]]. by apply refresh_safe.
Qed.

Lemma registerToken_safe s auth appName sku token s' r : apis_unowned -> account auth.(cr_user) ->
  registerToken href_of configs env api s auth appName sku token = (s', r) -> safe_step (play_docs s) (play_docs s').
Proof.
  intros Hapi Huid. unfold registerToken, handleAuthScoped, authorized. destruct (_ ≫= _) as [[]|]; cbv iota beta; [|by intros [= <- _]..].
  destruct (required_name _) as [pkg|e]; [|by intros [= <- _]].
  destruct (registerToUserAccount _ _ _ _ _ _ _) as [f q] eqn:Hq. apply register_safe in Hq; [|exact (proj1 Hapi)|done].
  destruct q as [p|e]; [|by intros [= <- _]]. destruct (iapUpdate _ _ _ _) as [s2 w] eqn:Hu. intros [= <- _].
  apply iapUpdate_safe in Hu; [|done|done]. etrans; [exact Hq|exact Hu].
Qed.

Lemma notification_safe f pkg n now f' r : api_unowned api ->
  (forall d, docs f !! n.(sn_purchaseToken) = Some d -> ~ (replaced d /\ invalidated d)) ->
  processDeveloperNotification api now f pkg (Some n) = (f', r) -> safe_step (docs f) (docs f').
Proof.
  intros Hapi Hfree. cbn. destruct (_ =? _); [by intros [= <- _]|].
  destruct (querySubscriptionPurchase _ _ _ _ _ _ _) as [f1 q] eqn:Hq. intros [= <- _]. by eapply query_safe.
Qed.

Lemma rtdn_safe s message s' r : apis_unowned -> rtdn env api s message = (s', r) -> safe_step (play_docs s) (play_docs s').
Proof.
  intros Hapi. unfold rtdn. destruct message as [n|]; [|by intros [= <- _]]. destruct (dn_test n); [by intros [= <- _]|].
  destruct (dn_subscription n) as [sub|]; [|by intros [= <- _]]. unfold getPurchase.
  destruct (doc_get _ _) as [f1 got] eqn:Hg. apply doc_get_ok in Hg as [E Hgot].
  assert (safe_step (play_docs s) (play_docs (on_play s f1))) as Hsame by (unfold play_docs, on_play; cbn [ps_play]; by rewrite E).
  destruct got as [got|]; [|by intros [= <- _]]. specialize (Hgot _ eq_refl).
  intros Hrun Hm. revert Hrun. destruct got as [data|]; cbn [fmap option_fmap option_map].
  - rewrite !fromFirestoreObject_get by done. destruct (fv_truthy (obj_get data "userId")) eqn:Hu; cbn [negb orb];
      [|intros [= <- _]; by apply Hsame].
    destruct (fv_truthy (obj_get data "replacedByAnotherPurchase")) eqn:Hr; [intros [= <- _]; by apply Hsame|].
    destruct (processDeveloperNotification _ _ _ _ _) as [f2 q] eqn:Hq. apply notification_safe in Hq; [|exact (proj1 Hapi)|].
    2: { cbn [on_play ps_play]. rewrite E. intros d Hd [Hrep _]. unfold replaced in Hrep.
         assert (data = d) as -> by (apply (inj Some); etrans; [symmetry; exact Hgot|exact Hd]). congruence. }
    cbn [on_play ps_play] in Hq. rewrite E in Hq. destruct q as [[p|]|e]; [|by intros [= <- _]; apply Hq|by intros [= <- _]; apply Hq].
    destruct (iapUpdate _ _ _ _) as [s2 w] eqn:Hup. intros [= <- _]. apply iapUpdate_safe in Hup; [|done|].
    { by assert (safe_step (play_docs s) (play_docs s2)) as Hs by (etrans; [exact Hq|exact Hup]); apply Hs. }
    unfold account, account_of. rewrite fromFirestoreObject_owner. intros Hinv.
    destruct (obj_get data "userId") as [[]|] eqn:Ho; try done. subst.
    destruct (Hm _ _ Hgot) as [_ Hrep]. specialize (Hrep Ho). unfold replaced in Hrep. congruence.
  - destruct (processDeveloperNotification _ _ _ _ _) as [f2 q] eqn:Hq. apply notification_safe in Hq; [|exact (proj1 Hapi)|].
    2: { cbn [on_play ps_play]. rewrite E. intros d Hd. congruence. }
    intros [= <- _]. cbn [on_play ps_play] in Hq. rewrite E in Hq. by apply Hq.
Qed.

Lemma listed_safe s uid s' r : apis_unowned -> account uid ->
  playSubscriptions env s uid = (s', r) -> safe_step (play_docs s) (play_docs s').
Proof.
  intros [_ Hapi] Huid. unfold playSubscriptions. destruct (pe_play env) as [a|]; [|by intros [= <- _]].
  destruct (queryCurrentSubscriptions _ _ _ _ _ _) as [f q] eqn:Hq. intros [= <- _] Hm.
  eapply subscriptions_safe in Hq as [Hs _]; [by apply Hs|by apply Hapi|done|done].
Qed.
End RouteSteps.

(** ** Sequences of requests *)

(** The requests that read or write the Play purchases: registrations and
    notifications, the refresh of an account's capabilities (which Stripe's and
    Apple's updates end in) and the list of its purchases. *)
Inductive PayRequest :=
  | RegisterToken (auth : Credentials) (appName sku token : string)
  | DeveloperMessage (message : option DeveloperNotification)
  | AccountRefreshed (uid : string) (affectedPriceIds : list string)
  | PurchasesListed (uid : string).

Record PayCall := mkPayCall { pq_configs : AppConfigs; pq_env : PayEnv; pq_api : PlayApi; pq_request : PayRequest }.

Definition pay_step {F} `{Firestore F} (href_of : string -> option string) (s : PayState F) (c : PayCall) : PayState F :=
  match c.(pq_request) with
  | RegisterToken auth appName sku token => (registerToken href_of c.(pq_configs) c.(pq_env) c.(pq_api) s auth appName sku token).1
  | DeveloperMessage message => (rtdn c.(pq_env) c.(pq_api) s message).1
  | AccountRefreshed uid affected => (refresh c.(pq_env) s uid affected).1
  | PurchasesListed uid => (playSubscriptions c.(pq_env) s uid).1
  end.

Definition call_ok (c : PayCall) : Prop :=
  apis_unowned c.(pq_env) c.(pq_api) /\
  match c.(pq_request) with
  | RegisterToken auth _ _ _ => account auth.(cr_user)
  | DeveloperMessage _ => True
  | AccountRefreshed uid _ | PurchasesListed uid => account uid
  end.

Lemma pay_steps_safe {F} `{FirestoreLaws F} href_of (s : PayState F) cs :
  Forall call_ok cs -> safe_step (play_docs s) (play_docs (fold_left (pay_step href_of) cs s)).
Proof.
  intros Hcs. revert s. induction Hcs as [|c cs [Hapi Hc] _ IH]; intros s; cbn [fold_left]; [done|].
  etrans; [|apply IH]. unfold pay_step. destruct (pq_request c) as [auth app sku t|message|uid affected|uid].
  - destruct (registerToken _ _ _ _ _ _ _ _ _) as [s1 r] eqn:E. by eapply registerToken_safe.
  - destruct (rtdn _ _ _ _) as [s1 r] eqn:E. by eapply rtdn_safe.
  - destruct (refresh _ _ _ _) as [s1 r] eqn:E. by eapply refresh_safe.
  - destruct (playSubscriptions _ _ _) as [s1 r] eqn:E. by eapply listed_safe.
Qed.

(** [C12] A replaced Google Play purchase never grants anything again: whatever
    registrations, notifications and refreshes follow, with a Firestore that
    may reject any command, its document stays exactly as it is - marked as
    replaced, its owner erased -, so it is not an entitlement at any time, and
    the purchases the user manager lists for an account never include it. *)
Theorem replaced_purchase_stays_replaced {F} `{FirestoreLaws F} href_of (s : PayState F) cs x (d : doc) api now uid sku pkg :
  store_ok (play_docs s) -> Forall call_ok cs -> api_unowned api -> account uid ->
  play_docs s !! x = Some d -> replaced d -> invalidated d ->
  let s' := fold_left (pay_step href_of) cs s in
  play_docs s' !! x = Some d /\ isEntitlementActive now d = false /\
  forall l p, (queryCurrentSubscriptions api now s'.(ps_play) uid sku pkg).2 = inl l -> p ∈ l ->
    obj_get p "purchaseToken" <> Some (FStr x).
Proof.
  intros Hok Hcs Hapi Huid Hx Hr Hi s'. destruct (pay_steps_safe href_of s cs Hcs Hok) as [Hok' Hf].
  specialize (Hf x d Hx Hr Hi). split; [done|]. split.
  { unfold isEntitlementActive. unfold replaced in Hr. rewrite Hr. apply andb_false_r. }
  intros l p Hl Hp. destruct (queryCurrentSubscriptions _ _ _ _ _ _) as [f r] eqn:Hq. cbn in Hl. subst r.
  eapply subscriptions_safe in Hq as [_ Hno]; [|done|done|done]. by eapply (Hno l x d).
Qed.

(** ** Example *)

(** The collection after a registration that replaced two purchases. *)
Definition replacing : PayState Collection := mkPay registered.1 (mkCollection ∅) [].

Definition play_env : PayEnv := mkPayEnv (Some chain_api) None (Some []) None (fun _ => Some None) true 1500.

Definition later_requests : list PayCall :=
  let call := mkPayCall (fun _ => Some (Some (mkIapConfig None (Some "app") None))) play_env chain_api in
  [call (RegisterToken (mkCredentials [OAUTH_SCOPE_SUBSCRIPTIONS_IAP] "carol") "vpn" "plan" "tokenB");
   call (DeveloperMessage (Some (mkDevNotification false "app" (Some (mkNotification 13 "tokenB" "plan")))));
   call (DeveloperMessage (Some (mkDevNotification false "app" (Some (mkNotification 2 "tokenC" "plan")))));
   call (AccountRefreshed "alice" ["price_1"]); call (PurchasesListed "alice")].

Definition tokenB : doc := default [] (play_docs replacing !! "tokenB").

Lemma replacing_ok : store_ok (play_docs replacing).
Proof.
  refine (bool_decide_unpack (map_Forall (fun id d => obj_get d "purchaseToken" = Some (FStr id) /\
    (obj_get d "userId" = Some (FStr REPLACED_PURCHASE_USERID_PLACEHOLDER) ->
     fv_truthy (obj_get d "replacedByAnotherPurchase") = true)) (play_docs replacing)) _). by vm_compute.
Qed.

Lemma replaced_purchase_stays_replaced_witness :
  let s' := fold_left (pay_step (fun s => Some s)) later_requests replacing in
  play_docs s' !! "tokenB" = Some tokenB /\ isEntitlementActive 850 tokenB = false /\
  forall l p, (queryCurrentSubscriptions chain_api 850 s'.(ps_play) "alice" None None).2 = inl l -> p ∈ l ->
    obj_get p "purchaseToken" <> Some (FStr "tokenB").
Proof.
  apply (replaced_purchase_stays_replaced (fun s => Some s) replacing later_requests "tokenB" tokenB chain_api 850 "alice" None None);
    [apply replacing_ok| |apply chain_api_unowned|done|by vm_compute..].
  repeat constructor; try done; try apply chain_api_unowned; intros a [= <-]; apply chain_api_unowned.
Defined.
