(* ===== verification/MetricsContext.v ===== *)
(** * The metrics context of a request

    Flow ids (packages/fxa-content-server/server/lib/flow-metrics.js), the
    metrics context of the auth server (lib/metrics/context.js), whether an
    account has opted out (the getter of lib/server.js) and the events a request
    logs (lib/metrics/events.js with the filters of lib/log.js).

    A request is passed along: [validate], [stash] and [setFlowCompleteSignal]
    change the context object in its payload, and the getter
    [request.app.metricsContext] keeps what it found first - the object of the
    payload itself, so that later changes show, or what the cache held.  A
    context has the types of the schema.  The cache is a class; the hash of its
    keys and the HMAC are arguments. *)

From Stdlib Require Import Ascii HexString.
From stdpp Require Import pretty.
From S2P Require Import Prelude Bytes KeyBundle Firestore.
From S2P Require ScopeValues.

#[local] Open Scope string_scope.
#[local] Open Scope Z_scope.

(** ** JavaScript helpers *)

(** The bytes of a string. *)
Definition text_bytes (s : string) : list Z := (fun a => Z.of_N (N_of_ascii a)) <$> String.list_ascii_of_string s.

(** [n.toString(16)] *)
Definition toString16 (n : Z) : string :=
  match n with
  | Z0 => "0"
  | Zpos p => Raw.of_pos p ""
  | Zneg p => String "-"%char (Raw.of_pos p "")
  end.

(** [s.substr(n)] *)
Definition substr_from (n : nat) (s : string) : string := String.substring n (String.length s - n) s.

Definition newline : string := String "010"%char "".

(** [a || b] on optional strings *)
Definition str_or (a b : option string) : option string := if ostr_truthy a then a else b.

(** ** Flow ids of the content server (flow-metrics.js) *)

Definition SALT_SIZE : nat := 16.
Definition SALT_STRING_LENGTH : nat := SALT_SIZE * 2.

Section FlowMetrics.
Context `{Crypto}.

Definition createFlowEventData (key salt : string) (flowBeginTime : Z) : Z * string :=
  let data := salt ++ newline ++ toString16 flowBeginTime in
  let flowSignature := String.substring 0 SALT_STRING_LENGTH (to_hex (HMAC (text_bytes key) (text_bytes data))) in
  (flowBeginTime, salt ++ flowSignature).

Definition getFlowSignature (flowId : string) : string := substr_from SALT_STRING_LENGTH flowId.

(** [create(key, userAgent)], with the bytes it draws and the time *)
Definition create (key : string) (randomBytes : list Z) (now : Z) : Z * string :=
  createFlowEventData key (to_hex randomBytes) now.

(** [validate(key, flowId, flowBeginTime)] *)
Definition validate_flow (key flowId : string) (flowBeginTime : Z) : bool :=
  let salt := String.substring 0 SALT_STRING_LENGTH flowId in
  let expected := createFlowEventData key salt flowBeginTime in
  String.eqb (getFlowSignature flowId) (getFlowSignature expected.2).
End FlowMetrics.

(** ** Contexts and requests *)

(** What do-not-track holds back. *)
Record Marketing := mkMarketing {
  k_entrypoint : option string; k_entrypointExperiment : option string; k_entrypointVariation : option string;
  k_utmCampaign : option string; k_utmContent : option string; k_utmMedium : option string;
  k_utmSource : option string; k_utmTerm : option string; k_productId : option string; k_planId : option string }.

Record Metadata := mkMetadata {
  m_deviceId : option string;
  m_flowId : option string;
  m_flowBeginTime : option Z;
  m_marketing : Marketing;
  m_service : option string;
  m_flowCompleteSignal : option string;
  m_flowType : option string }.

Definition no_marketing : Marketing := mkMarketing None None None None None None None None None None.
Definition no_metadata : Metadata := mkMetadata None None None no_marketing None None None.

Definition with_service (s : option string) (m : Metadata) : Metadata :=
  mkMetadata m.(m_deviceId) m.(m_flowId) m.(m_flowBeginTime) m.(m_marketing) s m.(m_flowCompleteSignal) m.(m_flowType).
Definition without_flow (m : Metadata) : Metadata :=
  mkMetadata m.(m_deviceId) None None m.(m_marketing) m.(m_service) m.(m_flowCompleteSignal) m.(m_flowType).
Definition with_signal (signal type : option string) (m : Metadata) : Metadata :=
  mkMetadata m.(m_deviceId) m.(m_flowId) m.(m_flowBeginTime) m.(m_marketing) m.(m_service) signal type.

Record Payload := mkPayload {
  y_context : option Metadata; y_service : option string; y_uid : option string;
  y_code : option string; y_token : option string; y_email : option string }.

(** The credentials of a request: a token has [uid] and [id], an OAuth token
    [user]. *)
Record Credential := mkCredential {
  r_uid : option string; r_id : option string; r_user : option string; r_optOutAt : option Z }.

(** What the getter found: the object of the payload, or one from the cache. *)
Inductive Found := InPayload | InCache (m : Metadata).

Record Request := mkRequest {
  q_payload : option Payload;
  q_service : option string;
  q_credentials : option Credential;
  (** [auth.artifacts], with its [metricsUid] *)
  q_artifacts : option (option string);
  q_dnt : option string;
  q_country : option string; q_region : option string; q_locale : option string; q_userAgent : option string;
  q_path : string;
  (** [info.completed - info.received] *)
  q_duration : Z;
  (** what the lazy getters hold *)
  q_found : option Found;
  q_enabled : option bool }.

Definition set_payload (p : option Payload) (q : Request) : Request :=
  mkRequest p q.(q_service) q.(q_credentials) q.(q_artifacts) q.(q_dnt) q.(q_country) q.(q_region) q.(q_locale)
    q.(q_userAgent) q.(q_path) q.(q_duration) q.(q_found) q.(q_enabled).
Definition set_artifacts (a : option (option string)) (q : Request) : Request :=
  mkRequest q.(q_payload) q.(q_service) q.(q_credentials) a q.(q_dnt) q.(q_country) q.(q_region) q.(q_locale)
    q.(q_userAgent) q.(q_path) q.(q_duration) q.(q_found) q.(q_enabled).
Definition set_found (f : option Found) (q : Request) : Request :=
  mkRequest q.(q_payload) q.(q_service) q.(q_credentials) q.(q_artifacts) q.(q_dnt) q.(q_country) q.(q_region) q.(q_locale)
    q.(q_userAgent) q.(q_path) q.(q_duration) f q.(q_enabled).
Definition set_enabled (b : option bool) (q : Request) : Request :=
  mkRequest q.(q_payload) q.(q_service) q.(q_credentials) q.(q_artifacts) q.(q_dnt) q.(q_country) q.(q_region) q.(q_locale)
    q.(q_userAgent) q.(q_path) q.(q_duration) q.(q_found) b.

(** [this.payload && this.payload.metricsContext] *)
Definition context_of (q : Request) : option Metadata := p ← q.(q_payload); p.(y_context).

(** A change of the context object in the payload, if there is one. *)
Definition change_context (f : Metadata -> Metadata) (q : Request) : Request :=
  set_payload ((fun p => mkPayload (f <$> p.(y_context)) p.(y_service) p.(y_uid) p.(y_code) p.(y_token) p.(y_email))
                 <$> q.(q_payload)) q.

(** ** The cache (lib/cache.js)

    [None] is a rejected promise.  [cached c t] is what the cache would answer
    at time [t]: an entry goes when its lifetime is over, and may go earlier. *)
Class Cache (C : Type) := {
  cache_get : C -> string -> Z -> option (option Metadata);
  cache_add : C -> string -> Metadata -> Z -> C * option bool;
  cache_del : C -> string -> Z -> C * option bool;
  cached : C -> Z -> gmap string Metadata }.

(** memcached's documented behaviour: [add] stores only under a key that holds
    nothing, and no command touches another key. *)
Class CacheLaws (C : Type) `{Cache C} : Prop := {
  cache_get_ok c k t r : cache_get c k t = Some r -> r = cached c t !! k;
  cached_expires c t t' : t <= t' -> cached c t' ⊆ cached c t;
  cache_add_held c k v t c' r t' : cache_add c k v t = (c', r) -> t <= t' ->
    is_Some (cached c t !! k) -> cached c' t' = cached c t';
  cache_add_free c k v t c' r t' : cache_add c k v t = (c', r) -> t <= t' ->
    forall j m, cached c' t' !! j = Some m -> cached c t' !! j = Some m \/ j = k /\ m = v;
  cache_add_other c k v t c' r t' j : cache_add c k v t = (c', r) -> t <= t' -> j <> k ->
    cached c' t' !! j = cached c t' !! j;
  cache_del_ok c k t c' t' : cache_del c k t = (c', Some true) -> t <= t' -> cached c' t' = delete k (cached c t');
  cache_del_other c k t c' r t' j : cache_del c k t = (c', r) -> t <= t' -> j <> k -> cached c' t' !! j = cached c t' !! j;
  cache_del_less c k t c' r t' : cache_del c k t = (c', r) -> t <= t' -> cached c' t' ⊆ cached c t' }.

(** ** context.js *)

Record MetricsConfig := mkMetricsConfig { flow_id_key : string; flow_id_expiry : Z }.

Definition FLOW_ID_LENGTH : nat := 64.

Record Token := mkToken { tk_uid : option string; tk_id : option string }.

(** [getToken(request)]; the context of a stub account is kept under its user
    id twice. *)
Definition getToken (q : Request) : option Token :=
  match q.(q_credentials) with
  | Some c => Some (mkToken c.(r_uid) c.(r_id))
  | None =>
      match q.(q_payload) with
      | Some p =>
          if ostr_truthy p.(y_uid) && ostr_truthy p.(y_code) then Some (mkToken p.(y_uid) p.(y_code))
          else if ostr_truthy p.(y_uid) && ostr_truthy p.(y_token) then Some (mkToken p.(y_uid) p.(y_uid))
          else None
      | None => None
      end
  end.

(** [calculateFlowTime(time, flowBeginTime)] *)
Definition calculateFlowTime (time : Z) (flowBeginTime : option Z) : num :=
  match flowBeginTime with
  | Some b => Some (if time <=? b then 0 else time - b)
  | None => None
  end.

Section Context.
Context `{Crypto} (config : MetricsConfig) (digest : string -> string).

(** [getKey(token)]; [None] is the error of an invalid token. *)
Definition getKey (token : option Token) : option string :=
  token ← token;
  match token.(tk_uid), token.(tk_id) with
  | Some uid, Some id => if str_truthy uid && str_truthy id then Some (digest (uid ++ id)) else None
  | _, _ => None
  end.

Definition calculateFlowSignatureBytes (flowId : string) (flowBeginTime : Z) : list Z :=
  let hmacData := String.substring 0 (FLOW_ID_LENGTH / 2) flowId ++ newline ++ toString16 flowBeginTime in
  take (FLOW_ID_LENGTH / 2 / 2) (HMAC (text_bytes config.(flow_id_key)) (text_bytes hmacData)).

Definition logInvalidContext (q : Request) : Request := change_context without_flow q.

(** Why [validate()] refuses; [None] when it does not. *)
Definition invalid_reason (now : Z) (payload : option Payload) : option string :=
  match payload with
  | None => Some "missing payload"
  | Some p =>
      match p.(y_context) with
      | None => Some "missing context"
      | Some metadata =>
          match metadata.(m_flowId) with
          | Some flowId =>
              if negb (str_truthy flowId) then Some "missing flowId"
              else match metadata.(m_flowBeginTime) with
                   | Some flowBeginTime =>
                       if flowBeginTime =? 0 then Some "missing flowBeginTime"
                       else let age := now - flowBeginTime in
                            if (config.(flow_id_expiry) <? age) || (age <=? 0) then Some "expired flowBeginTime"
                            else if negb (HEX_STRING flowId) then Some "invalid flowId"
                            else let flowSignature := String.substring (FLOW_ID_LENGTH / 2) FLOW_ID_LENGTH flowId in
                                 if negb (buffersAreEqual (Hex flowSignature) (Buf (calculateFlowSignatureBytes flowId flowBeginTime)))
                                 then Some "invalid signature" else None
                   | None => Some "missing flowBeginTime"
                   end
          | None => Some "missing flowId"
          end
      end
  end.

(** [validate()] *)
Definition validate (now : Z) (q : Request) : Request * bool :=
  match invalid_reason now q.(q_payload) with
  | Some _ => (logInvalidContext q, false)
  | None => (q, true)
  end.

(** [setFlowCompleteSignal(flowCompleteSignal, flowType)] *)
Definition setFlowCompleteSignal (signal type : option string) (q : Request) : Request :=
  change_context (with_signal signal type) q.

Context {C} `{Cache C}.

(** [stash(token)]: the service is set on the context of the payload, which is
    the object that is stored. *)
Definition stash (now : Z) (token : option Token) (q : Request) (c : C) : Request * C :=
  match q.(q_payload), context_of q with
  | Some p, Some _ =>
      let q := change_context (with_service (str_or p.(y_service) q.(q_service))) q in
      match getKey token, context_of q with
      | Some cacheKey, Some metadata => (q, (cache_add c cacheKey metadata now).1)
      | _, _ => (q, c)
      end
  | _, _ => (q, c)
  end.

(** [get(request)] *)
Definition get (now : Z) (q : Request) (c : C) : Found :=
  match context_of q with
  | Some _ => InPayload
  | None =>
      InCache (match getKey (getToken q) with
               | Some k => match cache_get c k now with Some (Some m) => m | _ => no_metadata end
               | None => no_metadata
               end)
  end.

(** [request.app.metricsContext] *)
Definition metricsContext (now : Z) (q : Request) (c : C) : Request * Metadata :=
  let found := match q.(q_found) with Some f => f | None => get now q c end in
  (set_found (Some found) q,
   match found with InPayload => default no_metadata (context_of q) | InCache m => m end).

(** [propagate(oldToken, newToken)]; [false] is a rejected promise. *)
Definition propagate (now : Z) (oldToken newToken : option Token) (c : C) : C * bool :=
  match getKey oldToken with
  | None => (c, false)
  | Some oldKey =>
      (match cache_get c oldKey now, getKey newToken with
       | Some (Some metadata), Some newKey => (cache_add c newKey metadata now).1
       | _, _ => c
       end, true)
  end.

(** [clear()] *)
Definition clear (now : Z) (q : Request) (c : C) : C * bool :=
  match getToken q with
  | None => (c, true)
  | Some token =>
      match getKey (Some token) with
      | None => (c, false)
      | Some k => let '(c, r) := cache_del c k now in (c, bool_decide (is_Some r))
      end
  end.

(** ** What is logged *)

(** The data of a flow event. *)
Record FlowData := mkFlowData {
  d_event : option string;
  d_country : option string; d_region : option string; d_locale : option string; d_userAgent : option string;
  d_time : option Z;
  d_device_id : option string;
  d_flow_id : option string;
  d_flow_time : num;
  d_flowBeginTime : option Z;
  d_flowCompleteSignal : option string;
  d_flowType : option string;
  d_service : option string;
  d_marketing : Marketing;
  d_uid : option string }.

Definition no_data : FlowData :=
  mkFlowData None None None None None None None None None None None None None no_marketing None.

(** [gather(data)] *)
Definition gather (now : Z) (q : Request) (c : C) (data : FlowData) : Request * FlowData :=
  let '(q, metadata) := metricsContext now q c in
  (q, mkFlowData data.(d_event) data.(d_country) data.(d_region) data.(d_locale) data.(d_userAgent)
        (Some now) metadata.(m_deviceId) metadata.(m_flowId) (calculateFlowTime now metadata.(m_flowBeginTime))
        metadata.(m_flowBeginTime) metadata.(m_flowCompleteSignal) metadata.(m_flowType)
        (str_or metadata.(m_service) data.(d_service))
        (if bool_decide (q.(q_dnt) = Some "1") then data.(d_marketing) else metadata.(m_marketing))
        data.(d_uid)).

End Context.
