(* ===== verification/MetricsEvents.v ===== *)
(** * The events a request logs

    lib/metrics/events.js, over the metrics context ([MetricsContext]), with the
    filters of lib/log.js and the getter [request.app.isMetricsEnabled] of
    lib/server.js.  Calls of amplitude are recorded with the data they are
    given.  Requests have headers. *)

From Stdlib Require Import Ascii.
From stdpp Require Import pretty.
From S2P Require Import Prelude Bytes KeyBundle Firestore MetricsContext.
From S2P Require ScopeValues.

#[local] Open Scope string_scope.
#[local] Open Scope Z_scope.

(** ** Tables *)

Definition ACTIVITY_EVENTS : list string :=
  ["account.changedPassword"; "account.confirmed"; "account.created"; "account.deleted"; "account.keyfetch"; "account.login";
   "account.reset"; "account.signed"; "account.verified"; "device.created"; "device.deleted"; "device.updated";
   "oauth.token.created"; "sync.sentTabToDevice"].

Definition NOT_FLOW_EVENTS : list string :=
  ["account.changedPassword"; "account.deleted"; "device.created"; "device.deleted"; "device.updated"; "sync.sentTabToDevice";
   "token.created"; "verify.success"].

Definition OPTIONAL_FLOW_EVENTS : list string := ["account.keyfetch"; "account.reset"; "account.signed"].

Definition IGNORE_FLOW_EVENTS_FROM_SERVICES : jsobj string := [("account.signed", "content-server")].

Definition IGNORE_ROUTE_FLOW_EVENTS_FOR_PATHS : list string :=
  ["/"; "/__version__"; "/__heartbeat__"; "/__lbheartbeat__"; "/account/devices"; "/account/profile"; "/account/sessions";
   "/certificate/sign"; "/password/forgot/status"; "/recovery_email/status"; "/jwks"; "/introspect"].

(** [/[0-9A-Fa-f]/] on each character *)
Fixpoint hex_chars (s : string) : bool :=
  match s with "" => true | String a s' => bool_decide (is_Some (hex_value a)) && hex_chars s' end.

(** [/^\/recoveryKey\/[0-9A-Fa-f]+$/] *)
Definition IGNORE_ROUTE_FLOW_EVENTS_REGEX (path : string) : bool :=
  match ScopeValues.strip_prefix "/recoveryKey/" path with
  | Some rest => str_truthy rest && hex_chars rest
  | None => false
  end.

(** [path.replace(/^\/v1/, '')] *)
Definition without_prefix (path : string) : string := default path (ScopeValues.strip_prefix "/v1" path).

Definition shouldLogFlowEvent (event : string) (service : option string) : bool :=
  negb (bool_decide (event ∈ NOT_FLOW_EVENTS)) &&
  negb (ostr_truthy service && bool_decide (obj_get IGNORE_FLOW_EVENTS_FROM_SERVICES event = service)).

(** ** The log *)

(** The context amplitude is given; [Pending] is the promise of one. *)
Inductive AmplitudeContext := Ready (data : FlowData) | Pending.

Inductive Entry :=
  | FlowEvent (data : FlowData)
  | ActivityEvent (data : doc)
  | AmplitudeEvent (event : string) (context : AmplitudeContext)
  | ErrorLine (op : string).

(** [log.flowEvent(data)] *)
Definition log_flowEvent (data : FlowData) : list Entry :=
  if ostr_truthy data.(d_event) && ostr_truthy data.(d_flow_id)
     && match data.(d_flow_time) with Some n => negb (n =? 0) | None => false end
     && match data.(d_time) with Some n => negb (n =? 0) | None => false end
  then [FlowEvent data] else [].

(** [log.activityEvent(data)] *)
Definition log_activityEvent (data : doc) : list Entry :=
  if fv_truthy (obj_get data "event") && fv_truthy (obj_get data "uid") then [ActivityEvent data] else [ErrorLine "log.activityEvent"].

(** A field that may be [undefined]. *)
Definition set_opt (d : doc) (k : string) (v : option string) : doc :=
  match v with Some s => obj_set d k (FStr s) | None => obj_delete d k end.

Definition string_of (v : option fval) : option string := match v with Some (FStr s) => Some s | _ => None end.

(** [optionallySetService(data, request)] *)
Definition optionallySetService (data : doc) (q : Request) : doc :=
  if fv_truthy (obj_get data "service") then data
  else set_opt data "service" (str_or (p ← q.(q_payload); p.(y_service)) q.(q_service)).

(** [coalesceUid(data, request)] *)
Definition coalesceUid (data : option doc) (q : Request) : option string :=
  str_or (string_of (d ← data; obj_get d "uid")) (c ← q.(q_credentials); c.(r_uid)).

Definition emitActivityEvent (event : string) (q : Request) (data : option doc) : list Entry :=
  let base := set_opt (set_opt (obj_set (set_opt [] "country" q.(q_country)) "event" (FStr event)) "region" q.(q_region))
                "userAgent" q.(q_userAgent) in
  log_activityEvent (optionallySetService (assign base (default [] data)) q).

(** ** Opting out (server.js)

    [findByPrimaryEmail] is the account of an address, if there is one;
    [metricsEnabled] reads the column of an account. *)
Record Accounts := mkAccounts { findByPrimaryEmail : string -> option string; metricsEnabled : string -> bool }.

Definition check_metrics (accounts : Accounts) (q : Request) : bool :=
  let uid :=
    match q.(q_credentials) with
    | Some c =>
        if ostr_truthy c.(r_uid) then inr (match c.(r_optOutAt) with Some t => t =? 0 | None => true end)
        else if ostr_truthy c.(r_user) then inl c.(r_user) else inl None
    | None => inl None
    end in
  match uid with
  | inr enabled => enabled
  | inl uid =>
      let payload_uid := p ← q.(q_payload); p.(y_uid) in
      let artifact_uid := default None q.(q_artifacts) in
      let uid :=
        if ostr_truthy uid then uid
        else if ostr_truthy payload_uid then payload_uid
        else if ostr_truthy artifact_uid then artifact_uid
        else match (p ← q.(q_payload); p.(y_email)) with
             | Some email => if str_truthy email then accounts.(findByPrimaryEmail) email else None
             | None => None
             end in
      match uid with Some u => if str_truthy u then accounts.(metricsEnabled) u else true | None => true end
  end.

(** [request.app.isMetricsEnabled] *)
Definition isMetricsEnabled (accounts : Accounts) (q : Request) : Request * bool :=
  let b := match q.(q_enabled) with Some b => b | None => check_metrics accounts q end in (set_enabled (Some b) q, b).

(** ** events.js *)

Section Events.
Context `{Crypto} (config : MetricsConfig) (digest : string -> string) (accounts : Accounts) {C} `{Cache C}.

(** [emitFlowEvent(event, request, optionalData)] *)
Definition emitFlowEvent (now : Z) (event : string) (q : Request) (c : C) (optionalData : option doc) : Request * FlowData * list Entry :=
  let '(q, data) :=
    gather digest now q c (mkFlowData (Some event) q.(q_country) q.(q_region) q.(q_locale) q.(q_userAgent)
                             None None None None None None None None no_marketing None) in
  if ostr_truthy data.(d_flow_id) then
    let uid := coalesceUid optionalData q in
    let data := if ostr_truthy uid then
                  mkFlowData data.(d_event) data.(d_country) data.(d_region) data.(d_locale) data.(d_userAgent) data.(d_time)
                    data.(d_device_id) data.(d_flow_id) data.(d_flow_time) data.(d_flowBeginTime) data.(d_flowCompleteSignal)
                    data.(d_flowType) data.(d_service) data.(d_marketing) uid
                else data in
    (q, data, log_flowEvent data)
  else (q, data, if bool_decide (event ∈ OPTIONAL_FLOW_EVENTS) || is_proto_name event then [] else [ErrorLine "metricsEvents.emitFlowEvent"]).

(** The same data under another event. *)
Definition with_event (event : string) (data : FlowData) : FlowData :=
  mkFlowData (Some event) data.(d_country) data.(d_region) data.(d_locale) data.(d_userAgent) data.(d_time)
    data.(d_device_id) data.(d_flow_id) data.(d_flow_time) data.(d_flowBeginTime) data.(d_flowCompleteSignal)
    data.(d_flowType) data.(d_service) data.(d_marketing) data.(d_uid).

Definition with_flow_time (t : num) (data : FlowData) : FlowData :=
  mkFlowData data.(d_event) data.(d_country) data.(d_region) data.(d_locale) data.(d_userAgent) data.(d_time)
    data.(d_device_id) data.(d_flow_id) t data.(d_flowBeginTime) data.(d_flowCompleteSignal)
    data.(d_flowType) data.(d_service) data.(d_marketing) data.(d_uid).

(** [if (data && data.uid && request.auth && request.auth.artifacts)] *)
Definition note_uid (data : option doc) (q : Request) : Request :=
  let uid := d ← data; obj_get d "uid" in
  match q.(q_artifacts) with
  | Some _ => if fv_truthy uid then set_artifacts (Some (string_of uid)) q else q
  | None => q
  end.

(** [emit(event, data)]; [false] is a rejected promise. *)
Definition emit (now : Z) (event : string) (data : option doc) (q : Request) (c : C) : Request * C * list Entry * bool :=
  if negb (str_truthy event) then (q, c, [ErrorLine "metricsEvents.emit"], true)
  else
    let q := note_uid data q in
    let '(q, enabled) := isMetricsEnabled accounts q in
    if negb enabled then (q, c, [], true)
    else
      let activity := if bool_decide (event ∈ ACTIVITY_EVENTS) then emitActivityEvent event q data else [] in
      if shouldLogFlowEvent event q.(q_service) then
        let '(q, flow, entries) := emitFlowEvent now event q c data in
        let log := (activity ++ entries ++ [AmplitudeEvent event (Ready flow)])%list in
        if bool_decide (flow.(d_flowCompleteSignal) = Some event) then
          let log := (log ++ log_flowEvent (with_event "flow.complete" flow) ++ [AmplitudeEvent "flow.complete" (Ready flow)])%list in
          let '(c, ok) := clear digest now q c in (q, c, log, ok)
        else (q, c, log, true)
      else
        let '(q, _) := gather digest now q c no_data in
        (q, c, (activity ++ [AmplitudeEvent event Pending])%list, true).

(** The numbers of a response: [statusCode], and [errno] of an error. *)
Record Reply := mkReply { rp_status : Z; rp_errno : option Z }.

Definition INVALID_PARAMETER : Z := 107.

(** [emitRouteFlowEvent(response)] *)
Definition emitRouteFlowEvent (now : Z) (r : Reply) (q : Request) (c : C) : Request * list Entry :=
  let path := without_prefix q.(q_path) in
  if (r.(rp_status) =? 404) || bool_decide (path ∈ IGNORE_ROUTE_FLOW_EVENTS_FOR_PATHS) || IGNORE_ROUTE_FLOW_EVENTS_REGEX path
  then (q, [])
  else
    let errno := match r.(rp_errno) with Some e => if e =? 0 then None else Some e | None => None end in
    let '(q, valid) :=
      if (400 <=? r.(rp_status)) && bool_decide (errno = Some INVALID_PARAMETER) then validate config now q else (q, true) in
    if negb valid then (q, [])
    else
      let status := if 400 <=? r.(rp_status) then pretty r.(rp_status) ++ "." ++ pretty (default 999 errno)
                    else pretty r.(rp_status) in
      let '(q, data, entries) := emitFlowEvent now ("route." ++ path ++ "." ++ status) q c None in
      (q, if (200 <=? r.(rp_status)) && (r.(rp_status) <? 300)
          then (entries ++ log_flowEvent (with_flow_time (Some q.(q_duration)) (with_event ("route.performance." ++ path) data)))%list
          else entries).

End Events.
