(* ===== verification/MetricsLaws.v ===== *)
(** * Theorems on metrics contexts and events

    The two servers agree on flow ids, a forged flow id is never logged or
    stored, and what was stashed first for a token stays for the flow. *)

From Stdlib Require Import Ascii.
From S2P Require Import Prelude Text Bytes KeyBundle Firestore MetricsContext MetricsEvents.

#[local] Open Scope string_scope.
#[local] Open Scope Z_scope.

(** ** Strings as lists of characters *)

Abbreviation chars := String.list_ascii_of_string.
Abbreviation of_chars := String.string_of_list_ascii.

Lemma chars_app s t : chars (s ++ t) = (chars s ++ chars t)%list.
Proof. induction s as [|a s IH]; [done|]. change (a :: chars (s ++ t) = a :: (chars s ++ chars t))%list. by f_equal. Qed.

Lemma chars_length s : length (chars s) = String.length s.
Proof. induction s as [|a s IH]; cbn; [done|]. by rewrite IH. Qed.

Lemma chars_inj s t : chars s = chars t -> s = t.
Proof. intros E. by rewrite <- (String.string_of_list_ascii_of_string s), E, String.string_of_list_ascii_of_string. Qed.

Lemma chars_substring n m s : chars (String.substring n m s) = take m (drop n (chars s)).
Proof.
  revert n m. induction s as [|a s IH]; intros n m; cbn.
  - destruct n, m; cbn; by rewrite ?drop_nil, ?take_nil.
  - destruct n as [|n]; [destruct m as [|m]; cbn; [done|]|apply IH]. by rewrite (IH 0%nat).
Qed.

Lemma chars_substr_from n s : chars (substr_from n s) = drop n (chars s).
Proof. unfold substr_from. rewrite chars_substring. apply take_ge. rewrite length_drop, chars_length. lia. Qed.

(** ** Lower case hexadecimal text *)

(** [/^([0-9a-f]{2})*$/] *)
Fixpoint lower_hex (s : string) : bool :=
  match s with
  | "" => true
  | String a (String b s') =>
      match hex_value a, hex_value b with
      | Some x, Some y => bool_decide (hex_digit x = a) && bool_decide (hex_digit y = b) && lower_hex s'
      | _, _ => false
      end
  | _ => false
  end.

Lemma two_chars (P : string -> Prop) :
  P "" -> (forall a, P (String a "")) -> (forall a b s, P s -> P (String a (String b s))) -> forall s, P s.
Proof.
  intros H0 H1 H2 s. enough (P s /\ forall a, P (String a s)) by tauto.
  induction s as [|b s [IH IHs]]; [auto|]. split; [apply IHs|]. intros a. by apply H2.
Qed.

Lemma to_from_hex s : lower_hex s = true -> to_hex (from_hex s) = s.
Proof.
  induction s as [| |a b s IH] using two_chars; cbn; [done|done|].
  destruct (hex_value a) as [x|] eqn:Ex; [|done]. destruct (hex_value b) as [y|] eqn:Ey; [|done].
  intros [[Ha Hb]%andb_true_iff Hs]%andb_true_iff. apply bool_decide_eq_true in Ha, Hb.
  apply hex_value_bound in Ex, Ey. cbn. rewrite IH by done.
  rewrite <- (Z.div_unique (16 * x + y) 16 x y), <- (Z.mod_unique (16 * x + y) 16 x y) by lia. by rewrite Ha, Hb.
Qed.

Lemma lower_hex_pairs s : lower_hex s = true -> hex_pairs s = true.
Proof.
  induction s as [| |a b s IH] using two_chars; cbn; [done|done|].
  destruct (hex_value a), (hex_value b); try done. intros [_ Hs]%andb_true_iff. by rewrite !bool_decide_eq_true_2, IH by eauto.
Qed.

Lemma lower_to_hex l : bytes l -> lower_hex (to_hex l) = true.
Proof.
  induction 1 as [|b l Hb _ IH]; cbn; [done|]. apply nibbles in Hb as [H1 H2].
  rewrite !hex_value_digit by done. by rewrite !bool_decide_eq_true_2.
Qed.

(** Upper case digits have the same values. *)
Lemma hex_value_lower a : hex_value (lower_char a) = hex_value a.
Proof. destruct a as [[] [] [] [] [] [] [] []]; reflexivity. Qed.

Lemma hex_digit_lower a x : hex_value a = Some x -> hex_digit x = lower_char a.
Proof. destruct a as [[] [] [] [] [] [] [] []]; vm_compute; intros E; (discriminate E || injection E as <-; reflexivity). Qed.

Lemma from_hex_lower s : from_hex (toLowerCase s) = from_hex s.
Proof.
  unfold toLowerCase. induction s as [| |a b s IH] using two_chars; cbn -[lower_char]; [done..|].
  by rewrite !hex_value_lower, IH.
Qed.

Lemma hex_pairs_lower s : hex_pairs s = lower_hex (toLowerCase s).
Proof.
  unfold toLowerCase. induction s as [| |a b s IH] using two_chars; cbn -[lower_char hex_digit]; [done..|].
  rewrite !hex_value_lower, <- IH. destruct (hex_value a) as [x|] eqn:Ex; [|by rewrite bool_decide_eq_false_2 by (by intros [? ?])].
  destruct (hex_value b) as [y|] eqn:Ey; [|by rewrite (bool_decide_eq_false_2 (is_Some None)), andb_false_r by (by intros [? ?])].
  by rewrite !bool_decide_eq_true_2 by (eauto using hex_digit_lower).
Qed.

Lemma hex_pairs_drop n s : hex_pairs s = true -> hex_pairs (of_chars (drop (2 * n) (chars s))) = true.
Proof.
  revert s. induction n as [|n IH]; intros s.
  { change (2 * 0)%nat with 0%nat. rewrite drop_0. by rewrite String.string_of_list_ascii_of_string. }
  replace (2 * S n)%nat with (S (S (2 * n))) by lia. destruct s as [|a [|b s]]; [done|done|]. cbn -[Nat.mul].
  intros [_ Hs]%andb_true_iff. by apply IH.
Qed.

Lemma lower_hex_lowered s : lower_hex s = true -> toLowerCase s = s.
Proof.
  unfold toLowerCase. induction s as [| |a b s IH] using two_chars; cbn -[lower_char hex_digit]; [done..|].
  destruct (hex_value a) as [x|] eqn:Ex; [|done]. destruct (hex_value b) as [y|] eqn:Ey; [|done].
  intros [[Ha%bool_decide_eq_true Hb%bool_decide_eq_true]%andb_true_iff Hs]%andb_true_iff.
  by rewrite IH, <- (hex_digit_lower _ _ Ex), <- (hex_digit_lower _ _ Ey), Ha, Hb by done.
Qed.

Lemma chars_to_hex_take n l : chars (to_hex (take n l)) = take (2 * n) (chars (to_hex l)).
Proof.
  revert n. induction l as [|b l IH]; intros n; [rewrite take_nil; cbn -[Nat.mul]; by rewrite take_nil|].
  destruct n as [|n]; [done|]. replace (2 * S n)%nat with (S (S (2 * n))) by lia. cbn -[Nat.mul]. by rewrite IH.
Qed.

(** ** Flow ids *)

Section FlowIds.
Context `{CryptoLaws}.

(** The first half of the HMAC of a salt and a time. *)
Definition signature (key salt : string) (begin : Z) : list Z :=
  take SALT_SIZE (HMAC (text_bytes key) (text_bytes (salt ++ newline ++ toString16 begin))).

Lemma signature_length key salt begin : length (signature key salt begin) = 16%nat.
Proof. unfold signature. rewrite length_take, HMAC_length. done. Qed.

Lemma signature_bytes key salt begin : bytes (signature key salt begin).
Proof. apply Forall_take, HMAC_bytes. Qed.

Lemma created_flow key salt begin : createFlowEventData key salt begin = (begin, salt ++ to_hex (signature key salt begin)).
Proof.
  unfold createFlowEventData. do 2 f_equal. apply chars_inj. rewrite chars_substring, drop_0. unfold signature. by rewrite chars_to_hex_take.
Qed.

Lemma flow_signature salt s : String.length salt = 32%nat -> getFlowSignature (salt ++ s) = s.
Proof.
  intros Hl. apply chars_inj. unfold getFlowSignature. rewrite chars_substr_from, chars_app, drop_app_length'; [done|].
  by rewrite chars_length, Hl.
Qed.

Lemma salt_of flowId : String.length flowId = 64%nat -> String.length (String.substring 0 SALT_STRING_LENGTH flowId) = 32%nat.
Proof. intros Hl. rewrite <- chars_length, chars_substring, drop_0, length_take, chars_length, Hl. done. Qed.

(** The content server's test compares the second half of an id with the
    signature of the first. *)
Lemma validate_flow_spec key flowId begin : String.length flowId = 64%nat ->
  validate_flow key flowId begin = true <->
  getFlowSignature flowId = to_hex (signature key (String.substring 0 SALT_STRING_LENGTH flowId) begin).
Proof.
  intros Hl. unfold validate_flow. rewrite created_flow. cbn [snd]. rewrite flow_signature by (by apply salt_of).
  apply String.eqb_eq.
Qed.

(** The auth server reads the same half. *)
Lemma second_half flowId : String.length flowId = 64%nat ->
  String.substring (FLOW_ID_LENGTH / 2) FLOW_ID_LENGTH flowId = getFlowSignature flowId.
Proof.
  intros Hl. apply chars_inj. unfold getFlowSignature. rewrite chars_substring, chars_substr_from. apply take_ge.
  rewrite length_drop, chars_length, Hl. change (32 <= 64)%nat. lia.
Qed.

Lemma lower_length s : String.length (toLowerCase s) = String.length s.
Proof. unfold toLowerCase. induction s; cbn; congruence. Qed.

(** A flow id with its signature in lower case. *)
Definition lower_signature (flowId : string) : string :=
  String.substring 0 SALT_STRING_LENGTH flowId ++ toLowerCase (getFlowSignature flowId).

Lemma halves flowId : String.length flowId = 64%nat -> String.substring 0 SALT_STRING_LENGTH flowId ++ getFlowSignature flowId = flowId.
Proof.
  intros Hl. apply chars_inj. unfold getFlowSignature. rewrite chars_app, chars_substring, chars_substr_from, drop_0. apply take_drop.
Qed.

Lemma half_length flowId : String.length flowId = 64%nat -> String.length (getFlowSignature flowId) = 32%nat.
Proof. intros Hl. unfold getFlowSignature. by rewrite <- chars_length, chars_substr_from, length_drop, chars_length, Hl. Qed.

Lemma length_append s t : String.length (s ++ t) = (String.length s + String.length t)%nat.
Proof. by rewrite <- !chars_length, chars_app, length_app. Qed.

Lemma salt_append salt s : String.length salt = 32%nat -> String.substring 0 SALT_STRING_LENGTH (salt ++ s) = salt.
Proof. intros Hl. apply chars_inj. by rewrite chars_substring, chars_app, drop_0, take_app_length' by (by rewrite chars_length, Hl). Qed.

Lemma validate_lowered key flowId begin : String.length flowId = 64%nat ->
  validate_flow key (lower_signature flowId) begin = true <->
  toLowerCase (getFlowSignature flowId) = to_hex (signature key (String.substring 0 SALT_STRING_LENGTH flowId) begin).
Proof.
  intros Hl. pose proof (salt_of flowId Hl) as Hs. unfold lower_signature. rewrite validate_flow_spec.
  - by rewrite flow_signature, salt_append by done.
  - by rewrite length_append, lower_length, half_length, Hs by done.
Qed.

(** The auth server's comparison of bytes. *)
Lemma same_signature flowId sig : bytes sig -> String.length flowId = 64%nat -> hex_pairs flowId = true ->
  buffersAreEqual (Hex (getFlowSignature flowId)) (Buf sig) = true <-> toLowerCase (getFlowSignature flowId) = to_hex sig.
Proof.
  intros Hsig Hl Hhex. assert (hex_pairs (getFlowSignature flowId) = true) as Hs.
  { replace (getFlowSignature flowId) with (of_chars (drop (2 * 16) (chars flowId))); [by apply hex_pairs_drop|].
    apply chars_inj. rewrite String.list_ascii_of_string_of_list_ascii. symmetry. apply chars_substr_from. }
  rewrite hex_pairs_lower in Hs. rewrite buffersAreEqual_spec. cbn. rewrite <- from_hex_lower. split.
  - intros <-. by rewrite to_from_hex.
  - intros ->. by apply from_to_hex.
Qed.

(** The begin time is set and recent. *)
Definition in_time (config : MetricsConfig) (now begin : Z) : Prop := begin <> 0 /\ begin < now <= begin + config.(flow_id_expiry).

Lemma validate_exact (config : MetricsConfig) now q m flowId begin :
  context_of q = Some m -> m.(m_flowId) = Some flowId -> m.(m_flowBeginTime) = Some begin ->
  String.length flowId = 64%nat ->
  (validate config now q).2 = true <->
  in_time config now begin /\ lower_hex (toLowerCase flowId) = true /\ validate_flow config.(flow_id_key) (lower_signature flowId) begin = true.
Proof.
  intros Hm Hid Hb Hl.
  unfold validate, invalid_reason. unfold context_of in Hm. destruct (q_payload q) as [p|]; [cbn in Hm|done]. rewrite Hm, Hid, Hb.
    assert (str_truthy flowId = true) as Ht by (destruct flowId; done). rewrite Ht. cbn [negb].
    destruct (Z.eqb_spec begin 0); [split; [done|unfold in_time; tauto]|].
    destruct (Z.ltb_spec config.(flow_id_expiry) (now - begin)); [split; [done|unfold in_time; lia]|].
    destruct (Z.leb_spec (now - begin) 0); [split; [done|unfold in_time; lia]|]. cbn [orb].
    assert (in_time config now begin) as Hin by (unfold in_time; lia).
    unfold HEX_STRING. rewrite Ht, <- hex_pairs_lower. cbn [andb]. destruct (hex_pairs flowId) eqn:Hhex; cbn [negb snd]; [|naive_solver].
    rewrite second_half, validate_lowered by done.
    change (calculateFlowSignatureBytes config flowId begin)
      with (signature config.(flow_id_key) (String.substring 0 SALT_STRING_LENGTH flowId) begin).
    pose proof (same_signature flowId _ (signature_bytes config.(flow_id_key) (String.substring 0 SALT_STRING_LENGTH flowId) begin) Hl Hhex) as Hsame.
    destruct (buffersAreEqual _ _); cbn [negb snd]; naive_solver.
Qed.

(** The content server refuses the id with its signature in another case,
    which the auth server accepts like the original. *)
Theorem capital_signature_differs (config : MetricsConfig) now q m flowId begin signed :
  context_of q = Some m -> m.(m_flowId) = Some (String.substring 0 SALT_STRING_LENGTH flowId ++ signed) -> m.(m_flowBeginTime) = Some begin ->
  String.length flowId = 64%nat -> lower_hex flowId = true -> validate_flow config.(flow_id_key) flowId begin = true ->
  toLowerCase signed = getFlowSignature flowId -> signed <> getFlowSignature flowId -> in_time config now begin ->
  (validate config now q).2 = true /\
  validate_flow config.(flow_id_key) (String.substring 0 SALT_STRING_LENGTH flowId ++ signed) begin = false.
Proof.
  intros Hm Hid Hb Hl Hhex Hv Hlow Hne Hin. pose proof (salt_of flowId Hl) as Hs.
  assert (String.length (String.substring 0 SALT_STRING_LENGTH flowId ++ signed) = 64%nat) as Hl'.
  { rewrite length_append, Hs, <- (lower_length signed), Hlow, half_length by done. done. }
  split.
  - eapply validate_exact; [done..|]. split; [done|]. split.
    + unfold toLowerCase. rewrite smap_app. change (smap lower_char) with toLowerCase. rewrite Hlow.
      rewrite <- (lower_hex_lowered _ Hhex) in Hhex. rewrite <- (halves flowId Hl) in Hhex. unfold toLowerCase in Hhex.
      rewrite smap_app in Hhex. change (smap lower_char) with toLowerCase in Hhex. by rewrite <- Hlow, lower_idem, Hlow in Hhex.
    + unfold lower_signature. by rewrite salt_append, flow_signature, Hlow, halves by done.
  - apply not_true_iff_false. intros Hw. apply Hne. rewrite validate_flow_spec, flow_signature, salt_append in Hw by done.
    rewrite validate_flow_spec in Hv by done. congruence.
Qed.

(** [C20] What the two servers accept as a flow id of 64 characters.  The auth
    server's [validate] returns true exactly when the begin time is set and lies
    in the last [flow_id_expiry] milliseconds, the present one excluded, the
    id is hexadecimal in either case, and the content server's own test
    accepts, under the same key, the id with its signature in lower case.  So
    on the ids that the content server's pattern asks for, in lower case, the
    two tests agree; and the content server's test accepts every id that
    [create] makes, which is in lower case. *)
Theorem flow_id_servers_agree (config : MetricsConfig) now q m flowId begin :
  context_of q = Some m -> m.(m_flowId) = Some flowId -> m.(m_flowBeginTime) = Some begin ->
  String.length flowId = 64%nat ->
  ((validate config now q).2 = true <->
   in_time config now begin /\ lower_hex (toLowerCase flowId) = true /\ validate_flow config.(flow_id_key) (lower_signature flowId) begin = true) /\
  (lower_hex flowId = true ->
   (validate config now q).2 = true <-> in_time config now begin /\ validate_flow config.(flow_id_key) flowId begin = true) /\
  (forall random, bytes random -> length random = SALT_SIZE ->
   let made := create config.(flow_id_key) random begin in
   made.1 = begin /\ String.length made.2 = 64%nat /\ lower_hex made.2 = true /\ validate_flow config.(flow_id_key) made.2 begin = true).
Proof.
  intros Hm Hid Hb Hl. assert ((validate config now q).2 = true <->
   in_time config now begin /\ lower_hex (toLowerCase flowId) = true /\ validate_flow config.(flow_id_key) (lower_signature flowId) begin = true) as Hall.
  { by eapply validate_exact. }
  split; [done|]. split.
  - intros Hhex. rewrite Hall. pose proof (lower_hex_lowered _ Hhex) as Hlow. rewrite Hlow.
    assert (lower_signature flowId = flowId) as ->; [|naive_solver].
    unfold lower_signature. rewrite <- (halves flowId Hl) at 3. f_equal.
    rewrite <- (halves flowId Hl) in Hlow at 1. unfold toLowerCase in Hlow. rewrite smap_app in Hlow.
    apply (f_equal getFlowSignature) in Hlow. rewrite flow_signature in Hlow; [done|].
    change (smap lower_char) with toLowerCase. rewrite lower_length. by apply salt_of.
  - intros random Hr Hrl. cbn zeta. unfold create. rewrite created_flow. cbn [fst snd].
    assert (String.length (to_hex random) = 32%nat) as Hsl by (rewrite to_hex_length, Hrl; done).
    assert (String.length (to_hex random ++ to_hex (signature config.(flow_id_key) (to_hex random) begin)) = 64%nat) as Hl64.
    { rewrite <- to_hex_app, to_hex_length, length_app, signature_length, Hrl. done. }
    split_and!; [done|done| |].
    + rewrite <- to_hex_app. apply lower_to_hex, Forall_app_2; [done|apply signature_bytes].
    + rewrite validate_flow_spec by done. by rewrite flow_signature, salt_append by done.
Qed.
End FlowIds.

(** ** Requests and the cache *)

(** What the handler of a request does with metrics. *)
Inductive MetricsOp :=
  | OpValidate
  | OpSignal (signal type : option string)
  | OpStash (token : option Token)
  | OpPropagate (oldToken newToken : option Token)
  | OpEmit (event : string) (data : option doc)
  | OpRoute (reply : Reply).

Section Runs.
Context `{Crypto} (config : MetricsConfig) (digest : string -> string) (accounts : Accounts) {C} `{CacheLaws C}.

Definition run_op (now : Z) (op : MetricsOp) (q : Request) (c : C) : Request * C * list Entry :=
  match op with
  | OpValidate => ((validate config now q).1, c, [])
  | OpSignal signal type => (setFlowCompleteSignal signal type q, c, [])
  | OpStash token => (stash digest now token q c, [])
  | OpPropagate oldToken newToken => (q, (propagate digest now oldToken newToken c).1, [])
  | OpEmit event data => let '(q, c, log, _) := emit digest accounts now event data q c in (q, c, log)
  | OpRoute reply => let '(q, log) := emitRouteFlowEvent config digest now reply q c in (q, c, log)
  end.

(** The handler of one request: its steps with their times. *)
Fixpoint run_ops (ops : list (Z * MetricsOp)) (q : Request) (c : C) : Request * C * list Entry :=
  match ops with
  | [] => (q, c, [])
  | (now, op) :: ops =>
      let '(q, c, log) := run_op now op q c in
      let '(q, c, log') := run_ops ops q c in (q, c, (log ++ log')%list)
  end.

(** *** Forged flow ids *)

(** A request with a context of its own and no flow id in it. *)
Definition flowless (q : Request) : Prop :=
  (exists m, context_of q = Some m /\ m.(m_flowId) = None) /\ (q.(q_found) = None \/ q.(q_found) = Some InPayload).

Definition unlogged (log : list Entry) : Prop := forall data, FlowEvent data ∉ log.

Lemma unlogged_app l k : unlogged l -> unlogged k -> unlogged (l ++ k)%list.
Proof. intros Hl Hk data [?|?]%elem_of_app; [by eapply Hl|by eapply Hk]. Qed.

Lemma unlogged_nil : unlogged [].
Proof. intros data. apply not_elem_of_nil. Qed.

Lemma unlogged_one e : (forall data, e <> FlowEvent data) -> unlogged [e].
Proof. intros He data Hin%list_elem_of_singleton. by eapply He. Qed.

Lemma context_changed f q : context_of (change_context f q) = f <$> context_of q.
Proof. unfold context_of, change_context. cbn. by destruct (q_payload q). Qed.

Lemma flowless_change f q : (forall m, m.(m_flowId) = None -> (f m).(m_flowId) = None) -> flowless q -> flowless (change_context f q).
Proof.
  intros Hf [(m & Hm & Hid) Hfound]. split; [|done]. exists (f m). rewrite context_changed, Hm. auto.
Qed.

Lemma flowless_context now q (c : C) : flowless q ->
  flowless (metricsContext digest now q c).1 /\ (metricsContext digest now q c).2.(m_flowId) = None.
Proof.
  intros [(m & Hm & Hid) Hfound]. unfold metricsContext. cbn [fst snd].
  assert (match q.(q_found) with Some f => f | None => get digest now q c end = InPayload) as ->.
  { destruct Hfound as [-> | ->]; [|done]. unfold get. by rewrite Hm. }
  rewrite Hm. split; [|done]. split; [by exists m|by right].
Qed.

Lemma unlogged_flow data : data.(d_flow_id) = None -> log_flowEvent data = [].
Proof. intros E. unfold log_flowEvent. rewrite E. cbn [ostr_truthy]. by rewrite andb_false_r. Qed.

Lemma flowless_emitFlow now event q (c : C) data q' d log : flowless q ->
  emitFlowEvent digest now event q c data = (q', d, log) -> flowless q' /\ d.(d_flow_id) = None /\ unlogged log.
Proof.
  intros Hq. unfold emitFlowEvent, gather. destruct (flowless_context now q c Hq) as [Hq' Hid].
  destruct (metricsContext digest now q c) as [q1 m]. cbn [fst snd] in *. cbn -[ostr_truthy]. rewrite Hid. cbn [ostr_truthy].
  intros [= <- <- <-]. split; [done|]. split; [done|]. destruct (_ || _); [apply unlogged_nil|by apply unlogged_one].
Qed.

Lemma flowless_validate now q : flowless q -> flowless (validate config now q).1.
Proof.
  intros Hq. unfold validate. destruct (invalid_reason _ _ _); [|done]. by apply flowless_change.
Qed.

Lemma flowless_enabled b q : flowless q -> flowless (set_enabled b q).
Proof. done. Qed.

Lemma flowless_note data q : flowless q -> flowless (note_uid data q).
Proof. intros Hq. unfold note_uid. destruct (q_artifacts q); [|done]. by destruct (fv_truthy _). Qed.

Lemma unlogged_activity event q data : unlogged (emitActivityEvent event q data).
Proof. unfold emitActivityEvent, log_activityEvent. destruct (_ && _); by apply unlogged_one. Qed.

Lemma flowless_emit now event data q (c : C) q' c' log ok : flowless q ->
  emit digest accounts now event data q c = (q', c', log, ok) -> flowless q' /\ unlogged log.
Proof.
  intros Hq. unfold emit. destruct (negb _); [intros [= <- _ <- _]; split; [done|by apply unlogged_one]|].
  apply (flowless_note data) in Hq. unfold isMetricsEnabled. set (b := match q_enabled _ with Some b => b | None => _ end).
  apply (flowless_enabled (Some b)) in Hq. revert Hq. generalize (set_enabled (Some b) (note_uid data q)). intros q1 Hq.
  destruct (negb b); [intros [= <- _ <- _]; split; [done|apply unlogged_nil]|].
  set (activity := if bool_decide _ then _ else _).
  assert (unlogged activity) as Ha by (unfold activity; destruct (bool_decide _); [apply unlogged_activity|apply unlogged_nil]).
  clearbody activity. destruct (shouldLogFlowEvent _ _).
  - destruct (emitFlowEvent _ _ _ _ _ _) as [[q2 flow] entries] eqn:E. apply flowless_emitFlow in E as (Hq2 & Hid & He); [|done].
    assert (unlogged (activity ++ entries ++ [AmplitudeEvent event (Ready flow)])%list) as Hl.
    { apply unlogged_app; [done|]. apply unlogged_app; [done|by apply unlogged_one]. }
    destruct (bool_decide _); [|intros [= <- _ <- _]; done]. rewrite (unlogged_flow (with_event _ _)) by done.
    destruct (clear _ _ _ _) as [c2 ok2]. intros [= <- _ <- _]. split; [done|]. apply unlogged_app; [done|by apply unlogged_one].
  - unfold gather. destruct (flowless_context now q1 c Hq) as [Hq2 _]. destruct (metricsContext _ _ _ _) as [q2 m].
    intros [= <- _ <- _]. split; [done|]. apply unlogged_app; [done|by apply unlogged_one].
Qed.

Lemma flowless_route now reply q (c : C) q' log : flowless q ->
  emitRouteFlowEvent config digest now reply q c = (q', log) -> flowless q' /\ unlogged log.
Proof.
  intros Hq. unfold emitRouteFlowEvent. destruct (_ || _); [intros [= <- <-]; split; [done|apply unlogged_nil]|].
  set (v := if _ && _ then validate config now q else (q, true)).
  assert (flowless v.1) as Hv by (unfold v; destruct (_ && _); [by apply flowless_validate|done]). destruct v as [q1 valid]. cbn in Hv.
  destruct (negb valid); [intros [= <- <-]; split; [done|apply unlogged_nil]|].
  destruct (emitFlowEvent _ _ _ _ _ _) as [[q2 d] entries] eqn:E. apply flowless_emitFlow in E as (Hq2 & Hid & He); [|done].
  intros [= <- <-]. split; [done|]. destruct (_ && _); [|done].
  rewrite unlogged_flow by done. by rewrite app_nil_r.
Qed.

Lemma flowless_stash now token q (c : C) : flowless q -> flowless (stash digest now token q c).1.
Proof.
  intros Hq. unfold stash. destruct (q_payload q) as [p|]; [|done]. destruct (context_of q) as [m|]; [|done].
  destruct (getKey _ _); [|by apply flowless_change]. destruct (context_of (change_context _ _)); by apply flowless_change.
Qed.

Lemma flowless_op now op q (c : C) q' c' log : flowless q -> run_op now op q c = (q', c', log) -> flowless q' /\ unlogged log.
Proof.
  intros Hq. destruct op as [|signal type|token|old new|event data|reply]; cbn.
  - intros [= <- _ <-]. split; [by apply flowless_validate|apply unlogged_nil].
  - intros [= <- _ <-]. split; [by apply flowless_change|apply unlogged_nil].
  - intros E. pose proof (flowless_stash now token q c Hq). destruct (stash _ _ _ _ _) as [q1 c1]. injection E as <- _ <-.
    split; [done|apply unlogged_nil].
  - intros [= <- _ <-]. split; [done|apply unlogged_nil].
  - destruct (emit _ _ _ _ _ _ _) as [[[q1 c1] l] ok] eqn:E. intros [= <- _ <-]. by eapply flowless_emit.
  - destruct (emitRouteFlowEvent _ _ _ _ _ _) as [q1 l] eqn:E. intros [= <- _ <-]. by eapply flowless_route.
Qed.

(** *** The flow ids of the cache *)

Definition held_flow (c : C) (t : Z) (f : string) : Prop := exists k m, cached c t !! k = Some m /\ m.(m_flowId) = Some f.

Lemma held_flow_add now k v (c : C) t f : now <= t -> held_flow (cache_add c k v now).1 t f ->
  held_flow c t f \/ v.(m_flowId) = Some f.
Proof.
  intros Ht (j & m & Hj & Hm). destruct (cache_add c k v now) as [c' r] eqn:E.
  destruct (cache_add_free _ _ _ _ _ _ t E Ht j m Hj) as [Hc|[-> ->]]; [|by right]. left. by exists j, m.
Qed.

Lemma held_flow_later (c : C) t t' f : t <= t' -> held_flow c t' f -> held_flow c t f.
Proof. intros Ht (k & m & Hk & Hm). exists k, m. split; [|done]. eapply lookup_weaken; [done|]. by apply cached_expires. Qed.

Lemma held_flow_clear now q (c : C) t f : now <= t -> held_flow (clear digest now q c).1 t f -> held_flow c t f.
Proof.
  intros Ht. unfold clear. destruct (getToken q); [|done]. destruct (getKey _ _); [|done].
  destruct (cache_del c s now) as [c' r] eqn:E. cbn. intros (k & m & Hk & Hm). exists k, m. split; [|done].
  eapply lookup_weaken; [done|]. by eapply cache_del_less.
Qed.

Lemma emitFlow_token now event q (c : C) data q' d log : emitFlowEvent digest now event q c data = (q', d, log) -> getToken q' = getToken q.
Proof. unfold emitFlowEvent, gather, metricsContext. by destruct (ostr_truthy _); intros [= <- _ _]. Qed.

Lemma enabled_token data q : getToken (isMetricsEnabled accounts (note_uid data q)).1 = getToken q.
Proof. unfold note_uid. destruct (q_artifacts q); [|done]. by destruct (fv_truthy _). Qed.

Lemma emit_cache now event data q (c : C) q' c' log ok : emit digest accounts now event data q c = (q', c', log, ok) ->
  c' = c \/ (exists q1, c' = (clear digest now q1 c).1 /\ getToken q1 = getToken q) /\ exists ctx, AmplitudeEvent "flow.complete" ctx ∈ log.
Proof.
  unfold emit. destruct (negb _); [intros [= _ <- _ _]; by left|]. destruct (isMetricsEnabled _ _) as [q1 b] eqn:E1.
  destruct (negb b); [intros [= _ <- _ _]; by left|].
  destruct (shouldLogFlowEvent _ _); [|destruct (gather _ _ _ _ _) as [q2 d]; intros [= _ <- _ _]; by left].
  destruct (emitFlowEvent _ _ _ _ _ _) as [[q2 flow] entries] eqn:E2.
  destruct (bool_decide _); [|intros [= _ <- _ _]; by left].
  destruct (clear _ _ _ _) as [c2 ok2] eqn:E3. intros [= _ <- <- _]. right. split.
  - exists q2. rewrite E3. split; [done|].
    rewrite (emitFlow_token _ _ _ _ _ _ _ _ E2). change q1 with (q1, b).1. rewrite <- E1. apply enabled_token.
  - exists (Ready flow). rewrite !elem_of_app. set_solver.
Qed.

Lemma held_flow_op now op q (c : C) q' c' log t f : flowless q -> now <= t -> run_op now op q c = (q', c', log) ->
  held_flow c' t f -> held_flow c now f.
Proof.
  intros [(m & Hm & Hid) _] Ht. destruct op as [|signal type|token|old new|event data|reply]; cbn.
  - intros [= _ <- _]. by apply held_flow_later.
  - intros [= _ <- _]. by apply held_flow_later.
  - unfold stash. destruct (q_payload q) as [p|]; [|intros [= _ <- _]; by apply held_flow_later]. rewrite Hm, context_changed, Hm. cbn.
    destruct (getKey digest token) as [k|]; [|intros [= _ <- _]; by apply held_flow_later].
    intros [= _ <- _] [Hh|Hv]%held_flow_add; [by eapply held_flow_later| |done]. cbn in Hv. congruence.
  - intros [= _ <- _]. unfold propagate. destruct (getKey digest old) as [k|]; [cbn|by apply held_flow_later].
    destruct (cache_get c k now) as [[md|]|] eqn:Eg; [|by apply held_flow_later|by apply held_flow_later].
    destruct (getKey digest new) as [k'|]; [|by apply held_flow_later].
    intros [Hh|Hv]%held_flow_add; [by eapply held_flow_later| |done]. apply cache_get_ok in Eg. by exists k, md.
  - destruct (emit _ _ _ _ _ _ _) as [[[q1 c1] l] ok] eqn:E. intros [= _ <- _].
    apply emit_cache in E as [->|[(q2 & -> & _) _]]; [by apply held_flow_later|].
    intros Hh%held_flow_clear; [by eapply held_flow_later|done].
  - destruct (emitRouteFlowEvent _ _ _ _ _ _) as [q1 l]. intros [= _ <- _]. by apply held_flow_later.
Qed.

(** Steps in the order of their times, from [t] on, and the time of the last. *)
Fixpoint in_order (t : Z) (ops : list (Z * MetricsOp)) : Prop :=
  match ops with [] => True | (now, _) :: ops => t <= now /\ in_order now ops end.

Fixpoint last_time (t : Z) (ops : list (Z * MetricsOp)) : Z :=
  match ops with [] => t | (now, _) :: ops => last_time now ops end.

Lemma in_order_last t ops : in_order t ops -> t <= last_time t ops.
Proof.
  revert t. induction ops as [|[now op] ops IH]; intros t; cbn; [done|]. intros [Ht Hops%IH]. lia.
Qed.

Lemma flowless_ops t0 ops q (c : C) q' c' log : flowless q -> in_order t0 ops -> run_ops ops q c = (q', c', log) ->
  unlogged log /\ forall t f, last_time t0 ops <= t -> held_flow c' t f -> held_flow c t0 f.
Proof.
  revert t0 q c q' c' log. induction ops as [|[now op] ops IH]; intros t0 q c q' c' log Hq Hord; cbn.
  { intros [= _ <- <-]. split; [apply unlogged_nil|]. intros t f. apply held_flow_later. }
  destruct Hord as [Ht Hord]. destruct (run_op now op q c) as [[q1 c1] l1] eqn:E1.
  destruct (run_ops ops q1 c1) as [[q2 c2] l2] eqn:E2. intros [= _ <- <-].
  destruct (flowless_op _ _ _ _ _ _ _ Hq E1) as [Hq1 Hl1]. destruct (IH now q1 c1 q2 c2 l2 Hq1 Hord E2) as [Hl2 Hh].
  split; [by apply unlogged_app|]. intros t f Hlast Hf. eapply (held_flow_later _ _ now); [done|].
  eapply (held_flow_op now op q c q1 c1 l1 now); [done|done|done|]. by eapply Hh.
Qed.

(** [C21] A flow id that does not pass validation is gone: when [validate] has
    refused the context of a request, then whatever the handler does next -
    set the completion signal, stash the context for tokens, pass contexts on
    from one token to another, emit events, log the response, validate again -
    no flow event is logged for the request, and the cache holds no flow id
    that it did not hold before. *)
Theorem forged_flow_unlogged now q (c : C) ops q' c' log :
  is_Some (context_of q) -> q.(q_found) = None -> (validate config now q).2 = false -> in_order now ops ->
  run_ops ops (validate config now q).1 c = (q', c', log) ->
  unlogged log /\ forall t f, last_time now ops <= t -> held_flow c' t f -> held_flow c now f.
Proof.
  intros [m Hm] Hfound Hv Hord Hrun. eapply flowless_ops; [|done|done].
  unfold validate in *. destruct (invalid_reason _ _ _); [|done]. cbn. split; [|by left].
  exists (without_flow m). unfold logInvalidContext. by rewrite context_changed, Hm.
Qed.

(** *** What a token holds *)

Lemma cache_add_keeps now k v (c : C) t j m : now <= t -> cached c t !! j = Some m -> cached (cache_add c k v now).1 t !! j = Some m.
Proof.
  intros Ht Hj. destruct (cache_add c k v now) as [c' r] eqn:E. cbn. destruct (decide (j = k)) as [->|Hne].
  - rewrite (cache_add_held _ _ _ _ _ _ t E Ht); [done|]. exists m. eapply lookup_weaken; [done|]. by apply cached_expires.
  - by rewrite (cache_add_other _ _ _ _ _ _ t j E Ht Hne).
Qed.

(** The flow of a token ends with an event of a request under this token. *)
Definition completed (k : string) (q : Request) (op : MetricsOp) (log : list Entry) : Prop :=
  getKey digest (getToken q) = Some k /\ (exists event data, op = OpEmit event data) /\ exists ctx, AmplitudeEvent "flow.complete" ctx ∈ log.

Lemma op_keeps now op q (c : C) q' c' log k m t : now <= t -> run_op now op q c = (q', c', log) ->
  cached c t !! k = Some m -> cached c' t !! k = Some m \/ completed k q op log.
Proof.
  intros Ht. destruct op as [|signal type|token|old new|event data|reply]; cbn.
  - intros [= _ <- _]; auto.
  - intros [= _ <- _]; auto.
  - unfold stash. destruct (q_payload q) as [p|]; [|intros [= _ <- _]; auto]. destruct (context_of q) as [m0|]; [|intros [= _ <- _]; auto].
    destruct (getKey digest token); [|intros [= _ <- _]; auto]. destruct (context_of (change_context _ _)); [|intros [= _ <- _]; auto].
    intros [= _ <- _] Hk. left. by apply cache_add_keeps.
  - intros [= _ <- _] Hk. left. unfold propagate. destruct (getKey digest old) as [k1|]; [cbn|done].
    destruct (cache_get c k1 now) as [[md|]|]; [|done|done]. destruct (getKey digest new); [by apply cache_add_keeps|done].
  - destruct (emit _ _ _ _ _ _ _) as [[[q1 c1] l] ok] eqn:E. intros [= _ <- <-] Hk.
    apply emit_cache in E as [->|[(q2 & -> & Htok) Hctx]]; [by left|]. unfold clear. rewrite Htok.
    destruct (getToken q) as [tok|] eqn:Etok; [|by left]. destruct (getKey digest (Some tok)) as [k1|] eqn:Ek; [|by left].
    destruct (decide (k = k1)) as [<-|Hne]; [right; split_and!; [by rewrite Etok|by eauto|done]|]. left.
    destruct (cache_del c k1 now) as [c2 r] eqn:Ed. cbn. by rewrite (cache_del_other _ _ _ _ _ t k Ed Ht Hne).
  - destruct (emitRouteFlowEvent _ _ _ _ _ _) as [q1 l]. intros [= _ <- _]; auto.
Qed.

(** Steps of any requests, one after the other. *)
Fixpoint run_steps (steps : list (Z * Request * MetricsOp)) (c : C) : C * list (Request * MetricsOp * list Entry) :=
  match steps with
  | [] => (c, [])
  | (now, q, op) :: steps =>
      let '(_, c, log) := run_op now op q c in
      let '(c, logs) := run_steps steps c in (c, (q, op, log) :: logs)
  end.

(** A request with the token of [k] and no context of its own. *)
Definition reads (k : string) (q : Request) : Prop :=
  context_of q = None /\ q.(q_found) = None /\ getKey digest (getToken q) = Some k.

Lemma gather_cached k q (c : C) t m : reads k q -> is_Some (cache_get c k t) -> cached c t !! k = Some m ->
  let d := (gather digest t q c no_data).2 in
  d.(d_flow_id) = m.(m_flowId) /\ d.(d_flow_time) = calculateFlowTime t m.(m_flowBeginTime) /\
  d.(d_flowCompleteSignal) = m.(m_flowCompleteSignal) /\
  d.(d_marketing) = if bool_decide (q.(q_dnt) = Some "1") then no_marketing else m.(m_marketing).
Proof.
  intros (Hctx & Hfound & Hkey) [r Hr] Hm. unfold gather, metricsContext. rewrite Hfound. unfold get. rewrite Hctx, Hkey, Hr.
  apply cache_get_ok in Hr. rewrite Hm in Hr. subst r. done.
Qed.

(** [C22] The context of a flow is the one that was stashed first: what the
    cache holds for a token, and keeps until [t], is not changed by anything
    that requests do up to [t] - no later stash replaces it, so the campaign
    of a flow cannot be changed on the way - unless a request with this token
    completes the flow, which is then announced; and until then every request
    with the token and no context of its own gathers the flow id, the flow
    time, the completion signal and, without do-not-track, the campaign of
    that context. *)
Theorem flow_context_kept steps (c c' : C) logs k m t :
  cached c t !! k = Some m -> Forall (fun s => s.1.1 <= t) steps -> run_steps steps c = (c', logs) ->
  (exists e, e ∈ logs /\ completed k e.1.1 e.1.2 e.2) \/
  cached c' t !! k = Some m /\
  forall q, reads k q -> is_Some (cache_get c' k t) ->
    let d := (gather digest t q c' no_data).2 in
    d.(d_flow_id) = m.(m_flowId) /\ d.(d_flow_time) = calculateFlowTime t m.(m_flowBeginTime) /\
    d.(d_flowCompleteSignal) = m.(m_flowCompleteSignal) /\
    d.(d_marketing) = if bool_decide (q.(q_dnt) = Some "1") then no_marketing else m.(m_marketing).
Proof.
  revert c c' logs. induction steps as [|[[now q] op] steps IH]; intros c c' logs Hm Hle; cbn.
  { intros [= <- _]. right. split; [done|]. intros q Hq Hr. by eapply gather_cached. }
  apply Forall_cons in Hle as [Hnow Hle]. cbn in Hnow. destruct (run_op now op q c) as [[q1 c1] log] eqn:E1.
  destruct (run_steps steps c1) as [c2 logs2] eqn:E2. intros [= <- <-].
  eapply op_keeps in E1 as [Hk|Hk]; [|left; exists (q, op, log); split; [by left|done]|done|done].
  destruct (IH c1 c2 logs2 Hk Hle E2) as [(e & He & Hc)|Hrest]; [left; exists e; split; [by right|done]|by right].
Qed.
End Runs.

(** ** A cache on which no command fails *)

Record MapCache := mkMapCache { entries : gmap string (Metadata * Z); lifetime : Z }.

Definition live (c : MapCache) (t : Z) : gmap string Metadata :=
  omap (fun e : Metadata * Z => if t <? e.2 then Some e.1 else None) c.(entries).

#[export] Instance map_cache : Cache MapCache := {
  cache_get c k t := Some (live c t !! k);
  cache_add c k v t :=
    match live c t !! k with
    | Some _ => (c, Some false)
    | None => (mkMapCache (<[k := (v, t + c.(lifetime))]> c.(entries)) c.(lifetime), Some true)
    end;
  cache_del c k t := (mkMapCache (delete k c.(entries)) c.(lifetime), Some true);
  cached := live }.

Lemma live_lookup c t k : live c t !! k = e ← c.(entries) !! k; if t <? e.2 then Some e.1 else None.
Proof. apply lookup_omap. Qed.

Lemma live_insert c k e l t j : j <> k -> live (mkMapCache (<[k := e]> c.(entries)) l) t !! j = live c t !! j.
Proof. intros Hne. rewrite !live_lookup. cbn. by rewrite lookup_insert_ne. Qed.

Lemma live_delete c k l t : live (mkMapCache (delete k c.(entries)) l) t = delete k (live c t).
Proof.
  apply map_eq. intros j. rewrite live_lookup. cbn. destruct (decide (j = k)) as [->|Hne].
  - by rewrite !lookup_delete_eq.
  - by rewrite !lookup_delete_ne, live_lookup.
Qed.

#[export] Instance map_cache_laws : CacheLaws MapCache.
Proof.
  constructor; cbn.
  - by intros c k t r [= <-].
  - intros c t t' Ht. apply map_subseteq_spec. intros k m. rewrite !live_lookup. destruct (c.(entries) !! k) as [[m' e]|]; [cbn|done].
    destruct (Z.ltb_spec t' e); [|done]. destruct (Z.ltb_spec t e); [done|lia].
  - intros c k v t c' r t' E _ [m Hm]. rewrite Hm in E. by injection E as <- _.
  - intros c k v t c' r t' E _ j m. destruct (live c t !! k) eqn:Hk; injection E as <- _; [by left|].
    destruct (decide (j = k)) as [->|Hne]; [|rewrite live_insert by done; by left]. rewrite live_lookup. cbn. rewrite lookup_insert_eq. cbn.
    destruct (_ <? _); [intros [= <-]; by right|done].
  - intros c k v t c' r t' j E _ Hne. destruct (live c t !! k); injection E as <- _; [done|]. by apply live_insert.
  - intros c k t c' t' [= <-] _. apply live_delete.
  - intros c k t c' r t' j [= <- _] _ Hne. rewrite live_delete. by apply lookup_delete_ne.
  - intros c k t c' r t' [= <- _] _. rewrite live_delete. apply delete_subseteq.
Qed.

(** ** Examples *)

Definition a_config : MetricsConfig := mkMetricsConfig "secret" 7200000.
Definition a_flow : Z * string := create (H := toy_crypto) "secret" (toy 5 16) 1000.
Definition a_campaign : Marketing :=
  mkMarketing (Some "menupanel") None None (Some "spring") None None None None None None.
Definition a_context (flowId : string) : Metadata :=
  mkMetadata (Some "d") (Some flowId) (Some 1000) a_campaign None None None.
Definition a_request (context : option Metadata) (token : option Token) : Request :=
  mkRequest (Some (mkPayload context (Some "sync") None None None None)) None
    ((fun t => mkCredential t.(tk_uid) t.(tk_id) None None) <$> token) None None None None None None "/v1/account/login" 12 None None.
Definition a_token : Token := mkToken (Some "u") (Some "t").
Definition all_enabled : Accounts := mkAccounts (fun _ => None) (fun _ => true).
Definition an_empty_cache : MapCache := mkMapCache ∅ 100000.

Lemma flow_id_servers_agree_witness :
  (validate (H := toy_crypto) a_config 1001 (a_request (Some (a_context a_flow.2)) None)).2 = true /\
  (validate (H := toy_crypto) a_config 1000 (a_request (Some (a_context a_flow.2)) None)).2 = false.
Proof.
  pose proof (@flow_id_servers_agree toy_crypto toy_laws a_config 1001 (a_request (Some (a_context a_flow.2)) None) (a_context a_flow.2) a_flow.2 1000
    eq_refl eq_refl eq_refl ltac:(vm_compute; reflexivity)) as (_ & H & _).
  split; [|vm_compute; reflexivity]. apply H; [vm_compute; reflexivity|]. split; [split; [lia|cbn; lia]|]. vm_compute. reflexivity.
Defined.

(** The same id with its signature in upper case. *)
Definition capital_flow : string := "050c131a21282f363d444b525960676eD0D7DEE5ECF3FA01080F161D242B3239".

Lemma capital_signature_differs_witness :
  (validate (H := toy_crypto) a_config 1001 (a_request (Some (a_context capital_flow)) None)).2 = true /\
  validate_flow (H := toy_crypto) "secret" capital_flow 1000 = false.
Proof.
  apply (@capital_signature_differs toy_crypto toy_laws a_config 1001 (a_request (Some (a_context capital_flow)) None) (a_context capital_flow)
    a_flow.2 1000 "D0D7DEE5ECF3FA01080F161D242B3239").
  1-7: vm_compute; reflexivity.
  - vm_compute. discriminate.
  - split; [lia|cbn; lia].
Defined.

(** A request with a forged flow id. *)
Definition a_forgery : Request := a_request (Some (a_context (to_hex (toy 6 32)))) None.
Definition a_handler : list (Z * MetricsOp) :=
  [(1001, OpSignal (Some "account.login") (Some "login")); (1002, OpStash (Some a_token)); (1003, OpEmit "account.login" None);
   (1004, OpRoute (mkReply 200 None))].

Lemma forged_flow_unlogged_witness :
  (validate (H := toy_crypto) a_config 1001 a_forgery).2 = false /\
  unlogged (run_ops (H := toy_crypto) a_config id all_enabled a_handler (validate (H := toy_crypto) a_config 1001 a_forgery).1 an_empty_cache).2.
Proof.
  assert ((validate (H := toy_crypto) a_config 1001 a_forgery).2 = false) as Hv by (vm_compute; reflexivity).
  split; [exact Hv|]. destruct (run_ops _ _ _ _ _ _) as [[q' c'] log] eqn:E.
  apply (@forged_flow_unlogged toy_crypto a_config id all_enabled MapCache map_cache map_cache_laws 1001 a_forgery an_empty_cache a_handler q' c' log);
    [eexists; reflexivity|reflexivity|exact Hv|cbn; lia|exact E].
Defined.

(** A login stashes its context; a second one under another campaign, and an
    event of a later request. *)
Definition a_stash : MapCache := (stash id 2000 (Some a_token) (a_request (Some (a_context a_flow.2)) None) an_empty_cache).2.
Definition other_campaign : Metadata := mkMetadata None (Some "f") (Some 2001) no_marketing None None None.
Definition some_steps : list (Z * Request * MetricsOp) :=
  [(2001, a_request (Some other_campaign) None, OpStash (Some a_token));
   (2002, a_request None (Some a_token), OpEmit "account.keyfetch" None)].

Definition still_open (log : list Entry) : bool :=
  forallb (fun e => match e with AmplitudeEvent event _ => negb (String.eqb event "flow.complete") | _ => true end) log.

Lemma still_open_spec k q op log : still_open log = true -> ~ completed id k q op log.
Proof.
  unfold still_open. rewrite forallb_forall. intros Hall (_ & _ & ctx & Hin%list_elem_of_In). by apply Hall in Hin.
Qed.

Lemma flow_context_kept_witness :
  exists m, cached a_stash 3000 !! "ut" = Some m /\ m.(m_marketing) = a_campaign /\
  cached (run_steps (H := toy_crypto) a_config id all_enabled some_steps a_stash).1 3000 !! "ut" = Some m.
Proof.
  eexists. split; [vm_compute; reflexivity|]. split; [reflexivity|].
  destruct (run_steps _ _ _ _ _) as [c' logs] eqn:E.
  destruct (@flow_context_kept toy_crypto a_config id all_enabled MapCache map_cache map_cache_laws some_steps a_stash c' logs "ut" _ 3000
    ltac:(vm_compute; reflexivity) ltac:(repeat constructor; cbn; lia) E) as [(e & He & Hc)|[Hk _]]; [exfalso|exact Hk].
  assert (forallb (fun e => still_open e.2) (run_steps (H := toy_crypto) a_config id all_enabled some_steps a_stash).2 = true) as Ho
    by (vm_compute; reflexivity).
  rewrite E, forallb_forall in Ho. apply (still_open_spec "ut" e.1.1 e.1.2 e.2); [|exact Hc]. by apply Ho, list_elem_of_In.
Defined.

(** ** Opting out *)

(** A request of a session whose user has opted out. *)
Definition opted_out : Request :=
  mkRequest (Some (mkPayload (Some (a_context a_flow.2)) None None None None None)) None
    (Some (mkCredential (Some "u") (Some "t") None (Some 5))) None None None None None None "/v1/account/login" 12 None None.

(** Opting out silences [emit], but not the flow events of responses: they are
    logged with the flow and the user. *)
Example opted_out_route_logged :
  (emit id all_enabled 1001 "account.login" None opted_out an_empty_cache).1.2 = [] /\
  exists data, FlowEvent data ∈ (emitRouteFlowEvent (H := toy_crypto) a_config id 1001 (mkReply 200 None) opted_out an_empty_cache).2 /\
    data.(d_uid) = Some "u" /\ data.(d_flow_id) = Some a_flow.2.
Proof. split; [reflexivity|]. eexists. split; [by left|]. split; reflexivity. Qed.

(** Events that are no flow events reach amplitude without their context: the
    promise of it is passed on, not its value. *)
Example unawaited_context :
  (emit id all_enabled 1001 "device.created" None (a_request (Some (a_context a_flow.2)) None) an_empty_cache).1.2 =
  [ErrorLine "log.activityEvent"; AmplitudeEvent "device.created" Pending].
Proof. reflexivity. Qed.
